(* ===== verification/_CoqProject ===== *)
-Q . S2P
Prelude.v
Job.v
QueueStore.v
QueueLaws.v
QueuePurge.v
QueueRuns.v
QueueProps.v
QueueDeps.v
QueueReads.v
Worker.v
Facade.v
Scope.v
Acl.v
Registry.v
TenantGuard.v
Windowing.v
Spans.v
Masking.v
PrivacyPass.v
Text.v
ProjectLinks.v
ProjectBody.v
ProjectTitle.v
ProjectScan.v
ProjectEdit.v
ProjectHistory.v
ProjectExport.v
ProjectServer.v
Notes.v
Markdown.v
NoteStore.v
Vault.v
VaultWrite.v
VaultEdit.v
VaultHistory.v
VaultArchive.v
VaultRestore.v
PrivacyBlock.v
PrivacyProps.v
VaultWitness.v
GatewayTypes.v
Translate.v
AnthropicStream.v
StreamProtocol.v
StreamContent.v
StreamKeepAlive.v
TranslateProps.v
Breaker.v
RateLimit.v
GatewayDispatch.v
GatewayProps.v
GatewayWitness.v
EngineConfig.v
EngineSupervisor.v
EngineSafety.v
EngineCheck.v
EngineServer.v
EngineWitness.v
Float.v
RankFusion.v
SearchIndex.v
SearchServer.v
SearchSafety.v
SearchQuery.v
SearchLessons.v
SearchWitness.v
SessionTrace.v
ContextRetrieval.v
ContextPack.v
SessionProps.v
ContextProps.v
ContextSession.v
ContextWitness.v
Distill.v
Calls.v
Curator.v
Handlers.v
HandlerProps.v
PersistServer.v
HandlerWitness.v
