(* ===== verification/Prelude.v ===== *)
(** * Gradatum: a verified model of its job queue, access control, vaults of notes,
    privacy, project map, search, contexts, job handlers, model gateway and inference engine

    Gradatum is a multi-tenant knowledge server written in Rust: notes live in vaults,
    background work runs through a durable job queue, every request passes tenant and
    access guards before it touches a vault, every note is a markdown file with an index
    row, a history of versions and an archive, every body written is first searched for
    personal data, and the cards of the project map carry typed links from which titles,
    exports and feature numbers are derived.  Notes are searched by their words and by their
    meaning, over one vault or several, and the two rankings are fused.  An agent asks for a
    context: the notes that fit a budget of tokens, each sent once per session, with a
    journal of what the session did.  The jobs of the queue curate, embed, purge, forget and
    distil notes.  A gateway stands between its clients and
    the language models: it speaks two protocols, translates one into the other, streams
    included, and protects its backends with breakers and limits.  An engine supervises the
    process that runs a model and proxies requests to it.  This library models these parts and proves
    what they promise.  This file is its root: the documentation of the whole, and the
    prelude the other files share.

    ** The program and its model

    Job queue.
    - Job.v: the job types of [crates/gradatum-core/src/job.rs]: the [Job] enum with all
      its payloads, [JobRecord] and its blocks, routing ([job_kind_str], [spec_tenant]),
      priorities, terminal states and the retry backoff.
    - QueueStore.v: [SqliteQueueStore] ([crates/gradatum-db-sqlite/src/queue_store_sqlite.rs]).
      A [store] is the table [gradatum_jobs], the idempotency table, the leadership slot
      and the list of broadcast events; there is one definition per operation of
      [impl QueueStore], in a small state-and-error monad, with one definition per
      critical section where the code releases its lock midway.
    - QueueLaws.v: the abstract specification [row_step] (the transitions a job row may
      take, with their guards), the table invariant [table_ok], and, operation by
      operation, the proofs that the code refines the one and keeps the other.
    - QueueRuns.v: [call], [run_call], [run_calls]: any sequence of operations, each ending
      before the next starts, and the laws lifted to runs; and [step], [run_steps]: sequences
      in which the decisions of [promote_retries] on single rows, made on what it selected
      earlier and under locks of their own, come between other operations.  At its end,
      concrete jobs and stores for the witnesses.
    - QueueProps.v, QueueDeps.v (dependencies, retries), QueueReads.v (reads, tenants),
      QueuePurge.v: the properties, by theme.
    - Worker.v: the acknowledgement of a finished task ([apalis_backend.rs]), the leader
      election ([leader.rs]) and the periodic sweep ([schedules.rs]) of
      [crates/gradatum-worker].
    - Facade.v: the [QueueStore] trait as a class with its default methods, and its two
      implementations, [SqliteQueueStore] and [GradatumQueue].

    Access control.
    - Scope.v: identifiers, grants and tenant states ([crates/gradatum-core/src/scope.rs]),
      the trust context ([trust.rs]) and the write scopes of API keys.
    - Acl.v: the policy engine ([crates/gradatum-acl-policy/src/lib.rs]).  The globset crate
      is the class [Globset]; its one law is the documented meaning of a set of globs.
    - Registry.v: the tables of tenants, tenant grants, agent grants and code vaults, with
      their operations ([crates/gradatum-index/src/sqlite.rs]), and the class [IndexStore]
      through which the guards read them.
    - TenantGuard.v: the guards of [crates/gradatum-server/src/api_v1/tenant_guard.rs] and
      the tenant authorisation of [middleware.rs], proved against [IndexStore] and then
      instantiated with the registry.

    Privacy.
    - Windowing.v: cutting a body into overlapping windows
      ([crates/gradatum-privacy/src/windowing.rs]).
    - Spans.v: validating and fusing detected spans ([merge.rs] of the same crate).
    - Masking.v: score conversion, marking, exceptions and the rewriting of a body
      ([crates/gradatum-core/src/pii.rs]); the digest of a pattern is a parameter.
    - PrivacyPass.v: the pass of a write ([crates/gradatum-vault/src/privacy.rs]); the
      detector and the thread it runs on are the class [PiiDetector].

    Project map ([crates/gradatum-core/src/project_map.rs], and its users on the server).
    - Text.v: Rust's [str] as a list of code points, with the operations the code uses
      (trimming, splitting, lines, byte lengths and offsets).
    - ProjectLinks.v: the closed vocabularies, each an instance of the class [Wire], and
      [derive_release]; typed links, their parser [parse_link], and the schema of a card
      ([validate_links]).  The ulid crate is the class [UlidParser], without any law.
    - ProjectBody.v: the structural zone of a body, the validation of a body, and what
      readers take from it; ProjectScan.v: how the scan reacts to edits of a body.
    - ProjectTitle.v: the canonical title of a card.
    - ProjectEdit.v, ProjectHistory.v: the two edits of a body in place, the value of a
      typed role and a line of the history section.
    - ProjectExport.v: the structure index, the stored and the derived export, the listing
      of cards.
    - ProjectServer.v: wikilinks ([crates/gradatum-curator/src/wikilinks.rs]), the paged
      listing and the allocator of feature numbers ([crates/gradatum-index/src/sqlite.rs]),
      the resolution of tracks and the creation of a feature card
      ([crates/gradatum-server/src/api_v1/logic.rs]).

    Vault of notes ([crates/gradatum-vault], with the crates it writes through).
    - Notes.v: the TOML values of the frontmatter, status, sections, tags,
      provenance, authors, history settings and the frontmatter itself
      ([crates/gradatum-core]); Markdown.v: the parser and the writer of a note file
      ([crates/gradatum-markdown/src/parser.rs], [writer.rs]).  The YAML library is the
      class [Yaml], the content hash the class [ContentHasher]; that what is printed reads
      back is the class [YamlLaws], that everything prints the class [YamlPrints], and both
      are hypotheses of the theorems on vaults that need them.
    - NoteStore.v: the files ([crates/gradatum-storage/src/file.rs], the write guard), the
      index rows with their full-text postings, the registry of archives
      ([crates/gradatum-index]) and the cache.  Which disk operations fail is the class
      [Disk]: any of them may, and a failed one changes nothing.
    - Vault.v: the [vault] record (files, index, cache) and the operations of
      [crates/gradatum-vault/src/lifecycle.rs] and [write.rs]: writing with its history
      and compare-and-swap, reading, the changes of status, locus and tags, deletion,
      archive, restore and the collection of archives.  The stage of the privacy judgement
      inside a write is the class [PrivacyStage].
    - VaultWrite.v, VaultEdit.v, VaultHistory.v, VaultArchive.v, VaultRestore.v: the
      properties, by theme, proved against the class [PrivacyLaws] where they depend on
      the judgement.
    - PrivacyBlock.v: the block a judgement leaves on a note, its tags, and the
      re-judgement of a vault ([privacy_block.rs], [privacy_rescan.rs],
      [privacy_observer.rs]); its [frontier_stage] is the [PrivacyStage] of the program,
      and PrivacyProps.v discharges [PrivacyLaws] for it.
    - VaultWitness.v: a concrete disk, hash, YAML and detector, and the theorems at work
      on them.

    Gateway ([crates/gradatum-gateway]).
    - GatewayTypes.v: JSON values, with objects as the association lists of [serde_json::Map] in
      the order of the keys; the text form is the class [SerdeJson], whose one law
      ([SerdeJsonLaws]) is that parsing undoes printing; then the requests, answers
      and stream chunks of both protocols ([chat.rs], [streaming.rs], [anthropic.rs]).
    - Translate.v: the translation of requests, answers, stop reasons and tool schemas
      ([anthropic/translate.rs]); TranslateProps.v: its properties.
    - AnthropicStream.v: the state machine of the translated stream ([process_chunk]) and
      the loop that polls the backend and sends keep-alives ([anthropic/stream.rs]).  An
      event is a constructor until it is rendered.  StreamProtocol.v: the automaton of a
      client of the protocol and the simulation; StreamContent.v, StreamKeepAlive.v: what
      a client reads.
    - Breaker.v, RateLimit.v: the circuit breaker and the limiter of requests
      ([circuit_breaker.rs], [rate_limit.rs]).
    - GatewayDispatch.v: the choice of an alias by the router ([smart_router.rs]), the
      handlers [chat.rs] and [messages.rs] with their guards, the
      call of a provider and the fallback; the providers, the curator and the clock are
      the class [Backends].  GatewayProps.v: their properties; GatewayWitness.v: concrete
      backends, and the inputs behind the findings.

    Inference engine ([crates/gradatum-engine]).
    - EngineConfig.v: the addresses of the standard library and the parsers of their
      literals; the configuration, its validation, the arguments and the environment
      of the child process and the construction of the supervisor ([config.rs],
      [supervisor.rs]); [canonicalize] is the class [FileSystem].
    - EngineSupervisor.v: [supervise_loop], [wait_ready] and [shutdown] as a machine of
      interleaved steps around the mutex of the child; EngineSafety.v: its invariants.
    - EngineCheck.v: the guards of the start and the check that predicts them
      ([bin/gradatum-engine.rs]); the host is the class [Host], without any law.
    - EngineServer.v: the proxied request, the sink of events and the published health
      ([server.rs], [runtime.rs], [sink.rs], [health.rs]); EngineWitness.v: a concrete host
      and the theorems at work on it.

    Search ([crates/gradatum-search], [crates/gradatum-index] and the handler of the server).
    - Float.v: the doubles and singles of IEEE-754, on the Standard Library's specification,
      and the stable sort of slices; [exp] and [powf] are the class [Libm].
    - RankFusion.v: the factors of a score and the two fusions of rankings ([scoring.rs],
      [rrf.rs]).
    - SearchIndex.v: the full-text and semantic searches and the batch reads of the index
      ([sqlite.rs], [queries.rs]).  MATCH, bm25 and snippet of FTS5 and the parser of ULIDs
      are parameters.
    - SearchServer.v: [vault_search_impl] ([api_v1/logic.rs],
      [handlers.rs]) on one vault and on several, with its filters, its guards and the usage
      it records; which reads of the index fail is a parameter, as are the embedder and the
      reranker.
    - SearchSafety.v: what a search may show; SearchQuery.v: what FTS5 reads
      in the text of a query; SearchLessons.v: the recall of lessons; SearchWitness.v: a
      concrete index.

    Contexts ([crates/gradatum-server/src/context], and the journal of sessions).
    - SessionTrace.v: the journal ([crates/gradatum-index/src/session_trace.rs]): a table of
      traces per tenant, what a session was sent, the pages of the audit.  The texts of
      dates are the class [Chrono], which calls of the table fail the class [TraceFaults].
      SessionProps.v: its properties.
    - ContextRetrieval.v: the texts of a context (the estimate of tokens, whose crate is the
      class [TokenEstimator], the references, the rendering), the
      candidates of a query, their scores and the selection within the budget.
    - ContextPack.v: the assembled, raw and compact views, the skills and their cache, and
      the handler [vault_context_impl].  An embedder that times out is one that fails.
    - ContextProps.v, ContextSession.v: the properties; ContextWitness.v: a concrete index
      and session.

    Job handlers ([crates/gradatum-worker], [gradatum-curator], [gradatum-distill]).
    - Distill.v: the clusters of notes by union-find ([distill_cluster.rs]), the trust and
      the text of a synthesis ([trust.rs], [synthesizer.rs]) and its quality
      ([quality_score.rs]).  Unicode's case tables are the class [CaseTables].
    - Calls.v: a handler as a program of calls to the internal API of the server
      ([internal_client.rs]), the queue, the embedder, the models and the clock.  Answers
      are arbitrary: a run of a program is its calls with the answers it was given, which
      stands for every state of the server and every interleaving with others.
    - Curator.v: the router of sections, the pipeline of curation and the detector of near
      duplicates ([routing.rs], [lib.rs], [decision.rs], [workflow.rs], [novelty.rs]); the
      regex crate is the class [Regex].
    - Handlers.v: the guards and the eight handlers ([apalis_handlers.rs], [wikilinks.rs]);
      the ulid and chrono crates, serde's reader of sections and the embedder's identity are
      the classes [UlidCodec], [ChronoParse], [SectionJson] and [EmbedderInfo], without any
      law.  HandlerProps.v: the properties of every run.
    - PersistServer.v: the server's side ([internal/persist.rs]): a curated note, a synthesis
      and a forgetting written to the vault of Vault.v, and the cascade of a deletion;
      HandlerWitness.v: a server with fixed answers.

    ** What the theorems show

    - Life cycle: every run of the queue moves every job along [row_step]; terminal states
      are final, also between the decisions of [promote_retries], except for the two writes
      without a guard (the dead-lettering of a job whose retries are exhausted is one, and a
      cancellation lost to it is shown); a lease is held by one worker at a time, and a stale one is recovered.
    - Dispatch: [dequeue] and [dequeue_by_kind] hand out the best eligible job, once.
    - Completion, dependencies, retries: the exact outcome of [complete] on every branch,
      of the cascade to dependents and its catch-up sweep, of [promote_retries] and of the
      backoff; one sweep leaves nothing due behind.  A job is promoted when it lists each of
      its dependencies once and all are done.
    - Purge: the batched loop ends and equals a one-pass reference, and its dry run
      announces the same number.
    - Reads: round trips, batches against the trait's default, pages that lose and repeat
      nothing.
    - Tenants on the queue: the calls of one tenant neither see nor touch another's rows.
    - Leadership: at most one fresh leader.
    - Policy: the compiled engine decides what the text of the preset says; refusals only
      ever tighten.
    - Guards: the exact conditions of reading one vault, reading several, and writing; a
      vault that is not active is closed to everyone; the middleware never blocks what a
      guard would serve; provisioning takes effect at once and touches nothing else.
    - Registry: through any history, tenants and code vaults stay apart and every row
      stays readable.
    - Privacy: the windows cover the body on character boundaries and hold every short
      entity whole; fusion keeps exactly the usable coverage; a completed pass read
      everything; masking equals a byte-by-byte reference and reveals no masked byte.
    - Project map: the link parser is the inverse of a printer, and the validator decides a
      declarative schema, whatever the order of the links; what the write path accepts is
      well formed for every reader; titles are stable, edits in place touch one value or
      insert one line; the exports lose no card; resolving a track ends over any number of
      pages; feature numbers are never reused, and a created card carries its number.  The
      conditions these need and the code does not check are part of the statements, with
      the inputs that break them.
    - Notes: the parser of a note file reads back the body to the byte and the very document
      that the writer printed for the frontmatter, when that document has no closing line.
    - Vault: a written note is read back; of compare-and-swaps that follow one another and
      start from the same version only the first wins (two whose comparisons come before
      either write both win, which is shown); overwritten versions stay in the history, which keeps the newest;
      archiving loses no text whatever the disk refuses, restoring brings the note back
      for review, the collection removes exactly what is due; status, locus and tags
      change as the life cycle says and otherwise not at all.
    - Privacy of notes: the marker of personal data is on a note exactly when the review, the
      pass and the policy say so (a recorded rejection binds it off, also over a changed
      body), reserved tags survive every write, and judging twice changes
      nothing.
    - Gateway streams: whatever chunks a backend sends, the client reads a well-formed
      message, with every text and every argument of a tool call in it; the stream of an
      answer that ends, ends once the timer has lost as many turns as it needs; a backend
      that does not answer leaves the client with pings.
    - Gateway translation: which requests are refused and what each accepted one becomes;
      tool results, tool calls, texts and images are carried by the role of their turn, and
      an assistant turn survives the way through both protocols; the sanitiser of schemas
      equals its recursive reading.
    - Gateway protection: the breaker opens at its threshold and not before, an open one
      lets nothing through during its cooldown whatever late outcomes are recorded, a half-open one a single probe (which, when lost, is never
      replaced); a limited client passes at most its number of requests in a window.
    - Gateway dispatch: a request with an image reaches no provider without vision; values
      the client gave are kept; a failed primary is replaced by its fallback.
    - Engine: the restarts follow the capped doubling and the budget in every interleaving,
      and start no second child beside a live one unless [wait] itself fails; where the loop waits for ever, or
      never gives up, is proved too, since the documents say otherwise.  A built supervisor
      confines its child; given an API key, the pre-flight check agrees with the start; answers pass through
      unchanged and leave honest events.
    - Search: whatever the index, the embedder and the reranker answer and whichever reads
      fail, every result is a row the caller may read and asked for; fusion ranks every
      candidate once; no character of a query is taken for syntax; the lessons recalled are
      the best uncodified ones of those fetched.  That a search whose semantic arm is empty
      turns the order of its scores around is proved too.
    - Contexts: the bodies of a context fit its budget; every note in it is one the caller
      may read, and, unless the query names a note, in the section asked for; through any
      history of requests the assembled contexts of a session send a note in full at most
      once, as long as its journal answers, and what they later tell of it stays as first
      sent; the compact view lists every earlier sending.
      That this view names notes whose access has since been withdrawn, and that the cache
      of skills serves the first tenant's to all, is proved too.  The pages of the journal
      hold each trace once, newest first, and end.
    - Job handlers: a job acts on its own vault; a dry run changes nothing (but for the
      validation of a synthesis, which ignores it); a purge deletes only what was garbage a
      moment before; a forgetting touches only what was confirmed, which must be exactly
      what its listing shows as not protected; a
      curation writes once and says what it did; without a language model every note lands
      in a known section; a deletion is refused when the row under the text of the request is
      protected (that another spelling of the identifier evades this is shown).  That a forgetting erases
      the text of the note, that the curation of a stored note resets its frontmatter, and
      that the sources of a synthesis are never marked is proved too.
    - Distillation: the clusters are the connected components of the graph of similar
      notes, and union-find never leaves its table.
    - Parsers and database texts: exactly what is accepted, and round trips.

    ** Conventions, bounds and fuel

    Instants are nanoseconds in [Z]; every reading of a clock is an argument, and two
    readings of one call are two arguments.  A [Ulid] is its 128-bit value.  Strings are
    byte strings; where the code counts characters, UTF-8 continuation bytes are skipped.
    In the project map and in notes, whose code trims and splits by character, a string is
    the list of its code points, and byte lengths and offsets are computed from it.
    TOML tables are association lists in the order of the file; a trust is its number of
    hundredths.  The files of a vault are a map from paths to texts: directories exist
    with their files.
    Machine integers are [Z] or [N] with their saturation or wrap-around written out.  Timestamps
    stored as RFC 3339 text compare like the instants they denote.  Where SQL leaves the
    order of equal rows open, the smaller identifier comes first.  The purge and count
    loops run on fuel one above the number of rows, and the paging walk likewise: every
    iteration but the last consumes a row, and the theorems prove the result for that
    fuel, so termination is part of them; the window loop runs on the length of the body,
    since its cursor advances at every turn.  The loops over the tokens of a line run on
    its length, since every turn consumes a token; the loop over pages runs
    on one more than the number of notes.  An error that only carries a message carries
    what it reports instead of the formatted text, except where the text itself matters.
    Floating-point numbers of the gateway's requests are carried as their bits; those of
    the search are computed with, each operation rounded as IEEE-754 says.  The
    answer of a backend is the list of its chunks, or its error; which turns of the
    keep-alive loop the timer wins is a list of booleans, one per turn, so every
    interleaving is one list, and the liveness theorem bounds the turns needed.

    ** What is not modelled, and why

    Failures of SQLite itself (busy, disk full), migrations, the async runtime, HTTP
    extraction, JWT and key cryptography, logging, the TOML, YAML and glob syntaxes,
    language models, embeddings, the web studio and the command-line tools are outside:
    they are other programs, or glue whose behaviour is that of a library.
    Of the vault, the batched reads, the per-vault overrides, the drift check of files
    against rows and the lookups of archived paths are left out.  Of the gateway, metrics,
    cost events, the log of requests and the HTTP clients are left out, and the body of an
    answer is read back as it was sent.  Of the engine, the parsing of the file, the messages
    and the metrics' histograms are left out.  Of the search, the nearest-neighbour
    extension and the compact rendering are left out, and a clause of SQL is the test it
    makes on a row.  Of contexts, the metrics are left out.  Of the job handlers,
    the HTTP client with its retries and the scheduled jobs are left out, and of the curator
    the modules its pipeline does not call (tags, fuzzy links, duplicates).  The other
    internal and public handlers, what these write to the index directly (titles, trust,
    dates, links, embeddings), the breaker of the sidecar detector, the ingestion of code and the deletion of a code vault from the index are not
    modelled. *)

From stdpp Require Export base tactics list strings gmap sorting numbers pretty.
From Stdlib Require Export ZArith Lia.

Declare Scope gradatum_scope.
Delimit Scope gradatum_scope with gradatum.
#[global] Open Scope gradatum_scope.

Create HintDb gradatum.
Create Rewrite HintDb gradatum.

(** ** Results: Rust's [Result<A, E>] *)

Inductive result (A E : Type) : Type :=
| Ok (a : A)
| Err (e : E).
Arguments Ok {A E} a.
Arguments Err {A E} e.

Definition result_bind {A B E} (c : result A E) (k : A → result B E) : result B E :=
  match c with Ok a => k a | Err e => Err e end.

Definition is_ok {A E} (c : result A E) : bool :=
  match c with Ok _ => true | Err _ => false end.

Definition map_err {A E F} (f : E → F) (c : result A E) : result A F :=
  match c with Ok a => Ok a | Err e => Err (f e) end.

(** [x ?<- c ; k] is the [?] operator: an error leaves the function. *)
Notation "x ?<- c ; k" := (result_bind c (λ x, k))
  (at level 60, c at next level, right associativity) : gradatum_scope.

Lemma Forall2_in_l {A B} (P : A → B → Prop) l l' x :
  Forall2 P l l' → x ∈ l → ∃ y, y ∈ l' ∧ P x y.
Proof.
  induction 1 as [|a b l l' Hab _ IH]; [by intros ?%not_elem_of_nil|].
  intros [->|Hx]%elem_of_cons; [exists b; split; [by left|done]|].
  destruct (IH Hx) as (y & ? & ?). exists y. split; [by right|done].
Qed.

Lemma Forall2_in_r {A B} (P : A → B → Prop) l l' y :
  Forall2 P l l' → y ∈ l' → ∃ x, x ∈ l ∧ P x y.
Proof. intros HP%Forall2_flip Hy. destruct (Forall2_in_l _ _ _ _ HP Hy) as (x & ? & ?). eauto. Qed.

(** [iter.map(f).collect::<Result<Vec<_>, _>>()]: the first error wins. *)
Fixpoint collect_results {A B E} (f : A → result B E) (l : list A) : result (list B) E :=
  match l with
  | [] => Ok []
  | x :: l' => y ?<- f x; ys ?<- collect_results f l'; Ok (y :: ys)
  end.

Lemma collect_results_fmap {A B E} (f : A → result B E) (g : A → B) (l : list A) :
  (∀ x, x ∈ l → f x = Ok (g x)) → collect_results f l = Ok (g <$> l).
Proof.
  induction l as [|x l IH]; intros Hf; simpl; [done|].
  rewrite (Hf x) by (by left). simpl. rewrite IH; [done|]. intros y Hy. apply Hf. by right.
Qed.

Lemma collect_results_Ok {A B E} (f : A → result B E) (l : list A) ys :
  collect_results f l = Ok ys → Forall2 (λ x y, f x = Ok y) l ys.
Proof.
  revert ys. induction l as [|x l IH]; intros ys; simpl; [by intros [= <-]|].
  destruct (f x) as [y|] eqn:E1; simpl; [|done].
  destruct (collect_results f l) as [ys'|]; simpl; [|done]. intros [= <-]. auto.
Qed.

(** ** Machine integers *)

Section machine_integers.
#[local] Open Scope Z_scope.

Definition u32_modulus : Z := 2 ^ 32.
Definition u64_max : Z := 2 ^ 64 - 1.
Definition usize_max : Z := u64_max.

(** [x as u32] for an integer of any wider type. *)
Definition as_u32 (x : Z) : Z := x `mod` u32_modulus.

Definition u64_saturating_mul (a b : Z) : Z := Z.min (a * b) u64_max.
Definition usize_saturating_add (a b : Z) : Z := Z.min (a + b) usize_max.
Definition usize_checked_add (a b : Z) : option Z :=
  if decide (a + b ≤ usize_max) then Some (a + b) else None.
Definition usize_saturating_sub (a b : Z) : Z := Z.max (a - b) 0.

Lemma as_u32_small x : 0 ≤ x < u32_modulus → as_u32 x = x.
Proof. apply Z.mod_small. Qed.
End machine_integers.

(** ** SQL comparisons with a nullable operand: NULL is never true *)

Section nullable.
#[local] Open Scope Z_scope.

Definition null_gt (x : option Z) (y : Z) : bool :=
  match x with Some v => bool_decide (y < v) | None => false end.

Definition null_lt (x : option Z) (y : Z) : bool :=
  match x with Some v => bool_decide (v < y) | None => false end.

(** [(?n IS NULL OR column <op> ?n)]: an absent parameter disables the clause. *)
Definition unless_null {A} (param : option A) (test : A → bool) : bool :=
  match param with Some a => test a | None => true end.
End nullable.

(** ** Strings as UTF-8 byte sequences *)

Section utf8.
(** A continuation byte: [0b10xxxxxx]. *)
Definition is_continuation (c : Ascii.ascii) : bool :=
  let n := Ascii.nat_of_ascii c in (128 <=? n)%nat && (n <? 192)%nat.

(** [s.chars().count()]. *)
Fixpoint chars_count (s : string) : nat :=
  match s with
  | EmptyString => 0
  | String c s' => (if is_continuation c then 0 else 1) + chars_count s'
  end.

(** [s.chars().take(n).collect::<String>()]. *)
Fixpoint chars_take (n : nat) (s : string) : string :=
  match s with
  | EmptyString => EmptyString
  | String c s' =>
      if is_continuation c then String c (chars_take n s')
      else match n with
           | 0 => EmptyString
           | S n' => String c (chars_take n' s')
           end
  end.

(** A string that does not start inside a code point, as every Rust [str] does. *)
Definition starts_on_boundary (s : string) : bool :=
  match s with EmptyString => true | String c _ => negb (is_continuation c) end.

Lemma chars_take_le n s : (chars_count (chars_take n s) ≤ n)%nat.
Proof.
  revert n. induction s as [|c s IH]; intros n; simpl; [lia|].
  destruct (is_continuation c) eqn:E; simpl; rewrite ?E; [apply IH|].
  destruct n as [|n]; simpl; rewrite ?E; [lia|]. specialize (IH n). lia.
Qed.

Lemma chars_take_all n s : (chars_count s ≤ n)%nat → chars_take n s = s.
Proof.
  revert n. induction s as [|c s IH]; intros n; simpl; [done|].
  destruct (is_continuation c); simpl; [intros; f_equal; auto|].
  destruct n; simpl; [lia|]. intros. f_equal. apply IH. lia.
Qed.
End utf8.

(** ** Lists *)

Lemma omap_ext_in {A B} (f g : A → option B) (l : list A) :
  (∀ x, x ∈ l → f x = g x) → omap f l = omap g l.
Proof.
  induction l as [|x l IH]; intros Hfg; [done|]. cbn [omap list_omap].
  rewrite (Hfg x) by (by left). rewrite IH; [done|]. intros y Hy. apply Hfg. by right.
Qed.

Section lists.
Context {A : Type}.

(** The element no other beats, first of the equals: [ORDER BY … LIMIT 1]. *)
Fixpoint pick_best (better : A → A → bool) (l : list A) : option A :=
  match l with
  | [] => None
  | x :: l' =>
      match pick_best better l' with
      | None => Some x
      | Some y => if better y x then Some y else Some x
      end
  end.

Lemma pick_best_elem better l x : pick_best better l = Some x → x ∈ l.
Proof.
  revert x. induction l as [|y l IH]; intros x; simpl; [done|].
  destruct (pick_best better l) as [z|]; intros; repeat case_match; simplify_eq; set_solver.
Qed.

Lemma pick_best_None better l : pick_best better l = None ↔ l = [].
Proof.
  split; [|by intros ->]. destruct l; simpl; [done|]. repeat case_match; done.
Qed.

(** When [better] is the strict part of a total preorder, nothing beats the pick. *)
Lemma pick_best_maximal better l x :
  (∀ a b c, better a b = false → better b c = false → better a c = false) →
  (∀ a b, better a b = true → better b a = false) →
  (∀ a, better a a = false) →
  pick_best better l = Some x → ∀ y, y ∈ l → better y x = false.
Proof.
  intros Htr Has Hirr. revert x. induction l as [|z l IH]; intros x; simpl; [done|].
  destruct (pick_best better l) as [w|] eqn:E.
  - destruct (better w z) eqn:Ewz; intros; simplify_eq.
    + set_unfold. destruct_or!; subst; [by apply Has|by apply IH].
    + set_unfold. destruct_or!; subst; [done|]. eapply Htr; [|done]. by apply IH.
  - intros ? y Hy. simplify_eq. apply pick_best_None in E. subst.
    apply list_elem_of_singleton in Hy. subst. done.
Qed.

Lemma filter_none (P : A → Prop) `{∀ x, Decision (P x)} l :
  (∀ x, x ∈ l → ¬ P x) → filter P l = [].
Proof. intros HP. apply elem_of_nil_inv. intros x [? ?]%list_elem_of_filter. by eapply HP. Qed.

Lemma filter_every (P : A → Prop) `{∀ x, Decision (P x)} (l : list A) :
  (∀ x, x ∈ l → P x) → filter P l = l.
Proof.
  induction l as [|x l IH]; intros HP; [done|]. rewrite filter_cons_True by (apply HP; by left).
  f_equal. apply IH. intros y Hy. apply HP. by right.
Qed.

(** [slice.chunks(n)]; every chunk but the last holds exactly [n] items. *)
Fixpoint chunks_fuel (fuel n : nat) (l : list A) : list (list A) :=
  match fuel, l with
  | S fuel', _ :: _ => take n l :: chunks_fuel fuel' n (drop n l)
  | _, _ => []
  end.
Definition chunks (n : nat) (l : list A) : list (list A) := chunks_fuel (length l) n l.

Lemma chunks_fuel_concat fuel n l :
  (0 < n)%nat → (length l ≤ fuel)%nat → concat (chunks_fuel fuel n l) = l.
Proof.
  intros Hn. revert l. induction fuel as [|fuel IH]; intros l Hl.
  - destruct l; simpl in *; [done|lia].
  - destruct l as [|x l]; simpl; [done|]. destruct n as [|n]; [lia|]. simpl.
    rewrite IH; [by rewrite take_drop|]. rewrite length_drop. simpl in Hl. lia.
Qed.

Lemma chunks_concat n l : (0 < n)%nat → concat (chunks n l) = l.
Proof. intros. by apply chunks_fuel_concat. Qed.
End lists.

(** ** Tables: finite maps read in key order *)

Section tables.
Context {V : Type}.
Implicit Types m : gmap N V.

Definition key_le (p q : N * V) : Prop := (p.1 <= q.1)%N.
#[export] Instance key_le_dec : RelDecision key_le.
Proof. intros ??. unfold key_le. apply _. Defined.
#[export] Instance key_le_trans : Transitive key_le.
Proof. intros ???. unfold key_le. lia. Qed.
#[export] Instance key_le_total : Total key_le.
Proof. intros ??. unfold key_le. lia. Qed.

(** [SELECT … ORDER BY id ASC]. *)
Definition rows_by_id m : list (N * V) := merge_sort key_le (map_to_list m).

Lemma elem_of_rows_by_id m i v : (i, v) ∈ rows_by_id m ↔ m !! i = Some v.
Proof. unfold rows_by_id. by rewrite merge_sort_Permutation, elem_of_map_to_list. Qed.

Lemma rows_by_id_keys_NoDup m : NoDup (rows_by_id m).*1.
Proof. unfold rows_by_id. rewrite merge_sort_Permutation. apply NoDup_fst_map_to_list. Qed.

Lemma rows_by_id_sorted m : StronglySorted key_le (rows_by_id m).
Proof. apply (StronglySorted_merge_sort key_le). Qed.
End tables.

(** Membership in a list kept by a boolean test. *)
Lemma elem_of_kept {A} (f : A → bool) l x : x ∈ List.filter f l ↔ x ∈ l ∧ f x = true.
Proof. by rewrite !list_elem_of_In, filter_In. Qed.

(** ** Strictly sorted lists and their pages *)

Section strictly_sorted.
Context {A : Type} (R : relation A) `{!StrictOrder R}.
Implicit Types (l : list A) (x y : A).

Lemma strict_sorted_NoDup l : StronglySorted R l → NoDup l.
Proof.
  induction 1 as [|x l _ IH Hx]; constructor; [|done]. intros Hin.
  rewrite Forall_forall in Hx. by apply (irreflexivity R x), Hx.
Qed.

Lemma strict_sorted_ext l1 l2 :
  StronglySorted R l1 → StronglySorted R l2 → (∀ x, x ∈ l1 ↔ x ∈ l2) → l1 = l2.
Proof.
  intros H1 H2 Hel. eapply (StronglySorted_unique_strong R); [|done|done|].
  - intros x y _ _ Hxy Hyx. exfalso. by apply (irreflexivity R x); trans y.
  - apply NoDup_Permutation; auto using strict_sorted_NoDup.
Qed.

Lemma strict_sorted_filter (P : A → Prop) `{∀ x, Decision (P x)} l :
  StronglySorted R l → StronglySorted R (filter P l).
Proof.
  induction 1 as [|x l _ IH Hx]; [constructor|]. rewrite filter_cons.
  case_decide; [|done]. constructor; [done|]. rewrite Forall_forall in *.
  intros y [_ Hy]%list_elem_of_filter. by apply Hx.
Qed.

Lemma strict_sorted_drop n l : StronglySorted R l → StronglySorted R (drop n l).
Proof. rewrite <- (take_drop n l) at 1. apply StronglySorted_app_1_r. Qed.

(** What follows a page is what lies after its last item: a cursor loses nothing
    and repeats nothing. *)
Lemma strict_sorted_page n l y :
  StronglySorted R l → last (take n l) = Some y → ∀ x, x ∈ drop n l ↔ x ∈ l ∧ R y x.
Proof.
  intros Hs Hl x. rewrite <- (take_drop n l) in Hs at 1.
  apply StronglySorted_app in Hs as (Hlt & Ht & Hd). split.
  - intros Hx. split; [rewrite <- (take_drop n l); set_solver|].
    apply (Hlt y x); [|done]. by apply last_Some_elem_of in Hl.
  - intros [Hx Hyx]. rewrite <- (take_drop n l) in Hx.
    apply elem_of_app in Hx as [Hx|Hx]; [|done]. exfalso.
    apply last_Some in Hl as [l' Hl']. rewrite Hl' in *.
    apply StronglySorted_app in Ht as (Ht & _ & _).
    apply elem_of_app in Hx as [Hx|Hx%list_elem_of_singleton].
    + apply (irreflexivity R x). trans y; [apply Ht; [done|by left]|done].
    + subst. by apply (irreflexivity R y).
Qed.
(** The last [k] items are those followed by fewer than [k] others. *)
Lemma strict_sorted_window `{!RelDecision R} k l x :
  StronglySorted R l → x ∈ l → x ∈ take k (reverse l) ↔ length (filter (R x) l) < k.
Proof.
  intros Hs Hx. apply list_elem_of_split in Hx as (l1 & l2 & ->).
  assert (filter (R x) (l1 ++ x :: l2) = l2) as ->.
  { apply StronglySorted_app in Hs as (Hlt & _ & Hs2). apply StronglySorted_inv in Hs2 as [_ Hx].
    rewrite Forall_forall in Hx. rewrite filter_app, (filter_none _ l1).
    - rewrite filter_cons_False by apply (irreflexivity R). simpl. by apply filter_every.
    - intros y Hy Hxy. apply (irreflexivity R x). trans y; [done|]. apply Hlt; [done|by left]. }
  apply strict_sorted_NoDup in Hs. rewrite <- (reverse_Permutation (l1 ++ _)) in Hs. revert Hs.
  rewrite reverse_app, reverse_cons, <- (assoc (++)). simpl. rewrite <- (length_reverse l2).
  generalize (reverse l2) as l, (reverse l1) as l'. intros l l' Hnd. split.
  - intros Hin. destruct (decide (length l < k)) as [|Hge]; [done|]. exfalso.
    rewrite take_app_le in Hin by lia. apply NoDup_app in Hnd as (_ & Hd & _).
    apply (Hd x); [|by left]. by eapply subseteq_take.
  - intros Hk. rewrite take_app_ge by lia. apply elem_of_app. right.
    destruct (k - length l) eqn:E; [lia|]. by left.
Qed.
End strictly_sorted.

(** Rows in ascending and in descending key order. *)
Section by_key.
Context {B : Type}.
Implicit Types (l : list (N * B)) (x y : N * B).

Definition key_lt x y : Prop := (x.1 < y.1)%N.
Definition key_gt x y : Prop := (y.1 < x.1)%N.

#[export] Instance key_lt_strict : StrictOrder key_lt.
Proof. split; [intros x|intros x y z]; unfold key_lt, complement; lia. Qed.
#[export] Instance key_gt_strict : StrictOrder key_gt.
Proof. split; [intros x|intros x y z]; unfold key_gt, complement; lia. Qed.

Lemma key_lt_sorted_reverse l : StronglySorted key_lt l → StronglySorted key_gt (reverse l).
Proof.
  induction 1 as [|x l _ IH Hx]; [constructor|]. rewrite reverse_cons.
  apply StronglySorted_app_2; [|done|repeat constructor].
  intros y z Hy ->%list_elem_of_singleton. rewrite elem_of_reverse in Hy.
  rewrite Forall_forall in Hx. by apply Hx.
Qed.

Lemma key_lt_sorted_keys l : StronglySorted key_lt l → NoDup l.*1.
Proof.
  induction 1 as [|x l _ IH Hx]; constructor; [|done]. intros Hin.
  apply list_elem_of_fmap in Hin as [y [Hxy Hy]].
  rewrite Forall_forall in Hx. specialize (Hx _ Hy). unfold key_lt in Hx. lia.
Qed.

(** A key after the last of a page is not a key of the page. *)
Lemma key_lt_sorted_page_keys n l y i :
  StronglySorted key_lt l → last (take n l) = Some y → (y.1 < i)%N → i ∉ (take n l).*1.
Proof.
  intros Hs Hl Hi [z [-> Hz]]%list_elem_of_fmap.
  assert (z ∈ drop n l) as Hd.
  { apply (strict_sorted_page key_lt n l y Hs Hl). split; [|done].
    rewrite <- (take_drop n l). apply elem_of_app. by left. }
  rewrite <- (take_drop n l) in Hs.
  pose proof (StronglySorted_app_1_elem_of _ _ _ _ _ Hs Hz Hd) as Hlt.
  unfold key_lt in Hlt. lia.
Qed.
End by_key.

Lemma key_lt_sorted_fmap {B C} (f : N * B → N * C) l :
  (∀ x, (f x).1 = x.1) → StronglySorted key_lt l → StronglySorted key_lt (f <$> l).
Proof. intros Hf. apply StronglySorted_fmap. intros x y. unfold key_lt. by rewrite !Hf. Qed.

Lemma rows_by_id_strict {V} (m : gmap N V) : StronglySorted key_lt (rows_by_id m).
Proof.
  pose proof (rows_by_id_sorted m) as Hs. pose proof (rows_by_id_keys_NoDup m) as Hnd.
  revert Hnd. induction Hs as [|x l Hs IH Hx]; intros Hnd; [constructor|].
  apply NoDup_cons in Hnd as [Hin Hnd]. constructor; [by apply IH|].
  rewrite Forall_forall in *. intros y Hy. specialize (Hx y Hy). unfold key_le, key_lt in *.
  assert (x.1 ≠ y.1); [|lia]. intros Heq. apply Hin. rewrite Heq. by apply list_elem_of_fmap_2.
Qed.

(** ** Proof automation *)

(** Split the guards of a handler whose result is a hypothesis or the goal. *)
Ltac split_guards :=
  repeat (case_match || case_bool_decide); simplify_eq/=; try done.

(** Turn the boolean tests in the context into propositions. *)
Ltac reflect_bools :=
  repeat match goal with
  | H : _ && _ = true |- _ => apply andb_true_iff in H; destruct H
  | H : _ || _ = false |- _ => apply orb_false_iff in H; destruct H
  | H : bool_decide _ = true |- _ => apply bool_decide_eq_true in H
  | H : bool_decide _ = false |- _ => apply bool_decide_eq_false in H
  | H : negb _ = true |- _ => apply negb_true_iff in H
  | H : negb _ = false |- _ => apply negb_false_iff in H
  | H : String.eqb _ _ = true |- _ => apply String.eqb_eq in H
  | H : String.eqb _ _ = false |- _ => apply String.eqb_neq in H
  end.
