(* ===== verification/Job.v ===== *)
(** * Job: the primitive types of the job system

    Models [crates/gradatum-core/src/job.rs]: the [Job] enum with every payload
    structure, the five blocks of a [JobRecord], the routing helpers
    ([job_kind_str], [spec_tenant]), the terminal-state predicate, the priority
    mapping and the retry backoff.

    Conventions.  A [DateTime<Utc>] is an instant in nanoseconds since the epoch
    ([Z]); a [Duration] is a number of nanoseconds; an [f32] is carried as its
    IEEE-754 bit pattern, because no modelled code computes with one; a [Ulid] is
    its 128-bit value ([N]), whose numeric order is the lexicographic order of the
    26-character text the database stores. *)

From S2P Require Import Prelude.

#[local] Open Scope Z_scope.

Abbreviation Ulid := N.
Abbreviation DateTime := Z.
Abbreviation Duration := Z.
Abbreviation f32_bits := Z.

(** A parsed JSON document, as [serde_json::Value] represents one. *)
Inductive JsonValue :=
| JNull
| JBool (b : bool)
| JNumber (lexeme : string)
| JString (s : string)
| JArray (items : list JsonValue)
| JObject (fields : list (string * JsonValue)).

(** ** Scopes *)

Inductive JobScope :=
| ScopeVaultWide
| ScopeLocus (locus : string)
| ScopeSection (section : string)
| ScopeNotes (notes : list Ulid)
| ScopeSession (session : Ulid)
| ScopeVault (vault : string).

(** ** Payload structures, in the order of the source *)

Record MessageDeliverySpec := mkMessageDeliverySpec {
  md_message_id : Ulid;
  md_recipient : string;
}.

Record PrivacyRescanSpec := mkPrivacyRescanSpec {
  pr_vault_id : string;
  pr_limit : Z;
}.

Inductive ReIndexMode := FtsOnly | VectorsOnly | Full | MissingOnly.

Record CurateSpec := mkCurateSpec {
  cs_note_id : Ulid;
  cs_tenant_id : string;
  cs_title : option string;
  cs_body : option string;
  cs_author : option string;
  cs_tags : list string;
  cs_section_hint : option string;
  cs_expected_sha256 : option (list Byte.byte);
  cs_occurred_at : option string;
}.

Definition default_tenant_main : string := "main".

Record EmbedSpec := mkEmbedSpec {
  es_note_id : Ulid;
  es_tenant_id : string;
  es_force_regenerate : bool;
}.

Inductive MigrateMode := PredecessorV1 | GradatumVault | RawMarkdown.
Inductive ConflictStrategy := Overwrite | Skip | Rename.

Record MigrateSource := mkMigrateSource {
  ms_from_path : string;
  ms_mode : MigrateMode;
  ms_conflict : ConflictStrategy;
  ms_dry_run : bool;
  ms_target : JobScope;
}.

Inductive ExportFormat := Csv | Pdf | JsonFormat | Markdown | Zip.

Record ExportSource := mkExportSource {
  ex_scope : JobScope;
  ex_filter : option string;
  ex_format : ExportFormat;
  ex_target : string;
  ex_template : option string;
}.

Inductive NotifyChannel :=
| Telegram (chat_id : string)
| Slack (webhook_url : string)
| Webhook (url method : string)
| Nats (subject : string)
| Email (to : string).

Record NotifySource := mkNotifySource {
  ns_channel : NotifyChannel;
  ns_template : string;
  ns_job_ref : option Ulid;
}.

Inductive IngestInputSource :=
| IngestFile (path : string)
| IngestUrl (url : string)
| IngestUrls (urls : list string)
| IngestLocus (path : string).

Inductive IngestStrategy := Auto | ForceStructured | ForceSlidingWindow.

Record IngestSource := mkIngestSource {
  ig_source : IngestInputSource;
  ig_vault : string;
  ig_locus : string;
  ig_strategy : IngestStrategy;
  ig_dry_run : bool;
}.

Inductive PurgeMode := Lifecycle.

Record PurgeSpec := mkPurgeSpec {
  pu_mode : PurgeMode;
  pu_dry_run : bool;
  pu_grace_days : option Z;
}.

Definition PurgeSpec_default : PurgeSpec := mkPurgeSpec Lifecycle true (Some 30).

Inductive ForgetScope :=
| ForgetTopic (query : string) (vault : option string) (limit : option Z)
| ForgetLocus (vault locus : string)
| ForgetAgent (agent_id : string) (vaults : list string).

Record ForgetSpec := mkForgetSpec {
  fs_scope : ForgetScope;
  fs_dry_run : bool;
  fs_forgotten_by : option string;
  fs_confirm_ulids : list string;
}.

Definition ForgetSpec_default : ForgetSpec :=
  mkForgetSpec (ForgetTopic "" None (Some 50)) true None [].

Inductive DistillMode := Semantic.

(** Bit pattern of [0.75_f32], the default thresholds below. *)
Definition f32_three_quarters : f32_bits := 0x3F400000.

Record DistillSource := mkDistillSource {
  ds_mode : DistillMode;
  ds_scope : JobScope;
  ds_window : option Duration;
  ds_batch_limit : Z;
  ds_confidence_threshold : f32_bits;
  ds_min_qa_events : option Z;
}.

Definition DistillSource_default : DistillSource :=
  mkDistillSource Semantic ScopeVaultWide None 500 f32_three_quarters None.

Record ValidateSpec := mkValidateSpec {
  vs_note_id : Ulid;
  vs_tenant_id : string;
  vs_title : string;
  vs_body : string;
  vs_source_ids : list Ulid;
  vs_source_texts : list string;
  vs_source_trusts : list f32_bits;
  vs_base_trust : f32_bits;
  vs_threshold : f32_bits;
}.

Definition ValidateSpec_default : ValidateSpec :=
  mkValidateSpec 0%N "" "" "" [] [] [] 0 f32_three_quarters.

(** ** The job enum *)

Inductive Job :=
| Agent
| Pipeline
| Collect
| Distill (d : DistillSource)
| Backup
| Purge (p : PurgeSpec)
| ReIndex (m : ReIndexMode)
| Summarize
| Validate (v : ValidateSpec)
| Audit
| Consolidate
| Curate (c : CurateSpec)
| Forget (f : ForgetSpec)
| Review
| Classify
| Merge
| Annotate
| Migrate (m : MigrateSource)
| Export (e : ExportSource)
| Notify (n : NotifySource)
| Ingest (i : IngestSource)
| Embed (e : EmbedSpec)
| Message (m : MessageDeliverySpec)
| PayloadPurged
| PrivacyRescan (r : PrivacyRescanSpec).

Definition JOB_KIND_MESSAGE : string := "Message".
Definition JOB_KIND_PRIVACY_RESCAN : string := "PrivacyRescan".

Definition job_kind_str (job : Job) : string :=
  match job with
  | Agent => "Agent"
  | Pipeline => "Pipeline"
  | Collect => "Collect"
  | Distill _ => "Distill"
  | Backup => "Backup"
  | Purge _ => "Purge"
  | ReIndex _ => "ReIndex"
  | Summarize => "Summarize"
  | Validate _ => "Validate"
  | Audit => "Audit"
  | Consolidate => "Consolidate"
  | Curate _ => "Curate"
  | Forget _ => "Forget"
  | Review => "Review"
  | Classify => "Classify"
  | Merge => "Merge"
  | Annotate => "Annotate"
  | Migrate _ => "Migrate"
  | Export _ => "Export"
  | Notify _ => "Notify"
  | Ingest _ => "Ingest"
  | Embed _ => "Embed"
  | Message _ => JOB_KIND_MESSAGE
  | PayloadPurged => "PayloadPurged"
  | PrivacyRescan _ => JOB_KIND_PRIVACY_RESCAN
  end.

(** [matches!(kind, Job::Message(_))] and [matches!(kind, Job::PayloadPurged)]. *)
Definition is_message (job : Job) : bool :=
  match job with Message _ => true | _ => false end.

Definition is_payload_purged (job : Job) : bool :=
  match job with PayloadPurged => true | _ => false end.

(** ** Class, mode, priority *)

Inductive JobClass := System | ClassAgent | Human | Api.
Inductive JobMode := Batch | Streaming | Interactive | DryRun.
Inductive JobPriority := High | Normal | Low | Deferred.

(** [format!("{:?}", class)]: the derived [Debug] prints the variant name. *)
Definition class_debug (c : JobClass) : string :=
  match c with
  | System => "System" | ClassAgent => "Agent" | Human => "Human" | Api => "Api"
  end.

Definition as_u8 (p : JobPriority) : Z :=
  match p with High => 3 | Normal => 2 | Low => 1 | Deferred => 0 end.

Definition default_for (c : JobClass) : JobPriority :=
  match c with
  | ClassAgent => High | Human => High | Api => Normal | System => Low
  end.

Record JobSpec := mkJobSpec {
  kind : Job;
  class : JobClass;
  mode : JobMode;
  scope : JobScope;
  priority : JobPriority;
}.

(** ** Tenant served by a job *)

Definition job_scope_vault (s : JobScope) : option string :=
  match s with ScopeVault v => Some v | _ => None end.

Definition forget_scope_vault (s : ForgetScope) : option string :=
  match s with
  | ForgetTopic _ vault _ => vault
  | ForgetLocus vault _ => Some vault
  | ForgetAgent _ vaults => match vaults with [only] => Some only | _ => None end
  end.

Definition spec_tenant (spec : JobSpec) : string :=
  let job_vault := default "main" (job_scope_vault (scope spec)) in
  match kind spec with
  | Curate c => cs_tenant_id c
  | Ingest i => ig_vault i
  | Embed e => es_tenant_id e
  | Validate v => vs_tenant_id v
  | Distill d => default job_vault (job_scope_vault (ds_scope d))
  | Forget f => default job_vault (forget_scope_vault (fs_scope f))
  | Export e => default job_vault (job_scope_vault (ex_scope e))
  | Migrate m => default job_vault (job_scope_vault (ms_target m))
  | Agent | Pipeline | Collect | Backup | Purge _ | ReIndex _ | Summarize | Audit
  | Consolidate | Review | Classify | Merge | Annotate | Notify _ | Message _ => job_vault
  | PayloadPurged => job_vault
  | PrivacyRescan r => pr_vault_id r
  end.

(** ** Scheduling *)

Inductive TriggerCondition := OnDone | OnAnyTerminal | OnFailed.
Inductive TriggerSource := Cron | TriggerPipeline | Cascade | OnEvent | Demand.

Record JobTrigger := mkJobTrigger {
  job_id : Ulid;
  condition : TriggerCondition;
}.

Record JobScheduling := mkJobScheduling {
  trigger : TriggerSource;
  scheduled_at : DateTime;
  await_jobs : list JobTrigger;
  deadline : option DateTime;
  cron_expr : option string;
}.

(** ** Lifecycle *)

Inductive JobStatus :=
| Pending | Running | Waiting | Done | Failed | DLQ | Cancelled | Conflict.

#[export] Instance JobStatus_eq_dec : EqDecision JobStatus.
Proof. solve_decision. Defined.

Definition is_terminal (s : JobStatus) : bool :=
  match s with Done | DLQ | Cancelled | Conflict => true | _ => false end.

(** The literals of the SQL fragment ['Done','DLQ','Cancelled','Conflict']. *)
Definition TERMINAL_SQL : list string := ["Done"; "DLQ"; "Cancelled"; "Conflict"].

Record JobResult := mkJobResult {
  success : bool;
  duration_ms : Z;
  result_cost_usd : option f32_bits;
  result_note : option Ulid;
  conflict_payload : option JsonValue;
}.

Record JobLifecycle := mkJobLifecycle {
  status : JobStatus;
  created_at : DateTime;
  started_at : option DateTime;
  completed_at : option DateTime;
  lease_until : option DateTime;
  lifecycle_result : option JobResult;
}.

(** ** Retry *)

Inductive RetryBackoff :=
| Fixed (secs : Z)
| Exponential (base max : Z).

Record JobError := mkJobError {
  at_ : DateTime;
  message : string;
  attempt : Z;
}.

Record JobRetry := mkJobRetry {
  count : Z;
  retry_max : Z;
  backoff : RetryBackoff;
  last_error : option string;
  errors : list JobError;
}.

Definition JobRetry_default : JobRetry :=
  mkJobRetry 0 3 (Exponential 5 120) None [].

(** [RetryBackoff::duration_for], in seconds.  The operands are [u64] and
    [u32]; [base.saturating_mul(1_u64 << attempt.min(62))]. *)
Definition duration_for (b : RetryBackoff) (attempt : Z) : Z :=
  match b with
  | Fixed secs => secs
  | Exponential base max =>
      let secs := u64_saturating_mul base (Z.shiftl 1 (Z.min attempt 62)) in
      Z.min secs max
  end.

(** ** Lineage and the record *)

Record JobLineage := mkJobLineage {
  triggered_by : option string;
  parent_job : option Ulid;
  pipeline_id : option Ulid;
  pipeline_step : option string;
  children : list Ulid;
  lineage_cost_usd : option f32_bits;
}.

Record JobRecord := mkJobRecord {
  id : Ulid;
  spec : JobSpec;
  scheduling : JobScheduling;
  lifecycle : JobLifecycle;
  retry : JobRetry;
  lineage : JobLineage;
}.

Definition is_dry_run (r : JobRecord) : bool :=
  match mode (spec r) with DryRun => true | _ => false end.

(** ** Filters and events *)

Inductive JobOrder := CreatedAsc | CreatedDesc.

Record JobFilter := mkJobFilter {
  f_class : option JobClass;
  f_status : option JobStatus;
  f_kind : option string;
  f_created_after : option DateTime;
  f_created_before : option DateTime;
  f_order : JobOrder;
  f_limit : Z;
  f_cursor : option Ulid;
  f_tenant : option string;
}.

Definition JobFilter_default : JobFilter :=
  mkJobFilter None None None None None CreatedAsc 50 None None.

Inductive QueueEvent :=
| JobInserted (i : Ulid)
| JobCompleted (i : Ulid) (s : JobStatus) (r : JobResult)
| JobFailed (i : Ulid) (attempt : Z)
| JobReady (i : Ulid)
| JobCancelled (i : Ulid).

Inductive QueueError :=
| Storage (msg : string)
| NotFound (i : Ulid)
| Serialization (msg : string)
| InvalidTransition (msg : string)
| CancelledError (msg : string)
| NotLeased (i : Ulid)
| NotImplemented (method : string).

Definition TERMINAL_PAYLOAD_KEEP : nat := 200.

(** ** In-place updates of a record, as the code writes them *)

Definition set_lifecycle (f : JobLifecycle → JobLifecycle) (r : JobRecord) : JobRecord :=
  mkJobRecord (id r) (spec r) (scheduling r) (f (lifecycle r)) (retry r) (lineage r).

Definition set_retry (f : JobRetry → JobRetry) (r : JobRecord) : JobRecord :=
  mkJobRecord (id r) (spec r) (scheduling r) (lifecycle r) (f (retry r)) (lineage r).

Definition set_kind (k : Job) (r : JobRecord) : JobRecord :=
  mkJobRecord (id r)
    (mkJobSpec k (class (spec r)) (mode (spec r)) (scope (spec r)) (priority (spec r)))
    (scheduling r) (lifecycle r) (retry r) (lineage r).

(** [record.lifecycle.status = s]. *)
Definition set_status (s : JobStatus) : JobRecord → JobRecord :=
  set_lifecycle (λ l, mkJobLifecycle s (created_at l) (started_at l) (completed_at l)
                        (lease_until l) (lifecycle_result l)).

Definition set_completed_at (t : option DateTime) : JobRecord → JobRecord :=
  set_lifecycle (λ l, mkJobLifecycle (status l) (created_at l) (started_at l) t
                        (lease_until l) (lifecycle_result l)).

Definition set_result (res : option JobResult) : JobRecord → JobRecord :=
  set_lifecycle (λ l, mkJobLifecycle (status l) (created_at l) (started_at l)
                        (completed_at l) (lease_until l) res).

Definition set_count (n : Z) : JobRecord → JobRecord :=
  set_retry (λ t, mkJobRetry n (retry_max t) (backoff t) (last_error t) (errors t)).

Definition set_last_error (e : option string) : JobRecord → JobRecord :=
  set_retry (λ t, mkJobRetry (count t) (retry_max t) (backoff t) e (errors t)).

Definition push_error (e : JobError) : JobRecord → JobRecord :=
  set_retry (λ t, mkJobRetry (count t) (retry_max t) (backoff t) (last_error t)
                    (errors t ++ [e])).

(** The identifiers a record waits for. *)
Definition await_ids (r : JobRecord) : list Ulid := job_id <$> await_jobs (scheduling r).
