(* ===== verification/QueueStore.v ===== *)
(** * QueueStore: the SQLite job queue

    Models [crates/gradatum-db-sqlite/src/queue_store_sqlite.rs]: the table
    [gradatum_jobs] with its denormalised columns, the idempotency table, the
    leadership slot, and every operation of [impl QueueStore for SqliteQueueStore].

    State.  A [store] holds the rows by identifier, the two side tables and the
    list of broadcast events.  Each operation is a function of the store; a
    transaction that rolls back returns the store it was given.  The connection
    sits behind one mutex, so a transaction is one atomic step; where the source
    releases the lock inside an operation ([promote_retries],
    [cascade_check_and_promote], [purge_terminal_payloads]) the model has one
    definition per critical section.

    Time.  Each reading of [Utc::now()] is an argument.  The TEXT timestamps are
    RFC 3339 in UTC with 0, 3, 6 or 9 fractional digits, whose lexicographic order
    is the order of the instants; a column therefore holds the instant.

    Payload.  The [payload] column holds a serialised [JobRecord], or a text that
    does not deserialise ([Corrupt] with the decoder's message).

    I/O errors of SQLite (disk full, busy) and a panicking blocking thread are not
    modelled; the one constraint error the code can provoke, a duplicate primary
    key, is.  Where a SQL statement leaves the order of equal rows open, the model
    takes the smaller identifier first. *)

From S2P Require Import Prelude Job.

#[local] Open Scope Z_scope.

(** ** The tables *)

Inductive payload :=
| Json (r : JobRecord)
| Corrupt (msg : string).

Record row := mkRow {
  c_payload : payload;
  c_status : string;
  c_priority : Z;
  c_class : string;
  c_kind : string;
  c_created_at : DateTime;
  c_scheduled_at : DateTime;
  c_started_at : option DateTime;
  c_completed_at : option DateTime;
  c_lease_until : option DateTime;
  c_attempt_count : Z;
  c_deadline : option DateTime;
  c_last_error : option string;
  c_await_jobs : option (list Ulid);
  c_tenant_id : string;
}.

Abbreviation table := (gmap Ulid row).

Record store := mkStore {
  jobs : table;
  idempotency : gmap string (string * Z);
  leadership : option (string * Z);
  published : list QueueEvent;
}.

Definition set_jobs (j : table) (s : store) : store :=
  mkStore j (idempotency s) (leadership s) (published s).
Definition set_idempotency (i : gmap string (string * Z)) (s : store) : store :=
  mkStore (jobs s) i (leadership s) (published s).
Definition set_leadership (l : option (string * Z)) (s : store) : store :=
  mkStore (jobs s) (idempotency s) l (published s).

(** [self.publish(event)]. *)
Definition publish (e : QueueEvent) (s : store) : store :=
  mkStore (jobs s) (idempotency s) (leadership s) (published s ++ [e]).

(** ** The SET clause of an UPDATE *)

Inductive assignment :=
| SetPayload (p : payload)
| SetStatus (s : string)
| SetScheduledAt (t : DateTime)
| SetStartedAt (t : option DateTime)
| SetCompletedAt (t : option DateTime)
| SetLeaseUntil (t : option DateTime)
| SetAttemptCount (n : Z)
| IncrAttemptCount
| SetLastError (e : option string).

Definition assign (r : row) (a : assignment) : row :=
  match r with
  | mkRow pl st pr cl kd cr sc sa co le ac de er aw te =>
    match a with
    | SetPayload v => mkRow v st pr cl kd cr sc sa co le ac de er aw te
    | SetStatus v => mkRow pl v pr cl kd cr sc sa co le ac de er aw te
    | SetScheduledAt v => mkRow pl st pr cl kd cr v sa co le ac de er aw te
    | SetStartedAt v => mkRow pl st pr cl kd cr sc v co le ac de er aw te
    | SetCompletedAt v => mkRow pl st pr cl kd cr sc sa v le ac de er aw te
    | SetLeaseUntil v => mkRow pl st pr cl kd cr sc sa co v ac de er aw te
    | SetAttemptCount v => mkRow pl st pr cl kd cr sc sa co le v de er aw te
    | IncrAttemptCount => mkRow pl st pr cl kd cr sc sa co le (ac + 1) de er aw te
    | SetLastError v => mkRow pl st pr cl kd cr sc sa co le ac de v aw te
    end
  end.

Definition assign_all (sets : list assignment) (r : row) : row := foldl assign r sets.

(** [UPDATE gradatum_jobs SET … WHERE …]. *)
Definition update_where (p : Ulid → row → bool) (sets : list assignment) (m : table) : table :=
  map_imap (λ i r, Some (if p i r then assign_all sets r else r)) m.

(** [SELECT … WHERE …], also the rows an UPDATE or DELETE touches. *)
Definition select_where (p : Ulid → row → bool) (m : table) : list (Ulid * row) :=
  filter (λ x, p x.1 x.2 = true) (rows_by_id m).

(** [WHERE id = ?]. *)
Definition has_id (i : Ulid) (j : Ulid) (_ : row) : bool := bool_decide (j = i).

(** [status = '…'] and [status IN ('Done','DLQ','Cancelled','Conflict')]. *)
Definition status_is (s : string) (r : row) : bool := String.eqb (c_status r) s.
Definition status_terminal (r : row) : bool := bool_decide (c_status r ∈ TERMINAL_SQL).

(** [(?n IS NULL OR tenant_id = ?n)]. *)
Definition tenant_matches (tenant_filter : option string) (r : row) : bool :=
  unless_null tenant_filter (String.eqb (c_tenant_id r)).

(** ** Operations: state and errors *)

Definition op (A : Type) : Type := store → result A QueueError * store.

#[export] Instance op_ret : MRet op := λ A a s, (Ok a, s).
#[export] Instance op_bind : MBind op := λ A B k c s,
  match c s with
  | (Ok a, s') => k a s'
  | (Err e, s') => (Err e, s')
  end.

Definition throw {A} (e : QueueError) : op A := λ s, (Err e, s).
Definition lift {A} (c : result A QueueError) : op A := λ s, (c, s).
Definition modify (f : store → store) : op unit := λ s, (Ok (), f s).
Definition gets {A} (f : store → A) : op A := λ s, (Ok (f s), s).

(** [for x in l { body(x)? }]. *)
Fixpoint for_each {A} (body : A → op unit) (l : list A) : op unit :=
  match l with
  | [] => mret ()
  | x :: l' => body x ≫= λ _, for_each body l'
  end.

(** ** Serialisation and status text *)

Definition serialize_record (r : JobRecord) : payload := Json r.

Definition deserialize_record (p : payload) : result JobRecord QueueError :=
  match p with Json r => Ok r | Corrupt msg => Err (Serialization msg) end.

Definition status_to_str (s : JobStatus) : string :=
  match s with
  | Pending => "Pending"
  | Running => "Running"
  | Waiting => "Waiting"
  | Done => "Done"
  | Failed => "Failed"
  | DLQ => "DLQ"
  | Cancelled => "Cancelled"
  | Conflict => "Conflict"
  end.

Definition str_to_status (s : string) : result JobStatus QueueError :=
  if String.eqb s "Pending" then Ok Pending
  else if String.eqb s "Running" then Ok Running
  else if String.eqb s "Waiting" then Ok Waiting
  else if String.eqb s "Done" then Ok Done
  else if String.eqb s "Failed" then Ok Failed
  else if String.eqb s "DLQ" then Ok DLQ
  else if String.eqb s "Cancelled" then Ok Cancelled
  else if String.eqb s "Conflict" then Ok Conflict
  else Err (InvalidTransition ("unknown status: '" +:+ s +:+ "'")).

Definition apply_sql_authority (record : JobRecord) (sql_status : string) (sql_attempts : Z)
    (sql_last_error : option string) (sql_completed_at : option DateTime) : JobRecord :=
  let st := match str_to_status sql_status with Ok st => st | Err _ => Pending end in
  let record := set_count (as_u32 sql_attempts) (set_status st record) in
  let record := match sql_last_error with
                | Some _ => set_last_error sql_last_error record
                | None => record
                end in
  match sql_completed_at, completed_at (lifecycle record) with
  | Some t, None => set_completed_at (Some t) record
  | _, _ => record
  end.

Definition read_row (r : row) : result JobRecord QueueError :=
  record ?<- deserialize_record (c_payload r);
  Ok (apply_sql_authority record (c_status r) (c_attempt_count r)
        (c_last_error r) (c_completed_at r)).

(** [err.chars().count() > n ? err.chars().take(n) : err]. *)
Definition truncate_chars (n : nat) (err : string) : string :=
  if (n <? chars_count err)%nat then chars_take n err else err.

(** ** Enqueue *)

Definition row_of_record (job : JobRecord) : row :=
  mkRow (serialize_record job)
    (status_to_str (status (lifecycle job)))
    (as_u8 (priority (spec job)))
    (class_debug (class (spec job)))
    (job_kind_str (kind (spec job)))
    (created_at (lifecycle job))
    (scheduled_at (scheduling job))
    None None None 0
    (deadline (scheduling job))
    None
    (if decide (await_jobs (scheduling job) = []) then None else Some (await_ids job))
    (spec_tenant (spec job)).

Definition enqueue (job : JobRecord) : op Ulid := λ s,
  match jobs s !! id job with
  | Some _ => (Err (Storage "UNIQUE constraint failed: gradatum_jobs.id"), s)
  | None => (Ok (id job),
             publish (JobInserted (id job)) (set_jobs (<[id job := row_of_record job]> (jobs s)) s))
  end.

(** ** Dequeue *)

(** [ORDER BY priority DESC, scheduled_at ASC]. *)
Definition dequeue_before (a b : Ulid * row) : bool :=
  bool_decide (c_priority b.2 < c_priority a.2)
  || (bool_decide (c_priority a.2 = c_priority b.2)
      && bool_decide (c_scheduled_at a.2 < c_scheduled_at b.2)).

Definition nanoseconds (secs : Z) : Duration := secs * 1000000000.

(** [WHERE status = 'Pending' AND scheduled_at <= ?1 AND (?2 IS NULL OR tenant_id = ?2)]. *)
Definition dequeueable (now : DateTime) (tenant_filter : option string) (r : row) : bool :=
  status_is "Pending" r && bool_decide (c_scheduled_at r ≤ now)
  && tenant_matches tenant_filter r.

(** The transaction both dequeues share: select the first eligible row, lease it
    for 300 s, hand out the record with status [Running]. *)
Definition lease_first (eligible : row → bool) (now now' : DateTime)
  : op (option JobRecord) := λ s,
  match pick_best dequeue_before (select_where (λ _, eligible) (jobs s)) with
  | None => (Ok None, s)
  | Some (i, r) =>
      let s' := set_jobs (update_where (has_id i)
                  [SetStatus "Running"; SetLeaseUntil (Some (now' + nanoseconds 300));
                   SetStartedAt (Some now); IncrAttemptCount] (jobs s)) s in
      match deserialize_record (c_payload r) with
      | Ok record => (Ok (Some (set_status Running record)), s')
      | Err e => (Err e, s')
      end
  end.

Definition dequeue (tenant_filter : option string) (now now' : DateTime)
  : op (option JobRecord) :=
  lease_first (dequeueable now tenant_filter) now now'.

Definition dequeue_by_kind (kind : string) (tenant_filter : option string)
    (now now' : DateTime) : op (option JobRecord) :=
  if String.eqb kind JOB_KIND_MESSAGE then mret None
  else lease_first (λ r, dequeueable now tenant_filter r && String.eqb (c_kind r) kind) now now'.

(** ** Point reads *)

Definition get (i : Ulid) (tenant_filter : option string) : op (option JobRecord) := λ s,
  match jobs s !! i with
  | Some r =>
      if tenant_matches tenant_filter r
      then (match read_row r with Ok record => Ok (Some record) | Err e => Err e end, s)
      else (Ok None, s)
  | None => (Ok None, s)
  end.

(** [SQLITE_ID_BATCH]. *)
Definition SQLITE_ID_BATCH : nat := 998.

(** One [WHERE id IN (…)] query and the insertion of its rows into [found]. *)
Definition get_many_chunk (m : table) (tenant_filter : option string)
    (found : gmap Ulid JobRecord) (chunk : list Ulid) : result (gmap Ulid JobRecord) QueueError :=
  let rows := select_where
                (λ i r, bool_decide (i ∈ chunk) && tenant_matches tenant_filter r) m in
  records ?<- collect_results (λ x, read_row x.2) rows;
  Ok (foldl (λ f record, <[id record := record]> f) found records).

Fixpoint get_many_chunks (m : table) (tenant_filter : option string)
    (found : gmap Ulid JobRecord) (l : list (list Ulid)) : result (gmap Ulid JobRecord) QueueError :=
  match l with
  | [] => Ok found
  | chunk :: l' =>
      found' ?<- get_many_chunk m tenant_filter found chunk;
      get_many_chunks m tenant_filter found' l'
  end.

(** [ids.iter().filter_map(|id| found.remove(id)).collect()]. *)
Fixpoint drain_in_order (found : gmap Ulid JobRecord) (ids : list Ulid) : list JobRecord :=
  match ids with
  | [] => []
  | i :: ids' =>
      match found !! i with
      | Some record => record :: drain_in_order (delete i found) ids'
      | None => drain_in_order found ids'
      end
  end.

Definition get_many (ids : list Ulid) (tenant_filter : option string)
  : op (list JobRecord) := λ s,
  match ids with
  | [] => (Ok [], s)
  | _ => (found ?<- get_many_chunks (jobs s) tenant_filter ∅ (chunks SQLITE_ID_BATCH ids);
          Ok (drain_in_order found ids), s)
  end.

(** The default method of the [QueueStore] trait: one [get] per new identifier. *)
Fixpoint get_many_loop (ids : list Ulid) (tenant_filter : option string)
    (seen : gset Ulid) (records : list JobRecord) : op (list JobRecord) :=
  match ids with
  | [] => mret records
  | i :: ids' =>
      if decide (i ∈ seen) then get_many_loop ids' tenant_filter seen records
      else found ← get i tenant_filter;
           match found with
           | Some record => get_many_loop ids' tenant_filter ({[i]} ∪ seen) (records ++ [record])
           | None => get_many_loop ids' tenant_filter ({[i]} ∪ seen) records
           end
  end.

Definition get_many_default (ids : list Ulid) (tenant_filter : option string)
  : op (list JobRecord) := get_many_loop ids tenant_filter ∅ [].

(** ** Dependencies *)

(** [await_jobs LIKE '%"<ulid>"%']: the quoted text of a ULID occurs in the JSON
    array of ULID texts exactly when the ULID is an item of the array. *)
Definition awaits_column (i : Ulid) (r : row) : bool :=
  match c_await_jobs r with Some ids => bool_decide (i ∈ ids) | None => false end.

Definition find_awaiting (i : Ulid) : op (list JobRecord) := λ s,
  (collect_results (λ x, deserialize_record (c_payload x.2))
     (select_where (λ _ r, status_is "Waiting" r && awaits_column i r) (jobs s)), s).

Definition set_pending (i : Ulid) : op unit :=
  modify (λ s, set_jobs (update_where (λ j r, has_id i j r && status_is "Waiting" r)
                           [SetStatus "Pending"] (jobs s)) s).

(** [SELECT COUNT( * ) … WHERE id IN (…) AND status = 'Done'] against [ids.len()]. *)
Definition all_jobs_done (ids : list Ulid) : op bool := λ s,
  match ids with
  | [] => (Ok true, s)
  | _ => (Ok (bool_decide
           (length (select_where (λ i r, bool_decide (i ∈ ids) && status_is "Done" r) (jobs s))
            = length ids)), s)
  end.

Definition cascade_one (dep : JobRecord) : op unit :=
  all_done ← all_jobs_done (await_ids dep);
  if (all_done : bool) then set_pending (id dep) else mret ().

Definition cascade_check_and_promote (done_id : Ulid) : op unit :=
  dependents ← find_awaiting done_id;
  for_each cascade_one dependents.

(** The catch-up sweep: the loop over the selected payloads, and the whole. *)
Fixpoint promote_stranded_loop (payloads : list payload) (promoted : Z) : op Z :=
  match payloads with
  | [] => mret promoted
  | p :: payloads' =>
      record ← lift (deserialize_record p);
      let await_ids := await_ids record in
      if decide (await_ids = []) then promote_stranded_loop payloads' promoted
      else all_done ← all_jobs_done await_ids;
           if (all_done : bool)
           then set_pending (id record) ≫= λ _, promote_stranded_loop payloads' (promoted + 1)
           else promote_stranded_loop payloads' promoted
  end.

Definition stranded_candidate (_ : Ulid) (r : row) : bool :=
  status_is "Waiting" r && match c_await_jobs r with Some (_ :: _) => true | _ => false end.

Definition promote_stranded_waiting_jobs : op Z := λ s,
  promote_stranded_loop ((λ x, c_payload x.2) <$> select_where stranded_candidate (jobs s)) 0 s.

(** ** The end of a run *)

(** [AND lease_until > ?]. *)
Definition leased (now : DateTime) (r : row) : bool := null_gt (c_lease_until r) now.

(** A read-modify-write of [complete]'s transaction.  [now] is the reading bound
    to the SQL parameters, [now'] the one written into the payload. *)
Inductive CompleteOutcome := OutcomeConflict | OutcomeUpdated | OutcomeNotLeased.

Definition complete_tx (i : Ulid) (res : JobResult) (now now' : DateTime)
  : op CompleteOutcome := λ s,
  match jobs s !! i with
  | Some r =>
      if status_is "Running" r then
        match deserialize_record (c_payload r) with
        | Err e => (Err e, s)
        | Ok record =>
            if bool_decide (status (lifecycle record) = Conflict) then (Ok OutcomeConflict, s)
            else
              let record := set_result (Some res)
                              (set_completed_at (Some now') (set_status Done record)) in
              if leased now r then
                (Ok OutcomeUpdated,
                 set_jobs (update_where (λ j r, has_id i j r && status_is "Running" r
                                                 && leased now r)
                   [SetStatus "Done"; SetCompletedAt (Some now); SetLeaseUntil None;
                    SetPayload (serialize_record record)] (jobs s)) s)
              else (Ok OutcomeNotLeased, s)
        end
      else (Err (NotFound i), s)
  | None => (Err (NotFound i), s)
  end.

(** After the commit: broadcast, then the cascade, whose outcome is logged and not
    returned. *)
Definition complete_announce (i : Ulid) (res : JobResult) : op unit := λ s,
  let st := if success res then Done else Failed in
  (Ok (), (cascade_check_and_promote i (publish (JobCompleted i st res) s)).2).

Definition complete (i : Ulid) (res : JobResult) (now now' : DateTime) : op unit :=
  outcome ← complete_tx i res now now';
  match outcome with
  | OutcomeConflict => mret ()
  | OutcomeNotLeased => throw (NotLeased i)
  | OutcomeUpdated => complete_announce i res
  end.

Definition complete_message_delivery (i : Ulid) (res : JobResult) (now now' : DateTime)
  : op unit := λ s,
  let pending_message r := String.eqb (c_kind r) JOB_KIND_MESSAGE && status_is "Pending" r in
  match jobs s !! i with
  | Some r =>
      if pending_message r then
        match deserialize_record (c_payload r) with
        | Err e => (Err e, s)
        | Ok record =>
            if is_message (kind (spec record)) then
              let record := set_result (Some res)
                              (set_completed_at (Some now') (set_status Done record)) in
              (Ok (), publish (JobCompleted i Done res)
                 (set_jobs (update_where (λ j r, has_id i j r && pending_message r)
                    [SetStatus "Done"; SetCompletedAt (Some now); SetLeaseUntil None;
                     SetPayload (serialize_record record)] (jobs s)) s))
            else (Err (NotFound i), s)
        end
      else (Err (NotFound i), s)
  | None => (Err (NotFound i), s)
  end.

Definition fail (i : Ulid) (err : string) (attempt : Z) (now now' : DateTime) : op unit := λ s,
  let err_truncated := truncate_chars 2048 err in
  match jobs s !! i with
  | Some r =>
      if status_is "Running" r then
        match deserialize_record (c_payload r) with
        | Err e => (Err e, s)
        | Ok record =>
            let record := push_error (mkJobError now' err_truncated attempt)
                            (set_last_error (Some err_truncated)
                               (set_count attempt (set_status Failed record))) in
            if leased now r then
              (Ok (), publish (JobFailed i attempt)
                 (set_jobs (update_where (λ j r, has_id i j r && status_is "Running" r
                                                  && leased now r)
                    [SetStatus "Failed"; SetLeaseUntil None; SetLastError (Some err_truncated);
                     SetAttemptCount attempt; SetPayload (serialize_record record)] (jobs s)) s))
            else (Err (NotLeased i), s)
        end
      else (Err (NotFound i), s)
  | None => (Err (NotFound i), s)
  end.

Definition cancel (i : Ulid) (tenant_filter : option string) (now : DateTime) : op unit := λ s,
  let cancellable r := negb (status_terminal r) && tenant_matches tenant_filter r in
  match jobs s !! i with
  | Some r =>
      if cancellable r then
        match deserialize_record (c_payload r) with
        | Err e => (Err e, s)
        | Ok record =>
            let record := set_completed_at (Some now) (set_status Cancelled record) in
            (Ok (), publish (JobCancelled i)
               (set_jobs (update_where (λ j r, has_id i j r && cancellable r)
                  [SetStatus "Cancelled"; SetCompletedAt (Some now); SetLeaseUntil None;
                   SetPayload (serialize_record record)] (jobs s)) s))
        end
      else (Ok (), s)
  | None => (Ok (), s)
  end.

(** [match record.retry.errors.last() { Some(last) if last.message != err => … }]. *)
Definition compose_dlq_error (record : JobRecord) (err : string) : string :=
  match last (errors (retry record)) with
  | Some e => if String.eqb (message e) err then err else message e +:+ " — " +:+ err
  | None => err
  end.

Definition fail_dlq (i : Ulid) (err : string) (now now' : DateTime) : op unit := λ s,
  match jobs s !! i with
  | Some r =>
      match deserialize_record (c_payload r) with
      | Err e => (Err e, s)
      | Ok record =>
          let last_error := truncate_chars 2048 (compose_dlq_error record err) in
          let record := set_last_error (Some last_error)
                          (set_completed_at (Some now') (set_status DLQ record)) in
          (Ok (), set_jobs (update_where (has_id i)
             [SetStatus "DLQ"; SetCompletedAt (Some now); SetLeaseUntil None;
              SetLastError (Some last_error); SetPayload (serialize_record record)] (jobs s)) s)
      end
  | None => (Err (NotFound i), s)
  end.

Section mark_conflict.
(** [serde_json::from_str::<Value>(text).ok()]. *)
Context (json_from_str : string → option JsonValue).

Definition mark_conflict (i : Ulid) (result_note_md : string) (duration_ms : Z)
    (now now' : DateTime) : op unit := λ s,
  match jobs s !! i with
  | Some r =>
      match deserialize_record (c_payload r) with
      | Err e => (Err e, s)
      | Ok record =>
          let record := set_result
                (Some (mkJobResult false duration_ms None None (json_from_str result_note_md)))
                (set_completed_at (Some now') (set_status Conflict record)) in
          (Ok (), publish (JobCompleted i Conflict (mkJobResult false duration_ms None None None))
             (set_jobs (update_where (has_id i)
                [SetStatus "Conflict"; SetCompletedAt (Some now); SetLeaseUntil None;
                 SetLastError (Some (chars_take 256 result_note_md));
                 SetPayload (serialize_record record)] (jobs s)) s))
      end
  | None => (Err (NotFound i), s)
  end.
End mark_conflict.

(** ** Sweeps *)

Section recover.
(** [chrono::Duration::from_std(ttl).ok()]. *)
Context (from_std : Duration → option Duration).

Definition recover_stale_leases (ttl : Duration) (now now' : DateTime)
  : op (list Ulid) := λ s,
  match from_std ttl with
  | None => (Ok [], s)
  | Some d =>
      let stale (_ : Ulid) r := status_is "Running" r && null_lt (c_lease_until r) (now - d) in
      (Ok (select_where stale (jobs s)).*1,
       set_jobs (update_where stale
         [SetStatus "Pending"; SetLeaseUntil None; SetScheduledAt now'] (jobs s)) s)
  end.
End recover.

Definition deadline_expired (now : DateTime) (_ : Ulid) (r : row) : bool :=
  null_lt (c_deadline r) now && negb (status_terminal r).

Definition cancel_expired_deadlines (now : DateTime) : op (list Ulid) := λ s,
  let ids := (select_where (deadline_expired now) (jobs s)).*1 in
  let s' := set_jobs (update_where (deadline_expired now)
              [SetStatus "Cancelled"; SetCompletedAt (Some now)] (jobs s)) s in
  (Ok ids, foldl (λ s i, publish (JobCancelled i) s) s' ids).

(** The two phases of [promote_retries]: the selection under one lock, then one
    decision per selected row, each under a lock of its own. *)
Definition retry_due (now : DateTime) (_ : Ulid) (r : row) : bool :=
  status_is "Failed" r && bool_decide (c_scheduled_at r ≤ now).

Definition promote_retries_select (now : DateTime) (m : table) : list (Ulid * payload * Z) :=
  (λ x, (x.1, c_payload x.2, c_attempt_count x.2)) <$> select_where (retry_due now) m.

Definition max_retries_message (count max : Z) : string :=
  "max_retries atteint (" +:+ pretty count +:+ " / " +:+ pretty max +:+ ")".

(** What the decision will be, and about which job: both are read from the selection. *)
Definition exhausted (x : Ulid * payload * Z) : bool :=
  match x.1.2 with
  | Json record => bool_decide (retry_max (retry record) ≤ as_u32 x.2)
  | Corrupt _ => false
  end.
Definition names_job (i : Ulid) (x : Ulid * payload * Z) : bool :=
  match x.1.2 with Json record => bool_decide (i = id record) | Corrupt _ => false end.

Section promote_retries.
(** The two clock readings of [fail_dlq] for each job. *)
Context (clock : Ulid → DateTime * DateTime) (now : DateTime).

Definition promote_one (x : Ulid * payload * Z) : op (list Ulid) :=
  let '(row_id, p, sql_attempt_count) := x in
  record ← lift (deserialize_record p);
  let record := set_count (as_u32 sql_attempt_count) record in
  let i := id record in
  if bool_decide (retry_max (retry record) ≤ count (retry record)) then
    fail_dlq i (max_retries_message (count (retry record)) (retry_max (retry record)))
      (clock i).1 (clock i).2 ≫= λ _, mret []
  else
    modify (λ s, set_jobs (update_where (λ j r, has_id row_id j r && status_is "Failed" r)
              [SetStatus "Pending"; SetScheduledAt now] (jobs s)) s) ≫= λ _, mret [i].

Fixpoint promote_retries_apply (rows : list (Ulid * payload * Z)) (promoted : list Ulid)
  : op (list Ulid) :=
  match rows with
  | [] => mret promoted
  | x :: rows' => ids ← promote_one x; promote_retries_apply rows' (promoted ++ ids)
  end.

Definition promote_retries : op (list Ulid) := λ s,
  promote_retries_apply (promote_retries_select now (jobs s)) [] s.
End promote_retries.

Definition schedule_retry (i : Ulid) (at' : DateTime) : op unit :=
  modify (λ s, set_jobs (update_where (λ j r, has_id i j r && status_is "Running" r)
            [SetStatus "Failed"; SetLeaseUntil None; SetScheduledAt at'] (jobs s)) s).

(** ** Introspection *)

Definition clamp (lo hi x : Z) : Z := Z.max lo (Z.min hi x).

(** The WHERE clauses of [list], the cursor apart. *)
Definition filter_matches (f : JobFilter) (r : row) : bool :=
  unless_null (class_debug <$> f_class f) (String.eqb (c_class r))
  && unless_null (status_to_str <$> f_status f) (String.eqb (c_status r))
  && unless_null (f_kind f) (String.eqb (c_kind r))
  && unless_null (f_tenant f) (String.eqb (c_tenant_id r))
  && unless_null (f_created_after f) (λ t, bool_decide (t < c_created_at r))
  && unless_null (f_created_before f) (λ t, bool_decide (c_created_at r < t)).

Definition cursor_matches (order : JobOrder) (cursor : option Ulid) (i : Ulid) : bool :=
  unless_null cursor (λ c,
    match order with
    | CreatedAsc => bool_decide (c < i)%N
    | CreatedDesc => bool_decide (i < c)%N
    end).

Definition in_order {A} (order : JobOrder) (l : list A) : list A :=
  match order with CreatedAsc => l | CreatedDesc => reverse l end.

(** The rows one call to [list] selects. *)
Definition list_rows (f : JobFilter) (m : table) : list (Ulid * row) :=
  take (Z.to_nat (clamp 1 500 (f_limit f)))
    (in_order (f_order f)
       (select_where (λ i r, filter_matches f r && cursor_matches (f_order f) (f_cursor f) i) m)).

Definition list_jobs (f : JobFilter) : op (list JobRecord) := λ s,
  (collect_results (λ x, deserialize_record (c_payload x.2)) (list_rows f (jobs s)), s).

Definition latest_job (tenant_filter : option string) : op (option JobRecord) := λ s,
  (match last (select_where (λ _, tenant_matches tenant_filter) (jobs s)) with
   | None => Ok None
   | Some x => match deserialize_record (c_payload x.2) with
               | Ok record => Ok (Some record)
               | Err e => Err e
               end
   end, s).

(** [SELECT key, COUNT( * ) … GROUP BY key]. *)
Definition group_count (key : row → string) (l : list (Ulid * row)) : gmap string nat :=
  foldr (λ x m, <[key x.2 := S (default O (m !! key x.2))]> m) ∅ l.

#[export] Instance JobStatus_countable : Countable JobStatus.
Proof.
  refine (inj_countable' (λ s, match s with
      | Pending => 0 | Running => 1 | Waiting => 2 | Done => 3 | Failed => 4
      | DLQ => 5 | Cancelled => 6 | Conflict => 7 end%nat)
    (λ n, match n with
      | 0 => Pending | 1 => Running | 2 => Waiting | 3 => Done | 4 => Failed
      | 5 => DLQ | 6 => Cancelled | _ => Conflict end%nat) _).
  by intros [].
Defined.

(** The rows of the GROUP BY, inserted under their status when it is known. *)
Definition insert_status_count (x : string * nat) (out : gmap JobStatus nat) : gmap JobStatus nat :=
  match str_to_status x.1 with Ok st => <[st := x.2]> out | Err _ => out end.

Definition count_jobs_by_status (tenant_filter : option string)
  : op (gmap JobStatus nat) := λ s,
  (Ok (foldr insert_status_count ∅
         (map_to_list (group_count c_status
            (select_where (λ _, tenant_matches tenant_filter) (jobs s))))), s).

Definition dlq_counts_by_kind : op (gmap string nat) := λ s,
  (Ok (group_count c_kind (select_where (λ _, status_is "DLQ") (jobs s))), s).

Definition worker_lease_fresh (now_ms : Z) : op (option bool) := λ s,
  (Ok (Some (match leadership s with
             | Some (_, expires_at) => bool_decide (now_ms < expires_at)
             | None => false
             end)), s).

(** ** Dead letters *)

Definition dlq_target (older_than : option DateTime) (_ : Ulid) (r : row) : bool :=
  status_is "DLQ" r && unless_null older_than (λ cutoff, bool_decide (c_created_at r < cutoff)).

(** [DELETE FROM gradatum_jobs WHERE …]. *)
Definition delete_where (p : Ulid → row → bool) (m : table) : table :=
  filter (λ x, p x.1 x.2 = false) m.

Definition delete_dlq_jobs (older_than : option DateTime) : op nat := λ s,
  (Ok (length (select_where (dlq_target older_than) (jobs s))),
   set_jobs (delete_where (dlq_target older_than) (jobs s)) s).

Definition count_dlq_jobs (older_than : option DateTime) : op nat :=
  gets (λ s, length (select_where (dlq_target older_than) (jobs s))).

(** ** Purge of terminal payloads *)

Definition PURGE_BATCH_ROWS : nat := 500.

(** The sub-select of the keep window: [ORDER BY id DESC LIMIT keep]. *)
Definition keep_window (keep : nat) (m : table) : list Ulid :=
  take keep (reverse (select_where (λ _, status_terminal) m).*1).

Definition purge_candidate (keep : nat) (cutoff : option DateTime) (after : option Ulid)
    (m : table) (i : Ulid) (r : row) : bool :=
  status_terminal r
  && unless_null cutoff (λ c, bool_decide (c_created_at r < c))
  && unless_null after (λ a, bool_decide (a < i)%N)
  && bool_decide (i ∉ keep_window keep m).

Definition purge_candidate_rows (keep batch : nat) (cutoff : option DateTime)
    (after : option Ulid) (m : table) : list (Ulid * payload) :=
  take batch ((λ x, (x.1, c_payload x.2)) <$>
    select_where (purge_candidate keep cutoff after m) m).

Definition record_is_purgeable (record : JobRecord) : bool :=
  negb (is_payload_purged (kind (spec record))).

Record PurgeBatch := mkPurgeBatch {
  selected : nat;
  purged : nat;
  skipped : nat;
  last_id : option Ulid;
}.

(** The loop of one batch: (purged, skipped, rewritten table). *)
Fixpoint purge_rows (rows : list (Ulid * payload)) (acc : nat * nat * table)
  : nat * nat * table :=
  match rows with
  | [] => acc
  | (i, p) :: rows' =>
      let '(n, k, m) := acc in
      purge_rows rows'
        match deserialize_record p with
        | Err _ => (n, S k, m)
        | Ok record =>
            if record_is_purgeable record then
              (S n, k, update_where (has_id i)
                         [SetPayload (serialize_record (set_kind PayloadPurged record))] m)
            else acc
        end
  end.

Definition purge_one_batch (keep batch : nat) (cutoff : option DateTime)
    (after : option Ulid) (m : table) : PurgeBatch * table :=
  let rows := purge_candidate_rows keep batch cutoff after m in
  let '(n, k, m') := purge_rows rows (0%nat, 0%nat, m) in
  (mkPurgeBatch (length rows) n k (fst <$> last rows), m').

(** The loop of the purge; [None] when the fuel runs out. *)
Fixpoint purge_loop (keep batch : nat) (fuel : nat) (cutoff : option DateTime)
    (after : option Ulid) (n : nat) (m : table) : option (nat * table) :=
  match fuel with
  | O => None
  | S fuel' =>
      let '(b, m') := purge_one_batch keep batch cutoff after m in
      if (selected b <? batch)%nat then Some (n + purged b, m')%nat
      else purge_loop keep batch fuel' cutoff (last_id b) (n + purged b) m'
  end.

(** The number of batches is bounded by the number of rows. *)
Definition purge_terminal_payloads (older_than : option DateTime) : op nat := λ s,
  match purge_loop TERMINAL_PAYLOAD_KEEP PURGE_BATCH_ROWS (S (size (jobs s)))
          older_than None 0 (jobs s) with
  | Some (n, m) => (Ok n, set_jobs m s)
  | None => (Err (Storage "purge: no progress"), s)
  end.

(** [count_purgeable_terminal_payloads]: the read-only loop. *)
Fixpoint count_loop (keep batch : nat) (fuel : nat) (cutoff : option DateTime)
    (after : option Ulid) (n : nat) (m : table) : option nat :=
  match fuel with
  | O => None
  | S fuel' =>
      let rows := purge_candidate_rows keep batch cutoff after m in
      let hits := filter (λ x, match deserialize_record x.2 with
                               | Ok record => record_is_purgeable record
                               | Err _ => false
                               end = true) rows in
      let n := (n + length hits)%nat in
      if (length rows <? batch)%nat then Some n
      else count_loop keep batch fuel' cutoff (fst <$> last rows) n m
  end.

Definition count_purgeable_terminal_payloads (older_than : option DateTime) : op nat := λ s,
  match count_loop TERMINAL_PAYLOAD_KEEP PURGE_BATCH_ROWS (S (size (jobs s)))
          older_than None 0 (jobs s) with
  | Some n => (Ok n, s)
  | None => (Err (Storage "count: no progress"), s)
  end.

(** ** Idempotency keys *)

(** [INSERT OR IGNORE]: [true] when the key is new. *)
Definition idempotency_insert (key job : string) (now_ms : Z) : op bool := λ s,
  match idempotency s !! key with
  | Some _ => (Ok false, s)
  | None => (Ok true, set_idempotency (<[key := (job, now_ms)]> (idempotency s)) s)
  end.

Definition idempotency_lookup (key : string) : op (option string) :=
  gets (λ s, fst <$> idempotency s !! key).

Definition idempotency_cleanup (before_ms : Z) : op nat := λ s,
  (Ok (size (filter (λ x, x.2.2 < before_ms) (idempotency s))),
   set_idempotency (filter (λ x, ¬ x.2.2 < before_ms) (idempotency s)) s).
