(* ===== verification/QueueLaws.v ===== *)
(** * QueueLaws: the life of a job row

    [row_step] is the specification of the queue: the transitions a row of
    [gradatum_jobs] may take, each with its guard.  The lemmas show that every
    operation of [QueueStore] moves every row along [row_step] only, that it keeps the
    invariant of the table ([table_ok]), and which rows it leaves alone; the runs of
    [QueueRuns] and the properties of the other Queue files build on them. *)

From S2P Require Import Prelude Job QueueStore.

#[local] Open Scope Z_scope.

(** ** SQL primitives *)

Section sql.
Implicit Types (m : table) (p : Ulid → row → bool).

Lemma lookup_update_where p sets m i :
  update_where p sets m !! i = (λ r, if p i r then assign_all sets r else r) <$> m !! i.
Proof. unfold update_where. rewrite map_lookup_imap. by destruct (m !! i). Qed.

Lemma elem_of_select_where p m i r :
  (i, r) ∈ select_where p m ↔ m !! i = Some r ∧ p i r = true.
Proof.
  unfold select_where. rewrite list_elem_of_filter, elem_of_rows_by_id. simpl. tauto.
Qed.

Lemma select_where_fst p m i :
  i ∈ (select_where p m).*1 ↔ ∃ r, m !! i = Some r ∧ p i r = true.
Proof.
  rewrite list_elem_of_fmap. split.
  - intros [[j r] [-> ?%elem_of_select_where]]. eauto.
  - intros [r ?%elem_of_select_where]. by exists (i, r).
Qed.

Lemma select_where_nil p m :
  select_where p m = [] ↔ ∀ i r, m !! i = Some r → p i r = false.
Proof.
  split.
  - intros Hnil i r Hi. apply not_true_iff_false. intros Hp.
    assert ((i, r) ∈ select_where p m) as H by by apply elem_of_select_where.
    rewrite Hnil in H. by apply not_elem_of_nil in H.
  - intros Hall. destruct (select_where p m) as [|[i r] l] eqn:E; [done|exfalso].
    assert ((i, r) ∈ select_where p m) as [Hi Hp]%elem_of_select_where
      by (rewrite E; left).
    by rewrite (Hall _ _ Hi) in Hp.
Qed.

Lemma filter_fst_sublist (P : Ulid * row → Prop) `{∀ x, Decision (P x)} l :
  (filter P l).*1 `sublist_of` l.*1.
Proof.
  induction l as [|x l IH]; [done|]. rewrite filter_cons.
  case_decide; simpl; [by apply sublist_skip|by apply sublist_cons].
Qed.

Lemma select_where_NoDup p m : NoDup (select_where p m).*1.
Proof.
  unfold select_where. eapply sublist_NoDup; [apply (rows_by_id_keys_NoDup m)|].
  apply filter_fst_sublist.
Qed.

Lemma lookup_delete_where p m i r :
  delete_where p m !! i = Some r ↔ m !! i = Some r ∧ p i r = false.
Proof. unfold delete_where. by rewrite map_lookup_filter_Some. Qed.
End sql.

(** ** Columns an assignment does not touch *)

(** A column no assignment writes is a constant of the row. *)
Lemma assign_all_frame {B} (f : row → B) sets r :
  (∀ r a, f (assign r a) = f r) → f (assign_all sets r) = f r.
Proof.
  intros Hf. unfold assign_all. revert r.
  induction sets as [|a l IH]; intros r; simpl; [done|]. by rewrite IH.
Qed.

Ltac frame_column := apply assign_all_frame; by intros [] [].

Section columns.
Context (sets : list assignment) (r : row).

Lemma assign_all_class : c_class (assign_all sets r) = c_class r.
Proof. frame_column. Qed.
Lemma assign_all_kind : c_kind (assign_all sets r) = c_kind r.
Proof. frame_column. Qed.
Lemma assign_all_tenant : c_tenant_id (assign_all sets r) = c_tenant_id r.
Proof. frame_column. Qed.
Lemma assign_all_await : c_await_jobs (assign_all sets r) = c_await_jobs r.
Proof. frame_column. Qed.
Lemma assign_all_created : c_created_at (assign_all sets r) = c_created_at r.
Proof. frame_column. Qed.
End columns.

#[export] Hint Rewrite assign_all_class assign_all_kind assign_all_tenant assign_all_await
  assign_all_created : gradatum.

(** ** The specification: what may happen to a row *)

Definition status_of (r : row) : option JobStatus :=
  match str_to_status (c_status r) with Ok st => Some st | Err _ => None end.

(** The record [complete] writes back, the one [fail] writes back, and so on. *)
Definition completed_record (res : JobResult) (now' : DateTime) (record : JobRecord) : JobRecord :=
  set_result (Some res) (set_completed_at (Some now') (set_status Done record)).

Inductive row_step (forced : bool) : row → row → Prop :=
| RsLease r now now' :
    c_status r = "Pending" →
    row_step forced r (assign_all [SetStatus "Running";
      SetLeaseUntil (Some (now' + nanoseconds 300)); SetStartedAt (Some now);
      IncrAttemptCount] r)
| RsComplete r record res now now' :
    c_status r = "Running" → leased now r = true → c_payload r = Json record →
    row_step forced r (assign_all [SetStatus "Done"; SetCompletedAt (Some now);
      SetLeaseUntil None; SetPayload (Json (completed_record res now' record))] r)
| RsAck r record res now now' :
    c_status r = "Pending" → c_kind r = JOB_KIND_MESSAGE → c_payload r = Json record →
    row_step forced r (assign_all [SetStatus "Done"; SetCompletedAt (Some now);
      SetLeaseUntil None; SetPayload (Json (completed_record res now' record))] r)
| RsFail r record record' err attempt now :
    c_status r = "Running" → leased now r = true → c_payload r = Json record →
    id record' = id record → spec record' = spec record →
    scheduling record' = scheduling record → status (lifecycle record') = Failed →
    row_step forced r (assign_all [SetStatus "Failed"; SetLeaseUntil None;
      SetLastError (Some err); SetAttemptCount attempt; SetPayload (Json record')] r)
| RsScheduleRetry r at' :
    c_status r = "Running" →
    row_step forced r (assign_all [SetStatus "Failed"; SetLeaseUntil None;
      SetScheduledAt at'] r)
| RsCancel r record now :
    status_terminal r = false → c_payload r = Json record →
    row_step forced r (assign_all [SetStatus "Cancelled"; SetCompletedAt (Some now);
      SetLeaseUntil None;
      SetPayload (Json (set_completed_at (Some now) (set_status Cancelled record)))] r)
| RsDeadline r now :
    status_terminal r = false → null_lt (c_deadline r) now = true →
    row_step forced r (assign_all [SetStatus "Cancelled"; SetCompletedAt (Some now)] r)
| RsPromote r :
    c_status r = "Waiting" → row_step forced r (assign_all [SetStatus "Pending"] r)
| RsRecover r threshold now :
    c_status r = "Running" → null_lt (c_lease_until r) threshold = true →
    row_step forced r (assign_all [SetStatus "Pending"; SetLeaseUntil None;
      SetScheduledAt now] r)
| RsRetry r now :
    c_status r = "Failed" → c_scheduled_at r ≤ now →
    row_step forced r (assign_all [SetStatus "Pending"; SetScheduledAt now] r)
| RsExhaust r record err now now' :
    forced = true ∨ c_status r = "Failed" → c_payload r = Json record →
    row_step forced r (assign_all [SetStatus "DLQ"; SetCompletedAt (Some now);
      SetLeaseUntil None; SetLastError (Some err);
      SetPayload (Json (set_last_error (Some err)
        (set_completed_at (Some now') (set_status DLQ record))))] r)
| RsConflict r record res err now now' :
    forced = true → c_payload r = Json record →
    row_step forced r (assign_all [SetStatus "Conflict"; SetCompletedAt (Some now);
      SetLeaseUntil None; SetLastError (Some err);
      SetPayload (Json (set_result (Some res)
        (set_completed_at (Some now') (set_status Conflict record))))] r)
| RsPurge r record :
    status_terminal r = true → c_payload r = Json record →
    row_step forced r (assign_all [SetPayload (Json (set_kind PayloadPurged record))] r).

(** An operation that neither inserts nor deletes moves each row along a path. *)
Definition rows_evolve (forced : bool) (m m' : table) : Prop :=
  ∀ i, option_Forall2 (rtc (row_step forced)) (m !! i) (m' !! i).

#[export] Instance rows_evolve_preorder forced : PreOrder (rows_evolve forced).
Proof.
  split.
  - intros m i. destruct (m !! i); constructor. apply rtc_refl.
  - intros m1 m2 m3 H1 H2 i. specialize (H1 i). specialize (H2 i).
    destruct H1; inversion H2; subst; constructor. by etrans.
Qed.

Lemma rows_evolve_update forced p sets m :
  (∀ i r, m !! i = Some r → p i r = true → row_step forced r (assign_all sets r)) →
  rows_evolve forced m (update_where p sets m).
Proof.
  intros Hstep i. rewrite lookup_update_where. destruct (m !! i) as [r|] eqn:E; constructor.
  destruct (p i r) eqn:Ep; [apply rtc_once; eauto|apply rtc_refl].
Qed.

(** ** The invariant of the table *)

Definition await_column (record : JobRecord) : option (list Ulid) :=
  if decide (await_jobs (scheduling record) = []) then None else Some (await_ids record).

(** What the payload of a row says agrees with the denormalised columns; a purge
    leaves the columns as they were, on a terminal row only; a payload in state
    [Conflict] sits in a terminal row. *)
Definition payload_agrees (i : Ulid) (r : row) (record : JobRecord) : Prop :=
  id record = i ∧ c_await_jobs r = await_column record
  ∧ ((kind (spec record) = PayloadPurged ∧ status_terminal r = true)
     ∨ (c_kind r = job_kind_str (kind (spec record))
        ∧ c_tenant_id r = spec_tenant (spec record)))
  ∧ (status (lifecycle record) = Conflict → status_terminal r = true).

Record row_ok (i : Ulid) (r : row) : Prop := mkRowOk {
  ok_status : status_of r ≠ None;
  ok_lease : c_status r = "Running" → is_Some (c_lease_until r);
  ok_payload : ∀ record, c_payload r = Json record → payload_agrees i r record;
}.

Definition table_ok (m : table) : Prop := map_Forall row_ok m.

(** Agreement survives a rewrite of the payload that keeps identity, dependencies
    and specification. *)
Lemma payload_agrees_rewrite i r r' record record' :
  payload_agrees i r record →
  id record' = id record → spec record' = spec record →
  scheduling record' = scheduling record →
  c_await_jobs r' = c_await_jobs r → c_kind r' = c_kind r → c_tenant_id r' = c_tenant_id r →
  (status_terminal r = true → status_terminal r' = true) →
  (status (lifecycle record') = Conflict →
   status (lifecycle record) = Conflict ∨ status_terminal r' = true) →
  payload_agrees i r' record'.
Proof.
  unfold payload_agrees, await_column, await_ids.
  intros (<- & Ha & Hk & Hc) -> -> -> -> -> -> Ht Hc'.
  split_and!; [done|done| |].
  - destruct Hk as [[? ?]|[? ?]]; auto.
  - intros [?|?]%Hc'; auto.
Qed.

Lemma status_terminal_by_name r st :
  c_status r = st → status_terminal r = bool_decide (st ∈ TERMINAL_SQL).
Proof. by intros <-. Qed.

Lemma row_step_ok forced i r r' : row_ok i r → row_step forced r r' → row_ok i r'.
Proof.
  intros [Hst Hl Hp] Hstep. destruct Hstep; (constructor;
    [destruct r; simpl in *; try done
    |destruct r; simpl in *; try done; by eauto
    |intros record2 Hr2]).
  all: destruct r; simpl in *; simplify_eq/=.
  all: try (eapply payload_agrees_rewrite; [by apply Hp|done..|by auto]).
  - eapply payload_agrees_rewrite; [by apply Hp|done..|congruence].
  - destruct (Hp _ eq_refl) as (? & ? & _). split_and!; [done|done|by left|done].
Qed.

Lemma table_ok_evolve forced m m' : table_ok m → rows_evolve forced m m' → table_ok m'.
Proof.
  intros Hm Hev i r' Hi. specialize (Hev i). rewrite Hi in Hev.
  inversion Hev as [r ? Hrtc Hr|]; subst. specialize (Hm i r (eq_sym Hr)).
  clear -Hrtc Hm. induction Hrtc; eauto using row_step_ok.
Qed.

Lemma row_of_record_ok job :
  status (lifecycle job) ≠ Running → row_ok (id job) (row_of_record job).
Proof.
  intros Hr. constructor.
  - unfold status_of. simpl. by destruct (status (lifecycle job)).
  - simpl. by destruct (status (lifecycle job)).
  - intros record [= <-]. unfold payload_agrees, await_column. simpl. split_and!; auto.
    unfold status_terminal. simpl. by intros ->.
Qed.

(** ** Every operation follows the specification *)

Lemma has_id_true i j r : has_id i j r = true ↔ j = i.
Proof. unfold has_id. by rewrite bool_decide_eq_true. Qed.

Lemma status_is_true st r : status_is st r = true ↔ c_status r = st.
Proof. unfold status_is. apply String.eqb_eq. Qed.

(** Open the guard of an UPDATE on one row. *)
Ltac open_guard :=
  reflect_bools;
  repeat match goal with
  | H : has_id _ _ _ = true |- _ => apply has_id_true in H
  | H : status_is _ _ = true |- _ => apply status_is_true in H
  end; subst.

Lemma deserialize_Ok p record : deserialize_record p = Ok record ↔ p = Json record.
Proof. destruct p; naive_solver. Qed.

Lemma lease_first_evolve forced eligible now now' s :
  (∀ r, eligible r = true → c_status r = "Pending") →
  rows_evolve forced (jobs s) (jobs (lease_first eligible now now' s).2).
Proof.
  intros Hel. unfold lease_first.
  destruct (pick_best _ _) as [[i r]|] eqn:E; [|done].
  apply pick_best_elem, elem_of_select_where in E as [Hi Hr].
  assert (rows_evolve forced (jobs s) (update_where (has_id i)
    [SetStatus "Running"; SetLeaseUntil (Some (now' + nanoseconds 300));
     SetStartedAt (Some now); IncrAttemptCount] (jobs s))).
  { apply rows_evolve_update. intros j r' Hj Hg. open_guard. simplify_eq. constructor. auto. }
  by destruct (deserialize_record _).
Qed.

Lemma dequeueable_pending now tf r : dequeueable now tf r = true → c_status r = "Pending".
Proof. unfold dequeueable. intros. by open_guard. Qed.

Lemma set_pending_evolve forced i s :
  rows_evolve forced (jobs s) (jobs (set_pending i s).2).
Proof. apply rows_evolve_update. intros. open_guard. by constructor. Qed.

Lemma for_each_evolve {A} forced (body : A → op unit) l s :
  (∀ x s, rows_evolve forced (jobs s) (jobs (body x s).2)) →
  rows_evolve forced (jobs s) (jobs (for_each body l s).2).
Proof.
  intros Hb. revert s. induction l as [|x l IH]; intros s; simpl; [done|].
  unfold mbind, op_bind. pose proof (Hb x s). destruct (body x s) as [[]s']; [|done].
  by etrans.
Qed.

Lemma all_jobs_done_pure ids s : (all_jobs_done ids s).2 = s.
Proof. by destruct ids. Qed.

Lemma cascade_one_evolve forced dep s :
  rows_evolve forced (jobs s) (jobs (cascade_one dep s).2).
Proof.
  unfold cascade_one, mbind, op_bind. pose proof (all_jobs_done_pure (await_ids dep) s) as Hs.
  destruct (all_jobs_done _ _) as [[[]|] s']; simpl in *; subst; try done.
  apply set_pending_evolve.
Qed.

Lemma cascade_evolve forced i s :
  rows_evolve forced (jobs s) (jobs (cascade_check_and_promote i s).2).
Proof.
  unfold cascade_check_and_promote, mbind, op_bind, find_awaiting.
  destruct (collect_results _ _); [|done]. apply for_each_evolve, cascade_one_evolve.
Qed.

Lemma promote_stranded_evolve forced s :
  rows_evolve forced (jobs s) (jobs (promote_stranded_waiting_jobs s).2).
Proof.
  unfold promote_stranded_waiting_jobs. generalize (λ x : Ulid * row, c_payload x.2).
  intros f. generalize (f <$> select_where stranded_candidate (jobs s)). clear f.
  intros l. generalize 0. revert s.
  induction l as [|p l IH]; intros s n; simpl; [done|].
  unfold mbind, op_bind, lift. destruct (deserialize_record p) as [record|]; [|done].
  case_decide; [done|].
  pose proof (all_jobs_done_pure (await_ids record) s) as Hs.
  destruct (all_jobs_done _ _) as [[[]|] s']; simpl in *; subst; try done.
  etrans; [apply set_pending_evolve|apply IH].
Qed.

(** Case analysis on a read-modify-write: the row, its guard, its payload. *)
Ltac open_row s i :=
  let r := fresh "r" in let E := fresh "Erow" in
  destruct (jobs s !! i) as [r|] eqn:E; [|try (reflexivity || done)];
  repeat match goal with
  | |- context [if ?b then _ else _] => let Eb := fresh "Eg" in destruct b eqn:Eb; try (reflexivity || done)
  | |- context [match deserialize_record ?p with _ => _ end] =>
      let Ed := fresh "Ed" in
      destruct (deserialize_record p) as [?|?] eqn:Ed; [apply deserialize_Ok in Ed|try (reflexivity || done)]
  end; try (reflexivity || done).

Lemma complete_tx_evolve forced i res now now' s :
  rows_evolve forced (jobs s) (jobs (complete_tx i res now now' s).2).
Proof.
  unfold complete_tx. open_row s i. apply rows_evolve_update.
  intros j r' Hj Hg. open_guard. simplify_eq. by econstructor.
Qed.

Lemma complete_evolve forced i res now now' s :
  rows_evolve forced (jobs s) (jobs (complete i res now now' s).2).
Proof.
  unfold complete, mbind, op_bind. pose proof (complete_tx_evolve forced i res now now' s) as H.
  destruct (complete_tx _ _ _ _ _) as [[[]|] s']; simpl in *; try done.
  etrans; [exact H|]. apply (cascade_evolve forced i (publish _ s')).
Qed.

Lemma complete_message_delivery_evolve forced i res now now' s :
  rows_evolve forced (jobs s) (jobs (complete_message_delivery i res now now' s).2).
Proof.
  unfold complete_message_delivery. open_row s i. apply rows_evolve_update.
  intros j r' Hj Hg. open_guard. simplify_eq. by econstructor.
Qed.

Lemma fail_evolve forced i err attempt now now' s :
  rows_evolve forced (jobs s) (jobs (fail i err attempt now now' s).2).
Proof.
  unfold fail. open_row s i. apply rows_evolve_update.
  intros j r' Hj Hg. open_guard. simplify_eq. by eapply RsFail.
Qed.

Lemma cancel_evolve forced i tf now s :
  rows_evolve forced (jobs s) (jobs (cancel i tf now s).2).
Proof.
  unfold cancel. open_row s i. apply rows_evolve_update.
  intros j r' Hj Hg. open_guard. simplify_eq. by apply RsCancel.
Qed.

Lemma fail_dlq_evolve forced i err now now' s :
  forced = true ∨ (∀ r, jobs s !! i = Some r → c_status r = "Failed") →
  rows_evolve forced (jobs s) (jobs (fail_dlq i err now now' s).2).
Proof.
  intros Hf. unfold fail_dlq. open_row s i. apply rows_evolve_update.
  intros j r' Hj Hg. open_guard. simplify_eq. eapply RsExhaust; [|done]. naive_solver.
Qed.

Lemma mark_conflict_evolve from_str i md ms now now' s :
  rows_evolve true (jobs s) (jobs (mark_conflict from_str i md ms now now' s).2).
Proof.
  unfold mark_conflict. open_row s i. apply rows_evolve_update.
  intros j r' Hj Hg. open_guard. simplify_eq. by apply RsConflict.
Qed.

Lemma recover_evolve forced from_std ttl now now' s :
  rows_evolve forced (jobs s) (jobs (recover_stale_leases from_std ttl now now' s).2).
Proof.
  unfold recover_stale_leases. destruct (from_std ttl); [|done].
  apply rows_evolve_update. intros. open_guard. by econstructor.
Qed.

Lemma publish_all_jobs ids s :
  jobs (foldl (λ s i, publish (JobCancelled i) s) s ids) = jobs s.
Proof. revert s. induction ids as [|i ids IH]; intros s; simpl; [done|]. by rewrite IH. Qed.

Lemma cancel_expired_evolve forced now s :
  rows_evolve forced (jobs s) (jobs (cancel_expired_deadlines now s).2).
Proof.
  unfold cancel_expired_deadlines. simpl. rewrite publish_all_jobs.
  apply rows_evolve_update. intros i r Hi Hg. unfold deadline_expired in Hg. open_guard.
  by apply RsDeadline.
Qed.

Lemma schedule_retry_evolve forced i at' s :
  rows_evolve forced (jobs s) (jobs (schedule_retry i at' s).2).
Proof. apply rows_evolve_update. intros. open_guard. by constructor. Qed.

(** *** Retries *)

(** A row the selection of [promote_retries] may still rely on. *)
Definition still_due (now : DateTime) (m : table) (x : Ulid * payload * Z) : Prop :=
  ∃ r, m !! x.1.1 = Some r ∧ retry_due now x.1.1 r = true
       ∧ c_payload r = x.1.2 ∧ c_attempt_count r = x.2.

Lemma promote_retries_select_due now m :
  Forall (still_due now m) (promote_retries_select now m).
Proof.
  apply Forall_fmap, Forall_forall. intros [i r] [Hi Hr]%elem_of_select_where.
  exists r. simpl. auto.
Qed.

Lemma promote_retries_select_NoDup now m :
  NoDup ((λ x, x.1.1) <$> promote_retries_select now m).
Proof.
  unfold promote_retries_select. rewrite <- list_fmap_compose.
  apply (select_where_NoDup (retry_due now) m).
Qed.

Lemma update_where_frame i p sets m j :
  j ≠ i → update_where (λ j r, has_id i j r && p r) sets m !! j = m !! j.
Proof.
  intros Hne. rewrite lookup_update_where. destruct (m !! j); simpl; [|done].
  unfold has_id. by rewrite bool_decide_eq_false_2 by done.
Qed.

Lemma update_where_id_frame i sets m j :
  j ≠ i → update_where (has_id i) sets m !! j = m !! j.
Proof.
  intros Hne. rewrite lookup_update_where. destruct (m !! j); simpl; [|done].
  unfold has_id. by rewrite bool_decide_eq_false_2 by done.
Qed.

Lemma fail_dlq_frame i err now now' s j :
  j ≠ i → jobs (fail_dlq i err now now' s).2 !! j = jobs s !! j.
Proof.
  intros. unfold fail_dlq. open_row s i. simpl. by apply update_where_id_frame.
Qed.

Lemma promote_one_effect clock now x s :
  table_ok (jobs s) → still_due now (jobs s) x →
  let s' := (promote_one clock now x s).2 in
  rows_evolve false (jobs s) (jobs s') ∧ ∀ j, j ≠ x.1.1 → jobs s' !! j = jobs s !! j.
Proof.
  destruct x as [[i p] n]. intros Hok (r & Hr & Hd & Hp & Hn). simpl in *.
  unfold retry_due in Hd. open_guard. unfold mbind, op_bind, lift.
  destruct (deserialize_record _) as [record|] eqn:Ed; [|split; [apply reflexivity|done]].
  apply deserialize_Ok in Ed.
  assert (id record = i) as Hid by apply (ok_payload _ _ (Hok _ _ Hr) _ Ed).
  case_bool_decide.
  - pose proof (fail_dlq_evolve false (id record) (max_retries_message
      (count (retry (set_count (as_u32 (c_attempt_count r)) record))) (retry_max (retry record)))
      (clock (id record)).1 (clock (id record)).2 s) as Hev.
    pose proof (fail_dlq_frame (id record) (max_retries_message
      (count (retry (set_count (as_u32 (c_attempt_count r)) record))) (retry_max (retry record)))
      (clock (id record)).1 (clock (id record)).2 s) as Hfr.
    simpl in *. destruct (fail_dlq _ _ _ _ s) as [[] s'] eqn:E; simpl in *; subst;
      (split; [apply Hev; right; naive_solver|done]).
  - simpl. split; [|intros; by apply update_where_frame].
    apply rows_evolve_update. intros j r' Hj Hg. open_guard. simplify_eq. by constructor.
Qed.

(** *** A decision about a row that may have changed since its selection *)

Lemma stale_retry_ok i r now :
  row_ok i r → c_status r = "Failed" → row_ok i (assign_all [SetStatus "Pending"; SetScheduledAt now] r).
Proof.
  intros [Hst Hl Hp] Hs. constructor; [by destruct r|by destruct r|]. intros record Hr.
  eapply payload_agrees_rewrite; [apply Hp; by destruct r|by destruct r..| |auto].
  rewrite (status_terminal_by_name _ _ Hs). done.
Qed.

(** The decision is to call [fail_dlq], or to promote a row that is still [Failed]. *)
Lemma promote_one_cases clock now x s :
  let s' := (promote_one clock now x s).2 in
  if exhausted x then
    ∃ record err t t', x.1.2 = Json record ∧ s' = (fail_dlq (id record) err t t' s).2
  else jobs s' = jobs s ∨
       jobs s' = update_where (λ j r, has_id x.1.1 j r && status_is "Failed" r)
                   [SetStatus "Pending"; SetScheduledAt now] (jobs s).
Proof.
  destruct x as [[i p] n]. unfold promote_one, mbind, op_bind, lift, exhausted. cbn [fst snd].
  destruct p as [record|msg]; [|by left]. cbn [deserialize_record].
  change (retry_max (retry (set_count (as_u32 n) record))) with (retry_max (retry record)).
  change (count (retry (set_count (as_u32 n) record))) with (as_u32 n).
  case_bool_decide; [|by right].
  exists record, (max_retries_message (as_u32 n) (retry_max (retry record))), (clock (id record)).1, (clock (id record)).2.
  split; [done|]. change (id (set_count (as_u32 n) record)) with (id record).
  by destruct (fail_dlq _ _ _ _ s) as [[] s'].
Qed.

Lemma promote_one_ok clock now x s : table_ok (jobs s) → table_ok (jobs (promote_one clock now x s).2).
Proof.
  intros Hok. pose proof (promote_one_cases clock now x s) as H. cbn zeta in H.
  destruct (exhausted x).
  - destruct H as (record & err & t & t' & _ & ->).
    eapply table_ok_evolve; [done|]. apply (fail_dlq_evolve true). by left.
  - destruct H as [->|E]; [done|]. intros j r. rewrite E, lookup_update_where.
    destruct (jobs s !! j) as [r0|] eqn:Ej; [|done]. intros [= <-].
    destruct (_ && _) eqn:Eg; [|by apply Hok]. open_guard. by apply stale_retry_ok; [apply Hok|].
Qed.

Lemma still_due_frame now m m' i x :
  x.1.1 ≠ i → (∀ j, j ≠ i → m' !! j = m !! j) → still_due now m x → still_due now m' x.
Proof. intros Hne Hfr (r & Hr & ?). exists r. by rewrite Hfr. Qed.

Lemma promote_retries_apply_effect clock now rows promoted s :
  table_ok (jobs s) → NoDup ((λ x, x.1.1) <$> rows) → Forall (still_due now (jobs s)) rows →
  let s' := (promote_retries_apply clock now rows promoted s).2 in
  rows_evolve false (jobs s) (jobs s')
  ∧ ∀ j, j ∉ ((λ x, x.1.1) <$> rows) → jobs s' !! j = jobs s !! j.
Proof.
  revert promoted s. induction rows as [|x rows IH]; intros promoted s Hok Hnd Hdue; [done|].
  apply NoDup_cons in Hnd as [Hx Hnd]. apply Forall_cons in Hdue as [Hdx Hdue].
  destruct (promote_one_effect clock now x s Hok Hdx) as [Hev Hfr].
  cbn [promote_retries_apply]. unfold mbind, op_bind.
  destruct (promote_one clock now x s) as [[ids|e] s'] eqn:E; cbn [snd fst] in *.
  2: { split; [done|]. intros j Hj. apply Hfr. set_solver. }
  destruct (IH (promoted ++ ids) s') as [Hev' Hfr'].
  - by eapply table_ok_evolve.
  - done.
  - apply Forall_forall. intros y Hy. eapply (still_due_frame now (jobs s) _ x.1.1); [|done|].
    + intros Heq. apply Hx. rewrite <- Heq. by apply (list_elem_of_fmap_2 (λ x, x.1.1)).
    + by eapply Forall_forall.
  - split; [by etrans|]. intros j Hj. rewrite Hfr', Hfr; [done|set_solver..].
Qed.

Lemma promote_retries_evolve clock now s :
  table_ok (jobs s) → rows_evolve false (jobs s) (jobs (promote_retries clock now s).2).
Proof.
  intros Hok. unfold promote_retries. apply promote_retries_apply_effect; [exact Hok|..].
  - apply promote_retries_select_NoDup.
  - apply promote_retries_select_due.
Qed.

Lemma promote_retries_frame clock now s i r :
  table_ok (jobs s) → jobs s !! i = Some r → retry_due now i r = false →
  jobs (promote_retries clock now s).2 !! i = Some r.
Proof.
  intros Hok Hi Hd. unfold promote_retries. rewrite <- Hi.
  apply promote_retries_apply_effect; [exact Hok|..].
  - apply promote_retries_select_NoDup.
  - apply promote_retries_select_due.
  - intros [x [-> Hx]]%list_elem_of_fmap.
    pose proof (promote_retries_select_due now (jobs s)) as Hall.
    rewrite Forall_forall in Hall. destruct (Hall _ Hx) as (r' & Hr' & Hd' & _). congruence.
Qed.

(** ** Rows an operation does not touch *)

(** An UPDATE whose WHERE clause holds of one row is an insertion. *)
Lemma update_where_insert i p sets m r :
  m !! i = Some r → p i r = true → (∀ j r', j ≠ i → p j r' = false) →
  update_where p sets m = <[i := assign_all sets r]> m.
Proof.
  intros Hi Hp Hne. apply map_eq. intros j. rewrite lookup_update_where.
  destruct (decide (j = i)) as [->|Hji].
  - rewrite lookup_insert_eq, Hi. simpl. by rewrite Hp.
  - rewrite lookup_insert_ne by done. destruct (m !! j); simpl; [|done]. by rewrite Hne.
Qed.

Lemma has_id_other i j r : j ≠ i → has_id i j r = false.
Proof. apply bool_decide_eq_false_2. Qed.

Lemma has_id_self i r : has_id i i r = true.
Proof. by apply bool_decide_eq_true_2. Qed.

Lemma update_where_spares p sets m i r :
  m !! i = Some r → p i r = false → update_where p sets m !! i = Some r.
Proof. intros Hi Hp. rewrite lookup_update_where, Hi. simpl. by rewrite Hp. Qed.

Lemma set_pending_spares i j s r :
  jobs s !! j = Some r → c_status r ≠ "Waiting" → jobs (set_pending i s).2 !! j = Some r.
Proof.
  intros Hj Hw. apply update_where_spares; [done|]. apply andb_false_iff. right.
  by apply String.eqb_neq.
Qed.

Lemma cascade_spares i j s r :
  jobs s !! j = Some r → c_status r ≠ "Waiting" →
  jobs (cascade_check_and_promote i s).2 !! j = Some r.
Proof.
  intros Hj Hw. unfold cascade_check_and_promote, mbind, op_bind, find_awaiting.
  destruct (collect_results _ _) as [deps|]; [|done]. revert s Hj.
  induction deps as [|dep deps IH]; intros s Hj; simpl; [done|].
  unfold mbind, op_bind, cascade_one at 1, mbind, op_bind.
  pose proof (all_jobs_done_pure (await_ids dep) s) as Hs.
  destruct (all_jobs_done _ _) as [[[]|] s']; simpl in *; subst; try done; [|by apply IH].
  apply IH. by apply set_pending_spares.
Qed.

Lemma promote_stranded_spares j s r :
  jobs s !! j = Some r → c_status r ≠ "Waiting" →
  jobs (promote_stranded_waiting_jobs s).2 !! j = Some r.
Proof.
  intros Hj Hw. unfold promote_stranded_waiting_jobs.
  generalize (λ x : Ulid * row, c_payload x.2). intros f.
  generalize (f <$> select_where stranded_candidate (jobs s)). intros l. clear f.
  generalize 0. revert s Hj. induction l as [|p l IH]; intros s Hj n; simpl; [done|].
  unfold mbind, op_bind, lift. destruct (deserialize_record p) as [record|]; [|done].
  case_decide; [by apply IH|].
  pose proof (all_jobs_done_pure (await_ids record) s) as Hs.
  destruct (all_jobs_done _ _) as [[[]|] s']; simpl in *; subst; try done; [|by apply IH].
  apply IH. by apply set_pending_spares.
Qed.

Lemma lease_first_spares eligible now now' j s r :
  jobs s !! j = Some r → eligible r = false →
  jobs (lease_first eligible now now' s).2 !! j = Some r.
Proof.
  intros Hj He. unfold lease_first.
  destruct (pick_best _ _) as [[i r']|] eqn:E; [|done].
  apply pick_best_elem, elem_of_select_where in E as [Hi Hr].
  assert (jobs (set_jobs (update_where (has_id i)
    [SetStatus "Running"; SetLeaseUntil (Some (now' + nanoseconds 300));
     SetStartedAt (Some now); IncrAttemptCount] (jobs s)) s) !! j = Some r).
  { apply update_where_spares; [done|]. apply bool_decide_eq_false_2.
    intros ->. simplify_eq. congruence. }
  by destruct (deserialize_record _).
Qed.
