(* ===== verification/QueuePurge.v ===== *)
(** * QueuePurge: the batched purge of terminal payloads

    The purge of [QueueStore] walks the candidate rows in batches behind a cursor.
    Here it is shown equal to a one-pass reference: every candidate row outside the
    keep window loses its body, no other row changes, the returned number is the
    number of rows rewritten, the read-only dry run answers the same number, and
    the loop ends within the fuel for any batch size above zero. *)

From S2P Require Import Prelude Job QueueStore QueueLaws.

#[local] Open Scope nat_scope.

(** ** The reference *)

(** The rule applied to one payload. *)
Definition purgeable (p : payload) : bool :=
  match deserialize_record p with
  | Ok record => record_is_purgeable record
  | Err _ => false
  end.

Definition purge_payload (p : payload) : payload :=
  match deserialize_record p with
  | Ok record => if record_is_purgeable record
                 then serialize_record (set_kind PayloadPurged record) else p
  | Err _ => p
  end.

Definition purge_row (r : row) : row := assign r (SetPayload (purge_payload (c_payload r))).

Section reference.
Context (keep : nat) (cutoff : option DateTime).

(** The candidate rows, whatever the batch size. *)
Definition candidates (after : option Ulid) (m : table) : list (Ulid * payload) :=
  (λ x, (x.1, c_payload x.2)) <$> select_where (purge_candidate keep cutoff after m) m.

Definition purge_reference (m : table) : table :=
  map_imap (λ i r, Some (if purge_candidate keep cutoff None m i r then purge_row r else r)) m.

Definition count_reference (m : table) : nat :=
  length (filter (λ x, purgeable x.2 = true) (candidates None m)).
End reference.

Lemma assign_payload_same r : assign r (SetPayload (c_payload r)) = r.
Proof. by destruct r. Qed.

Lemma purge_row_columns r :
  c_status (purge_row r) = c_status r ∧ c_created_at (purge_row r) = c_created_at r.
Proof. by destruct r. Qed.

Lemma purge_payload_idem p : purge_payload (purge_payload p) = purge_payload p.
Proof.
  destruct p as [record|]; [|done]. unfold purge_payload. simpl.
  destruct (record_is_purgeable record) eqn:E; simpl; [done|]. by rewrite E.
Qed.

Lemma purge_payload_spent p : purgeable (purge_payload p) = false.
Proof.
  destruct p as [record|]; [|done]. unfold purge_payload. simpl.
  destruct (record_is_purgeable record) eqn:E; done.
Qed.

Lemma purge_payload_id p : purgeable p = false → purge_payload p = p.
Proof. unfold purgeable, purge_payload. by destruct (deserialize_record p) as [?|]; [intros ->|]. Qed.

(** ** One batch *)

(** Rewriting the rows of a set of identifiers. *)
Definition purge_ids (ids : list Ulid) (m : table) : table :=
  map_imap (λ i r, Some (if bool_decide (i ∈ ids) then purge_row r else r)) m.

Lemma lookup_purge_ids ids m i :
  purge_ids ids m !! i = (λ r, if bool_decide (i ∈ ids) then purge_row r else r) <$> m !! i.
Proof. unfold purge_ids. rewrite map_lookup_imap. by destruct (m !! i). Qed.

(** The listed payload is the one in the table. *)
Definition current (m : table) (x : Ulid * payload) : Prop :=
  ∃ r, m !! x.1 = Some r ∧ c_payload r = x.2.

Lemma candidates_current keep cutoff after m : Forall (current m) (candidates keep cutoff after m).
Proof.
  apply Forall_fmap, Forall_forall. intros [i r] [Hi _]%elem_of_select_where. by exists r.
Qed.

Lemma candidates_sorted keep cutoff after m :
  StronglySorted key_lt (candidates keep cutoff after m).
Proof.
  apply (key_lt_sorted_fmap (λ x : Ulid * row, (x.1, c_payload x.2))); [done|].
  apply strict_sorted_filter, rows_by_id_strict.
Qed.

Lemma purge_step_ids i r m :
  m !! i = Some r → purgeable (c_payload r) = true →
  ∃ record, deserialize_record (c_payload r) = Ok record ∧ record_is_purgeable record = true ∧
  update_where (has_id i) [SetPayload (serialize_record (set_kind PayloadPurged record))] m
  = purge_ids [i] m.
Proof.
  intros Hi. unfold purgeable. destruct (deserialize_record _) as [record|] eqn:E; [|done].
  intros Hp. exists record. split_and!; [done|done|]. apply map_eq. intros j.
  rewrite lookup_update_where, lookup_purge_ids. destruct (m !! j) as [r'|] eqn:Hj; [|done].
  simpl. f_equal. unfold has_id. destruct (decide (j = i)) as [->|Hne].
  - rewrite !bool_decide_eq_true_2 by set_solver. simplify_eq.
    unfold purge_row, purge_payload. by rewrite E, Hp.
  - rewrite !bool_decide_eq_false_2; [done|set_solver|done].
Qed.

Lemma purge_ids_spent i r m :
  m !! i = Some r → purgeable (c_payload r) = false → purge_ids [i] m = m.
Proof.
  intros Hi Hp. apply map_eq. intros j. rewrite lookup_purge_ids.
  destruct (m !! j) as [r'|] eqn:Hj; [|done]. simpl. case_bool_decide as Hji; [|done].
  apply list_elem_of_singleton in Hji as ->. simplify_eq. unfold purge_row.
  by rewrite (purge_payload_id _ Hp), assign_payload_same.
Qed.

Lemma purge_ids_app l1 l2 m :
  (∀ i, i ∈ l1 → i ∉ l2) → purge_ids l2 (purge_ids l1 m) = purge_ids (l1 ++ l2) m.
Proof.
  intros Hdisj. apply map_eq. intros j. rewrite !lookup_purge_ids.
  destruct (m !! j) as [r|]; [|done]. simpl. f_equal. specialize (Hdisj j).
  destruct (decide (j ∈ l1)), (decide (j ∈ l2));
    repeat first [rewrite (bool_decide_eq_true_2 (j ∈ _)) by set_solver
                 |rewrite (bool_decide_eq_false_2 (j ∈ _)) by set_solver]; naive_solver.
Qed.

Lemma purge_ids_frame ids m i : i ∉ ids → purge_ids ids m !! i = m !! i.
Proof.
  intros. rewrite lookup_purge_ids. destruct (m !! i); [|done]. simpl.
  by rewrite bool_decide_eq_false_2.
Qed.

Lemma purge_rows_spec rows n k m :
  NoDup rows.*1 → Forall (current m) rows →
  ∃ k', purge_rows rows (n, k, m)
        = (n + length (filter (λ x, purgeable x.2 = true) rows), k', purge_ids rows.*1 m).
Proof.
  revert n k m. induction rows as [|[i p] rows IH]; intros n k m Hnd Hcur.
  { exists k. simpl. rewrite Nat.add_0_r. f_equal. apply map_eq. intros j.
    rewrite lookup_purge_ids. by destruct (m !! j). }
  apply NoDup_cons in Hnd as [Hni Hnd]. apply Forall_cons in Hcur as [(r & Hr & Hp) Hcur].
  simpl in Hr, Hp. subst p.
  assert (Forall (current (purge_ids [i] m)) rows) as Hcur'.
  { eapply Forall_impl; [apply Forall_and; split; [exact Hcur|apply Forall_forall]|].
    - intros x Hx. exact (list_elem_of_fmap_2 fst _ _ Hx).
    - intros x [(r' & Hr' & ?) Hx]. exists r'. rewrite purge_ids_frame; [done|set_solver]. }
  assert (purge_ids (i :: rows.*1) m = purge_ids rows.*1 (purge_ids [i] m)) as Happ.
  { rewrite purge_ids_app; [done|set_solver]. }
  cbn [purge_rows fmap list_fmap]. rewrite filter_cons. cbn [snd fst].
  destruct (purgeable (c_payload r)) eqn:Hpu.
  - destruct (purge_step_ids i r m Hr Hpu) as (record & -> & -> & ->).
    destruct (IH (S n) k (purge_ids [i] m) Hnd Hcur') as [k' ->]. exists k'.
    rewrite decide_True by done. rewrite Happ. cbn [length]. by rewrite Nat.add_succ_r.
  - rewrite decide_False by done. rewrite Happ, (purge_ids_spent _ _ _ Hr Hpu).
    unfold purgeable in Hpu. destruct (deserialize_record (c_payload r)); [rewrite Hpu|];
      apply IH; done.
Qed.

(** ** The cursor *)

(** Which rows are candidates depends on columns a purge leaves alone. *)
Lemma purge_ids_terminal ids m i r :
  purge_ids ids m !! i = Some r →
  ∃ r0, m !! i = Some r0 ∧ c_status r = c_status r0 ∧ c_created_at r = c_created_at r0.
Proof.
  rewrite lookup_purge_ids. intros (r0 & Hr & ->)%fmap_Some. exists r0. split; [done|].
  case_bool_decide; [|done]. destruct (purge_row_columns r0). auto.
Qed.

Lemma keep_window_stable keep ids m : keep_window keep (purge_ids ids m) = keep_window keep m.
Proof.
  unfold keep_window. do 2 f_equal.
  assert (∀ m, StronglySorted N.lt (select_where (λ _, status_terminal) m).*1) as Hs.
  { intros m0. eapply (StronglySorted_fmap _ key_lt); [done|].
    apply strict_sorted_filter, rows_by_id_strict. }
  assert (∀ i, i ∈ (select_where (λ _, status_terminal) (purge_ids ids m)).*1
             ↔ i ∈ (select_where (λ _, status_terminal) m).*1) as Hel.
  { intros i. rewrite !select_where_fst. unfold status_terminal. split.
    - intros (r & (r0 & ? & Hst & _)%purge_ids_terminal & Ht). rewrite Hst in Ht. eauto.
    - intros (r0 & Hr & Ht). eexists. rewrite lookup_purge_ids, Hr. split; [done|]. simpl.
      by destruct r0, (bool_decide (i ∈ ids)). }
  eapply StronglySorted_unique_strong; [|apply Hs|apply Hs|].
  - intros x y _ _. lia.
  - apply NoDup_Permutation; [apply select_where_NoDup..|done].
Qed.

Lemma purge_candidate_stable keep cutoff after ids m i r r0 :
  c_status r = c_status r0 → c_created_at r = c_created_at r0 →
  purge_candidate keep cutoff after (purge_ids ids m) i r
  = purge_candidate keep cutoff after m i r0.
Proof.
  intros Hs Hc. unfold purge_candidate, status_terminal. by rewrite Hs, Hc, keep_window_stable.
Qed.

Lemma purge_candidate_cursor keep cutoff after m i r :
  purge_candidate keep cutoff after m i r
  = purge_candidate keep cutoff None m i r && unless_null after (λ a, bool_decide (a < i)%N).
Proof.
  unfold purge_candidate. simpl. rewrite andb_true_r.
  destruct (status_terminal r), (unless_null cutoff _), (unless_null after _),
    (bool_decide (i ∉ _)); done.
Qed.

Lemma elem_of_candidates keep cutoff after m x :
  x ∈ candidates keep cutoff after m ↔
  ∃ r, m !! x.1 = Some r ∧ c_payload r = x.2
       ∧ purge_candidate keep cutoff None m x.1 r = true
       ∧ unless_null after (λ a, bool_decide (a < x.1)%N) = true.
Proof.
  unfold candidates. rewrite list_elem_of_fmap. split.
  - intros [[i r] [-> [Hi Hc]%elem_of_select_where]]. exists r. simpl.
    rewrite purge_candidate_cursor, andb_true_iff in Hc. naive_solver.
  - destruct x as [i p]. simpl. intros (r & Hi & <- & Hc & Ha). exists (i, r).
    split; [done|]. apply elem_of_select_where. rewrite purge_candidate_cursor, Hc, Ha. done.
Qed.

(** A candidate after the cursor [y], which is itself after the cursor [after]. *)
Lemma candidates_after keep cutoff after m x y :
  y ∈ candidates keep cutoff after m → (y.1 < x.1)%N →
  x ∈ candidates keep cutoff None m → x ∈ candidates keep cutoff after m.
Proof.
  rewrite !elem_of_candidates. intros (_ & _ & _ & _ & Hy) Hlt (r & ? & ? & ? & _).
  exists r. split_and!; [done..|]. destruct after as [a|]; [|done]. simpl in *.
  reflect_bools. apply bool_decide_eq_true_2. lia.
Qed.

(** The next batch is what the previous one left. *)
Lemma candidates_next keep cutoff after batch m y ids :
  last (take batch (candidates keep cutoff after m)) = Some y →
  (∀ i, (y.1 < i)%N → i ∉ ids) →
  candidates keep cutoff (Some y.1) (purge_ids ids m)
  = drop batch (candidates keep cutoff after m).
Proof.
  intros Hy Hkeys. pose proof (candidates_sorted keep cutoff after m) as Hs.
  pose proof (strict_sorted_page key_lt _ _ _ Hs Hy) as Hpage.
  apply (strict_sorted_ext key_lt); [apply candidates_sorted|by apply strict_sorted_drop|].
  intros x. rewrite Hpage, elem_of_candidates. simpl. split.
  - intros (r & Hr & Hp & Hc & Ha). reflect_bools. split; [|done].
    rewrite purge_ids_frame in Hr by auto.
    apply (candidates_after keep cutoff after m x y); [|done|].
    { apply last_Some_elem_of, elem_of_take in Hy as (? & ? & ?).
      by eapply list_elem_of_lookup_2. }
    apply elem_of_candidates. exists r. split_and!; [done|done| |done].
    by erewrite purge_candidate_stable in Hc.
  - intros [Hx Hlt]. apply elem_of_candidates in Hx as (r & Hr & Hp & Hc & _). exists r.
    rewrite purge_ids_frame by auto. split_and!; [done|done| |].
    + by erewrite purge_candidate_stable.
    + by apply bool_decide_eq_true_2.
Qed.

(** ** The loops *)

Section loops.
Context (keep batch : nat) (cutoff : option DateTime) (batch_pos : 0 < batch).

Lemma purge_one_batch_spec after m :
  let rows := take batch (candidates keep cutoff after m) in
  ∃ k, purge_one_batch keep batch cutoff after m
       = (mkPurgeBatch (length rows) (length (filter (λ x, purgeable x.2 = true) rows)) k
            (fst <$> last rows), purge_ids rows.*1 m).
Proof.
  unfold purge_one_batch, purge_candidate_rows. fold (candidates keep cutoff after m).
  pose proof (candidates_current keep cutoff after m) as Hcur.
  pose proof (key_lt_sorted_keys _ (candidates_sorted keep cutoff after m)) as Hnd.
  rewrite <- (take_drop batch (candidates keep cutoff after m)) in Hcur, Hnd.
  rewrite fmap_app in Hnd. apply Forall_app in Hcur as [Hcur _].
  apply NoDup_app in Hnd as [Hnd _].
  destruct (purge_rows_spec _ 0 0 m Hnd Hcur) as [k ->]. by exists k.
Qed.

(** A full batch has a last row, and leaves strictly fewer candidates. *)
Lemma full_batch {A} (l : list A) :
  ¬ length (take batch l) < batch →
  (∃ y, last (take batch l) = Some y) ∧ length (drop batch l) < length l.
Proof.
  rewrite length_take, length_drop. intros Hge. split; [|lia].
  destruct l as [|x l]; [simpl in *; lia|]. destruct batch as [|b]; [lia|]. simpl.
  destruct (last (x :: take b l)) as [y|] eqn:E; [by exists y|].
  by apply last_None in E.
Qed.

Lemma purge_loop_spec fuel after n m :
  length (candidates keep cutoff after m) < fuel →
  purge_loop keep batch fuel cutoff after n m
  = Some (n + length (filter (λ x, purgeable x.2 = true) (candidates keep cutoff after m)),
          purge_ids (candidates keep cutoff after m).*1 m).
Proof.
  revert after n m. induction fuel as [|fuel IH]; intros after n m Hf; [lia|].
  cbn [purge_loop]. destruct (purge_one_batch_spec after m) as [k ->]. cbn [selected purged last_id].
  destruct (Nat.ltb_spec (length (take batch (candidates keep cutoff after m))) batch) as [Hlt|Hge].
  - rewrite take_ge; [done|]. rewrite length_take in Hlt. lia.
  - destruct (full_batch (candidates keep cutoff after m)) as [[y Hy] Hlen]; [lia|].
    rewrite Hy. cbn [fmap option_fmap option_map].
    pose proof (candidates_sorted keep cutoff after m) as Hs.
    pose proof (candidates_next _ _ _ _ _ y (take batch (candidates keep cutoff after m)).*1 Hy
      (λ i, key_lt_sorted_page_keys _ _ _ i Hs Hy)) as Hnext.
    rewrite IH; rewrite Hnext; [|lia]. f_equal. f_equal.
    + rewrite <- Nat.add_assoc, <- length_app, <- filter_app, take_drop. done.
    + rewrite purge_ids_app, <- fmap_app, take_drop; [done|].
      pose proof (key_lt_sorted_keys _ Hs) as Hnd.
      rewrite <- (take_drop batch (candidates keep cutoff after m)), fmap_app in Hnd.
      apply NoDup_app in Hnd as (_ & Hd & _). exact Hd.
Qed.

Lemma purge_ids_nil m : purge_ids [] m = m.
Proof. apply map_eq. intros i. rewrite lookup_purge_ids. by destruct (m !! i). Qed.

Lemma count_loop_spec fuel after n m :
  length (candidates keep cutoff after m) < fuel →
  count_loop keep batch fuel cutoff after n m
  = Some (n + length (filter (λ x, purgeable x.2 = true) (candidates keep cutoff after m))).
Proof.
  revert after n. induction fuel as [|fuel IH]; intros after n Hf; [lia|].
  cbn [count_loop]. unfold purge_candidate_rows. fold (candidates keep cutoff after m).
  change (λ x : Ulid * payload, match deserialize_record x.2 with
            | Ok record => record_is_purgeable record | Err _ => false end = true)
    with (λ x : Ulid * payload, purgeable x.2 = true).
  destruct (Nat.ltb_spec (length (take batch (candidates keep cutoff after m))) batch) as [Hlt|Hge].
  - rewrite take_ge; [done|]. rewrite length_take in Hlt. lia.
  - destruct (full_batch (candidates keep cutoff after m)) as [[y Hy] Hlen]; [lia|].
    rewrite Hy. cbn [fmap option_fmap option_map].
    pose proof (candidates_next _ _ _ _ _ y [] Hy ltac:(set_solver)) as Hnext.
    rewrite purge_ids_nil in Hnext. rewrite IH; rewrite Hnext; [|lia]. f_equal.
    rewrite <- Nat.add_assoc, <- length_app, <- filter_app, take_drop. done.
Qed.
End loops.

Lemma candidates_length keep cutoff after m :
  length (candidates keep cutoff after m) ≤ size m.
Proof.
  unfold candidates, select_where. rewrite length_fmap.
  etrans; [apply length_filter|]. unfold rows_by_id.
  rewrite merge_sort_Permutation. rewrite length_map_to_list. done.
Qed.

Lemma purge_ids_reference keep cutoff m :
  purge_ids (candidates keep cutoff None m).*1 m = purge_reference keep cutoff m.
Proof.
  apply map_eq. intros i. unfold purge_reference. rewrite lookup_purge_ids, map_lookup_imap.
  destruct (m !! i) as [r|] eqn:Hi; [|done]. simpl. f_equal.
  destruct (purge_candidate keep cutoff None m i r) eqn:Hc.
  - rewrite bool_decide_eq_true_2; [done|]. apply list_elem_of_fmap. exists (i, c_payload r).
    split; [done|]. apply elem_of_candidates. eauto.
  - rewrite bool_decide_eq_false_2; [done|]. intros [x [-> Hx]]%list_elem_of_fmap.
    apply elem_of_candidates in Hx as (r' & Hr' & _ & Hc' & _). congruence.
Qed.

Lemma purge_terminal_payloads_reference older_than s :
  purge_terminal_payloads older_than s
  = (Ok (count_reference TERMINAL_PAYLOAD_KEEP older_than (jobs s)),
     set_jobs (purge_reference TERMINAL_PAYLOAD_KEEP older_than (jobs s)) s).
Proof.
  unfold purge_terminal_payloads.
  pose proof (candidates_length TERMINAL_PAYLOAD_KEEP older_than None (jobs s)).
  rewrite purge_loop_spec; [|unfold PURGE_BATCH_ROWS; lia|lia].
  by rewrite purge_ids_reference.
Qed.

Lemma purge_row_idem r : purge_row (purge_row r) = purge_row r.
Proof. destruct r. unfold purge_row. simpl. by rewrite purge_payload_idem. Qed.

Lemma lookup_purge_reference keep cutoff m i :
  purge_reference keep cutoff m !! i
  = (λ r, if purge_candidate keep cutoff None m i r then purge_row r else r) <$> m !! i.
Proof. unfold purge_reference. rewrite map_lookup_imap. by destruct (m !! i). Qed.

(** The purge does not change which rows are candidates. *)
Lemma purge_reference_candidate keep cutoff m i r :
  purge_candidate keep cutoff None (purge_reference keep cutoff m) i
    (if purge_candidate keep cutoff None m i r then purge_row r else r)
  = purge_candidate keep cutoff None m i r.
Proof.
  rewrite <- (purge_ids_reference keep cutoff m).
  destruct (purge_row_columns r). apply purge_candidate_stable; by case_match.
Qed.

Lemma purge_reference_idem keep cutoff m :
  purge_reference keep cutoff (purge_reference keep cutoff m) = purge_reference keep cutoff m.
Proof.
  apply map_eq. intros i. rewrite !lookup_purge_reference.
  destruct (m !! i) as [r|]; [|done]. simpl. f_equal. rewrite purge_reference_candidate.
  destruct (purge_candidate _ _ _ _ _ _); [apply purge_row_idem|done].
Qed.

Lemma count_reference_spent keep cutoff m :
  count_reference keep cutoff (purge_reference keep cutoff m) = 0.
Proof.
  unfold count_reference. apply length_zero_iff_nil, filter_none. intros x Hx.
  apply elem_of_candidates in Hx as (r & Hr & Hp & Hc & _).
  rewrite lookup_purge_reference in Hr. apply fmap_Some in Hr as (r0 & Hr0 & ->).
  rewrite purge_reference_candidate in Hc. rewrite Hc in Hp. rewrite <- Hp.
  assert (c_payload (purge_row r0) = purge_payload (c_payload r0)) as -> by by destruct r0.
  by rewrite purge_payload_spent.
Qed.

Lemma purge_evolve forced older_than s :
  rows_evolve forced (jobs s) (jobs (purge_terminal_payloads older_than s).2).
Proof.
  rewrite purge_terminal_payloads_reference. intros i. simpl.
  rewrite lookup_purge_reference. destruct (jobs s !! i) as [r|]; constructor.
  destruct (purge_candidate _ _ _ _ _ _) eqn:Hc; [|apply rtc_refl].
  unfold purge_candidate in Hc. reflect_bools. unfold purge_row, purge_payload.
  destruct (deserialize_record (c_payload r)) as [record|] eqn:Ed;
    [|rewrite assign_payload_same; apply rtc_refl].
  apply deserialize_Ok in Ed.
  destruct (record_is_purgeable record); [|rewrite assign_payload_same; apply rtc_refl].
  apply rtc_once. by apply RsPurge.
Qed.

(** ** The keep window, counted *)

(** How many terminal rows are more recent than [i]. *)
Definition newer_terminals (m : table) (i : Ulid) : nat :=
  length (select_where (λ j r, bool_decide (i < j)%N && status_terminal r) m).

Lemma length_filter_fst {B} (P : N → Prop) (Q : N * B → Prop) `{∀ x, Decision (P x)}
    `{∀ x, Decision (Q x)} (l : list (N * B)) :
  length (filter P (filter Q l).*1) = length (filter (λ x, P x.1 ∧ Q x) l).
Proof.
  induction l as [|x l IH]; [done|]. rewrite !(filter_cons _ x).
  destruct (decide (Q x)), (decide (P x.1 ∧ Q x)) as [[]|]; rewrite ?fmap_cons, ?filter_cons;
    repeat case_decide; simpl; try rewrite IH; tauto.
Qed.

Lemma keep_window_counts keep m i r :
  m !! i = Some r → status_terminal r = true →
  i ∈ keep_window keep m ↔ newer_terminals m i < keep.
Proof.
  intros Hi Ht. unfold keep_window.
  rewrite (strict_sorted_window N.lt).
  - assert (length (filter (N.lt i) (select_where (λ _, status_terminal) m).*1)
            = newer_terminals m i) as ->; [|done].
    unfold newer_terminals, select_where. rewrite length_filter_fst. f_equal.
    apply list_filter_iff. intros [j rj]. simpl. by rewrite andb_true_iff, bool_decide_eq_true.
  - apply StronglySorted_fmap with (R1 := key_lt); [done|].
    apply strict_sorted_filter, rows_by_id_strict.
  - apply select_where_fst. eauto.
Qed.

(** Which rows lose their body, without the machinery of the query. *)
Definition past_keeping (cutoff : option DateTime) (m : table) (i : Ulid) (r : row) : bool :=
  status_terminal r && unless_null cutoff (λ c, bool_decide (c_created_at r < c)%Z)
  && (200 <=? newer_terminals m i).

Lemma purge_candidate_counts cutoff m i r :
  m !! i = Some r →
  purge_candidate TERMINAL_PAYLOAD_KEEP cutoff None m i r = past_keeping cutoff m i r.
Proof.
  intros Hi. unfold purge_candidate, past_keeping. cbn [unless_null]. rewrite andb_true_r.
  destruct (status_terminal r) eqn:Et; [|done]. cbn [andb]. f_equal.
  apply eq_true_iff_eq. rewrite bool_decide_eq_true, Nat.leb_le.
  rewrite (keep_window_counts _ _ _ _ Hi Et). unfold TERMINAL_PAYLOAD_KEEP. lia.
Qed.

(** ** Properties *)

(** C18: [purge_terminal_payloads] is its one-pass reference.  For every queue and
    every cutoff the batched loop ends, takes the body out of exactly the rows that are
    terminal, created before the cutoff and older than at least 200 other terminal rows,
    leaves every other row as it was, and returns the number of rows rewritten; the dry run [count_purgeable_terminal_payloads] announces that number;
    and a second purge finds nothing to rewrite and changes nothing. *)
Theorem purge_equals_reference (older_than : option DateTime) (s : store) :
  let n := count_reference TERMINAL_PAYLOAD_KEEP older_than (jobs s) in
  let s' := set_jobs (purge_reference TERMINAL_PAYLOAD_KEEP older_than (jobs s)) s in
  purge_terminal_payloads older_than s = (Ok n, s')
  ∧ (∀ i r, jobs s !! i = Some r →
       jobs s' !! i = Some (if past_keeping older_than (jobs s) i r then purge_row r else r))
  ∧ dom (jobs s') = dom (jobs s)
  ∧ count_purgeable_terminal_payloads older_than s = (Ok n, s)
  ∧ purge_terminal_payloads older_than s' = (Ok 0, s').
Proof.
  intros n s'. rewrite !purge_terminal_payloads_reference. split_and!; [done|..].
  - intros i r Hi. simpl. rewrite lookup_purge_reference, Hi. simpl.
    by rewrite purge_candidate_counts.
  - apply set_eq. intros i. rewrite !elem_of_dom. simpl. rewrite lookup_purge_reference.
    apply fmap_is_Some.
  - unfold count_purgeable_terminal_payloads.
    pose proof (candidates_length TERMINAL_PAYLOAD_KEEP older_than None (jobs s)).
    rewrite count_loop_spec; [done|unfold PURGE_BATCH_ROWS; lia|lia].
  - subst s'. simpl. by rewrite count_reference_spent, purge_reference_idem.
Qed.
