(* ===== verification/QueueRuns.v ===== *)
(** * QueueRuns: sequences of queue operations

    A [call] is an operation of [QueueStore] with its arguments and its clock
    readings; a run is a list of calls.  The lemmas lift the laws of one operation to
    every run: the invariant of the table, the state machine of a job, and the rows a
    run cannot touch.  At the end, the jobs and stores on which witnesses run. *)

From S2P Require Import Prelude Job QueueStore QueueLaws QueuePurge.

#[local] Open Scope Z_scope.

Inductive call :=
| CEnqueue (job : JobRecord)
| CDequeue (tenant : option string) (now now' : DateTime)
| CDequeueByKind (kind : string) (tenant : option string) (now now' : DateTime)
| CComplete (i : Ulid) (res : JobResult) (now now' : DateTime)
| CCompleteMessage (i : Ulid) (res : JobResult) (now now' : DateTime)
| CFail (i : Ulid) (err : string) (attempt : Z) (now now' : DateTime)
| CCancel (i : Ulid) (tenant : option string) (now : DateTime)
| CFailDlq (i : Ulid) (err : string) (now now' : DateTime)
| CMarkConflict (i : Ulid) (md : string) (duration_ms : Z) (now now' : DateTime)
| CSetPending (i : Ulid)
| CRecover (ttl : Duration) (now now' : DateTime)
| CCancelExpired (now : DateTime)
| CPromoteRetries (clock : Ulid → DateTime * DateTime) (now : DateTime)
| CScheduleRetry (i : Ulid) (at' : DateTime)
| CDeleteDlq (older_than : option DateTime)
| CPurge (older_than : option DateTime)
| CPromoteStranded
| CIdempotencyInsert (key job : string) (now_ms : Z)
| CIdempotencyCleanup (before_ms : Z).

Section runs.
Context (json_from_str : string → option JsonValue) (from_std : Duration → option Duration).

Definition run_call (c : call) (s : store) : store :=
  match c with
  | CEnqueue job => (enqueue job s).2
  | CDequeue t now now' => (dequeue t now now' s).2
  | CDequeueByKind k t now now' => (dequeue_by_kind k t now now' s).2
  | CComplete i res now now' => (complete i res now now' s).2
  | CCompleteMessage i res now now' => (complete_message_delivery i res now now' s).2
  | CFail i err a now now' => (fail i err a now now' s).2
  | CCancel i t now => (cancel i t now s).2
  | CFailDlq i err now now' => (fail_dlq i err now now' s).2
  | CMarkConflict i md ms now now' => (mark_conflict json_from_str i md ms now now' s).2
  | CSetPending i => (set_pending i s).2
  | CRecover ttl now now' => (recover_stale_leases from_std ttl now now' s).2
  | CCancelExpired now => (cancel_expired_deadlines now s).2
  | CPromoteRetries clock now => (promote_retries clock now s).2
  | CScheduleRetry i at' => (schedule_retry i at' s).2
  | CDeleteDlq o => (delete_dlq_jobs o s).2
  | CPurge o => (purge_terminal_payloads o s).2
  | CPromoteStranded => (promote_stranded_waiting_jobs s).2
  | CIdempotencyInsert key job now_ms => (idempotency_insert key job now_ms s).2
  | CIdempotencyCleanup before_ms => (idempotency_cleanup before_ms s).2
  end.

Definition run_calls (cs : list call) (s : store) : store := foldl (λ s c, run_call c s) s cs.

(** Producers hand over jobs that are not yet running. *)
Definition well_formed_call (c : call) : bool :=
  match c with CEnqueue job => bool_decide (status (lifecycle job) ≠ Running) | _ => true end.

(** The two operations without a guard on the current status. *)
Definition unguarded (c : call) : bool :=
  match c with CFailDlq _ _ _ _ | CMarkConflict _ _ _ _ _ => true | _ => false end.

(** What one call may do to the row of one identifier. *)
Inductive slot_step (c : call) (i : Ulid) : option row → option row → Prop :=
| SlotEvolves r r' :
    option_Forall2 (rtc (row_step (unguarded c))) r r' → slot_step c i r r'
| SlotInserted job :
    c = CEnqueue job → id job = i → slot_step c i None (Some (row_of_record job))
| SlotDeleted r older_than :
    c = CDeleteDlq older_than → c_status r = "DLQ" → slot_step c i (Some r) None.

Lemma rows_evolve_slot c m m' i :
  rows_evolve (unguarded c) m m' → slot_step c i (m !! i) (m' !! i).
Proof. intros H. apply SlotEvolves, H. Qed.

Lemma enqueue_slot job s i :
  slot_step (CEnqueue job) i (jobs s !! i) (jobs (enqueue job s).2 !! i).
Proof.
  unfold enqueue. destruct (jobs s !! id job) eqn:E; simpl.
  - apply rows_evolve_slot. reflexivity.
  - destruct (decide (i = id job)) as [->|Hne].
    + rewrite lookup_insert_eq, E. by eapply SlotInserted.
    + rewrite lookup_insert_ne by done. by apply rows_evolve_slot.
Qed.

Lemma delete_dlq_slot o s i :
  slot_step (CDeleteDlq o) i (jobs s !! i) (jobs (delete_dlq_jobs o s).2 !! i).
Proof.
  simpl. destruct (delete_where _ _ !! i) as [r|] eqn:E.
  - apply lookup_delete_where in E as [-> _]. apply SlotEvolves. constructor. apply rtc_refl.
  - destruct (jobs s !! i) as [r|] eqn:Hi; [|apply SlotEvolves; constructor].
    eapply SlotDeleted; [done|]. unfold delete_where in E.
    apply map_lookup_filter_None in E as [?|E]; [congruence|]. specialize (E _ Hi). simpl in E.
    unfold dlq_target in E. apply not_false_iff_true in E. by open_guard.
Qed.

Lemma dequeue_by_kind_evolve forced k t now now' s :
  rows_evolve forced (jobs s) (jobs (dequeue_by_kind k t now now' s).2).
Proof.
  unfold dequeue_by_kind. case_match; [done|]. apply lease_first_evolve.
  intros r Hr. reflect_bools. by eapply dequeueable_pending.
Qed.

Lemma run_call_slot c s i :
  table_ok (jobs s) → slot_step c i (jobs s !! i) (jobs (run_call c s) !! i).
Proof.
  intros Hok. destruct c; cbn [run_call];
    lazymatch goal with
    | |- slot_step (CEnqueue _) _ _ _ => apply enqueue_slot
    | |- slot_step (CDeleteDlq _) _ _ _ => apply delete_dlq_slot
    | _ => apply rows_evolve_slot
    end.
  - apply lease_first_evolve, dequeueable_pending.
  - apply dequeue_by_kind_evolve.
  - apply complete_evolve.
  - apply complete_message_delivery_evolve.
  - apply fail_evolve.
  - apply cancel_evolve.
  - apply fail_dlq_evolve. by left.
  - apply mark_conflict_evolve.
  - apply set_pending_evolve.
  - apply recover_evolve.
  - apply cancel_expired_evolve.
  - by apply promote_retries_evolve.
  - apply schedule_retry_evolve.
  - apply purge_evolve.
  - apply promote_stranded_evolve.
  - unfold idempotency_insert. case_match; reflexivity.
  - reflexivity.
Qed.

Lemma run_call_ok c s :
  well_formed_call c = true → table_ok (jobs s) → table_ok (jobs (run_call c s)).
Proof.
  intros Hwf Hok i r' Hi. pose proof (run_call_slot c s i Hok) as Hslot. rewrite Hi in Hslot.
  remember (Some r') as o eqn:Ho. remember (jobs s !! i) as o0 eqn:Ho0.
  destruct Hslot as [r1 r2 Hev|job -> <-|]; simplify_eq.
  - inversion Hev as [r ? Hrtc Hr|]; subst.
    assert (row_ok i r) as Hrow by by apply Hok.
    clear -Hrtc Hrow. induction Hrtc; eauto using row_step_ok.
  - apply row_of_record_ok. simpl in Hwf. by reflect_bools.
Qed.

Lemma run_calls_ok cs s :
  forallb well_formed_call cs = true → table_ok (jobs s) → table_ok (jobs (run_calls cs s)).
Proof.
  revert s. induction cs as [|c cs IH]; intros s Hwf Hok; simpl in *; [done|].
  reflect_bools. apply IH; [done|]. by apply run_call_ok.
Qed.

Lemma run_calls_app cs1 cs2 s : run_calls (cs1 ++ cs2) s = run_calls cs2 (run_calls cs1 s).
Proof. apply foldl_app. Qed.

(** *** Terminal rows *)

Lemma row_step_terminal r r' :
  status_terminal r = true → row_step false r r' →
  c_status r' = c_status r ∧ c_completed_at r' = c_completed_at r.
Proof.
  intros Ht Hstep. assert (∀ st, c_status r = st → bool_decide (st ∈ TERMINAL_SQL) = true) as Hn.
  { intros ? <-. done. }
  destruct Hstep; try (match goal with H : c_status _ = _ |- _ => by specialize (Hn _ H) end);
    try congruence.
  - destruct_or!; [done|]. match goal with H : c_status _ = _ |- _ => by specialize (Hn _ H) end.
  - by destruct r.
Qed.

Lemma row_steps_terminal r r' :
  status_terminal r = true → rtc (row_step false) r r' →
  c_status r' = c_status r ∧ c_completed_at r' = c_completed_at r.
Proof.
  intros Ht Hrtc. induction Hrtc as [|r1 r2 r3 H12 _ IH]; [done|].
  destruct (row_step_terminal _ _ Ht H12) as [Hs Hc]. rewrite <- Hs, <- Hc. apply IH.
  unfold status_terminal in *. by rewrite Hs.
Qed.

(** A terminal row keeps its status and completion date, unless it is a dead
    letter that was deleted. *)
Definition settled (st : string) (t : option DateTime) (o : option row) : Prop :=
  st = "DLQ" ∨ ∃ r, o = Some r ∧ c_status r = st ∧ c_completed_at r = t.

Lemma run_call_settled c s i st t :
  table_ok (jobs s) → unguarded c = false → st ∈ TERMINAL_SQL →
  settled st t (jobs s !! i) → settled st t (jobs (run_call c s) !! i).
Proof.
  intros Hok Hg Hst [?|(r & Hr & Hs & Hc)]; [by left|].
  pose proof (run_call_slot c s i Hok) as Hslot. rewrite Hr in Hslot.
  remember (Some r) as o eqn:Ho. remember (jobs (run_call c s) !! i) as o' eqn:Ho'.
  destruct Hslot as [r1 r2 Hev| |]; simplify_eq; [|by left].
  rewrite Hg in Hev. inversion Hev as [? r' Hrtc|]; subst. right. exists r'.
  split; [done|]. apply row_steps_terminal; [|done]. unfold status_terminal.
  by apply bool_decide_eq_true_2.
Qed.

(** *** Steps *)

(** [promote_retries] releases the lock between its selection and each decision: a step
    is an operation, or a decision about a row that was selected at some earlier time. *)
Inductive step :=
| Op (c : call)
| RetryDecision (clock : Ulid → DateTime * DateTime) (now : DateTime) (x : Ulid * payload * Z).

Definition run_step (c : step) (s : store) : store :=
  match c with
  | Op c => run_call c s
  | RetryDecision clock now x => (promote_one clock now x s).2
  end.
Definition run_steps (cs : list step) (s : store) : store := foldl (λ s c, run_step c s) s cs.

Definition well_formed_step (c : step) : bool := match c with Op c => well_formed_call c | _ => true end.

(** [c] calls [fail_dlq] or [mark_conflict] for the job [i]. *)
Definition overwrites (i : Ulid) (c : step) : bool :=
  match c with
  | Op (CFailDlq j _ _ _) | Op (CMarkConflict j _ _ _ _) => bool_decide (i = j)
  | RetryDecision _ _ x => exhausted x && names_job i x
  | _ => false
  end.

Lemma run_step_ok c s :
  well_formed_step c = true → table_ok (jobs s) → table_ok (jobs (run_step c s)).
Proof. destruct c; [apply run_call_ok|intros _; apply promote_one_ok]. Qed.

Lemma run_steps_ok cs s :
  forallb well_formed_step cs = true → table_ok (jobs s) → table_ok (jobs (run_steps cs s)).
Proof.
  revert s. induction cs as [|c cs IH]; intros s Hwf Hok; simpl in *; [done|].
  reflect_bools. apply IH; [done|]. by apply run_step_ok.
Qed.

Lemma run_steps_app cs1 cs2 s : run_steps (cs1 ++ cs2) s = run_steps cs2 (run_steps cs1 s).
Proof. apply foldl_app. Qed.

Lemma settled_eq st t o o' : o' = o → settled st t o → settled st t o'.
Proof. by intros ->. Qed.

(** A decision about another job, or a promotion, leaves a terminal row alone. *)
Lemma promote_one_settled clock now x s i st t :
  exhausted x && names_job i x = false → st ∈ TERMINAL_SQL →
  settled st t (jobs s !! i) → settled st t (jobs (promote_one clock now x s).2 !! i).
Proof.
  intros Ho Hst Hs. pose proof (promote_one_cases clock now x s) as H. cbn zeta in H.
  destruct (exhausted x) eqn:Ee.
  - destruct H as (record & err & t0 & t1 & Hx & ->). eapply settled_eq; [|exact Hs].
    apply fail_dlq_frame. unfold names_job in Ho. rewrite Hx in Ho. cbn [andb] in Ho. by reflect_bools.
  - destruct H as [->|E]; [done|]. destruct Hs as [?|(r & Hr & Hrs & Hc)]; [by left|].
    right. exists r. split; [|done]. rewrite E. apply update_where_spares; [done|].
    assert (status_is "Failed" r = false) as ->; [|by rewrite andb_false_r].
    assert ("Failed" ∉ TERMINAL_SQL) as Hn by (apply (bool_decide_unpack _); vm_compute; exact I).
    unfold status_is. rewrite Hrs. apply String.eqb_neq. by intros ->.
Qed.

Lemma run_step_settled c s i st t :
  table_ok (jobs s) → overwrites i c = false → st ∈ TERMINAL_SQL →
  settled st t (jobs s !! i) → settled st t (jobs (run_step c s) !! i).
Proof.
  intros Hok Ho Hst Hs. destruct c as [c|clock now x]; [|by apply promote_one_settled].
  destruct (unguarded c) eqn:Eu; [|by apply run_call_settled].
  eapply settled_eq; [|exact Hs]. destruct c; try done; cbn in Ho |- *; reflect_bools.
  - by apply fail_dlq_frame.
  - unfold mark_conflict. open_row s i0. by apply update_where_id_frame.
Qed.

(** *** Leases *)

(** [c] is not the end of the run of job [i], whose lease lasts until [L] and
    whose deadline is [dl]: it is not addressed to [i], it does not recover
    leases as recent as [L], it does not find [dl] expired. *)
Definition spares (i : Ulid) (L : DateTime) (dl : option DateTime) (c : call) : bool :=
  match c with
  | CComplete j _ _ _ | CFail j _ _ _ _ | CCancel j _ _ | CFailDlq j _ _ _
  | CMarkConflict j _ _ _ _ | CScheduleRetry j _ => bool_decide (i ≠ j)
  | CRecover ttl now _ =>
      match from_std ttl with Some d => bool_decide (now - d ≤ L) | None => true end
  | CCancelExpired now => negb (null_lt dl now)
  | _ => true
  end.

Definition holds_lease (i : Ulid) (L : DateTime) (r : row) (m : table) : Prop :=
  m !! i = Some r ∧ c_status r = "Running" ∧ c_lease_until r = Some L.

Lemma running_not_terminal r : c_status r = "Running" → status_terminal r = false.
Proof. unfold status_terminal. by intros ->. Qed.

Lemma running_not_status r st :
  c_status r = "Running" → st ≠ "Running" → status_is st r = false.
Proof. unfold status_is. intros -> ?. apply String.eqb_neq. congruence. Qed.

(** An UPDATE addressed to another row. *)
Ltac spare_addressed :=
  simpl; apply update_where_spares; [done|]; unfold has_id; by rewrite bool_decide_eq_false_2.

(** An UPDATE whose WHERE clause excludes running rows. *)
Ltac spare_running :=
  apply update_where_spares; [done|];
  rewrite ?(running_not_terminal _ ltac:(eassumption)),
    ?(running_not_status _ "Waiting" ltac:(eassumption) ltac:(done)),
    ?(running_not_status _ "Pending" ltac:(eassumption) ltac:(done)),
    ?andb_false_r; done.

Lemma complete_spares i j res now now' s r :
  i ≠ j → jobs s !! i = Some r → c_status r = "Running" →
  jobs (complete j res now now' s).2 !! i = Some r.
Proof.
  intros Hne Hi Hr. unfold complete, mbind, op_bind.
  assert (jobs (complete_tx j res now now' s).2 !! i = Some r) as H.
  { unfold complete_tx. open_row s j. spare_addressed. }
  destruct (complete_tx _ _ _ _ _) as [[[]|] s']; simpl in *; try done.
  apply cascade_spares; [done|]. by rewrite Hr.
Qed.

Lemma sweep_spares c s i L r :
  table_ok (jobs s) → holds_lease i L r (jobs s) → spares i L (c_deadline r) c = true →
  match c with
  | CRecover _ _ _ | CCancelExpired _ | CPromoteRetries _ _ | CDeleteDlq _ | CPurge _
  | CPromoteStranded => jobs (run_call c s) !! i = Some r
  | _ => True
  end.
Proof.
  intros Hok (Hi & Hr & HL) Hs. destruct c; try done; cbn [run_call spares] in *.
  - unfold recover_stale_leases. destruct (from_std ttl); [|done]. reflect_bools.
    apply update_where_spares; [done|]. rewrite HL. simpl.
    rewrite bool_decide_eq_false_2 by lia. apply andb_false_r.
  - unfold cancel_expired_deadlines. simpl. rewrite publish_all_jobs. reflect_bools.
    apply update_where_spares; [done|]. unfold deadline_expired. by rewrite Hs.
  - apply promote_retries_frame; [done|done|]. unfold retry_due.
    by rewrite (running_not_status _ _ Hr).
  - apply lookup_delete_where. split; [done|]. unfold dlq_target.
    by rewrite (running_not_status _ _ Hr).
  - rewrite purge_terminal_payloads_reference. simpl. rewrite lookup_purge_reference, Hi.
    simpl. unfold purge_candidate. by rewrite (running_not_terminal _ Hr).
  - apply promote_stranded_spares; [done|]. by rewrite Hr.
Qed.

Lemma run_call_spares c s i L r :
  table_ok (jobs s) → holds_lease i L r (jobs s) → spares i L (c_deadline r) c = true →
  holds_lease i L r (jobs (run_call c s)).
Proof.
  intros Hok Hh Hs. pose proof (sweep_spares c s i L r Hok Hh Hs) as Hsweep.
  destruct Hh as (Hi & Hr & HL). split; [|done].
  destruct c; try exact Hsweep; clear Hsweep; cbn [run_call spares] in *; reflect_bools.
  - unfold enqueue. destruct (jobs s !! id job) eqn:E; [done|]. simpl.
    rewrite lookup_insert_ne; [done|congruence].
  - apply lease_first_spares; [done|]. unfold dequeueable.
    by rewrite (running_not_status _ _ Hr).
  - unfold dequeue_by_kind. case_match; [done|]. apply lease_first_spares; [done|].
    unfold dequeueable. by rewrite (running_not_status _ _ Hr).
  - by apply complete_spares.
  - unfold complete_message_delivery. open_row s i0. simpl. spare_running.
  - unfold fail. open_row s i0. spare_addressed.
  - unfold cancel. open_row s i0. spare_addressed.
  - unfold fail_dlq. open_row s i0. spare_addressed.
  - unfold mark_conflict. open_row s i0. spare_addressed.
  - apply set_pending_spares; [done|]. by rewrite Hr.
  - unfold schedule_retry. spare_addressed.
  - unfold idempotency_insert. by case_match.
  - done.
Qed.

Lemma run_calls_spares cs s i L r :
  forallb well_formed_call cs = true → table_ok (jobs s) → holds_lease i L r (jobs s) →
  forallb (spares i L (c_deadline r)) cs = true → holds_lease i L r (jobs (run_calls cs s)).
Proof.
  revert s. induction cs as [|c cs IH]; intros s Hwf Hok Hh Hs; simpl in *; [done|].
  reflect_bools. apply IH; [done|by apply run_call_ok|by apply run_call_spares|done].
Qed.
End runs.

(** ** Concrete jobs and stores *)

Definition empty_store : store := mkStore ∅ ∅ None [].

Definition sample_job (i : Ulid) (st : JobStatus) (k : Job) (p : JobPriority)
    (at' : DateTime) (deps : list Ulid) : JobRecord :=
  mkJobRecord i
    (mkJobSpec k System Batch (ScopeVault "main") p)
    (mkJobScheduling Demand at' ((λ d, mkJobTrigger d OnDone) <$> deps) None None)
    (mkJobLifecycle st at' None None None None)
    JobRetry_default
    (mkJobLineage None None None None [] None).

Definition sample_curate (tenant : string) : Job :=
  Curate (mkCurateSpec 7%N tenant (Some "title") (Some "body") None [] None None None).

Definition sample_embed (tenant : string) : Job := Embed (mkEmbedSpec 7%N tenant false).

Definition sample_result : JobResult := mkJobResult true 12 None None None.

(** The queue holding the rows of the given jobs. *)
Definition store_of (l : list JobRecord) : store :=
  mkStore (list_to_map ((λ j, (id j, row_of_record j)) <$> l)) ∅ None [].

(** [chrono::Duration::from_std] on durations it can represent, and a JSON reader
    that accepts nothing. *)
Definition sample_from_std (d : Duration) : option Duration :=
  if decide (0 ≤ d ≤ 2 ^ 63 - 1) then Some d else None.
Definition sample_json (_ : string) : option JsonValue := None.

Definition one_second : Duration := 1000000000.
