(* ===== verification/QueueProps.v ===== *)
(** * QueueProps: what the queue promises

    The properties of the operations of [QueueStore], proved from the row
    specification of [QueueLaws] and the runs of [QueueRuns]. *)

From S2P Require Import Prelude Job QueueStore QueueLaws QueuePurge QueueRuns.

#[local] Open Scope Z_scope.

Lemma empty_store_ok : table_ok (jobs empty_store).
Proof. apply map_Forall_empty. Qed.

(** ** What a dequeue hands out *)

Lemma lease_first_result eligible now now' s x :
  (lease_first eligible now now' s).1 = Ok (Some x) →
  ∃ i r record, pick_best dequeue_before (select_where (λ _, eligible) (jobs s)) = Some (i, r)
    ∧ jobs s !! i = Some r ∧ eligible r = true ∧ c_payload r = Json record
    ∧ x = set_status Running record.
Proof.
  unfold lease_first. destruct (pick_best _ _) as [[i r]|] eqn:E; [|done].
  destruct (deserialize_record _) as [record|] eqn:Ed; simpl; [|done]. intros [= <-].
  apply deserialize_Ok in Ed.
  pose proof (pick_best_elem _ _ _ E) as [Hi Hr]%elem_of_select_where. eauto 10.
Qed.

(** The job handed out is the one whose row was leased, and that row was eligible. *)
Lemma lease_first_id eligible now now' s x :
  table_ok (jobs s) → (lease_first eligible now now' s).1 = Ok (Some x) →
  ∃ r, jobs s !! id x = Some r ∧ eligible r = true
       ∧ ∃ record, c_payload r = Json record ∧ x = set_status Running record.
Proof.
  intros Hok (i & r & record & _ & Hi & He & Hp & ->)%lease_first_result.
  assert (id record = i) as <- by apply (ok_payload _ _ (Hok _ _ Hi) _ Hp). simpl. eauto 10.
Qed.

(** ** What [complete] answers *)

Lemma complete_ok i res now now' s r record :
  jobs s !! i = Some r → c_status r = "Running" → leased now r = true →
  c_payload r = Json record → status (lifecycle record) ≠ Conflict →
  (complete i res now now' s).1 = Ok ().
Proof.
  intros Hi Hr Hl Hp Hc. unfold complete, mbind, op_bind, complete_tx.
  rewrite Hi. unfold status_is. rewrite Hr, Hp. simpl.
  rewrite bool_decide_eq_false_2 by done. by rewrite Hl.
Qed.

(** ** Runs *)

Section runs.
Context (json_from_str : string → option JsonValue) (from_std : Duration → option Duration).

#[local] Abbreviation run := (run_calls json_from_str from_std).

(** C1: the queue implements the job state machine.  After any sequence of
    operations on an empty queue, whatever the identifiers, tenants, payloads and
    clock readings (producers do not enqueue jobs already [Running]), the table
    satisfies its invariant: every status column is a known status, every running
    row has a lease, every payload agrees with the denormalised columns of its row.
    And the next operation, whichever it is, changes the row of each identifier only
    along the guarded transitions of [row_step], by the insertion of an enqueued job
    or by the deletion of a dead letter. *)
Theorem queue_refines_lifecycle (cs : list call) (c : call) (i : Ulid) :
  forallb well_formed_call cs = true →
  let s := run cs empty_store in
  table_ok (jobs s)
  ∧ slot_step c i (jobs s !! i) (jobs (run_call json_from_str from_std c s) !! i).
Proof.
  intros Hwf s. assert (table_ok (jobs s)) by (apply run_calls_ok, empty_store_ok; done).
  split; [done|by apply run_call_slot].
Qed.


(** C2: a lease is exclusive.  While a job is [Running] under a lease until [L], any
    sequence of operations that does not end its run (none is addressed to the job, no
    recovery reaches a lease as recent as [L], its deadline does not expire) leaves
    its row untouched; in the state reached, neither [dequeue] nor [dequeue_by_kind]
    hands the job to anyone, and its holder, before [L], can still complete it. *)
Theorem lease_is_exclusive (cs cs' : list call) (i : Ulid) (L : DateTime) (r : row)
    (record : JobRecord) :
  forallb well_formed_call (cs ++ cs') = true →
  holds_lease i L r (jobs (run cs empty_store)) → c_payload r = Json record →
  forallb (spares from_std i L (c_deadline r)) cs' = true →
  let s := run (cs ++ cs') empty_store in
  jobs s !! i = Some r
  ∧ (∀ tenant now now' x, (dequeue tenant now now' s).1 = Ok (Some x) → id x ≠ i)
  ∧ (∀ k tenant now now' x, (dequeue_by_kind k tenant now now' s).1 = Ok (Some x) → id x ≠ i)
  ∧ (∀ res now now', now < L → (complete i res now now' s).1 = Ok ()).
Proof.
  intros Hwf Hh Hp Hs. rewrite forallb_app in Hwf. reflect_bools. intros s.
  assert (table_ok (jobs (run cs empty_store))) as Hok0
    by (apply run_calls_ok, empty_store_ok; done).
  assert (s = run cs' (run cs empty_store)) as Hrun by apply run_calls_app.
  assert (table_ok (jobs s)) as Hok by (rewrite Hrun; by apply run_calls_ok).
  assert (holds_lease i L r (jobs s)) as (Hi & Hr & HL)
    by (rewrite Hrun; by apply run_calls_spares).
  assert (∀ now tenant, dequeueable now tenant r = false) as Hnot.
  { intros. unfold dequeueable. by rewrite (running_not_status _ _ Hr). }
  split_and!; [done| | |].
  - intros tenant now now' x (r' & Hr' & He & _)%lease_first_id <-; [|done].
    simplify_eq. by rewrite Hnot in He.
  - intros k tenant now now' x. unfold dequeue_by_kind. case_match; [done|].
    intros (r' & Hr' & He & _)%lease_first_id <-; [|done].
    simplify_eq. by rewrite Hnot in He.
  - intros res now now' Hlt. eapply complete_ok; try done.
    + unfold leased. rewrite HL. simpl. by apply bool_decide_eq_true_2.
    + destruct (ok_payload _ _ (Hok _ _ Hi) _ Hp) as (_ & _ & _ & Hc).
      intros ?%Hc. by rewrite (running_not_terminal _ Hr) in *.
Qed.
End runs.

(** A queue of one [Curate] job, leased at instant 100 s. *)
Definition sample_run : list call :=
  [CEnqueue (sample_job 1%N Pending (sample_curate "main") Normal 0 []);
   CDequeueByKind "Curate" None (100 * one_second) (100 * one_second)].

Definition sample_leased_row : row :=
  assign_all [SetStatus "Running"; SetLeaseUntil (Some (100 * one_second + nanoseconds 300));
              SetStartedAt (Some (100 * one_second)); IncrAttemptCount]
    (row_of_record (sample_job 1%N Pending (sample_curate "main") Normal 0 [])).

Lemma queue_refines_lifecycle_witness :
  table_ok (jobs (run_calls sample_json sample_from_std sample_run empty_store))
  ∧ slot_step (CComplete 1%N sample_result (200 * one_second) (200 * one_second)) 1%N
      (jobs (run_calls sample_json sample_from_std sample_run empty_store) !! 1%N)
      (jobs (run_calls sample_json sample_from_std
         (sample_run ++ [CComplete 1%N sample_result (200 * one_second) (200 * one_second)])
         empty_store) !! 1%N).
Proof.
  exact (queue_refines_lifecycle sample_json sample_from_std sample_run
    (CComplete 1%N sample_result (200 * one_second) (200 * one_second)) 1%N eq_refl).
Defined.

Definition sample_cancelled_row : row :=
  let job := sample_job 1%N Pending (sample_curate "main") Normal 0 [] in
  assign_all [SetStatus "Cancelled"; SetCompletedAt (Some 5); SetLeaseUntil None;
              SetPayload (Json (set_completed_at (Some 5) (set_status Cancelled job)))]
    (row_of_record job).

(** Two jobs that have used up their attempts and wait for a retry; the selection holds both,
    and the first is cancelled before the decisions. *)
Definition exhausted_job (i : Ulid) : JobRecord :=
  set_retry (λ _, mkJobRetry 0 0 (Fixed 1) None []) (sample_job i Pending (sample_curate "main") Normal 0 []).
Definition failed_twice : list step :=
  Op <$> [CEnqueue (exhausted_job 1%N); CEnqueue (exhausted_job 2%N);
          CDequeue None 1 1; CScheduleRetry 1%N 2; CDequeue None 1 1; CScheduleRetry 2%N 2].
Definition retry_selection : list (Ulid * payload * Z) :=
  promote_retries_select 3 (jobs (run_steps sample_json sample_from_std failed_twice empty_store)).
Definition retry_decisions : list step := RetryDecision (λ _, (4, 4)) 3 <$> retry_selection.
Definition cancelled_meanwhile : list step := failed_twice ++ [Op (CCancel 1%N None 3)].
Definition cancelled_row : row :=
  default sample_cancelled_row (jobs (run_steps sample_json sample_from_std cancelled_meanwhile empty_store) !! 1%N).


(** The decision about the first does: the cancelled job ends as a dead letter. *)
Example cancellation_lost_to_a_retry :
  c_status <$> jobs (run_steps sample_json sample_from_std (cancelled_meanwhile ++ retry_decisions) empty_store) !! 1%N = Some "DLQ".
Proof. vm_compute. reflexivity. Qed.

Lemma lease_is_exclusive_witness :
  let s := run_calls sample_json sample_from_std
             (sample_run ++ [CRecover (60 * one_second) (300 * one_second) (300 * one_second);
                             CCancel 2%N None 0; CPurge None]) empty_store in
  jobs s !! 1%N = Some sample_leased_row
  ∧ (∀ tenant now now' x, (dequeue tenant now now' s).1 = Ok (Some x) → id x ≠ 1%N)
  ∧ (∀ k tenant now now' x, (dequeue_by_kind k tenant now now' s).1 = Ok (Some x) → id x ≠ 1%N)
  ∧ (∀ res now now', now < 400 * one_second → (complete 1%N res now now' s).1 = Ok ()).
Proof.
  apply (lease_is_exclusive sample_json sample_from_std sample_run
    [CRecover (60 * one_second) (300 * one_second) (300 * one_second);
     CCancel 2%N None 0; CPurge None] 1%N (400 * one_second) sample_leased_row
    (sample_job 1%N Pending (sample_curate "main") Normal 0 []));
    [vm_compute; reflexivity|split_and!; vm_compute; reflexivity|reflexivity|vm_compute; reflexivity].
Defined.

(** ** Leases that expire *)

(** No job stays [Running] for ever.  In every state the queue can reach, a
    running job has a lease with an expiry [L]; a recovery whose threshold has passed
    [L] returns the job, puts it back to [Pending], and any worker may take it from
    that moment on; a recovery whose threshold has not passed [L] leaves the job to its
    holder. *)
Theorem stale_lease_is_recovered (json_from_str : string → option JsonValue)
    (from_std : Duration → option Duration) (cs : list call) (i : Ulid) (r : row) :
  forallb well_formed_call cs = true →
  jobs (run_calls json_from_str from_std cs empty_store) !! i = Some r →
  c_status r = "Running" →
  let s := run_calls json_from_str from_std cs empty_store in
  ∃ L, c_lease_until r = Some L
  ∧ ∀ ttl d now now', from_std ttl = Some d →
      ∃ ids s', recover_stale_leases from_std ttl now now' s = (Ok ids, s')
      ∧ (i ∈ ids ↔ L < now - d)
      ∧ (L < now - d → ∃ r', jobs s' !! i = Some r' ∧ c_lease_until r' = None
                       ∧ ∀ t, now' ≤ t → dequeueable t None r' = true)
      ∧ (now - d ≤ L → jobs s' !! i = Some r).
Proof.
  intros Hwf Hi Hr s.
  assert (table_ok (jobs s)) as Hok by (apply run_calls_ok, empty_store_ok; done).
  destruct (ok_lease _ _ (Hok _ _ Hi) Hr) as [L HL]. exists L. split; [done|].
  intros ttl d now now' Hd. unfold recover_stale_leases. rewrite Hd. do 2 eexists.
  split; [done|]. cbn [jobs set_jobs].
  assert (status_is "Running" r && null_lt (c_lease_until r) (now - d)
          = bool_decide (L < now - d)) as Hstale.
  { rewrite (proj2 (status_is_true _ _) Hr), HL. done. }
  split_and!.
  - rewrite select_where_fst. split.
    + intros (r' & Hr' & Hst). fold s in Hi. simplify_eq. rewrite Hstale in Hst.
      by apply bool_decide_eq_true in Hst.
    + intros Hlt. exists r. split; [done|]. rewrite Hstale. by apply bool_decide_eq_true_2.
  - intros Hlt. eexists. rewrite lookup_update_where. fold s in Hi. rewrite Hi. simpl.
    rewrite Hstale, bool_decide_eq_true_2 by done. split_and!; [done|by destruct r|].
    intros t Ht. unfold dequeueable, status_is. destruct r. simpl.
    by rewrite bool_decide_eq_true_2.
  - intros Hge. apply update_where_spares; [done|]. rewrite Hstale.
    apply bool_decide_eq_false_2. lia.
Qed.

Lemma stale_lease_witness :
  let s := run_calls sample_json sample_from_std sample_run empty_store in
  ∃ L, c_lease_until sample_leased_row = Some L
  ∧ ∀ ttl d now now', sample_from_std ttl = Some d →
      ∃ ids s', recover_stale_leases sample_from_std ttl now now' s = (Ok ids, s')
      ∧ (1%N ∈ ids ↔ L < now - d)
      ∧ (L < now - d → ∃ r', jobs s' !! 1%N = Some r' ∧ c_lease_until r' = None
                       ∧ ∀ t, now' ≤ t → dequeueable t None r' = true)
      ∧ (now - d ≤ L → jobs s' !! 1%N = Some sample_leased_row).
Proof.
  apply (stale_lease_is_recovered sample_json sample_from_std sample_run 1%N sample_leased_row);
    vm_compute; reflexivity.
Defined.

(** ** Dequeue *)

Lemma dequeue_before_strict :
  (∀ a b c, dequeue_before a b = false → dequeue_before b c = false → dequeue_before a c = false)
  ∧ (∀ a b, dequeue_before a b = true → dequeue_before b a = false)
  ∧ (∀ a, dequeue_before a a = false).
Proof.
  unfold dequeue_before. split_and!; intros;
    repeat match goal with
    | H : _ || _ = true |- _ => apply orb_true_iff in H
    | H : _ || _ = false |- _ => apply orb_false_iff in H
    | H : _ && _ = true |- _ => apply andb_true_iff in H
    | H : _ && _ = false |- _ => apply andb_false_iff in H
    | |- _ || _ = false => apply orb_false_iff
    end; rewrite ?andb_false_iff, ?andb_true_iff, ?bool_decide_eq_true, ?bool_decide_eq_false in *; lia.
Qed.

(** The row [i] leased by a dequeue at instants [now], [now']. *)
Definition leased_row (now now' : DateTime) (r : row) : row :=
  assign_all [SetStatus "Running"; SetLeaseUntil (Some (now' + nanoseconds 300));
              SetStartedAt (Some now); IncrAttemptCount] r.

(** What a dequeue hands out.  [dequeue] answers [None] exactly when no row is
    eligible (pending, due, of the requested tenant), and then changes nothing.
    Otherwise it leases one eligible row, for 300 s, that no eligible row precedes in
    the order priority first, then schedule; it counts the attempt, leaves every other
    row alone, and hands out the record of that row as [Running] or, when the payload
    does not decode, the decoder's error. *)
Theorem dequeue_hands_out_best (tenant : option string) (now now' : DateTime) (s : store) :
  let '(answer, s') := dequeue tenant now now' s in
  (answer = Ok None ↔ ∀ i r, jobs s !! i = Some r → dequeueable now tenant r = false)
  ∧ (answer = Ok None → s' = s)
  ∧ (answer ≠ Ok None → ∃ i r,
       jobs s !! i = Some r ∧ dequeueable now tenant r = true
       ∧ (∀ j r', jobs s !! j = Some r' → dequeueable now tenant r' = true →
                  dequeue_before (j, r') (i, r) = false)
       ∧ s' = set_jobs (<[i := leased_row now now' r]> (jobs s)) s
       ∧ answer = match c_payload r with
                  | Json record => Ok (Some (set_status Running record))
                  | Corrupt msg => Err (Serialization msg)
                  end).
Proof.
  unfold dequeue, lease_first.
  destruct (pick_best _ _) as [[i r]|] eqn:E.
  - pose proof (pick_best_elem _ _ _ E) as [Hi Hr]%elem_of_select_where.
    destruct dequeue_before_strict as (Htr & Has & Hirr).
    assert (update_where (has_id i) [SetStatus "Running";
      SetLeaseUntil (Some (now' + nanoseconds 300)); SetStartedAt (Some now);
      IncrAttemptCount] (jobs s) = <[i := leased_row now now' r]> (jobs s)) as ->.
    { apply update_where_insert; [done|apply has_id_self|]. intros. by apply has_id_other. }
    assert (∀ j r', jobs s !! j = Some r' → dequeueable now tenant r' = true →
      dequeue_before (j, r') (i, r) = false) as Hbest.
    { intros j r' Hj Hr'. apply (pick_best_maximal _ _ _ Htr Has Hirr E).
      by apply elem_of_select_where. }
    assert (¬ ∀ i r, jobs s !! i = Some r → dequeueable now tenant r = false) as Hsome.
    { intros Hall. specialize (Hall _ _ Hi). congruence. }
    destruct (c_payload r) as [record|msg] eqn:Hp; simpl; (split_and!; [done|done|]); intros _;
      exists i, r; rewrite Hp; done.
  - apply pick_best_None in E. split_and!; [|done|done]. split; [|done]. intros _ i r Hi.
    exact (proj1 (select_where_nil _ _) E i r Hi).
Qed.

(** Each worker gets its own kind of job.  In every state the queue can reach, a
    record handed out by [dequeue_by_kind] for a kind is a job of that kind, never a
    message delivery and never a purged payload, and serves the requested tenant; asked
    for messages, [dequeue_by_kind] hands out nothing and changes nothing. *)
Theorem dequeue_by_kind_routes (json_from_str : string → option JsonValue)
    (from_std : Duration → option Duration) (cs : list call) (k : string)
    (tenant : option string) (now now' : DateTime) (x : JobRecord) :
  forallb well_formed_call cs = true →
  let s := run_calls json_from_str from_std cs empty_store in
  ((dequeue_by_kind k tenant now now' s).1 = Ok (Some x) →
     job_kind_str (kind (spec x)) = k ∧ is_message (kind (spec x)) = false
     ∧ status (lifecycle x) = Running
     ∧ (∀ t, tenant = Some t → spec_tenant (spec x) = t))
  ∧ dequeue_by_kind JOB_KIND_MESSAGE tenant now now' s = (Ok None, s).
Proof.
  intros Hwf s. assert (table_ok (jobs s)) as Hok by (apply run_calls_ok, empty_store_ok; done).
  split; [|done]. unfold dequeue_by_kind. destruct (String.eqb k JOB_KIND_MESSAGE) eqn:Hk; [done|].
  intros (r & Hr & He & record & Hp & ->)%lease_first_id; [|done].
  apply andb_true_iff in He as [Hd Hkind]. apply String.eqb_eq in Hkind as Hkk.
  assert (status_terminal r = false) as Hterm.
  { unfold status_terminal. by rewrite (dequeueable_pending _ _ _ Hd). }
  destruct (ok_payload _ _ (Hok _ _ Hr) _ Hp) as (_ & _ & [[_ ?]|[Hc Ht]] & _); [congruence|].
  cbn [kind spec set_status set_lifecycle lifecycle status]. split_and!.
  - congruence.
  - apply String.eqb_neq in Hk. destruct (kind (spec record)) eqn:E; try done.
    exfalso. apply Hk. rewrite <- Hkk, Hc. done.
  - done.
  - intros t ->. unfold dequeueable in Hd. reflect_bools.
    match goal with H : tenant_matches _ _ = true |- _ => apply String.eqb_eq in H end. congruence.
Qed.

Lemma dequeue_by_kind_witness :
  (dequeue_by_kind "Curate" (Some "main") 50 51
     (run_calls sample_json sample_from_std (take 1 sample_run) empty_store)).1
  = Ok (Some (set_status Running (sample_job 1%N Pending (sample_curate "main") Normal 0 [])))
  ∧ job_kind_str (kind (spec (sample_job 1%N Pending (sample_curate "main") Normal 0 []))) = "Curate".
Proof.
  split; [vm_compute; reflexivity|].
  apply (proj1 (dequeue_by_kind_routes sample_json sample_from_std (take 1 sample_run) "Curate"
    (Some "main") 50 51
    (set_status Running (sample_job 1%N Pending (sample_curate "main") Normal 0 [])) eq_refl)).
  vm_compute. reflexivity.
Defined.
