(* ===== verification/QueueDeps.v ===== *)
(** * QueueDeps: dependencies between jobs

    What [all_jobs_done] really tests, and the exact effect of the cascade that
    follows a completion and of the catch-up sweep over stranded [Waiting] jobs.
    The last part is about retries: the backoff [duration_for] on machine
    integers, and the exact effect of [promote_retries]. *)

From S2P Require Import Prelude Job QueueStore QueueLaws QueuePurge QueueRuns.

#[local] Open Scope Z_scope.

(** The job [i] is [Done] in the table. *)
Definition is_done (m : table) (i : Ulid) : bool :=
  match m !! i with Some r => status_is "Done" r | None => false end.

(** The test of [all_jobs_done], as a specification. *)
Definition deps_done (m : table) (ids : list Ulid) : bool :=
  bool_decide (NoDup ids) && forallb (is_done m) ids.

Lemma all_jobs_done_spec ids s : all_jobs_done ids s = (Ok (deps_done (jobs s) ids), s).
Proof.
  destruct ids as [|i0 ids0] eqn:Eids; [done|]. rewrite <- Eids. unfold all_jobs_done.
  replace (match ids with [] => _ | _ :: _ => _ end) with (Ok (E := QueueError) (bool_decide
      (length (select_where (λ i r, bool_decide (i ∈ ids) && status_is "Done" r) (jobs s))
       = length ids)), s) by by rewrite Eids.
  clear Eids i0 ids0. f_equal. f_equal.
  rewrite <- (length_fmap fst).
  pose proof (select_where_NoDup (λ i r, bool_decide (i ∈ ids) && status_is "Done" r) (jobs s)) as Hnd.
  assert (∀ i, i ∈ (select_where (λ i r, bool_decide (i ∈ ids) && status_is "Done" r) (jobs s)).*1
            ↔ i ∈ ids ∧ is_done (jobs s) i = true) as Hel.
  { intros i. rewrite select_where_fst. unfold is_done. split.
    - intros (r & -> & Hp). by reflect_bools.
    - intros [Hi Hd]. destruct (jobs s !! i) as [r|]; [|done]. exists r. split; [done|].
      by rewrite bool_decide_eq_true_2. }
  revert Hnd Hel. generalize (select_where (λ i r, bool_decide (i ∈ ids) && status_is "Done" r)
    (jobs s)).*1. intros l Hnd Hel. unfold deps_done.
  assert (l ⊆+ ids) as Hsub by (apply NoDup_submseteq; [done|intros i ?%Hel; tauto]).
  apply eq_bool_prop_intro. rewrite bool_decide_spec, andb_True, bool_decide_spec, forallb_True.
  split.
  - intros Hlen. assert (l ≡ₚ ids) as Hperm by (by apply submseteq_length_Permutation; [|lia]).
    rewrite <- Hperm at 1. split; [done|]. apply Forall_forall. intros i Hi.
    rewrite <- Hperm in Hi. apply Hel in Hi as [_ ->]. done.
  - intros [Hnd' Hall]. apply Permutation_length, NoDup_Permutation; [done|done|].
    intros i. rewrite Hel. split; [tauto|]. intros Hi. split; [done|].
    rewrite Forall_forall in Hall. specialize (Hall i Hi). by destruct (is_done _ _).
Qed.

(** ** Promotion of a set of waiting jobs *)

Definition promote_ids (ids : list Ulid) (m : table) : table :=
  update_where (λ j r, bool_decide (j ∈ ids) && status_is "Waiting" r) [SetStatus "Pending"] m.

Lemma status_is_promoted st r :
  st ≠ "Waiting" → st ≠ "Pending" → status_is "Waiting" r = true →
  status_is st (assign_all [SetStatus "Pending"] r) = status_is st r.
Proof.
  intros Hw Hp Hr. apply status_is_true in Hr. unfold status_is. rewrite Hr.
  assert (c_status (assign_all [SetStatus "Pending"] r) = "Pending") as -> by by destruct r.
  transitivity false; [|symmetry]; apply String.eqb_neq; congruence.
Qed.

Lemma is_done_promote ids m i : is_done (promote_ids ids m) i = is_done m i.
Proof.
  unfold is_done, promote_ids. rewrite lookup_update_where.
  destruct (m !! i) as [r|]; simpl; [|done].
  destruct (bool_decide (i ∈ ids) && status_is "Waiting" r) eqn:E; [|done].
  reflect_bools. by apply status_is_promoted.
Qed.

Lemma deps_done_ext m m' deps :
  (∀ i, is_done m i = is_done m' i) → deps_done m deps = deps_done m' deps.
Proof.
  intros Hd. unfold deps_done. f_equal.
  induction deps as [|i deps IH]; simpl; [done|]. by rewrite Hd, IH.
Qed.

Lemma deps_done_promote ids m deps : deps_done (promote_ids ids m) deps = deps_done m deps.
Proof. apply deps_done_ext, is_done_promote. Qed.

Lemma promote_ids_app l1 l2 m : promote_ids l2 (promote_ids l1 m) = promote_ids (l1 ++ l2) m.
Proof.
  apply map_eq. intros i. unfold promote_ids. rewrite !lookup_update_where.
  destruct (m !! i) as [r|]; [|done]. simpl. f_equal.
  destruct (status_is "Waiting" r) eqn:Hw; rewrite ?andb_false_r, ?andb_true_r; [|by rewrite Hw, andb_false_r].
  destruct (decide (i ∈ l1)), (decide (i ∈ l2));
    repeat first [rewrite (bool_decide_eq_true_2 (i ∈ _)) by set_solver
                 |rewrite (bool_decide_eq_false_2 (i ∈ _)) by set_solver];
    rewrite ?Hw; destruct r; done.
Qed.

Lemma promote_ids_nil m : promote_ids [] m = m.
Proof.
  apply map_eq. intros i. unfold promote_ids. rewrite lookup_update_where.
  by destruct (m !! i).
Qed.

Lemma set_pending_promote i s :
  set_pending i s = (Ok (), set_jobs (promote_ids [i] (jobs s)) s).
Proof.
  unfold set_pending, modify. do 2 f_equal. apply map_eq. intros j. unfold promote_ids.
  rewrite !lookup_update_where. destruct (jobs s !! j) as [r|]; [|done]. simpl. f_equal.
  unfold has_id. destruct (decide (j = i)) as [->|Hne].
  - by rewrite !bool_decide_eq_true_2 by set_solver.
  - rewrite !bool_decide_eq_false_2; [done|set_solver|done].
Qed.

Lemma set_jobs_twice m m' s : set_jobs m (set_jobs m' s) = set_jobs m s.
Proof. done. Qed.

Lemma set_jobs_id s : set_jobs (jobs s) s = s.
Proof. by destruct s. Qed.

(** ** The loops *)

(** The identifiers of the records of [l] whose dependencies are done. *)
Definition ready_ids (m : table) (l : list JobRecord) : list Ulid :=
  id <$> filter (λ dep, deps_done m (await_ids dep) = true) l.

Lemma ready_ids_promote ids m l : ready_ids (promote_ids ids m) l = ready_ids m l.
Proof.
  unfold ready_ids. f_equal. apply list_filter_iff. intros dep. by rewrite deps_done_promote.
Qed.

Lemma cascade_loop deps s :
  for_each cascade_one deps s
  = (Ok (), set_jobs (promote_ids (ready_ids (jobs s) deps) (jobs s)) s).
Proof.
  revert s. induction deps as [|dep deps IH]; intros s.
  { cbn. unfold ready_ids. simpl. by rewrite promote_ids_nil, set_jobs_id. }
  cbn [for_each]. unfold mbind, op_bind, cascade_one at 1, mbind, op_bind.
  rewrite all_jobs_done_spec. unfold ready_ids. rewrite filter_cons.
  destruct (deps_done (jobs s) (await_ids dep)) eqn:E.
  - rewrite set_pending_promote, IH, decide_True by done. f_equal.
    rewrite set_jobs_twice. f_equal. cbn [jobs set_jobs]. rewrite ready_ids_promote.
    apply promote_ids_app.
  - rewrite decide_False by done. apply IH.
Qed.

(** The records the sweep promotes, in the order of the selection. *)
Definition stranded_ready (m : table) (l : list JobRecord) : list JobRecord :=
  filter (λ dep, await_ids dep ≠ [] ∧ deps_done m (await_ids dep) = true) l.

Lemma stranded_ready_promote ids m l :
  stranded_ready (promote_ids ids m) l = stranded_ready m l.
Proof. apply list_filter_iff. intros dep. by rewrite deps_done_promote. Qed.

Lemma stranded_loop records n s :
  promote_stranded_loop (serialize_record <$> records) n s
  = (Ok (n + Z.of_nat (length (stranded_ready (jobs s) records))),
     set_jobs (promote_ids (id <$> stranded_ready (jobs s) records) (jobs s)) s).
Proof.
  revert n s. induction records as [|dep records IH]; intros n s.
  { cbn. by rewrite promote_ids_nil, set_jobs_id, Z.add_0_r. }
  cbn [promote_stranded_loop fmap list_fmap]. unfold mbind, op_bind, lift. cbn [deserialize_record serialize_record].
  unfold stranded_ready. rewrite filter_cons. case_decide as Ha.
  { rewrite decide_False by naive_solver. apply IH. }
  rewrite all_jobs_done_spec. destruct (deps_done (jobs s) (await_ids dep)) eqn:E.
  - rewrite set_pending_promote, IH, decide_True by done. cbn [jobs set_jobs length fmap list_fmap].
    rewrite stranded_ready_promote, set_jobs_twice, promote_ids_app. f_equal. f_equal.
    fold (stranded_ready (jobs s) records). lia.
  - rewrite decide_False by naive_solver. apply IH.
Qed.

(** ** Exact effects *)

Definition waiting_decodable (m : table) : Prop :=
  ∀ j r, m !! j = Some r → c_status r = "Waiting" → ∃ record, c_payload r = Json record.

(** The dependencies a row carries in its [await_jobs] column are listed once each, and all of
    them are done.  A row that lists a done job twice is not ready: the code compares the number
    of done jobs it finds with the number of identifiers. *)
Definition column_ready (m : table) (r : row) : bool :=
  deps_done m (default [] (c_await_jobs r)).

(** The record in a row, when there is one. *)
Definition record_in (r : row) : option JobRecord :=
  match c_payload r with Json record => Some record | Corrupt _ => None end.

Lemma await_column_ids record : default [] (await_column record) = await_ids record.
Proof.
  unfold await_column, await_ids. case_decide as E; [|done]. by rewrite E.
Qed.

(** The selected waiting rows as records: they decode, and each record carries the
    identifier and the dependencies of its row. *)
Lemma selected_records p m :
  table_ok m → waiting_decodable m →
  (∀ j r, p j r = true → c_status r = "Waiting") →
  ∃ records, (λ x, c_payload x.2) <$> select_where p m = serialize_record <$> records
    ∧ collect_results (λ x, deserialize_record (c_payload x.2)) (select_where p m) = Ok records
    ∧ ∀ j, ∀ P : list Ulid → Prop,
        (∃ record, record ∈ records ∧ id record = j ∧ P (await_ids record))
        ↔ (∃ r, m !! j = Some r ∧ p j r = true ∧ P (default [] (c_await_jobs r))).
Proof.
  intros Hok Hdec Hp.
  assert (∀ x, x ∈ select_where p m →
    ∃ record, c_payload x.2 = Json record ∧ m !! x.1 = Some x.2 ∧ p x.1 x.2 = true
      ∧ id record = x.1 ∧ c_await_jobs x.2 = await_column record) as Hx.
  { intros [j r] [Hj Hr]%elem_of_select_where. destruct (Hdec j r Hj (Hp _ _ Hr)) as [record Hrec].
    destruct (ok_payload _ _ (Hok _ _ Hj) _ Hrec) as (? & ? & _). eauto 10. }
  exists (omap (λ x, record_in x.2) (select_where p m)).
  assert (∀ x, x ∈ select_where p m → p x.1 x.2 = true ∧ m !! x.1 = Some x.2) as Hsel.
  { by intros [j r] [? ?]%elem_of_select_where. }
  split_and!.
  - clear Hsel. induction (select_where p m) as [|x l IH]; [done|].
    destruct (Hx x ltac:(by left)) as (record & Hrec & _). cbn.
    unfold record_in at 1. rewrite Hrec. simpl. f_equal. apply IH. intros y Hy. apply Hx. by right.
  - clear Hsel. induction (select_where p m) as [|x l IH]; [done|].
    destruct (Hx x ltac:(by left)) as (record & Hrec & _). cbn.
    unfold record_in at 1. rewrite Hrec. simpl. rewrite IH; [done|]. intros y Hy. apply Hx. by right.
  - intros j P. split.
    + intros (record & Hin & <- & HP). apply list_elem_of_omap in Hin as (x & Hin & Hrec).
      destruct (Hx x Hin) as (record' & Hrec' & Hm & Hpx & Hid & Haw). unfold record_in in Hrec.
      rewrite Hrec' in Hrec. simplify_eq. exists x.2. rewrite Hid. split_and!; [done..|].
      by rewrite Haw, await_column_ids.
    + intros (r & Hj & Hr & HP). assert ((j, r) ∈ select_where p m) as Hin
        by by apply elem_of_select_where.
      destruct (Hx _ Hin) as (record & Hrec & _ & _ & Hid & Haw). exists record. simpl in *.
      split_and!; [|done|by rewrite Haw, await_column_ids in HP].
      apply list_elem_of_omap. exists (j, r). split; [done|]. unfold record_in. simpl. by rewrite Hrec.
Qed.

(** Promoting the listed identifiers is an UPDATE with a WHERE clause. *)
Lemma promote_ids_where ids p m :
  (∀ j r, m !! j = Some r → c_status r = "Waiting" → (j ∈ ids ↔ p j r = true)) →
  promote_ids ids m
  = update_where (λ j r, status_is "Waiting" r && p j r) [SetStatus "Pending"] m.
Proof.
  intros Hp. apply map_eq. intros j. unfold promote_ids. rewrite !lookup_update_where.
  destruct (m !! j) as [r|] eqn:Hj; [|done]. simpl. f_equal.
  destruct (status_is "Waiting" r) eqn:Hw; [|by rewrite andb_false_r].
  apply status_is_true in Hw. specialize (Hp j r Hj Hw). rewrite andb_true_r, andb_true_l.
  destruct (p j r); [rewrite bool_decide_eq_true_2|rewrite bool_decide_eq_false_2]; naive_solver.
Qed.

Lemma cascade_exact i s :
  table_ok (jobs s) → waiting_decodable (jobs s) →
  cascade_check_and_promote i s
  = (Ok (), set_jobs (update_where
       (λ _ r, status_is "Waiting" r && (awaits_column i r && column_ready (jobs s) r))
       [SetStatus "Pending"] (jobs s)) s).
Proof.
  intros Hok Hdec. unfold cascade_check_and_promote, mbind, op_bind, find_awaiting.
  destruct (selected_records (λ _ r, status_is "Waiting" r && awaits_column i r) (jobs s) Hok Hdec)
    as (records & _ & -> & Hrec).
  { intros. by open_guard. }
  rewrite cascade_loop. do 2 f_equal.
  apply (promote_ids_where _ (λ _ r, awaits_column i r && column_ready (jobs s) r)).
  intros j r Hj Hw. specialize (Hrec j (λ ids, deps_done (jobs s) ids = true)).
  unfold ready_ids. rewrite list_elem_of_fmap. setoid_rewrite list_elem_of_filter.
  unfold column_ready. rewrite andb_true_iff. apply status_is_true in Hw.
  rewrite Hj in Hrec.
  etrans; [|etrans; [apply Hrec|]].
  - split; [intros (y & -> & ? & ?)|intros (y & ? & <- & ?)]; exists y; split_and!; done.
  - split; [intros (r0 & [= <-] & [? ?]%andb_true_iff & ?); done|].
    intros [? ?]. exists r. by rewrite andb_true_iff.
Qed.

Lemma stranded_exact s :
  table_ok (jobs s) → waiting_decodable (jobs s) →
  ∃ n, promote_stranded_waiting_jobs s
  = (Ok n, set_jobs (update_where
       (λ j r, status_is "Waiting" r && (stranded_candidate j r && column_ready (jobs s) r))
       [SetStatus "Pending"] (jobs s)) s).
Proof.
  intros Hok Hdec. unfold promote_stranded_waiting_jobs.
  destruct (selected_records stranded_candidate (jobs s) Hok Hdec) as (records & -> & _ & Hrec).
  { intros j r. unfold stranded_candidate. intros. by open_guard. }
  rewrite stranded_loop. eexists. do 2 f_equal.
  apply (promote_ids_where _ (λ j r, stranded_candidate j r && column_ready (jobs s) r)).
  intros j r Hj Hw. specialize (Hrec j (λ ids, ids ≠ [] ∧ deps_done (jobs s) ids = true)).
  unfold stranded_ready. rewrite list_elem_of_fmap. setoid_rewrite list_elem_of_filter.
  unfold column_ready. rewrite andb_true_iff. rewrite Hj in Hrec.
  assert (stranded_candidate j r = true → default [] (c_await_jobs r) ≠ []) as Hne.
  { unfold stranded_candidate. destruct (c_await_jobs r) as [[|]|]; intros; reflect_bools; done. }
  etrans; [|etrans; [apply Hrec|]].
  - split; [intros (y & -> & [? ?] & ?)|intros (y & ? & <- & ? & ?)]; exists y; split_and!; done.
  - split; [intros (r0 & [= <-] & ? & ? & ?)|intros [? ?]]; eauto 10.
Qed.

(** ** The whole of [complete] *)

Definition done_row (res : JobResult) (now now' : DateTime) (record : JobRecord) (r : row) : row :=
  assign_all [SetStatus "Done"; SetCompletedAt (Some now); SetLeaseUntil None;
              SetPayload (Json (completed_record res now' record))] r.

Lemma complete_tx_updates i res now now' s r record :
  jobs s !! i = Some r → c_payload r = Json record → c_status r = "Running" →
  leased now r = true → status (lifecycle record) ≠ Conflict →
  complete_tx i res now now' s
  = (Ok OutcomeUpdated, set_jobs (<[i := done_row res now now' record r]> (jobs s)) s).
Proof.
  intros Hi Hp Hr Hl Hc. unfold complete_tx. rewrite Hi, Hp. unfold status_is at 1. rewrite Hr.
  simpl. rewrite bool_decide_eq_false_2 by done. rewrite Hl. do 2 f_equal.
  apply update_where_insert; [done| |].
  - rewrite has_id_self, Hl. unfold status_is. by rewrite Hr.
  - intros j r' Hj. by rewrite has_id_other.
Qed.

Lemma done_row_ok m i res now now' r record :
  table_ok m → waiting_decodable m → m !! i = Some r → c_payload r = Json record →
  c_status r = "Running" → leased now r = true →
  table_ok (<[i := done_row res now now' record r]> m)
  ∧ waiting_decodable (<[i := done_row res now now' record r]> m).
Proof.
  intros Hok Hdec Hi Hp Hr Hl. split.
  - apply map_Forall_insert_2; [|done]. eapply (row_step_ok true); [by apply Hok|].
    by apply RsComplete.
  - intros j r' Hj Hw. destruct (decide (j = i)) as [->|Hne].
    + rewrite lookup_insert_eq in Hj. simplify_eq. by destruct r.
    + rewrite lookup_insert_ne in Hj by done. eauto.
Qed.

(** C17: [complete] on every branch.  On a table that satisfies its invariant and whose
    waiting rows decode: a job that is not [Running] is [NotFound]; a running job whose
    payload does not decode is refused with the decoder's message; a running job whose
    lease has expired is [NotLeased]; in all three cases the store is unchanged.  A
    running job under a live lease becomes [Done] with the result in its payload, the
    completion is broadcast, and exactly the [Waiting] jobs that name it and that list each
    of their dependencies once, all of them now done, become [Pending]; every other row is
    unchanged, among them a job that waits for this one alone but lists it twice. *)
Theorem complete_decides (i : Ulid) (res : JobResult) (now now' : DateTime) (s : store) :
  table_ok (jobs s) → waiting_decodable (jobs s) →
  complete i res now now' s =
  match jobs s !! i with
  | None => (Err (NotFound i), s)
  | Some r =>
      if status_is "Running" r then
        match c_payload r with
        | Corrupt msg => (Err (Serialization msg), s)
        | Json record =>
            if leased now r then
              let m := <[i := done_row res now now' record r]> (jobs s) in
              (Ok (), mkStore
                 (update_where (λ _ r, status_is "Waiting" r
                                       && (awaits_column i r && column_ready m r))
                    [SetStatus "Pending"] m)
                 (idempotency s) (leadership s)
                 (published s ++ [JobCompleted i (if success res then Done else Failed) res]))
            else (Err (NotLeased i), s)
        end
      else (Err (NotFound i), s)
  end.
Proof.
  intros Hok Hdec. unfold complete, mbind, op_bind.
  destruct (jobs s !! i) as [r|] eqn:Hi; [|unfold complete_tx; by rewrite Hi].
  destruct (status_is "Running" r) eqn:Hr; [|unfold complete_tx; by rewrite Hi, Hr].
  destruct (c_payload r) as [record|msg] eqn:Hp; [|unfold complete_tx; by rewrite Hi, Hr, Hp].
  assert (c_status r = "Running") as Hrun by by apply status_is_true.
  assert (status (lifecycle record) ≠ Conflict) as Hc.
  { destruct (ok_payload _ _ (Hok _ _ Hi) _ Hp) as (_ & _ & _ & Hc).
    intros ?%Hc. by rewrite (running_not_terminal _ Hrun) in *. }
  destruct (leased now r) eqn:Hl.
  - rewrite (complete_tx_updates _ _ _ _ _ _ _ Hi Hp Hrun Hl Hc). unfold complete_announce.
    destruct (done_row_ok _ _ res now now' _ _ Hok Hdec Hi Hp Hrun Hl).
    by rewrite cascade_exact.
  - unfold complete_tx. rewrite Hi, Hr, Hp. simpl. by rewrite bool_decide_eq_false_2, Hl.
Qed.

(** Job 2 waits for job 1, which a worker holds. *)
Definition sample_dag : store :=
  run_calls sample_json sample_from_std
    [CEnqueue (sample_job 1%N Pending (sample_curate "main") Normal 0 []);
     CEnqueue (sample_job 2%N Waiting (sample_embed "main") Normal 0 [1%N]);
     CDequeueByKind "Curate" None 10 10] empty_store.

Lemma sample_dag_waiting : waiting_decodable (jobs sample_dag).
Proof.
  assert (map_Forall (λ _ r, is_Some (record_in r)) (jobs sample_dag)) as Hall
    by (apply (bool_decide_eq_true_1 _); vm_compute; reflexivity).
  intros j r Hj _. destruct (Hall j r Hj) as [record Hrec]. unfold record_in in Hrec.
  destruct (c_payload r); [eauto|done].
Qed.

Lemma sample_dag_ok : table_ok (jobs sample_dag).
Proof. apply run_calls_ok; [reflexivity|apply map_Forall_empty]. Qed.

Lemma complete_decides_witness :
  (complete 1%N sample_result 20 21 sample_dag).1 = Ok ()
  ∧ (c_status <$> jobs (complete 1%N sample_result 20 21 sample_dag).2 !! 2%N) = Some "Pending".
Proof.
  rewrite (complete_decides 1%N sample_result 20 21 sample_dag sample_dag_ok sample_dag_waiting).
  split; vm_compute; reflexivity.
Defined.

(** The sweep, row by row. *)
Lemma stranded_rows s :
  table_ok (jobs s) → waiting_decodable (jobs s) →
  ∃ n s', promote_stranded_waiting_jobs s = (Ok n, s')
  ∧ ∀ j, jobs s' !! j
      = (λ r, if stranded_candidate j r && column_ready (jobs s) r
              then assign r (SetStatus "Pending") else r) <$> jobs s !! j.
Proof.
  intros Hok Hdec. destruct (stranded_exact s Hok Hdec) as [n Hn]. do 2 eexists.
  split; [exact Hn|]. intros j. simpl. rewrite lookup_update_where.
  destruct (jobs s !! j) as [r|]; [|done]. simpl.
  assert (status_is "Waiting" r && (stranded_candidate j r && column_ready (jobs s) r)
    = stranded_candidate j r && column_ready (jobs s) r) as ->; [|done].
  unfold stranded_candidate. by destruct (status_is "Waiting" r).
Qed.

Lemma stranded_none_left s s' j r :
  (∀ j, jobs s' !! j
      = (λ r, if stranded_candidate j r && column_ready (jobs s) r
              then assign r (SetStatus "Pending") else r) <$> jobs s !! j) →
  jobs s' !! j = Some r → stranded_candidate j r && column_ready (jobs s') r = false.
Proof.
  intros Hs' Hj. assert (column_ready (jobs s') r = column_ready (jobs s) r) as ->.
  { apply deps_done_ext. intros k. unfold is_done.
    rewrite Hs'. destruct (jobs s !! k) as [rk|]; [|done]. simpl.
    destruct (stranded_candidate k rk && column_ready (jobs s) rk) eqn:E; [|done].
    apply (status_is_promoted "Done" rk); [done|done|].
    unfold stranded_candidate in E. by reflect_bools. }
  rewrite Hs' in Hj. apply fmap_Some in Hj as (r0 & Hj & ->).
  destruct (stranded_candidate j r0 && column_ready (jobs s) r0) eqn:E; [|done].
  apply andb_false_iff. left. by destruct r0.
Qed.

(** Nothing stays stranded.  On a table that satisfies its invariant and whose
    waiting rows decode, one pass of the catch-up sweep moves to [Pending] exactly the
    [Waiting] jobs with dependencies, all of them done, and changes nothing else; after
    it no such job is left, so a cascade lost in a crash is made up for. *)
Theorem stranded_sweep_completes_cascade (s : store) :
  table_ok (jobs s) → waiting_decodable (jobs s) →
  let s' := (promote_stranded_waiting_jobs s).2 in
  is_ok (promote_stranded_waiting_jobs s).1 = true
  ∧ (∀ j, jobs s' !! j
      = (λ r, if stranded_candidate j r && column_ready (jobs s) r
              then assign r (SetStatus "Pending") else r) <$> jobs s !! j)
  ∧ ∀ j r, jobs s' !! j = Some r → stranded_candidate j r && column_ready (jobs s') r = false.
Proof.
  intros Hok Hdec. destruct (stranded_rows s Hok Hdec) as (n & s' & -> & Hs').
  split_and!; [done|exact Hs'|]. intros j r. by apply (stranded_none_left s).
Qed.

(** A completion whose cascade was lost: job 1 is [Done], job 2 still waits. *)
Definition sample_stranded : store :=
  run_calls sample_json sample_from_std
    [CEnqueue (sample_job 1%N Done (sample_curate "main") Normal 0 []);
     CEnqueue (sample_job 2%N Waiting (sample_embed "main") Normal 0 [1%N])] empty_store.

Lemma stranded_sweep_witness :
  (c_status <$> jobs (promote_stranded_waiting_jobs sample_stranded).2 !! 2%N) = Some "Pending".
Proof.
  assert (table_ok (jobs sample_stranded)) as Hok
    by (apply run_calls_ok; [reflexivity|apply map_Forall_empty]).
  assert (map_Forall (λ _ r, is_Some (record_in r)) (jobs sample_stranded)) as Hall
    by (apply (bool_decide_eq_true_1 _); vm_compute; reflexivity).
  destruct (stranded_sweep_completes_cascade sample_stranded Hok) as (_ & Hrows & _).
  { intros j r Hj _. destruct (Hall j r Hj) as [record Hrec]. unfold record_in in Hrec.
    destruct (c_payload r); [eauto|done]. }
  rewrite Hrows. vm_compute. reflexivity.
Defined.

(** The dependency test.  [all_jobs_done] answers [true] exactly when the
    identifiers are pairwise distinct and every one of them is a [Done] row of the
    table; it never fails and changes nothing.  A list that names a job twice is thus
    never satisfied, because the rows counted by the query are distinct while the
    length it is compared with is not. *)
Theorem all_jobs_done_exact (ids : list Ulid) (s : store) :
  ∃ b, all_jobs_done ids s = (Ok b, s)
  ∧ (b = true ↔ NoDup ids
       ∧ ∀ i, i ∈ ids → ∃ r, jobs s !! i = Some r ∧ c_status r = status_to_str Done).
Proof.
  exists (deps_done (jobs s) ids). split; [apply all_jobs_done_spec|].
  unfold deps_done. rewrite andb_true_iff, bool_decide_eq_true, forallb_forall.
  apply and_iff_compat_l. unfold is_done. split.
  - intros H i Hi. rewrite list_elem_of_In in Hi. specialize (H i Hi).
    destruct (jobs s !! i) as [r|]; [|done]. exists r. by apply status_is_true in H.
  - intros H i Hi. rewrite <- list_elem_of_In in Hi. destruct (H i Hi) as (r & -> & Hr).
    by apply status_is_true.
Qed.

(** * Retries *)

(** ** The decision for one row *)

Definition attempts (r : row) : Z := as_u32 (c_attempt_count r).

Definition exhausted (record : JobRecord) (r : row) : bool :=
  bool_decide (retry_max (retry record) ≤ attempts r).

Definition dlq_row (t : DateTime * DateTime) (record : JobRecord) (r : row) : row :=
  let err := truncate_chars 2048 (compose_dlq_error record
               (max_retries_message (attempts r) (retry_max (retry record)))) in
  assign_all [SetStatus "DLQ"; SetCompletedAt (Some t.1); SetLeaseUntil None;
              SetLastError (Some err);
              SetPayload (Json (set_last_error (Some err)
                (set_completed_at (Some t.2) (set_status DLQ record))))] r.

Definition retried_row (clock : Ulid → DateTime * DateTime) (now : DateTime) (i : Ulid)
    (r : row) : row :=
  match c_payload r with
  | Json record =>
      if exhausted record r then dlq_row (clock i) record r
      else assign_all [SetStatus "Pending"; SetScheduledAt now] r
  | Corrupt _ => r
  end.

(** The job goes back to the queue. *)
Definition retries_again (r : row) : bool :=
  match c_payload r with Json record => negb (exhausted record r) | Corrupt _ => false end.

Lemma promote_one_exact clock now i r record s :
  table_ok (jobs s) → jobs s !! i = Some r → c_payload r = Json record → c_status r = "Failed" →
  promote_one clock now (i, c_payload r, c_attempt_count r) s
  = (Ok (if retries_again r then [i] else []),
     set_jobs (<[i := retried_row clock now i r]> (jobs s)) s).
Proof.
  intros Hok Hi Hp Hf. unfold promote_one, mbind, op_bind, lift. rewrite Hp.
  cbn [deserialize_record].
  assert (id record = i) as Hid by apply (ok_payload _ _ (Hok _ _ Hi) _ Hp).
  unfold retried_row, retries_again, exhausted, attempts. rewrite Hp. simpl. rewrite Hid.
  case_bool_decide as Hmax; simpl.
  - unfold fail_dlq. rewrite Hi, Hp. simpl. do 2 f_equal.
    apply (update_where_insert i); [done|apply has_id_self|]. intros. by apply has_id_other.
  - do 2 f_equal.
    apply (update_where_insert i _ [SetStatus "Pending"; SetScheduledAt now]); [done| |].
    + rewrite has_id_self. by apply status_is_true.
    + intros. by rewrite has_id_other.
Qed.

(** Rewriting the rows of a list of identifiers. *)
Definition retry_ids (clock : Ulid → DateTime * DateTime) (now : DateTime) (ids : list Ulid)
    (m : table) : table :=
  map_imap (λ i r, Some (if bool_decide (i ∈ ids) then retried_row clock now i r else r)) m.

Lemma lookup_retry_ids clock now ids m i :
  retry_ids clock now ids m !! i
  = (λ r, if bool_decide (i ∈ ids) then retried_row clock now i r else r) <$> m !! i.
Proof. unfold retry_ids. rewrite map_lookup_imap. by destruct (m !! i). Qed.

Lemma retry_ids_cons clock now i ids m r :
  m !! i = Some r → i ∉ ids →
  retry_ids clock now ids (<[i := retried_row clock now i r]> m)
  = retry_ids clock now (i :: ids) m.
Proof.
  intros Hi Hni. apply map_eq. intros j. rewrite !lookup_retry_ids.
  destruct (decide (j = i)) as [->|Hne].
  - rewrite lookup_insert_eq, Hi. simpl. rewrite bool_decide_eq_false_2 by done.
    by rewrite bool_decide_eq_true_2 by set_solver.
  - rewrite lookup_insert_ne by done. destruct (m !! j); [|done]. simpl. f_equal.
    destruct (decide (j ∈ ids)).
    + by rewrite !bool_decide_eq_true_2 by set_solver.
    + by rewrite !bool_decide_eq_false_2 by set_solver.
Qed.

(** A due row that decodes. *)
Definition due_decodes (now : DateTime) (m : table) (x : Ulid * row) : Prop :=
  m !! x.1 = Some x.2 ∧ retry_due now x.1 x.2 = true ∧ is_ok (deserialize_record (c_payload x.2)) = true.

Abbreviation selection := (λ x : Ulid * row, (x.1, c_payload x.2, c_attempt_count x.2)).

Lemma promote_retries_apply_exact clock now l promoted s :
  table_ok (jobs s) → NoDup l.*1 → Forall (due_decodes now (jobs s)) l →
  promote_retries_apply clock now (selection <$> l) promoted s
  = (Ok (promoted ++ (filter (λ x, retries_again x.2 = true) l).*1),
     set_jobs (retry_ids clock now l.*1 (jobs s)) s).
Proof.
  revert promoted s. induction l as [|[i r] l IH]; intros promoted s Hok Hnd Hdue.
  { cbn. rewrite app_nil_r. do 2 f_equal. destruct s; unfold set_jobs; simpl. f_equal.
    apply map_eq. intros j. rewrite lookup_retry_ids. by destruct (_ !! j). }
  apply NoDup_cons in Hnd as [Hni Hnd]. apply Forall_cons in Hdue as [(Hi & Hd & Hp) Hdue].
  simpl in Hi, Hd, Hp. unfold retry_due in Hd.
  destruct (c_payload r) as [record|] eqn:Ep; [|done]. open_guard.
  cbn [promote_retries_apply fmap list_fmap fst snd]. unfold mbind, op_bind.
  rewrite (promote_one_exact clock now i r record) by done.
  rewrite IH; cbn [jobs set_jobs].
  - rewrite (retry_ids_cons _ _ _ _ _ _ Hi Hni), filter_cons. cbn [snd].
    destruct (retries_again r) eqn:Er;
      [rewrite decide_True by done|rewrite decide_False by done].
    + rewrite <- app_assoc. done.
    + by rewrite app_nil_r.
  - assert (jobs (promote_one clock now (i, c_payload r, c_attempt_count r) s).2
      = <[i:=retried_row clock now i r]> (jobs s)) as <-
      by by rewrite (promote_one_exact clock now i r record).
    eapply table_ok_evolve; [exact Hok|]. eapply promote_one_effect; [done|].
    exists r. unfold retry_due. simpl. rewrite (proj2 (status_is_true _ _)) by done.
    rewrite bool_decide_eq_true_2 by done. done.
  - done.
  - rewrite Forall_forall in *. intros y Hy. destruct (Hdue y Hy) as (? & ? & ?).
    split_and!; [|done..]. rewrite lookup_insert_ne; [done|]. intros ->. apply Hni.
    exact (list_elem_of_fmap_2 fst _ _ Hy).
Qed.

(** The sweep, row by row. *)
Lemma promote_retries_rows (clock : Ulid → DateTime * DateTime) (now : DateTime) (s : store) :
  table_ok (jobs s) →
  (∀ i r, jobs s !! i = Some r → retry_due now i r = true →
          is_ok (deserialize_record (c_payload r)) = true) →
  ∃ ids s', promote_retries clock now s = (Ok ids, s')
  ∧ (∀ i, i ∈ ids ↔ ∃ r, jobs s !! i = Some r ∧ retry_due now i r = true ∧ retries_again r = true)
  ∧ ∀ i, jobs s' !! i
      = (λ r, if retry_due now i r then retried_row clock now i r else r) <$> jobs s !! i.
Proof.
  intros Hok Hdec. unfold promote_retries, promote_retries_select.
  rewrite promote_retries_apply_exact; [|done|apply select_where_NoDup|].
  2: { apply Forall_forall. intros [i r] [Hi Hd]%elem_of_select_where.
       split_and!; simpl; eauto. }
  do 2 eexists. split_and!; [done| |].
  - intros i. rewrite app_nil_l, list_elem_of_fmap. split.
    + intros [[j r] [-> [Hr [Hi Hd]%elem_of_select_where]%list_elem_of_filter]]. eauto.
    + intros (r & Hi & Hd & Hr). exists (i, r). split; [done|].
      apply list_elem_of_filter. split; [done|]. by apply elem_of_select_where.
  - intros i. simpl. rewrite lookup_retry_ids. destruct (jobs s !! i) as [r|] eqn:Hi; [|done].
    simpl. f_equal. destruct (retry_due now i r) eqn:Hd.
    + rewrite bool_decide_eq_true_2; [done|]. apply select_where_fst. eauto.
    + rewrite bool_decide_eq_false_2; [done|]. rewrite select_where_fst.
      intros (r' & Hr' & Hd'). congruence.
Qed.

(** The retry sweep.  On a table that satisfies its invariant and whose due rows
    decode, [promote_retries] succeeds and rewrites exactly the [Failed] rows whose
    retry date has come: a row whose attempt counter has reached the job's maximum
    becomes a dead letter whose error text starts with the cause of the last failure,
    any other goes back to [Pending], scheduled now.  The identifiers returned are
    exactly those of the jobs that were given another attempt. *)
Theorem promote_retries_exact (clock : Ulid → DateTime * DateTime) (now : DateTime) (s : store) :
  table_ok (jobs s) →
  (∀ i r, jobs s !! i = Some r → retry_due now i r = true →
          is_ok (deserialize_record (c_payload r)) = true) →
  ∃ ids s', promote_retries clock now s = (Ok ids, s')
  ∧ (∀ i, i ∈ ids ↔ ∃ r, jobs s !! i = Some r ∧ retry_due now i r = true ∧ retries_again r = true)
  ∧ ∀ i, jobs s' !! i
      = (λ r, if retry_due now i r then retried_row clock now i r else r) <$> jobs s !! i.
Proof. apply promote_retries_rows. Qed.

(** Job 1 has failed three times out of three, job 2 once. *)
Definition sample_failures : store :=
  let fail_once i n t := [CDequeue None t t; CFail i "boom" n t t] in
  run_calls sample_json sample_from_std
    ([CEnqueue (sample_job 1%N Pending (sample_curate "main") High 0 [])]
     ++ fail_once 1%N 3 10
     ++ [CEnqueue (sample_job 2%N Pending (sample_embed "main") Normal 0 [])]
     ++ fail_once 2%N 1 20) empty_store.

Lemma promote_retries_exact_witness :
  ∃ ids s', promote_retries (λ _, (30, 31)) 30 sample_failures = (Ok ids, s')
  ∧ (c_status <$> jobs s' !! 1%N) = Some "DLQ" ∧ (c_status <$> jobs s' !! 2%N) = Some "Pending".
Proof.
  destruct (promote_retries_exact (λ _, (30, 31)) 30 sample_failures) as (ids & s' & Hrun & _ & Hrows).
  - apply run_calls_ok; [reflexivity|apply map_Forall_empty].
  - assert (map_Forall (λ _ r, is_ok (deserialize_record (c_payload r)) = true)
      (jobs sample_failures)) as Hall by (apply (bool_decide_eq_true_1 _); vm_compute; reflexivity).
    intros i r Hi _. exact (Hall i r Hi).
  - exists ids, s'. split; [exact Hrun|]. rewrite !Hrows. split; vm_compute; reflexivity.
Defined.

(** ** Backoff *)

Lemma shiftl_1 n : 0 ≤ n → Z.shiftl 1 n = 2 ^ n.
Proof. intros. rewrite Z.shiftl_mul_pow2 by done. lia. Qed.

(** The backoff.  For [u64] parameters and a [u32] attempt number an exponential
    delay lies between 0 and its cap, never decreases from one attempt to the next, and
    is the smaller of the cap and the exact product [base * 2^(min attempt 62)]: the
    saturation of the [u64] multiplication never shows in the result, and nothing
    wraps around. *)
Theorem backoff_bounded_monotone (base max attempt : Z) :
  0 ≤ base ≤ u64_max → 0 ≤ max ≤ u64_max → 0 ≤ attempt < u32_modulus →
  let d := duration_for (Exponential base max) in
  0 ≤ d attempt ≤ max
  ∧ d attempt ≤ d (attempt + 1)
  ∧ d attempt = Z.min (base * 2 ^ Z.min attempt 62) max.
Proof.
  intros Hb Hm Ha d. unfold d, duration_for, u64_saturating_mul.
  rewrite !shiftl_1 by lia.
  assert (2 ^ Z.min attempt 62 ≤ 2 ^ Z.min (attempt + 1) 62) as Hmono
    by (apply Z.pow_le_mono_r; lia).
  assert (0 < 2 ^ Z.min attempt 62) as Hpos by (apply Z.pow_pos_nonneg; lia).
  assert (base * 2 ^ Z.min attempt 62 ≤ base * 2 ^ Z.min (attempt + 1) 62)
    by (apply Z.mul_le_mono_nonneg_l; lia).
  assert (0 ≤ base * 2 ^ Z.min attempt 62) by (apply Z.mul_nonneg_nonneg; lia).
  lia.
Qed.

Lemma backoff_witness :
  duration_for (Exponential 5 120) 4 = 80 ∧ 0 ≤ duration_for (Exponential 5 120) 4 ≤ 120.
Proof.
  assert (0 ≤ 5 ≤ u64_max) as Hb by (unfold u64_max; lia).
  assert (0 ≤ 120 ≤ u64_max) as Hm by (unfold u64_max; lia).
  assert (0 ≤ 4 < u32_modulus) as Ha by (unfold u32_modulus; lia).
  destruct (backoff_bounded_monotone 5 120 4 Hb Hm Ha) as (Hrange & _ & Hval).
  split; [|exact Hrange]. rewrite Hval. reflexivity.
Defined.
