(* ===== verification/QueueReads.v ===== *)
(** * QueueReads: point reads, batches, pages

    The read operations of [QueueStore]: a job read back after [enqueue], the batched
    [get_many] against the one-by-one default of the trait, the pages of [list], and
    the texts of the statuses.
    The last part is about tenants: the calls of one neither see nor touch another's rows. *)

From S2P Require Import Prelude Job QueueStore QueueLaws QueuePurge QueueRuns.

#[local] Open Scope Z_scope.

(** ** Round trips *)

Lemma str_to_status_to_str st : str_to_status (status_to_str st) = Ok st.
Proof. by destruct st. Qed.

(** Status names.  Writing a status to its column and reading it back gives the
    status; only the written names read back; and the SQL list of terminal names, used
    by the guards of [cancel], the deadline sweep and the purge, holds exactly the names
    of the states for which [is_terminal] answers [true]. *)
Theorem status_text_roundtrip (st : JobStatus) (text : string) :
  str_to_status (status_to_str st) = Ok st
  ∧ (str_to_status text = Ok st ↔ text = status_to_str st)
  ∧ (status_to_str st ∈ TERMINAL_SQL ↔ is_terminal st = true).
Proof.
  split_and!; [apply str_to_status_to_str| |].
  - split; [|intros ->; apply str_to_status_to_str]. unfold str_to_status.
    repeat (case_match; reflect_bools; [intros [= <-]; done|]). done.
  - destruct st; simpl; unfold TERMINAL_SQL; split; try done; set_solver.
Qed.

(** Enqueue then get.  A job enqueued under a fresh identifier is accepted, is
    announced, and reads back as itself, with the attempt counter at zero, for the
    tenant it serves or without a tenant filter, and as absent for any other tenant; all
    other rows are as before.  A second enqueue under the same identifier fails and
    changes nothing. *)
Theorem enqueue_get_roundtrip (job : JobRecord) (s : store) (t : string) :
  jobs s !! id job = None →
  let s' := (enqueue job s).2 in
  (enqueue job s).1 = Ok (id job)
  ∧ published s' = published s ++ [JobInserted (id job)]
  ∧ get (id job) None s' = (Ok (Some (set_count 0 job)), s')
  ∧ (get (id job) (Some t) s').1
    = Ok (if String.eqb (spec_tenant (spec job)) t then Some (set_count 0 job) else None)
  ∧ (∀ j, j ≠ id job → jobs s' !! j = jobs s !! j)
  ∧ ∀ job', id job' = id job → is_ok (enqueue job' s').1 = false ∧ (enqueue job' s').2 = s'.
Proof.
  intros Hfresh s'.
  assert (s' = publish (JobInserted (id job)) (set_jobs (<[id job := row_of_record job]> (jobs s)) s))
    as Hs' by (unfold s', enqueue; by rewrite Hfresh).
  assert (read_row (row_of_record job) = Ok (set_count 0 job)) as Hread.
  { unfold read_row, apply_sql_authority. cbn -[str_to_status status_to_str].
    rewrite str_to_status_to_str. by destruct job as [? ? ? [] [] ?]. }
  assert (jobs s' !! id job = Some (row_of_record job)) as Hrow
    by (rewrite Hs'; simpl; apply lookup_insert_eq).
  split_and!.
  - unfold enqueue. by rewrite Hfresh.
  - by rewrite Hs'.
  - unfold get. rewrite Hrow. cbn [tenant_matches unless_null]. by rewrite Hread.
  - unfold get. rewrite Hrow. cbn [tenant_matches unless_null c_tenant_id row_of_record].
    by destruct (String.eqb _ _); rewrite ?Hread.
  - intros j Hj. rewrite Hs'. simpl. by rewrite lookup_insert_ne.
  - intros job' Hid. unfold enqueue. by rewrite Hid, Hrow.
Qed.

Lemma enqueue_get_witness :
  let job := sample_job 1%N Pending (sample_curate "main") Normal 0 [] in
  get 1%N None (enqueue job empty_store).2 = (Ok (Some job), (enqueue job empty_store).2).
Proof.
  exact (proj1 (proj2 (proj2 (enqueue_get_roundtrip
    (sample_job 1%N Pending (sample_curate "main") Normal 0 []) empty_store "main" eq_refl)))).
Defined.

(** ** Batched reads *)

(** Each identifier once, in the order of first occurrence. *)
Fixpoint first_occurrences (seen : gset Ulid) (ids : list Ulid) : list Ulid :=
  match ids with
  | [] => []
  | i :: ids' =>
      if decide (i ∈ seen) then first_occurrences seen ids'
      else i :: first_occurrences ({[i]} ∪ seen) ids'
  end.

Lemma elem_of_first_occurrences seen ids i :
  i ∈ first_occurrences seen ids ↔ i ∈ ids ∧ i ∉ seen.
Proof.
  revert seen. induction ids as [|j ids IH]; intros seen; simpl; [set_solver|].
  case_decide; rewrite ?elem_of_cons, IH; destruct (decide (i = j)); set_solver.
Qed.

Lemma foldl_insert_lookup (l : list JobRecord) (found : gmap Ulid JobRecord) i :
  NoDup (id <$> l) →
  (∀ record, record ∈ l → id record = i →
     foldl (λ f record, <[id record := record]> f) found l !! i = Some record)
  ∧ (i ∉ id <$> l →
     foldl (λ f record, <[id record := record]> f) found l !! i = found !! i).
Proof.
  revert found. induction l as [|x l IH]; intros found Hnd; cbn [foldl fmap list_fmap] in *.
  { split; [intros ? []%not_elem_of_nil|done]. }
  apply NoDup_cons in Hnd as [Hx Hnd]. destruct (IH (<[id x := x]> found) Hnd) as [IH1 IH2].
  split.
  - intros record [->|Hin]%elem_of_cons Hid; [|by apply IH1].
    rewrite IH2 by congruence. rewrite <- Hid. apply lookup_insert_eq.
  - intros Hni. rewrite IH2 by set_solver. apply lookup_insert_ne. set_solver.
Qed.

Lemma drain_spec (found : gmap Ulid JobRecord) seen ids :
  (∀ i, i ∈ seen → found !! i = None) →
  drain_in_order found ids = omap (λ i, found !! i) (first_occurrences seen ids).
Proof.
  revert found seen. induction ids as [|i ids IH]; intros found seen Hseen; simpl; [done|].
  case_decide as Hi; [rewrite (Hseen i Hi); by apply IH|]. cbn [omap list_omap].
  destruct (found !! i) as [record|] eqn:Hf.
  - f_equal. rewrite (IH (delete i found) ({[i]} ∪ seen)).
    + apply omap_ext_in. intros j [_ Hj]%elem_of_first_occurrences.
      apply lookup_delete_ne. set_solver.
    + intros j [->%elem_of_singleton|Hj]%elem_of_union; [apply lookup_delete_eq|].
      apply lookup_delete_None. right. by apply Hseen.
  - apply IH. intros j [->%elem_of_singleton|Hj]%elem_of_union; [done|by apply Hseen].
Qed.

Section batches.
Context (m : table) (tenant_filter : option string) (Hok : table_ok m).

(** The row an identifier shows to this reader. *)
Definition visible (i : Ulid) : option row :=
  match m !! i with
  | Some r => if tenant_matches tenant_filter r then Some r else None
  | None => None
  end.

Definition readable (ids : list Ulid) : Prop :=
  ∀ i r, i ∈ ids → visible i = Some r → is_ok (read_row r) = true.

Definition record_at (i : Ulid) : option JobRecord :=
  match visible i with
  | Some r => match read_row r with Ok record => Some record | Err _ => None end
  | None => None
  end.

Lemma visible_lookup i r : visible i = Some r → m !! i = Some r.
Proof. unfold visible. intros. by repeat case_match; simplify_eq. Qed.

Lemma apply_sql_authority_id record a b c d : id (apply_sql_authority record a b c d) = id record.
Proof. unfold apply_sql_authority. by repeat case_match. Qed.

Lemma read_row_id i r record : m !! i = Some r → read_row r = Ok record → id record = i.
Proof.
  unfold read_row, result_bind. destruct (deserialize_record _) as [record0|] eqn:Ed; [|done].
  apply deserialize_Ok in Ed. intros Hi [= <-]. rewrite apply_sql_authority_id.
  by apply (ok_payload _ _ (Hok _ _ Hi)).
Qed.

(** *** One read per identifier *)

Lemma get_visible i s :
  jobs s = m →
  get i tenant_filter s = (match visible i with
                           | Some r => match read_row r with
                                       | Ok record => Ok (Some record)
                                       | Err e => Err e
                                       end
                           | None => Ok None
                           end, s).
Proof. intros Hm. unfold get, visible. rewrite Hm. by repeat case_match. Qed.

Lemma get_many_loop_spec ids seen records s l :
  jobs s = m →
  (get_many_loop ids tenant_filter seen records s).1 = Ok l ↔
  readable (first_occurrences seen ids)
  ∧ l = records ++ omap record_at (first_occurrences seen ids).
Proof.
  intros Hm. revert seen records. induction ids as [|i ids IH]; intros seen records.
  { simpl. rewrite app_nil_r. split; [intros [= <-]|intros [_ ->]]; [|done].
    split; [|done]. intros i r Hi. by apply not_elem_of_nil in Hi. }
  cbn [get_many_loop first_occurrences]. case_decide as Hseen; [apply IH|].
  unfold mbind, op_bind. rewrite (get_visible i s Hm).
  unfold readable. setoid_rewrite elem_of_cons. unfold record_at. cbn [omap list_omap].
  fold record_at.
  destruct (visible i) as [r|] eqn:Ev.
  - destruct (read_row r) as [record|e] eqn:Er; cbn [fst].
    + rewrite IH, <- app_assoc. apply and_iff_compat_r. unfold readable.
      split; [|naive_solver]. intros H j r' [->|Hj] Hr'; [|by eapply H].
      simplify_eq. by rewrite Er.
    + split; [done|]. intros [H _]. specialize (H i r (or_introl eq_refl) Ev).
      by rewrite Er in H.
  - rewrite IH. apply and_iff_compat_r. unfold readable. split; [|naive_solver].
    intros H j r' [->|Hj] Hr'; [congruence|by eapply H].
Qed.

(** *** One query per chunk *)

Definition chunk_rows (chunk : list Ulid) : list (Ulid * row) :=
  select_where (λ i r, bool_decide (i ∈ chunk) && tenant_matches tenant_filter r) m.

Lemma elem_of_chunk_rows chunk i r :
  (i, r) ∈ chunk_rows chunk ↔ i ∈ chunk ∧ visible i = Some r.
Proof.
  unfold chunk_rows. rewrite elem_of_select_where, andb_true_iff, bool_decide_eq_true.
  unfold visible. destruct (m !! i) as [r'|]; [|by split; intros [? ?]].
  split; [intros ([= ->] & ? & ->); done|].
  intros [? Hv]. by destruct (tenant_matches tenant_filter r') eqn:E; simplify_eq.
Qed.

(** The batch map after a chunk. *)
Definition after_chunk (chunk : list Ulid) (found : gmap Ulid JobRecord) (i : Ulid)
  : option JobRecord :=
  match (if decide (i ∈ chunk) then record_at i else None) with
  | Some record => Some record
  | None => found !! i
  end.

Lemma chunk_records chunk records :
  collect_results (λ x, read_row x.2) (chunk_rows chunk) = Ok records →
  readable chunk ∧ id <$> records = (chunk_rows chunk).*1
  ∧ ∀ i record, record ∈ records → id record = i → i ∈ chunk ∧ record_at i = Some record.
Proof.
  intros Hall%collect_results_Ok.
  assert (∀ x record, x ∈ chunk_rows chunk → read_row x.2 = Ok record → id record = x.1) as Hids.
  { intros [j r] record Hx%elem_of_chunk_rows Hread. destruct Hx as [_ Hv%visible_lookup].
    by eapply read_row_id. }
  split_and!.
  - intros i r Hi Hv. assert ((i, r) ∈ chunk_rows chunk) as Hin by by apply elem_of_chunk_rows.
    destruct (Forall2_in_l _ _ _ _ Hall Hin) as (y & _ & Hy). simpl in Hy. by rewrite Hy.
  - clear -Hall Hids. induction Hall as [|x y l l' Hxy Hall IH]; simpl; [done|].
    f_equal; [apply Hids; [by left|done]|]. apply IH. intros ???. apply Hids. by right.
  - intros i record Hin <-. destruct (Forall2_in_r _ _ _ _ Hall Hin) as ([j r] & Hx & Hr).
    pose proof (Hids _ _ Hx Hr) as Hid. apply elem_of_chunk_rows in Hx as [Hj Hv].
    simpl in *. rewrite Hid. split; [done|]. unfold record_at. by rewrite Hv, Hr.
Qed.

Lemma get_many_chunk_spec chunk found found' :
  get_many_chunk m tenant_filter found chunk = Ok found' →
  readable chunk ∧ ∀ i, found' !! i = after_chunk chunk found i.
Proof.
  unfold get_many_chunk, result_bind. fold (chunk_rows chunk).
  destruct (collect_results _ _) as [records|] eqn:E; [|done]. intros [= <-].
  apply chunk_records in E as (Hread & Hids & Hrec). split; [done|]. intros i.
  assert (NoDup (id <$> records)) as Hnd by (rewrite Hids; apply select_where_NoDup).
  destruct (foldl_insert_lookup records found i Hnd) as [H1 H2]. unfold after_chunk.
  destruct (decide (i ∈ id <$> records)) as [Hin|Hni].
  - apply list_elem_of_fmap in Hin as (record & -> & Hin).
    destruct (Hrec _ _ Hin eq_refl) as [Hc Hr]. rewrite decide_True, Hr by done. by apply H1.
  - rewrite H2 by done. case_decide as Hc; [|done].
    destruct (record_at i) as [record|] eqn:Hr; [|done]. exfalso. apply Hni. rewrite Hids.
    unfold record_at in Hr. destruct (visible i) as [r|] eqn:Hv; [|done].
    apply list_elem_of_fmap. exists (i, r). split; [done|]. by apply elem_of_chunk_rows.
Qed.

Lemma get_many_chunk_ok chunk found :
  readable chunk → is_ok (get_many_chunk m tenant_filter found chunk) = true.
Proof.
  intros Hread. unfold get_many_chunk, result_bind. fold (chunk_rows chunk).
  rewrite (collect_results_fmap _ (λ x, match read_row x.2 with
    | Ok record => record | Err _ => sample_job 0 Pending Agent Low 0 [] end)); [done|].
  intros [i r] [Hi Hv]%elem_of_chunk_rows. simpl. specialize (Hread i r Hi Hv).
  by destruct (read_row r).
Qed.

Lemma get_many_chunks_spec l found :
  match get_many_chunks m tenant_filter found l with
  | Ok found' => readable (concat l) ∧ ∀ i, found' !! i = after_chunk (concat l) found i
  | Err _ => ¬ readable (concat l)
  end.
Proof.
  revert found. induction l as [|chunk l IH]; intros found; simpl.
  { split; [intros i r []%not_elem_of_nil|]. intros i. unfold after_chunk.
    by rewrite decide_False by apply not_elem_of_nil. }
  unfold result_bind. destruct (get_many_chunk m tenant_filter found chunk) as [found1|e] eqn:E.
  - apply get_many_chunk_spec in E as [Hread1 Hf1]. specialize (IH found1).
    destruct (get_many_chunks m tenant_filter found1 l) as [found2|e].
    + destruct IH as [Hread2 Hf2]. split.
      * intros i r [Hi|Hi]%elem_of_app; eauto.
      * intros i. rewrite Hf2. unfold after_chunk. rewrite Hf1. unfold after_chunk.
        destruct (decide (i ∈ chunk)), (decide (i ∈ concat l)),
          (decide (i ∈ chunk ++ concat l)); destruct (record_at i); set_solver.
    + intros Hread. apply IH. intros i r Hi. apply Hread. set_solver.
  - intros Hread. assert (readable chunk) as Hc by (intros i r Hi; apply Hread; set_solver).
    pose proof (get_many_chunk_ok chunk found Hc) as Hk. by rewrite E in Hk.
Qed.

End batches.

(** Batched reads agree with single reads.  On a table that satisfies its
    invariant, the batched [get_many] (one query per 998 identifiers, records drained
    from a map) answers a list exactly when the trait's default (one [get] per new
    identifier) answers that list: the visible records in the order of the first
    occurrence of their identifiers, unknown and hidden ones left out, none twice.
    Neither changes the store. *)
Theorem get_many_agrees_with_default (ids : list Ulid) (tenant_filter : option string)
    (s : store) (l : list JobRecord) :
  table_ok (jobs s) →
  ((get_many ids tenant_filter s).1 = Ok l ↔ (get_many_default ids tenant_filter s).1 = Ok l)
  ∧ ((get_many ids tenant_filter s).1 = Ok l →
       l = omap (record_at (jobs s) tenant_filter) (first_occurrences ∅ ids))
  ∧ (get_many ids tenant_filter s).2 = s.
Proof.
  intros Hok.
  assert (readable (jobs s) tenant_filter (first_occurrences ∅ ids)
          ↔ readable (jobs s) tenant_filter ids) as Hre.
  { unfold readable. split; intros H i r Hi; apply H.
    - apply (elem_of_first_occurrences ∅ ids i). split; [done|apply not_elem_of_empty].
    - by apply elem_of_first_occurrences in Hi as [? _]. }
  assert ((get_many ids tenant_filter s).1 = Ok l ↔ readable (jobs s) tenant_filter ids
    ∧ l = omap (record_at (jobs s) tenant_filter) (first_occurrences ∅ ids)) as Hb.
  { unfold get_many. destruct ids as [|i0 ids0] eqn:Eids.
    { simpl. split; [intros [= <-]|by intros [_ ->]]. split; [|done]. by intros ?? ?%not_elem_of_nil. }
    rewrite <- Eids. cbn [fst]. unfold result_bind.
    pose proof (get_many_chunks_spec (jobs s) tenant_filter Hok (chunks SQLITE_ID_BATCH ids) ∅) as H.
    rewrite chunks_concat in H by (unfold SQLITE_ID_BATCH; lia).
    destruct (get_many_chunks _ _ _ _) as [found|e]; [|split; [done|by intros [? _]]].
    destruct H as [Hread Hfound]. rewrite (drain_spec found ∅) by set_solver.
    rewrite (omap_ext_in _ (record_at (jobs s) tenant_filter)).
    - split; [intros [= <-]; done|by intros [_ ->]].
    - intros i [Hi _]%elem_of_first_occurrences. rewrite Hfound. unfold after_chunk.
      rewrite decide_True, lookup_empty by done. by destruct (record_at _ _ _). }
  split_and!; [|intros ?%Hb; tauto|by destruct ids].
  unfold get_many_default. rewrite (get_many_loop_spec (jobs s)) by done.
  rewrite Hb, Hre. done.
Qed.

(** Two jobs of two tenants. *)
Definition sample_tenants : store :=
  run_calls sample_json sample_from_std
    [CEnqueue (sample_job 1%N Pending (sample_curate "acme") Normal 0 []);
     CEnqueue (sample_job 2%N Pending (sample_embed "globex") High 5 [])] empty_store.

Lemma get_many_witness :
  (get_many [2%N; 1%N; 9%N; 2%N] None sample_tenants).1
  = (get_many_default [2%N; 1%N; 9%N; 2%N] None sample_tenants).1.
Proof.
  assert (table_ok (jobs sample_tenants)) as Hok
    by (apply run_calls_ok; [reflexivity|apply map_Forall_empty]).
  pose proof (λ l, get_many_agrees_with_default [2%N; 1%N; 9%N; 2%N] None sample_tenants l Hok) as H.
  destruct (get_many_default [2%N; 1%N; 9%N; 2%N] None sample_tenants).1 as [l|e] eqn:E.
  - by apply (H l).
  - exfalso. revert E. vm_compute. discriminate.
Defined.

(** ** Pages *)

Definition with_cursor (c : option Ulid) (f : JobFilter) : JobFilter :=
  mkJobFilter (f_class f) (f_status f) (f_kind f) (f_created_after f) (f_created_before f)
    (f_order f) (f_limit f) c (f_tenant f).

(** A client that asks for the page after the last row it received, until a page
    is empty; [None] when the fuel runs out. *)
Fixpoint walk (fuel : nat) (f : JobFilter) (m : table) : option (list (Ulid * row)) :=
  match fuel with
  | O => None
  | S fuel' =>
      let rows := list_rows f m in
      match last rows with
      | None => Some []
      | Some y => app rows <$> walk fuel' (with_cursor (Some y.1) f) m
      end
  end.

(** The rows behind the cursor of a filter, all of them. *)
Definition remaining (f : JobFilter) (m : table) : list (Ulid * row) :=
  in_order (f_order f)
    (select_where (λ i r, filter_matches f r && cursor_matches (f_order f) (f_cursor f) i) m).

Definition order_rel (o : JobOrder) : relation (Ulid * row) :=
  match o with CreatedAsc => key_lt | CreatedDesc => key_gt end.

#[local] Instance order_rel_strict o : StrictOrder (order_rel o).
Proof. destruct o; apply _. Qed.

Lemma select_where_sorted p m : StronglySorted key_lt (select_where p m).
Proof. apply strict_sorted_filter, rows_by_id_strict. Qed.

Lemma remaining_sorted f m : StronglySorted (order_rel (f_order f)) (remaining f m).
Proof.
  unfold remaining. destruct (f_order f); simpl; [|apply key_lt_sorted_reverse];
    apply select_where_sorted.
Qed.

Lemma cursor_matches_rel o c x :
  cursor_matches o (Some c) x.1 = true ↔ ∀ r, order_rel o (c, r) x.
Proof.
  unfold cursor_matches, order_rel, key_lt, key_gt. destruct o; simpl;
    rewrite bool_decide_eq_true; (split; [auto|intros H; exact (H x.2)]).
Qed.

Lemma elem_of_remaining f m x :
  x ∈ remaining f m ↔ m !! x.1 = Some x.2 ∧ filter_matches f x.2 = true
                      ∧ cursor_matches (f_order f) (f_cursor f) x.1 = true.
Proof.
  destruct x as [i r]. unfold remaining, in_order.
  assert ((i, r) ∈ select_where (λ i r, filter_matches f r
      && cursor_matches (f_order f) (f_cursor f) i) m ↔ m !! i = Some r
      ∧ filter_matches f r = true ∧ cursor_matches (f_order f) (f_cursor f) i = true) as H
    by by rewrite elem_of_select_where, andb_true_iff.
  destruct (f_order f); rewrite ?elem_of_reverse; exact H.
Qed.

Lemma filter_matches_cursor c f r : filter_matches (with_cursor c f) r = filter_matches f r.
Proof. done. Qed.

Lemma remaining_next f m y n :
  last (take n (remaining f m)) = Some y →
  remaining (with_cursor (Some y.1) f) m = drop n (remaining f m).
Proof.
  intros Hy. pose proof (remaining_sorted f m) as Hs.
  apply (strict_sorted_ext (order_rel (f_order f))).
  - apply (remaining_sorted (with_cursor (Some y.1) f)).
  - by apply strict_sorted_drop.
  - assert (y ∈ remaining f m) as Hyin.
    { apply last_Some_elem_of, elem_of_take in Hy as (? & ? & ?). by eapply list_elem_of_lookup_2. }
    intros x. rewrite (strict_sorted_page (order_rel (f_order f)) _ _ _ Hs Hy), !elem_of_remaining.
    cbn [f_order f_cursor with_cursor]. rewrite filter_matches_cursor, cursor_matches_rel.
    split.
    + intros (Hx & Hf & Hc). specialize (Hc y.2). replace (y.1, y.2) with y in Hc by by destruct y.
      split_and!; [done..| |done]. destruct (f_cursor f) as [c|] eqn:Ec; [|done].
      apply elem_of_remaining in Hyin as (_ & _ & Hcy). rewrite Ec, cursor_matches_rel in Hcy.
      apply cursor_matches_rel. intros r. by trans y.
    + intros [(Hx & Hf & _) Hyx]. split_and!; [done..|]. intros r.
      unfold order_rel, key_lt, key_gt in *. by destruct (f_order f).
Qed.

Lemma page_size f : (0 < Z.to_nat (clamp 1 500 (f_limit f)))%nat.
Proof. unfold clamp. lia. Qed.

Lemma walk_remaining fuel f m :
  (length (remaining f m) < fuel)%nat → walk fuel f m = Some (remaining f m).
Proof.
  revert f. induction fuel as [|fuel IH]; intros f Hf; [lia|]. cbn [walk].
  change (list_rows f m) with (take (Z.to_nat (clamp 1 500 (f_limit f))) (remaining f m)).
  pose proof (page_size f) as Hn.
  destruct (last (take _ _)) as [y|] eqn:Hy.
  - pose proof (remaining_next f m y _ Hy) as Hnext.
    assert (remaining f m ≠ []) as Hne by (intros E; rewrite E, take_nil in Hy; done).
    rewrite IH; rewrite Hnext; cbn [fmap option_fmap option_map].
    + by rewrite take_drop.
    + rewrite length_drop. destruct (remaining f m); [done|]. simpl in *. lia.
  - apply last_None in Hy. destruct (remaining f m) as [|x l]; [done|].
    destruct (Z.to_nat (clamp 1 500 (f_limit f))); [lia|done].
Qed.

(** Pages lose nothing.  For every filter, page size (clamped to 1..500) and
    direction, a client that follows the cursor from page to page receives, in order,
    each matching row exactly once, and after a number of pages bounded by the size of
    the table an empty page tells it that it is done. *)
Theorem list_pages_complete (f : JobFilter) (m : table) :
  walk (S (size m)) (with_cursor None f) m
  = Some (in_order (f_order f) (select_where (λ _, filter_matches f) m)).
Proof.
  assert (remaining (with_cursor None f) m
          = in_order (f_order f) (select_where (λ _, filter_matches f) m)) as <-.
  { unfold remaining. cbn [f_order f_cursor with_cursor]. f_equal.
    apply list_filter_iff. intros x. simpl. by rewrite andb_true_r, filter_matches_cursor. }
  apply walk_remaining. apply Nat.lt_succ_r. unfold remaining, in_order, select_where.
  transitivity (length (rows_by_id m)).
  - destruct (f_order _); rewrite ?length_reverse; apply length_filter.
  - unfold rows_by_id. by rewrite merge_sort_Permutation, length_map_to_list.
Qed.

(** * Tenants on the queue *)

(** The two tables hold the same rows of tenant [t]. *)
Definition same_for (t : string) (m m' : table) : Prop :=
  ∀ i r, c_tenant_id r = t → (m !! i = Some r ↔ m' !! i = Some r).

#[export] Instance same_for_equivalence t : Equivalence (same_for t).
Proof.
  split.
  - by intros m i r _.
  - intros m m' H i r Hr. by rewrite (H i r Hr).
  - intros m1 m2 m3 H12 H23 i r Hr. by rewrite (H12 i r Hr), (H23 i r Hr).
Qed.

Lemma tenant_matches_Some t r : tenant_matches (Some t) r = true ↔ c_tenant_id r = t.
Proof. apply String.eqb_eq. Qed.

Section isolation.
Context (t : string).

(** A selection with the tenant clause. *)
Lemma select_where_same p m m' :
  (∀ i r, p i r = true → c_tenant_id r = t) → same_for t m m' →
  select_where p m = select_where p m'.
Proof.
  intros Hp Hm. apply (strict_sorted_ext key_lt); [apply select_where_sorted..|].
  intros [i r]. rewrite !elem_of_select_where. split; intros [Hi Hr]; split; try done;
    by apply (Hm i r (Hp i r Hr)).
Qed.

#[export] Instance select_where_tenant_proper :
  Proper (same_for t ==> eq) (select_where (λ _, tenant_matches (Some t))).
Proof. intros m m'. apply select_where_same. intros i r. apply tenant_matches_Some. Qed.

Lemma lookup_same i m m' r :
  same_for t m m' → m !! i = Some r → tenant_matches (Some t) r = true → m' !! i = Some r.
Proof. intros Hm Hi Hr%tenant_matches_Some. by apply (Hm i r Hr). Qed.

(** A point read with the tenant clause. *)
Lemma visible_same i m m' :
  same_for t m m' → visible m (Some t) i = visible m' (Some t) i.
Proof.
  intros Hm. unfold visible.
  destruct (m !! i) as [r|] eqn:Hi; [destruct (tenant_matches (Some t) r) eqn:Hr|].
  - by rewrite (lookup_same _ _ _ _ Hm Hi Hr), Hr.
  - destruct (m' !! i) as [r'|] eqn:Hi'; [|done].
    destruct (tenant_matches (Some t) r') eqn:Hr'; [|done].
    pose proof (lookup_same _ _ _ _ (symmetry Hm) Hi' Hr'). congruence.
  - destruct (m' !! i) as [r'|] eqn:Hi'; [|done].
    destruct (tenant_matches (Some t) r') eqn:Hr'; [|done].
    pose proof (lookup_same _ _ _ _ (symmetry Hm) Hi' Hr'). congruence.
Qed.

Lemma get_many_chunks_same m m' found l :
  same_for t m m' →
  get_many_chunks m (Some t) found l = get_many_chunks m' (Some t) found l.
Proof.
  intros Hm. revert found. induction l as [|chunk l IH]; intros found; simpl; [done|].
  unfold get_many_chunk.
  rewrite (select_where_same (λ i r, bool_decide (i ∈ chunk) && tenant_matches (Some t) r) m m');
    [|intros i r; rewrite andb_true_iff; intros [_ ?%tenant_matches_Some]; done|done].
  destruct (collect_results _ _); simpl; [apply IH|done].
Qed.

Definition eligible_for (eligible : row → bool) : Prop :=
  ∀ r, eligible r = true → c_tenant_id r = t.

(** A dequeue on a tenant: same answer, and the tables still agree. *)
Lemma lease_first_same eligible now now' s s' :
  eligible_for eligible → same_for t (jobs s) (jobs s') →
  (lease_first eligible now now' s).1 = (lease_first eligible now now' s').1
  ∧ same_for t (jobs (lease_first eligible now now' s).2)
      (jobs (lease_first eligible now now' s').2).
Proof.
  intros Hel Hm. unfold lease_first.
  rewrite (select_where_same (λ _, eligible) (jobs s) (jobs s')) by (auto || intros ?; apply Hel).
  destruct (pick_best _ _) as [[i r]|]; [|done].
  assert (∀ sets, same_for t (update_where (has_id i) sets (jobs s))
            (update_where (has_id i) sets (jobs s'))) as Hup.
  { intros sets j r' Hr'. rewrite !lookup_update_where, !fmap_Some.
    split; intros (r0 & Hj & ->); exists r0; (split; [|done]);
      (apply (Hm j r0); [|done]); revert Hr'; case_match;
      autorewrite with gradatum; done. }
  destruct (deserialize_record _); simpl; auto.
Qed.

Lemma dequeue_by_kind_same k now now' s s' :
  same_for t (jobs s) (jobs s') →
  (dequeue_by_kind k (Some t) now now' s).1 = (dequeue_by_kind k (Some t) now now' s').1
  ∧ same_for t (jobs (dequeue_by_kind k (Some t) now now' s).2)
      (jobs (dequeue_by_kind k (Some t) now now' s').2).
Proof.
  intros Hm. unfold dequeue_by_kind. case_match; [done|]. apply lease_first_same; [|done].
  intros r Hr. unfold dequeueable in Hr. reflect_bools. by apply tenant_matches_Some.
Qed.
End isolation.

(** Tenants do not see each other.  If two queues hold the same rows of tenant
    [t], whatever the rows of the other tenants, then every read made for [t] (by
    identifier, in batch, by filter, latest job, counts per status) and every dequeue
    made for [t] gives the same answer on both. *)
Theorem tenant_reads_are_isolated (t : string) (s s' : store) :
  same_for t (jobs s) (jobs s') →
  (∀ i, (get i (Some t) s).1 = (get i (Some t) s').1)
  ∧ (∀ ids, (get_many ids (Some t) s).1 = (get_many ids (Some t) s').1)
  ∧ (∀ f, f_tenant f = Some t → (list_jobs f s).1 = (list_jobs f s').1)
  ∧ (latest_job (Some t) s).1 = (latest_job (Some t) s').1
  ∧ (count_jobs_by_status (Some t) s).1 = (count_jobs_by_status (Some t) s').1
  ∧ (∀ now now', (dequeue (Some t) now now' s).1 = (dequeue (Some t) now now' s').1)
  ∧ (∀ k now now', (dequeue_by_kind k (Some t) now now' s).1
                   = (dequeue_by_kind k (Some t) now now' s').1).
Proof.
  intros Hm. split_and!.
  - intros i. rewrite (get_visible (jobs s) (Some t)), (get_visible (jobs s') (Some t)) by done.
    by rewrite (visible_same t i _ _ Hm).
  - intros [|i ids]; [done|]. unfold get_many. cbn [fst]. by rewrite (get_many_chunks_same t _ _ _ _ Hm).
  - intros f Hf. unfold list_jobs, list_rows. cbn [fst]. do 3 f_equal.
    apply (select_where_same t); [|done]. intros i r. unfold filter_matches. rewrite Hf.
    intros. reflect_bools. by match goal with
      H : unless_null (Some t) _ = true |- _ => apply String.eqb_eq in H end.
  - unfold latest_job. cbn [fst]. by rewrite (select_where_tenant_proper t _ _ Hm).
  - unfold count_jobs_by_status. cbn [fst]. by rewrite (select_where_tenant_proper t _ _ Hm).
  - intros. apply (lease_first_same t); [|done]. intros r Hr. unfold dequeueable in Hr.
    reflect_bools. by apply tenant_matches_Some.
  - intros. by apply (dequeue_by_kind_same t).
Qed.

(** Work enqueued for another tenant is such a difference. *)
Lemma enqueue_same t job s :
  spec_tenant (spec job) ≠ t → same_for t (jobs s) (jobs (enqueue job s).2).
Proof.
  intros Ht i r Hr. unfold enqueue. destruct (jobs s !! id job) as [r0|] eqn:E; [done|].
  simpl. destruct (decide (i = id job)) as [->|Hne].
  - rewrite lookup_insert_eq, E. split; [done|]. intros [= <-]. by simpl in Hr.
  - by rewrite lookup_insert_ne.
Qed.

Lemma tenant_reads_witness :
  let s := (enqueue (sample_job 1%N Pending (sample_curate "acme") Normal 0 []) empty_store).2 in
  let s' := (enqueue (sample_job 2%N Pending (sample_embed "globex") High 5 []) s).2 in
  (dequeue (Some "acme") 10 11 s).1 = (dequeue (Some "acme") 10 11 s').1.
Proof.
  intros s s'. apply (tenant_reads_are_isolated "acme" s s').
  apply enqueue_same. discriminate.
Defined.

(** Tenants do not touch each other.  A cancellation or a dequeue made for tenant
    [t] leaves every row of every other tenant exactly as it was; cancelling a job of
    another tenant answers [Ok] and changes nothing at all. *)
Theorem tenant_writes_are_isolated (t : string) (s : store) (j : Ulid) (r : row) :
  jobs s !! j = Some r → c_tenant_id r ≠ t →
  (∀ i now, jobs (cancel i (Some t) now s).2 !! j = Some r)
  ∧ (∀ now, cancel j (Some t) now s = (Ok (), s))
  ∧ (∀ now now', jobs (dequeue (Some t) now now' s).2 !! j = Some r)
  ∧ (∀ k now now', jobs (dequeue_by_kind k (Some t) now now' s).2 !! j = Some r).
Proof.
  intros Hj Ht.
  assert (tenant_matches (Some t) r = false) as Hm.
  { apply not_true_iff_false. by rewrite tenant_matches_Some. }
  assert (∀ now, dequeueable now (Some t) r = false) as Hd.
  { intros. unfold dequeueable. by rewrite Hm, andb_false_r. }
  split_and!.
  - intros i now. unfold cancel. open_row s i. cbn [snd jobs publish set_jobs].
    apply update_where_spares; [done|]. by rewrite Hm, !andb_false_r.
  - intros now. unfold cancel. by rewrite Hj, Hm, andb_false_r.
  - intros. by apply lease_first_spares.
  - intros. unfold dequeue_by_kind. case_match; [done|]. apply lease_first_spares; [done|].
    by rewrite Hd.
Qed.

Lemma tenant_writes_witness :
  let s := (enqueue (sample_job 1%N Pending (sample_curate "acme") Normal 0 []) empty_store).2 in
  cancel 1%N (Some "globex") 10 s = (Ok (), s).
Proof.
  intros s. apply (tenant_writes_are_isolated "globex" s 1%N
    (row_of_record (sample_job 1%N Pending (sample_curate "acme") Normal 0 [])));
    [reflexivity|discriminate].
Defined.
