(* ===== verification/Worker.v ===== *)
(** * Worker: acknowledgement, leadership, sweep

    Models the parts of [crates/gradatum-worker] that drive the queue:
    [GradatumAcknowledger::ack] (apalis_backend.rs), the election of one leader on the
    [worker_leadership] slot (leader.rs) and the periodic maintenance
    [run_sweep_once] (schedules.rs). *)

From S2P Require Import Prelude Job QueueStore QueueLaws QueuePurge QueueRuns QueueDeps.

#[local] Open Scope Z_scope.

(** ** Acknowledgement *)

(** What the handler returned, as [ack] retains it. *)
Inductive AckResult :=
| Success (result_note_md : string)
| Failure (err_msg : string) (attempt : Z).

(** [ack]: the outcome of the store operation is logged and not propagated; a task
    without its job identifier is logged and dropped. *)
Definition ack (res : AckResult) (maybe_job_id : option Ulid) (duration_ms : Z)
    (now now' : DateTime) (s : store) : store :=
  match maybe_job_id with
  | None => s
  | Some job_id =>
      match res with
      | Success _ =>
          (complete job_id (mkJobResult true duration_ms None None None) now now' s).2
      | Failure err_msg att => (fail job_id err_msg att now now' s).2
      end
  end.

(** ** Leadership *)

Module Leader.

Record LeaderConfig := mkLeaderConfig {
  renew_every : Z;
  expires_after : Z;
}.

Definition LeaderConfig_default : LeaderConfig := mkLeaderConfig 30000 60000.

Section election.
(** The configuration of the worker that calls, and its identifier. *)
Context (cfg : LeaderConfig) (holder : string).

(** [INSERT OR IGNORE], then the conditional UPDATE of the slot. *)
Definition try_acquire (now : Z) (s : store) : bool * store :=
  let expires := now + expires_after cfg in
  match leadership s with
  | None => (true, set_leadership (Some (holder, expires)) s)
  | Some (h, expires_at) =>
      if bool_decide (expires_at < now) || String.eqb h holder
      then (true, set_leadership (Some (holder, expires)) s)
      else (false, s)
  end.

Definition renew (now : Z) (s : store) : bool * store :=
  match leadership s with
  | Some (h, _) =>
      if String.eqb h holder
      then (true, set_leadership (Some (h, now + expires_after cfg)) s)
      else (false, s)
  | None => (false, s)
  end.

Definition release (s : store) : store :=
  match leadership s with
  | Some (h, _) => if String.eqb h holder then set_leadership None s else s
  | None => s
  end.
End election.

(** An action of one worker at one instant (milliseconds). *)
Inductive action :=
| Acquire (cfg : LeaderConfig) (holder : string)
| Renew (cfg : LeaderConfig) (holder : string)
| Release (holder : string).

(** What each worker was last told: the expiry of the lease it holds. *)
Abbreviation beliefs := (gmap string Z).

Definition act (a : action) (now : Z) (st : store * beliefs) : store * beliefs :=
  let '(s, b) := st in
  match a with
  | Acquire cfg h =>
      let '(won, s') := try_acquire cfg h now s in
      (s', if (won : bool) then <[h := now + expires_after cfg]> b else delete h b)
  | Renew cfg h =>
      let '(kept, s') := renew cfg h now s in
      (s', if (kept : bool) then <[h := now + expires_after cfg]> b else delete h b)
  | Release h => (release h s, delete h b)
  end.

(** The actions of all workers in the order of the database lock, with the clock. *)
Inductive history : Z → store * beliefs → Prop :=
| HStart t s : leadership s = None → history t (s, ∅)
| HTick t t' st : t ≤ t' → history t st → history t' st
| HAct a t st : history t st → history t (act a t st).

(** A worker may act as leader while its own lease has not expired. *)
Definition acts_as_leader (h : string) (now : Z) (b : beliefs) : Prop :=
  ∃ e, b !! h = Some e ∧ now ≤ e.

(** A live belief is the content of the slot. *)
Definition beliefs_sound (t : Z) (st : store * beliefs) : Prop :=
  ∀ h e, st.2 !! h = Some e → t ≤ e → leadership st.1 = Some (h, e).

Lemma acquire_sound cfg h0 t s b :
  beliefs_sound t (s, b) → beliefs_sound t (act (Acquire cfg h0) t (s, b)).
Proof.
  intros Hs h e. specialize (Hs h e). simpl in *. unfold try_acquire.
  destruct (leadership s) as [[hl el]|] eqn:El.
  - destruct (bool_decide (el < t) || String.eqb hl h0) eqn:Ec; simpl.
    + destruct (decide (h = h0)) as [->|Hne]; [by rewrite lookup_insert_eq; intros [= <-]|].
      rewrite lookup_insert_ne by done. intros He Hle. specialize (Hs He Hle). simplify_eq.
      apply orb_true_iff in Ec as [Ec|Ec]; reflect_bools; [lia|done].
    + intros [? ?]%lookup_delete_Some. rewrite El. auto.
  - simpl. destruct (decide (h = h0)) as [->|Hne]; [by rewrite lookup_insert_eq; intros [= <-]|].
    rewrite lookup_insert_ne by done. intros He Hle. specialize (Hs He Hle). done.
Qed.

Lemma renew_sound cfg h0 t s b :
  beliefs_sound t (s, b) → beliefs_sound t (act (Renew cfg h0) t (s, b)).
Proof.
  intros Hs h e. specialize (Hs h e). simpl in *. unfold renew.
  destruct (leadership s) as [[hl el]|] eqn:El; simpl.
  - destruct (String.eqb hl h0) eqn:Ec; simpl; reflect_bools; subst.
    + destruct (decide (h = h0)) as [->|Hne]; [by rewrite lookup_insert_eq; intros [= <-]|].
      rewrite lookup_insert_ne by done. intros He Hle. specialize (Hs He Hle). by simplify_eq.
    + intros [? ?]%lookup_delete_Some. rewrite El. auto.
  - intros [_ He]%lookup_delete_Some Hle. by specialize (Hs He Hle).
Qed.

Lemma release_sound h0 t s b :
  beliefs_sound t (s, b) → beliefs_sound t (act (Release h0) t (s, b)).
Proof.
  intros Hs h e. specialize (Hs h e). simpl in *. intros [Hne He]%lookup_delete_Some Hle.
  specialize (Hs He Hle). unfold release. rewrite Hs.
  destruct (String.eqb h h0) eqn:Ec; [|done]. reflect_bools. by subst.
Qed.

Lemma history_sound t st : history t st → beliefs_sound t st.
Proof.
  induction 1 as [t s|t t' [s b] Ht _ IH|[] t [s b] _ IH].
  - intros h e He. simpl in He. by rewrite lookup_empty in He.
  - intros h e He Hle. apply IH; [done|lia].
  - by apply acquire_sound.
  - by apply renew_sound.
  - by apply release_sound.
Qed.

(** One leader at a time.  Whatever the number of workers, their configurations
    and the order in which they acquire, renew and release, as long as the clock does
    not run backwards: no two workers both hold a lease that has not expired, and as
    long as one does, [worker_lease_fresh] reports a live worker. *)
Theorem leadership_is_exclusive (t : Z) (s : store) (b : beliefs) (h1 h2 : string) :
  history t (s, b) → acts_as_leader h1 t b → acts_as_leader h2 t b →
  h1 = h2 ∧ ∀ now, now < t → (worker_lease_fresh now s).1 = Ok (Some true).
Proof.
  intros Hh%history_sound (e1 & H1 & Hle1) (e2 & H2 & Hle2).
  pose proof (Hh _ _ H1 Hle1) as Hs1. pose proof (Hh _ _ H2 Hle2) as Hs2. simpl in *.
  split; [congruence|]. intros now Hnow. unfold worker_lease_fresh. rewrite Hs1. simpl.
  by rewrite bool_decide_eq_true_2 by lia.
Qed.

(** Worker "a" wins, worker "b" is refused, "a" renews. *)
Definition sample_election : store * beliefs :=
  act (Renew LeaderConfig_default "a") 40000
    (act (Acquire LeaderConfig_default "b") 20000
       (act (Acquire LeaderConfig_default "a") 10000 (empty_store, ∅))).

Lemma leadership_witness :
  acts_as_leader "a" 90000 sample_election.2 ∧ ¬ acts_as_leader "b" 90000 sample_election.2.
Proof.
  assert (history 90000 sample_election) as Hh.
  { eapply (HTick 40000); [lia|]. apply (HAct (Renew LeaderConfig_default "a")).
    eapply (HTick 20000); [lia|]. apply (HAct (Acquire LeaderConfig_default "b")).
    eapply (HTick 10000); [lia|]. apply (HAct (Acquire LeaderConfig_default "a")).
    by apply HStart. }
  rewrite (surjective_pairing sample_election) in Hh.
  assert (acts_as_leader "a" 90000 sample_election.2) as Ha
    by (exists 100000; split; [vm_compute; reflexivity|lia]).
  split; [exact Ha|]. intros Hb.
  destruct (leadership_is_exclusive _ _ _ _ _ Hh Ha Hb) as [Heq _]. discriminate.
Defined.
End Leader.

(** ** Conflicts *)

(** A conflict survives its acknowledgement.  When a handler has marked its job
    [Conflict] (the note was not written) and the runtime then acknowledges the job as
    a success, whatever the clock: the acknowledgement changes nothing, so the row stays
    [Conflict], terminal, and its payload keeps the conflict document the client needs.
    The completion it attempts is answered [NotFound]. *)
Theorem conflict_survives_ack (json_from_str : string → option JsonValue) (i : Ulid)
    (md note : string) (ms duration_ms t1 t2 t3 t4 : Z) (s : store) (r : row) (record : JobRecord) :
  jobs s !! i = Some r → c_payload r = Json record →
  let s' := (mark_conflict json_from_str i md ms t1 t2 s).2 in
  ack (Success note) (Some i) duration_ms t3 t4 s' = s'
  ∧ (∀ res, (complete i res t3 t4 s').1 = Err (NotFound i))
  ∧ ∃ r' record', jobs s' !! i = Some r' ∧ c_status r' = "Conflict" ∧ status_terminal r' = true
      ∧ c_payload r' = Json record' ∧ status (lifecycle record') = Conflict
      ∧ lifecycle_result (lifecycle record')
        = Some (mkJobResult false ms None None (json_from_str md)).
Proof.
  intros Hi Hp s'.
  assert (∃ r', jobs s' !! i = Some r' ∧ c_status r' = "Conflict"
    ∧ c_payload r' = Json (set_result (Some (mkJobResult false ms None None (json_from_str md)))
                            (set_completed_at (Some t2) (set_status Conflict record))))
    as (r' & Hr' & Hst & Hp').
  { unfold s', mark_conflict. rewrite Hi, Hp. cbn [deserialize_record snd jobs publish set_jobs].
    rewrite lookup_update_where, Hi. cbn [fmap option_fmap option_map]. rewrite has_id_self.
    eexists. split; [done|]. by destruct r. }
  assert (∀ res, complete i res t3 t4 s' = (Err (NotFound i), s')) as Hcomp.
  { intros res. unfold complete, mbind, op_bind, complete_tx. rewrite Hr'.
    unfold status_is. by rewrite Hst. }
  split_and!.
  - unfold ack. by rewrite Hcomp.
  - intros res. by rewrite Hcomp.
  - do 2 eexists. split_and!; [exact Hr'|done| |exact Hp'|done|done].
    unfold status_terminal. by rewrite Hst.
Qed.

Lemma conflict_survives_ack_witness :
  let s := run_calls sample_json sample_from_std
    [CEnqueue (sample_job 1%N Pending (sample_curate "main") Normal 0 []);
     CDequeue None 10 10] empty_store in
  let s' := (mark_conflict sample_json 1%N "{}" 5 20 21 s).2 in
  ack (Success "ok") (Some 1%N) 7 30 31 s' = s'.
Proof.
  intros s s'.
  apply (conflict_survives_ack sample_json 1%N "{}" "ok" 5 7 20 21 30 31 s
    (assign_all [SetStatus "Running"; SetLeaseUntil (Some (10 + nanoseconds 300));
                 SetStartedAt (Some 10); IncrAttemptCount]
      (row_of_record (sample_job 1%N Pending (sample_curate "main") Normal 0 [])))
    (sample_job 1%N Pending (sample_curate "main") Normal 0 [])); vm_compute; reflexivity.
Defined.

(** ** The periodic sweep *)

Section sweep.
Context (from_std : Duration → option Duration).

Definition nanos_per_milli : Z := 1000000.

(** [(now - chrono::Duration::hours(24)).timestamp_millis()]. *)
Definition idempotency_cutoff (now : DateTime) : Z :=
  (now - nanoseconds 86400) / nanos_per_milli.

(** [run_sweep_once]: [now] is its own reading of the clock, [t1], [t2] those of the
    recovery, [clock] those of the dead-letter writes; [db] tells whether the handle
    of the idempotency table was given.  Every error is logged and the next step runs. *)
Definition run_sweep_once (lease_ttl : Duration) (db : bool) (now t1 t2 : DateTime)
    (clock : Ulid → DateTime * DateTime) (s : store) : store :=
  let s := (recover_stale_leases from_std lease_ttl t1 t2 s).2 in
  let s := (cancel_expired_deadlines now s).2 in
  let s := (promote_retries clock now s).2 in
  let s := (promote_stranded_waiting_jobs s).2 in
  if db then (idempotency_cleanup (idempotency_cutoff now) s).2 else s.

(** Every payload decodes. *)
Definition all_json (m : table) : Prop := map_Forall (λ _ r, is_Some (record_in r)) m.

Lemma row_step_json forced r r' :
  is_Some (record_in r) → row_step forced r r' → is_Some (record_in r').
Proof. intros Hr Hs. destruct Hs; destruct r; unfold record_in in *; simpl in *; eauto. Qed.

Lemma all_json_evolve forced m m' : all_json m → rows_evolve forced m m' → all_json m'.
Proof.
  intros Hm Hev i r' Hi. specialize (Hev i). rewrite Hi in Hev.
  inversion Hev as [r ? Hrtc Hr|]; subst. specialize (Hm i r (eq_sym Hr)).
  clear -Hrtc Hm. simpl in *. induction Hrtc; eauto using row_step_json.
Qed.

Lemma all_json_waiting m : all_json m → waiting_decodable m.
Proof.
  intros Hm i r Hi _. destruct (Hm i r Hi) as [record Hr]. unfold record_in in Hr.
  destruct (c_payload r); [eauto|done].
Qed.

(** *** What each step leaves *)

Definition recovered (d : Duration) (t1 t2 : DateTime) (r : row) : row :=
  if status_is "Running" r && null_lt (c_lease_until r) (t1 - d)
  then assign_all [SetStatus "Pending"; SetLeaseUntil None; SetScheduledAt t2] r else r.

Definition expired (now : DateTime) (i : Ulid) (r : row) : row :=
  if deadline_expired now i r
  then assign_all [SetStatus "Cancelled"; SetCompletedAt (Some now)] r else r.

Definition retried (clock : Ulid → DateTime * DateTime) (now : DateTime) (i : Ulid)
    (r : row) : row :=
  if retry_due now i r then retried_row clock now i r else r.

Lemma recover_rows ttl d t1 t2 s i :
  from_std ttl = Some d →
  jobs (recover_stale_leases from_std ttl t1 t2 s).2 !! i = recovered d t1 t2 <$> jobs s !! i.
Proof.
  intros Hd. unfold recover_stale_leases. rewrite Hd. cbn [snd jobs set_jobs].
  by rewrite lookup_update_where.
Qed.

Lemma expired_rows now s i :
  jobs (cancel_expired_deadlines now s).2 !! i = expired now i <$> jobs s !! i.
Proof.
  unfold cancel_expired_deadlines. cbn [snd]. rewrite publish_all_jobs. cbn [jobs set_jobs].
  by rewrite lookup_update_where.
Qed.

(** *** What is still due for one row *)

Definition lease_stale (threshold : DateTime) (r : row) : bool :=
  status_is "Running" r && null_lt (c_lease_until r) threshold.

(** Nothing is due for the row: its lease is not stale, its deadline has not passed
    (or it is terminal), it is not a failure whose retry date has come. *)
Definition nothing_due (threshold now : DateTime) (i : Ulid) (r : row) : bool :=
  negb (lease_stale threshold r) && negb (deadline_expired now i r) && negb (retry_due now i r).

Lemma recovered_fresh d t1 t2 r : lease_stale (t1 - d) (recovered d t1 t2 r) = false.
Proof.
  unfold recovered. fold (lease_stale (t1 - d) r). destruct (lease_stale (t1 - d) r) eqn:E; [|done].
  by destruct r.
Qed.

Lemma expired_fresh threshold now i r :
  lease_stale threshold r = false →
  lease_stale threshold (expired now i r) = false ∧ deadline_expired now i (expired now i r) = false.
Proof.
  intros Hl. unfold expired. destruct (deadline_expired now i r) eqn:E; [|done].
  destruct r. split; [done|]. unfold deadline_expired. simpl. apply andb_false_r.
Qed.

Lemma deadline_not_expired now i r r' :
  deadline_expired now i r = false → status_terminal r = false → c_deadline r' = c_deadline r →
  deadline_expired now i r' = false.
Proof.
  unfold deadline_expired. intros H Hs ->. rewrite Hs in H. simpl in H.
  rewrite andb_true_r in H. by rewrite H.
Qed.

Lemma retried_row_shape clock now i r :
  is_Some (record_in r) →
  let r' := retried_row clock now i r in
  (c_status r' = "DLQ" ∨ c_status r' = "Pending") ∧ c_deadline r' = c_deadline r.
Proof.
  intros [record Hr]. unfold record_in in Hr. unfold retried_row, dlq_row.
  destruct (c_payload r); [|done]. destruct r. by case_match; simpl; auto.
Qed.

Lemma retried_fresh threshold clock now i r :
  is_Some (record_in r) → lease_stale threshold r = false → deadline_expired now i r = false →
  nothing_due threshold now i (retried clock now i r) = true.
Proof.
  intros Hj Hl He. unfold retried, nothing_due. destruct (retry_due now i r) eqn:Hd.
  - destruct (retried_row_shape clock now i r Hj) as [Hst Hdl].
    assert (status_terminal r = false) as Ht.
    { unfold retry_due in Hd. open_guard. unfold status_terminal.
      by match goal with H : c_status _ = _ |- _ => rewrite H end. }
    rewrite (deadline_not_expired now i r _ He Ht Hdl).
    unfold lease_stale, retry_due, status_is. by destruct Hst as [-> | ->].
  - by rewrite Hl, He, Hd.
Qed.

Lemma promoted_fresh threshold now i r (b : bool) :
  (b = true → c_status r = "Waiting") → nothing_due threshold now i r = true →
  nothing_due threshold now i (if b then assign r (SetStatus "Pending") else r) = true.
Proof.
  intros Hb Hn. destruct b; [|done]. specialize (Hb eq_refl). unfold nothing_due in *.
  reflect_bools.
  assert (status_terminal r = false) as Ht by (unfold status_terminal; by rewrite Hb).
  rewrite (deadline_not_expired now i r) by (done || by destruct r).
  by destruct r.
Qed.

(** The rows after the first four steps. *)
Lemma sweep_rows ttl d now t1 t2 clock s :
  table_ok (jobs s) → all_json (jobs s) → from_std ttl = Some d →
  let s3 := (promote_retries clock now (cancel_expired_deadlines now
               (recover_stale_leases from_std ttl t1 t2 s).2).2).2 in
  (∀ i r, jobs s3 !! i = Some r → nothing_due (t1 - d) now i r = true)
  ∧ table_ok (jobs s3) ∧ waiting_decodable (jobs s3).
Proof.
  intros Hok Hj Hd. set (s1 := (recover_stale_leases from_std ttl t1 t2 s).2).
  set (s2 := (cancel_expired_deadlines now s1).2).
  pose proof (recover_evolve false from_std ttl t1 t2 s) as E1.
  pose proof (cancel_expired_evolve false now s1) as E2.
  assert (table_ok (jobs s2)) as Hok2 by (do 2 (eapply table_ok_evolve; [|done]); done).
  assert (all_json (jobs s2)) as Hj2 by (do 2 (eapply all_json_evolve; [|done]); done).
  pose proof (promote_retries_evolve clock now s2 Hok2) as E3. intros s3. split_and!.
  - intros i r. destruct (promote_retries_rows clock now s2 Hok2) as (ids & s3' & Hrun & _ & Hrows).
    { intros j rj Hrj _. destruct (Hj2 j rj Hrj) as [record Hrec]. unfold record_in in Hrec.
      by destruct (c_payload rj). }
    assert (s3 = s3') as -> by (unfold s3; fold s1 s2; by rewrite Hrun).
    rewrite Hrows. intros (r2 & Hr2 & ->)%fmap_Some. pose proof (Hj2 i r2 Hr2) as Hrec.
    unfold s2 in Hr2. rewrite expired_rows in Hr2. apply fmap_Some in Hr2 as (r1 & Hr1 & ->).
    unfold s1 in Hr1. rewrite (recover_rows ttl d) in Hr1 by done.
    apply fmap_Some in Hr1 as (r0 & Hr0 & ->).
    pose proof (recovered_fresh d t1 t2 r0) as Hf1.
    destruct (expired_fresh (t1 - d) now i _ Hf1) as [Hf2 Hf2'].
    by apply (retried_fresh (t1 - d) clock now i).
  - by eapply table_ok_evolve.
  - apply all_json_waiting. by eapply all_json_evolve.
Qed.
End sweep.

(** C24: one sweep settles everything that is due.  On a table that satisfies its
    invariant and whose payloads decode, after [run_sweep_once]: no running job has a
    lease that expired before the recovery threshold; no active job has an expired
    deadline; no failed job whose retry date has come is left; no waiting job that lists
    each of its dependencies once, all of them done, is left (one that lists a dependency
    twice stays stranded); and, given the database handle, no idempotency key
    older than 24 hours is left.  None of the later steps undoes what an earlier step
    settled. *)
Theorem sweep_settles_everything_due (from_std : Duration → option Duration) (ttl d : Duration)
    (now t1 t2 : DateTime) (clock : Ulid → DateTime * DateTime) (db : bool) (s : store) :
  table_ok (jobs s) → all_json (jobs s) → from_std ttl = Some d →
  let s' := run_sweep_once from_std ttl db now t1 t2 clock s in
  (∀ i r, jobs s' !! i = Some r →
     nothing_due (t1 - d) now i r = true
     ∧ stranded_candidate i r && column_ready (jobs s') r = false)
  ∧ (db = true → ∀ key job t, idempotency s' !! key = Some (job, t) → idempotency_cutoff now ≤ t).
Proof.
  intros Hok Hj Hd s'.
  destruct (sweep_rows from_std ttl d now t1 t2 clock s Hok Hj Hd) as (Hdue & Hok3 & Hw3).
  set (s3 := (promote_retries clock now _).2) in *.
  destruct (stranded_rows s3 Hok3 Hw3) as (n & s4 & Hrun & Hrows).
  assert (jobs s' = jobs s4) as Hs4.
  { unfold s', run_sweep_once. fold s3. rewrite Hrun. by destruct db. }
  split.
  - intros i r. rewrite Hs4. intros Hi. split; [|by apply (stranded_none_left s3 s4)].
    rewrite Hrows in Hi. apply fmap_Some in Hi as (r3 & Hr3 & ->).
    apply promoted_fresh; [|by apply Hdue]. unfold stranded_candidate. intros. by open_guard.
  - intros -> key job t. unfold s', run_sweep_once. cbn [snd idempotency_cleanup idempotency set_idempotency].
    intros [_ Ht]%map_lookup_filter_Some. simpl in Ht. lia.
Qed.

Lemma sweep_settles_witness :
  let s' := run_sweep_once sample_from_std (60 * one_second) true (500 * one_second)
              (500 * one_second) (500 * one_second) (λ _, (0, 0)) sample_failures in
  ∃ r, jobs s' !! 2%N = Some r ∧ retry_due (500 * one_second) 2%N r = false.
Proof.
  intros s'. assert (is_Some (jobs s' !! 2%N)) as [r Hr] by (vm_compute; eauto).
  exists r. split; [exact Hr|].
  destruct (sweep_settles_everything_due sample_from_std (60 * one_second) (60 * one_second)
    (500 * one_second) (500 * one_second) (500 * one_second) (λ _, (0, 0)) true sample_failures)
    as [Hrows _].
  - apply run_calls_ok; [reflexivity|apply map_Forall_empty].
  - apply (bool_decide_eq_true_1 _). vm_compute. reflexivity.
  - reflexivity.
  - destruct (Hrows 2%N r Hr) as [Hn _]. unfold nothing_due in Hn. by reflect_bools.
Defined.
