(* ===== verification/Facade.v ===== *)
(** * Facade: the [QueueStore] trait and its two implementations

    The trait of [crates/gradatum-core/src/job.rs] as an interface with its default
    methods, [SqliteQueueStore] as the implementation that overrides every default, and
    [GradatumQueue] ([crates/gradatum-queue/src/gradatum_queue.rs]) as the one that
    delegates some methods and inherits the defaults of the others. *)

From S2P Require Import Prelude Job QueueStore QueueLaws QueuePurge QueueRuns QueueDeps.

#[local] Open Scope Z_scope.

(** ** The interface *)

Class QueueStoreTrait := {
  t_enqueue : JobRecord → op Ulid;
  t_dequeue : option string → DateTime → DateTime → op (option JobRecord);
  t_dequeue_by_kind : string → option string → DateTime → DateTime → op (option JobRecord);
  t_get : Ulid → option string → op (option JobRecord);
  t_get_many : list Ulid → option string → op (list JobRecord);
  t_complete : Ulid → JobResult → DateTime → DateTime → op unit;
  t_complete_message_delivery : Ulid → JobResult → DateTime → DateTime → op unit;
  t_fail : Ulid → string → Z → DateTime → DateTime → op unit;
  t_cancel : Ulid → option string → DateTime → op unit;
  t_fail_dlq : Ulid → string → DateTime → DateTime → op unit;
  t_find_awaiting : Ulid → op (list JobRecord);
  t_set_pending : Ulid → op unit;
  t_recover_stale_leases : Duration → DateTime → DateTime → op (list Ulid);
  t_cancel_expired_deadlines : DateTime → op (list Ulid);
  t_promote_retries : (Ulid → DateTime * DateTime) → DateTime → op (list Ulid);
  t_schedule_retry : Ulid → DateTime → op unit;
  t_list : JobFilter → op (list JobRecord);
  t_count_jobs_by_status : option string → op (gmap JobStatus nat);
  t_dlq_counts_by_kind : op (gmap string nat);
  t_worker_lease_fresh : Z → op (option bool);
  t_delete_dlq_jobs : option DateTime → op nat;
  t_purge_terminal_payloads : option DateTime → op nat;
  t_count_dlq_jobs : option DateTime → op nat;
  t_promote_stranded_waiting_jobs : op Z;
  t_latest_job : option string → op (option JobRecord);
  t_mark_conflict : Ulid → string → Z → DateTime → DateTime → op unit;
}.

(** ** The default methods that [GradatumQueue] inherits *)

Definition default_count_jobs_by_status (_ : option string) : op (gmap JobStatus nat) := mret ∅.
Definition default_dlq_counts_by_kind : op (gmap string nat) := mret ∅.
Definition default_worker_lease_fresh (_ : Z) : op (option bool) := mret None.
Definition default_purge_terminal_payloads (_ : option DateTime) : op nat :=
  throw (NotImplemented "purge_terminal_payloads").
Definition default_count_dlq_jobs (_ : option DateTime) : op nat := mret 0%nat.
Definition default_promote_stranded_waiting_jobs : op Z := mret 0.
Definition default_latest_job (_ : option string) : op (option JobRecord) := mret None.

Section implementations.
Context (json_from_str : string → option JsonValue) (from_std : Duration → option Duration).

(** The default [mark_conflict]: [complete] with an unsuccessful result. *)
Definition default_mark_conflict (complete : Ulid → JobResult → DateTime → DateTime → op unit)
    (i : Ulid) (result_note_md : string) (duration_ms : Z) (now now' : DateTime) : op unit :=
  complete i (mkJobResult false duration_ms None None (json_from_str result_note_md)) now now'.

Definition SqliteQueueStore : QueueStoreTrait := {|
  t_enqueue := enqueue;
  t_dequeue := dequeue;
  t_dequeue_by_kind := dequeue_by_kind;
  t_get := get;
  t_get_many := get_many;
  t_complete := complete;
  t_complete_message_delivery := complete_message_delivery;
  t_fail := fail;
  t_cancel := cancel;
  t_fail_dlq := fail_dlq;
  t_find_awaiting := find_awaiting;
  t_set_pending := set_pending;
  t_recover_stale_leases := recover_stale_leases from_std;
  t_cancel_expired_deadlines := cancel_expired_deadlines;
  t_promote_retries := promote_retries;
  t_schedule_retry := schedule_retry;
  t_list := list_jobs;
  t_count_jobs_by_status := count_jobs_by_status;
  t_dlq_counts_by_kind := dlq_counts_by_kind;
  t_worker_lease_fresh := worker_lease_fresh;
  t_delete_dlq_jobs := delete_dlq_jobs;
  t_purge_terminal_payloads := purge_terminal_payloads;
  t_count_dlq_jobs := count_dlq_jobs;
  t_promote_stranded_waiting_jobs := promote_stranded_waiting_jobs;
  t_latest_job := latest_job;
  t_mark_conflict := mark_conflict json_from_str;
|}.

(** [impl QueueStore for GradatumQueue]: [self.inner.method(…)] where the method is
    written, the default where it is not. *)
Definition GradatumQueue (inner : QueueStoreTrait) : QueueStoreTrait := {|
  t_enqueue := @t_enqueue inner;
  t_dequeue := @t_dequeue inner;
  t_dequeue_by_kind := @t_dequeue_by_kind inner;
  t_get := @t_get inner;
  t_get_many := @t_get_many inner;
  t_complete := @t_complete inner;
  t_complete_message_delivery := @t_complete_message_delivery inner;
  t_fail := @t_fail inner;
  t_cancel := @t_cancel inner;
  t_fail_dlq := @t_fail_dlq inner;
  t_find_awaiting := @t_find_awaiting inner;
  t_set_pending := @t_set_pending inner;
  t_recover_stale_leases := @t_recover_stale_leases inner;
  t_cancel_expired_deadlines := @t_cancel_expired_deadlines inner;
  t_promote_retries := @t_promote_retries inner;
  t_schedule_retry := @t_schedule_retry inner;
  t_list := @t_list inner;
  t_count_jobs_by_status := default_count_jobs_by_status;
  t_dlq_counts_by_kind := default_dlq_counts_by_kind;
  t_worker_lease_fresh := default_worker_lease_fresh;
  t_delete_dlq_jobs := @t_delete_dlq_jobs inner;
  t_purge_terminal_payloads := default_purge_terminal_payloads;
  t_count_dlq_jobs := default_count_dlq_jobs;
  t_promote_stranded_waiting_jobs := default_promote_stranded_waiting_jobs;
  t_latest_job := default_latest_job;
  t_mark_conflict := default_mark_conflict (@t_complete inner);
|}.
End implementations.

(** The status column of a job. *)
Definition column (i : Ulid) (s : store) : option string := c_status <$> jobs s !! i.

(** The facade does not record conflicts.  For a job its worker holds under a live
    lease, [mark_conflict] on [SqliteQueueStore] leaves the row [Conflict]; on
    [GradatumQueue], which inherits the default of the trait, the same call leaves it
    [Done], so a rejected write reads as a success; and the facade's purge always
    answers [NotImplemented] and its catch-up sweep always [Ok(0)], without touching
    the store. *)
Theorem facade_mark_conflict_completes (json_from_str : string → option JsonValue)
    (from_std : Duration → option Duration) (i : Ulid) (md : string) (ms : Z)
    (now now' : DateTime) (s : store) (r : row) (record : JobRecord) :
  table_ok (jobs s) → jobs s !! i = Some r → c_payload r = Json record →
  c_status r = "Running" → leased now r = true →
  let inner := SqliteQueueStore json_from_str from_std in
  let facade := GradatumQueue json_from_str inner in
  column i (@t_mark_conflict inner i md ms now now' s).2 = Some "Conflict"
  ∧ (@t_mark_conflict facade i md ms now now' s).1 = Ok ()
  ∧ column i (@t_mark_conflict facade i md ms now now' s).2 = Some "Done"
  ∧ (∀ o, @t_purge_terminal_payloads facade o s
          = (Err (NotImplemented "purge_terminal_payloads"), s))
  ∧ @t_promote_stranded_waiting_jobs facade s = (Ok 0, s).
Proof.
  intros Hok Hi Hp Hr Hl inner facade.
  assert (status (lifecycle record) ≠ Conflict) as Hc.
  { destruct (ok_payload _ _ (Hok _ _ Hi) _ Hp) as (_ & _ & _ & Hc).
    intros ?%Hc. by rewrite (running_not_terminal _ Hr) in *. }
  cbn [facade inner GradatumQueue SqliteQueueStore t_mark_conflict t_complete
       t_purge_terminal_payloads t_promote_stranded_waiting_jobs].
  split_and!; [| | |done|done].
  - unfold mark_conflict, column. rewrite Hi, Hp. cbn [deserialize_record snd jobs publish set_jobs].
    rewrite lookup_update_where, Hi. cbn [fmap option_fmap option_map]. rewrite has_id_self.
    by destruct r.
  - unfold default_mark_conflict, complete, mbind, op_bind.
    by rewrite (complete_tx_updates _ _ _ _ _ _ _ Hi Hp Hr Hl Hc).
  - unfold default_mark_conflict, complete, mbind, op_bind.
    rewrite (complete_tx_updates _ _ _ _ _ _ _ Hi Hp Hr Hl Hc). unfold column, complete_announce.
    cbn [snd].
    rewrite (cascade_spares i i _ (done_row
      (mkJobResult false ms None None (json_from_str md)) now now' record r)); [by destruct r| |].
    + cbn [jobs publish set_jobs]. apply lookup_insert_eq.
    + by destruct r.
Qed.

Lemma facade_witness :
  let inner := SqliteQueueStore sample_json sample_from_std in
  column 1%N (@t_mark_conflict (GradatumQueue sample_json inner) 1%N "{}" 5 20 21 sample_dag).2
  = Some "Done".
Proof.
  intros inner.
  apply (facade_mark_conflict_completes sample_json sample_from_std 1%N "{}" 5 20 21 sample_dag
    (assign_all [SetStatus "Running"; SetLeaseUntil (Some (10 + nanoseconds 300));
                 SetStartedAt (Some 10); IncrAttemptCount]
      (row_of_record (sample_job 1%N Pending (sample_curate "main") Normal 0 [])))
    (sample_job 1%N Pending (sample_curate "main") Normal 0 []) sample_dag_ok);
    vm_compute; reflexivity.
Defined.
