(* ===== verification/Scope.v ===== *)
(** * Scope: identifiers, grants, trust

    Models [crates/gradatum-core/src/scope.rs] (the validated identifiers, the access
    grants and the life cycle of a tenant) and [crates/gradatum-core/src/trust.rs] (who
    is calling).  An error carries the offending text and the rule it breaks instead of
    the formatted message. *)

From S2P Require Import Prelude Job.
From Stdlib Require Import Ascii.

#[local] Open Scope nat_scope.

(** ** Characters *)

Definition char_between (lo hi : Ascii.ascii) (c : Ascii.ascii) : bool :=
  (Ascii.nat_of_ascii lo <=? Ascii.nat_of_ascii c) && (Ascii.nat_of_ascii c <=? Ascii.nat_of_ascii hi).
Definition is_ascii_lowercase : Ascii.ascii → bool := char_between "a"%char "z"%char.
Definition is_ascii_digit : Ascii.ascii → bool := char_between "0"%char "9"%char.
Definition is_char (a c : Ascii.ascii) : bool := Ascii.eqb c a.

(** [s.chars().all(f)].  A non-ASCII character is a sequence of bytes of at least
    128, all of which an ASCII predicate refuses. *)
Fixpoint all_chars (f : Ascii.ascii → bool) (s : string) : bool :=
  match s with EmptyString => true | String c s' => f c && all_chars f s' end.

(** [s.starts_with(c)], [s.ends_with(c)], [s.contains(c)]. *)
Definition starts_with (c : Ascii.ascii) (s : string) : bool :=
  match s with EmptyString => false | String d _ => is_char c d end.
Fixpoint ends_with (c : Ascii.ascii) (s : string) : bool :=
  match s with
  | EmptyString => false
  | String d EmptyString => is_char c d
  | String _ s' => ends_with c s'
  end.
Fixpoint contains_char (c : Ascii.ascii) (s : string) : bool :=
  match s with EmptyString => false | String d s' => is_char c d || contains_char c s' end.

(** [s.contains("cc")] for a doubled character. *)
Fixpoint contains_double (c : Ascii.ascii) (s : string) : bool :=
  match s with
  | EmptyString => false
  | String d s' => (is_char c d && starts_with c s') || contains_double c s'
  end.

(** ** Identifiers *)

Inductive id_rule := RuleEmpty | RuleTooLong | RuleCharset | RuleDash | RuleTraversal | RuleSlash.

Inductive ValidationError :=
| InvalidVaultId (rule : id_rule) (s : string)
| InvalidAgentId (rule : id_rule) (s : string)
| InvalidLocusId (rule : id_rule) (s : string).

Definition VAULT_ID_MAX_LEN : nat := 64.
Definition AGENT_ID_MAX_LEN : nat := 64.
Definition LOCUS_MAX_LEN : nat := 128.

(** [#[serde(transparent)]] newtypes over a string. *)
Abbreviation VaultId := string.
Abbreviation TenantId := string.
Abbreviation AgentId := string.
Abbreviation LocusId := string.

Definition id_char (c : Ascii.ascii) : bool :=
  is_ascii_lowercase c || is_ascii_digit c || is_char "-"%char c.

Definition VaultId_parse (s : string) : result VaultId ValidationError :=
  if String.eqb s "" then Err (InvalidVaultId RuleEmpty s)
  else if VAULT_ID_MAX_LEN <? String.length s then Err (InvalidVaultId RuleTooLong s)
  else if negb (all_chars id_char s) then Err (InvalidVaultId RuleCharset s)
  else if starts_with "-"%char s || ends_with "-"%char s then Err (InvalidVaultId RuleDash s)
  else Ok s.

Definition TenantId_parse (s : string) : result TenantId ValidationError :=
  if String.eqb s "" then Err (InvalidVaultId RuleEmpty s)
  else if VAULT_ID_MAX_LEN <? String.length s then Err (InvalidVaultId RuleTooLong s)
  else if negb (all_chars id_char s) then Err (InvalidVaultId RuleCharset s)
  else if starts_with "-"%char s || ends_with "-"%char s then Err (InvalidVaultId RuleDash s)
  else Ok s.

Definition AgentId_parse (s : string) : result AgentId ValidationError :=
  if String.eqb s "" then Err (InvalidAgentId RuleEmpty s)
  else if AGENT_ID_MAX_LEN <? String.length s then Err (InvalidAgentId RuleTooLong s)
  else if negb (all_chars id_char s) then Err (InvalidAgentId RuleCharset s)
  else if starts_with "-"%char s || ends_with "-"%char s then Err (InvalidAgentId RuleDash s)
  else Ok s.

Definition locus_char (c : Ascii.ascii) : bool := id_char c || is_char "/"%char c.

Definition LocusId_parse (s : string) : result LocusId ValidationError :=
  if String.eqb s "" then Err (InvalidLocusId RuleEmpty s)
  else if LOCUS_MAX_LEN <? String.length s then Err (InvalidLocusId RuleTooLong s)
  else if negb (all_chars locus_char s) then Err (InvalidLocusId RuleCharset s)
  else if contains_double "."%char s then Err (InvalidLocusId RuleTraversal s)
  else if starts_with "/"%char s || ends_with "/"%char s || contains_double "/"%char s
       then Err (InvalidLocusId RuleSlash s)
  else Ok s.

(** ** Grants *)

Inductive GrantAccess := GrantRead | GrantWrite.

Definition GrantAccess_as_db_str (a : GrantAccess) : string :=
  match a with GrantRead => "read" | GrantWrite => "write" end.

Definition GrantAccess_from_db_str (s : string) : option GrantAccess :=
  if String.eqb s "read" then Some GrantRead
  else if String.eqb s "write" then Some GrantWrite
  else None.

Definition allows_write (a : GrantAccess) : bool :=
  match a with GrantWrite => true | GrantRead => false end.

Record VaultGrant := mkVaultGrant {
  vg_tenant_id : TenantId;
  vg_vault_id : VaultId;
  vg_access : GrantAccess;
  vg_section : option string;
}.

Record AgentVaultGrant := mkAgentVaultGrant {
  ag_agent_id : AgentId;
  ag_vault_id : VaultId;
  ag_access : GrantAccess;
  ag_section : option string;
}.

(** [covers_section], the same table for both kinds of grant. *)
Definition covers (section requested : option string) : bool :=
  match section, requested with
  | None, _ => true
  | Some granted, Some requested => String.eqb granted requested
  | Some _, None => false
  end.

Definition VaultGrant_covers_section (g : VaultGrant) (requested : option string) : bool :=
  covers (vg_section g) requested.

Definition AgentVaultGrant_covers_section (g : AgentVaultGrant) (requested : option string) : bool :=
  covers (ag_section g) requested.

(** ** Tenants *)

Inductive TenantStatus := Active | Suspended | Deleted.

Definition TenantStatus_as_db_str (s : TenantStatus) : string :=
  match s with Active => "active" | Suspended => "suspended" | Deleted => "deleted" end.

Definition TenantStatus_from_db_str (s : string) : option TenantStatus :=
  if String.eqb s "active" then Some Active
  else if String.eqb s "suspended" then Some Suspended
  else if String.eqb s "deleted" then Some Deleted
  else None.

(** ** Trust *)

Inductive StudioScope := ReadOnly | Operator | Admin.

Inductive TrustContext :=
| Unauthenticated
| BearerToken (kid aud : string) (sub : AgentId) (scopes : list string)
    (tenant_id : TenantId) (jti : option string)
| Mtls (cn : string) (fingerprint_sha256 : list Byte.byte)
| Studio (user : string) (scope : StudioScope) (step_up_until : option DateTime).

Definition is_authenticated (t : TrustContext) : bool :=
  match t with Unauthenticated => false | _ => true end.

Definition has_scope (t : TrustContext) (scope : string) : bool :=
  match t with BearerToken _ _ _ scopes _ _ => bool_decide (scope ∈ scopes) | _ => false end.

Definition is_service_bearer (t : TrustContext) : bool :=
  match t with BearerToken _ _ _ scopes _ _ => bool_decide ("service" ∈ scopes) | _ => false end.

Definition trust_tenant_id (t : TrustContext) : option TenantId :=
  match t with BearerToken _ _ _ _ tenant_id _ => Some tenant_id | _ => None end.

Definition subject (t : TrustContext) : option AgentId :=
  match t with BearerToken _ _ sub _ _ _ => Some sub | _ => None end.

(** [WRITE_SCOPES] and [has_write_scope] of gradatum-acl-auth. *)
Definition WRITE_SCOPES : list string := ["write"; "admin"; "service"].

Definition has_write_scope (scopes : list string) : bool :=
  existsb (λ s, bool_decide (s ∈ WRITE_SCOPES)) scopes.

(** ** What the identifiers guarantee *)

(** The pieces of a locus between slashes. *)
Fixpoint segments (s : string) : list string :=
  match s with
  | EmptyString => [""]
  | String c s' =>
      if is_char "/"%char c then "" :: segments s'
      else match segments s' with
           | seg :: rest => String c seg :: rest
           | [] => [String c ""]
           end
  end.

Definition segment_ok (seg : string) : bool := negb (String.eqb seg "") && all_chars id_char seg.

Definition rest_ok (l : list string) : bool :=
  match l with [] => true | h :: l' => all_chars id_char h && forallb segment_ok l' end.

Lemma segments_nonempty s : segments s ≠ [].
Proof. destruct s as [|c s]; simpl; [done|]. by repeat case_match. Qed.

Lemma is_char_true a c : is_char a c = true → c = a.
Proof. apply Ascii.eqb_eq. Qed.

Lemma locus_char_split c :
  is_char "/"%char c = false → locus_char c = id_char c.
Proof. intros H. unfold locus_char. by rewrite H, orb_false_r. Qed.

(** The two halves of the argument: a locus is checked from its start, or from inside
    a segment that already has a character. *)
Lemma segments_checked s :
  forallb segment_ok (segments s)
  = negb (String.eqb s "") && all_chars locus_char s && negb (starts_with "/"%char s)
    && negb (ends_with "/"%char s) && negb (contains_double "/"%char s)
  ∧ rest_ok (segments s)
    = all_chars locus_char s && negb (ends_with "/"%char s) && negb (contains_double "/"%char s).
Proof.
  induction s as [|c s [IHp IHq]]; [done|].
  assert (ends_with "/"%char (String c s)
          = if String.eqb s "" then is_char "/"%char c else ends_with "/"%char s) as He
    by by destruct s.
  cbn [segments all_chars starts_with contains_double]. rewrite He.
  destruct (is_char "/"%char c) eqn:Ec.
  - apply is_char_true in Ec. subst c. split; [by rewrite andb_false_r|]. cbn [rest_ok forallb].
    change (all_chars id_char "") with true. rewrite IHp.
    change (locus_char "/"%char) with true. simpl.
    destruct (String.eqb s "") eqn:Es; [by rewrite ?andb_false_r|].
    by destruct (all_chars locus_char s), (starts_with "/"%char s), (ends_with "/"%char s),
      (contains_double "/"%char s).
  - destruct (segments s) as [|h l] eqn:El; [by destruct (segments_nonempty s)|].
    assert (all_chars id_char (String c h) = id_char c && all_chars id_char h) as Hc by done.
    cbn [rest_ok forallb] in *. unfold segment_ok at 1. rewrite Hc, locus_char_split by done.
    cbn [String.eqb negb andb].
    destruct (String.eqb s "") eqn:Es.
    + apply String.eqb_eq in Es. subst s. simpl in El. simplify_eq. simpl.
      by destruct (id_char c).
    + split; destruct (id_char c); simpl; by rewrite ?IHq, ?andb_true_r.
Qed.

Lemma no_dot_in_locus s : all_chars locus_char s = true → contains_double "."%char s = false.
Proof.
  induction s as [|c s IH]; [done|]. cbn [all_chars contains_double]. intros [Hc Hs]%andb_true_iff.
  rewrite IH by done. destruct (is_char "."%char c) eqn:E; [|done].
  apply is_char_true in E. by subst c.
Qed.

(** The canonical identifiers of at most [n] characters. *)
Definition canonical_id (n : nat) (s : string) : bool :=
  segment_ok s && (String.length s <=? n) && negb (starts_with "-"%char s)
  && negb (ends_with "-"%char s).

(** Identifiers are what they promise.  [VaultId::parse], [TenantId::parse] and
    [AgentId::parse] accept exactly the non-empty texts of at most 64 characters among
    [a-z0-9-] without a leading or trailing hyphen, unchanged; [LocusId::parse] accepts
    exactly the texts of at most 128 characters all of whose slash-separated segments are
    non-empty and made of [a-z0-9-].  In particular no accepted locus has an empty
    segment or a segment [..]. *)
Theorem id_parse_exact (s : string) :
  (is_ok (VaultId_parse s) = canonical_id VAULT_ID_MAX_LEN s)
  ∧ (is_ok (AgentId_parse s) = canonical_id AGENT_ID_MAX_LEN s)
  ∧ (is_ok (TenantId_parse s) = is_ok (VaultId_parse s))
  ∧ (is_ok (LocusId_parse s)
     = forallb segment_ok (segments s) && (String.length s <=? LOCUS_MAX_LEN))
  ∧ (∀ v, VaultId_parse s = Ok v ∨ TenantId_parse s = Ok v ∨ AgentId_parse s = Ok v
          ∨ LocusId_parse s = Ok v → v = s)
  ∧ (is_ok (LocusId_parse s) = true → ("" ∉ segments s) ∧ (".." ∉ segments s)).
Proof.
  assert (∀ n, (n <? String.length s) = negb (String.length s <=? n)) as Hlen
    by (intros n; apply Nat.ltb_antisym).
  assert (is_ok (LocusId_parse s)
    = forallb segment_ok (segments s) && (String.length s <=? LOCUS_MAX_LEN)) as Hlocus.
  { unfold LocusId_parse. rewrite (proj1 (segments_checked s)), Hlen.
    destruct (String.eqb s ""); [done|]. simpl.
    destruct (String.length s <=? LOCUS_MAX_LEN); [|by rewrite andb_false_r]. simpl.
    rewrite andb_true_r. destruct (all_chars locus_char s) eqn:Ha; [|done]. simpl.
    rewrite no_dot_in_locus by done.
    by destruct (starts_with "/"%char s), (ends_with "/"%char s), (contains_double "/"%char s). }
  split_and!; [| | |done| |].
  - unfold VaultId_parse, canonical_id, segment_ok. rewrite Hlen. destruct (String.eqb s ""); [done|].
    by destruct (String.length s <=? VAULT_ID_MAX_LEN), (all_chars id_char s), (starts_with "-"%char s),
      (ends_with "-"%char s).
  - unfold AgentId_parse, canonical_id, segment_ok. rewrite Hlen. destruct (String.eqb s ""); [done|].
    by destruct (String.length s <=? AGENT_ID_MAX_LEN), (all_chars id_char s), (starts_with "-"%char s),
      (ends_with "-"%char s).
  - done.
  - intros v. unfold VaultId_parse, TenantId_parse, AgentId_parse, LocusId_parse.
    intros [H|[H|[H|H]]]; revert H; repeat case_match; congruence.
  - rewrite Hlocus, andb_true_iff, forallb_forall. intros [Hall _].
    split; intros Hin%list_elem_of_In%Hall; done.
Qed.

(** What the database says about rights.  Access levels and tenant states
    round-trip through their column texts, and any other text reads as nothing: a
    corrupted row never grants access nor revives a tenant.  A grant bounded to a
    section covers that section alone, in particular no vault-wide request; a vault-wide
    grant covers everything. *)
Theorem grants_read_back_fail_closed (a : GrantAccess) (st : TenantStatus) (text : string)
    (section requested : option string) :
  (GrantAccess_from_db_str text = Some a ↔ text = GrantAccess_as_db_str a)
  ∧ (TenantStatus_from_db_str text = Some st ↔ text = TenantStatus_as_db_str st)
  ∧ (covers section requested = true ↔ section = None ∨ (section = requested ∧ requested ≠ None)).
Proof.
  split_and!.
  - unfold GrantAccess_from_db_str, GrantAccess_as_db_str.
    split; [|intros ->; by destruct a].
    repeat (case_match; reflect_bools; [intros [= <-]; done|]). done.
  - unfold TenantStatus_from_db_str, TenantStatus_as_db_str.
    split; [|intros ->; by destruct st].
    repeat (case_match; reflect_bools; [intros [= <-]; done|]). done.
  - destruct section as [g|], requested as [q|]; simpl.
    + rewrite String.eqb_eq. naive_solver.
    + naive_solver.
    + naive_solver.
    + naive_solver.
Qed.
