(* ===== verification/Acl.v ===== *)
(** * Acl: the access-control policy engine

    Models [crates/gradatum-acl-policy/src/lib.rs]: a preset of consumers is compiled
    once into allow and deny glob sets, and every request is evaluated against them.
    Glob syntax belongs to the globset crate: it enters as the class [Globset], whose
    only law is the documented meaning of a set (it matches when one of its globs
    does).  The TOML reader is outside the model: a preset starts as the parsed
    document. *)

From S2P Require Import Prelude Job Scope.
From Stdlib Require Import Ascii.

#[local] Open Scope nat_scope.

(** ** What the engine relies on from globset *)

Class Globset := {
  Glob : Type;
  GlobSet : Type;
  GlobError : Type;
  glob_new : string → result Glob GlobError;
  set_build : list Glob → result GlobSet GlobError;
  glob_is_match : Glob → string → bool;
  set_is_match : GlobSet → string → bool;
  (** [GlobSet::is_match] is true if any glob in the set matches the path. *)
  set_is_match_any gs s path :
    set_build gs = Ok s → set_is_match s path = existsb (λ g, glob_is_match g path) gs;
}.

(** ** Operations, decisions, errors *)

Inductive AclOp := AclRead | AclWrite.
Inductive AclDecision := Allow | DenyExplicit | DenyImplicit.
#[export] Instance AclDecision_eq_dec : EqDecision AclDecision.
Proof. solve_decision. Defined.

(** A parsed consumer table: its keys, and its typed content when it has one. *)
Record ConsumerEntry := mkConsumerEntry {
  identity : string;
  read_patterns : list string;
  write_patterns : list string;
}.

Section engine.
Context {GS : Globset}.

Inductive AclError :=
| AclToml
| AclGlob (e : GlobError)
| RemovedPresetField (field : string).

Record CompiledConsumer := mkCompiledConsumer {
  cc_identity : string;
  read_allow : GlobSet;
  read_deny : GlobSet;
  write_allow : GlobSet;
  write_deny : GlobSet;
}.

Record AclEngine := mkAclEngine { consumers : list CompiledConsumer }.

(** ** Compilation *)

(** [p.strip_prefix('!')]. *)
Definition strip_bang (p : string) : option string :=
  match p with
  | String c rest => if is_char "!"%char c then Some rest else None
  | EmptyString => None
  end.

Definition glob_new_checked (p : string) : result Glob AclError := map_err AclGlob (glob_new p).

(** The loop of [split_patterns] over its two builders. *)
Fixpoint split_loop (patterns : list string) (allow_b deny_b : list Glob) :
    result (list Glob * list Glob) AclError :=
  match patterns with
  | [] => Ok (allow_b, deny_b)
  | p :: patterns' =>
      match strip_bang p with
      | Some rest => g ?<- glob_new_checked rest; split_loop patterns' allow_b (deny_b ++ [g])
      | None => g ?<- glob_new_checked p; split_loop patterns' (allow_b ++ [g]) deny_b
      end
  end.

Definition split_patterns (patterns : list string) : result (GlobSet * GlobSet) AclError :=
  builders ?<- split_loop patterns [] [];
  allow ?<- map_err AclGlob (set_build builders.1);
  deny ?<- map_err AclGlob (set_build builders.2);
  Ok (allow, deny).

Definition compile_consumer (c : ConsumerEntry) : result CompiledConsumer AclError :=
  reads ?<- split_patterns (read_patterns c);
  writes ?<- split_patterns (write_patterns c);
  Ok (mkCompiledConsumer (identity c) reads.1 reads.2 writes.1 writes.2).

(** A [consumer] item of the document: the keys of the table, when it is one, and what
    it deserialises to. *)
Record toml_consumer := mkTomlConsumer {
  table_keys : option (list string);
  typed : option ConsumerEntry;
}.

Definition REMOVED_FIELD_SEES_PERSONAL_CLASSIFIED : string := "sees_personal_classified".

(** The [consumer] key of the parsed document. *)
Inductive toml_doc :=
| NoConsumerKey
| ConsumerNotArray
| ConsumerArray (items : list toml_consumer).

Definition reject_removed_preset_field (doc : toml_doc) : result unit AclError :=
  match doc with
  | ConsumerArray consumers =>
      if existsb (λ c, match table_keys c with
                       | Some keys => bool_decide (REMOVED_FIELD_SEES_PERSONAL_CLASSIFIED ∈ keys)
                       | None => false
                       end) consumers
      then Err (RemovedPresetField REMOVED_FIELD_SEES_PERSONAL_CLASSIFIED)
      else Ok tt
  | _ => Ok tt
  end.

(** [doc.try_into::<AclPreset>()]: an absent key defaults to no consumer. *)
Definition try_into_preset (doc : toml_doc) : result (list ConsumerEntry) AclError :=
  match doc with
  | NoConsumerKey => Ok []
  | ConsumerNotArray => Err AclToml
  | ConsumerArray items =>
      collect_results (λ c, match typed c with Some e => Ok e | None => Err AclToml end) items
  end.

Definition compile_all (entries : list ConsumerEntry) : result (list CompiledConsumer) AclError :=
  collect_results compile_consumer entries.

(** [from_preset_str] after [toml::from_str]. *)
Definition from_preset_doc (doc : toml_doc) : result AclEngine AclError :=
  _ ?<- reject_removed_preset_field doc;
  preset ?<- try_into_preset doc;
  consumers ?<- compile_all preset;
  Ok (mkAclEngine consumers).

(** ** Evaluation *)

Definition has_identity (self : AclEngine) (agent : AgentId) : bool :=
  existsb (λ c, String.eqb (cc_identity c) agent) (consumers self).

(** Step 1: who asks, and for which tenant. *)
Definition caller (trust : TrustContext) : option (string * option TenantId) :=
  match trust with
  | Unauthenticated => None
  | BearerToken _ _ sub _ tenant_id _ => Some (sub, Some tenant_id)
  | Studio user _ _ => Some (user, None)
  | Mtls cn _ => Some (cn, None)
  end.

(** Step 3: the locus is the root of another tenant. *)
Definition foreign_root (token_tenant : option TenantId) (locus : string) : bool :=
  match token_tenant with
  | Some tid =>
      negb (contains_char "/"%char locus) && negb (String.eqb locus "")
      && negb (String.eqb locus tid)
  | None => false
  end.

Definition evaluate (self : AclEngine) (trust : TrustContext) (op : AclOp) (locus : string) :
    AclDecision :=
  match caller trust with
  | None => DenyImplicit
  | Some (who, token_tenant) =>
      match find (λ c, String.eqb (cc_identity c) who) (consumers self) with
      | None => DenyImplicit
      | Some c =>
          if foreign_root token_tenant locus then DenyExplicit
          else
            let '(allow, deny) := match op with
                                  | AclRead => (read_allow c, read_deny c)
                                  | AclWrite => (write_allow c, write_deny c)
                                  end in
            if set_is_match deny locus then DenyExplicit
            else if set_is_match allow locus then Allow
            else DenyImplicit
      end
  end.

Definition messaging_channel_locus (recipient_identity : string) : string :=
  String.append "messaging/" recipient_identity.

Definition evaluate_messaging_send (self : AclEngine) (trust : TrustContext)
    (recipient_identity : string) : AclDecision :=
  evaluate self trust AclWrite (messaging_channel_locus recipient_identity).

(** ** The policy a preset states

    Read off the text of the preset, without any compiled form: a pattern speaks when
    its glob matches, and a [!] makes it a refusal. *)

Definition glob_text_matches (p locus : string) : bool :=
  match glob_new p with Ok g => glob_is_match g locus | Err _ => false end.

Definition refuses (locus p : string) : bool :=
  match strip_bang p with Some rest => glob_text_matches rest locus | None => false end.
Definition permits (locus p : string) : bool :=
  match strip_bang p with Some _ => false | None => glob_text_matches p locus end.

Definition patterns_of (op : AclOp) (e : ConsumerEntry) : list string :=
  match op with AclRead => read_patterns e | AclWrite => write_patterns e end.

Definition policy (entries : list ConsumerEntry) (trust : TrustContext) (op : AclOp)
    (locus : string) : AclDecision :=
  match caller trust with
  | None => DenyImplicit
  | Some (who, token_tenant) =>
      match find (λ e, String.eqb (identity e) who) entries with
      | None => DenyImplicit
      | Some e =>
          if foreign_root token_tenant locus || existsb (refuses locus) (patterns_of op e)
          then DenyExplicit
          else if existsb (permits locus) (patterns_of op e) then Allow
          else DenyImplicit
      end
  end.

(** ** Compilation keeps the meaning of patterns *)

Lemma glob_new_checked_Ok p g locus :
  glob_new_checked p = Ok g → glob_text_matches p locus = glob_is_match g locus.
Proof.
  unfold glob_new_checked, glob_text_matches. destruct (glob_new p); simpl; congruence.
Qed.

Lemma split_loop_matches patterns allow_b deny_b r locus :
  split_loop patterns allow_b deny_b = Ok r →
  existsb (λ g, glob_is_match g locus) r.1
  = existsb (λ g, glob_is_match g locus) allow_b || existsb (permits locus) patterns
  ∧ existsb (λ g, glob_is_match g locus) r.2
    = existsb (λ g, glob_is_match g locus) deny_b || existsb (refuses locus) patterns.
Proof.
  revert allow_b deny_b. induction patterns as [|p patterns IH]; intros allow_b deny_b.
  { intros [= <-]. simpl. by rewrite !orb_false_r. }
  cbn [split_loop existsb]. unfold permits at 1, refuses at 1.
  destruct (strip_bang p) as [rest|].
  - destruct (glob_new_checked rest) as [g|] eqn:Eg; cbn [result_bind]; [|done].
    intros [-> ->]%IH. rewrite existsb_app, (glob_new_checked_Ok _ _ locus Eg). simpl.
    by rewrite orb_false_r, orb_assoc.
  - destruct (glob_new_checked p) as [g|] eqn:Eg; cbn [result_bind]; [|done].
    intros [-> ->]%IH. rewrite existsb_app, (glob_new_checked_Ok _ _ locus Eg). simpl.
    by rewrite orb_false_r, orb_assoc.
Qed.

Lemma split_patterns_matches patterns allow deny locus :
  split_patterns patterns = Ok (allow, deny) →
  set_is_match allow locus = existsb (permits locus) patterns
  ∧ set_is_match deny locus = existsb (refuses locus) patterns.
Proof.
  unfold split_patterns. destruct (split_loop patterns [] []) as [r|] eqn:El; simpl; [|done].
  destruct (set_build r.1) as [a|] eqn:Ea; simpl; [|done].
  destruct (set_build r.2) as [d|] eqn:Ed; simpl; [|done]. intros [= <- <-].
  rewrite (set_is_match_any _ _ locus Ea), (set_is_match_any _ _ locus Ed).
  by destruct (split_loop_matches _ _ _ _ locus El) as [-> ->].
Qed.

(** A compiled consumer stands for its entry. *)
Definition stands_for (c : CompiledConsumer) (e : ConsumerEntry) : Prop :=
  cc_identity c = identity e
  ∧ (∀ locus, set_is_match (read_allow c) locus = existsb (permits locus) (read_patterns e)
              ∧ set_is_match (read_deny c) locus = existsb (refuses locus) (read_patterns e))
  ∧ (∀ locus, set_is_match (write_allow c) locus = existsb (permits locus) (write_patterns e)
              ∧ set_is_match (write_deny c) locus = existsb (refuses locus) (write_patterns e)).

Lemma compile_consumer_stands_for e c : compile_consumer e = Ok c → stands_for c e.
Proof.
  unfold compile_consumer.
  destruct (split_patterns (read_patterns e)) as [[ra rd]|] eqn:Er; simpl; [|done].
  destruct (split_patterns (write_patterns e)) as [[wa wd]|] eqn:Ew; simpl; [|done].
  intros [= <-]. split_and!; [done|..]; intros locus; by apply split_patterns_matches.
Qed.

Lemma find_stands_for who entries cs :
  Forall2 stands_for cs entries →
  match find (λ c, String.eqb (cc_identity c) who) cs,
        find (λ e, String.eqb (identity e) who) entries with
  | Some c, Some e => stands_for c e
  | None, None => True
  | _, _ => False
  end.
Proof.
  induction 1 as [|c e cs es Hce _ IH]; [done|]. simpl.
  rewrite (proj1 Hce). by destruct (String.eqb (identity e) who).
Qed.

Lemma compile_all_stands_for entries cs :
  compile_all entries = Ok cs → Forall2 stands_for cs entries.
Proof.
  intros H%collect_results_Ok. apply Forall2_flip.
  eapply Forall2_impl; [done|]. intros e c. apply compile_consumer_stands_for.
Qed.

Lemma evaluate_policy entries cs trust op locus :
  compile_all entries = Ok cs → evaluate (mkAclEngine cs) trust op locus = policy entries trust op locus.
Proof.
  intros Hc%compile_all_stands_for. unfold evaluate, policy.
  destruct (caller trust) as [[who token_tenant]|]; [|done]. cbn [consumers].
  pose proof (find_stands_for who _ _ Hc) as Hf.
  destruct (find _ cs) as [c|], (find _ entries) as [e|]; try done.
  destruct Hf as (_ & Hr & Hw). destruct (foreign_root token_tenant locus); [done|].
  destruct op; simpl.
  - by destruct (Hr locus) as [-> ->].
  - by destruct (Hw locus) as [-> ->].
Qed.

Definition doc_items (doc : toml_doc) : list toml_consumer :=
  match doc with ConsumerArray items => items | _ => [] end.

Lemma from_preset_doc_engine doc engine :
  from_preset_doc doc = Ok engine →
  ∃ entries cs, try_into_preset doc = Ok entries ∧ compile_all entries = Ok cs
                ∧ engine = mkAclEngine cs.
Proof.
  unfold from_preset_doc. destruct (reject_removed_preset_field doc); simpl; [|done].
  destruct (try_into_preset doc) as [entries|]; simpl; [|done].
  destruct (compile_all entries) as [cs|] eqn:Ec; simpl; [|done]. intros [= <-]. eauto.
Qed.

(** C38: the compiled engine implements the preset.  When a document loads, it named no
    removed key, every consumer in it was well formed, and every later decision of
    [evaluate] is the one the text of the preset states: nobody unknown gets anything;
    the root of a foreign tenant and any matching [!] pattern refuse explicitly; only
    then does a matching pattern allow; everything else is refused. *)
Theorem acl_engine_implements_preset (doc : toml_doc) (engine : AclEngine)
    (Hload : from_preset_doc doc = Ok engine) :
  ∃ entries, Some <$> entries = typed <$> doc_items doc
    ∧ (∀ c keys, c ∈ doc_items doc → table_keys c = Some keys →
         REMOVED_FIELD_SEES_PERSONAL_CLASSIFIED ∉ keys)
    ∧ (∀ trust op locus, evaluate engine trust op locus = policy entries trust op locus)
    ∧ (∀ trust recipient, evaluate_messaging_send engine trust recipient
         = policy entries trust AclWrite (String.append "messaging/" recipient)).
Proof.
  assert (reject_removed_preset_field doc = Ok tt) as Hrem.
  { revert Hload. unfold from_preset_doc.
    destruct (reject_removed_preset_field doc) as [[]|]; [done|]. by intros ?. }
  destruct (from_preset_doc_engine _ _ Hload) as (entries & cs & He & Hc & ->).
  exists entries. split_and!.
  - destruct doc as [| |l]; simplify_eq/=; [done|]. clear Hc Hload Hrem.
    apply collect_results_Ok in He. induction He as [|c e l es Hce _ IH]; [done|].
    rewrite !fmap_cons, IH. destruct (typed c); by simplify_eq.
  - intros c keys Hin Hk Habs. revert Hrem. unfold reject_removed_preset_field.
    destruct doc as [| |l]; simpl in Hin; [by apply not_elem_of_nil in Hin..|].
    case_match eqn:Hex; [done|]. apply not_true_iff_false in Hex. destruct Hex.
    apply existsb_exists. exists c. split; [by apply list_elem_of_In|].
    rewrite Hk. by apply bool_decide_eq_true.
  - intros. by apply evaluate_policy.
  - intros. unfold evaluate_messaging_send, messaging_channel_locus. by apply evaluate_policy.
Qed.

(** [e2] keeps every refusal of [e1] and adds no permission; the order of the patterns
    and their repetitions do not matter. *)
Definition tightens (e1 e2 : ConsumerEntry) : Prop :=
  identity e1 = identity e2
  ∧ ∀ op p, (strip_bang p ≠ None → p ∈ patterns_of op e1 → p ∈ patterns_of op e2)
            ∧ (strip_bang p = None → p ∈ patterns_of op e2 → p ∈ patterns_of op e1).

Lemma refuses_bang locus p : refuses locus p = true → strip_bang p ≠ None.
Proof. unfold refuses. by destruct (strip_bang p). Qed.

Lemma permits_plain locus p : permits locus p = true → strip_bang p = None.
Proof. unfold permits. by destruct (strip_bang p). Qed.

Lemma existsb_incl {A} (f : A → bool) (l1 l2 : list A) :
  (∀ x, f x = true → x ∈ l1 → x ∈ l2) → existsb f l1 = true → existsb f l2 = true.
Proof.
  intros Hi. rewrite !existsb_exists. intros (x & Hin & Hx). exists x.
  rewrite <- list_elem_of_In in *. eauto.
Qed.

Lemma find_tightens who es1 es2 :
  Forall2 tightens es1 es2 →
  match find (λ e, String.eqb (identity e) who) es1, find (λ e, String.eqb (identity e) who) es2 with
  | Some e1, Some e2 => tightens e1 e2
  | None, None => True
  | _, _ => False
  end.
Proof.
  induction 1 as [|e1 e2 es1 es2 H12 _ IH]; [done|]. simpl.
  rewrite (proj1 H12). by destruct (String.eqb (identity e2) who).
Qed.

Lemma policy_tightens es1 es2 trust op locus :
  Forall2 tightens es1 es2 → policy es2 trust op locus = Allow → policy es1 trust op locus = Allow.
Proof.
  intros Ht. unfold policy. destruct (caller trust) as [[who tenant]|]; [|done].
  pose proof (find_tightens who _ _ Ht) as Hf.
  destruct (find _ es1) as [e1|], (find _ es2) as [e2|]; try done. destruct Hf as [_ Hp].
  destruct (foreign_root tenant locus); [done|]. simpl.
  destruct (existsb (refuses locus) (patterns_of op e2)) eqn:Er2; [done|].
  destruct (existsb (permits locus) (patterns_of op e2)) eqn:Ep2; [|done]. intros _.
  destruct (existsb (refuses locus) (patterns_of op e1)) eqn:Er1.
  - rewrite (existsb_incl _ (patterns_of op e1) (patterns_of op e2)) in Er2; [done| |done].
    intros p Hr. apply (Hp op p). by eapply refuses_bang.
  - rewrite (existsb_incl _ (patterns_of op e2) (patterns_of op e1)); [done| |done].
    intros p Hr. apply (Hp op p). by eapply permits_plain.
Qed.

Lemma evaluate_unknown engine trust op locus who tenant :
  caller trust = Some (who, tenant) → has_identity engine who = false →
  evaluate engine trust op locus = DenyImplicit.
Proof.
  intros Hc Hid. unfold evaluate. rewrite Hc.
  destruct (find _ _) as [c|] eqn:Ef; [|done]. apply find_some in Ef as [Hin He].
  apply not_true_iff_false in Hid. destruct Hid. apply existsb_exists. eauto.
Qed.

Lemma evaluate_foreign_root engine kid aud sub scopes tenant jti op locus :
  contains_char "/"%char locus = false → locus ≠ "" → locus ≠ tenant →
  evaluate engine (BearerToken kid aud sub scopes tenant jti) op locus ≠ Allow.
Proof.
  intros Hs He Ht. unfold evaluate, caller, foreign_root. rewrite Hs.
  apply String.eqb_neq in He, Ht. rewrite He, Ht. by destruct (find _ _).
Qed.

(** A preset can only be tightened by refusals.  If every consumer of the second
    preset keeps the refusals of the first and adds no permission (patterns in any
    order), then nothing the second engine allows was refused by the first: deny wins
    whatever the order.  And no preset at all lets a bearer of one tenant into the root
    of another, nor anyone it does not name into anything. *)
Theorem acl_refusals_only_tighten (es1 es2 : list ConsumerEntry) (cs1 cs2 : list CompiledConsumer)
    (H1 : compile_all es1 = Ok cs1) (H2 : compile_all es2 = Ok cs2)
    (Htight : Forall2 tightens es1 es2) :
  (∀ trust op locus,
     evaluate (mkAclEngine cs2) trust op locus = Allow →
     evaluate (mkAclEngine cs1) trust op locus = Allow)
  ∧ (∀ kid aud sub scopes tenant jti op locus,
       contains_char "/"%char locus = false → locus ≠ "" → locus ≠ tenant →
       evaluate (mkAclEngine cs1) (BearerToken kid aud sub scopes tenant jti) op locus ≠ Allow)
  ∧ (∀ trust who tenant op locus,
       caller trust = Some (who, tenant) → has_identity (mkAclEngine cs1) who = false →
       evaluate (mkAclEngine cs1) trust op locus = DenyImplicit).
Proof.
  split_and!.
  - intros trust op locus. rewrite (evaluate_policy _ _ _ _ _ H1), (evaluate_policy _ _ _ _ _ H2).
    by apply policy_tightens.
  - intros. by apply evaluate_foreign_root.
  - intros. by eapply evaluate_unknown.
Qed.
End engine.

(** ** Concrete globs: literal texts, and [prefix*] for everything under a prefix *)

Fixpoint literal_or_star (pattern path : string) : bool :=
  match pattern with
  | EmptyString => String.eqb path ""
  | String c pattern' =>
      if is_char "*"%char c then true
      else match path with
           | String d path' => Ascii.eqb c d && literal_or_star pattern' path'
           | EmptyString => false
           end
  end.

#[export, refine] Instance star_globs : Globset := {
  Glob := string;
  GlobSet := list string;
  GlobError := unit;
  glob_new p := if contains_char "["%char p then Err tt else Ok p;
  set_build gs := Ok gs;
  glob_is_match := literal_or_star;
  set_is_match gs path := existsb (λ g, literal_or_star g path) gs;
  set_is_match_any := _;
}.
Proof. by intros gs s path [= <-]. Defined.

Definition sample_entry : ConsumerEntry :=
  mkConsumerEntry "engine" ["main/*"; "!main/personal*"] ["main/notes"].
Definition sample_tight : ConsumerEntry :=
  mkConsumerEntry "engine" ["!main/secret"; "!main/personal*"; "main/*"] [].
Definition sample_doc : toml_doc :=
  ConsumerArray [mkTomlConsumer (Some ["identity"; "read_patterns"; "write_patterns"]) (Some sample_entry)].
Definition bearer (sub tenant : string) (scopes : list string) : TrustContext :=
  BearerToken "k" "gradatum" sub scopes tenant None.

Lemma acl_engine_implements_preset_witness :
  ∃ engine, from_preset_doc sample_doc = Ok engine
    ∧ evaluate engine (bearer "engine" "main" []) AclRead "main/notes" = Allow
    ∧ evaluate engine (bearer "engine" "main" []) AclRead "main/personal/x" = DenyExplicit
    ∧ ∃ entries, Some <$> entries = typed <$> doc_items sample_doc
        ∧ evaluate engine (bearer "engine" "main" []) AclWrite "main/x"
          = policy entries (bearer "engine" "main" []) AclWrite "main/x".
Proof.
  eexists. split; [reflexivity|]. split; [reflexivity|]. split; [reflexivity|].
  edestruct (acl_engine_implements_preset sample_doc) as (entries & He & _ & Hp & _); [reflexivity|].
  exists entries. split; [exact He|apply Hp].
Defined.

Lemma acl_refusals_only_tighten_witness :
  ∃ cs1 cs2, compile_all [sample_entry] = Ok cs1 ∧ compile_all [sample_tight] = Ok cs2
    ∧ (evaluate (mkAclEngine cs2) (bearer "engine" "main" []) AclRead "main/notes" = Allow →
       evaluate (mkAclEngine cs1) (bearer "engine" "main" []) AclRead "main/notes" = Allow)
    ∧ evaluate (mkAclEngine cs2) (bearer "engine" "main" []) AclRead "main/secret" = DenyExplicit.
Proof.
  do 2 eexists. split; [reflexivity|]. split; [reflexivity|]. split; [|reflexivity].
  apply (acl_refusals_only_tighten [sample_entry] [sample_tight]); [reflexivity..|].
  constructor; [|constructor]. split; [reflexivity|]. intros op p.
  split; intros Hp Hin; destruct op; simpl in *; set_unfold; destruct_or?; subst;
    simpl in *; naive_solver.
Defined.
