(* ===== verification/Registry.v ===== *)
(** * Registry: tenants, grants and code vaults in the index

    Models the tables [tenants], [tenant_vault_grants], [agent_vault_grants] (migrations
    0030, 0031, 0040, 0042) and [code_vault] (0017, 0018) and the operations of
    [SqliteIndex] on them ([crates/gradatum-index/src/sqlite.rs]), together with the part
    of the [IndexStore] trait ([crates/gradatum-core/src/index_store.rs]) the request
    guards read.  Columns keep the texts the database stores, so that a row outside the
    enumerations is representable; failures of SQLite itself are not. *)

From S2P Require Import Prelude Job Scope.
From Stdlib Require Import Ascii.

#[local] Open Scope nat_scope.

(** ** Errors *)

(** The [InvalidInput] messages, by what they report. *)
Inductive input_error :=
| InvalidVaultIdText (e : ValidationError)
| TooManyVaults (n : nat)
| CodePrefixedVault (vault : VaultId)
| AlreadyCodeVault (vault : VaultId)
| UnknownSection (section : string)
| VaultIdWithVaultIds
| InvalidVaultIdLength
| InvalidStatusFilter
| BoundsReversed | InvalidSessionId | CompactWithoutSession.

(** The errors that reach the guards; the remaining constructors of the enum all map to
    the same status. *)
Inductive GradatumError :=
| Unauthorized
| Forbidden (message : string)
| InvalidInput (why : input_error)
| Conflict (message : string)
| NoteNotFound (id : string)
| VaultNotFound (vault : VaultId)
| Storage (message : string).

(** ** Rows *)

Record TenantRow := mkTenantRow { t_status : string; t_created_at : Z }.
Record GrantRow := mkGrantRow { g_access : string; g_section : option string }.
Record CodeVaultRow := mkCodeVaultRow { cv_repo_abs_path : string; cv_visibility : string }.

#[export] Instance TenantRow_eq_dec : EqDecision TenantRow.
Proof. solve_decision. Defined.
#[export] Instance GrantRow_eq_dec : EqDecision GrantRow.
Proof. solve_decision. Defined.

(** The key of a grant: who, and on which vault. *)
Abbreviation grant_key := (string * string)%type.

Record Registry := mkRegistry {
  tenants : gmap string TenantRow;
  tenant_vault_grants : gmap grant_key GrantRow;
  agent_vault_grants : gmap grant_key GrantRow;
  code_vault : gmap string CodeVaultRow;
}.

(** What the migrations leave in an empty database. *)
Definition seeded (created_at : Z) : Registry :=
  mkRegistry {[ "main" := mkTenantRow "active" created_at ]}
    {[ ("main", "main") := mkGrantRow "write" None ]}
    {[ ("main-agent", "main") := mkGrantRow "write" None ]} ∅.

(** ** Reading *)

Definition vault_le (p q : grant_key * GrantRow) : Prop := String.le p.1.2 q.1.2.
#[export] Instance vault_le_dec : RelDecision vault_le.
Proof. intros ??. unfold vault_le. apply _. Defined.

(** [WHERE <owner column> = ?1 ORDER BY vault_id]. *)
Definition owner_rows (m : gmap grant_key GrantRow) (owner : string) : list (grant_key * GrantRow) :=
  merge_sort vault_le (filter (λ p, p.1.1 = owner) (map_to_list m)).

Definition is_active_row (r : option TenantRow) : bool :=
  match r with Some row => String.eqb (t_status row) "active" | None => false end.

Definition read_tenant_grant (p : grant_key * GrantRow) : result VaultGrant GradatumError :=
  match GrantAccess_from_db_str (g_access p.2) with
  | Some access => Ok (mkVaultGrant p.1.1 p.1.2 access (g_section p.2))
  | None => Err (Storage "tenant_grants: access out of enumeration")
  end.

Definition read_agent_grant (p : grant_key * GrantRow) : result AgentVaultGrant GradatumError :=
  match GrantAccess_from_db_str (g_access p.2) with
  | Some access => Ok (mkAgentVaultGrant p.1.1 p.1.2 access (g_section p.2))
  | None => Err (Storage "agent_grants: access out of enumeration")
  end.

(** The join with [tenants] keeps the rows of an active tenant only. *)
Definition tenant_grants (self : Registry) (tenant_id : TenantId) :
    result (list VaultGrant) GradatumError :=
  collect_results read_tenant_grant
    (if is_active_row (tenants self !! tenant_id)
     then owner_rows (tenant_vault_grants self) tenant_id else []).

Definition agent_grants (self : Registry) (agent_id : AgentId) :
    result (list AgentVaultGrant) GradatumError :=
  collect_results read_agent_grant (owner_rows (agent_vault_grants self) agent_id).

Definition get_tenant_status (self : Registry) (vault_id : string) :
    result (option TenantStatus) GradatumError :=
  match tenants self !! vault_id with
  | None => Ok None
  | Some row =>
      match TenantStatus_from_db_str (t_status row) with
      | Some st => Ok (Some st)
      | None => Err (Storage "get_tenant_status: unknown status")
      end
  end.

Definition list_active_vaults (self : Registry) : list string :=
  merge_sort String.le
    (filter (λ v, is_active_row (tenants self !! v) = true) (map_to_list (tenants self)).*1).

(** ** Writing *)

(** [INSERT OR IGNORE]: the number of rows inserted, and the table. *)
Definition insert_or_ignore {K V} `{Countable K} (k : K) (v : V) (m : gmap K V) : nat * gmap K V :=
  match m !! k with Some _ => (0, m) | None => (1, <[k := v]> m) end.

Definition upsert_agent_grant (self : Registry) (agent_id : AgentId) (vault_id : VaultId)
    (access : GrantAccess) (section : option string) : Registry :=
  let row := mkGrantRow (GrantAccess_as_db_str access) section in
  mkRegistry (tenants self) (tenant_vault_grants self)
    (insert_or_ignore (agent_id, vault_id) row (agent_vault_grants self)).2 (code_vault self).

(** [s.starts_with("code-")]. *)
Definition code_prefixed (s : string) : bool := String.prefix "code-" s.

(** The result comes with the registry the transaction leaves; a refusal leaves it as
    it was. *)
Definition provision_vault (now : Z) (vault_id : string) (self : Registry) :
    result bool GradatumError * Registry :=
  if code_prefixed vault_id then (Err (InvalidInput (CodePrefixedVault vault_id)), self)
  else if bool_decide (is_Some (code_vault self !! vault_id))
  then (Err (InvalidInput (AlreadyCodeVault vault_id)), self)
  else
    let '(tenant_rows, tenants') :=
      insert_or_ignore vault_id (mkTenantRow "active" now) (tenants self) in
    let '(grant_rows, grants') :=
      insert_or_ignore (vault_id, vault_id) (mkGrantRow "write" None) (tenant_vault_grants self) in
    (Ok (0 <? tenant_rows + grant_rows),
     mkRegistry tenants' grants' (agent_vault_grants self) (code_vault self)).

Definition set_tenant_status (vault_id : string) (status : TenantStatus) (self : Registry) :
    result (option bool) GradatumError * Registry :=
  match tenants self !! vault_id with
  | None => (Ok None, self)
  | Some current =>
      if String.eqb (t_status current) (TenantStatus_as_db_str status)
      then (Ok (Some false), self)
      else
        (Ok (Some true),
         mkRegistry
           (<[vault_id := mkTenantRow (TenantStatus_as_db_str status) (t_created_at current)]>
              (tenants self))
           (tenant_vault_grants self) (agent_vault_grants self) (code_vault self))
  end.

(** [ON CONFLICT(vault_id) DO UPDATE]. *)
Definition set_code_vault_repo_path_with_visibility (vault_id repo_abs_path visibility : string)
    (self : Registry) : result unit GradatumError * Registry :=
  if negb (code_prefixed vault_id) then
    (Err (Storage "set_code_vault_repo_path: vault_id must start with code-"), self)
  else
    (Ok tt, mkRegistry (tenants self) (tenant_vault_grants self) (agent_vault_grants self)
              (<[vault_id := mkCodeVaultRow repo_abs_path visibility]> (code_vault self))).

Definition set_code_vault_repo_path (vault_id repo_abs_path : string) (self : Registry) :
    result unit GradatumError * Registry :=
  set_code_vault_repo_path_with_visibility vault_id repo_abs_path "pub" self.

Definition get_code_vault_visibility (self : Registry) (vault_id : string) : option string :=
  cv_visibility <$> (code_vault self !! vault_id).

Definition get_code_vault_repo_path (self : Registry) (vault_id : string) : option string :=
  cv_repo_abs_path <$> (code_vault self !! vault_id).

(** ** The interface the guards read *)

Class IndexStore (St : Type) := {
  store_tenant_grants : St → TenantId → result (list VaultGrant) GradatumError;
  store_agent_grants : St → AgentId → result (list AgentVaultGrant) GradatumError;
  store_get_tenant_status : St → string → result (option TenantStatus) GradatumError;
}.

#[export] Instance SqliteIndex : IndexStore Registry := {
  store_tenant_grants := tenant_grants;
  store_agent_grants := agent_grants;
  store_get_tenant_status := get_tenant_status;
}.

(** The default methods of the trait: a backend without grant storage. *)
Definition default_tenant_grants (_ : TenantId) : result (list VaultGrant) GradatumError := Ok [].
Definition default_agent_grants (_ : AgentId) : result (list AgentVaultGrant) GradatumError := Ok [].
Definition default_get_tenant_status (_ : string) : result (option TenantStatus) GradatumError :=
  Err (Storage "get_tenant_status not supported by this backend").

#[export] Instance IndexStore_defaults : IndexStore unit := {
  store_tenant_grants _ := default_tenant_grants;
  store_agent_grants _ := default_agent_grants;
  store_get_tenant_status _ := default_get_tenant_status;
}.

(** ** What the reads return *)

Lemma elem_of_owner_rows m owner k row :
  (k, row) ∈ owner_rows m owner ↔ m !! k = Some row ∧ k.1 = owner.
Proof.
  unfold owner_rows. rewrite merge_sort_Permutation, list_elem_of_filter, elem_of_map_to_list.
  simpl. tauto.
Qed.

Lemma read_tenant_grant_key p g :
  read_tenant_grant p = Ok g → vg_tenant_id g = p.1.1 ∧ vg_vault_id g = p.1.2.
Proof. unfold read_tenant_grant. destruct (GrantAccess_from_db_str _); [|done]. by intros [= <-]. Qed.

Lemma read_agent_grant_key p g :
  read_agent_grant p = Ok g → ag_agent_id g = p.1.1 ∧ ag_vault_id g = p.1.2.
Proof. unfold read_agent_grant. destruct (GrantAccess_from_db_str _); [|done]. by intros [= <-]. Qed.

(** A tenant's grants are its rows, as long as it is active. *)
Lemma tenant_grants_elem r t gs g :
  tenant_grants r t = Ok gs →
  g ∈ gs ↔ is_active_row (tenants r !! t) = true
           ∧ ∃ row, tenant_vault_grants r !! (t, vg_vault_id g) = Some row
                    ∧ read_tenant_grant ((t, vg_vault_id g), row) = Ok g.
Proof.
  unfold tenant_grants. destruct (is_active_row _).
  2: { intros [= <-]. split; [by intros ?%not_elem_of_nil|by intros [? _]]. }
  intros Hc%collect_results_Ok. split.
  - intros Hg. destruct (Forall2_in_r _ _ _ _ Hc Hg) as ([[t' v] row] & Hin & Hr).
    apply elem_of_owner_rows in Hin as [Hm Ht]. simpl in Ht. subst t'.
    destruct (read_tenant_grant_key _ _ Hr) as [_ Hv]. simpl in Hv. subst v. eauto.
  - intros (_ & row & Hm & Hr).
    destruct (Forall2_in_l _ _ _ ((t, vg_vault_id g), row) Hc) as (g' & Hg' & Hr');
      [by apply elem_of_owner_rows|]. congruence.
Qed.

Lemma agent_grants_elem r a gs g :
  agent_grants r a = Ok gs →
  g ∈ gs ↔ ∃ row, agent_vault_grants r !! (a, ag_vault_id g) = Some row
                  ∧ read_agent_grant ((a, ag_vault_id g), row) = Ok g.
Proof.
  intros Hc%collect_results_Ok. split.
  - intros Hg. destruct (Forall2_in_r _ _ _ _ Hc Hg) as ([[a' v] row] & Hin & Hr).
    apply elem_of_owner_rows in Hin as [Hm Ht]. simpl in Ht. subst a'.
    destruct (read_agent_grant_key _ _ Hr) as [_ Hv]. simpl in Hv. subst v. eauto.
  - intros (row & Hm & Hr).
    destruct (Forall2_in_l _ _ _ ((a, ag_vault_id g), row) Hc) as (g' & Hg' & Hr');
      [by apply elem_of_owner_rows|]. congruence.
Qed.

Lemma inactive_has_no_grants r t :
  is_active_row (tenants r !! t) = false → tenant_grants r t = Ok [].
Proof. intros Hi. unfold tenant_grants. by rewrite Hi. Qed.

Lemma active_status r v :
  is_active_row (tenants r !! v) = true ↔ get_tenant_status r v = Ok (Some Active).
Proof.
  unfold is_active_row, get_tenant_status. destruct (tenants r !! v) as [row|]; [|done].
  unfold TenantStatus_from_db_str. destruct (String.eqb (t_status row) "active"); [done|].
  split; [done|]. repeat case_match; congruence.
Qed.

Lemma elem_of_active_vaults r v :
  v ∈ list_active_vaults r ↔ is_active_row (tenants r !! v) = true.
Proof.
  unfold list_active_vaults. rewrite merge_sort_Permutation, list_elem_of_filter.
  split; [by intros [? _]|]. intros Ha. split; [done|].
  destruct (tenants r !! v) as [row|] eqn:E; [|done].
  apply list_elem_of_fmap. exists (v, row). by rewrite elem_of_map_to_list.
Qed.

(** ** Any history of the registry *)

Inductive registry_call :=
| CallProvision (now : Z) (vault_id : string)
| CallSetStatus (vault_id : string) (status : TenantStatus)
| CallUpsertAgentGrant (agent_id : AgentId) (vault_id : VaultId) (access : GrantAccess)
    (section : option string)
| CallSetCodeVault (vault_id repo_abs_path visibility : string).

Definition run_registry_call (r : Registry) (c : registry_call) : Registry :=
  match c with
  | CallProvision now v => (provision_vault now v r).2
  | CallSetStatus v st => (set_tenant_status v st r).2
  | CallUpsertAgentGrant a v access section => upsert_agent_grant r a v access section
  | CallSetCodeVault v path vis => (set_code_vault_repo_path_with_visibility v path vis r).2
  end.

(** [tenants] and [code_vault] share no vault, and no tenant has a code name. *)
Definition registries_apart (r : Registry) : Prop :=
  ∀ v, is_Some (tenants r !! v) → code_prefixed v = false ∧ code_vault r !! v = None.

Definition status_known (row : TenantRow) : Prop := is_Some (TenantStatus_from_db_str (t_status row)).
Definition access_known (row : GrantRow) : Prop := is_Some (GrantAccess_from_db_str (g_access row)).

(** The [CHECK] constraints, as the code reads them. *)
Definition rows_known (r : Registry) : Prop :=
  map_Forall (λ _, status_known) (tenants r)
  ∧ map_Forall (λ _, access_known) (tenant_vault_grants r)
  ∧ map_Forall (λ _, access_known) (agent_vault_grants r).

Lemma status_known_db st c : status_known (mkTenantRow (TenantStatus_as_db_str st) c).
Proof. destruct st; by eexists. Qed.

Lemma access_known_db a s : access_known (mkGrantRow (GrantAccess_as_db_str a) s).
Proof. destruct a; by eexists. Qed.

Lemma insert_or_ignore_Forall {K V} `{Countable K} (P : K → V → Prop) k v (m : gmap K V) :
  P k v → map_Forall P m → map_Forall P (insert_or_ignore k v m).2.
Proof.
  intros Hk Hm. unfold insert_or_ignore. destruct (m !! k); [done|]. by apply map_Forall_insert_2.
Qed.

Lemma insert_or_ignore_lookup {K V} `{Countable K} k v (m : gmap K V) :
  (insert_or_ignore k v m).2 !! k = Some (default v (m !! k)).
Proof. unfold insert_or_ignore. destruct (m !! k) eqn:E; simpl; by simplify_map_eq. Qed.

Lemma insert_or_ignore_lookup_ne {K V} `{Countable K} k k' v (m : gmap K V) :
  k ≠ k' → (insert_or_ignore k v m).2 !! k' = m !! k'.
Proof. intros. unfold insert_or_ignore. destruct (m !! k); simpl; by simplify_map_eq. Qed.

Lemma insert_or_ignore_delete {K V} `{Countable K} k v (m : gmap K V) :
  delete k (insert_or_ignore k v m).2 = delete k m.
Proof.
  unfold insert_or_ignore. destruct (m !! k); [done|]. simpl. by rewrite delete_insert_eq.
Qed.

Lemma insert_or_ignore_count {K V} `{Countable K} k v (m : gmap K V) :
  (insert_or_ignore k v m).1 = match m !! k with None => 1 | Some _ => 0 end.
Proof. unfold insert_or_ignore. by destruct (m !! k). Qed.

Lemma insert_or_ignore_again {K V} `{Countable K} k v v' (m : gmap K V) :
  insert_or_ignore k v' (insert_or_ignore k v m).2 = (0, (insert_or_ignore k v m).2).
Proof. unfold insert_or_ignore at 1. by rewrite insert_or_ignore_lookup. Qed.

Lemma provision_vault_result now v r :
  code_prefixed v = false → code_vault r !! v = None →
  provision_vault now v r
  = (Ok (0 <? (insert_or_ignore v (mkTenantRow "active" now) (tenants r)).1
            + (insert_or_ignore (v, v) (mkGrantRow "write" None) (tenant_vault_grants r)).1),
     mkRegistry (insert_or_ignore v (mkTenantRow "active" now) (tenants r)).2
       (insert_or_ignore (v, v) (mkGrantRow "write" None) (tenant_vault_grants r)).2
       (agent_vault_grants r) (code_vault r)).
Proof.
  intros Hp Hc. unfold provision_vault. rewrite Hp, Hc, bool_decide_eq_false_2 by by intros [??].
  by destruct (insert_or_ignore v _ _), (insert_or_ignore (v, v) _ _).
Qed.

Lemma provision_vault_state now v r :
  code_prefixed v = false → code_vault r !! v = None →
  (provision_vault now v r).2
  = mkRegistry (insert_or_ignore v (mkTenantRow "active" now) (tenants r)).2
      (insert_or_ignore (v, v) (mkGrantRow "write" None) (tenant_vault_grants r)).2
      (agent_vault_grants r) (code_vault r).
Proof. intros. by rewrite provision_vault_result. Qed.

Lemma provision_vault_refused now v r :
  code_prefixed v = true ∨ is_Some (code_vault r !! v) →
  ∃ why, provision_vault now v r = (Err (InvalidInput why), r).
Proof.
  intros Hr. unfold provision_vault. destruct (code_prefixed v) eqn:E; [by eexists|].
  destruct Hr as [|Hc]; [done|]. rewrite bool_decide_eq_true_2 by done. by eexists.
Qed.

(** A call of [provision_vault] is one or the other. *)
Lemma provision_vault_cases v r :
  (code_prefixed v = true ∨ is_Some (code_vault r !! v))
  ∨ (code_prefixed v = false ∧ code_vault r !! v = None).
Proof.
  destruct (code_prefixed v), (code_vault r !! v) eqn:E; eauto.
Qed.

Lemma call_keeps_apart r c : registries_apart r → registries_apart (run_registry_call r c).
Proof.
  intros Ha. destruct c as [now v|v st|a v access section|v path vis]; simpl.
  - destruct (provision_vault_cases v r) as [Hr|[Hp Hc]].
    { by destruct (provision_vault_refused now v r Hr) as [why ->]. }
    rewrite provision_vault_state by done. intros u. simpl.
    destruct (decide (v = u)) as [<-|Hne]; [done|]. rewrite insert_or_ignore_lookup_ne by done.
    apply Ha.
  - unfold set_tenant_status. destruct (tenants r !! v) eqn:E; [|done].
    case_match; [done|]. intros u. simpl. rewrite lookup_insert_is_Some.
    intros [<-|[_ Hu]]; apply Ha; [by rewrite E|done].
  - done.
  - unfold set_code_vault_repo_path_with_visibility. destruct (code_prefixed v) eqn:E; [|done].
    intros u Hu. simpl in *. destruct (Ha u Hu) as [Hp Hc]. split; [done|].
    rewrite lookup_insert_ne by congruence. done.
Qed.

Lemma call_keeps_known r c : rows_known r → rows_known (run_registry_call r c).
Proof.
  intros (Ht & Hg & Hag). destruct c as [now v|v st|a v access section|v path vis]; simpl.
  - destruct (provision_vault_cases v r) as [Hr|[Hp Hc]].
    { by destruct (provision_vault_refused now v r Hr) as [why ->]. }
    rewrite provision_vault_state by done. split_and!; simpl; [..|done].
    + apply insert_or_ignore_Forall; [by eexists|done].
    + apply insert_or_ignore_Forall; [by eexists|done].
  - unfold set_tenant_status. destruct (tenants r !! v) eqn:E; [|done].
    case_match; [done|]. split_and!; [|done..]. simpl.
    apply map_Forall_insert_2; [apply status_known_db|done].
  - split_and!; [done..|]. simpl. apply insert_or_ignore_Forall; [apply access_known_db|done].
  - unfold set_code_vault_repo_path_with_visibility. by destruct (code_prefixed v).
Qed.

Lemma history_invariant calls r :
  registries_apart r → rows_known r →
  registries_apart (foldl run_registry_call r calls) ∧ rows_known (foldl run_registry_call r calls).
Proof.
  revert r. induction calls as [|c calls IH]; intros r Ha Hk; [done|]. simpl.
  apply IH; [by apply call_keeps_apart|by apply call_keeps_known].
Qed.

Lemma seeded_apart c : registries_apart (seeded c).
Proof.
  intros v [row Hv]. unfold seeded in *. simpl in *.
  apply lookup_singleton_Some in Hv as [<- _]. done.
Qed.

Lemma seeded_known c : rows_known (seeded c).
Proof. split_and!; apply map_Forall_singleton; by eexists. Qed.

Lemma collect_results_total {A B E} (f : A → result B E) l :
  (∀ x, x ∈ l → is_ok (f x) = true) → is_ok (collect_results f l) = true.
Proof.
  induction l as [|x l IH]; intros Hf; [done|]. simpl.
  specialize (Hf x) as Hx. destruct (f x); simpl; [|by apply Hx; left].
  destruct (collect_results f l); [done|]. simpl in *. apply IH. intros y Hy. apply Hf. by right.
Qed.

Lemma known_rows_read r :
  rows_known r →
  ∀ who, is_ok (tenant_grants r who) = true ∧ is_ok (agent_grants r who) = true
         ∧ is_ok (get_tenant_status r who) = true.
Proof.
  intros (Ht & Hg & Hag) who. split_and!.
  - unfold tenant_grants. case_match; [|done]. apply collect_results_total.
    intros [k row] [Hin _]%elem_of_owner_rows. unfold read_tenant_grant. simpl.
    by destruct (Hg _ _ Hin) as [a ->].
  - apply collect_results_total. intros [k row] [Hin _]%elem_of_owner_rows.
    unfold read_agent_grant. simpl. by destruct (Hag _ _ Hin) as [a ->].
  - unfold get_tenant_status. destruct (tenants r !! who) as [row|] eqn:E; [|done].
    by destruct (Ht _ _ E) as [st ->].
Qed.

(** The registry stays sound through any history.  From the seeded database, after
    any sequence of provisionings, status changes, agent grants and code registrations:
    no vault is both a tenant and a code vault, and no tenant bears a [code-] name; every
    row is readable, so no lookup of a guard ever fails on a corrupted value; and
    [list_active_vaults], which drives the per-vault jobs, lists in order exactly the
    vaults whose status reads [active], never a code vault. *)
Theorem registry_history_sound (created_at : Z) (calls : list registry_call) :
  let r := foldl run_registry_call (seeded created_at) calls in
  registries_apart r
  ∧ (∀ who, is_ok (tenant_grants r who) = true ∧ is_ok (agent_grants r who) = true
            ∧ is_ok (get_tenant_status r who) = true)
  ∧ Sorted String.le (list_active_vaults r)
  ∧ (∀ v, v ∈ list_active_vaults r ↔ get_tenant_status r v = Ok (Some Active))
  ∧ (∀ v, v ∈ list_active_vaults r → code_prefixed v = false ∧ code_vault r !! v = None).
Proof.
  intros r. destruct (history_invariant calls (seeded created_at)) as [Ha Hk];
    [apply seeded_apart|apply seeded_known|]. fold r in Ha, Hk. split_and!.
  - done.
  - by apply known_rows_read.
  - apply (Sorted_merge_sort String.le).
  - intros v. by rewrite elem_of_active_vaults, active_status.
  - intros v Hv%elem_of_active_vaults. apply Ha. unfold is_active_row in Hv.
    by destruct (tenants r !! v).
Qed.

(** What provisioning does.  A code vault is refused and nothing changes.  Otherwise
    the vault ends up with a tenant row and a grant on itself, each created only when
    missing: an existing status (suspended, deleted) and an existing grant are kept, no
    other row moves, the answer says whether anything was created, and replaying the
    call later changes nothing and says so. *)
Theorem provision_vault_exact (r : Registry) (now later : Z) (v : string) :
  ((code_prefixed v = true ∨ is_Some (code_vault r !! v)) ∧
   ∃ why, provision_vault now v r = (Err (InvalidInput why), r))
  ∨ ∃ r', provision_vault now v r
          = (Ok (bool_decide (tenants r !! v = None ∨ tenant_vault_grants r !! (v, v) = None)), r')
    ∧ code_prefixed v = false ∧ code_vault r !! v = None
    ∧ tenants r' !! v = Some (default (mkTenantRow "active" now) (tenants r !! v))
    ∧ tenant_vault_grants r' !! (v, v)
      = Some (default (mkGrantRow "write" None) (tenant_vault_grants r !! (v, v)))
    ∧ delete v (tenants r') = delete v (tenants r)
    ∧ delete (v, v) (tenant_vault_grants r') = delete (v, v) (tenant_vault_grants r)
    ∧ agent_vault_grants r' = agent_vault_grants r ∧ code_vault r' = code_vault r
    ∧ provision_vault later v r' = (Ok false, r').
Proof.
  destruct (provision_vault_cases v r) as [Hr|[Hp Hc]].
  { left. split; [done|]. by apply provision_vault_refused. }
  right. rewrite (provision_vault_result now) by done. eexists. split; [f_equal; f_equal|].
  { rewrite !insert_or_ignore_count.
    destruct (tenants r !! v), (tenant_vault_grants r !! (v, v)); symmetry;
      [apply bool_decide_eq_false_2|apply bool_decide_eq_true_2..]; naive_solver. }
  cbn [tenants tenant_vault_grants agent_vault_grants code_vault].
  rewrite !insert_or_ignore_lookup, !insert_or_ignore_delete. split_and!; try done.
  rewrite provision_vault_result by done. cbn [tenants tenant_vault_grants agent_vault_grants code_vault].
  by rewrite !insert_or_ignore_again.
Qed.

(** The status of a tenant gates all its grants at once.  Suspending or deleting an
    active tenant empties its allow-list, whatever its rows; provisioning the vault again
    does not revive it; the listing of active vaults loses it; and setting it active
    again restores the registry exactly. *)
Theorem suspension_gates_grants (r : Registry) (v : string) (row : TenantRow) (now : Z)
    (Hrow : tenants r !! v = Some row) (Hact : t_status row = "active")
    (st : TenantStatus) (Hst : st ≠ Active) :
  ∃ r1, set_tenant_status v st r = (Ok (Some true), r1)
    ∧ get_tenant_status r1 v = Ok (Some st)
    ∧ tenant_grants r1 v = Ok []
    ∧ tenant_grants (provision_vault now v r1).2 v = Ok []
    ∧ (v ∉ list_active_vaults r1)
    ∧ (∀ u, u ≠ v → tenant_grants r1 u = tenant_grants r u)
    ∧ set_tenant_status v Active r1 = (Ok (Some true), r).
Proof.
  destruct r as [ts tg ag cv], row as [status created]. simpl in *. subst status.
  unfold set_tenant_status at 1. simpl. rewrite Hrow. simpl.
  eexists. split; [by destruct st|].
  set (r1 := mkRegistry (<[v:=_]> ts) tg ag cv).
  assert (tenants r1 !! v = Some (mkTenantRow (TenantStatus_as_db_str st) created)) as Hr1
    by apply lookup_insert_eq.
  assert (is_active_row (tenants r1 !! v) = false) as Hina by (rewrite Hr1; by destruct st).
  split_and!.
  - unfold get_tenant_status. rewrite Hr1. by destruct st.
  - by apply inactive_has_no_grants.
  - apply inactive_has_no_grants. destruct (provision_vault_cases v r1) as [Hr|[Hp Hc]].
    { by destruct (provision_vault_refused now v r1 Hr) as [why ->]. }
    rewrite provision_vault_state by done. cbn [tenants].
    rewrite insert_or_ignore_lookup, Hr1. by destruct st.
  - rewrite elem_of_active_vaults. by rewrite Hina.
  - intros u Hu. unfold tenant_grants. simpl. by rewrite lookup_insert_ne.
  - unfold set_tenant_status. rewrite Hr1. simpl. rewrite insert_insert_eq, insert_id by done.
    by destruct st.
Qed.

Lemma suspension_gates_grants_witness :
  ∃ r1, set_tenant_status "main" Suspended (seeded 0%Z) = (Ok (Some true), r1)
    ∧ tenant_grants (seeded 0%Z) "main" ≠ Ok []
    ∧ tenant_grants r1 "main" = Ok []
    ∧ set_tenant_status "main" Active r1 = (Ok (Some true), seeded 0%Z).
Proof.
  destruct (suspension_gates_grants (seeded 0%Z) "main" (mkTenantRow "active" 0%Z) 0%Z eq_refl eq_refl
    Suspended ltac:(done)) as (r1 & H1 & _ & H2 & _ & _ & _ & H3).
  exists r1. split; [exact H1|]. split; [by vm_compute|]. split; [exact H2|exact H3].
Defined.
