(* ===== verification/TenantGuard.v ===== *)
(** * TenantGuard: who may read and write which vault

    Models [crates/gradatum-server/src/api_v1/tenant_guard.rs], the locus and status
    helpers of [api_v1/logic.rs] it calls, and the tenant authorisation of
    [middleware.rs].  The guards read the database through the class [IndexStore] of
    Registry.v and are proved against it; the last section instantiates it with the
    SQLite registry.  Log lines are not modelled. *)

From S2P Require Import Prelude Job Scope Acl Registry.
From Stdlib Require Import Ascii.

#[local] Open Scope nat_scope.

Inductive StatusCode :=
| UNAUTHORIZED | FORBIDDEN | BAD_REQUEST | CONFLICT | NOT_FOUND | INTERNAL_SERVER_ERROR
| UNPROCESSABLE_ENTITY | SERVICE_UNAVAILABLE.

Inductive TenantGuardRefusal :=
| Legacy
| MissingWriteGrant (tenant vault : string)
| MissingWriteScope
| MissingReadGrant (tenant vault : string) (section : option string).

Definition refusal_status (_ : TenantGuardRefusal) : StatusCode := FORBIDDEN.

Definition quoted (s : string) : string := ("'" +:+ s +:+ "'").

Definition into_forbidden (self : TenantGuardRefusal) (legacy_msg : string) : GradatumError :=
  match self with
  | Legacy => Forbidden legacy_msg
  | MissingWriteGrant tenant vault =>
      Forbidden ("no write grant for tenant " +:+ quoted tenant +:+ " on vault " +:+ quoted vault)
  | MissingWriteScope => Forbidden "write scope required (read-only token)"
  | MissingReadGrant tenant vault section =>
      let scope := match section with Some s => "section " +:+ quoted s | None => "vault-wide" end in
      Forbidden ("no read grant for agent " +:+ quoted tenant +:+ " on vault " +:+ quoted vault
                 +:+ " (" +:+ scope +:+ ")")
  end.

(** ** Helpers of logic.rs *)

Definition locus_for_tenant (tenant_id : string) : string := tenant_id +:+ "/main".

Definition locus_for_section (tenant_id : string) (section : option string) : string :=
  match section with
  | Some s => tenant_id +:+ "/" +:+ s
  | None => tenant_id +:+ "/main"
  end.

(** [msg.contains(pat)]. *)
Definition contains_text (pat msg : string) : bool :=
  match String.index 0 pat msg with Some _ => true | None => false end.

Definition err_to_status (e : GradatumError) : StatusCode :=
  match e with
  | Unauthorized => UNAUTHORIZED
  | Forbidden _ => FORBIDDEN
  | InvalidInput _ => BAD_REQUEST
  | Conflict _ => CONFLICT
  | NoteNotFound _ => NOT_FOUND
  | Storage msg =>
      if contains_text "not found" msg || contains_text "Not found" msg then NOT_FOUND
      else INTERNAL_SERVER_ERROR
  | _ => INTERNAL_SERVER_ERROR
  end.

(** A witness that the read sequence was run on a vault. *)
Record AclCheckedVaultId := attest_read_checked { checked_vault : VaultId }.

Definition own_vault_checked (tenant : string) : AclCheckedVaultId := attest_read_checked tenant.

(** [effective_tenant] needs no state. *)
Definition effective_tenant (trust : TrustContext) (body_tenant : option TenantId) :
    result TenantId StatusCode :=
  match trust_tenant_id trust with
  | None => Err FORBIDDEN
  | Some jwt_tenant =>
      match body_tenant with
      | Some b => if String.eqb b jwt_tenant then Ok jwt_tenant else Err FORBIDDEN
      | None => Ok jwt_tenant
      end
  end.

Definition MAX_VAULTS_PER_SEARCH : nat := 16.

(** [v.dedup()]: drop the repetitions that are next to each other. *)
Fixpoint dedup (l : list string) : list string :=
  match l with
  | [] => []
  | x :: l' =>
      match l' with
      | y :: _ => if String.eqb x y then dedup l' else x :: dedup l'
      | [] => [x]
      end
  end.

Section guards.
Context {GS : Globset} {St : Type} {IS : IndexStore St}.

Record AppState := mkAppState {
  multi_tenant_enabled : bool;
  acl : AclEngine;
  search : St;
}.
Implicit Types (state : AppState) (trust : TrustContext).

Definition write_scope_allowed state trust : bool :=
  if negb (multi_tenant_enabled state) then true
  else match trust with
       | BearerToken _ _ _ scopes _ _ => has_write_scope scopes
       | _ => true
       end.

(** ** Grants *)

Definition require_read_grant state (tenant vault : string) (section : option string) :
    result unit GradatumError :=
  let refusal :=
    Forbidden ("no read grant for tenant " +:+ quoted tenant +:+ " on vault " +:+ quoted vault) in
  match store_tenant_grants (search state) tenant with
  | Ok grants =>
      if existsb (λ g, String.eqb (vg_vault_id g) vault && VaultGrant_covers_section g section) grants
      then Ok tt else Err refusal
  | Err _ => Err refusal
  end.

Definition require_write_grant state (tenant vault : string) : result unit TenantGuardRefusal :=
  match store_tenant_grants (search state) tenant with
  | Ok grants =>
      if existsb (λ g, String.eqb (vg_vault_id g) vault && allows_write (vg_access g)
                       && VaultGrant_covers_section g None) grants
      then Ok tt else Err (MissingWriteGrant tenant vault)
  | Err _ => Err (MissingWriteGrant tenant vault)
  end.

Definition require_agent_write_grant state (agent_id : AgentId) (vault : string) :
    result unit TenantGuardRefusal :=
  match store_agent_grants (search state) agent_id with
  | Ok [] => Ok tt
  | Ok grants =>
      if existsb (λ g, String.eqb (ag_vault_id g) vault && allows_write (ag_access g)
                       && AgentVaultGrant_covers_section g None) grants
      then Ok tt else Err (MissingWriteGrant agent_id vault)
  | Err _ => Err (MissingWriteGrant agent_id vault)
  end.

Definition require_agent_read_grant state (agent_id : AgentId) (vault : string)
    (section : option string) : result unit TenantGuardRefusal :=
  match store_agent_grants (search state) agent_id with
  | Ok [] => Ok tt
  | Ok grants =>
      if existsb (λ g, String.eqb (ag_vault_id g) vault && AgentVaultGrant_covers_section g section)
           grants
      then Ok tt else Err (MissingReadGrant agent_id vault section)
  | Err _ => Err (MissingReadGrant agent_id vault section)
  end.

Definition require_active_target state (vault : string) : result unit GradatumError :=
  match store_get_tenant_status (search state) vault with
  | Ok (Some Active) => Ok tt
  | _ => Err (Forbidden ("vault " +:+ quoted vault +:+ " is not active"))
  end.

(** ** Writing *)

Definition effective_write_vault state trust (body_tenant : option TenantId) :
    result VaultId TenantGuardRefusal :=
  tenant ?<- map_err (λ _, Legacy) (effective_tenant trust body_tenant);
  if negb (multi_tenant_enabled state) then Ok tenant
  else if negb (write_scope_allowed state trust) then Err MissingWriteScope
  else
    _ ?<- require_write_grant state tenant tenant;
    _ ?<- match subject trust with
          | Some agent_id => require_agent_write_grant state agent_id tenant
          | None => Ok tt
          end;
    Ok tenant.

(** ** Reading one vault *)

Definition effective_read_vault state trust (tenant : string) (req_vault_id : option VaultId)
    (locus_section : option string) (deny_msg : string) : result AclCheckedVaultId GradatumError :=
  target ?<- match req_vault_id with
             | Some v => map_err (λ e, InvalidInput (InvalidVaultIdText e)) (VaultId_parse v)
             | None => Ok tenant
             end;
  let acl_locus := locus_for_section target locus_section in
  if negb (bool_decide (evaluate (acl state) trust AclRead acl_locus = Allow))
  then Err (Forbidden deny_msg)
  else
    _ ?<- require_read_grant state tenant target None;
    _ ?<- match subject trust with
          | Some agent_id =>
              map_err (λ r, into_forbidden r deny_msg)
                (require_agent_read_grant state agent_id target None)
          | None => Ok tt
          end;
    _ ?<- require_active_target state target;
    Ok (attest_read_checked target).

Definition resolve_read_vault state trust (legacy_vault : VaultId) (section : string) :
    result VaultId StatusCode :=
  if multi_tenant_enabled state then
    match trust_tenant_id trust with
    | None => Err FORBIDDEN
    | Some tenant =>
        checked ?<- map_err err_to_status
                      (effective_read_vault state trust tenant None (Some section) "acl deny");
        Ok (checked_vault checked)
    end
  else
    let acl_locus := legacy_vault +:+ "/" +:+ section in
    if negb (bool_decide (evaluate (acl state) trust AclRead acl_locus = Allow)) then Err FORBIDDEN
    else Ok legacy_vault.

(** ** Reading several vaults *)

(** The candidates: the tenant's own vault, its granted vaults on request, and the
    vaults the request names. *)
Definition candidates state (tenant : string) (req_vault_ids : list string) (all_readable : bool) :
    result (list VaultId) GradatumError :=
  let granted :=
    if all_readable then
      match store_tenant_grants (search state) tenant with
      | Ok grants => vg_vault_id <$> grants
      | Err _ => []
      end
    else [] in
  parsed ?<- collect_results
               (λ v, map_err (λ e, InvalidInput (InvalidVaultIdText e)) (VaultId_parse v))
               req_vault_ids;
  Ok (dedup (merge_sort String.le ([tenant] ++ granted ++ parsed))).

(** The read sequence on one candidate: a refusal or a failed lookup excludes it. *)
Definition candidate_admitted state trust (tenant : string) (locus_section : option string)
    (target : VaultId) : bool :=
  bool_decide (evaluate (acl state) trust AclRead (locus_for_section target locus_section) = Allow)
  && is_ok (require_read_grant state tenant target None)
  && match subject trust with
     | Some agent_id => is_ok (require_agent_read_grant state agent_id target None)
     | None => true
     end
  && is_ok (require_active_target state target).

Definition effective_read_vaults state trust (tenant : string) (req_vault_ids : list string)
    (all_readable : bool) (locus_section : option string) :
    result (list AclCheckedVaultId) GradatumError :=
  cands ?<- candidates state tenant req_vault_ids all_readable;
  if MAX_VAULTS_PER_SEARCH <? length cands
  then Err (InvalidInput (TooManyVaults (length cands)))
  else Ok (attest_read_checked <$>
           filter (λ v, candidate_admitted state trust tenant locus_section v = true) cands).

(** ** The middleware *)

Definition tenant_is_authorized_legacy trust : bool :=
  match trust with
  | BearerToken _ _ _ _ tenant_id _ => String.eqb tenant_id "main"
  | Unauthenticated => true
  | Mtls _ _ => true
  | Studio _ _ _ => true
  end.

Definition tenant_grants_authorize state (tenant_id : string) : bool :=
  match store_tenant_grants (search state) tenant_id with
  | Ok [] => false
  | Ok _ => true
  | Err _ => false
  end.

Definition agent_grants_authorize state (agent_id : AgentId) : bool :=
  match store_agent_grants (search state) agent_id with
  | Ok _ => true
  | Err _ => false
  end.

Definition tenant_is_authorized_by_grants state trust : bool :=
  match trust with
  | BearerToken _ _ sub _ tenant_id _ =>
      if negb (tenant_grants_authorize state tenant_id) then false
      else agent_grants_authorize state sub
  | Unauthenticated => false
  | Mtls _ _ => true
  | Studio _ _ _ => true
  end.

Definition tenant_is_authorized state trust : bool :=
  if multi_tenant_enabled state then tenant_is_authorized_by_grants state trust
  else tenant_is_authorized_legacy trust.

(** ** What the guards demand, stated over the store *)

(** A vault-wide grant of the tenant; [write] also asks for write access. *)
Definition tenant_holds state (write : bool) (tenant vault : string) : Prop :=
  ∃ gs g, store_tenant_grants (search state) tenant = Ok gs ∧ g ∈ gs
    ∧ vg_vault_id g = vault ∧ vg_section g = None ∧ (write = true → vg_access g = GrantWrite).

(** An agent with no grants at all is not restricted; one with grants needs a vault-wide
    one.  A failed lookup is a refusal. *)
Definition agent_allows state (write : bool) (agent : option AgentId) (vault : string) : Prop :=
  match agent with
  | None => True
  | Some a =>
      ∃ gs, store_agent_grants (search state) a = Ok gs
        ∧ (gs = [] ∨ ∃ g, g ∈ gs ∧ ag_vault_id g = vault ∧ ag_section g = None
                          ∧ (write = true → ag_access g = GrantWrite))
  end.

Definition readable state trust (tenant : string) (locus_section : option string) (v : VaultId) :
    Prop :=
  evaluate (acl state) trust AclRead (locus_for_section v locus_section) = Allow
  ∧ tenant_holds state false tenant v
  ∧ agent_allows state false (subject trust) v
  ∧ store_get_tenant_status (search state) v = Ok (Some Active).

Lemma covers_vault_wide section : covers section None = true ↔ section = None.
Proof. by destruct section. Qed.

Lemma allows_write_iff a : allows_write a = true ↔ a = GrantWrite.
Proof. by destruct a. Qed.

(** An allow-list test succeeds when a row of the list passes it. *)
Lemma allow_list_ok {A E} (f : A → bool) (P : A → Prop) (l : list A) (e : E) (u : unit) :
  (∀ x, f x = true ↔ P x) →
  (if existsb f l then Ok tt else Err e) = Ok u ↔ ∃ x, x ∈ l ∧ P x.
Proof.
  intros Hf. pose proof (existsb_exists f l) as He. destruct u. destruct (existsb f l).
  - split; [intros _|done]. destruct (proj1 He eq_refl) as (x & Hx & Hfx). exists x.
    by rewrite list_elem_of_In, <- Hf.
  - split; [done|]. intros (x & Hx & HP). exfalso. cut (false = true); [done|].
    apply He. exists x. by rewrite <- list_elem_of_In, Hf.
Qed.

Lemma covering_read x vault section :
  String.eqb x vault && covers section None = true ↔ x = vault ∧ section = None.
Proof. by rewrite andb_true_iff, String.eqb_eq, covers_vault_wide. Qed.

Lemma covering_write x vault access section :
  String.eqb x vault && allows_write access && covers section None = true
  ↔ x = vault ∧ section = None ∧ access = GrantWrite.
Proof. rewrite !andb_true_iff, String.eqb_eq, covers_vault_wide, allows_write_iff. tauto. Qed.

Lemma require_read_grant_ok state tenant vault u :
  require_read_grant state tenant vault None = Ok u ↔ tenant_holds state false tenant vault.
Proof.
  unfold require_read_grant, tenant_holds.
  destruct (store_tenant_grants (search state) tenant) as [gs|]; [|by split; [|intros (?&?&?&_)]].
  rewrite allow_list_ok by (intros g; apply covering_read). split.
  - intros (g & Hg & Hv & Hs). by exists gs, g.
  - intros (gs' & g & [= <-] & Hg & Hv & Hs & _). eauto.
Qed.

Lemma require_write_grant_ok state tenant vault u :
  require_write_grant state tenant vault = Ok u ↔ tenant_holds state true tenant vault.
Proof.
  unfold require_write_grant, tenant_holds.
  destruct (store_tenant_grants (search state) tenant) as [gs|]; [|by split; [|intros (?&?&?&_)]].
  rewrite allow_list_ok by (intros g; apply covering_write). split.
  - intros (g & Hg & Hv & Hs & Ha). by exists gs, g.
  - intros (gs' & g & [= <-] & Hg & Hv & Hs & Ha). eauto 6.
Qed.

Lemma require_agent_read_grant_ok state agent vault u :
  require_agent_read_grant state agent vault None = Ok u ↔ agent_allows state false (Some agent) vault.
Proof.
  unfold require_agent_read_grant, agent_allows.
  destruct (store_agent_grants (search state) agent) as [[|g0 gs]|];
    [destruct u; split; [eauto|done]| |by split; [|intros (?&?&_)]].
  rewrite allow_list_ok by (intros g; apply covering_read). split.
  - intros (g & Hg & Hv & Hs). exists (g0 :: gs). split; [done|]. right. by exists g.
  - intros (gs' & [= <-] & [?|(g & Hg & Hv & Hs & _)]); [done|]. eauto.
Qed.

Lemma require_agent_write_grant_ok state agent vault u :
  require_agent_write_grant state agent vault = Ok u ↔ agent_allows state true (Some agent) vault.
Proof.
  unfold require_agent_write_grant, agent_allows.
  destruct (store_agent_grants (search state) agent) as [[|g0 gs]|];
    [destruct u; split; [eauto|done]| |by split; [|intros (?&?&_)]].
  rewrite allow_list_ok by (intros g; apply covering_write). split.
  - intros (g & Hg & Hv & Hs & Ha). exists (g0 :: gs). split; [done|]. right. by exists g.
  - intros (gs' & [= <-] & [?|(g & Hg & Hv & Hs & Ha)]); [done|]. eauto 6.
Qed.

Lemma require_active_target_ok state vault u :
  require_active_target state vault = Ok u
  ↔ store_get_tenant_status (search state) vault = Ok (Some Active).
Proof.
  unfold require_active_target. destruct u.
  destruct (store_get_tenant_status (search state) vault) as [[[]|]|]; by split.
Qed.

Lemma is_ok_unit {E} (c : result unit E) : is_ok c = true ↔ c = Ok tt.
Proof. destruct c as [[]|]; by split. Qed.

(** [c?; k] succeeds when both do. *)
Lemma bind_unit_ok {A E} (c : result unit E) (k : result A E) a :
  (_ ?<- c; k) = Ok a ↔ c = Ok tt ∧ k = Ok a.
Proof. destruct c as [[]|]; simpl; naive_solver. Qed.

Lemma map_err_ok {A E F} (f : E → F) (c : result A E) a : map_err f c = Ok a ↔ c = Ok a.
Proof. destruct c; simpl; split; congruence. Qed.

Lemma effective_tenant_ok trust body t :
  effective_tenant trust body = Ok t ↔ trust_tenant_id trust = Some t ∧ (body = None ∨ body = Some t).
Proof.
  unfold effective_tenant. destruct (trust_tenant_id trust) as [jwt|]; [|naive_solver].
  destruct body as [b|]; [|naive_solver].
  destruct (String.eqb_spec b jwt) as [->|Hne]; naive_solver.
Qed.

Lemma agent_read_step state trust deny_msg v :
  match subject trust with
  | Some agent_id =>
      map_err (λ r, into_forbidden r deny_msg) (require_agent_read_grant state agent_id v None)
  | None => Ok tt
  end = Ok tt ↔ agent_allows state false (subject trust) v.
Proof.
  destruct (subject trust) as [a|]; [|done]. by rewrite map_err_ok, require_agent_read_grant_ok.
Qed.

Lemma agent_write_step state trust v :
  match subject trust with
  | Some agent_id => require_agent_write_grant state agent_id v
  | None => Ok tt
  end = Ok tt ↔ agent_allows state true (subject trust) v.
Proof. destruct (subject trust) as [a|]; [|done]. by rewrite require_agent_write_grant_ok. Qed.

Lemma effective_write_vault_ok state trust body v :
  effective_write_vault state trust body = Ok v
  ↔ trust_tenant_id trust = Some v ∧ (body = None ∨ body = Some v)
    ∧ (multi_tenant_enabled state = true →
       write_scope_allowed state trust = true ∧ tenant_holds state true v v
       ∧ agent_allows state true (subject trust) v).
Proof.
  unfold effective_write_vault.
  pose proof (effective_tenant_ok trust body) as Ht.
  destruct (effective_tenant trust body) as [t|e]; cbn [map_err result_bind].
  2: { split; [done|]. intros (H1 & H2 & _). discriminate (proj2 (Ht v) (conj H1 H2)). }
  destruct (proj1 (Ht t) eq_refl) as [Htt Hb].
  assert (trust_tenant_id trust = Some v ∧ (body = None ∨ body = Some v) ↔ t = v) as Hv.
  { rewrite <- Ht. split; congruence. }
  rewrite (assoc (∧)), Hv. destruct (multi_tenant_enabled state); cbn [negb].
  2: { split; [intros [= ->]; by split|by intros [-> _]]. }
  destruct (write_scope_allowed state trust); cbn [negb]; [|naive_solver].
  rewrite !bind_unit_ok, require_write_grant_ok, agent_write_step. naive_solver.
Qed.

Lemma effective_read_vault_ok state trust tenant req section msg v :
  effective_read_vault state trust tenant req section msg = Ok (attest_read_checked v)
  ↔ match req with Some w => VaultId_parse w = Ok v | None => v = tenant end
    ∧ readable state trust tenant section v.
Proof.
  unfold effective_read_vault, readable.
  set (target := match req with Some _ => _ | None => _ end).
  assert (∀ u, target = Ok u ↔ match req with Some w => VaultId_parse w = Ok u | None => u = tenant end)
    as Htgt.
  { intros u. subst target. destruct req; [by rewrite map_err_ok|]. split; congruence. }
  rewrite <- Htgt. destruct target as [u|e]; cbn [result_bind]; [|naive_solver].
  case_bool_decide as Ha; cbn [negb].
  - rewrite !bind_unit_ok, require_read_grant_ok, agent_read_step, require_active_target_ok.
    split; [intros (? & ? & ? & [= ->]); by split_and!|].
    intros ([= ->] & ? & ? & ? & ?). by split_and!.
  - split; [done|]. intros ([= ->] & ? & _). done.
Qed.

Lemma candidate_admitted_iff state trust tenant section v :
  candidate_admitted state trust tenant section v = true ↔ readable state trust tenant section v.
Proof.
  unfold candidate_admitted, readable.
  rewrite !andb_true_iff, bool_decide_eq_true, is_ok_unit, require_read_grant_ok.
  rewrite is_ok_unit, require_active_target_ok.
  assert (match subject trust with
          | Some a => is_ok (require_agent_read_grant state a v None)
          | None => true
          end = true ↔ agent_allows state false (subject trust) v) as ->; [|tauto].
  destruct (subject trust); [|done]. by rewrite is_ok_unit, require_agent_read_grant_ok.
Qed.
End guards.

(** ** Sorted candidates *)

Definition str_lt (a b : string) : Prop := String.le a b ∧ a ≠ b.

Lemma elem_of_dedup l x : x ∈ dedup l ↔ x ∈ l.
Proof.
  induction l as [|y l IH]; [done|]. cbn [dedup]. destruct l as [|z l]; [done|].
  destruct (String.eqb_spec y z) as [->|Hne]; rewrite ?elem_of_cons, IH, ?elem_of_cons; tauto.
Qed.

Lemma dedup_sorted l : StronglySorted String.le l → StronglySorted str_lt (dedup l).
Proof.
  induction 1 as [|x l Hs IH Hx]; [constructor|]. cbn [dedup]. destruct l as [|y l].
  { repeat constructor. }
  destruct (String.eqb_spec x y) as [->|Hne]; [done|]. constructor; [done|].
  rewrite Forall_forall in *. intros z Hz. rewrite elem_of_dedup in Hz. split; [by apply Hx|]. intros ->.
  apply StronglySorted_inv in Hs as [_ Hy]. rewrite Forall_forall in Hy.
  apply Hne, (anti_symm String.le); [apply Hx; by left|].
  apply elem_of_cons in Hz as [->|Hz]; [done|]. by apply Hy.
Qed.

#[export] Instance str_lt_strict : StrictOrder str_lt.
Proof.
  split; [by intros x [_ ?]|]. intros x y z [Hxy Hne] [Hyz _]. split; [by trans y|].
  intros ->. by apply Hne, (anti_symm String.le).
Qed.

Section theorems.
Context {GS : Globset} {St : Type} {IS : IndexStore St}.
Implicit Types (state : AppState (St := St)) (trust : TrustContext).

(** The candidate set of a search. *)
Definition is_candidate state (tenant : string) (req : list string) (all_readable : bool)
    (v : VaultId) : Prop :=
  v = tenant ∨ v ∈ req
  ∨ (all_readable = true ∧ ∃ gs g, store_tenant_grants (search state) tenant = Ok gs ∧ g ∈ gs
                                   ∧ vg_vault_id g = v).

Lemma VaultId_parse_same s v : VaultId_parse s = Ok v → v = s.
Proof. unfold VaultId_parse. repeat case_match; congruence. Qed.

Lemma parsed_requests (req : list string) :
  (∃ e, collect_results (λ v, map_err (λ e, InvalidInput (InvalidVaultIdText e)) (VaultId_parse v)) req
        = Err (InvalidInput (InvalidVaultIdText e))
        ∧ Exists (λ v, is_ok (VaultId_parse v) = false) req)
  ∨ (collect_results (λ v, map_err (λ e, InvalidInput (InvalidVaultIdText e)) (VaultId_parse v)) req
     = Ok req ∧ Forall (λ v, is_ok (VaultId_parse v) = true) req).
Proof.
  induction req as [|v req IH]; [right; by split|]. cbn [collect_results].
  destruct (VaultId_parse v) as [w|e] eqn:Ev; cbn [map_err result_bind].
  - apply VaultId_parse_same in Ev as Hw. subst w. destruct IH as [(e & He & Hex)|[Hok Hall]].
    + left. exists e. rewrite He. split; [done|]. by apply Exists_cons_tl.
    + right. rewrite Hok. split; [done|]. constructor; [by rewrite Ev|done].
  - left. exists e. split; [done|]. apply Exists_cons_hd. by rewrite Ev.
Qed.

Lemma candidates_spec state tenant req all_readable cands :
  candidates state tenant req all_readable = Ok cands →
  StronglySorted str_lt cands ∧ ∀ v, v ∈ cands ↔ is_candidate state tenant req all_readable v.
Proof.
  unfold candidates. destruct (parsed_requests req) as [(e & -> & _)|[-> _]]; simpl; [done|].
  intros [= <-]. split; [apply dedup_sorted, (StronglySorted_merge_sort String.le)|].
  intros v. rewrite elem_of_dedup, merge_sort_Permutation, !elem_of_cons, elem_of_app.
  unfold is_candidate.
  assert (v ∈ (if all_readable then match store_tenant_grants (search state) tenant with
                                    | Ok grants => vg_vault_id <$> grants
                                    | Err _ => []
                                    end else [])
          ↔ all_readable = true ∧ ∃ gs g, store_tenant_grants (search state) tenant = Ok gs ∧ g ∈ gs
                                          ∧ vg_vault_id g = v) as ->; [|tauto].
  destruct all_readable; [|by split; [intros ?%not_elem_of_nil|intros [? _]]].
  destruct (store_tenant_grants (search state) tenant) as [gs|].
  - rewrite list_elem_of_fmap. split; [intros (g & -> & Hg); split; [done|by exists gs, g]|].
    intros (_ & gs' & g & [= <-] & Hg & <-). eauto.
  - split; [by intros ?%not_elem_of_nil|]. by intros (_ & ? & ? & ? & _).
Qed.

Lemma candidates_error state tenant req all_readable :
  is_ok (candidates state tenant req all_readable) = forallb (λ v, is_ok (VaultId_parse v)) req.
Proof.
  unfold candidates. destruct (parsed_requests req) as [(e & -> & Hex)|[-> Hall]]; simpl; symmetry.
  - apply not_true_iff_false. rewrite forallb_forall. apply Exists_exists in Hex as (v & Hv & Hf).
    intros Hall. rewrite Hall in Hf; [done|]. by apply list_elem_of_In.
  - apply forallb_forall. intros v Hv%list_elem_of_In. by apply (proj1 (Forall_forall _ _) Hall).
Qed.

(** Which vaults a multi-vault search reads.  Exactly one of three things happens.
    A malformed vault id in the request is an input error.  More than sixteen distinct
    candidates are an input error, never a truncation.  Otherwise the search runs on the
    candidates that pass the whole read sequence (ACL on the target, vault-wide grant of
    the tenant, grant of the agent, target active), in strict lexicographic order: none
    more, none less, and one that fails any step, or whose lookups fail, is simply
    absent.  The single-vault guard answers the same on each vault. *)
Theorem effective_read_vaults_exact state trust (tenant : string) (req : list string)
    (all_readable : bool) (section : option string) :
  (forallb (λ v, is_ok (VaultId_parse v)) req = false
   ∧ ∃ e, effective_read_vaults state trust tenant req all_readable section
          = Err (InvalidInput (InvalidVaultIdText e)))
  ∨ ∃ cands, forallb (λ v, is_ok (VaultId_parse v)) req = true
    ∧ NoDup cands ∧ (∀ v, v ∈ cands ↔ is_candidate state tenant req all_readable v)
    ∧ ((16 < length cands
        ∧ effective_read_vaults state trust tenant req all_readable section
          = Err (InvalidInput (TooManyVaults (length cands))))
       ∨ ∃ vs, length cands ≤ 16
         ∧ effective_read_vaults state trust tenant req all_readable section
           = Ok (attest_read_checked <$> vs)
         ∧ StronglySorted str_lt vs
         ∧ (∀ v, v ∈ vs ↔ v ∈ cands ∧ readable state trust tenant section v)
         ∧ (∀ v msg, is_ok (VaultId_parse v) = true → v ∈ cands →
              v ∈ vs ↔ effective_read_vault state trust tenant (Some v) section msg
                       = Ok (attest_read_checked v))).
Proof.
  unfold effective_read_vaults. pose proof (candidates_error state tenant req all_readable) as Herr.
  destruct (candidates state tenant req all_readable) as [cands|e] eqn:Ec; simpl in Herr.
  2: { left. split; [done|]. revert Ec. unfold candidates.
       destruct (parsed_requests req) as [(e' & -> & _)|[-> _]]; simpl; [|done].
       intros [= <-]. by exists e'. }
  right. exists cands. destruct (candidates_spec _ _ _ _ _ Ec) as [Hs Hin]. cbn [result_bind].
  split; [done|]. split; [by eapply strict_sorted_NoDup, Hs; apply _|]. split; [done|].
  unfold MAX_VAULTS_PER_SEARCH. destruct (Nat.ltb_spec 16 (length cands)); [by left|]. right.
  eexists. split; [done|]. split; [done|]. split; [by apply strict_sorted_filter|].
  assert (∀ v, v ∈ filter (λ v, candidate_admitted state trust tenant section v = true) cands
               ↔ v ∈ cands ∧ readable state trust tenant section v) as Hel.
  { intros v. rewrite list_elem_of_filter, candidate_admitted_iff. tauto. }
  split; [done|]. intros v msg Hp Hv. rewrite Hel, effective_read_vault_ok.
  destruct (VaultId_parse v) as [w|] eqn:Ew; [|done]. apply VaultId_parse_same in Ew. subst w. tauto.
Qed.

(** Where a request may write.  [effective_write_vault] answers a vault exactly when
    that vault is the tenant of the token, the body names no other tenant, and, in
    multi-tenant mode, the token carries a write scope, the tenant holds a vault-wide
    write grant on its own vault, and the agent is unrestricted or holds one too.  Every
    other outcome, failed lookups included, is a 403; a write never targets another
    tenant. *)
Theorem effective_write_vault_exact state trust (body : option TenantId) :
  (∀ v, effective_write_vault state trust body = Ok v
     ↔ trust_tenant_id trust = Some v ∧ (body = None ∨ body = Some v)
       ∧ (multi_tenant_enabled state = true →
          (∀ kid aud sub scopes tenant jti,
             trust = BearerToken kid aud sub scopes tenant jti → has_write_scope scopes = true)
          ∧ tenant_holds state true v v ∧ agent_allows state true (subject trust) v))
  ∧ (∀ r, effective_write_vault state trust body = Err r →
       ∀ msg, refusal_status r = FORBIDDEN ∧ err_to_status (into_forbidden r msg) = FORBIDDEN).
Proof.
  split; [|intros r _ msg; by destruct r].
  intros v. rewrite effective_write_vault_ok. unfold write_scope_allowed.
  destruct (multi_tenant_enabled state); simpl; [|naive_solver].
  destruct trust; naive_solver.
Qed.

(** The middleware and the handlers agree.  In multi-tenant mode a request that any
    guard would serve was let in by the middleware, and the middleware admits a bearer
    only when its tenant has at least one grant and the agent's grants can be read; an
    unauthenticated request is turned away.  In single-tenant mode only the bearers of
    [main] pass, so every write lands in [main]. *)
Theorem middleware_covers_guards state trust (body : option TenantId) (v : VaultId) :
  (effective_write_vault state trust body = Ok v →
     multi_tenant_enabled state = true → tenant_is_authorized state trust = true)
  ∧ (∀ tenant req section msg,
       multi_tenant_enabled state = true → trust_tenant_id trust = Some tenant →
       is_ok (effective_read_vault state trust tenant req section msg) = true →
       tenant_is_authorized state trust = true)
  ∧ (multi_tenant_enabled state = true → tenant_is_authorized state Unauthenticated = false)
  ∧ (multi_tenant_enabled state = false → tenant_is_authorized state trust = true →
       effective_write_vault state trust body = Ok v → v = "main").
Proof.
  assert (∀ write tenant vault, trust_tenant_id trust = Some tenant →
            multi_tenant_enabled state = true → tenant_holds state write tenant vault →
            agent_allows state write (subject trust) vault → tenant_is_authorized state trust = true)
    as Hauth.
  { intros write tenant vault Ht Hon (gs & g & Hgs & Hg & _) Hag. unfold tenant_is_authorized.
    rewrite Hon. destruct trust; simplify_eq/=. unfold tenant_grants_authorize, agent_grants_authorize.
    destruct Hag as (ags & -> & _). rewrite Hgs. by destruct gs; [apply not_elem_of_nil in Hg|]. }
  split_and!.
  - rewrite effective_write_vault_ok. intros (Ht & _ & Hon) Hm.
    destruct (Hon Hm) as (_ & Hh & Ha). by eapply Hauth.
  - intros tenant req section msg Hm Ht Hok.
    destruct (effective_read_vault _ _ _ _ _ _) as [[u]|] eqn:Er; [|done].
    apply effective_read_vault_ok in Er as (_ & _ & Hh & Ha & _). by eapply Hauth.
  - intros Hm. unfold tenant_is_authorized. by rewrite Hm.
  - intros Hm. unfold tenant_is_authorized. rewrite Hm, effective_write_vault_ok.
    intros Hl (Ht & _). destruct trust; simplify_eq/=. by apply String.eqb_eq in Hl.
Qed.
End theorems.

(** ** On the SQLite registry *)

Section on_sqlite.
Context {GS : Globset}.
Implicit Types (engine : AclEngine) (trust : TrustContext) (r : Registry).

Lemma holds_active enabled engine r write tenant vault :
  tenant_holds (mkAppState enabled engine r) write tenant vault → get_tenant_status r tenant = Ok (Some Active).
Proof.
  intros (gs & g & Hgs & Hg & _). apply active_status.
  by apply (tenant_grants_elem _ _ _ _ Hgs) in Hg as [Ha _].
Qed.

(** A vault that is not active is closed.  As soon as the status of a tenant no longer
    reads [active] (suspended, deleted, unreadable or never provisioned), in multi-tenant
    mode no token of any kind can write to its vault, no read guard returns it whatever
    grants others hold on it, no multi-vault search includes it, and its own bearers are
    stopped at the middleware. *)
Theorem inactive_vault_is_closed engine r (v : VaultId)
    (Hst : get_tenant_status r v ≠ Ok (Some Active)) :
  let state := mkAppState true engine r in
  (∀ trust body, effective_write_vault state trust body ≠ Ok v)
  ∧ (∀ trust tenant req section msg,
       effective_read_vault state trust tenant req section msg ≠ Ok (attest_read_checked v))
  ∧ (∀ trust tenant req all section vs,
       effective_read_vaults state trust tenant req all section = Ok vs →
       attest_read_checked v ∉ vs)
  ∧ (∀ trust legacy section, resolve_read_vault state trust legacy section ≠ Ok v)
  ∧ (∀ trust, trust_tenant_id trust = Some v → tenant_is_authorized state trust = false).
Proof.
  intros state.
  assert (∀ trust tenant req section msg,
    effective_read_vault state trust tenant req section msg ≠ Ok (attest_read_checked v)) as Hread.
  { intros trust tenant req section msg. rewrite effective_read_vault_ok.
    intros (_ & _ & _ & _ & Ha). done. }
  split_and!.
  - intros trust body. rewrite effective_write_vault_ok. intros (_ & _ & Hon).
    destruct (Hon eq_refl) as (_ & Hh & _). by apply holds_active in Hh.
  - done.
  - intros trust tenant req all section vs. unfold effective_read_vaults.
    destruct (candidates _ _ _ _) as [cands|]; cbn [result_bind]; [|done].
    case_match; [done|]. intros [= <-]. rewrite list_elem_of_fmap.
    intros (u & [= <-] & [Hadm _]%list_elem_of_filter). apply candidate_admitted_iff in Hadm.
    by destruct Hadm as (_ & _ & _ & Ha).
  - intros trust legacy section. unfold resolve_read_vault. cbn [multi_tenant_enabled state].
    destruct (trust_tenant_id trust) as [tenant|]; [|done].
    specialize (Hread trust tenant None (Some section) "acl deny").
    destruct (effective_read_vault _ _ _ _ _ _) as [[u]|]; simpl; [|done]. congruence.
  - intros trust Ht. unfold tenant_is_authorized. simpl. destruct trust; simplify_eq/=.
    unfold tenant_grants_authorize. simpl. rewrite inactive_has_no_grants; [done|].
    apply not_true_iff_false. by rewrite active_status.
Qed.

Lemma provisioned_grants r now v :
  rows_known r → code_prefixed v = false → code_vault r !! v = None → tenants r !! v = None →
  tenant_vault_grants r !! (v, v) = None →
  ∃ gs, tenant_grants (provision_vault now v r).2 v = Ok gs ∧ mkVaultGrant v v GrantWrite None ∈ gs.
Proof.
  intros Hk Hp Hc Ht Hg. set (r' := (provision_vault now v r).2).
  assert (rows_known r') as Hk' by (by apply (call_keeps_known r (CallProvision now v))).
  destruct (known_rows_read r' Hk' v) as [Hok _].
  destruct (tenant_grants r' v) as [gs|] eqn:E; [|done]. exists gs. split; [done|].
  apply (tenant_grants_elem _ _ _ _ E). subst r'. rewrite provision_vault_state by done.
  cbn [tenants tenant_vault_grants vg_vault_id]. rewrite !insert_or_ignore_lookup, Ht, Hg.
  split; [done|]. by eexists.
Qed.

(** Provisioning takes effect at once.  In any reachable registry, provisioning
    a fresh data vault lets the bearers of that tenant with a write scope and no
    agent restriction through the middleware and into their own vault, for writing, and
    for reading wherever the access policy allows it. *)
Theorem provisioned_vault_is_usable engine (created_at now : Z) (calls : list registry_call)
    (v : VaultId) (kid aud : string) (sub : AgentId) (scopes : list string) (jti : option string)
    (section : option string)
    (Hcode : code_prefixed v = false)
    (Hcv : code_vault (foldl run_registry_call (seeded created_at) calls) !! v = None)
    (Hten : tenants (foldl run_registry_call (seeded created_at) calls) !! v = None)
    (Hgr : tenant_vault_grants (foldl run_registry_call (seeded created_at) calls) !! (v, v) = None)
    (Hag : agent_grants (foldl run_registry_call (seeded created_at) calls) sub = Ok [])
    (Hsc : has_write_scope scopes = true) :
  let r' := (provision_vault now v (foldl run_registry_call (seeded created_at) calls)).2 in
  let state := mkAppState true engine r' in
  let trust := BearerToken kid aud sub scopes v jti in
  tenant_is_authorized state trust = true
  ∧ effective_write_vault state trust None = Ok v
  ∧ (∀ msg, evaluate engine trust AclRead (locus_for_section v section) = Allow →
       effective_read_vault state trust v None section msg = Ok (attest_read_checked v)).
Proof.
  revert Hcv Hten Hgr Hag. set (r := foldl run_registry_call (seeded created_at) calls).
  intros Hcv Hten Hgr Hag r' state trust.
  destruct (history_invariant calls (seeded created_at)) as [_ Hk];
    [apply seeded_apart|apply seeded_known|]. fold r in Hk.
  destruct (provisioned_grants r now v) as (gs & Hgs & Hin); [done..|]. fold r' in Hgs.
  assert (agent_grants r' sub = Ok []) as Hag'.
  { unfold r'. by rewrite provision_vault_state. }
  assert (∀ write, tenant_holds state write v v) as Hh by (intros w; by exists gs, (mkVaultGrant v v GrantWrite None)).
  assert (∀ write, agent_allows state write (subject trust) v) as Ha
    by (intros w; exists []; split; [done|by left]).
  split_and!.
  - unfold tenant_is_authorized, tenant_is_authorized_by_grants, tenant_grants_authorize,
      agent_grants_authorize. simpl. rewrite Hgs, Hag'.
    by destruct gs; [apply not_elem_of_nil in Hin|].
  - apply effective_write_vault_ok. split_and!; [done|by left|]. intros _. by split_and!.
  - intros msg Hacl. apply effective_read_vault_ok. split; [done|]. split_and!; [done..|].
    by eapply (holds_active true engine r' true v v).
Qed.
End on_sqlite.

Definition sample_engine : AclEngine :=
  match compile_all [mkConsumerEntry "agent" ["*"] ["*"]] with
  | Ok cs => mkAclEngine cs
  | Err _ => mkAclEngine []
  end.

Lemma inactive_vault_is_closed_witness :
  get_tenant_status (set_tenant_status "main" Suspended (seeded 0%Z)).2 "main" = Ok (Some Suspended)
  ∧ effective_write_vault (mkAppState true sample_engine (set_tenant_status "main" Suspended (seeded 0%Z)).2)
      (bearer "agent" "main" ["write"]) None ≠ Ok "main"
  ∧ effective_write_vault (mkAppState true sample_engine (seeded 0%Z))
      (bearer "agent" "main" ["write"]) None = Ok "main".
Proof.
  split; [by vm_compute|]. split; [|by vm_compute].
  apply (inactive_vault_is_closed sample_engine (set_tenant_status "main" Suspended (seeded 0%Z)).2 "main").
  by vm_compute.
Defined.

Lemma provisioned_vault_is_usable_witness :
  effective_write_vault
    (mkAppState true sample_engine
       (provision_vault 7%Z "research" (foldl run_registry_call (seeded 0%Z) [])).2)
    (bearer "agent" "research" ["write"]) None = Ok "research"
  ∧ effective_write_vault (mkAppState true sample_engine (seeded 0%Z))
      (bearer "agent" "research" ["write"]) None = Err (MissingWriteGrant "research" "research").
Proof.
  split; [|by vm_compute].
  apply (provisioned_vault_is_usable sample_engine 0%Z 7%Z [] "research" "k" "gradatum" "agent"
    ["write"] None None); by vm_compute.
Defined.
