(* ===== verification/Windowing.v ===== *)
(** * Windowing: cutting a body for a detector

    Models [crates/gradatum-privacy/src/windowing.rs].  A [&str] is the list of its UTF-8
    bytes; its offsets are natural numbers, since no sum of the loop exceeds the length
    of the body.  The loop runs on fuel equal to the length of the body: every iteration
    moves the cursor forward. *)

From S2P Require Import Prelude.
From Stdlib Require Import Ascii.

#[local] Open Scope nat_scope.

Abbreviation text := (list Ascii.ascii).

(** [s.is_char_boundary(i)]. *)
Definition is_char_boundary (body : text) (i : nat) : bool :=
  match body !! i with
  | Some c => (i =? 0) || negb (is_continuation c)
  | None => (i =? 0) || (i =? length body)
  end.

(** [&s[a..b]]. *)
Definition slice (body : text) (a b : nat) : text := take (b - a) (drop a body).

Record WindowPlan := mkWindowPlan { max_input_bytes : nat; overlap_bytes : nat }.

(** [while end > start && !body.is_char_boundary(end) { end -= 1 }]. *)
Fixpoint cut_back (body : text) (start end' : nat) : nat :=
  match end' with
  | 0 => 0
  | S e =>
      if (start <? end') && negb (is_char_boundary body end') then cut_back body start e else end'
  end.

(** [while next < end && !body.is_char_boundary(next) { next += 1 }]; [gap] is what is
    left of [end - next]. *)
Fixpoint step_forward (body : text) (gap next : nat) : nat :=
  match gap with
  | 0 => next
  | S gap' => if negb (is_char_boundary body next) then step_forward body gap' (S next) else next
  end.

(** One turn of the loop: the end of the window at [start], and the next start. *)
Definition window_end (ceiling : nat) (body : text) (start : nat) : nat :=
  cut_back body start (start + Nat.min (length body - start) ceiling).

Definition next_start (overlap : nat) (body : text) (start end' : nat) : nat :=
  let next := end' - overlap in
  let next := if next <=? start then start + 1 else next in
  step_forward body (end' - next) next.

Fixpoint windows_loop (fuel : nat) (ceiling overlap : nat) (body : text) (start : nat) :
    list (nat * text) :=
  match fuel with
  | 0 => []
  | S fuel' =>
      if start <? length body then
        let end' := window_end ceiling body start in
        (start, slice body start end') ::
        (if end' =? length body then []
         else windows_loop fuel' ceiling overlap body (next_start overlap body start end'))
      else []
  end.

Definition windows (self : WindowPlan) (body : text) : list (nat * text) :=
  if max_input_bytes self =? 0 then []
  else match body with
       | [] => [(0, body)]
       | _ =>
           let ceiling := Nat.max (max_input_bytes self) 4 in
           windows_loop (length body) ceiling (overlap_bytes self) body 0
       end.

(** ** Texts

    What the code needs of UTF-8: a code point spans at most four bytes, so among any
    four consecutive offsets of the body one is a boundary. *)

Definition utf8 (body : text) : Prop :=
  ∀ i, i ≤ length body → ∃ j, j ≤ i ≤ j + 3 ∧ is_char_boundary body j = true.

Lemma boundary_0 body : is_char_boundary body 0 = true.
Proof. unfold is_char_boundary. by destruct (body !! 0). Qed.

Lemma boundary_length body : is_char_boundary body (length body) = true.
Proof.
  unfold is_char_boundary. rewrite lookup_ge_None_2 by lia. rewrite Nat.eqb_refl. apply orb_true_r.
Qed.

Lemma boundary_le body i : is_char_boundary body i = true → i ≤ length body.
Proof.
  unfold is_char_boundary. destruct (body !! i) eqn:E; [apply lookup_lt_Some in E; lia|].
  rewrite orb_true_iff, !Nat.eqb_eq. lia.
Qed.

Lemma length_slice body a b : a ≤ b ≤ length body → length (slice body a b) = b - a.
Proof. intros. unfold slice. rewrite length_take, length_drop. lia. Qed.

(** [cut_back] finds the last boundary at or below [end], never below [start]. *)
Lemma cut_back_spec body start e :
  start ≤ e → is_char_boundary body start = true →
  start ≤ cut_back body start e ≤ e ∧ is_char_boundary body (cut_back body start e) = true
  ∧ ∀ j, cut_back body start e < j ≤ e → is_char_boundary body j = false.
Proof.
  intros Hle Hb. induction e as [|e IH]; cbn [cut_back].
  { assert (start = 0) as -> by lia. split_and!; [lia|lia|done|lia]. }
  destruct (Nat.ltb_spec start (S e)) as [Hlt|Hge]; cbn [andb].
  2: { assert (start = S e) as -> by lia. split_and!; [lia|lia|done|lia]. }
  destruct (is_char_boundary body (S e)) eqn:E; cbn [negb]; [split_and!; [lia|lia|done|lia]|].
  destruct IH as ((? & ?) & ? & Hj); [lia|]. split_and!; [lia|lia|done|].
  intros j Hjj. destruct (decide (j = S e)) as [->|]; [done|]. apply Hj. lia.
Qed.

(** [step_forward] finds the first boundary at or above [next], within [gap]. *)
Lemma step_forward_spec body gap next :
  is_char_boundary body (next + gap) = true →
  next ≤ step_forward body gap next ≤ next + gap
  ∧ is_char_boundary body (step_forward body gap next) = true
  ∧ ∀ j, next ≤ j → is_char_boundary body j = true → step_forward body gap next ≤ j.
Proof.
  revert next. induction gap as [|gap IH]; intros next Hb; cbn [step_forward].
  { rewrite Nat.add_0_r in Hb. split_and!; [lia|lia|done|lia]. }
  destruct (is_char_boundary body next) eqn:E; cbn [negb]; [split_and!; [lia|lia|done|lia]|].
  destruct (IH (S next)) as ((? & ?) & ? & Hj); [by rewrite Nat.add_succ_comm|].
  split_and!; [lia|lia|done|]. intros j Hjj Hbj. apply Hj; [|done].
  destruct (decide (j = next)); [congruence|lia].
Qed.

Section loop.
Context (body : text) (ceiling overlap : nat) (Hceil : 4 ≤ ceiling) (Hutf : utf8 body).

(** A window that starts on a boundary before the end is non-empty, within the ceiling,
    ends on a boundary, and is at most three bytes short of the ceiling unless it
    reaches the end. *)
Lemma window_end_spec start :
  start < length body → is_char_boundary body start = true →
  let e := window_end ceiling body start in
  start < e ≤ length body ∧ e ≤ start + ceiling ∧ is_char_boundary body e = true
  ∧ (e < length body → start + ceiling ≤ e + 3).
Proof.
  intros Hs Hb e. unfold e, window_end.
  set (t := start + (length body - start) `min` ceiling).
  destruct (cut_back_spec body start t) as ((H1 & H2) & H3 & H4); [lia|done|].
  destruct (Hutf t) as (j & Hj & Hbj); [lia|].
  assert (j ≤ cut_back body start t) as Hjc.
  { destruct (decide (j ≤ cut_back body start t)) as [|Hn]; [done|].
    rewrite H4 in Hbj by lia. done. }
  assert (start < cut_back body start t) as Hlt.
  { destruct (decide (t = length body)) as [Ht|Ht].
    - destruct (decide (cut_back body start t = t)) as [->|Hne]; [lia|].
      specialize (H4 t). rewrite Ht, boundary_length in H4. rewrite <- Ht in H4.
      discriminate H4. lia.
    - lia. }
  split_and!; try lia; [done|].
  intros Hlen. destruct (decide (t = length body)) as [Ht|Ht]; [|lia].
  specialize (H4 t). rewrite Ht, boundary_length in H4. rewrite <- Ht in H4.
  discriminate H4. lia.
Qed.

(** The next window starts later, not after the end of this one, and at or before any
    boundary that is both past this start and past [end - overlap]. *)
Lemma next_start_spec start e :
  start < e → is_char_boundary body e = true →
  let n := next_start overlap body start e in
  start < n ≤ e ∧ is_char_boundary body n = true
  ∧ ∀ j, start < j → e - overlap ≤ j → is_char_boundary body j = true → n ≤ j.
Proof.
  intros Hlt Hb n. unfold n, next_start.
  set (m := if e - overlap <=? start then start + 1 else e - overlap).
  assert (start < m ≤ e ∧ ∀ j, start < j → e - overlap ≤ j → m ≤ j) as [Hm Hmj].
  { unfold m. destruct (Nat.leb_spec (e - overlap) start); split; intros; lia. }
  destruct (step_forward_spec body (e - m) m) as (? & ? & Hj);
    [by replace (m + (e - m)) with e by lia|].
  split_and!; [lia|lia|done|]. intros j H1 H2 H3. apply Hj; [|done]. by apply Hmj.
Qed.

(** A window of the body: where it starts and the slice it holds. *)
Definition window_ok (w : nat * text) : Prop :=
  ∃ e, w.2 = slice body w.1 e ∧ w.1 < e ≤ length body ∧ e ≤ w.1 + ceiling
    ∧ is_char_boundary body w.1 = true ∧ is_char_boundary body e = true.

(** [w2] starts after [w1] does and not after [w1] ends. *)
Definition follows (w1 w2 : nat * text) : Prop := w1.1 < w2.1 ≤ w1.1 + length w1.2.

Definition holds_entity (a b : nat) (w : nat * text) : Prop := w.1 ≤ a ∧ b ≤ w.1 + length w.2.

Lemma windows_loop_spec fuel start :
  length body - start ≤ fuel → start < length body → is_char_boundary body start = true →
  let ws := windows_loop fuel ceiling overlap body start in
  Forall window_ok ws
  ∧ (∃ w rest, ws = w :: rest ∧ w.1 = start)
  ∧ (∃ w, last ws = Some w ∧ w.1 + length w.2 = length body)
  ∧ Sorted follows ws
  ∧ (∀ a b, start ≤ a ≤ b → b ≤ length body → is_char_boundary body a = true →
       b - a ≤ overlap → b - a ≤ ceiling - 3 → Exists (holds_entity a b) ws).
Proof.
  revert start. induction fuel as [|fuel IH]; intros start Hf Hs Hb; [lia|].
  cbn [windows_loop]. rewrite (proj2 (Nat.ltb_lt _ _) Hs).
  destruct (window_end_spec start Hs Hb) as (He & Hc & Hbe & Hshort).
  set (e := window_end ceiling body start) in *.
  assert (length (slice body start e) = e - start) as Hl by (apply length_slice; lia).
  assert (window_ok (start, slice body start e)) as Hok by (exists e; simpl; split_and!; done || lia).
  destruct (Nat.eqb_spec e (length body)) as [Heq|Hne].
  - split_and!; [by repeat constructor|by do 2 eexists| |by repeat constructor|].
    + eexists. split; [done|]. simpl. lia.
    + intros a b Hab Hbl _ _ _. left. split; simpl; lia.
  - destruct (next_start_spec start e) as (Hn & Hbn & Hnj); [lia|done|].
    set (n := next_start overlap body start e) in *.
    destruct (IH n) as (Hall & (w & rest & Hws & Hw) & (w' & Hlast & Hend) & Hsort & Hent);
      [lia|lia|done|]. split_and!.
    + by constructor.
    + by do 2 eexists.
    + exists w'. rewrite Hws in *. done.
    + constructor; [done|]. rewrite Hws. constructor. unfold follows. simpl. rewrite Hl, Hw. lia.
    + intros a b Hab Hbl Hba Ho Hce. destruct (decide (b ≤ e)) as [Hbe'|Hbe'].
      { left. split; simpl; lia. }
      right. apply Hent; try done. split; [|lia].
      assert (start < a).
      { destruct (decide (a = start)) as [->|]; [|lia]. specialize (Hshort ltac:(lia)). lia. }
      apply Hnj; [done|lia|done].
Qed.
End loop.

Lemma windows_spec plan body :
  utf8 body → 0 < max_input_bytes plan → body ≠ [] →
  windows plan body
  = windows_loop (length body) (Nat.max (max_input_bytes plan) 4) (overlap_bytes plan) body 0.
Proof.
  intros _ Hm Hb. unfold windows. rewrite (proj2 (Nat.eqb_neq _ 0)) by lia. by destruct body.
Qed.

(** An entity short enough for the overlap lies whole in a window, whatever the plan. *)
Lemma windows_hold_entity plan body a b :
  utf8 body → windows plan body ≠ [] → a ≤ b ≤ length body → is_char_boundary body a = true →
  b - a ≤ overlap_bytes plan → b - a ≤ Nat.max (max_input_bytes plan) 4 - 3 →
  ∃ w, w ∈ windows plan body ∧ w.1 ≤ a ∧ b ≤ w.1 + length w.2.
Proof.
  intros Hutf Hne Hab Hba Ho Hc. destruct body as [|c0 body'] eqn:Eb.
  { revert Hne. unfold windows. destruct (max_input_bytes plan =? 0); [done|].
    exists (0, []). simpl in *. split; [by left|lia]. }
  rewrite <- Eb in *. destruct (max_input_bytes plan) as [|m] eqn:Em.
  { unfold windows in Hne. by rewrite Em in Hne. }
  rewrite windows_spec, Em by (rewrite ?Em; done || lia || (by subst)).
  destruct (windows_loop_spec body (Nat.max (S m) 4) (overlap_bytes plan) ltac:(lia) Hutf (length body) 0)
    as (_ & _ & _ & _ & Hent); [lia|subst; simpl; lia|apply boundary_0|].
  destruct (proj1 (Exists_exists _ _) (Hent a b ltac:(lia) ltac:(lia) Hba Ho Hc)) as (w & Hw & Hh).
  exists w. split; [done|]. exact Hh.
Qed.

(** The windows of a body.  On any non-empty UTF-8 text and any plan with a positive
    ceiling, [windows] ends and its windows are slices of the body cut on character
    boundaries, non-empty, within the ceiling (raised to four bytes when smaller); the
    first starts at 0, the last reaches the end, and each starts strictly after the
    previous start and no later than the previous end, so no byte is skipped.  And no
    entity is lost at a cut: one that starts on a boundary, is no longer than the overlap
    and fits a window with three bytes to spare lies whole inside some window. *)
Theorem windows_cover_body (plan : WindowPlan) (body : text)
    (Hutf : utf8 body) (Hmax : 0 < max_input_bytes plan) (Hbody : body ≠ []) :
  let ceiling := Nat.max (max_input_bytes plan) 4 in
  Forall (window_ok body ceiling) (windows plan body)
  ∧ (∃ w rest, windows plan body = w :: rest ∧ w.1 = 0)
  ∧ (∃ w, last (windows plan body) = Some w ∧ w.1 + length w.2 = length body)
  ∧ Sorted follows (windows plan body)
  ∧ (∀ a b, a ≤ b ≤ length body → is_char_boundary body a = true →
       b - a ≤ overlap_bytes plan → b - a ≤ ceiling - 3 →
       ∃ w, w ∈ windows plan body ∧ w.1 ≤ a ∧ b ≤ w.1 + length w.2).
Proof.
  intros ceiling. rewrite windows_spec by done. fold ceiling.
  destruct (windows_loop_spec body ceiling (overlap_bytes plan) ltac:(lia) Hutf (length body) 0)
    as (Hall & Hhd & Hlast & Hsort & _).
  - lia.
  - destruct body; [done|simpl; lia].
  - apply boundary_0.
  - split_and!; try done. intros a b Hab Hba Ho Hc. unfold ceiling. rewrite <- windows_spec by done.
    apply windows_hold_entity; try done. destruct Hhd as (w & rest & Hw & _).
    rewrite windows_spec by done. fold ceiling. by rewrite Hw.
Qed.

(** ** Deciding [utf8] on a concrete text *)

Definition utf8b (body : text) : bool :=
  forallb (λ i, existsb (λ k, (k <=? i) && is_char_boundary body (i - k)) [0; 1; 2; 3])
    (seq 0 (S (length body))).

Lemma utf8b_sound body : utf8b body = true → utf8 body.
Proof.
  unfold utf8b. rewrite forallb_forall. intros Hall i Hi.
  specialize (Hall i). rewrite existsb_exists in Hall.
  destruct Hall as (k & Hk & [Hki Hb]%andb_true_iff); [apply in_seq; lia|].
  apply Nat.leb_le in Hki. exists (i - k). split; [|done].
  simpl in Hk. lia.
Qed.

(** "h", "é", "llo" and a four-byte character. *)
Definition sample_body : text :=
  Ascii.ascii_of_nat <$> [104; 195; 169; 108; 108; 111; 240; 159; 146; 150; 33].

Lemma windows_cover_body_witness :
  windows (mkWindowPlan 5 2) sample_body
  = [(0, take 5 sample_body); (3, slice sample_body 3 6); (4, slice sample_body 4 6);
     (5, slice sample_body 5 10); (10, slice sample_body 10 11)]
  ∧ Forall (window_ok sample_body 5) (windows (mkWindowPlan 5 2) sample_body)
  ∧ ∃ w, w ∈ windows (mkWindowPlan 5 2) sample_body ∧ w.1 ≤ 4 ∧ 6 ≤ w.1 + length w.2.
Proof.
  destruct (windows_cover_body (mkWindowPlan 5 2) sample_body) as (Hall & _ & _ & _ & Hent);
    [by apply utf8b_sound|simpl; lia|done|].
  split; [vm_compute; reflexivity|]. split; [exact Hall|].
  apply (Hent 4 6); [vm_compute; lia|reflexivity|simpl; lia|simpl; lia].
Defined.
