(* ===== verification/Spans.v ===== *)
(** * Spans: validating, fusing and masking detected spans

    Models [crates/gradatum-privacy/src/merge.rs] ([rebase], [validate_and_merge]) and the
    span types, [mask_spans] and [PrivacyPolicy::retain] of
    [crates/gradatum-core/src/pii.rs].  Offsets come from a foreign process: they are
    64-bit values ([N], with the checked and saturating additions of the source).  A score
    is an IEEE-754 bit pattern; comparing two scores compares their sign-magnitude keys,
    and a NaN loses every [max]. *)

From S2P Require Import Prelude Job Windowing.
From Stdlib Require Import Ascii.

#[local] Open Scope N_scope.

(** ** Machine arithmetic on offsets *)

Definition usize_top : N := 2 ^ 64 - 1.
Definition checked_add (a b : N) : option N := if a + b <=? usize_top then Some (a + b) else None.
Definition saturating_add (a b : N) : N := N.min (a + b) usize_top.

(** ** Scores *)

Section scores.
#[local] Open Scope Z_scope.
Definition f32_magnitude (s : f32_bits) : Z := Z.land s (2 ^ 31 - 1).
Definition f32_is_nan (s : f32_bits) : bool := bool_decide (255 * 2 ^ 23 < f32_magnitude s).
Definition f32_key (s : f32_bits) : Z := if Z.testbit s 31 then - f32_magnitude s else f32_magnitude s.

(** [a.max(b)]. *)
Definition f32_max (a b : f32_bits) : f32_bits :=
  if f32_is_nan a then b
  else if f32_is_nan b then a
  else if bool_decide (f32_key a < f32_key b) then b else a.

(** A score is at least another, when the latter is a number. *)
Definition score_ge (a b : f32_bits) : Prop :=
  f32_is_nan b = false → f32_is_nan a = false ∧ f32_key b ≤ f32_key a.

Lemma score_ge_refl a : score_ge a a.
Proof. intros ?. by split. Qed.

Lemma score_ge_trans a b c : score_ge a b → score_ge b c → score_ge a c.
Proof. intros H1 H2 Hc. destruct (H2 Hc) as [Hb ?]. destruct (H1 Hb). split; [done|lia]. Qed.

Lemma f32_max_ge a b : score_ge (f32_max a b) a ∧ score_ge (f32_max a b) b.
Proof.
  unfold f32_max, score_ge.
  destruct (f32_is_nan a) eqn:Ea; [split; [done|by intros]|].
  destruct (f32_is_nan b) eqn:Eb; [split; [by intros|done]|].
  case_bool_decide; rewrite ?Ea, ?Eb; split; intros _; split; done || lia.
Qed.
End scores.

(** ** Categories and spans *)

Inductive PiiCategory :=
| AccountNumber | Address | Email | Person | Phone | Url | Date | Secret.
#[export] Instance PiiCategory_eq_dec : EqDecision PiiCategory.
Proof. solve_decision. Defined.

Definition category_as_str (c : PiiCategory) : string :=
  match c with
  | AccountNumber => "account_number"
  | Address => "address"
  | Email => "email"
  | Person => "person"
  | Phone => "phone"
  | Url => "url"
  | Date => "date"
  | Secret => "secret"
  end.

Definition category_from_str (s : string) : result PiiCategory string :=
  if String.eqb s "account_number" then Ok AccountNumber
  else if String.eqb s "address" then Ok Address
  else if String.eqb s "email" then Ok Email
  else if String.eqb s "person" then Ok Person
  else if String.eqb s "phone" then Ok Phone
  else if String.eqb s "url" then Ok Url
  else if String.eqb s "date" then Ok Date
  else if String.eqb s "secret" then Ok Secret
  else Err s.

Record PiiSpan := mkPiiSpan {
  start : N;
  len : N;
  category : PiiCategory;
  score : f32_bits;
}.
#[export] Instance PiiSpan_eq_dec : EqDecision PiiSpan.
Proof. solve_decision. Defined.

Record MergeStats := mkMergeStats {
  rejected_out_of_bounds : nat;
  rejected_utf8_boundary : nat;
  touching_window_edge : nat;
  merged : nat;
}.

Definition rebase (spans : list PiiSpan) (window_start : N) : list PiiSpan :=
  (λ s, mkPiiSpan (saturating_add (start s) window_start) (len s) (category s) (score s)) <$> spans.

(** ** Validation *)

Inductive verdict := Accepted | OutOfBounds | Utf8Boundary.
#[export] Instance verdict_eq_dec : EqDecision verdict.
Proof. solve_decision. Defined.

(** [body.is_char_boundary(i)] for a machine offset. *)
Definition boundary_at (body : text) (i : N) : bool := is_char_boundary body (N.to_nat i).

Definition validate (body : text) (s : PiiSpan) : verdict :=
  match checked_add (start s) (len s) with
  | None => OutOfBounds
  | Some end' =>
      if N.of_nat (length body) <? end' then OutOfBounds
      else if negb (boundary_at body (start s)) || negb (boundary_at body end') then Utf8Boundary
      else Accepted
  end.

Definition count_verdict (body : text) (v : verdict) (spans : list PiiSpan) : nat :=
  length (filter (λ s, validate body s = v) spans).

(** ** Fusion *)

Definition cmp_then (c1 c2 : comparison) : comparison := match c1 with Eq => c2 | _ => c1 end.

(** The comparison of the first sort: category text, then start, then longest first. *)
Definition group_cmp (a b : PiiSpan) : comparison :=
  cmp_then (String.compare (category_as_str (category a)) (category_as_str (category b)))
    (cmp_then (start a ?= start b) (len b ?= len a)).

(** The comparison of the last sort: start, then longest first. *)
Definition body_cmp (a b : PiiSpan) : comparison :=
  cmp_then (start a ?= start b) (len b ?= len a).

Definition cmp_le (cmp : PiiSpan → PiiSpan → comparison) (a b : PiiSpan) : Prop := cmp a b ≠ Gt.
#[export] Instance cmp_le_dec cmp : RelDecision (cmp_le cmp).
Proof. intros a b. unfold cmp_le. apply _. Defined.

(** [v.sort_by(cmp)]. *)
Definition sort_by (cmp : PiiSpan → PiiSpan → comparison) (l : list PiiSpan) : list PiiSpan :=
  merge_sort (cmp_le cmp) l.

Definition span_end (s : PiiSpan) : N := start s + len s.

Definition absorbs (current span : PiiSpan) : bool :=
  bool_decide (category current = category span) && (start span <? span_end current).

(** The union of two ranges, with the highest score. *)
Definition absorb (current span : PiiSpan) : PiiSpan :=
  let end' := N.max (span_end current) (span_end span) in
  mkPiiSpan (start current) (end' - start current) (category current)
    (f32_max (score current) (score span)).

(** The loop; [acc] is [merged] read from its last element, [n] is [stats.merged]. *)
Fixpoint fuse_loop (acc : list PiiSpan) (n : nat) (spans : list PiiSpan) : list PiiSpan * nat :=
  match spans with
  | [] => (reverse acc, n)
  | span :: spans' =>
      match acc with
      | current :: acc' =>
          if absorbs current span then fuse_loop (absorb current span :: acc') (S n) spans'
          else fuse_loop (span :: acc) n spans'
      | [] => fuse_loop [span] n spans'
      end
  end.

Definition validate_and_merge (body : text) (spans : list PiiSpan) : list PiiSpan * MergeStats :=
  let accepted := filter (λ s, validate body s = Accepted) spans in
  let '(fused, n) := fuse_loop [] 0%nat (sort_by group_cmp accepted) in
  (sort_by body_cmp fused,
   mkMergeStats (count_verdict body OutOfBounds spans) (count_verdict body Utf8Boundary spans) 0 n).

(** ** The two orders *)

Lemma category_as_str_inj c1 c2 : category_as_str c1 = category_as_str c2 → c1 = c2.
Proof. by destruct c1, c2. Qed.

Definition cat_lt (a b : PiiSpan) : Prop :=
  String.le (category_as_str (category a)) (category_as_str (category b)) ∧ category a ≠ category b.

Lemma cat_lt_trans a b c : cat_lt a b → cat_lt b c → cat_lt a c.
Proof.
  intros [H1 N1] [H2 N2]. split; [by etrans|]. intros Heq. rewrite Heq in *.
  apply N2, category_as_str_inj. by apply (anti_symm String.le).
Qed.

Lemma cat_total a b : cat_lt a b ∨ category a = category b ∨ cat_lt b a.
Proof.
  unfold cat_lt. destruct (decide (category a = category b)) as [|Hne]; [by right; left|].
  destruct (total String.le (category_as_str (category a)) (category_as_str (category b)));
    [by left|right; right; by split].
Qed.

Lemma string_compare_cases s t :
  match String.compare s t with
  | Eq => s = t
  | Lt => String.le s t ∧ s ≠ t
  | Gt => String.le t s ∧ s ≠ t
  end.
Proof.
  assert (s = t → String.compare s t = Eq) as Hr.
  { intros ->. destruct (String.compare t t) eqn:E; [done|..];
      pose proof (String.compare_antisym t t) as Ha; rewrite E in Ha; done. }
  destruct (String.compare s t) eqn:E.
  - by apply String.compare_eq_iff.
  - split; [unfold String.le, String.leb; by rewrite E|]. intros Heq. by apply Hr in Heq.
  - split; [unfold String.le, String.leb; by rewrite String.compare_antisym, E|].
    intros Heq. by apply Hr in Heq.
Qed.

Lemma group_le_iff a b :
  cmp_le group_cmp a b
  ↔ cat_lt a b ∨ (category a = category b ∧ (start a < start b ∨ (start a = start b ∧ len b ≤ len a))).
Proof.
  unfold cmp_le, group_cmp, cat_lt.
  pose proof (string_compare_cases (category_as_str (category a)) (category_as_str (category b))) as Hc.
  destruct (String.compare _ _); cbn [cmp_then].
  - apply category_as_str_inj in Hc.
    assert (cmp_then (start a ?= start b) (len b ?= len a) ≠ Gt
            ↔ start a < start b ∨ (start a = start b ∧ len b ≤ len a)) as ->.
    { destruct (N.compare_spec (start a) (start b)); cbn [cmp_then];
        [destruct (N.compare_spec (len b) (len a))|..]; split; intros; try done; try lia. }
    naive_solver.
  - split; [|done]. intros _. left. destruct Hc as [? Hne]. split; [done|]. congruence.
  - split; [done|]. destruct Hc as [Hle Hne]. intros [[Hle' _]|[Heq _]]; [|congruence].
    exfalso. apply Hne. by apply (anti_symm String.le).
Qed.

Lemma body_le_iff a b :
  cmp_le body_cmp a b ↔ start a < start b ∨ (start a = start b ∧ len b ≤ len a).
Proof.
  unfold cmp_le, body_cmp. destruct (N.compare_spec (start a) (start b)); cbn [cmp_then];
    [destruct (N.compare_spec (len b) (len a))|..]; split; intros; try done; try lia.
Qed.

#[export] Instance group_le_trans : Transitive (cmp_le group_cmp).
Proof.
  intros a b c. rewrite !group_le_iff. unfold cat_lt.
  intros [H1|[E1 H1]] [H2|[E2 H2]].
  - left. by eapply cat_lt_trans.
  - left. by rewrite <- E2.
  - left. by rewrite E1.
  - right. split; [congruence|lia].
Qed.

#[export] Instance group_le_total : Total (cmp_le group_cmp).
Proof.
  intros a b. rewrite !group_le_iff. destruct (cat_total a b) as [?|[E|?]]; [tauto| |tauto].
  rewrite E. destruct (N.lt_trichotomy (start a) (start b)) as [?|[?|?]]; [tauto| |tauto].
  destruct (N.le_ge_cases (len b) (len a)); [left|right]; right; (split; [done|right; lia]).
Qed.

#[export] Instance body_le_trans : Transitive (cmp_le body_cmp).
Proof. intros a b c. rewrite !body_le_iff. lia. Qed.

#[export] Instance body_le_total : Total (cmp_le body_cmp).
Proof. intros a b. rewrite !body_le_iff. lia. Qed.

(** ** What the fusion keeps *)

Definition span_covers (c : PiiCategory) (i : N) (s : PiiSpan) : Prop :=
  category s = c ∧ start s ≤ i < span_end s.

(** [s] lies inside [o], same category, no better score. *)
Definition inside (s o : PiiSpan) : Prop :=
  category o = category s ∧ start o ≤ start s ∧ span_end s ≤ span_end o ∧ score_ge (score o) (score s).

(** [a] ends before [b] begins, or their categories differ in order. *)
Definition before (a b : PiiSpan) : Prop :=
  cat_lt a b ∨ (category a = category b ∧ span_end a ≤ start b).

#[export] Instance before_trans : Transitive before.
Proof.
  intros a b c. unfold before, cat_lt, span_end. intros [H1|[E1 H1]] [H2|[E2 H2]].
  - left. by eapply cat_lt_trans.
  - left. by rewrite <- E2.
  - left. by rewrite E1.
  - right. split; [congruence|lia].
Qed.

Lemma inside_refl s : inside s s.
Proof. split_and!; [done|lia|lia|apply score_ge_refl]. Qed.

Lemma inside_trans s o p : inside s o → inside o p → inside s p.
Proof.
  intros (? & ? & ? & ?) (? & ? & ? & ?).
  split_and!; [congruence|lia|lia|by eapply score_ge_trans].
Qed.

(** Absorbing what starts no earlier is the exact union. *)
Lemma absorb_spec current span :
  cmp_le group_cmp current span → absorbs current span = true →
  let o := absorb current span in
  inside current o ∧ inside span o
  ∧ (∀ c i, span_covers c i o ↔ span_covers c i current ∨ span_covers c i span)
  ∧ (∀ x, cmp_le group_cmp current x → cmp_le group_cmp o x)
  ∧ start o = start current ∧ span_end o = N.max (span_end current) (span_end span).
Proof.
  rewrite group_le_iff. unfold absorbs. intros Hle [Hcat Hlt]%andb_true_iff.
  apply bool_decide_eq_true in Hcat. apply N.ltb_lt in Hlt.
  destruct Hle as [[_ ?]|[_ Hle]]; [done|]. set (o := absorb current span).
  assert (start o = start current) as Hs by done.
  assert (span_end o = N.max (span_end current) (span_end span)) as He.
  { unfold o, absorb, span_end at 1. cbn [start len]. unfold span_end in *. lia. }
  destruct (f32_max_ge (score current) (score span)) as [Hg1 Hg2].
  split_and!; [..|done|done].
  - split_and!; [done|lia|lia|done].
  - split_and!; [done|lia|lia|done].
  - unfold span_covers. rewrite Hs, He. cbn [category absorb o]. rewrite <- Hcat.
    intros c i. unfold span_end in *. split; [intros [? ?]|intros [[? ?]|[? ?]]]; [|split; [done|lia]..].
    destruct (decide (i < start current + len current)); [left|right]; (split; [done|lia]).
  - intros x. rewrite !group_le_iff. unfold cat_lt. cbn [category absorb o]. rewrite Hs.
    assert (len current ≤ len o) by (unfold o, absorb, span_end in *; cbn [len]; lia).
    intros [?|[? ?]]; [tauto|right; split; [done|lia]].
Qed.

(** The loop without its accumulator: the fused list from a current span on, and the
    number of unions. *)
Fixpoint fuse_from (current : PiiSpan) (l : list PiiSpan) : list PiiSpan * nat :=
  match l with
  | [] => ([current], 0%nat)
  | s :: l' =>
      if absorbs current s then let r := fuse_from (absorb current s) l' in (r.1, S r.2)
      else let r := fuse_from s l' in (current :: r.1, r.2)
  end.

Lemma fuse_loop_from acc n current l :
  fuse_loop (current :: acc) n l
  = (reverse acc ++ (fuse_from current l).1, (n + (fuse_from current l).2)%nat).
Proof.
  revert acc n current. induction l as [|s l IH]; intros acc n current; cbn [fuse_loop fuse_from].
  { rewrite reverse_cons. f_equal. simpl. lia. }
  destruct (absorbs current s); rewrite IH; simpl.
  - f_equal. lia.
  - by rewrite reverse_cons, <- (assoc (++)).
Qed.

Lemma fuse_from_head current l :
  ∃ o rest, (fuse_from current l).1 = o :: rest ∧ start o = start current ∧ category o = category current.
Proof.
  revert current. induction l as [|s l IH]; intros current; cbn [fuse_from]; [by do 2 eexists|].
  destruct (absorbs current s); simpl; [|by do 2 eexists].
  destruct (IH (absorb current s)) as (o & rest & -> & Hs & Hc). by exists o, rest.
Qed.

Lemma fuse_from_sorted current l :
  StronglySorted (cmp_le group_cmp) (current :: l) → Sorted before (fuse_from current l).1.
Proof.
  revert current. induction l as [|s l IH]; intros current Hs; cbn [fuse_from]; [by repeat constructor|].
  apply StronglySorted_inv in Hs as [Hs Hc]. inversion Hc as [|? ? Hcs Hcl]; subst.
  destruct (absorbs current s) eqn:Ea; simpl.
  - apply IH. apply StronglySorted_inv in Hs as [Hs _]. constructor; [done|].
    destruct (absorb_spec current s Hcs Ea) as (_ & _ & _ & Hx & _).
    eapply Forall_impl; [done|]. exact Hx.
  - constructor; [by apply IH|]. destruct (fuse_from_head s l) as (o & rest & -> & Ho & Hoc).
    constructor. unfold before, cat_lt. rewrite Ho, Hoc.
    apply group_le_iff in Hcs as [?|[Hcat Hst]]; [by left|right]. split; [done|].
    unfold absorbs in Ea. rewrite bool_decide_eq_true_2 in Ea by done. simpl in Ea.
    by apply N.ltb_ge in Ea.
Qed.

Lemma fuse_from_keeps current l :
  StronglySorted (cmp_le group_cmp) (current :: l) →
  (∀ c i, Exists (span_covers c i) (fuse_from current l).1 ↔ Exists (span_covers c i) (current :: l))
  ∧ (∀ s, s ∈ current :: l → ∃ o, o ∈ (fuse_from current l).1 ∧ inside s o)
  ∧ (∀ o, o ∈ (fuse_from current l).1 →
       ∃ s1 s2, s1 ∈ current :: l ∧ s2 ∈ current :: l ∧ start o = start s1 ∧ span_end o = span_end s2)
  ∧ (length (fuse_from current l).1 + (fuse_from current l).2 = S (length l))%nat.
Proof.
  revert current. induction l as [|s l IH]; intros current Hs; cbn [fuse_from].
  { split_and!; [done| |set_solver|done]. intros s Hin. exists s. split; [done|apply inside_refl]. }
  apply StronglySorted_inv in Hs as [Hs Hc]. inversion Hc as [|? ? Hcs Hcl]; subst.
  destruct (absorbs current s) eqn:Ea; cbn [fst snd].
  - destruct (absorb_spec current s Hcs Ea) as (Hi1 & Hi2 & Hcov & Hx & Hst & Hen).
    destruct (IH (absorb current s)) as (IHc & IHi & IHo & IHn).
    { apply StronglySorted_inv in Hs as [Hs _]. constructor; [done|].
      eapply Forall_impl; [done|]. exact Hx. }
    split_and!.
    + intros c i. rewrite IHc, !Exists_cons, Hcov. tauto.
    + intros x Hin. set_unfold in Hin. destruct Hin as [->|[->|Hin]].
      * destruct (IHi (absorb current s)) as (o & Ho & ?); [by left|]. eauto using inside_trans.
      * destruct (IHi (absorb current s)) as (o & Ho & ?); [by left|]. eauto using inside_trans.
      * apply IHi. by right.
    + intros o Ho. destruct (IHo o Ho) as (s1 & s2 & H1 & H2 & E1 & E2).
      assert (∀ y, y ∈ absorb current s :: l → y = absorb current s ∨ y ∈ current :: s :: l) as Hy
        by set_solver.
      assert (∃ t1, t1 ∈ current :: s :: l ∧ start o = start t1) as (t1 & Ht1 & Et1).
      { destruct (Hy s1 H1) as [->|]; [exists current; split; [by left|congruence]|by eauto]. }
      assert (∃ t2, t2 ∈ current :: s :: l ∧ span_end o = span_end t2) as (t2 & Ht2 & Et2).
      { destruct (Hy s2 H2) as [->|]; [|by eauto]. rewrite Hen in E2.
        destruct (N.max_spec (span_end current) (span_end s)) as [[_ Em]|[_ Em]]; rewrite Em in E2;
          [exists s|exists current]; (split; [set_solver|done]). }
      by exists t1, t2.
    + simpl in *. lia.
  - destruct (IH s Hs) as (IHc & IHi & IHo & IHn). split_and!.
    + intros c i. by rewrite Exists_cons, IHc, !Exists_cons.
    + intros x Hin. apply elem_of_cons in Hin as [->|Hin]; [exists current; split; [by left|apply inside_refl]|].
      destruct (IHi x Hin) as (o & ? & ?). exists o. split; [by right|done].
    + intros o Ho. apply elem_of_cons in Ho as [->|Ho]; [exists current, current; split_and!; (by left) || done|].
      destruct (IHo o Ho) as (s1 & s2 & ? & ? & ? & ?). exists s1, s2. split_and!; (by right) || done.
    + simpl in *. lia.
Qed.

(** Two spans of one category that share no byte, in either order. *)
Definition apart (a b : PiiSpan) : Prop :=
  category a = category b → span_end a ≤ start b ∨ span_end b ≤ start a.

Lemma pairwise_perm {A} (R : relation A) `{!Symmetric R} l l' :
  Permutation l l' → StronglySorted R l → StronglySorted R l'.
Proof.
  induction 1 as [|x l l' Hp IH|x y l|l l' l'' _ IH1 _ IH2]; [done| | |auto].
  - intros [Hs Hx]%StronglySorted_inv. constructor; [by apply IH|]. by rewrite <- Hp.
  - intros [[Hs Hx]%StronglySorted_inv Hy]%StronglySorted_inv. inversion Hy; subst.
    repeat constructor; [done..|by apply symmetry|done].
Qed.

#[export] Instance apart_sym : Symmetric apart.
Proof. intros a b Hab Heq. destruct (Hab (eq_sym Heq)); tauto. Qed.

Lemma before_apart a b : before a b → apart a b.
Proof. intros [[_ ?]|[_ ?]] Heq; [done|by left]. Qed.

(** A span the body can hold: no overflow, inside, on character boundaries. *)
Definition in_body (body : text) (s : PiiSpan) : Prop :=
  span_end s ≤ usize_top ∧ span_end s ≤ N.of_nat (length body)
  ∧ boundary_at body (start s) = true ∧ boundary_at body (span_end s) = true.

Lemma validate_accepted body s : validate body s = Accepted ↔ in_body body s.
Proof.
  unfold validate, in_body, checked_add, span_end.
  destruct (N.leb_spec (start s + len s) usize_top); [|split; [done|lia]].
  destruct (N.ltb_spec (N.of_nat (length body)) (start s + len s)); [split; [done|lia]|].
  destruct (boundary_at body (start s)), (boundary_at body (start s + len s)); cbn; naive_solver.
Qed.

Lemma verdict_counts body spans :
  (count_verdict body OutOfBounds spans + count_verdict body Utf8Boundary spans
   + length (filter (λ s, validate body s = Accepted) spans) = length spans)%nat.
Proof.
  unfold count_verdict. induction spans as [|s spans IH]; [done|]. rewrite !filter_cons.
  destruct (validate body s); repeat (case_decide; [|]); simplify_eq; simpl; lia.
Qed.

Lemma fuse_loop_spec l :
  StronglySorted (cmp_le group_cmp) l →
  let r := fuse_loop [] 0%nat l in
  StronglySorted apart r.1
  ∧ (∀ c i, Exists (span_covers c i) r.1 ↔ Exists (span_covers c i) l)
  ∧ (∀ s, s ∈ l → ∃ o, o ∈ r.1 ∧ inside s o)
  ∧ (∀ o, o ∈ r.1 → ∃ s1 s2, s1 ∈ l ∧ s2 ∈ l ∧ start o = start s1 ∧ span_end o = span_end s2)
  ∧ (length r.1 + r.2 = length l)%nat.
Proof.
  destruct l as [|s l]; [intros _; split_and!; [constructor|done|set_solver|set_solver|done]|].
  intros Hs. cbn [fuse_loop]. rewrite fuse_loop_from.
  destruct (fuse_from_keeps s l Hs) as (Hc & Hi & Ho & Hn). split_and!; [|done..].
  pose proof (fuse_from_sorted s l Hs) as Hso. apply Sorted_StronglySorted in Hso; [|apply _].
  cbn [fst reverse rev_append app]. clear -Hso.
  induction Hso as [|a l' _ IH Ha]; constructor; [done|].
  eapply Forall_impl; [exact Ha|]. apply before_apart.
Qed.

Lemma validate_and_merge_spec (body : text) (spans : list PiiSpan) :
  let out := (validate_and_merge body spans).1 in
  let stats := (validate_and_merge body spans).2 in
  StronglySorted (cmp_le body_cmp) out
  ∧ Forall (in_body body) out
  ∧ StronglySorted apart out
  ∧ (∀ c i, Exists (span_covers c i) out ↔ ∃ s, s ∈ spans ∧ in_body body s ∧ span_covers c i s)
  ∧ (∀ s, s ∈ spans → in_body body s → ∃ o, o ∈ out ∧ inside s o)
  ∧ (rejected_out_of_bounds stats + rejected_utf8_boundary stats + merged stats + length out
     = length spans)%nat.
Proof.
  unfold validate_and_merge.
  set (accepted := filter (λ s, validate body s = Accepted) spans).
  assert (∀ s, s ∈ sort_by group_cmp accepted ↔ s ∈ spans ∧ in_body body s) as Hacc.
  { intros s. unfold sort_by, accepted.
    rewrite merge_sort_Permutation, list_elem_of_filter, validate_accepted. tauto. }
  destruct (fuse_loop_spec (sort_by group_cmp accepted)) as (Hap & Hc & Hi & Ho & Hn);
    [apply (StronglySorted_merge_sort (cmp_le group_cmp))|].
  destruct (fuse_loop [] 0%nat (sort_by group_cmp accepted)) as [fused n]. cbn [fst snd] in *.
  assert (Permutation (sort_by body_cmp fused) fused) as Hp by apply merge_sort_Permutation.
  split_and!.
  - apply (StronglySorted_merge_sort (cmp_le body_cmp)).
  - rewrite Hp. apply Forall_forall. intros o Hin. destruct (Ho o Hin) as (s1 & s2 & H1 & H2 & E1 & E2).
    apply Hacc in H1 as [_ (_ & _ & Hb1 & _)], H2 as [_ (H21 & H22 & _ & Hb2)].
    split_and!; rewrite ?E1, ?E2; done.
  - by eapply (pairwise_perm apart); [symmetry|].
  - intros c i. rewrite Hp, Hc, Exists_exists. setoid_rewrite Hacc. naive_solver.
  - intros s Hs Hb. destruct (Hi s) as (o & Hin & ?); [by apply Hacc|]. exists o. by rewrite Hp.
  - pose proof (verdict_counts body spans) as Hv. fold accepted in Hv. cbn.
    rewrite Hp. unfold sort_by in Hn. rewrite (merge_sort_Permutation _ accepted) in Hn. lia.
Qed.

Lemma validate_and_merge_exact_cover body spans c i :
  Exists (span_covers c i) (validate_and_merge body spans).1
  ↔ ∃ s, s ∈ spans ∧ in_body body s ∧ span_covers c i s.
Proof. apply validate_and_merge_spec. Qed.

(** What validation and fusion return.  [validate_and_merge] keeps exactly what can be
    applied: the result is in body order; every span of it lies in the body on character
    boundaries; two spans of one category never share a byte; a byte is covered in a
    category exactly when a usable input span of that category covers it, so nothing is
    lost and nothing is invented; every usable input lies whole inside a result of its
    category whose score is no lower; and the counters account for every input. *)
Theorem validate_and_merge_exact (body : text) (spans : list PiiSpan) :
  let out := (validate_and_merge body spans).1 in
  let stats := (validate_and_merge body spans).2 in
  StronglySorted (cmp_le body_cmp) out
  ∧ Forall (in_body body) out
  ∧ StronglySorted apart out
  ∧ (∀ c i, Exists (span_covers c i) out ↔ ∃ s, s ∈ spans ∧ in_body body s ∧ span_covers c i s)
  ∧ (∀ s, s ∈ spans → in_body body s → ∃ o, o ∈ out ∧ inside s o)
  ∧ (rejected_out_of_bounds stats + rejected_utf8_boundary stats + merged stats + length out
     = length spans)%nat.
Proof. apply validate_and_merge_spec. Qed.
