(* ===== verification/Masking.v ===== *)
(** * Masking: rewriting a body over its spans

    Models [mask_spans] and [PrivacyPolicy::retain] of [crates/gradatum-core/src/pii.rs].
    [mask_spans] is shown equal to a reference that walks the body byte by byte and
    writes one filler per maximal masked run. *)

From S2P Require Import Prelude Job Windowing Spans.
From Stdlib Require Import Ascii SpecFloat.

#[local] Open Scope nat_scope.

Definition MASK_FILLER : text := String.list_ascii_of_string "[redacted]".

(** The range of a span that can be masked; offsets in the body fit a [nat]. *)
Definition mask_range (body : text) (s : PiiSpan) : option (nat * nat) :=
  match checked_add (start s) (len s) with
  | None => None
  | Some end' =>
      if ((end' <=? start s) || (N.of_nat (length body) <? end'))%N
         || negb (boundary_at body (start s)) || negb (boundary_at body end')
      then None
      else Some (N.to_nat (start s), N.to_nat end')
  end.

Definition range_le (a b : nat * nat) : Prop := a.1 < b.1 ∨ (a.1 = b.1 ∧ a.2 ≤ b.2).
#[export] Instance range_le_dec : RelDecision range_le.
Proof. intros a b. unfold range_le. apply _. Defined.

(** [ranges.sort_unstable()]: equal ranges are interchangeable. *)
Definition sort_ranges (l : list (nat * nat)) : list (nat * nat) := merge_sort range_le l.

(** The merge loop; [acc] is [merged] read from its last element. *)
Fixpoint merge_loop (acc l : list (nat * nat)) : list (nat * nat) :=
  match l with
  | [] => reverse acc
  | (s, e) :: l' =>
      match acc with
      | (ls, le) :: acc' =>
          if s <=? le then merge_loop ((ls, Nat.max le e) :: acc') l'
          else merge_loop ((s, e) :: acc) l'
      | [] => merge_loop [(s, e)] l'
      end
  end.

(** The writing loop from [cursor] on. *)
Fixpoint write_masked (body : text) (cursor : nat) (l : list (nat * nat)) : text :=
  match l with
  | [] => drop cursor body
  | (s, e) :: l' => slice body cursor s ++ MASK_FILLER ++ write_masked body e l'
  end.

Definition mask_spans (body : text) (spans : list PiiSpan) : text :=
  let ranges := omap (mask_range body) spans in
  match ranges with
  | [] => body
  | _ => write_masked body 0 (merge_loop [] (sort_ranges ranges))
  end.

(** ** The reference *)

(** Byte [i] lies in one of the ranges. *)
Definition in_ranges (l : list (nat * nat)) (i : nat) : bool :=
  existsb (λ r, (r.1 <=? i) && (i <? r.2)) l.

(** From byte [i] on; [prev] says whether the byte before was masked. *)
Fixpoint redact (masked : nat → bool) (prev : bool) (i : nat) (l : text) : text :=
  match l with
  | [] => []
  | c :: l' =>
      (if masked i then (if prev then [] else MASK_FILLER) else [c])
      ++ redact masked (masked i) (S i) l'
  end.

(** A byte of the body is to be masked when a usable, non-empty span covers it. *)
Definition to_mask (body : text) (spans : list PiiSpan) (i : nat) : bool :=
  in_ranges (omap (mask_range body) spans) i.

Lemma redact_ext f g prev i l :
  (∀ j, i ≤ j → f j = g j) → redact f prev i l = redact g prev i l.
Proof.
  revert prev i. induction l as [|c l IH]; intros prev i Hfg; [done|]. cbn [redact].
  rewrite (Hfg i) by lia. f_equal. apply IH. intros j Hj. apply Hfg. lia.
Qed.

(** A stretch of [n] unmasked bytes is copied. *)
Lemma redact_plain f prev i n l :
  (∀ j, i ≤ j < i + n → f j = false) → n ≤ length l → (n = 0 → prev = false) →
  redact f prev i l = take n l ++ redact f false (i + n) (drop n l).
Proof.
  revert prev i l. induction n as [|n IH]; intros prev i l Hf Hl Hp.
  { rewrite Nat.add_0_r, Hp by done. done. }
  destruct l as [|c l]; simpl in Hl; [lia|]. cbn [redact take drop app]. rewrite (Hf i) by lia.
  simpl. f_equal. rewrite IH; [by rewrite Nat.add_succ_r|..].
  - intros j Hj. apply Hf. lia.
  - lia.
  - done.
Qed.

(** A stretch of masked bytes after a masked one writes nothing. *)
Lemma redact_masked f i n l :
  (∀ j, i ≤ j < i + n → f j = true) → n ≤ length l →
  redact f true i l = redact f true (i + n) (drop n l).
Proof.
  revert i l. induction n as [|n IH]; intros i l Hf Hl; [by rewrite Nat.add_0_r|].
  destruct l as [|c l]; simpl in Hl; [lia|]. cbn [redact drop]. rewrite (Hf i) by lia. simpl.
  rewrite IH; [by rewrite Nat.add_succ_r| |lia]. intros j Hj. apply Hf. lia.
Qed.

(** A maximal run of [n] masked bytes becomes one filler. *)
Lemma redact_run f i n l :
  0 < n → (∀ j, i ≤ j < i + n → f j = true) → f (i + n) = false → n ≤ length l →
  redact f false i l = MASK_FILLER ++ redact f false (i + n) (drop n l).
Proof.
  intros Hn Hf Hend Hl. destruct n as [|n]; [lia|].
  destruct l as [|c l]; simpl in Hl; [lia|]. cbn [redact drop]. rewrite (Hf i) by lia. f_equal.
  rewrite (redact_masked _ _ n); [|intros j Hj; apply Hf; lia|lia].
  rewrite Nat.add_succ_r in *. simpl. destruct (drop n l) as [|d l'] eqn:Ed; [done|].
  cbn [redact]. by rewrite Hend.
Qed.

(** Ranges in order, non-empty, with at least one byte between them. *)
Definition separated (a b : nat * nat) : Prop := a.2 < b.1.

Lemma in_ranges_false l i : (∀ r, r ∈ l → i < r.1 ∨ r.2 ≤ i) → in_ranges l i = false.
Proof.
  intros Hl. apply not_true_iff_false. unfold in_ranges. rewrite existsb_exists.
  intros (r & Hr%list_elem_of_In & [H1%Nat.leb_le H2%Nat.ltb_lt]%andb_true_iff).
  destruct (Hl r Hr); lia.
Qed.

Lemma write_masked_redact body l cursor :
  StronglySorted separated l → Forall (λ r, r.1 < r.2 ≤ length body) l →
  Forall (λ r, cursor ≤ r.1) l → cursor ≤ length body →
  write_masked body cursor l = redact (in_ranges l) false cursor (drop cursor body).
Proof.
  revert cursor. induction l as [|[s e] l IH]; intros cursor Hs Hr Hc Hcl; cbn [write_masked].
  { rewrite (redact_plain _ _ _ (length body - cursor)).
    - rewrite drop_drop, Nat.add_comm, Nat.sub_add by done. rewrite (drop_ge body (length body)) by done.
      simpl. rewrite app_nil_r, take_ge; [done|]. rewrite length_drop. lia.
    - done.
    - rewrite length_drop. lia.
    - done. }
  apply StronglySorted_inv in Hs as [Hs Hsep]. apply Forall_cons in Hr as [Hse Hr].
  apply Forall_cons in Hc as [Hcs Hc]. simpl in Hse, Hcs. rewrite !Forall_forall in *.
  assert (∀ j, j < s → in_ranges ((s, e) :: l) j = false) as Hbefore.
  { intros j Hj. apply in_ranges_false. intros r [->|Hin]%elem_of_cons; [left; simpl; lia|].
    left. specialize (Hsep r Hin). specialize (Hr r Hin). unfold separated in Hsep. simpl in *. lia. }
  assert (in_ranges ((s, e) :: l) e = false) as Hat.
  { apply in_ranges_false. intros r [->|Hin]%elem_of_cons; [right; simpl; lia|].
    left. specialize (Hsep r Hin). unfold separated in Hsep. simpl in *. lia. }
  rewrite (redact_plain _ _ _ (s - cursor));
    [|intros j Hj; apply Hbefore; lia|rewrite length_drop; lia|done].
  unfold slice. f_equal. rewrite drop_drop.
  replace (cursor + (s - cursor)) with s by lia.
  rewrite (redact_run _ _ (e - s)).
  - replace (s + (e - s)) with e by lia. f_equal. rewrite drop_drop.
    replace (s + (e - s)) with e by lia. rewrite IH.
    + apply redact_ext. intros j Hj. unfold in_ranges. cbn [existsb fst snd].
      rewrite (proj2 (Nat.ltb_ge j e)) by lia. by rewrite andb_false_r.
    + done.
    + by apply Forall_forall.
    + apply Forall_forall. intros r Hin. specialize (Hsep r Hin). unfold separated in Hsep. simpl in *. lia.
    + lia.
  - lia.
  - intros j Hj. unfold in_ranges. cbn [existsb fst snd].
    rewrite (proj2 (Nat.leb_le s j)), (proj2 (Nat.ltb_lt j e)) by lia. done.
  - by replace (s + (e - s)) with e by lia.
  - rewrite length_drop. lia.
Qed.

(** ** Merging ranges *)

#[export] Instance range_le_trans : Transitive range_le.
Proof. intros a b c. unfold range_le. lia. Qed.
#[export] Instance range_le_total : Total range_le.
Proof. intros a b. unfold range_le. lia. Qed.

Fixpoint merge_from (current : nat * nat) (l : list (nat * nat)) : list (nat * nat) :=
  match l with
  | [] => [current]
  | r :: l' =>
      if r.1 <=? current.2 then merge_from (current.1, Nat.max current.2 r.2) l'
      else current :: merge_from r l'
  end.

Lemma merge_loop_from acc current l :
  merge_loop (current :: acc) l = reverse acc ++ merge_from current l.
Proof.
  revert acc current. induction l as [|[s e] l IH]; intros acc [ls le]; cbn [merge_loop merge_from fst snd].
  { by rewrite reverse_cons. }
  destruct (s <=? le); rewrite IH; [done|]. by rewrite reverse_cons, <- (assoc (++)).
Qed.

Lemma merge_from_head current l :
  ∃ o rest, merge_from current l = o :: rest ∧ o.1 = current.1.
Proof.
  revert current. induction l as [|r l IH]; intros current; cbn [merge_from]; [by do 2 eexists|].
  destruct (r.1 <=? current.2); [|by do 2 eexists].
  destruct (IH (current.1, current.2 `max` r.2)) as (o & rest & -> & Ho). by exists o, rest.
Qed.

Definition starts_le (a b : nat * nat) : Prop := a.1 ≤ b.1.

Lemma merge_from_spec n current l :
  StronglySorted starts_le (current :: l) → Forall (λ r, r.1 < r.2 ≤ n) (current :: l) →
  Sorted separated (merge_from current l)
  ∧ Forall (λ r, r.1 < r.2 ≤ n) (merge_from current l)
  ∧ ∀ i, in_ranges (merge_from current l) i = in_ranges (current :: l) i.
Proof.
  revert current. induction l as [|r l IH]; intros current Hs Hr; cbn [merge_from].
  { split_and!; [by repeat constructor|done|done]. }
  apply StronglySorted_inv in Hs as [Hs Hc]. inversion Hc as [|? ? Hcr Hcl]; subst.
  apply Forall_cons in Hr as [Hr1 Hr]. pose proof Hr as [Hr2 Hr3]%Forall_cons.
  destruct (Nat.leb_spec r.1 current.2) as [Hle|Hgt].
  - destruct (IH (current.1, current.2 `max` r.2)) as (IH1 & IH2 & IH3).
    + apply StronglySorted_inv in Hs as [Hs _]. by constructor.
    + constructor; [simpl; lia|done].
    + split_and!; [done|done|]. intros i. rewrite IH3. unfold in_ranges. cbn [existsb fst snd].
      rewrite orb_assoc. f_equal. apply eq_true_iff_eq.
      rewrite orb_true_iff, !andb_true_iff, !Nat.leb_le, !Nat.ltb_lt.
      unfold starts_le in Hcr. lia.
  - destruct (IH r Hs Hr) as (IH1 & IH2 & IH3). split_and!.
    + constructor; [done|]. destruct (merge_from_head r l) as (o & rest & -> & Ho).
      constructor. unfold separated. by rewrite Ho.
    + by constructor.
    + intros i. unfold in_ranges in *. cbn [existsb]. by rewrite IH3.
Qed.

Lemma separated_strongly n l :
  Sorted separated l → Forall (λ r, r.1 < r.2 ≤ n) l → StronglySorted separated l.
Proof.
  induction l as [|a l IH]; intros Hs Hr; [constructor|].
  apply Sorted_inv in Hs as [Hs Ha]. apply Forall_cons in Hr as [_ Hr].
  specialize (IH Hs Hr). constructor; [done|]. destruct l as [|b l]; [constructor|].
  inversion Ha; subst. apply StronglySorted_inv in IH as [_ Hb].
  apply Forall_cons in Hr as [Hbb _]. constructor; [done|].
  eapply Forall_impl; [exact Hb|]. unfold separated in *. intros c Hc. lia.
Qed.

Lemma mask_range_iff body s r :
  mask_range body s = Some r
  ↔ in_body body s ∧ (start s < span_end s)%N ∧ r = (N.to_nat (start s), N.to_nat (span_end s)).
Proof.
  unfold mask_range, checked_add, in_body, span_end.
  destruct (N.leb_spec (start s + len s) usize_top); [|split; [done|lia]].
  destruct (N.leb_spec (start s + len s) (start s)); [split; [done|lia]|].
  destruct (N.ltb_spec (N.of_nat (length body)) (start s + len s)); [split; [done|lia]|].
  destruct (boundary_at body (start s)), (boundary_at body (start s + len s)); cbn;
    naive_solver.
Qed.

Lemma mask_range_ok body s r : mask_range body s = Some r → r.1 < r.2 ≤ length body.
Proof. intros ((_ & Hl & _) & Hlt & ->)%mask_range_iff. simpl. lia. Qed.

Lemma ranges_in_body body spans :
  Forall (λ r, r.1 < r.2 ≤ length body) (omap (mask_range body) spans).
Proof.
  apply Forall_forall. intros r (s & _ & Hs)%list_elem_of_omap. by eapply mask_range_ok.
Qed.

Lemma in_ranges_perm l l' i : Permutation l l' → in_ranges l i = in_ranges l' i.
Proof.
  intros Hp. apply eq_true_iff_eq. unfold in_ranges. rewrite !existsb_exists.
  split; intros (r & Hin & Hr); exists r; (split; [|done]);
    [by eapply Permutation_in|by eapply Permutation_in; [symmetry|]].
Qed.

Lemma mask_spans_redact body spans :
  mask_spans body spans = redact (to_mask body spans) false 0 body.
Proof.
  unfold mask_spans, to_mask. pose proof (ranges_in_body body spans) as Hok.
  destruct (omap (mask_range body) spans) as [|r0 rs] eqn:Er.
  { rewrite (redact_plain _ _ _ (length body)); [|done..].
    rewrite (take_ge body), (drop_ge body) by done. simpl. by rewrite app_nil_r. }
  set (l := r0 :: rs) in *. unfold sort_ranges.
  assert (Permutation (merge_sort range_le l) l) as Hp by apply merge_sort_Permutation.
  pose proof (StronglySorted_merge_sort range_le l) as Hs.
  destruct (merge_sort range_le l) as [|r rest] eqn:Em.
  { by apply Permutation_nil_l in Hp. }
  cbn [merge_loop]. destruct r as [s e]. rewrite merge_loop_from. cbn [reverse rev_append app].
  destruct (merge_from_spec (length body) (s, e) rest) as (H1 & H2 & H3).
  - clear -Hs. induction Hs as [|a l _ IH Ha]; constructor; [done|].
    eapply Forall_impl; [done|]. unfold range_le, starts_le. lia.
  - by rewrite Hp.
  - rewrite write_masked_redact.
    + rewrite drop_0. apply redact_ext. intros i _. rewrite H3. by apply in_ranges_perm.
    + by eapply separated_strongly.
    + done.
    + apply Forall_forall. lia.
    + lia.
Qed.

Lemma to_mask_iff body spans i :
  to_mask body spans i = true ↔
  ∃ s, s ∈ spans ∧ in_body body s ∧ (start s <= N.of_nat i < span_end s)%N.
Proof.
  unfold to_mask, in_ranges. rewrite existsb_exists. split.
  - intros (r & Hr%list_elem_of_In & [H1%Nat.leb_le H2%Nat.ltb_lt]%andb_true_iff).
    apply list_elem_of_omap in Hr as (s & Hs & Hr). exists s. split; [done|].
    apply mask_range_iff in Hr as (Hin & _ & ->). simpl in *. split; [done|lia].
  - intros (s & Hs & Hin & Hi). exists (N.to_nat (start s), N.to_nat (span_end s)). split.
    + apply list_elem_of_In, list_elem_of_omap. exists s. split; [done|].
      apply mask_range_iff. split_and!; [done|lia|done].
    + simpl. apply andb_true_iff. rewrite Nat.leb_le, Nat.ltb_lt. lia.
Qed.

(** The masked bytes do not reach the result. *)
Lemma redact_blind f prev l l' :
  length l' = length l → (∀ i, f i = false → l' !! i = l !! i) →
  redact f prev 0 l' = redact f prev 0 l.
Proof.
  intros Hl Hf.
  cut (∀ k i prev, i + k = length l → redact f prev i (drop i l') = redact f prev i (drop i l)).
  { intros Hc. by apply (Hc (length l) 0 prev). }
  induction k as [|k IH]; intros i pr Hi; [by rewrite !drop_ge by lia|].
  destruct (lookup_lt_is_Some_2 l i) as [c Hc]; [lia|].
  destruct (lookup_lt_is_Some_2 l' i) as [c' Hc']; [lia|].
  rewrite (drop_S l c), (drop_S l' c') by done. cbn [redact]. rewrite IH by lia. f_equal.
  destruct (f i) eqn:E; [done|]. apply Hf in E. congruence.
Qed.

(** ** Exceptions *)

(** [text.starts_with(pattern)] and [text.contains(pattern)] on bytes. *)
Fixpoint is_prefix_of (pattern t : text) : bool :=
  match pattern, t with
  | [], _ => true
  | p :: pattern', c :: t' => Ascii.eqb p c && is_prefix_of pattern' t'
  | _ :: _, [] => false
  end.
Fixpoint contains_pattern (pattern t : text) : bool :=
  is_prefix_of pattern t
  || match t with [] => false | _ :: t' => contains_pattern pattern t' end.

(** [body.get(a..b)]: nothing when the range leaves the body or cuts a character. *)
Definition get_range (body : text) (a b : N) : option text :=
  if ((a <=? b) && (b <=? N.of_nat (length body)))%N && boundary_at body a && boundary_at body b
  then Some (slice body (N.to_nat a) (N.to_nat b)) else None.

Definition excepts (t pattern : text) : bool :=
  negb (bool_decide (pattern = [])) && contains_pattern pattern t.

(** What an exception list does to one span: the first pattern it contains. *)
Definition covering_pattern (patterns : list text) (body : text) (s : PiiSpan) : option text :=
  match get_range body (start s) (saturating_add (start s) (len s)) with
  | Some t => List.find (excepts t) patterns
  | None => None
  end.

(** [*hits.entry(id).or_insert(0) += 1]. *)
Definition count_hit (id : string) (hits : gmap string N) : gmap string N :=
  <[id := (default 0%N (hits !! id) + 1)%N]> hits.

(** ** Scores in thousandths *)

Section thousandths.
#[local] Open Scope Z_scope.

(** The number an IEEE-754 single bit pattern denotes. *)
Definition f32_decode (s : f32_bits) : spec_float :=
  let sign := Z.testbit s 31 in
  let exponent := Z.land (Z.shiftr s 23) 255 in
  let fraction := Z.land s (2 ^ 23 - 1) in
  if decide (exponent = 255) then
    if decide (fraction = 0) then S754_infinity sign else S754_nan
  else if decide (exponent = 0) then
    match fraction with Zpos m => S754_finite sign m (-149) | _ => S754_zero sign end
  else match fraction + 2 ^ 23 with
       | Zpos m => S754_finite sign m (exponent - 150)
       | _ => S754_zero sign
       end.

Definition f32_zero : f32_bits := 0.
Definition f32_one : f32_bits := 0x3F800000.
Definition f32_thousand : f32_bits := 0x447A0000.

(** [score.clamp(0.0, 1.0)] of a number. *)
Definition f32_clamp01 (s : f32_bits) : f32_bits :=
  if decide (f32_key s < f32_key f32_zero) then f32_zero
  else if decide (f32_key f32_one < f32_key s) then f32_one
  else s.

(** [x.round() as u16]: to the nearest integer, halves away from zero, saturating. *)
Definition round_as_u16 (x : spec_float) : Z :=
  match x with
  | S754_finite false m e =>
      let n := if decide (0 ≤ e) then Zpos m * 2 ^ e
               else (Zpos m + 2 ^ (- e - 1)) `div` 2 ^ (- e) in
      Z.min n 65535
  | S754_infinity false => 65535
  | _ => 0
  end.

(** The product of two singles, rounded to nearest even. *)
Definition f32_mul (a b : spec_float) : spec_float := SFmul 24 128 a b.

Definition score_m (s : f32_bits) : Z :=
  if f32_is_nan s then 0
  else round_as_u16 (f32_mul (f32_decode (f32_clamp01 s)) (f32_decode f32_thousand)).

Definition THRESHOLD_MAX_M : Z := 1000.
End thousandths.

#[export] Instance PiiCategory_countable : Countable PiiCategory.
Proof.
  refine (inj_countable category_as_str
    (λ s, match category_from_str s with Ok c => Some c | Err _ => None end) _).
  by intros [].
Defined.

Section policy.
(** The digest of a pattern (SHA-256, shortened). *)
Context (pattern_id : text → string).

Record PrivacyPolicy := mkPrivacyPolicy {
  mask : bool;
  thresholds : gmap PiiCategory Z;
  exceptions : gmap string (list text);
}.

Definition masks (self : PrivacyPolicy) : bool := mask self.

Definition threshold_m (self : PrivacyPolicy) (c : PiiCategory) : option Z := thresholds self !! c.

Definition marks (self : PrivacyPolicy) (s : PiiSpan) : bool :=
  match threshold_m self (category s) with
  | Some threshold => bool_decide (0 < threshold)%Z && bool_decide (threshold <= score_m (score s))%Z
  | None => false
  end.

Definition exceptions_for (self : PrivacyPolicy) (tenant : string) : list text :=
  default [] (exceptions self !! tenant).

Fixpoint retain_loop (patterns : list text) (body : text) (spans : list PiiSpan)
    (retained : list PiiSpan) (hits : gmap string N) : list PiiSpan * gmap string N :=
  match spans with
  | [] => (retained, hits)
  | s :: spans' =>
      match covering_pattern patterns body s with
      | Some p => retain_loop patterns body spans' retained (count_hit (pattern_id p) hits)
      | None => retain_loop patterns body spans' (retained ++ [s]) hits
      end
  end.

Definition retain (self : PrivacyPolicy) (tenant : string) (body : text) (spans : list PiiSpan) :
    list PiiSpan * gmap string N :=
  let patterns := exceptions_for self tenant in
  match patterns with
  | [] => (spans, ∅)
  | _ => retain_loop patterns body spans [] ∅
  end.

(** The hits of all identifiers together. *)
Definition total_hits (hits : gmap string N) : N := map_fold (λ _ n acc, (n + acc)%N) 0%N hits.

Lemma total_hits_insert_new hits id n :
  hits !! id = None → total_hits (<[id := n]> hits) = (n + total_hits hits)%N.
Proof.
  intros Hid. unfold total_hits. rewrite map_fold_insert_L; [done| |done]. intros. lia.
Qed.

Lemma total_count_hit id hits : total_hits (count_hit id hits) = (total_hits hits + 1)%N.
Proof.
  unfold count_hit. destruct (hits !! id) as [n|] eqn:E; simpl.
  - rewrite <- insert_delete_eq, total_hits_insert_new by apply lookup_delete_eq.
    rewrite <- (insert_id hits id n E) at 2.
    rewrite <- insert_delete_eq, total_hits_insert_new by apply lookup_delete_eq. lia.
  - rewrite total_hits_insert_new by done. lia.
Qed.

Lemma retain_loop_spec patterns body spans retained hits :
  let r := retain_loop patterns body spans retained hits in
  r.1 = retained ++ filter (λ s, covering_pattern patterns body s = None) spans
  ∧ (total_hits r.2 + N.of_nat (length r.1)
     = total_hits hits + N.of_nat (length retained) + N.of_nat (length spans))%N.
Proof.
  revert retained hits. induction spans as [|s spans IH]; intros retained hits; cbn [retain_loop].
  { simpl. rewrite app_nil_r. split; [done|lia]. }
  rewrite filter_cons. destruct (covering_pattern patterns body s) eqn:E.
  - destruct (IH retained (count_hit (pattern_id l) hits)) as [-> IH2]. split.
    + by case_decide.
    + rewrite IH2, total_count_hit. simpl length. lia.
  - destruct (IH (retained ++ [s]) hits) as [-> IH2]. split.
    + rewrite <- (assoc (++)). by case_decide.
    + rewrite IH2, length_app. simpl length. lia.
Qed.

Lemma is_prefix_of_iff pattern t : is_prefix_of pattern t = true ↔ ∃ post, t = pattern ++ post.
Proof.
  revert t. induction pattern as [|p pattern IH]; intros t; [by split; [exists t|]|].
  destruct t as [|c t]; cbn [is_prefix_of]; [by split; [|intros [? ?]]|].
  rewrite andb_true_iff, Ascii.eqb_eq, IH. naive_solver.
Qed.

Lemma contains_pattern_iff pattern t :
  contains_pattern pattern t = true ↔ ∃ pre post, t = pre ++ pattern ++ post.
Proof.
  induction t as [|c t IH]; cbn [contains_pattern]; rewrite orb_true_iff, is_prefix_of_iff.
  - split; [intros [[post ->]|?]; [by exists [], post|done]|]. intros (pre & post & Hp). left.
    destruct pre; [by exists post|done].
  - rewrite IH. split.
    + intros [[post Hp]|(pre & post & ->)]; [by exists [], post|by exists (c :: pre), post].
    + intros ([|d pre] & post & Hp); [left; by exists post|right]. injection Hp as -> ->. eauto.
Qed.

(** The span's text contains a declared pattern. *)
Definition excepted (patterns : list text) (body : text) (s : PiiSpan) : Prop :=
  ∃ t p pre post, get_range body (start s) (saturating_add (start s) (len s)) = Some t
    ∧ p ∈ patterns ∧ p ≠ [] ∧ t = pre ++ p ++ post.

Lemma covering_pattern_None patterns body s :
  covering_pattern patterns body s = None ↔ ¬ excepted patterns body s.
Proof.
  unfold covering_pattern, excepted.
  destruct (get_range body _ _) as [t|]; [|split; [intros _ (?&?&?&?&?&_)|]; done].
  split.
  - intros Hf (t' & p & pre & post & [= <-] & Hp & Hne & Ht).
    eapply List.find_none in Hf; [|by apply list_elem_of_In]. revert Hf. unfold excepts.
    rewrite bool_decide_eq_false_2 by done. simpl. apply not_false_iff_true, contains_pattern_iff. eauto.
  - intros Hn. destruct (List.find (excepts t) patterns) as [p|] eqn:Ef; [|done].
    apply List.find_some in Ef as [Hin [Hne Hc]%andb_true_iff]. destruct Hn.
    apply contains_pattern_iff in Hc as (pre & post & Ht).
    exists t, p, pre, post. split_and!; [done|by apply list_elem_of_In| |done].
    intros ->. by rewrite bool_decide_eq_true_2 in Hne.
Qed.

(** Exceptions drop exactly what they name.  [retain] keeps, in their order, the spans
    whose text contains no declared non-empty pattern of the tenant (a span whose text
    cannot be read is kept), and its counters add up to the number of spans dropped. *)
Theorem retain_exact (self : PrivacyPolicy) (tenant : string) (body : text) (spans : list PiiSpan) :
  let r := retain self tenant body spans in
  sublist r.1 spans
  ∧ (∀ s, s ∈ r.1 ↔ s ∈ spans ∧ ¬ excepted (exceptions_for self tenant) body s)
  ∧ (total_hits r.2 + N.of_nat (length r.1) = N.of_nat (length spans))%N.
Proof.
  unfold retain. destruct (exceptions_for self tenant) as [|p0 ps] eqn:E.
  { split_and!; [done| |done]. intros s. split; [|by intros [? _]]. intros Hs. split; [done|].
    intros (?&?&?&?&_&Hin&_). by apply not_elem_of_nil in Hin. }
  destruct (retain_loop_spec (p0 :: ps) body spans [] ∅) as [H1 H2].
  split_and!; [| |done].
  - rewrite H1. apply sublist_filter.
  - intros s. rewrite H1. simpl. rewrite list_elem_of_filter, covering_pattern_None. tauto.
Qed.
End policy.

(** The conversion at its ends, in the middle and outside its domain: 1.0, 0.94, 0.5, 0.0,
    -3.0, 42.0, infinity, NaN. *)
Example score_m_samples :
  score_m <$> [f32_one; 0x3F70A3D7; 0x3F000000; f32_zero; 0xC0400000; 0x42280000; 0x7F800000; 0x7FC00000]%Z
  = [1000; 940; 500; 0; 0; 1000; 1000; 0]%Z.
Proof. vm_compute. reflexivity. Qed.

(** Masking.  [mask_spans] writes what a byte-by-byte reference writes: one filler for
    each maximal run of bytes covered by the usable non-empty spans, in whatever order
    and however overlapping they come, and every other byte unchanged.  So the result
    reveals nothing of a masked byte: two bodies that agree on the unmasked bytes, and on
    which bytes are masked, have the same result. *)
Theorem mask_spans_exact (body : text) (spans : list PiiSpan) :
  mask_spans body spans = redact (to_mask body spans) false 0 body
  ∧ (∀ i, to_mask body spans i = true ↔
       ∃ s, s ∈ spans ∧ in_body body s ∧ (start s <= N.of_nat i < span_end s)%N)
  ∧ (∀ body', length body' = length body → (∀ i, to_mask body' spans i = to_mask body spans i) →
       (∀ i, to_mask body spans i = false → body' !! i = body !! i) →
       mask_spans body' spans = mask_spans body spans).
Proof.
  split_and!; [apply mask_spans_redact| |].
  - intros i. apply to_mask_iff.
  - intros body' Hl Hm Hb. rewrite !mask_spans_redact.
    rewrite (redact_ext _ _ _ _ _ (λ j _, Hm j)). by apply redact_blind.
Qed.
