(* ===== verification/PrivacyPass.v ===== *)
(** * PrivacyPass: the detection pass of a write

    Models [crates/gradatum-vault/src/privacy.rs] (hard guard, windows, detection,
    rebasing, fusion) with the budgets and errors of [crates/gradatum-core/src/pii.rs].
    The mounted detector and the runtime that calls it on a blocking thread under a
    timeout are the class [PiiDetector]: what a call returns is its business, what the
    pass does with the answer is modelled. *)

From S2P Require Import Prelude Job Windowing Spans.
From Stdlib Require Import Ascii.

#[local] Open Scope nat_scope.

Inductive NoteSection :=
| Decisions | Architecture | SectionDebug | Reasoning | Feedback | LessonsLearned | Retrospectives
| Experiments | AgentIssues | Reference | Council | ProjectMap | Identity | Snapshot | Messaging.
#[export] Instance NoteSection_eq_dec : EqDecision NoteSection.
Proof. solve_decision. Defined.

Inductive Surface := SurfaceAsync | SurfaceSync.

Record Budget := mkBudget { timeout_ms : N; budget_max_input_bytes : N }.

Record Detection := mkDetection { det_spans : list PiiSpan; unmapped_labels : N }.

Inductive PiiDetectError :=
| Timeout (timeout_ms : N)
| Unavailable (reason : string)
| InputTooLarge (len budget : N)
| Protocol (detail : string).

(** How a call on a blocking thread ends. *)
Inductive call_outcome :=
| Elapsed
| TaskPanicked
| TaskCancelled
| Returned (r : result Detection PiiDetectError).

Class PiiDetector := {
  detect_call : text → Surface → Budget → call_outcome;
  has_detector_identity : bool;
}.

(** ** Budgets *)

Record PrivacyBudgets := mkPrivacyBudgets {
  pb_max_input_bytes : N;
  window_overlap_bytes : N;
  async_timeout_ms : N;
  sync_base_ms : N;
  sync_per_kib_ms : N;
  sync_cap_ms : N;
}.

Section budgets.
#[local] Open Scope N_scope.
Definition u64_top : N := 2 ^ 64 - 1.
Definition sat_add (a b : N) : N := N.min (a + b) u64_top.
Definition sat_mul (a b : N) : N := N.min (a * b) u64_top.
Definition div_ceil (a b : N) : N := (a + b - 1) / b.

Definition for_surface (self : PrivacyBudgets) (surface : Surface) (input_bytes : N) : Budget :=
  let timeout_ms :=
    match surface with
    | SurfaceAsync => async_timeout_ms self
    | SurfaceSync =>
        let kib := div_ceil input_bytes 1024 in
        let proportional := sat_add (sync_base_ms self) (sat_mul (sync_per_kib_ms self) kib) in
        N.min proportional (sync_cap_ms self)
    end in
  mkBudget timeout_ms (pb_max_input_bytes self).

Definition PrivacyBudgets_default : PrivacyBudgets :=
  mkPrivacyBudgets 262144 512 10000 2000 0 20000.
End budgets.

(** ** The pass *)

Definition CODE_VAULT_PREFIX : string := "code-".

Definition surface_for (section : NoteSection) : Surface :=
  match section with Messaging => SurfaceSync | _ => SurfaceAsync end.

Definition is_excluded (vault_id : string) (section : NoteSection) : bool :=
  String.prefix CODE_VAULT_PREFIX vault_id || bool_decide (section = Identity).

Definition touches_cut (s : PiiSpan) (cut : N) : bool :=
  let end' := saturating_add (start s) (len s) in
  ((start s <=? saturating_add cut 1) && (cut <=? saturating_add end' 1))%N.

Record PrivacyScan := mkPrivacyScan {
  ps_spans : list PiiSpan;
  ps_stats : MergeStats;
  ps_windows : nat;
  ps_unmapped_labels : N;
}.

Definition plan_of (budgets : PrivacyBudgets) : WindowPlan :=
  mkWindowPlan (N.to_nat (pb_max_input_bytes budgets)) (N.to_nat (window_overlap_bytes budgets)).

Section pass.
Context `{!PiiDetector}.

Definition detect_window (t : text) (surface : Surface) (budget : Budget) :
    result Detection PiiDetectError :=
  if (budget_max_input_bytes budget <? N.of_nat (length t))%N
  then Err (InputTooLarge (N.of_nat (length t)) (budget_max_input_bytes budget))
  else match detect_call t surface budget with
       | Elapsed => Err (Timeout (timeout_ms budget))
       | TaskPanicked => Err (Unavailable "detector task panicked")
       | TaskCancelled => Err (Unavailable "detector task cancelled")
       | Returned r => r
       end.

(** The loop over the windows: the first error ends the pass. *)
Fixpoint scan_loop (surface : Surface) (budget : Budget) (ws : list (nat * text))
    (collected : list PiiSpan) (unmapped : N) : result (list PiiSpan * N) PiiDetectError :=
  match ws with
  | [] => Ok (collected, unmapped)
  | (start, window) :: ws' =>
      detection ?<- detect_window window surface budget;
      scan_loop surface budget ws' (collected ++ rebase (det_spans detection) (N.of_nat start))
        (sat_add unmapped (unmapped_labels detection))
  end.

Definition scan (body : text) (surface : Surface) (budgets : PrivacyBudgets) :
    result PrivacyScan PiiDetectError :=
  let ws := windows (plan_of budgets) body in
  match ws with
  | [] => Err (InputTooLarge (N.of_nat (length body)) 0)
  | _ =>
      let budget := for_surface budgets surface (N.of_nat (length body)) in
      r ?<- scan_loop surface budget ws [] 0%N;
      let '(spans, stats) := validate_and_merge body r.1 in
      let intercuts := (λ w : nat * text, N.of_nat (w.1 + length w.2)) <$> take (length ws - 1) ws in
      let touching := length (filter (λ s, existsb (touches_cut s) intercuts = true) spans) in
      Ok (mkPrivacyScan spans
            (mkMergeStats (rejected_out_of_bounds stats) (rejected_utf8_boundary stats) touching
               (merged stats))
            (length ws) r.2)
  end.

Definition pass (vault_id : string) (section : NoteSection) (body : text)
    (budgets : PrivacyBudgets) : result (option PrivacyScan) PiiDetectError :=
  if is_excluded vault_id section then Ok None
  else if negb has_detector_identity then Ok None
  else scan ?<- scan body (surface_for section) budgets; Ok (Some scan).

(** ** What the loop collects *)

(** The answer to one window, in the coordinates of the body. *)
Definition reported (surface : Surface) (budget : Budget) (w : nat * text) (s : PiiSpan) : Prop :=
  ∃ d, detect_window w.2 surface budget = Ok d ∧ s ∈ rebase (det_spans d) (N.of_nat w.1).

Lemma scan_loop_spec surface budget ws collected unmapped r :
  scan_loop surface budget ws collected unmapped = Ok r →
  Forall (λ w, is_ok (detect_window w.2 surface budget) = true) ws
  ∧ ∀ s, s ∈ r.1 ↔ s ∈ collected ∨ Exists (λ w, reported surface budget w s) ws.
Proof.
  revert collected unmapped. induction ws as [|[b w] ws IH]; intros collected unmapped; cbn [scan_loop].
  { intros [= <-]. split; [done|]. intros s. rewrite Exists_nil. simpl. tauto. }
  destruct (detect_window w surface budget) as [d|] eqn:Ed; cbn [result_bind]; [|done].
  intros [Hok Hin]%IH. split; [constructor; [by simpl; rewrite Ed|done]|].
  intros s. rewrite Hin, elem_of_app, Exists_cons.
  assert (reported surface budget (b, w) s ↔ s ∈ rebase (det_spans d) (N.of_nat b)) as ->; [|tauto].
  unfold reported. simpl. rewrite Ed. split; [by intros (? & [= <-] & ?)|]. eauto.
Qed.

Lemma scan_ok body surface budgets sc :
  scan body surface budgets = Ok sc →
  ∃ collected, ps_spans sc = (validate_and_merge body collected).1
    ∧ windows (plan_of budgets) body ≠ []
    ∧ ps_windows sc = length (windows (plan_of budgets) body)
    ∧ Forall (λ w, is_ok (detect_window w.2 surface
                     (for_surface budgets surface (N.of_nat (length body)))) = true)
        (windows (plan_of budgets) body)
    ∧ ∀ s, s ∈ collected ↔
        Exists (λ w, reported surface (for_surface budgets surface (N.of_nat (length body))) w s)
          (windows (plan_of budgets) body).
Proof.
  unfold scan. destruct (windows (plan_of budgets) body) as [|w ws] eqn:Ew; [done|].
  set (budget := for_surface budgets surface (N.of_nat (length body))).
  destruct (scan_loop surface budget (w :: ws) [] 0%N) as [r|] eqn:Er; cbn [result_bind]; [|done].
  destruct (validate_and_merge body r.1) as [spans stats] eqn:Ev. intros [= <-].
  apply scan_loop_spec in Er as [Hok Hin]. exists r.1. rewrite Ev. split_and!; try done.
  intros s. rewrite Hin. split; [|by right]. intros [Hn|]; [by apply not_elem_of_nil in Hn|done].
Qed.

(** A span a window reports for an entity it holds whole comes back at the entity. *)
Lemma rebase_at body (a b w : nat) cat sc :
  (N.of_nat (length body) <= usize_top)%N → w ≤ a → a ≤ b → b ≤ length body →
  is_char_boundary body a = true → is_char_boundary body b = true →
  let s := mkPiiSpan (saturating_add (N.of_nat (a - w)) (N.of_nat w)) (N.of_nat (b - a)) cat sc in
  in_body body s ∧ start s = N.of_nat a ∧ span_end s = N.of_nat b.
Proof.
  intros Htop Hw Hab Hb Ha Hbb s.
  assert (start s = N.of_nat a) as Hs by (unfold s, saturating_add; cbn [start]; lia).
  assert (span_end s = N.of_nat b) as He by (unfold span_end; rewrite Hs; cbn [len s]; lia).
  split; [|done]. unfold in_body, boundary_at. rewrite Hs, He, !Nat2N.id. split_and!; [lia|lia|done|done].
Qed.

(** A completed pass read everything and lost nothing.  When [scan] answers, the body
    was cut into at least one window and every window was submitted and answered: a pass
    is never clean because something went unread.  A byte is covered in a category
    exactly when some window's answer, put back at its place in the body and usable
    there, covers it.  And an entity no longer than the overlap (with three bytes to
    spare in a window) that the detector reports whenever it sees it whole is covered
    over its whole length, wherever the cuts fall. *)
Theorem scan_complete (body : text) (surface : Surface) (budgets : PrivacyBudgets) (sc : PrivacyScan)
    (Hutf : utf8 body) (Hsize : (N.of_nat (length body) <= usize_top)%N)
    (Hscan : scan body surface budgets = Ok sc) :
  let ws := windows (plan_of budgets) body in
  let budget := for_surface budgets surface (N.of_nat (length body)) in
  0 < ps_windows sc
  ∧ Forall (λ w, is_ok (detect_window w.2 surface budget) = true) ws
  ∧ (∀ c i, Exists (span_covers c i) (ps_spans sc)
            ↔ ∃ w s, w ∈ ws ∧ reported surface budget w s ∧ in_body body s ∧ span_covers c i s)
  ∧ (∀ a b c score, a ≤ b ≤ length body →
       is_char_boundary body a = true → is_char_boundary body b = true →
       b - a ≤ N.to_nat (window_overlap_bytes budgets) →
       b - a ≤ Nat.max (N.to_nat (pb_max_input_bytes budgets)) 4 - 3 →
       (∀ w d, w ∈ ws → w.1 ≤ a → b ≤ w.1 + length w.2 → detect_window w.2 surface budget = Ok d →
          mkPiiSpan (N.of_nat (a - w.1)) (N.of_nat (b - a)) c score ∈ det_spans d) →
       ∀ i, a ≤ i < b → Exists (span_covers c (N.of_nat i)) (ps_spans sc)).
Proof.
  destruct (scan_ok _ _ _ _ Hscan) as (collected & Hsp & Hne & Hcount & Hok & Hin).
  intros ws budget. fold ws budget in Hne, Hcount, Hok, Hin.
  assert (∀ c i, Exists (span_covers c i) (ps_spans sc)
            ↔ ∃ w s, w ∈ ws ∧ reported surface budget w s ∧ in_body body s ∧ span_covers c i s) as Hcov.
  { intros c i. rewrite Hsp.
    destruct (validate_and_merge_exact_cover body collected c i) as [H1 H2]. split.
    - intros (s & Hs & Hb & Hc)%H1. apply Hin, Exists_exists in Hs as (w & Hw & Hr). by exists w, s.
    - intros (w & s & Hw & Hr & Hb & Hc). apply H2. exists s. split_and!; [|done..].
      apply Hin, Exists_exists. by exists w. }
  split_and!; [rewrite Hcount; destruct ws; [done|simpl; lia]|done|done|].
  intros a b c score Hab Ha Hb Hov Hce Hdet i Hi. apply Hcov.
  destruct (windows_hold_entity (plan_of budgets) body a b) as (w & Hw & Hwa & Hwb); [done..|].
  rewrite Forall_forall in Hok. specialize (Hok w Hw).
  destruct (detect_window w.2 surface budget) as [d|] eqn:Ed; [|done].
  specialize (Hdet w d Hw Hwa Hwb Ed).
  destruct (rebase_at body a b w.1 c score Hsize) as (Hib & Hs & He); [lia..|done|done|].
  eexists w, _. split_and!; [done| |exact Hib|].
  - exists d. split; [done|]. unfold rebase. apply list_elem_of_fmap. eexists. split; [|exact Hdet]. done.
  - split; [done|]. rewrite Hs, He. lia.
Qed.
End pass.

(** ** A concrete detector: it reports every letter [l] as a secret *)

Fixpoint find_letter (i : nat) (t : text) : list PiiSpan :=
  match t with
  | [] => []
  | c :: t' =>
      if Ascii.eqb c "l"%char then mkPiiSpan (N.of_nat i) 1 Secret 0x3F000000 :: find_letter (S i) t'
      else find_letter (S i) t'
  end.

Definition letter_detector : PiiDetector := {|
  detect_call t _ _ := Returned (Ok (mkDetection (find_letter 0 t) 0));
  has_detector_identity := true;
|}.

Definition sample_budgets : PrivacyBudgets := mkPrivacyBudgets 5 2 10000 2000 0 20000.

Lemma scan_complete_witness :
  ∃ sc, @scan letter_detector sample_body SurfaceAsync sample_budgets = Ok sc
    ∧ ps_spans sc = [mkPiiSpan 3 1 Secret 0x3F000000; mkPiiSpan 4 1 Secret 0x3F000000]
    ∧ 0 < ps_windows sc
    ∧ Exists (span_covers Secret 3) (ps_spans sc).
Proof.
  eexists. split; [vm_compute; reflexivity|]. split; [reflexivity|].
  destruct (@scan_complete letter_detector sample_body SurfaceAsync sample_budgets _
    (utf8b_sound sample_body eq_refl) ltac:(vm_compute; discriminate) ltac:(vm_compute; reflexivity))
    as (H1 & _ & _ & H4).
  split; [exact H1|].
  refine (H4 3 4 Secret 0x3F000000%Z _ _ _ _ _ _ 3 _); [vm_compute; lia|reflexivity|reflexivity|vm_compute; lia|vm_compute; lia| |lia].
  intros w d Hw Hwa Hwb Hd. revert Hw. vm_compute (windows _ _). intros Hw.
  repeat (apply elem_of_cons in Hw as [->|Hw];
    [first [exfalso; simpl in Hwa; lia|vm_compute in Hd; injection Hd as <-;
     apply list_elem_of_In; vm_compute; repeat first [left; reflexivity|right]]|]).
  by apply not_elem_of_nil in Hw.
Defined.
