(* ===== verification/Text.v ===== *)
(** * Text: Rust strings as sequences of Unicode scalar values

    A Rust [str] is a sequence of [char]s stored as UTF-8.  [ustr] is that sequence; the
    byte length and byte offsets of the stored form are computed from it ([str_len],
    [split_at_byte]).  This file models the methods of [str] that the project-map code
    uses: trimming, searching, splitting, lines and slicing, the last with its panic
    outside a character boundary; and the UTF-8 form itself, with its decoder. *)

From S2P Require Import Prelude.
From Stdlib Require Import Ascii.

#[local] Open Scope nat_scope.

Abbreviation uchar := N.
Abbreviation ustr := (list N).

(** A literal of the source; all of its characters are ASCII. *)
Fixpoint lit (s : string) : ustr :=
  match s with EmptyString => [] | String c s' => N_of_ascii c :: lit s' end.
Arguments lit : simpl never.

(** ** Characters *)

(** [char::is_whitespace]: the Unicode property [White_Space]. *)
Definition is_whitespace (c : uchar) : bool :=
  ((9 <=? c) && (c <=? 13) || (c =? 32) || (c =? 133) || (c =? 160) || (c =? 5760)
   || (8192 <=? c) && (c <=? 8202) || (c =? 8232) || (c =? 8233) || (c =? 8239)
   || (c =? 8287) || (c =? 12288))%N.

Definition is_lower (c : uchar) : bool := ((97 <=? c) && (c <=? 122))%N.
Definition is_digit (c : uchar) : bool := ((48 <=? c) && (c <=? 57))%N.

(** [char::to_lowercase], as far as a search for ASCII letters can tell: apart from
    the ASCII capitals only the Kelvin sign becomes an ASCII letter, and the dotted capital
    I becomes an ASCII i followed by a combining dot. *)
Definition to_lowercase (s : ustr) : ustr :=
  s ≫= λ c, if ((65 <=? c) && (c <=? 90))%N then [c + 32]%N
            else if (c =? 8490)%N then [107%N]
            else if (c =? 304)%N then [105%N; 775%N]
            else [c].

(** [str::to_ascii_lowercase]. *)
Definition ascii_lower (c : uchar) : uchar := if ((65 <=? c) && (c <=? 90))%N then (c + 32)%N else c.
Definition to_ascii_lowercase (s : ustr) : ustr := ascii_lower <$> s.

(** [char::len_utf8]. *)
Definition len_utf8 (c : uchar) : nat :=
  if (c <? 128)%N then 1 else if (c <? 2048)%N then 2 else if (c <? 65536)%N then 3 else 4.

(** [s.len()], in bytes. *)
Definition str_len (s : ustr) : nat := foldr (λ c n, len_utf8 c + n) 0 s.
Arguments str_len : simpl never.

(** ** Trimming *)

Section trimming.
Context (p : uchar → bool).

Fixpoint drop_while (s : ustr) : ustr :=
  match s with c :: s' => if p c then drop_while s' else s | [] => [] end.
Definition drop_while_end (s : ustr) : ustr := reverse (drop_while (reverse s)).

Lemma drop_while_spec s :
  ∃ pre, s = pre ++ drop_while s ∧ Forall p pre
         ∧ (∀ c s', drop_while s = c :: s' → p c = false).
Proof.
  induction s as [|c s (pre & IH1 & IH2 & IH3)]; cbn [drop_while].
  - by exists [].
  - destruct (p c) eqn:E.
    + exists (c :: pre). rewrite IH1 at 1. split_and!; [done| |done].
      constructor; [by rewrite E|done].
    + exists []. split_and!; [done|done|by intros ? ? [= <- <-]].
Qed.

Lemma drop_while_app_l pre s : Forall p pre → drop_while (pre ++ s) = drop_while s.
Proof.
  induction 1 as [|c pre Hc _ IH]; [done|]. cbn [drop_while app].
  apply Is_true_true in Hc. by rewrite Hc.
Qed.

Lemma drop_while_head c s : p c = false → drop_while (c :: s) = c :: s.
Proof. intros E. cbn. by rewrite E. Qed.

Lemma drop_while_all s : Forall p s → drop_while s = [].
Proof. intros Hs. rewrite <-(app_nil_r s) at 1. by rewrite drop_while_app_l. Qed.

Lemma drop_while_end_app_r s post :
  Forall p post → drop_while_end (s ++ post) = drop_while_end s.
Proof.
  intros Hp. unfold drop_while_end. rewrite reverse_app, drop_while_app_l; [done|].
  by apply Forall_reverse.
Qed.

Lemma drop_while_end_last s c : p c = false → drop_while_end (s ++ [c]) = s ++ [c].
Proof.
  intros E. unfold drop_while_end. rewrite reverse_snoc, drop_while_head by done.
  by rewrite reverse_cons, reverse_involutive.
Qed.

Lemma drop_while_end_spec s :
  ∃ post, s = drop_while_end s ++ post ∧ Forall p post
          ∧ (∀ s' c, drop_while_end s = s' ++ [c] → p c = false).
Proof.
  destruct (drop_while_spec (reverse s)) as (pre & H1 & H2 & H3).
  exists (reverse pre). split_and!.
  - unfold drop_while_end. rewrite <-reverse_app, <-H1. by rewrite reverse_involutive.
  - by apply Forall_reverse.
  - intros s' c E. unfold drop_while_end in E. apply (f_equal reverse) in E.
    rewrite reverse_involutive, reverse_snoc in E. eauto.
Qed.

(** Trimming the end past a part that does not end in a trimmed character. *)
Lemma drop_while_end_app_l a s :
  drop_while_end s ≠ [] → drop_while_end (a ++ s) = a ++ drop_while_end s.
Proof.
  intros Hne. destruct (drop_while_end_spec s) as (post & H1 & H2 & H3).
  rewrite H1 at 1. rewrite app_assoc, drop_while_end_app_r by done.
  destruct (drop_while_end s) as [|c t _] using rev_ind; [done|].
  rewrite app_assoc. by apply drop_while_end_last, (H3 t).
Qed.

(** A character that is not trimmed shields what is on its other side. *)
Lemma drop_while_app_stop a c v : p c = false → drop_while (a ++ c :: v) = drop_while a ++ c :: v.
Proof.
  intros Hc. induction a as [|d a IH]; cbn [app drop_while]; [by rewrite Hc|].
  by destruct (p d).
Qed.

Lemma drop_while_end_app_stop a c v :
  p c = false → drop_while_end (a ++ c :: v) = a ++ c :: drop_while_end v.
Proof.
  intros Hc. destruct (decide (drop_while_end v = [])) as [E|Hne].
  - rewrite E. destruct (drop_while_end_spec v) as (post & Hv & Hp & _). rewrite E in Hv.
    cbn in Hv. subst post. change (c :: v) with ([c] ++ v). rewrite app_assoc.
    rewrite drop_while_end_app_r by done. by apply drop_while_end_last.
  - change (c :: v) with ([c] ++ v). rewrite app_assoc, drop_while_end_app_l by done.
    by rewrite <-app_assoc.
Qed.
End trimming.

(** [s.trim_start()], [s.trim_end()], [s.trim()]. *)
Definition trim_start (s : ustr) : ustr := drop_while is_whitespace s.
Definition trim_end (s : ustr) : ustr := drop_while_end is_whitespace s.
Definition trim (s : ustr) : ustr := trim_end (trim_start s).

Lemma trim_spec s :
  ∃ pre post, s = pre ++ trim s ++ post ∧ Forall is_whitespace pre ∧ Forall is_whitespace post
    ∧ (∀ c t, trim s = c :: t → is_whitespace c = false)
    ∧ (∀ t c, trim s = t ++ [c] → is_whitespace c = false).
Proof.
  destruct (drop_while_spec is_whitespace s) as (pre & H1 & H2 & H3).
  destruct (drop_while_end_spec is_whitespace (trim_start s)) as (post & H4 & H5 & H6).
  exists pre, post. split_and!; [|done|done| |done].
  - rewrite H1 at 1. f_equal. exact H4.
  - intros c t E. change (trim s) with (drop_while_end is_whitespace (trim_start s)) in E.
    rewrite E in H4. by apply (H3 c (t ++ post)).
Qed.

Lemma trim_fix s :
  (∀ c t, s = c :: t → is_whitespace c = false) →
  (∀ t c, s = t ++ [c] → is_whitespace c = false) → trim s = s.
Proof.
  intros Hh Hl. unfold trim, trim_end, trim_start.
  assert (drop_while is_whitespace s = s) as ->.
  { destruct s as [|c s]; [done|]. apply drop_while_head. by eapply Hh. }
  destruct s as [|c s _] using rev_ind; [done|]. apply drop_while_end_last. by eapply Hl.
Qed.

Lemma trim_idemp s : trim (trim s) = trim s.
Proof. destruct (trim_spec s) as (? & ? & _ & _ & _ & Hh & Hl). by apply trim_fix. Qed.

(** [s.trim_end_matches(c)] and [s.trim_end_matches(['\n', '\r'])]. *)
Definition NL : uchar := 10%N.
Definition CR : uchar := 13%N.
Definition is_NL (c : uchar) : bool := (c =? NL)%N.
Definition is_CR (c : uchar) : bool := (c =? CR)%N.
Definition is_NL_or_CR (c : uchar) : bool := is_NL c || is_CR c.

(** ** Searching and splitting *)

(** [s.strip_prefix(p)]. *)
Fixpoint strip_prefix (p s : ustr) : option ustr :=
  match p, s with
  | [], _ => Some s
  | a :: p', b :: s' => if (a =? b)%N then strip_prefix p' s' else None
  | _ :: _, [] => None
  end.
(** [s.starts_with(p)]. *)
Definition str_starts_with (p s : ustr) : bool :=
  match strip_prefix p s with Some _ => true | None => false end.

(** [s.split_once(p)]: around the first occurrence.  It is also [s.find(p)] with the two
    slices taken around the offset it returns. *)
Fixpoint split_once (p s : ustr) : option (ustr * ustr) :=
  match strip_prefix p s with
  | Some post => Some ([], post)
  | None =>
      match s with
      | [] => None
      | c :: s' =>
          match split_once p s' with
          | Some (pre, post) => Some (c :: pre, post)
          | None => None
          end
      end
  end.

(** [s.rsplit_once(c)] for a character: around the last occurrence. *)
Definition rsplit_once (c : uchar) (s : ustr) : option (ustr * ustr) :=
  match split_once [c] (reverse s) with
  | Some (post, pre) => Some (reverse pre, reverse post)
  | None => None
  end.

(** [s.contains(p)]. *)
Definition str_contains (p s : ustr) : bool :=
  match split_once p s with Some _ => true | None => false end.

Lemma strip_prefix_Some p s t : strip_prefix p s = Some t ↔ s = p ++ t.
Proof.
  revert s. induction p as [|a p IH]; intros s; cbn [strip_prefix app].
  - split; congruence.
  - destruct s as [|b s]; [done|]. destruct (N.eqb_spec a b) as [->|Hn].
    + rewrite IH. split; congruence.
    + split; [done|congruence].
Qed.

Lemma strip_prefix_app p s : strip_prefix p (p ++ s) = Some s.
Proof. by apply strip_prefix_Some. Qed.

Lemma str_starts_with_iff p s : str_starts_with p s = true ↔ ∃ t, s = p ++ t.
Proof.
  unfold str_starts_with. destruct (strip_prefix p s) as [t|] eqn:E.
  - apply strip_prefix_Some in E. naive_solver.
  - split; [done|]. intros [t Ht%strip_prefix_Some]. congruence.
Qed.

Lemma split_once_sound p s pre post : split_once p s = Some (pre, post) → s = pre ++ p ++ post.
Proof.
  revert pre. induction s as [|c s IH]; intros pre; cbn [split_once];
    destruct (strip_prefix p _) as [t|] eqn:E; try (intros [= <- <-]; by apply strip_prefix_Some in E).
  destruct (split_once p s) as [[pre' post']|]; [|done]. intros [= <- <-]. by rewrite (IH pre').
Qed.

Lemma split_once_None p s : split_once p s = None ↔ ¬ ∃ pre post, s = pre ++ p ++ post.
Proof.
  split.
  - intros E (pre & post & ->). revert E. induction pre as [|c pre IH]; cbn [split_once app].
    + destruct (p ++ post) eqn:Ep; cbn [split_once]; rewrite <-Ep, strip_prefix_app; done.
    + destruct (strip_prefix p _); [done|]. destruct (split_once p _) as [[]|]; [done|auto].
  - intros Hn. destruct (split_once p s) as [[pre post]|] eqn:E; [|done].
    apply split_once_sound in E. exfalso. eauto.
Qed.

Lemma str_contains_iff p s : str_contains p s = true ↔ ∃ pre post, s = pre ++ p ++ post.
Proof.
  unfold str_contains. destruct (split_once p s) as [[pre post]|] eqn:E.
  - apply split_once_sound in E. naive_solver.
  - apply split_once_None in E. naive_solver.
Qed.

(** A match only looks at as many characters as the pattern has. *)
Lemma strip_prefix_local p a b :
  length p ≤ length a → strip_prefix p (a ++ b) = (λ t, t ++ b) <$> strip_prefix p a.
Proof.
  revert a. induction p as [|x p IH]; intros a Hl; [done|].
  destruct a as [|y a]; cbn in Hl; [lia|]. cbn [strip_prefix app].
  destruct (x =? y)%N; [apply IH; lia|done].
Qed.

(** The first occurrence does not depend on what follows it. *)
Lemma split_once_local p pre post post' :
  split_once p (pre ++ p ++ post) = Some (pre, post) →
  split_once p (pre ++ p ++ post') = Some (pre, post').
Proof.
  assert (Hnil : ∀ t, split_once p (p ++ t) = Some ([], t)).
  { intros t. destruct (p ++ t) eqn:E; cbn [split_once]; by rewrite <-E, strip_prefix_app. }
  induction pre as [|c pre IH]; [intros; apply Hnil|]. cbn [app split_once].
  change (c :: pre ++ p ++ post) with ((c :: pre) ++ p ++ post).
  change (c :: pre ++ p ++ post') with ((c :: pre) ++ p ++ post').
  rewrite !(app_assoc (c :: pre)), (strip_prefix_local p _ post), (strip_prefix_local p _ post')
    by (rewrite length_app; cbn; lia).
  destruct (strip_prefix p ((c :: pre) ++ p)); [done|]. cbn [fmap option_fmap option_map].
  destruct (split_once p (pre ++ p ++ post)) as [[u v]|] eqn:E; [|done].
  intros [= -> ->]. by rewrite (IH eq_refl).
Qed.

Lemma split_once_char c s pre post :
  split_once [c] s = Some (pre, post) ↔ s = pre ++ c :: post ∧ c ∉ pre.
Proof.
  split.
  - revert pre. induction s as [|d s IH]; intros pre; cbn [split_once strip_prefix]; [done|].
    destruct (N.eqb_spec c d) as [->|Hn].
    + intros [= <- <-]. split; [done|apply not_elem_of_nil].
    + destruct (split_once [c] s) as [[u v]|]; [|done]. intros [= <- <-].
      destruct (IH u) as [-> ?]; [done|]. split; [done|]. by apply not_elem_of_cons.
  - intros [-> Hc]. induction pre as [|d pre IH]; cbn [app split_once strip_prefix].
    + by rewrite N.eqb_refl.
    + apply not_elem_of_cons in Hc as [Hd Hc]. apply N.eqb_neq in Hd. by rewrite Hd, (IH Hc).
Qed.

Lemma split_once_char_None c s : split_once [c] s = None ↔ c ∉ s.
Proof.
  rewrite split_once_None. split; intros Hn.
  - intros (pre & post & ->)%list_elem_of_split. by apply Hn; eauto.
  - intros (pre & post & ->). set_solver.
Qed.

Lemma split_once_double c pre post :
  c ∉ pre → split_once [c; c] (pre ++ [c; c] ++ post) = Some (pre, post).
Proof.
  induction pre as [|d pre IH]; intros Hc; cbn [app split_once strip_prefix].
  - by rewrite !N.eqb_refl.
  - apply not_elem_of_cons in Hc as [Hd Hc]. apply N.eqb_neq in Hd. rewrite Hd.
    cbn [app] in IH. by rewrite (IH Hc).
Qed.

Lemma rsplit_once_char c s pre post :
  rsplit_once c s = Some (pre, post) ↔ s = pre ++ c :: post ∧ c ∉ post.
Proof.
  unfold rsplit_once. split.
  - destruct (split_once [c] (reverse s)) as [[u v]|] eqn:E; [|done]. intros [= <- <-].
    apply split_once_char in E as [E Hc]. apply (f_equal reverse) in E.
    rewrite reverse_involutive, reverse_app, reverse_cons, <-app_assoc in E.
    split; [done|]. by rewrite elem_of_reverse.
  - intros [-> Hc]. rewrite reverse_app, reverse_cons, <-app_assoc. cbn [app].
    rewrite (proj2 (split_once_char c _ (reverse post) (reverse pre))).
    + by rewrite !reverse_involutive.
    + split; [done|]. by rewrite elem_of_reverse.
Qed.

Lemma rsplit_once_None c s : c ∉ s → rsplit_once c s = None.
Proof.
  intros Hc. unfold rsplit_once.
  by rewrite (proj2 (split_once_char_None c _)) by (by rewrite elem_of_reverse).
Qed.

(** ** Lines *)

(** [s.split_inclusive('\n')]. *)
Fixpoint split_inclusive (s : ustr) : list ustr :=
  match s with
  | [] => []
  | c :: s' =>
      if is_NL c then [c] :: split_inclusive s'
      else match split_inclusive s' with
           | [] => [[c]]
           | l :: ls => (c :: l) :: ls
           end
  end.

(** [s.strip_suffix(c)]. *)
Definition strip_suffix (c : uchar) (s : ustr) : option ustr :=
  match reverse s with
  | d :: r => if (c =? d)%N then Some (reverse r) else None
  | [] => None
  end.
Definition strip_suffix_or (c : uchar) (s : ustr) : ustr := default s (strip_suffix c s).

(** What [s.lines()] removes from a piece: a newline, and a carriage return before it. *)
Definition strip_line_ending (l : ustr) : ustr :=
  match strip_suffix NL l with
  | None => l
  | Some l' => strip_suffix_or CR l'
  end.
Definition lines (s : ustr) : list ustr := strip_line_ending <$> split_inclusive s.

(** What [split_inclusive] returns: pieces that end with their only newline, the last one
    possibly without it. *)
Inductive line_list : list ustr → Prop :=
| line_list_nil : line_list []
| line_list_last a : a ≠ [] → NL ∉ a → line_list [a]
| line_list_cons a L : NL ∉ a → line_list L → line_list ((a ++ [NL]) :: L).

Lemma split_inclusive_line a s :
  NL ∉ a → split_inclusive (a ++ NL :: s) = (a ++ [NL]) :: split_inclusive s.
Proof.
  induction a as [|c a IH]; intros Ha; [done|]. apply not_elem_of_cons in Ha as [Hc Ha].
  cbn [app split_inclusive]. unfold is_NL. rewrite (proj2 (N.eqb_neq c NL)) by done.
  by rewrite (IH Ha).
Qed.

Lemma split_inclusive_last a : a ≠ [] → NL ∉ a → split_inclusive a = [a].
Proof.
  induction a as [|c a IH]; intros Hne Ha; [done|]. apply not_elem_of_cons in Ha as [Hc Ha].
  cbn [split_inclusive]. unfold is_NL. rewrite (proj2 (N.eqb_neq c NL)) by done.
  destruct a as [|d a]; [done|]. by rewrite IH.
Qed.

Lemma split_inclusive_concat L : line_list L → split_inclusive (concat L) = L.
Proof.
  induction 1 as [|a Hne Ha|a L Ha _ IH]; cbn [concat]; [done|..].
  - rewrite app_nil_r. by apply split_inclusive_last.
  - rewrite <-app_assoc. cbn [app]. by rewrite split_inclusive_line, IH.
Qed.

Lemma split_inclusive_spec s : line_list (split_inclusive s) ∧ concat (split_inclusive s) = s.
Proof.
  induction s as [|c s [IH1 IH2]]; [split; [constructor|done]|]. cbn [split_inclusive].
  destruct (N.eqb_spec c NL) as [->|Hc]; unfold is_NL.
  - rewrite N.eqb_refl. split; [apply (line_list_cons []); [apply not_elem_of_nil|done]|]. cbn. by rewrite IH2.
  - rewrite (proj2 (N.eqb_neq c NL)) by done.
    revert IH1 IH2. generalize (split_inclusive s) as L. intros L HL <-.
    assert (c ≠ NL → NL ≠ c) by done.
    destruct HL as [|a Hne Ha|a L Ha HL]; (split; [|done]).
    + apply line_list_last; [done|]. apply not_elem_of_cons. split; [auto|apply not_elem_of_nil].
    + apply line_list_last; [done|]. apply not_elem_of_cons. auto.
    + apply (line_list_cons (c :: a)); [|done]. apply not_elem_of_cons. auto.
Qed.

Lemma strip_suffix_snoc c a : strip_suffix c (a ++ [c]) = Some a.
Proof. unfold strip_suffix. by rewrite reverse_snoc, N.eqb_refl, reverse_involutive. Qed.

Lemma strip_suffix_Some c s a : strip_suffix c s = Some a → s = a ++ [c].
Proof.
  unfold strip_suffix. destruct (reverse s) as [|d r] eqn:E; [done|].
  destruct (N.eqb_spec c d) as [->|]; [|done]. intros [= <-].
  apply (f_equal reverse) in E. by rewrite reverse_involutive, reverse_cons in E.
Qed.

Lemma strip_suffix_not_in c s : c ∉ s → strip_suffix c s = None.
Proof.
  intros Hc. destruct (strip_suffix c s) as [a|] eqn:E; [|done].
  apply strip_suffix_Some in E as ->. set_solver.
Qed.

Lemma strip_suffix_app c x u : u ≠ [] → strip_suffix c (x ++ u) = app x <$> strip_suffix c u.
Proof.
  intros Hu. unfold strip_suffix. rewrite reverse_app.
  destruct u as [|d u _] using rev_ind; [done|]. rewrite reverse_snoc. cbn [app].
  destruct (c =? d)%N; [|done]. cbn. by rewrite reverse_app, !reverse_involutive.
Qed.

Lemma strip_suffix_or_app c x u :
  u ≠ [] → strip_suffix_or c (x ++ u) = x ++ strip_suffix_or c u.
Proof.
  intros Hu. unfold strip_suffix_or. rewrite strip_suffix_app by done.
  by destruct (strip_suffix c u).
Qed.

(** Replacing a stretch without a newline inside one piece. *)
Lemma line_list_replace L1 raw L2 a old b new :
  line_list (L1 ++ raw :: L2) → raw = a ++ old ++ b → b ≠ [] → NL ∉ new →
  line_list (L1 ++ (a ++ new ++ b) :: L2).
Proof.
  intros HL -> Hb Hn. revert HL. induction L1 as [|l L1 IH]; cbn [app]; intros HL.
  - inversion HL as [|a' Hne Ha E|a' L Ha HL' E]; subst.
    + apply line_list_last; [destruct a, new; done|]. set_solver.
    + destruct b as [|c b _] using rev_ind; [done|].
      rewrite !app_assoc in E |- *. apply app_inj_tail in E as [-> <-].
      rewrite <-!app_assoc in Ha. apply line_list_cons; [set_solver|done].
  - inversion HL as [|a' Hne Ha E|a' L Ha HL' E]; subst.
    + by destruct L1.
    + apply line_list_cons; [done|]. by apply IH.
Qed.

(** ** Byte offsets *)

(** [(&s[..n], &s[n..])]; [None] is the panic outside a character boundary. *)
Fixpoint split_at_byte (n : nat) (s : ustr) : option (ustr * ustr) :=
  match n, s with
  | 0, _ => Some ([], s)
  | S _, [] => None
  | S _, c :: s' =>
      if len_utf8 c <=? n
      then '(a, b) ← split_at_byte (n - len_utf8 c) s'; Some (c :: a, b)
      else None
  end.

Lemma len_utf8_pos c : 0 < len_utf8 c.
Proof. unfold len_utf8. repeat case_match; lia. Qed.

Lemma str_len_app a b : str_len (a ++ b) = str_len a + str_len b.
Proof. unfold str_len. induction a as [|c a IH]; cbn; [done|]. rewrite IH. lia. Qed.

Lemma str_len_cons c a : str_len (c :: a) = len_utf8 c + str_len a.
Proof. done. Qed.

Lemma split_at_byte_app a b : split_at_byte (str_len a) (a ++ b) = Some (a, b).
Proof.
  induction a as [|c a IH]; [by destruct b|]. rewrite str_len_cons. cbn [app].
  pose proof (len_utf8_pos c). destruct (len_utf8 c + str_len a) as [|n] eqn:E; [lia|].
  cbn [split_at_byte]. rewrite (proj2 (Nat.leb_le (len_utf8 c) (S n))) by lia.
  replace (S n - len_utf8 c) with (str_len a) by lia. by rewrite IH.
Qed.

(** ** Order *)

(** [Ord] on strings: lexicographic on bytes, which is lexicographic on code points. *)
Fixpoint ustr_le (a b : ustr) : bool :=
  match a, b with
  | [], _ => true
  | _ :: _, [] => false
  | x :: a', y :: b' => (x <? y)%N || (x =? y)%N && ustr_le a' b'
  end.
Definition ustr_lt (a b : ustr) : bool := ustr_le a b && negb (bool_decide (a = b)).

Lemma ustr_le_refl a : ustr_le a a = true.
Proof. induction a as [|c a IH]; [done|]. cbn. by rewrite N.eqb_refl, IH, orb_true_r. Qed.

Lemma ustr_le_total a b : ustr_le a b = true ∨ ustr_le b a = true.
Proof.
  revert b. induction a as [|c a IH]; intros [|d b]; cbn; [by left|by left|by right|].
  destruct (IH b); destruct (N.ltb_spec c d), (N.ltb_spec d c), (N.eqb_spec c d), (N.eqb_spec d c);
    cbn; auto; lia.
Qed.

Lemma ustr_le_antisym a b : ustr_le a b = true → ustr_le b a = true → a = b.
Proof.
  revert b. induction a as [|c a IH]; intros [|d b]; cbn; try done.
  destruct (N.ltb_spec c d), (N.ltb_spec d c), (N.eqb_spec c d), (N.eqb_spec d c);
    cbn; intros; try lia; try done. subst. f_equal. by apply IH.
Qed.

Lemma ustr_le_trans a b c : ustr_le a b = true → ustr_le b c = true → ustr_le a c = true.
Proof.
  revert b c. induction a as [|x a IH]; intros [|y b] [|z c]; cbn; try done.
  destruct (N.ltb_spec x y), (N.ltb_spec y z), (N.ltb_spec x z), (N.eqb_spec x y), (N.eqb_spec y z),
    (N.eqb_spec x z); cbn; intros; try lia; try done. by eapply IH.
Qed.

Lemma ustr_lt_iff a b : ustr_lt a b = true ↔ ustr_le a b = true ∧ a ≠ b.
Proof. unfold ustr_lt. rewrite andb_true_iff, negb_true_iff, bool_decide_eq_false. done. Qed.

Lemma ustr_lt_trans a b c : ustr_lt a b = true → ustr_lt b c = true → ustr_lt a c = true.
Proof.
  rewrite !ustr_lt_iff. intros [H1 N1] [H2 N2]. split; [by eapply ustr_le_trans|].
  intros ->. apply N1. by apply ustr_le_antisym.
Qed.

(** ** Numbers and words *)

(** [format!("{n}")] of an unsigned integer. *)
Fixpoint digits_rev (fuel : nat) (n : N) : ustr :=
  match fuel with
  | 0 => []
  | S fuel' => (48 + n mod 10)%N :: (if (n <? 10)%N then [] else digits_rev fuel' (n / 10)%N)
  end.
Definition fmt_nat (n : N) : ustr := reverse (digits_rev (S (N.to_nat (N.log2 n))) n).

(** [s.split(c)]: never empty. *)
Fixpoint split_on (c : uchar) (s : ustr) : list ustr :=
  match s with
  | [] => [[]]
  | d :: s' =>
      if (d =? c)%N then [] :: split_on c s'
      else match split_on c s' with seg :: segs => (d :: seg) :: segs | [] => [[d]] end
  end.

(** [Vec::dedup]: of equal neighbours the first stays. *)
Fixpoint vec_dedup (l : list N) : list N :=
  match l with
  | [] => []
  | x :: l' => match vec_dedup l' with
               | (y :: _) as d => if (x =? y)%N then d else x :: d
               | [] => [x]
               end
  end.

(** [str::split_whitespace]. *)
Fixpoint words_of (word : ustr) (s : ustr) : list ustr :=
  match s with
  | [] => if word is [] then [] else [word]
  | c :: s' => if is_whitespace c then (if word is [] then [] else [word]) ++ words_of [] s'
               else words_of (word ++ [c]) s'
  end.
Definition split_whitespace (s : ustr) : list ustr := words_of [] s.

(** [u32::from_str]: an optional plus sign, at least one digit, no overflow. *)
Definition parse_u32 (s : ustr) : option N :=
  let digits := match s with 43%N :: s' => s' | _ => s end in
  if bool_decide (digits = []) || negb (forallb is_digit digits) then None
  else
    let n := foldl (λ n c, n * 10 + (c - 48))%N 0%N digits in
    if (n <? 2 ^ 32)%N then Some n else None.

(** ** UTF-8 *)

Section utf8.
#[local] Open Scope N_scope.
Definition utf8_bytes (c : uchar) : list ascii :=
  ascii_of_N <$>
    (if c <? 128 then [c]
     else if c <? 2048 then [192 + c / 64; 128 + c mod 64]
     else if c <? 65536 then [224 + c / 4096; 128 + c / 64 mod 64; 128 + c mod 64]
     else [240 + c / 262144; 128 + c / 4096 mod 64; 128 + c / 64 mod 64; 128 + c mod 64]).
Definition utf8_encode (s : ustr) : list ascii := s ≫= utf8_bytes.

Fixpoint utf8_decode (t : list ascii) : ustr :=
  match t with
  | [] => []
  | b0 :: t1 =>
      let n := N_of_ascii b0 in
      let low b := N_of_ascii b - 128 in
      if n <? 128 then n :: utf8_decode t1
      else match t1 with
           | [] => []
           | b1 :: t2 =>
               if n <? 224 then ((n - 192) * 64 + low b1) :: utf8_decode t2
               else match t2 with
                    | [] => []
                    | b2 :: t3 =>
                        if n <? 240 then ((n - 224) * 4096 + low b1 * 64 + low b2) :: utf8_decode t3
                        else match t3 with
                             | [] => []
                             | b3 :: t4 =>
                                 ((n - 240) * 262144 + low b1 * 4096 + low b2 * 64 + low b3)
                                   :: utf8_decode t4
                             end
                    end
           end
  end.
End utf8.
Definition native (s : ustr) : string := String.string_of_list_ascii (utf8_encode s).
Definition text_of (s : string) : ustr := utf8_decode (String.list_ascii_of_string s).
