(* ===== verification/ProjectLinks.v ===== *)
(** * ProjectLinks: typed links of a project-map card, their parser and their schema

    Second part of [crates/gradatum-core/src/project_map.rs]: [ProjectMapLink], the parser
    [parse_link] of one wikilink target, and [validate_links], the cardinality and
    coherence rules of a card.  The [ulid] crate is the class [UlidParser]; only whether a
    text is a ULID is used.  The parser is shown to be the exact inverse of a printer, and
    the validator to decide a declarative schema that does not depend on the order of the
    links.

    The first part holds the closed vocabularies of a card, each an instance of the class
    [Wire], and [derive_release]. *)

From S2P Require Import Prelude Text.

#[local] Open Scope nat_scope.

(** * The closed vocabularies *)

(** A [match] of a text against literals, with [_ => None]. *)
Fixpoint match_str {A} (arms : list (string * A)) (v : ustr) : option A :=
  match arms with
  | [] => None
  | (s, a) :: arms' => if bool_decide (v = lit s) then Some a else match_str arms' v
  end.

Lemma match_str_Some {A} (arms : list (string * A)) v a :
  match_str arms v = Some a → ∃ s, (s, a) ∈ arms ∧ v = lit s.
Proof.
  induction arms as [|[s b] arms IH]; cbn [match_str]; [done|].
  case_bool_decide as E; [intros [= <-]; exists s; split; [by left|done]|].
  intros (s' & ? & ?)%IH. exists s'. split; [by right|done].
Qed.

(** ** The vocabularies *)

Inductive StatusKind :=
  StatusBrainstorming | StatusOpen | StatusInProgress | StatusBlocked | StatusDone | StatusObsolete.
Inductive KindKind :=
  KindFeature | KindEnhancement | KindFix | KindTask | KindRoadmap | KindBacklog.
Inductive VisibilityKind := VisibilityInterne | VisibilityPublic.
Inductive ReleaseKind := ReleaseRoadmap | ReleasePlanned | ReleaseReleased | ReleaseDropped.

#[export] Instance StatusKind_eq_dec : EqDecision StatusKind.
Proof. solve_decision. Defined.
#[export] Instance KindKind_eq_dec : EqDecision KindKind.
Proof. solve_decision. Defined.
#[export] Instance VisibilityKind_eq_dec : EqDecision VisibilityKind.
Proof. solve_decision. Defined.
#[export] Instance ReleaseKind_eq_dec : EqDecision ReleaseKind.
Proof. solve_decision. Defined.

Definition StatusKind_from_wire : ustr → option StatusKind :=
  match_str [("BRAINSTORMING", StatusBrainstorming); ("OPEN", StatusOpen);
             ("IN_PROGRESS", StatusInProgress); ("BLOCKED", StatusBlocked);
             ("DONE", StatusDone); ("OBSOLETE", StatusObsolete)].
Definition StatusKind_as_wire (s : StatusKind) : ustr :=
  lit match s with
      | StatusBrainstorming => "BRAINSTORMING"
      | StatusOpen => "OPEN"
      | StatusInProgress => "IN_PROGRESS"
      | StatusBlocked => "BLOCKED"
      | StatusDone => "DONE"
      | StatusObsolete => "OBSOLETE"
      end.

Definition KindKind_from_wire : ustr → option KindKind :=
  match_str [("FEATURE", KindFeature); ("ENHANCEMENT", KindEnhancement); ("FIX", KindFix);
             ("TASK", KindTask); ("ROADMAP", KindRoadmap); ("BACKLOG", KindBacklog)].
Definition KindKind_as_wire (k : KindKind) : ustr :=
  lit match k with
      | KindFeature => "FEATURE"
      | KindEnhancement => "ENHANCEMENT"
      | KindFix => "FIX"
      | KindTask => "TASK"
      | KindRoadmap => "ROADMAP"
      | KindBacklog => "BACKLOG"
      end.
Definition is_structure (k : KindKind) : bool :=
  match k with KindRoadmap | KindBacklog => true | _ => false end.

Definition VisibilityKind_from_wire : ustr → option VisibilityKind :=
  match_str [("interne", VisibilityInterne); ("public", VisibilityPublic)].
Definition VisibilityKind_as_wire (v : VisibilityKind) : ustr :=
  lit match v with VisibilityInterne => "interne" | VisibilityPublic => "public" end.

Definition ReleaseKind_from_wire : ustr → option ReleaseKind :=
  match_str [("roadmap", ReleaseRoadmap); ("planned", ReleasePlanned);
             ("released", ReleaseReleased); ("dropped", ReleaseDropped)].
Definition ReleaseKind_as_wire (r : ReleaseKind) : ustr :=
  lit match r with
      | ReleaseRoadmap => "roadmap"
      | ReleasePlanned => "planned"
      | ReleaseReleased => "released"
      | ReleaseDropped => "dropped"
      end.

(** What the parser of links relies on for each vocabulary. *)
Class Wire (A : Type) := {
  as_wire : A → ustr;
  from_wire : ustr → option A;
  from_as_wire a : from_wire (as_wire a) = Some a;
  as_from_wire v a : from_wire v = Some a → v = as_wire a;
}.

Ltac solve_as_from :=
  intros ? ? (? & Hin & ->)%match_str_Some; set_unfold in Hin;
  naive_solver.

#[export] Program Instance StatusKind_Wire : Wire StatusKind :=
  {| as_wire := StatusKind_as_wire; from_wire := StatusKind_from_wire |}.
Next Obligation. by intros []. Qed.
Next Obligation. solve_as_from. Qed.
#[export] Program Instance KindKind_Wire : Wire KindKind :=
  {| as_wire := KindKind_as_wire; from_wire := KindKind_from_wire |}.
Next Obligation. by intros []. Qed.
Next Obligation. solve_as_from. Qed.
#[export] Program Instance VisibilityKind_Wire : Wire VisibilityKind :=
  {| as_wire := VisibilityKind_as_wire; from_wire := VisibilityKind_from_wire |}.
Next Obligation. by intros []. Qed.
Next Obligation. solve_as_from. Qed.
#[export] Program Instance ReleaseKind_Wire : Wire ReleaseKind :=
  {| as_wire := ReleaseKind_as_wire; from_wire := ReleaseKind_from_wire |}.
Next Obligation. by intros []. Qed.
Next Obligation. solve_as_from. Qed.

Lemma from_wire_Some {A} `{Wire A} v (a : A) : from_wire v = Some a ↔ v = as_wire a.
Proof. split; [apply as_from_wire|intros ->; apply from_as_wire]. Qed.

(** ** Deriving a release *)

Inductive TrackTarget :=
| TargetRoadmap (status : StatusKind) (porteuse_status : option StatusKind)
| TargetBacklog.

Inductive ReleaseDerivationError := UndeterminedRoadmapStatus (status : StatusKind).

Definition SENTINEL_TRACK_VERSION : ustr := lit "0.0.0".
Definition SLASH : uchar := 47%N.

Definition is_sentinel_track_version (track_version : ustr) : bool :=
  let version := match rsplit_once SLASH track_version with
                 | Some (_, v) => v
                 | None => track_version
                 end in
  bool_decide (version = SENTINEL_TRACK_VERSION).

Definition derive_roadmap_release (status : StatusKind)
    : result ReleaseKind ReleaseDerivationError :=
  match status with
  | StatusDone => Ok ReleaseReleased
  | StatusOpen | StatusInProgress => Ok ReleasePlanned
  | StatusObsolete => Ok ReleaseDropped
  | StatusBlocked => Ok ReleasePlanned
  | StatusBrainstorming => Ok ReleaseRoadmap
  end.

Definition derive_release (card_status : StatusKind) (track_target : TrackTarget)
    (track_version : ustr) : result ReleaseKind ReleaseDerivationError :=
  if is_sentinel_track_version track_version then Ok ReleaseDropped
  else if decide (card_status = StatusDone) then Ok ReleaseReleased
  else if decide (card_status = StatusObsolete) then Ok ReleaseDropped
  else match track_target with
       | TargetBacklog => Ok ReleaseRoadmap
       | TargetRoadmap StatusObsolete (Some carrier) => derive_roadmap_release carrier
       | TargetRoadmap status _ => derive_roadmap_release status
       end.

(** The status a roadmap stands for: its carrier's when it is obsolete and has one. *)
Definition effective_status (t : TrackTarget) : option StatusKind :=
  match t with
  | TargetBacklog => None
  | TargetRoadmap StatusObsolete (Some carrier) => Some carrier
  | TargetRoadmap s _ => Some s
  end.

(** The bucket of a card of its own status [s] tracking [t], as a table. *)
Definition release_bucket (s : StatusKind) (t : TrackTarget) : ReleaseKind :=
  match s, effective_status t with
  | StatusDone, _ => ReleaseReleased
  | StatusObsolete, _ => ReleaseDropped
  | _, None | _, Some StatusBrainstorming => ReleaseRoadmap
  | _, Some StatusDone => ReleaseReleased
  | _, Some StatusObsolete => ReleaseDropped
  | _, Some _ => ReleasePlanned
  end.

Lemma derive_release_table s t v :
  derive_release s t v
  = Ok (if is_sentinel_track_version v then ReleaseDropped else release_bucket s t).
Proof.
  unfold derive_release. destruct (is_sentinel_track_version v); [done|].
  destruct s, t as [[] [[]|]|]; reflexivity.
Qed.

(** * ProjectLinks *)

(** [Ulid::from_string(s).is_ok()]. *)
Class UlidParser := ulid_from_string_ok : ustr → bool.

Inductive AnnexRole := AnnexSpec | AnnexPlan | AnnexContext.
Definition AnnexRole_prefix (r : AnnexRole) : ustr :=
  lit match r with AnnexSpec => "spec" | AnnexPlan => "plan" | AnnexContext => "context" end.

Inductive ProjectMapLink :=
| LinkProject (name : ustr)
| LinkStatus (status : StatusKind)
| LinkKind (kind : KindKind)
| LinkVersion (project version : ustr)
| LinkAnnex (role : AnnexRole) (target : ustr)
| LinkDep (section ulid : ustr)
| LinkFeature (id : ustr)
| LinkRelease (release : ReleaseKind)
| LinkSupersedes (id : ustr)
| LinkParent (id : ustr)
| LinkTrack (project target : ustr)
| LinkVisibility (visibility : VisibilityKind)
| LinkPorteuse (project version : ustr).

Inductive SchemaError :=
| MissingPrefix (raw : ustr)
| InvalidStatus (v : ustr)
| InvalidKind (v : ustr)
| MalformedVersion (v : ustr)
| EmptyValue (prefix : ustr)
| ValueTooLong (prefix v : ustr) (len : nat)
| InvalidChars (prefix v : ustr)
| ProjectCardinality (n : nat)
| StatusCardinality (n : nat)
| KindCardinality (n : nat)
| VersionCardinality (n : nat)
| VersionProjectMismatch (project version_project : ustr)
| FeatureIdentInvalid (v : ustr)
| InvalidRelease (v : ustr)
| FeatureCardinality (n : nat)
| ReleaseCardinality (n : nat)
| FeatureVersionCardinality (n : nat)
| MalformedTrack (v : ustr)
| TrackCardinality (n : nat)
| TrackOnStructureCard (n : nat)
| InvalidVisibility (v : ustr)
| VisibilityCardinality (n : nat)
| VisibilityForbidden (n : nat)
| VisibilityWorkCardCardinality (n : nat)
| MalformedPorteuse (v : ustr)
| PorteuseCardinality (n : nat)
| PorteuseForbidden (n : nat)
| StructureVersionCardinality (n : nat)
| StructureFeatureForbidden (n : nat)
| WorkCardNotDerivable
| UnknownRole (prefix value : ustr)
| IncoherentReleaseVersion (version : ustr).

Definition MAX_IDENT_LEN : nat := 64.
Definition COLON : uchar := 58%N.

(** ** Identifiers *)

Definition ident_char (c : uchar) : bool :=
  is_lower c || is_digit c || (c =? 46)%N || (c =? 95)%N || (c =? 45)%N.

Definition validate_ident (prefix value : ustr) : result unit SchemaError :=
  if MAX_IDENT_LEN <? str_len value then Err (ValueTooLong prefix value (str_len value))
  else if negb (forallb ident_char value) then Err (InvalidChars prefix value)
  else Ok tt.

Definition validate_feature_ident (value : ustr) : result unit SchemaError :=
  let invalid := Err (FeatureIdentInvalid value) in
  match strip_prefix (lit "F-") value with
  | None => invalid
  | Some digits =>
      if negb ((str_len digits =? 2) || (str_len digits =? 3)) || negb (forallb is_digit digits)
      then invalid
      else Ok tt
  end.

(** ** Parsing one target *)

Definition split_prefix (target : ustr) : ustr * ustr :=
  match split_once [COLON] target with Some (p, v) => (p, v) | None => (target, []) end.

(** The three roles of the shape [project/value]. *)
Definition parse_pair (role second : string) (link : ustr → ustr → ProjectMapLink)
    (malformed : ustr → SchemaError) (value : ustr) : result ProjectMapLink SchemaError :=
  match split_once [SLASH] value with
  | Some (project, v) =>
      if negb (bool_decide (project = [])) && negb (bool_decide (v = [])) then
        _ ?<- validate_ident (lit (role +:+ ".project")) project;
        _ ?<- validate_ident (lit (role +:+ "." +:+ second)) v;
        Ok (link project v)
      else Err (malformed value)
  | None => Err (malformed value)
  end.
Definition parse_track := parse_pair "track" "target" LinkTrack MalformedTrack.
Definition parse_porteuse := parse_pair "porteuse" "version" LinkPorteuse MalformedPorteuse.
Definition parse_version := parse_pair "version" "version" LinkVersion MalformedVersion.

Section parsing.
Context {UP : UlidParser}.

Definition parse_dep (section value raw : ustr) : result ProjectMapLink SchemaError :=
  if bool_decide (value = []) then Err (MissingPrefix raw)
  else
    let is_ulid := ulid_from_string_ok value in
    let is_feature := is_ok (validate_feature_ident value) in
    if negb is_ulid && negb is_feature then Err (UnknownRole section value)
    else Ok (LinkDep section value).

(** [from_wire(value).map(link).ok_or_else(|| error)]. *)
Definition parse_wire {A} `{Wire A} (link : A → ProjectMapLink) (error : ustr → SchemaError)
    (value : ustr) : result ProjectMapLink SchemaError :=
  match from_wire value with Some a => Ok (link a) | None => Err (error value) end.

(** The reserved prefixes, each with what the [match] does with its value. *)
Definition reserved_roles : list (string * (ustr → result ProjectMapLink SchemaError)) :=
  [("project", λ v, _ ?<- validate_ident (lit "project") v; Ok (LinkProject v));
   ("status", parse_wire LinkStatus InvalidStatus);
   ("kind", parse_wire LinkKind InvalidKind);
   ("version", parse_version);
   ("spec", λ v, Ok (LinkAnnex AnnexSpec v));
   ("plan", λ v, Ok (LinkAnnex AnnexPlan v));
   ("context", λ v, Ok (LinkAnnex AnnexContext v));
   ("feature", λ v, _ ?<- validate_feature_ident v; Ok (LinkFeature v));
   ("release", parse_wire LinkRelease InvalidRelease);
   ("supersedes", λ v, _ ?<- validate_feature_ident v; Ok (LinkSupersedes v));
   ("parent", λ v, _ ?<- validate_feature_ident v; Ok (LinkParent v));
   ("track", parse_track);
   ("visibilite", parse_wire LinkVisibility InvalidVisibility);
   ("porteuse", parse_porteuse)].

Definition parse_link (raw0 : ustr) : result ProjectMapLink SchemaError :=
  let raw := trim raw0 in
  let '(prefix, value) := split_prefix raw in
  match match_str reserved_roles prefix with
  | Some parse_value =>
      if bool_decide (value = []) then Err (EmptyValue prefix) else parse_value value
  | None => parse_dep prefix value raw
  end.

(** ** Validating a card *)

(** What one pass over the links gathers. *)
Record tally := mkTally {
  projects : list ustr;
  status_count : nat;
  kinds : list KindKind;
  versions : list ustr;
  version_values : list ustr;
  feature_count : nat;
  release_count : nat;
  release_kind : option ReleaseKind;
  track_count : nat;
  visibility_count : nat;
  porteuse_count : nat;
}.
Definition empty_tally : tally := mkTally [] 0 [] [] [] 0 0 None 0 0 0.

Definition tally_link (t : tally) (l : ProjectMapLink) : tally :=
  let '(mkTally ps sc ks vs vvs fc rc rk tc vc pc) := t in
  match l with
  | LinkProject p => mkTally (ps ++ [p]) sc ks vs vvs fc rc rk tc vc pc
  | LinkStatus _ => mkTally ps (S sc) ks vs vvs fc rc rk tc vc pc
  | LinkKind k => mkTally ps sc (ks ++ [k]) vs vvs fc rc rk tc vc pc
  | LinkVersion p v => mkTally ps sc ks (vs ++ [p]) (vvs ++ [v]) fc rc rk tc vc pc
  | LinkFeature _ => mkTally ps sc ks vs vvs (S fc) rc rk tc vc pc
  | LinkRelease r => mkTally ps sc ks vs vvs fc (S rc) (Some r) tc vc pc
  | LinkTrack _ _ => mkTally ps sc ks vs vvs fc rc rk (S tc) vc pc
  | LinkVisibility _ => mkTally ps sc ks vs vvs fc rc rk tc (S vc) pc
  | LinkPorteuse _ _ => mkTally ps sc ks vs vvs fc rc rk tc vc (S pc)
  | LinkAnnex _ _ | LinkDep _ _ | LinkSupersedes _ | LinkParent _ => t
  end.

(** [if cond { return Err(e) }]. *)
Definition reject_if (cond : bool) (e : SchemaError) : result unit SchemaError :=
  if cond then Err e else Ok tt.

Definition check_visibility (kind : KindKind) (n : nat) : result unit SchemaError :=
  match kind with
  | KindRoadmap => reject_if (negb (n =? 1)) (VisibilityCardinality n)
  | KindBacklog => reject_if (negb (n =? 0)) (VisibilityForbidden n)
  | KindFeature | KindEnhancement | KindFix | KindTask =>
      reject_if (1 <? n) (VisibilityWorkCardCardinality n)
  end.

Definition check_structure (t : tally) : result unit SchemaError :=
  _ ?<- reject_if (negb (feature_count t =? 0)) (StructureFeatureForbidden (feature_count t));
  _ ?<- reject_if (negb (release_count t =? 0)) (ReleaseCardinality (release_count t));
  reject_if (negb (length (versions t) =? 1)) (StructureVersionCardinality (length (versions t))).

(** [version_values.iter().find(|v| v != "backlog")]. *)
Definition concrete_version (t : tally) : option ustr :=
  head (filter (λ v, v ≠ lit "backlog") (version_values t)).

Definition check_work (t : tally) : result unit SchemaError :=
  _ ?<- reject_if (1 <? feature_count t) (FeatureCardinality (feature_count t));
  _ ?<- reject_if (1 <? release_count t) (ReleaseCardinality (release_count t));
  _ ?<- reject_if ((1 <=? feature_count t) && (length (versions t) =? 0) && (track_count t =? 0))
          WorkCardNotDerivable;
  match release_kind t, concrete_version t with
  | Some ReleaseRoadmap, Some concrete => Err (IncoherentReleaseVersion concrete)
  | _, _ => Ok tt
  end.

Definition validate_links (links : list ProjectMapLink) : result unit SchemaError :=
  let t := foldl tally_link empty_tally links in
  match projects t with
  | [project] =>
      _ ?<- reject_if (negb (status_count t =? 1)) (StatusCardinality (status_count t));
      match kinds t with
      | [kind] =>
          _ ?<- reject_if (1 <? length (versions t)) (VersionCardinality (length (versions t)));
          _ ?<- match versions t with
                | version_project :: _ =>
                    reject_if (negb (bool_decide (version_project = project)))
                      (VersionProjectMismatch project version_project)
                | [] => Ok tt
                end;
          _ ?<- (if is_structure kind
                 then reject_if (negb (track_count t =? 0)) (TrackOnStructureCard (track_count t))
                 else reject_if (1 <? track_count t) (TrackCardinality (track_count t)));
          _ ?<- check_visibility kind (visibility_count t);
          _ ?<- (if decide (kind = KindRoadmap)
                 then reject_if (1 <? porteuse_count t) (PorteuseCardinality (porteuse_count t))
                 else reject_if (negb (porteuse_count t =? 0))
                        (PorteuseForbidden (porteuse_count t)));
          if is_structure kind then check_structure t else check_work t
      | ks => Err (KindCardinality (length ks))
      end
  | ps => Err (ProjectCardinality (length ps))
  end.

(** [parse_link(t).ok()]. *)
Definition link_of (target : ustr) : option ProjectMapLink :=
  match parse_link target with Ok l => Some l | Err _ => None end.

Definition validate_links_from_targets (targets : list ustr) : result unit SchemaError :=
  validate_links (omap link_of targets).

Definition feature_identity_from_targets (targets : list ustr) : list ustr :=
  merge_sort (λ a b, ustr_le a b)
    (omap (λ t, match link_of t with Some (LinkFeature id) => Some id | _ => None end) targets).

Definition reserved_node_target (raw : ustr) : option ustr :=
  match link_of raw with
  | None => None
  | Some l =>
      match l with
      | LinkProject p => Some (lit "project:" ++ p)
      | LinkStatus s => Some (lit "status:" ++ StatusKind_as_wire s)
      | LinkKind k => Some (lit "kind:" ++ KindKind_as_wire k)
      | LinkVersion project version => Some (lit "version:" ++ project ++ SLASH :: version)
      | LinkFeature f => Some (lit "feature:" ++ f)
      | LinkRelease r => Some (lit "release:" ++ ReleaseKind_as_wire r)
      | LinkSupersedes f => Some (lit "feature:" ++ f)
      | LinkParent f => Some (lit "feature:" ++ f)
      | LinkTrack project target => Some (lit "track:" ++ project ++ SLASH :: target)
      | LinkVisibility v => Some (lit "visibilite:" ++ VisibilityKind_as_wire v)
      | LinkPorteuse project version => Some (lit "porteuse:" ++ project ++ SLASH :: version)
      | LinkAnnex _ _ | LinkDep _ _ => None
      end
  end.
End parsing.

(** ** Printing a link, and which links can be printed *)

Definition role_text (prefix value : ustr) : ustr := prefix ++ COLON :: value.

Definition link_prefix (l : ProjectMapLink) : ustr :=
  match l with
  | LinkProject _ => lit "project"
  | LinkStatus _ => lit "status"
  | LinkKind _ => lit "kind"
  | LinkVersion _ _ => lit "version"
  | LinkAnnex r _ => AnnexRole_prefix r
  | LinkDep section _ => section
  | LinkFeature _ => lit "feature"
  | LinkRelease _ => lit "release"
  | LinkSupersedes _ => lit "supersedes"
  | LinkParent _ => lit "parent"
  | LinkTrack _ _ => lit "track"
  | LinkVisibility _ => lit "visibilite"
  | LinkPorteuse _ _ => lit "porteuse"
  end.

Definition link_value (l : ProjectMapLink) : ustr :=
  match l with
  | LinkProject v | LinkAnnex _ v | LinkDep _ v | LinkFeature v | LinkSupersedes v
  | LinkParent v => v
  | LinkStatus s => as_wire s
  | LinkKind k => as_wire k
  | LinkRelease r => as_wire r
  | LinkVisibility v => as_wire v
  | LinkVersion a b | LinkTrack a b | LinkPorteuse a b => a ++ SLASH :: b
  end.

Definition print_link (l : ProjectMapLink) : ustr := role_text (link_prefix l) (link_value l).

Definition ident_ok (v : ustr) : bool := (str_len v <=? MAX_IDENT_LEN) && forallb ident_char v.
Definition nonempty_ident (v : ustr) : Prop := v ≠ [] ∧ ident_ok v = true.
Definition feature_ident (v : ustr) : Prop := is_ok (validate_feature_ident v) = true.

Definition link_wf {UP : UlidParser} (l : ProjectMapLink) : Prop :=
  match l with
  | LinkProject v => nonempty_ident v
  | LinkVersion a b | LinkTrack a b | LinkPorteuse a b => nonempty_ident a ∧ nonempty_ident b
  | LinkFeature v | LinkSupersedes v | LinkParent v => feature_ident v
  | LinkAnnex _ v => v ≠ []
  | LinkDep s v =>
      COLON ∉ s ∧ match_str reserved_roles s = None
      ∧ v ≠ [] ∧ (ulid_from_string_ok v = true ∨ feature_ident v)
  | LinkStatus _ | LinkKind _ | LinkRelease _ | LinkVisibility _ => True
  end.

Lemma validate_ident_Ok p v u : validate_ident p v = Ok u ↔ ident_ok v = true.
Proof.
  unfold validate_ident, ident_ok. destruct u. rewrite andb_true_iff, Nat.leb_le.
  destruct (Nat.ltb_spec MAX_IDENT_LEN (str_len v)); [split; [done|lia]|].
  destruct (forallb ident_char v); cbn; naive_solver.
Qed.

Lemma is_ok_validate_ident p v : is_ok (validate_ident p v) = ident_ok v.
Proof.
  apply eq_bool_prop_intro. rewrite !Is_true_true, <-(validate_ident_Ok p v tt).
  destruct (validate_ident p v) as [[]|]; naive_solver.
Qed.

Lemma ident_ok_char v c : ident_ok v = true → c ∈ v → ident_char c = true.
Proof.
  intros [_ Hf]%andb_true_iff Hc. rewrite forallb_forall in Hf. by apply Hf, list_elem_of_In.
Qed.

Lemma ident_no_char v c : ident_ok v = true → ident_char c = false → c ∉ v.
Proof. intros Hv Hc Hin. by rewrite (ident_ok_char v c) in Hc. Qed.

Lemma parse_pair_Ok role second link malformed value l :
  parse_pair role second link malformed value = Ok l ↔
  ∃ a b, l = link a b ∧ value = a ++ SLASH :: b ∧ nonempty_ident a ∧ nonempty_ident b.
Proof.
  unfold parse_pair. split.
  - destruct (split_once [SLASH] value) as [[a b]|] eqn:E; [|done].
    apply split_once_char in E as [-> _].
    do 2 (case_bool_decide; [done|]). cbn [negb andb].
    destruct (validate_ident _ a) eqn:Ha; [|done]. cbn [result_bind].
    destruct (validate_ident _ b) eqn:Hb; [|done]. intros [= <-].
    apply validate_ident_Ok in Ha, Hb. exists a, b. done.
  - intros (a & b & -> & -> & [Ha1 Ha2] & [Hb1 Hb2]).
    rewrite (proj2 (split_once_char SLASH _ a b)) by (split; [done|by eapply ident_no_char]).
    rewrite !bool_decide_eq_false_2 by done. cbn [negb andb].
    rewrite (proj2 (validate_ident_Ok _ a tt)), (proj2 (validate_ident_Ok _ b tt)) by done. done.
Qed.

Lemma parse_wire_Ok {A} `{Wire A} (link : A → ProjectMapLink) error v l :
  parse_wire link error v = Ok l ↔ ∃ a, l = link a ∧ v = as_wire a.
Proof.
  unfold parse_wire. destruct (from_wire v) as [a|] eqn:E.
  - apply from_wire_Some in E as ->. split; [naive_solver|].
    intros (b & -> & Hb). apply (f_equal from_wire) in Hb. rewrite !from_as_wire in Hb. naive_solver.
  - split; [done|]. intros (a & -> & ->). by rewrite from_as_wire in E.
Qed.

Lemma validate_bind_Ok (c : result unit SchemaError) (l l' : ProjectMapLink) :
  (_ ?<- c; Ok l) = Ok l' ↔ l' = l ∧ is_ok c = true.
Proof. destruct c as [[]|]; cbn; naive_solver. Qed.

Lemma split_prefix_role p v : COLON ∉ p → split_prefix (role_text p v) = (p, v).
Proof.
  intros Hp. unfold split_prefix, role_text. by rewrite (proj2 (split_once_char COLON _ p v)).
Qed.

Lemma split_prefix_cases t p v :
  split_prefix t = (p, v) → v = [] ∨ t = role_text p v ∧ COLON ∉ p.
Proof.
  unfold split_prefix. destruct (split_once [COLON] t) as [[a b]|] eqn:E.
  - intros [= -> ->]. apply split_once_char in E. by right.
  - intros [= <- <-]. by left.
Qed.

Definition is_dep (l : ProjectMapLink) : bool := match l with LinkDep _ _ => true | _ => false end.

Section exactness.
Context {UP : UlidParser}.

(** Each reserved role parses exactly the links printed with its prefix. *)
Lemma reserved_role_Ok s f v l :
  (s, f) ∈ reserved_roles → v ≠ [] →
  f v = Ok l ↔ link_wf l ∧ link_prefix l = lit s ∧ link_value l = v ∧ is_dep l = false.
Proof.
  intros Hin Hv.
  repeat (apply elem_of_cons in Hin as [[= -> ->]|Hin]); [..|by apply not_elem_of_nil in Hin].
  all: unfold parse_version, parse_track, parse_porteuse;
    rewrite ?parse_wire_Ok, ?parse_pair_Ok, ?validate_bind_Ok, ?is_ok_validate_ident.
  all: split; [|intros (Hwf & Hp & <- & Hd); destruct l as [| | | |[]| | | | | | | |]; try done].
  all: cbn [link_wf link_prefix link_value AnnexRole_prefix] in *.
  all: try (by destruct Hwf); try (by eauto 10).
  all: try (intros (? & -> & ->); done); try (intros (? & ? & -> & -> & ? & ?); done).
  all: try (intros [= <-]; done); intros [-> ?]; done.
Qed.

Lemma reserved_prefix l :
  is_dep l = false →
  (∃ f, match_str reserved_roles (link_prefix l) = Some f) ∧ COLON ∉ link_prefix l.
Proof.
  intros Hd. destruct l as [| | | |[]| | | | | | | |]; try done.
  all: split; [eexists; reflexivity|apply (bool_decide_unpack _); vm_compute; exact I].
Qed.

Lemma link_value_nonempty l : link_wf l → link_value l ≠ [].
Proof.
  destruct l; cbn [link_wf link_value];
    try match goal with |- _ → as_wire ?x ≠ [] => by destruct x end;
    try (intros [? _]; done); try (by intros _ [_ ?]%app_eq_nil); try (by intros (_ & _ & ? & _));
    try done.
  all: by intros H ->; vm_compute in H.
Qed.

(** The parser accepts exactly the printed links, up to surrounding whitespace. *)
Lemma parse_link_iff raw l :
  parse_link raw = Ok l ↔ link_wf l ∧ trim raw = print_link l.
Proof.
  unfold parse_link. destruct (split_prefix (trim raw)) as [p v] eqn:Esp. split.
  - destruct (match_str reserved_roles p) as [f|] eqn:Em.
    + case_bool_decide as Hv; [done|]. intros Hf.
      apply match_str_Some in Em as (s & Hin & ->).
      apply (reserved_role_Ok s f v l Hin Hv) in Hf as (Hwf & Hp & Hval & _).
      split; [done|]. apply split_prefix_cases in Esp as [?|[-> _]]; [done|].
      unfold print_link. by rewrite Hp, Hval.
    + unfold parse_dep. case_bool_decide as Hv; [done|].
      destruct (ulid_from_string_ok v) eqn:Eu, (is_ok (validate_feature_ident v)) eqn:Ef;
        cbn [negb andb]; try done; intros [= <-];
        apply split_prefix_cases in Esp as [?|[-> ?]]; naive_solver.
  - intros [Hwf Ht]. rewrite Ht in *. unfold print_link in *.
    pose proof (link_value_nonempty l Hwf) as Hv. destruct (is_dep l) eqn:Hd.
    + destruct l as [| | | | |sec u| | | | | | |]; try done.
      destruct Hwf as (Hc & Hr & Hu & Hok). cbn [link_prefix link_value] in *.
      rewrite split_prefix_role in Esp by done. injection Esp as <- <-. rewrite Hr.
      unfold parse_dep. rewrite bool_decide_eq_false_2 by done.
      destruct Hok as [->| ->]; cbn [negb andb]; rewrite ?andb_false_r; done.
    + destruct (reserved_prefix l Hd) as [[f Hf] Hc].
      rewrite split_prefix_role in Esp by done. injection Esp as <- <-.
      rewrite Hf, bool_decide_eq_false_2 by done.
      apply match_str_Some in Hf as (s & Hin & Hs).
      by apply (reserved_role_Ok s f _ l Hin Hv).
Qed.

(** Only a target without a value is taken for a bare title. *)
Definition not_missing {A} (c : result A SchemaError) : Prop :=
  match c with Err (MissingPrefix _) => False | _ => True end.

Lemma not_missing_validate {A} (c : result unit SchemaError) (k : result A SchemaError) :
  not_missing c → not_missing k → not_missing (_ ?<- c; k).
Proof. by destruct c. Qed.
Lemma not_missing_ident p v : not_missing (validate_ident p v).
Proof. unfold validate_ident. by repeat case_match. Qed.
Lemma not_missing_feature v : not_missing (validate_feature_ident v).
Proof. unfold validate_feature_ident. by repeat case_match. Qed.
Lemma not_missing_pair r s link m v : (∀ v, not_missing (@Err unit _ (m v))) →
  not_missing (parse_pair r s link m v).
Proof.
  intros Hm. specialize (Hm v). unfold parse_pair. destruct (split_once _ v) as [[a b]|]; [|done].
  destruct (_ && _); [|done]. by repeat (apply not_missing_validate; [apply not_missing_ident|]).
Qed.

Lemma reserved_role_not_missing s f v : (s, f) ∈ reserved_roles → not_missing (f v).
Proof.
  intros Hin.
  repeat (apply elem_of_cons in Hin as [[= -> ->]|Hin]); [..|by apply not_elem_of_nil in Hin].
  all: first [ apply not_missing_validate; [apply not_missing_ident|done]
             | apply not_missing_validate; [apply not_missing_feature|done]
             | by apply not_missing_pair
             | unfold parse_wire; by destruct (from_wire v)
             | done ].
Qed.

Lemma parse_link_missing t raw :
  parse_link t = Err (MissingPrefix raw) → raw = trim t ∧ (split_prefix (trim t)).2 = [].
Proof.
  unfold parse_link. destruct (split_prefix (trim t)) as [p v].
  destruct (match_str reserved_roles p) as [f|] eqn:Em.
  - case_bool_decide; [done|]. apply match_str_Some in Em as (s & Hin & _). intros Hf.
    pose proof (reserved_role_not_missing s f v Hin) as Hn. by rewrite Hf in Hn.
  - unfold parse_dep. case_bool_decide as Hv; [|case_match; done]. intros [= <-]. done.
Qed.
End exactness.

(** ** The schema of a card, declaratively *)

Section schema.
Context (links : list ProjectMapLink).

Definition projects_of : list ustr :=
  omap (λ l, match l with LinkProject p => Some p | _ => None end) links.
Definition statuses_of : list StatusKind :=
  omap (λ l, match l with LinkStatus s => Some s | _ => None end) links.
Definition kinds_of : list KindKind :=
  omap (λ l, match l with LinkKind k => Some k | _ => None end) links.
Definition versions_of : list (ustr * ustr) :=
  omap (λ l, match l with LinkVersion p v => Some (p, v) | _ => None end) links.
Definition features_of : list ustr :=
  omap (λ l, match l with LinkFeature f => Some f | _ => None end) links.
Definition releases_of : list ReleaseKind :=
  omap (λ l, match l with LinkRelease r => Some r | _ => None end) links.
Definition tracks_of : list (ustr * ustr) :=
  omap (λ l, match l with LinkTrack p t => Some (p, t) | _ => None end) links.
Definition visibilities_of : list VisibilityKind :=
  omap (λ l, match l with LinkVisibility v => Some v | _ => None end) links.
Definition porteuses_of : list (ustr * ustr) :=
  omap (λ l, match l with LinkPorteuse p v => Some (p, v) | _ => None end) links.

(** A structure card is pointed at and points at nothing. *)
Definition structure_ok (kind : KindKind) : Prop :=
  tracks_of = [] ∧ features_of = [] ∧ releases_of = [] ∧ length versions_of = 1
  ∧ (if decide (kind = KindRoadmap)
     then length visibilities_of = 1 ∧ length porteuses_of ≤ 1
     else visibilities_of = [] ∧ porteuses_of = []).

(** A work card: at most one of each role, a numbered card anchored somewhere, and no
    committed version next to [release:roadmap]. *)
Definition work_ok : Prop :=
  length tracks_of ≤ 1 ∧ length visibilities_of ≤ 1 ∧ porteuses_of = []
  ∧ length features_of ≤ 1 ∧ length releases_of ≤ 1
  ∧ (features_of = [] ∨ versions_of ≠ [] ∨ tracks_of ≠ [])
  ∧ (ReleaseRoadmap ∈ releases_of → Forall (λ pv, pv.2 = lit "backlog") versions_of).

Definition card_ok : Prop :=
  ∃ project kind,
    projects_of = [project] ∧ length statuses_of = 1 ∧ kinds_of = [kind]
    ∧ length versions_of ≤ 1 ∧ Forall (λ pv, pv.1 = project) versions_of
    ∧ if is_structure kind then structure_ok kind else work_ok.

(** What each refusal asserts. *)
Definition violation (e : SchemaError) : Prop :=
  match e with
  | ProjectCardinality n => n = length projects_of ∧ n ≠ 1
  | StatusCardinality n => n = length statuses_of ∧ n ≠ 1
  | KindCardinality n => n = length kinds_of ∧ n ≠ 1
  | VersionCardinality n => n = length versions_of ∧ 1 < n
  | VersionProjectMismatch p vp => projects_of = [p] ∧ versions_of.*1 = [vp] ∧ vp ≠ p
  | TrackOnStructureCard n => Exists is_structure kinds_of ∧ n = length tracks_of ∧ n ≠ 0
  | TrackCardinality n => n = length tracks_of ∧ 1 < n
  | VisibilityCardinality n => kinds_of = [KindRoadmap] ∧ n = length visibilities_of ∧ n ≠ 1
  | VisibilityForbidden n => kinds_of = [KindBacklog] ∧ n = length visibilities_of ∧ n ≠ 0
  | VisibilityWorkCardCardinality n => n = length visibilities_of ∧ 1 < n
  | PorteuseCardinality n => n = length porteuses_of ∧ 1 < n
  | PorteuseForbidden n => kinds_of ≠ [KindRoadmap] ∧ n = length porteuses_of ∧ n ≠ 0
  | StructureFeatureForbidden n => Exists is_structure kinds_of ∧ n = length features_of ∧ n ≠ 0
  | ReleaseCardinality n =>
      n = length releases_of ∧ (1 < n ∨ n = 1 ∧ Exists is_structure kinds_of)
  | StructureVersionCardinality n => Exists is_structure kinds_of ∧ versions_of = [] ∧ n = 0
  | FeatureCardinality n => n = length features_of ∧ 1 < n
  | WorkCardNotDerivable => length features_of = 1 ∧ versions_of = [] ∧ tracks_of = []
  | IncoherentReleaseVersion v =>
      releases_of = [ReleaseRoadmap] ∧ versions_of.*2 = [v] ∧ v ≠ lit "backlog"
  | _ => False
  end.
End schema.

Lemma tally_links links :
  foldl tally_link empty_tally links
  = mkTally (projects_of links) (length (statuses_of links)) (kinds_of links)
      (versions_of links).*1 (versions_of links).*2 (length (features_of links))
      (length (releases_of links)) (last (releases_of links)) (length (tracks_of links))
      (length (visibilities_of links)) (length (porteuses_of links)).
Proof.
  unfold projects_of, statuses_of, kinds_of, versions_of, features_of, releases_of, tracks_of,
    visibilities_of, porteuses_of.
  induction links as [|l links IH] using rev_ind; [done|].
  rewrite foldl_snoc, IH, !omap_app. destruct l; cbn [tally_link omap list_omap];
    rewrite ?app_nil_r, ?fmap_app, ?last_snoc, ?length_app; cbn; rewrite ?Nat.add_1_r; done.
Qed.

Lemma reject_if_Ok b e u : reject_if b e = Ok u ↔ b = false.
Proof. destruct b, u; cbn; split; done. Qed.
Lemma reject_if_Err b e e' : reject_if b e = Err e' ↔ b = true ∧ e' = e.
Proof. destruct b; cbn; naive_solver. Qed.

(** One rule after the other: the first that fails decides. *)
Lemma then_Ok {E} (c k : result unit E) : (_ ?<- c; k) = Ok tt ↔ c = Ok tt ∧ k = Ok tt.
Proof. destruct c as [[]|]; cbn; naive_solver. Qed.
Lemma then_Err {E} (c k : result unit E) e :
  (_ ?<- c; k) = Err e ↔ c = Err e ∨ c = Ok tt ∧ k = Err e.
Proof. destruct c as [[]|]; cbn; naive_solver. Qed.

Lemma negb_eqb_false n m : negb (n =? m) = false ↔ n = m.
Proof. rewrite negb_false_iff. apply Nat.eqb_eq. Qed.
Lemma negb_eqb_true n m : negb (n =? m) = true ↔ n ≠ m.
Proof. rewrite negb_true_iff. apply Nat.eqb_neq. Qed.
Lemma length_0 {A} (l : list A) : length l = 0 ↔ l = [].
Proof. apply length_zero_iff_nil. Qed.

#[local] Hint Rewrite @then_Ok @then_Err reject_if_Ok reject_if_Err negb_eqb_false negb_eqb_true
  Nat.ltb_ge Nat.ltb_lt @length_0 @length_fmap : schema.

Lemma concrete_version_None vs :
  head (filter (λ v, v ≠ lit "backlog") vs) = None ↔ Forall (λ v, v = lit "backlog") vs.
Proof.
  induction vs as [|v vs IH]; [by split|]. destruct (decide (v = lit "backlog")) as [->|Hn].
  - rewrite filter_cons_False by (by intros []). rewrite IH, Forall_cons. naive_solver.
  - rewrite filter_cons_True by done. rewrite Forall_cons. naive_solver.
Qed.

Lemma concrete_version_Some vs v :
  head (filter (λ v, v ≠ lit "backlog") vs) = Some v → v ∈ vs ∧ v ≠ lit "backlog".
Proof.
  intros Hh. destruct (filter _ vs) as [|w r] eqn:E; [done|]. injection Hh as ->.
  assert (v ∈ filter (λ v, v ≠ lit "backlog") vs) as Hv by (rewrite E; by left).
  by apply list_elem_of_filter in Hv as [? ?].
Qed.

Lemma anchored {A B C} (fs : list A) (vs : list B) (ts : list C) :
  (1 <=? length fs) && (length vs =? 0) && (length ts =? 0) = false
  ↔ fs = [] ∨ vs ≠ [] ∨ ts ≠ [].
Proof. destruct fs, vs, ts; cbn; naive_solver. Qed.

(** The coherence rule, for a card with at most one release. *)
Lemma coherence_Ok (rs : list ReleaseKind) (vs : list (ustr * ustr)) :
  length rs ≤ 1 →
  match last rs, head (filter (λ v, v ≠ lit "backlog") vs.*2) with
  | Some ReleaseRoadmap, Some concrete => Err (IncoherentReleaseVersion concrete)
  | _, _ => Ok tt
  end = Ok tt
  ↔ (ReleaseRoadmap ∈ rs → Forall (λ pv, pv.2 = lit "backlog") vs).
Proof.
  intros Hl. assert (Forall (λ pv, pv.2 = lit "backlog") vs ↔ Forall (λ v, v = lit "backlog") vs.*2)
    as -> by (by rewrite Forall_fmap).
  rewrite <-concrete_version_None. destruct rs as [|r [|]]; cbn in Hl |- *; [..|lia].
  - split; [|done]. by intros _ ?%not_elem_of_nil.
  - rewrite list_elem_of_singleton. destruct r; try (split; [done|done]).
    destruct (head _); split; try done; intros ?; exfalso; naive_solver.
Qed.

Lemma check_work_Ok links :
  check_work (foldl tally_link empty_tally links) = Ok tt ↔
  length (features_of links) ≤ 1 ∧ length (releases_of links) ≤ 1
  ∧ (features_of links = [] ∨ versions_of links ≠ [] ∨ tracks_of links ≠ [])
  ∧ (ReleaseRoadmap ∈ releases_of links →
     Forall (λ pv, pv.2 = lit "backlog") (versions_of links)).
Proof.
  rewrite tally_links. unfold check_work, concrete_version. cbn [feature_count release_count
    versions track_count release_kind version_values]. autorewrite with schema.
  rewrite anchored. split.
  - intros (? & ? & ? & Hc). by rewrite coherence_Ok in Hc.
  - intros (? & ? & ? & Hc). by rewrite coherence_Ok.
Qed.

Lemma check_structure_Ok links :
  check_structure (foldl tally_link empty_tally links) = Ok tt ↔
  features_of links = [] ∧ releases_of links = [] ∧ length (versions_of links) = 1.
Proof.
  rewrite tally_links. unfold check_structure. cbn [feature_count release_count versions].
  autorewrite with schema. done.
Qed.

Lemma version_project_Ok (p : ustr) (vs : list (ustr * ustr)) :
  length vs ≤ 1 →
  match vs.*1 with
  | vp :: _ => reject_if (negb (bool_decide (vp = p))) (VersionProjectMismatch p vp)
  | [] => Ok tt
  end = Ok tt ↔ Forall (λ pv, pv.1 = p) vs.
Proof.
  destruct vs as [|[vp v] [|]]; cbn; intros Hl; [by split| |lia].
  rewrite reject_if_Ok, negb_false_iff, bool_decide_eq_true, Forall_singleton. done.
Qed.

Lemma kind_rules_Ok kind links :
  (if is_structure kind
   then reject_if (negb (length (tracks_of links) =? 0)) (TrackOnStructureCard (length (tracks_of links)))
   else reject_if (1 <? length (tracks_of links)) (TrackCardinality (length (tracks_of links))))
    = Ok tt
  ∧ check_visibility kind (length (visibilities_of links)) = Ok tt
  ∧ (if decide (kind = KindRoadmap)
     then reject_if (1 <? length (porteuses_of links)) (PorteuseCardinality (length (porteuses_of links)))
     else reject_if (negb (length (porteuses_of links) =? 0))
            (PorteuseForbidden (length (porteuses_of links)))) = Ok tt
  ∧ (if is_structure kind then check_structure (foldl tally_link empty_tally links)
     else check_work (foldl tally_link empty_tally links)) = Ok tt
  ↔ if is_structure kind then structure_ok links kind else work_ok links.
Proof.
  unfold structure_ok, work_ok, check_visibility.
  destruct kind; cbn [is_structure]; rewrite ?check_structure_Ok, ?check_work_Ok;
    repeat case_decide; try done; autorewrite with schema;
    split; intros; destruct_and!; split_and!; done.
Qed.

Lemma tally_fields links (t := foldl tally_link empty_tally links) :
  projects t = projects_of links ∧ status_count t = length (statuses_of links)
  ∧ kinds t = kinds_of links ∧ versions t = (versions_of links).*1
  ∧ track_count t = length (tracks_of links)
  ∧ visibility_count t = length (visibilities_of links)
  ∧ porteuse_count t = length (porteuses_of links).
Proof. subst t. rewrite tally_links. done. Qed.

Lemma validate_links_Ok links : validate_links links = Ok tt ↔ card_ok links.
Proof.
  unfold validate_links, card_ok. destruct (tally_fields links) as (-> & -> & -> & -> & -> & -> & ->).
  destruct (projects_of links) as [|project [|]]; [naive_solver| |naive_solver].
  rewrite then_Ok. destruct (kinds_of links) as [|kind [|]]; [naive_solver| |naive_solver].
  rewrite !then_Ok. rewrite (reject_if_Ok (negb _)), (reject_if_Ok (1 <? length (versions_of links).*1)), negb_eqb_false, Nat.ltb_ge, length_fmap.
  split.
  - intros (? & ? & Hp & ?). exists project, kind. rewrite version_project_Ok in Hp by done.
    rewrite <-kind_rules_Ok. done.
  - intros (? & ? & [= <-] & ? & [= <-] & ? & Hp & Hk). rewrite version_project_Ok by done.
    rewrite <-kind_rules_Ok in Hk. done.
Qed.

Lemma check_structure_Err links e :
  Exists is_structure (kinds_of links) → length (versions_of links) ≤ 1 →
  check_structure (foldl tally_link empty_tally links) = Err e → violation links e.
Proof.
  intros Hk Hv. rewrite tally_links. unfold check_structure.
  cbn [feature_count release_count versions]. rewrite !then_Err, !reject_if_Err, !negb_eqb_true.
  intros [[? ->]|[_ [[? ->]|[_ [Hn ->]]]]]; cbn; [done| |].
  { split; [done|]. destruct (decide (length (releases_of links) = 1)); [by right|left; lia]. }
  rewrite length_fmap in Hn |- *.
  destruct (versions_of links) as [|? [|]]; cbn in Hv, Hn |- *; [done|done|lia].
Qed.

Lemma check_work_Err links e :
  length (versions_of links) ≤ 1 →
  check_work (foldl tally_link empty_tally links) = Err e → violation links e.
Proof.
  intros Hv. rewrite tally_links. unfold check_work, concrete_version. cbn [feature_count
    release_count versions track_count release_kind version_values].
  rewrite !then_Err, !reject_if_Err, !reject_if_Ok, !Nat.ltb_lt, !Nat.ltb_ge.
  intros [[? ->]|[Hf [[? ->]|[Hr [[Ha ->]|[_ Hc]]]]]]; cbn; [done|auto|..].
  - rewrite !andb_true_iff, Nat.leb_le, !Nat.eqb_eq, length_fmap, !length_0 in Ha.
    split_and!; try lia; apply Ha.
  - destruct (releases_of links) as [|r [|]] eqn:Er; cbn in Hr, Hc; [done| |lia].
    destruct r; try done. destruct (head _) as [v|] eqn:Eh; [|done]. injection Hc as <-.
    apply concrete_version_Some in Eh as [Hin Hn]. split_and!; [done| |done].
    destruct (versions_of links) as [|[p w] [|]]; cbn in Hv, Hin |- *; [set_solver|set_solver|lia].
Qed.

Lemma validate_links_Err links e : validate_links links = Err e → violation links e.
Proof.
  unfold validate_links. destruct (tally_fields links) as (-> & -> & -> & -> & -> & -> & ->).
  destruct (projects_of links) as [|project [|]] eqn:Ep; [by intros [= <-]; cbn; rewrite Ep| |
    by intros [= <-]; cbn; rewrite Ep].
  rewrite then_Err, reject_if_Err, negb_eqb_true. intros [[? ->]|[_ He]]; [done|].
  destruct (kinds_of links) as [|kind [|]] eqn:Ek; [by injection He as <-; cbn; rewrite Ek| |
    by injection He as <-; cbn; rewrite Ek].
  rewrite !then_Err in He. destruct He as [He|[Hv [He|[_ [He|[_ [He|[_ [He|[_ He]]]]]]]]]].
  - apply reject_if_Err in He as [Hn%Nat.ltb_lt ->]. rewrite length_fmap in *. done.
  - apply reject_if_Ok, Nat.ltb_ge in Hv. rewrite length_fmap in Hv.
    destruct (versions_of links) as [|[vp v] [|]] eqn:Ev; [done| |cbn in Hv; lia].
    cbn in He. apply reject_if_Err in He as [Hn%negb_true_iff%bool_decide_eq_false ->].
    cbn. rewrite Ep, Ev. done.
  - cbn [violation]. destruct (is_structure kind) eqn:Es;
      apply reject_if_Err in He as [Hn ->]; cbn; [apply negb_eqb_true in Hn|by apply Nat.ltb_lt in Hn].
    rewrite Ek, Exists_cons, Es. naive_solver.
  - unfold check_visibility in He.
    destruct kind; apply reject_if_Err in He as [Hn ->]; cbn; rewrite ?Ek;
      first [by apply negb_eqb_true in Hn|by apply Nat.ltb_lt in Hn].
  - destruct (decide (kind = KindRoadmap)) as [->|Hr]; apply reject_if_Err in He as [Hn ->]; cbn.
    + by apply Nat.ltb_lt in Hn.
    + rewrite Ek. apply negb_eqb_true in Hn. naive_solver.
  - apply reject_if_Ok, Nat.ltb_ge in Hv. rewrite length_fmap in Hv.
    destruct (is_structure kind) eqn:Es.
    + apply check_structure_Err; [rewrite Ek, Exists_cons, Es; by left|done|done].
    + by apply check_work_Err.
Qed.

(** The order of the links does not matter to the schema. *)
Lemma Permutation_nil_carry {A} (l l' : list A) : l ≡ₚ l' → l = [] → l' = [].
Proof. intros Hp ->. by apply Permutation_nil_l in Hp. Qed.
Lemma Permutation_singleton_carry {A} (l l' : list A) x : l ≡ₚ l' → l = [x] → l' = [x].
Proof. intros Hp ->. by apply Permutation_singleton_l in Hp. Qed.
Lemma Permutation_length_eq {A} (l l' : list A) n : l ≡ₚ l' → length l = n → length l' = n.
Proof. by intros ->. Qed.
Lemma Permutation_length_le {A} (l l' : list A) n : l ≡ₚ l' → length l ≤ n → length l' ≤ n.
Proof. by intros ->. Qed.

Lemma Permutation_Forall_carry {A} (P : A → Prop) l l' : l ≡ₚ l' → Forall P l → Forall P l'.
Proof. by intros ->. Qed.

Ltac carry_over :=
  first [ by eapply Permutation_nil_carry; [eassumption|]
        | by eapply Permutation_singleton_carry; [eassumption|]
        | by eapply Permutation_length_eq; [eassumption|]
        | by eapply Permutation_length_le; [eassumption|]
        | by eapply Permutation_Forall_carry; [eassumption|] ].

Lemma card_ok_perm links links' : links ≡ₚ links' → card_ok links → card_ok links'.
Proof.
  intros Hp. unfold card_ok, structure_ok, work_ok, projects_of, statuses_of, kinds_of,
    versions_of, features_of, releases_of, tracks_of, visibilities_of, porteuses_of.
  repeat match goal with
  | |- context [omap ?f links] =>
      let H := fresh "HP" in pose proof (omap_Permutation f _ _ Hp) as H; revert H;
      generalize (omap f links') (omap f links); intros ? ? H
  end.
  intros (project & kind & ? & ? & ? & ? & ? & Hk). exists project, kind.
  split_and!; [carry_over..|]. destruct (is_structure kind).
  - destruct Hk as (? & ? & ? & ? & Hk). split_and!; [carry_over..|].
    case_decide; destruct Hk as [? ?]; split; carry_over.
  - destruct Hk as (? & ? & ? & ? & ? & Ha & Hr). split_and!; [carry_over..| |].
    + destruct Ha as [?|[Hn|Hn]]; [left; carry_over|right; left|right; right];
        (intros E; apply Hn; eapply Permutation_nil_carry; [symmetry; eassumption|done]).
    + intros Hin. assert (Hin' := Hin). revert Hin'.
      match goal with HP : ?l ≡ₚ ?l' |- _ ∈ ?l' → _ => rewrite <-HP end.
      intros Hin'. specialize (Hr Hin'). carry_over.
Qed.

#[export] Instance card_ok_Proper : Proper ((≡ₚ) ==> iff) card_ok.
Proof. intros links links' Hp. split; apply card_ok_perm; [done|by symmetry]. Qed.

Section properties.
Context {UP : UlidParser}.

Lemma link_of_iff raw l : link_of raw = Some l ↔ link_wf l ∧ trim raw = print_link l.
Proof. rewrite <-parse_link_iff. unfold link_of. destruct (parse_link raw); naive_solver. Qed.

(** Another prefix may replace the prefix of a link that was read. *)
Lemma trim_reprefix raw p v c q :
  trim raw = role_text p v → v ≠ [] → is_whitespace c = false →
  trim (role_text (c :: q) v) = role_text (c :: q) v.
Proof.
  intros Ht Hv Hc. destruct (trim_spec raw) as (? & ? & _ & _ & _ & _ & Hl).
  apply trim_fix; [by intros ? ? [= <- <-]|]. intros t d E.
  destruct v as [|e v _] using rev_ind; [done|]. unfold role_text in *.
  rewrite app_comm_cons, app_assoc in E. apply app_inj_tail in E as [_ <-].
  eapply (Hl (p ++ COLON :: v)). by rewrite Ht, app_comm_cons, app_assoc.
Qed.

Lemma node_of_link raw l n :
  link_of raw = Some l → reserved_node_target raw = Some n →
  link_of n = Some l ∧ n = print_link l
  ∨ ∃ f, link_of n = Some (LinkFeature f) ∧ n = print_link (LinkFeature f).
Proof.
  intros Hl Hn. unfold reserved_node_target in Hn. rewrite Hl in Hn.
  apply link_of_iff in Hl as [Hwf Ht].
  assert (∀ l', print_link l' = trim raw → link_wf l' → link_of (print_link l') = Some l') as Hsame.
  { intros l' E Hw. apply link_of_iff. by rewrite E, trim_idemp. }
  assert (∀ f, feature_ident f → (∃ p, trim raw = role_text p f) →
    link_of (print_link (LinkFeature f)) = Some (LinkFeature f)) as Hfeat.
  { intros f Hf [p Hp]. apply link_of_iff. split; [done|].
    eapply (trim_reprefix _ _ _ 102%N); [done| |done].
    cbn. intros ->. by vm_compute in Hf. }
  destruct l; try done; injection Hn as <-; match type of Hwf with
    | link_wf (LinkSupersedes ?f) => right; exists f
    | link_wf (LinkParent ?f) => right; exists f
    | link_wf ?l => left; split; [apply (Hsame l); done|done]
    end.
  all: split; [|done]; eapply Hfeat; [done|eauto].
Qed.

(** The parser of links is the exact inverse of the printer: a target parses to a link
    if and only if it is, up to surrounding whitespace, the text of that link, and the
    link is well formed (identifiers within their alphabet and length, values of the closed
    vocabularies, dependencies on a ULID or a feature, no reserved prefix taken for a
    dependency).  The graph node of a typed link is canonical: parsing it again gives the
    same node. *)
Theorem parse_link_exact raw :
  (∀ l, parse_link raw = Ok l ↔ link_wf l ∧ trim raw = print_link l)
  ∧ (∀ n, reserved_node_target raw = Some n → reserved_node_target n = Some n).
Proof.
  split; [intros l; apply parse_link_iff|]. intros n Hn.
  destruct (link_of raw) as [l|] eqn:El; [|by unfold reserved_node_target in Hn; rewrite El in Hn].
  destruct (node_of_link raw l n El Hn) as [[En ->]|(f & En & ->)];
    unfold reserved_node_target in *; rewrite En; [|done].
  rewrite El in Hn. destruct l; done.
Qed.

(** C36: [validate_links] accepts exactly the cards that satisfy the declarative schema, does
    so whatever the order of the links, and every refusal states a rule the card breaks,
    with the count it reports. *)
Theorem validate_links_exact links :
  (validate_links links = Ok tt ↔ card_ok links)
  ∧ (∀ e, validate_links links = Err e → violation links e)
  ∧ (∀ links', links ≡ₚ links' → validate_links links = Ok tt → validate_links links' = Ok tt).
Proof.
  split_and!; [apply validate_links_Ok|apply validate_links_Err|].
  intros links' Hp. by rewrite !validate_links_Ok, Hp.
Qed.
End properties.
