(* ===== verification/ProjectBody.v ===== *)
(** * ProjectBody: the structural zone of a card

    Third part of [crates/gradatum-core/src/project_map.rs]: the scan that reads the roles
    of a card from the lines made only of wikilinks and separators, outside code fences;
    the validation of a whole body; the roles, the highest feature number and the track to
    inject read from that zone. *)

From S2P Require Import Prelude Text ProjectLinks.

#[local] Open Scope nat_scope.

Definition OPENING : ustr := lit "[[".
Definition CLOSING : ustr := lit "]]".
Definition FENCE : ustr := lit "```".

(** Space, tab, middle dot, bullet, bar, comma, em dash, en dash, hyphen. *)
Definition SEP : list uchar := [32; 9; 183; 8226; 124; 44; 8212; 8211; 45]%N.
Definition is_sep (c : uchar) : bool := bool_decide (c ∈ SEP).

(** The [while let Some(start) = rest.find("[[")] loop: the targets, and the residue.  An
    opening that is not closed on the line pushes the text before it, then all of [rest]. *)
Fixpoint scan_tokens (fuel : nat) (rest : ustr) : list ustr * ustr :=
  match fuel with
  | 0 => ([], rest)
  | S fuel' =>
      match split_once OPENING rest with
      | None => ([], rest)
      | Some (before, after_open) =>
          match split_once CLOSING after_open with
          | Some (inner, rest') =>
              let '(ts, residue) := scan_tokens fuel' rest' in (trim inner :: ts, before ++ residue)
          | None => ([], before ++ rest)
          end
      end
  end.

Definition structural_targets_on_line (line : ustr) : list ustr :=
  let '(line_targets, residue) := scan_tokens (length line) line in
  if bool_decide (line_targets = []) || negb (forallb is_sep residue) then [] else line_targets.

Record StructuralScan := mkScan {
  targets : list ustr;
  swallowed : list ustr;
  unterminated : bool;
}.

(** [line.trim_start().starts_with("```")]. *)
Definition is_fence_line (line : ustr) : bool := str_starts_with FENCE (trim_start line).

(** One turn of the loop over the lines, on [(targets, fenced, in_fence)]. *)
Definition scan_line (st : list ustr * list ustr * bool) (line : ustr)
    : list ustr * list ustr * bool :=
  let '(targets, fenced, in_fence) := st in
  if is_fence_line line then
    (targets, if in_fence then [] else fenced, negb in_fence)
  else
    let line_targets := structural_targets_on_line line in
    if in_fence then (targets, fenced ++ line_targets, in_fence)
    else (targets ++ line_targets, fenced, in_fence).

Definition scan_structural_targets (body : ustr) : StructuralScan :=
  let '(targets, fenced, in_fence) := foldl scan_line ([], [], false) (lines body) in
  mkScan targets (if in_fence then fenced else []) in_fence.

Definition extract_structural_targets (body : ustr) : list ustr :=
  targets (scan_structural_targets body).

Definition has_unterminated_code_fence (body : ustr) : bool :=
  unterminated (scan_structural_targets body).

Definition feature_number (id : ustr) : option N :=
  digits ← strip_prefix (lit "F-") id; parse_u32 digits.
Definition feature_sort_key (id : ustr) : N := default 0%N (feature_number id).

Definition pair_text (project v : ustr) : ustr := project ++ SLASH :: v.

Definition map_version_raw (raw : ustr) : option ustr :=
  let ver := match split_once [SLASH] raw with Some (_, v) => v | None => raw end in
  if bool_decide (ver = lit "backlog") then Some (lit "vX.Y.Z") else Some (lit "v" ++ ver).

Section bodies.
Context {UP : UlidParser}.

(** The links of a body, unparsable targets skipped. *)
Definition links_of_body (body : ustr) : list ProjectMapLink :=
  omap link_of (extract_structural_targets body).

Fixpoint collect_links (ts : list ustr) : result (list ProjectMapLink) SchemaError :=
  match ts with
  | [] => Ok []
  | t :: ts' =>
      match parse_link t with
      | Ok link => ls ?<- collect_links ts'; Ok (link :: ls)
      | Err (MissingPrefix _) => collect_links ts'
      | Err e => Err e
      end
  end.

Definition validate_card_body (body : ustr) : result unit SchemaError :=
  links ?<- collect_links (extract_structural_targets body);
  validate_links links.

Record ProjectMapRoles := mkRoles { role_kind : option ustr; role_status : option ustr }.

(** The loop of [roles_of_body]; it stops once both roles are known. *)
Fixpoint roles_loop (roles : ProjectMapRoles) (ts : list ustr) : ProjectMapRoles :=
  match ts with
  | [] => roles
  | t :: ts' =>
      let roles' :=
        match parse_link t, roles with
        | Ok (LinkKind k), mkRoles None s => mkRoles (Some (KindKind_as_wire k)) s
        | Ok (LinkStatus s), mkRoles k None => mkRoles k (Some (StatusKind_as_wire s))
        | _, _ => roles
        end in
      match roles' with
      | mkRoles (Some _) (Some _) => roles'
      | _ => roles_loop roles' ts'
      end
  end.
Definition roles_of_body (body : ustr) : ProjectMapRoles :=
  roles_loop (mkRoles None None) (extract_structural_targets body).

(** [.max()] of an iterator. *)
Definition list_max (l : list N) : option N :=
  match l with [] => None | n :: l' => Some (foldl N.max n l') end.

Definition referenced_feature (l : ProjectMapLink) : option N :=
  match l with
  | LinkFeature id | LinkSupersedes id | LinkParent id => feature_number id
  | _ => None
  end.
Definition max_feature_number (body : ustr) : option N :=
  list_max (omap referenced_feature (links_of_body body)).

Record track_facts := mkTrackFacts {
  tf_kind : option KindKind;
  tf_version : option ustr;
  tf_version_count : nat;
  tf_has_track : bool;
}.
Definition track_fact (f : track_facts) (l : ProjectMapLink) : track_facts :=
  let '(mkTrackFacts k v n t) := f in
  match l with
  | LinkKind k' => mkTrackFacts (Some k') v n t
  | LinkVersion project v' => mkTrackFacts k (Some (pair_text project v')) (S n) t
  | LinkTrack _ _ => mkTrackFacts k v n true
  | _ => f
  end.
Definition derivable_track_target (body : ustr) : option ustr :=
  let f := foldl track_fact (mkTrackFacts None None 0 false) (links_of_body body) in
  if tf_has_track f || negb (tf_version_count f =? 1) then None
  else match tf_kind f with
       | Some k => if is_structure k then None else tf_version f
       | None => None
       end.
End bodies.

(** ** Reading a validated body *)

Section reading.
Context {UP : UlidParser}.

Lemma link_of_Ok t l : parse_link t = Ok l → link_of t = Some l.
Proof. unfold link_of. by intros ->. Qed.
Lemma link_of_Err t e : parse_link t = Err e → link_of t = None.
Proof. unfold link_of. by intros ->. Qed.

Lemma collect_links_Ok ts ls :
  collect_links ts = Ok ls →
  ls = omap link_of ts ∧ (∀ t, t ∈ ts → link_of t = None → parse_link t = Err (MissingPrefix (trim t))).
Proof.
  revert ls. induction ts as [|t ts IH]; intros ls; cbn [collect_links omap list_omap].
  { intros [= <-]. split; [done|]. by intros t ?%not_elem_of_nil. }
  unfold link_of at 1. destruct (parse_link t) as [l|e] eqn:E.
  - destruct (collect_links ts) as [ls'|] eqn:Ec; [|done]. intros [= <-].
    destruct (IH ls') as [-> Hm]; [done|]. split; [done|].
    intros t' [->|Ht]%elem_of_cons; [unfold link_of; by rewrite E|by apply Hm].
  - destruct e as [raw| | | | | | | | | | | | | | | | | | | | | | | | | | | | | | |]; try done.
    intros Hc. destruct (IH ls Hc) as [-> Hm]. split; [done|].
    intros t' [->|Ht]%elem_of_cons; [intros _|by apply Hm].
    rewrite E. by apply parse_link_missing in E as [-> _].
Qed.

Lemma roles_loop_spec ts r :
  roles_loop r ts
  = mkRoles
      (match role_kind r with
       | Some k => Some k | None => KindKind_as_wire <$> head (kinds_of (omap link_of ts)) end)
      (match role_status r with
       | Some s => Some s | None => StatusKind_as_wire <$> head (statuses_of (omap link_of ts)) end).
Proof.
  revert r. induction ts as [|t ts IH]; intros r; cbn [roles_loop omap list_omap].
  { by destruct r as [[] []]. }
  destruct (parse_link t) as [l|e] eqn:E;
    [rewrite (link_of_Ok t l E); destruct l|rewrite (link_of_Err t e E)];
    destruct r as [[] []]; cbn; rewrite ?IH; done.
Qed.

Lemma roles_of_body_spec body :
  roles_of_body body
  = mkRoles (KindKind_as_wire <$> head (kinds_of (links_of_body body)))
            (StatusKind_as_wire <$> head (statuses_of (links_of_body body))).
Proof. apply roles_loop_spec. Qed.

(** C40: what the write path validated is what the readers see: once a body is accepted, the
    links every projection reads satisfy the schema, the indexed roles are the card's one
    kind and one status, the only targets skipped are bare titles, and validating the
    extracted targets again gives the same verdict. *)
Theorem validated_body_reads_back body :
  validate_card_body body = Ok tt →
  card_ok (links_of_body body)
  ∧ validate_links_from_targets (extract_structural_targets body) = Ok tt
  ∧ (∃ k s, kinds_of (links_of_body body) = [k] ∧ statuses_of (links_of_body body) = [s]
            ∧ roles_of_body body = mkRoles (Some (KindKind_as_wire k)) (Some (StatusKind_as_wire s)))
  ∧ (∀ t, t ∈ extract_structural_targets body → link_of t = None →
          parse_link t = Err (MissingPrefix (trim t))).
Proof.
  unfold validate_card_body.
  destruct (collect_links _) as [ls|] eqn:Ec; [|done]. cbn [result_bind]. intros Hv.
  apply collect_links_Ok in Ec as [-> Hm]. fold (links_of_body body) in Hv.
  assert (card_ok (links_of_body body)) as Hok by (by apply validate_links_Ok).
  split_and!; [done|exact Hv| |done].
  destruct Hok as (p & k & _ & Hs & Hk & _).
  destruct (statuses_of (links_of_body body)) as [|s [|]] eqn:Es; [done| |done].
  exists k, s. rewrite roles_of_body_spec, Hk, Es. done.
Qed.
End reading.

(** ** Witness *)

Definition work_body : ustr :=
  lit "[[project:gradatum]] [[kind:FIX]] [[status:OPEN]] [[feature:F-07]] [[version:gradatum/2.2.0]] [[Title]]".

Lemma validated_body_reads_back_witness :
  validate_card_body (UP := λ _, false) work_body = Ok tt
  ∧ card_ok (links_of_body (UP := λ _, false) work_body).
Proof.
  assert (validate_card_body (UP := λ _, false) work_body = Ok tt) as Hok
    by (vm_compute; reflexivity).
  split; [exact Hok|]. apply (validated_body_reads_back (UP := λ _, false) work_body Hok).
Defined.
