(* ===== verification/ProjectTitle.v ===== *)
(** * ProjectTitle: the canonical title of a card

    Fourth part of [crates/gradatum-core/src/project_map.rs]: the title every write derives
    from the roles of the body, keeping the human subject of the current title.  Deriving
    twice gives the same title, under the conditions the last theorem states. *)

From S2P Require Import Prelude Text ProjectLinks ProjectBody.
From Stdlib Require Import ZifyBool ZifyN.

#[local] Open Scope nat_scope.

Section titles.
Context {UP : UlidParser}.

Definition PROJECT_MAP_CATEGORY : ustr := lit "PROJECT-MAP".
Definition EM_DASH : uchar := 8212%N.
Definition EN_DASH : uchar := 8211%N.
Definition HYPHEN : uchar := 45%N.

Definition title_source (st : option ustr * option ustr * option ustr) (t : ustr)
    : option ustr * option ustr * option ustr :=
  let '(project, from_version, from_track) := st in
  match parse_link t, project, from_version, from_track with
  | Ok (LinkProject p), None, _, _ => (Some p, from_version, from_track)
  | Ok (LinkVersion _ v), _, None, _ => (project, Some v, from_track)
  | Ok (LinkTrack _ t), _, _, None => (project, from_version, Some t)
  | _, _, _, _ => st
  end.

Definition title_sources_of_body (body : ustr) : option ustr * option ustr :=
  let '(project, from_version, from_track) :=
    foldl title_source (None, None, None) (extract_structural_targets body) in
  let version := match from_track with Some t => Some t | None => from_version end in
  (project, match version with
            | Some v => if bool_decide (v = lit "backlog") then None else Some v
            | None => None
            end).

Definition is_version_suffix_candidate (tail0 : ustr) : bool :=
  let tail := trim tail0 in
  if bool_decide (tail = lit "backlog") || bool_decide (tail = lit "vX.Y.Z")
     || bool_decide (tail = lit "X.Y.Z") then true
  else match strip_prefix (lit "v") tail with
       | None => false
       | Some core =>
           negb (bool_decide (core = [])) && forallb (λ c, is_digit c || (c =? 46)%N) core
           && existsb is_digit core
       end.

(** The loop that peels the leading [\[…\]] groups; each turn removes characters. *)
Fixpoint peel_groups (fuel : nat) (s : ustr) : ustr :=
  match fuel with
  | 0 => s
  | S fuel' =>
      match strip_prefix (lit "[") (trim_start s) with
      | Some inner =>
          match split_once (lit "]") inner with
          | Some (_, rest) => peel_groups fuel' rest
          | None => s
          end
      | None => s
      end
  end.

Fixpoint peel_suffix (dashes : list uchar) (s : ustr) : ustr :=
  match dashes with
  | [] => s
  | dash :: dashes' =>
      match rsplit_once dash s with
      | Some (head, tail) =>
          if is_version_suffix_candidate tail then trim head else peel_suffix dashes' s
      | None => peel_suffix dashes' s
      end
  end.

Definition strip_prefix_and_version_suffix (title : ustr) : ustr :=
  let s := trim title in
  let s := trim (peel_groups (length s) s) in
  peel_suffix [EM_DASH; EN_DASH; HYPHEN] s.

Definition derive_canonical_title (body current_title : ustr) : ustr :=
  match title_sources_of_body body with
  | (None, _) => current_title
  | (Some project, version) =>
      let subject := strip_prefix_and_version_suffix current_title in
      let out := lit "[" ++ PROJECT_MAP_CATEGORY ++ lit "][" ++ project ++ lit "]" in
      let out := if bool_decide (subject = []) then out else out ++ lit " " ++ subject in
      match version with
      | Some v => out ++ lit " " ++ [EM_DASH] ++ lit " v" ++ v
      | None => out
      end
  end.

Lemma title_sources_fold ts st :
  foldl title_source st ts
  = let '(project, v, t) := st in
    (match project with Some p => Some p | None => head (projects_of (omap link_of ts)) end,
     match v with Some v => Some v | None => snd <$> head (versions_of (omap link_of ts)) end,
     match t with Some t => Some t | None => snd <$> head (tracks_of (omap link_of ts)) end).
Proof.
  revert st. induction ts as [|t ts IH]; intros [[p v] w]; cbn [foldl omap list_omap].
  { by destruct p, v, w. }
  rewrite IH. unfold title_source. destruct (parse_link t) as [l|e] eqn:E;
    [rewrite (link_of_Ok t l E); destruct l|rewrite (link_of_Err t e E)];
    destruct p, v, w; done.
Qed.

(** The version axis of a card: its track before its own version, the backlog excluded. *)
Definition title_version (links : list ProjectMapLink) : option ustr :=
  v ← (match head (tracks_of links) with
       | Some (_, t) => Some t
       | None => snd <$> head (versions_of links)
       end);
  if bool_decide (v = lit "backlog") then None else Some v.

Lemma title_sources_spec body :
  title_sources_of_body body
  = (head (projects_of (links_of_body body)), title_version (links_of_body body)).
Proof.
  unfold title_sources_of_body, title_version. rewrite title_sources_fold.
  fold (links_of_body body). f_equal. destruct (head (tracks_of _)) as [[a b]|]; cbn; [done|].
  by destruct (head (versions_of _)) as [[a b]|].
Qed.
End titles.

(** ** Peeling groups *)

Definition LBRACKET : uchar := 91%N.
Definition RBRACKET : uchar := 93%N.

(** No complete bracketed group in front. *)
Definition no_group (s : ustr) : Prop :=
  ∀ a inner, s = a ++ LBRACKET :: inner → Forall is_whitespace a → RBRACKET ∉ inner.

Lemma no_group_within w s post : Forall is_whitespace w → no_group (w ++ s ++ post) → no_group s.
Proof.
  intros Hw Hn a inner -> Ha Hin. apply (Hn (w ++ a) (inner ++ post)).
  - by rewrite <-!app_assoc.
  - by apply Forall_app.
  - set_solver.
Qed.

Lemma peel_groups_no_group fuel s : no_group s → peel_groups fuel s = s.
Proof.
  intros Hn. destruct fuel as [|fuel]; [done|]. cbn [peel_groups].
  destruct (strip_prefix (lit "[") (trim_start s)) as [inner|] eqn:E; [|done].
  apply strip_prefix_Some in E.
  destruct (drop_while_spec is_whitespace s) as (a & Hs & Ha & _).
  fold (trim_start s) in Hs. rewrite E in Hs.
  destruct (split_once (lit "]") inner) as [[g rest]|] eqn:Eg; [|done].
  apply split_once_sound in Eg. exfalso. apply (Hn a inner); [done|done|]. subst inner.
  cbn. set_solver.
Qed.

Lemma peel_groups_group a g rest fuel :
  Forall is_whitespace a → RBRACKET ∉ g →
  peel_groups (S fuel) (a ++ LBRACKET :: g ++ RBRACKET :: rest) = peel_groups fuel rest.
Proof.
  intros Ha Hg. cbn [peel_groups]. unfold trim_start. rewrite drop_while_app_l by done.
  rewrite drop_while_head by done. change (lit "[") with [LBRACKET].
  change (LBRACKET :: ?l) with ([LBRACKET] ++ l). rewrite strip_prefix_app.
  change (lit "]") with [RBRACKET]. by rewrite (proj2 (split_once_char RBRACKET _ g rest)).
Qed.

Lemma peel_groups_stops fuel s : length s ≤ fuel → no_group (peel_groups fuel s).
Proof.
  revert s. induction fuel as [|fuel IH]; intros s Hl; cbn [peel_groups].
  { destruct s; [|cbn in Hl; lia]. intros a inner E. by destruct a. }
  destruct (strip_prefix (lit "[") (trim_start s)) as [inner|] eqn:E.
  - apply strip_prefix_Some in E.
    destruct (drop_while_spec is_whitespace s) as (a & Hs & Ha & Hh).
    fold (trim_start s) in Hs. rewrite E in Hs.
    destruct (split_once (lit "]") inner) as [[g rest]|] eqn:Eg.
    + apply IH. apply split_once_sound in Eg. subst inner. rewrite Hs, !length_app in Hl.
      change (length (lit _)) with 1 in Hl. lia.
    + intros a' inner' Hs' Ha'. apply split_once_char_None in Eg.
      assert (inner' = inner) as ->; [|done].
      assert (trim_start s = LBRACKET :: inner') as E'.
      { rewrite Hs'. unfold trim_start. rewrite drop_while_app_l by done. done. }
      rewrite E' in E. by injection E.
  - intros a inner -> Ha. exfalso. revert E. unfold trim_start.
    rewrite drop_while_app_l, drop_while_head by done. done.
Qed.

(** The subject keeps no group, and is trimmed. *)
Lemma peel_suffix_within dashes s :
  ∃ w head post, peel_suffix dashes s = head ∧ s = w ++ head ++ post ∧ Forall is_whitespace w
    ∧ (trim s = s → trim head = head).
Proof.
  induction dashes as [|d dashes IH]; cbn [peel_suffix].
  { exists [], s, []. split_and!; try done. by rewrite app_nil_r. }
  destruct (rsplit_once d s) as [[head tail]|] eqn:E; [|done].
  destruct (is_version_suffix_candidate tail); [|done].
  apply rsplit_once_char in E as [-> _].
  destruct (trim_spec head) as (pre & post & Hh & Hw & _).
  exists pre, (trim head), (post ++ d :: tail). split_and!; [done| |done|intros; apply trim_idemp].
  rewrite Hh at 1. by rewrite <-!app_assoc.
Qed.

Lemma subject_spec title (subject := strip_prefix_and_version_suffix title) :
  no_group subject ∧ trim subject = subject.
Proof.
  unfold strip_prefix_and_version_suffix in subject.
  set (s := trim (peel_groups _ _)) in subject.
  destruct (peel_suffix_within [EM_DASH; EN_DASH; HYPHEN] s) as (w & head & post & E & Hs & Hw & Ht).
  subst subject. rewrite E. split; [|apply Ht; apply trim_idemp].
  eapply (no_group_within w); [done|]. rewrite <-Hs. subst s.
  destruct (trim_spec (peel_groups (length (trim title)) (trim title))) as (a & b & Hp & Ha & _).
  eapply (no_group_within a _ b); [done|]. rewrite <-Hp. by apply peel_groups_stops.
Qed.

(** ** Rebuilding a title *)

Definition title_head (project : ustr) : ustr :=
  LBRACKET :: lit "PROJECT-MAP" ++ RBRACKET :: LBRACKET :: project ++ [RBRACKET].
Definition title_subject (subject : ustr) : ustr :=
  if bool_decide (subject = []) then [] else 32%N :: subject.
Definition title_suffix (version : option ustr) : ustr :=
  match version with Some v => 32%N :: EM_DASH :: 32%N :: lit "v" ++ v | None => [] end.

(** A version of digits and dots, the shape the suffix parser recognises. *)
Definition numeric_version (v : ustr) : bool :=
  negb (bool_decide (v = [])) && forallb (λ c, is_digit c || (c =? 46)%N) v && existsb is_digit v.

Lemma numeric_no_char v c :
  numeric_version v = true → is_digit c || (c =? 46)%N = false → c ∉ v.
Proof.
  intros [[_ Hf]%andb_true_iff _]%andb_true_iff Hc Hin. rewrite forallb_forall in Hf.
  rewrite Hf in Hc by (by apply list_elem_of_In). done.
Qed.

Lemma numeric_char_not_whitespace v c :
  numeric_version v = true → c ∈ v → is_whitespace c = false.
Proof.
  intros Hv Hc. destruct (is_whitespace c) eqn:E; [|done]. exfalso.
  assert (is_digit c || (c =? 46)%N = true) as Hd.
  { apply not_false_iff_true. intros Hd. by eapply (numeric_no_char v c). }
  unfold is_digit, is_whitespace in *. lia.
Qed.

Lemma ident_char_not_whitespace v c : ident_ok v = true → c ∈ v → is_whitespace c = false.
Proof.
  intros Hv Hc. apply (ident_ok_char v c) in Hc; [|done].
  unfold ident_char, is_lower, is_digit, is_whitespace in *. lia.
Qed.

Lemma version_suffix_candidate v :
  numeric_version v = true → is_version_suffix_candidate (32%N :: lit "v" ++ v) = true.
Proof.
  intros Hv. unfold is_version_suffix_candidate.
  assert (trim (32%N :: lit "v" ++ v) = lit "v" ++ v) as ->.
  { change (trim (32%N :: lit "v" ++ v)) with (trim (lit "v" ++ v)). apply trim_fix.
    - by intros c t [= <- _].
    - intros t c E. destruct v as [|d v _] using rev_ind; [done|].
      rewrite app_assoc in E. apply app_inj_tail in E as [_ <-].
      eapply numeric_char_not_whitespace; [done|]. set_solver. }
  case_match; [done|]. rewrite strip_prefix_app. exact Hv.
Qed.

Lemma trim_end_last s c : is_whitespace c = false → trim_end (s ++ [c]) = s ++ [c].
Proof. apply drop_while_end_last. Qed.

Lemma title_head_snoc project :
  title_head project
  = (LBRACKET :: lit "PROJECT-MAP" ++ RBRACKET :: LBRACKET :: project) ++ [RBRACKET].
Proof. unfold title_head. cbn [app]. by rewrite <-app_assoc. Qed.

(** The last character of the rebuilt title. *)
Lemma title_ends project subject version t c :
  trim subject = subject → (∀ v, version = Some v → numeric_version v = true) →
  title_head project ++ title_subject subject ++ title_suffix version = t ++ [c] →
  is_whitespace c = false.
Proof.
  intros Hs Hv. destruct version as [v|].
  - specialize (Hv v eq_refl). destruct v as [|d v _] using rev_ind; [done|].
    unfold title_suffix. rewrite !app_comm_cons, !app_assoc. intros [_ <-]%app_inj_tail.
    eapply numeric_char_not_whitespace; [done|]. set_solver.
  - cbn [title_suffix]. rewrite app_nil_r. unfold title_subject. case_bool_decide as Hne.
    + rewrite app_nil_r, title_head_snoc. by intros [_ <-]%app_inj_tail.
    + destruct (trim_spec subject) as (_ & _ & _ & _ & _ & _ & Hl). rewrite Hs in Hl.
      destruct subject as [|d u _] using rev_ind; [done|].
      rewrite app_comm_cons, app_assoc. intros [_ <-]%app_inj_tail. by eapply Hl.
Qed.

Lemma title_rest_no_group subject version :
  no_group subject → trim subject = subject → (∀ v, version = Some v → numeric_version v = true) →
  no_group (title_subject subject ++ title_suffix version).
Proof.
  intros Hg Ht Hv a inner E Ha.
  assert (RBRACKET ∉ title_suffix version) as Hr.
  { destruct version as [v|]; cbn; [|apply not_elem_of_nil].
    pose proof (numeric_no_char v RBRACKET (Hv v eq_refl) eq_refl). set_solver. }
  apply (f_equal trim_start) in E. unfold trim_start in E.
  rewrite (drop_while_app_l _ a), (drop_while_head _ LBRACKET) in E by done.
  unfold title_subject in E. case_bool_decide as Hne.
  - destruct version as [v|]; done.
  - destruct subject as [|c u]; [done|].
    destruct (trim_spec (c :: u)) as (_ & _ & _ & _ & _ & Hh & _). rewrite Ht in Hh.
    cbn [app drop_while] in E. rewrite (Hh c u eq_refl) in E.
    injection E as -> <-. intros [Hin|Hin]%elem_of_app; [|done].
    by apply (Hg [] u).
Qed.

Lemma trim_trailing_space s : s ≠ [] → trim s = s → trim (s ++ [32%N]) = s.
Proof.
  intros Hne Ht. destruct (trim_spec s) as (_ & _ & _ & _ & _ & Hh & Hl). rewrite Ht in Hh, Hl.
  destruct s as [|c s]; [done|]. unfold trim, trim_start. cbn [app].
  rewrite drop_while_head by (by eapply Hh). rewrite app_comm_cons. unfold trim_end.
  rewrite drop_while_end_app_r by (by constructor).
  destruct (c :: s) as [|d t _] eqn:E using rev_ind; [done|]. apply drop_while_end_last.
  by eapply Hl.
Qed.

Lemma trim_title_rest subject version :
  trim subject = subject → (∀ v, version = Some v → numeric_version v = true) →
  trim (title_subject subject ++ title_suffix version)
  = if bool_decide (subject = []) then drop 1 (title_suffix version)
    else subject ++ title_suffix version.
Proof.
  intros Ht Hv. unfold title_subject. case_bool_decide as Hne.
  - destruct version as [v|]; [|done]. cbn [title_suffix app drop].
    change (trim (32%N :: ?x)) with (trim x). apply trim_fix; [by intros ? ? [= <- _]|].
    intros t c E. apply (title_ends [] [] (Some v) (title_head [] ++ 32%N :: t) c eq_refl Hv).
    change (title_subject []) with (@nil N). cbn [title_suffix app]. rewrite <-app_assoc. cbn [app].
    by rewrite <-E.
  - change ((32%N :: subject) ++ ?x) with (32%N :: (subject ++ x)).
    change (trim (32%N :: ?x)) with (trim x).
    destruct (trim_spec subject) as (_ & _ & _ & _ & _ & Hh & _). rewrite Ht in Hh.
    apply trim_fix; [destruct subject; [done|]; intros ? ? [= <- _]; by eapply Hh|].
    intros t c E. apply (title_ends [] subject version (title_head [] ++ 32%N :: t) c Ht Hv).
    unfold title_subject. rewrite bool_decide_eq_false_2 by done.
    rewrite <-!app_assoc. cbn [app]. by rewrite E.
Qed.

Lemma strip_title project subject version :
  ident_ok project = true → no_group subject → trim subject = subject →
  (∀ v, version = Some v → numeric_version v = true) →
  (version = None → peel_suffix [EM_DASH; EN_DASH; HYPHEN] subject = subject) →
  strip_prefix_and_version_suffix
    (title_head project ++ title_subject subject ++ title_suffix version) = subject.
Proof.
  intros Hp Hg Ht Hv Hn. set (rest := title_subject subject ++ title_suffix version).
  unfold strip_prefix_and_version_suffix.
  assert (trim (title_head project ++ rest) = title_head project ++ rest) as ->.
  { apply trim_fix; [by intros ? ? [= <- _]|]. intros t c. by apply title_ends. }
  assert (∀ n, peel_groups (S (S n)) (title_head project ++ rest) = rest) as Hpeel.
  { intros n.
    assert (title_head project ++ rest = [] ++ LBRACKET :: lit "PROJECT-MAP" ++ RBRACKET ::
      ([] ++ LBRACKET :: project ++ RBRACKET :: rest)) as ->.
    { unfold title_head. by repeat (cbn [app]; rewrite <-app_assoc). }
    rewrite peel_groups_group; [|done|apply (bool_decide_unpack _); vm_compute; done].
    rewrite peel_groups_group; [|done|by eapply ident_no_char].
    by apply peel_groups_no_group, title_rest_no_group. }
  rewrite length_app. replace (length (title_head project)) with (S (S (13 + length project)))
    by (unfold title_head; cbn [length app]; rewrite !length_app; cbn [length];
        rewrite length_app; change (length (lit _)) with 11; cbn [length]; lia).
  cbn [Nat.add]. rewrite Hpeel. subst rest. clear Hpeel.
  rewrite trim_title_rest by done. destruct version as [v|].
  - specialize (Hv v eq_refl). cbn [title_suffix peel_suffix].
    assert (EM_DASH ∉ 32%N :: lit "v" ++ v) as Hd.
    { pose proof (numeric_no_char v EM_DASH Hv eq_refl). set_solver. }
    case_bool_decide as Hne.
    + rewrite (proj2 (rsplit_once_char EM_DASH _ [] (32%N :: lit "v" ++ v))) by done.
      by rewrite version_suffix_candidate, Hne.
    + rewrite (proj2 (rsplit_once_char EM_DASH _ (subject ++ [32%N]) (32%N :: lit "v" ++ v))).
      * rewrite version_suffix_candidate by done. by apply trim_trailing_space.
      * split; [by rewrite <-app_assoc|done].
  - cbn [title_suffix]. case_bool_decide as Hne; [by subst|]. rewrite app_nil_r. by apply Hn.
Qed.

Section idempotence.
Context {UP : UlidParser}.

Lemma derive_canonical_title_form body title project :
  head (projects_of (links_of_body body)) = Some project →
  derive_canonical_title body title
  = title_head project ++ title_subject (strip_prefix_and_version_suffix title)
    ++ title_suffix (title_version (links_of_body body)).
Proof.
  intros Hp. unfold derive_canonical_title. rewrite title_sources_spec, Hp.
  assert (lit "[" ++ PROJECT_MAP_CATEGORY ++ lit "][" ++ project ++ lit "]" = title_head project)
    as -> by done.
  unfold title_subject. case_bool_decide; destruct (title_version _);
    cbn [title_suffix]; rewrite <-?app_assoc, ?app_nil_r; done.
Qed.

Lemma project_ident body project :
  head (projects_of (links_of_body body)) = Some project → ident_ok project = true.
Proof.
  intros Hp. assert (project ∈ projects_of (links_of_body body)) as Hin.
  { destruct (projects_of _); [done|]. injection Hp as ->. by left. }
  apply list_elem_of_omap in Hin as (l & Hl & E). destruct l; try done. injection E as ->.
  apply list_elem_of_omap in Hl as (t & _ & Ht). by apply link_of_iff in Ht as [[_ ?] _].
Qed.

(** A card on a pre-release version. *)
Definition prerelease_body : ustr :=
  lit "[[project:g]] [[status:OPEN]] [[kind:TASK]] [[track:g/2.2.0-rc1]]".

(** Deriving the title of a card again changes nothing, for any current title, when the
    card's version is made of digits and dots, or when it has none and the subject does
    not itself end in a version.  The condition is needed: a valid card that tracks a
    pre-release version gets its suffix appended once more at every write. *)
Theorem canonical_title_idempotent :
  (∀ body title (links := links_of_body body) (subject := strip_prefix_and_version_suffix title),
    (∀ v, title_version links = Some v → numeric_version v = true) →
    (title_version links = None → peel_suffix [EM_DASH; EN_DASH; HYPHEN] subject = subject) →
    derive_canonical_title body (derive_canonical_title body title)
    = derive_canonical_title body title)
  ∧ validate_card_body prerelease_body = Ok tt
  ∧ length (derive_canonical_title prerelease_body (lit "A"))
    < length (derive_canonical_title prerelease_body
                (derive_canonical_title prerelease_body (lit "A"))).
Proof.
  split_and!; [|by vm_compute|apply (bool_decide_unpack _); vm_compute; done].
  intros body title links subject Hv Hn.
  destruct (head (projects_of links)) as [project|] eqn:Hp.
  - rewrite !(derive_canonical_title_form body _ project) by done.
    destruct (subject_spec title) as [Hg Ht].
    by rewrite strip_title by (first [done|by eapply project_ident]).
  - unfold derive_canonical_title. rewrite title_sources_spec. subst links. by rewrite Hp.
Qed.
End idempotence.
