(* ===== verification/ProjectScan.v ===== *)
(** * ProjectScan: how the structural scan reacts to edits of a body

    Lemmas on the scan of [ProjectBody]: the tokens of a line as a relation, what replacing
    one token does to them, and the scan of a text as a fold over its lines that composes
    at every newline. *)

From S2P Require Import Prelude Text ProjectLinks ProjectBody.

#[local] Open Scope nat_scope.

(** ** The tokens of a line *)

Definition RB : uchar := 93%N.

(** [tokens rest toks tail]: [toks] are the links of [rest] with the text before each;
    [tail] is what the loop adds to the residue when it stops. *)
Inductive tokens : ustr → list (ustr * ustr) → ustr → Prop :=
| tokens_none rest : split_once OPENING rest = None → tokens rest [] rest
| tokens_open rest b a :
    split_once OPENING rest = Some (b, a) → split_once CLOSING a = None →
    tokens rest [] (b ++ rest)
| tokens_cons rest b a i r toks tail :
    split_once OPENING rest = Some (b, a) → split_once CLOSING a = Some (i, r) →
    tokens r toks tail → tokens rest ((b, i) :: toks) tail.

Definition token_text (t : ustr * ustr) : ustr := t.1 ++ OPENING ++ t.2 ++ CLOSING.
Lemma token_text_app b i x : token_text (b, i) ++ x = b ++ OPENING ++ i ++ CLOSING ++ x.
Proof. unfold token_text. by rewrite <-!app_assoc. Qed.

Definition tokens_residue (toks : list (ustr * ustr)) (tail : ustr) : ustr :=
  concat toks.*1 ++ tail.

Lemma token_shorter rest b a i r :
  split_once OPENING rest = Some (b, a) → split_once CLOSING a = Some (i, r) →
  rest = token_text (b, i) ++ r ∧ length r < length rest.
Proof.
  intros H1%split_once_sound H2%split_once_sound. subst.
  assert (b ++ OPENING ++ i ++ CLOSING ++ r = token_text (b, i) ++ r) as E
    by (unfold token_text; by rewrite <-!app_assoc).
  split; [done|]. rewrite E, length_app. unfold token_text. rewrite !length_app.
  change (length OPENING) with 2. lia.
Qed.

Lemma tokens_total rest : ∃ toks tail, tokens rest toks tail.
Proof.
  enough (∀ n rest, length rest < n → ∃ toks tail, tokens rest toks tail) as H by eauto.
  clear rest. induction n as [|n IH]; intros rest Hl; [lia|].
  destruct (split_once OPENING rest) as [[b a]|] eqn:E1; [|eauto using tokens_none].
  destruct (split_once CLOSING a) as [[i r]|] eqn:E2; [|eauto using tokens_open].
  destruct (token_shorter _ _ _ _ _ E1 E2) as [_ Hlt].
  destruct (IH r) as (toks & tail & Ht); [lia|]. eauto using tokens_cons.
Qed.

Lemma scan_tokens_spec fuel rest toks tail :
  tokens rest toks tail → length rest ≤ fuel →
  scan_tokens fuel rest = (trim ∘ snd <$> toks, tokens_residue toks tail).
Proof.
  intros Ht. revert fuel. induction Ht as [rest E|rest b a E1 E2|rest b a i r toks tail E1 E2 _ IH];
    intros fuel Hl.
  - destruct fuel; cbn [scan_tokens]; by rewrite ?E.
  - destruct fuel; cbn [scan_tokens]; [|by rewrite E1, E2].
    destruct rest; [done|cbn in Hl; lia].
  - destruct (token_shorter _ _ _ _ _ E1 E2) as [_ Hlt].
    destruct fuel; cbn [scan_tokens]; [lia|]. rewrite E1, E2, IH by lia.
    unfold tokens_residue. cbn. by rewrite app_assoc.
Qed.

Lemma structural_line_spec line toks tail :
  tokens line toks tail →
  structural_targets_on_line line
  = if bool_decide (toks = []) || negb (forallb is_sep (tokens_residue toks tail)) then []
    else trim ∘ snd <$> toks.
Proof.
  intros Ht. unfold structural_targets_on_line. rewrite (scan_tokens_spec _ _ _ _ Ht) by lia.
  destruct toks; [done|]. by rewrite !bool_decide_eq_false_2 by done.
Qed.

(** A line is its tokens followed by a rest without a link. *)
Lemma tokens_text line toks tail :
  tokens line toks tail → ∃ rest, line = concat (token_text <$> toks) ++ rest.
Proof.
  induction 1 as [rest E|rest b a E1 E2|rest b a i r toks tail E1 E2 _ [rest' IH]]; [by eexists..|].
  destruct (token_shorter _ _ _ _ _ E1 E2) as [-> _]. exists rest'. cbn. by rewrite IH, app_assoc.
Qed.

(** Replacing the inside of one link by a text without a closing bracket. *)
Lemma tokens_replace line toks1 b i toks2 tail :
  tokens line (toks1 ++ (b, i) :: toks2) tail →
  ∃ pre post,
    line = pre ++ OPENING ++ i ++ CLOSING ++ post
    ∧ pre = concat (token_text <$> toks1) ++ b
    ∧ ∀ i', RB ∉ i' →
      tokens (pre ++ OPENING ++ i' ++ CLOSING ++ post) (toks1 ++ (b, i') :: toks2) tail.
Proof.
  revert line. induction toks1 as [|[b1 i1] toks1 IH]; intros line Ht; cbn in Ht;
    inversion Ht as [| |? ? a ? r ? ? E1 E2 Hr]; subst;
    pose proof (split_once_sound _ _ _ _ E1) as ->; pose proof (split_once_sound _ _ _ _ E2) as ->.
  - exists b, r. split_and!; [done|done|]. intros i' Hi.
    eapply (tokens_cons _ b (i' ++ CLOSING ++ r)); [|by apply split_once_double|done].
    by eapply split_once_local.
  - destruct (IH _ Hr) as (pre & post & -> & -> & Ht').
    exists (token_text (b1, i1) ++ concat (token_text <$> toks1) ++ b), post.
    rewrite <-!app_assoc, !token_text_app.
    split_and!; [done|cbn; by rewrite <-!app_assoc|]. intros i' Hi. specialize (Ht' i' Hi).
    rewrite <-!app_assoc in Ht'. rewrite <-!app_assoc.
    eapply tokens_cons; [by eapply split_once_local| |done].
    eapply split_once_local. rewrite <-!app_assoc in E2. done.
Qed.

(** ** The scan as a fold over lines *)

Lemma split_inclusive_app s t :
  split_inclusive (s ++ NL :: t) = split_inclusive (s ++ [NL]) ++ split_inclusive t.
Proof.
  induction s as [|c s IH]; [done|]. cbn [app split_inclusive]. rewrite IH.
  destruct (is_NL c); [done|]. destruct (split_inclusive (s ++ [NL])) eqn:E; [|done].
  pose proof (split_inclusive_spec (s ++ [NL])) as [_ Hc]. rewrite E in Hc. by destruct s.
Qed.

Lemma lines_app s t : lines (s ++ NL :: t) = lines (s ++ [NL]) ++ lines t.
Proof. unfold lines. by rewrite split_inclusive_app, fmap_app. Qed.

Lemma lines_nl s : lines (NL :: s) = [] :: lines s.
Proof. done. Qed.

Lemma lines_single a : a ≠ [] → NL ∉ a → lines a = [a].
Proof.
  intros Hne Ha. unfold lines. rewrite split_inclusive_last by done. cbn.
  unfold strip_line_ending. by rewrite strip_suffix_not_in.
Qed.

(** Ending the last line changes nothing, unless it ends in a bare return. *)
Lemma lines_snoc_nl s :
  s ≠ [] → last s ≠ Some NL → last s ≠ Some CR → lines (s ++ [NL]) = lines s.
Proof.
  destruct (split_inclusive_spec s) as [HL <-].
  induction HL as [|a Hne Ha|a L Ha HL IH]; cbn [concat]; intros H0 Hn Hc; [done|..].
  - rewrite app_nil_r in *. rewrite (lines_single a) by done.
    unfold lines. rewrite (split_inclusive_line a []) by done. cbn [fmap list_fmap split_inclusive].
    unfold strip_line_ending. rewrite strip_suffix_snoc. unfold strip_suffix_or.
    destruct (strip_suffix CR a) as [t|] eqn:E; [|done].
    apply strip_suffix_Some in E as ->. by rewrite last_snoc in Hc.
  - rewrite <-!app_assoc. cbn [app]. rewrite (lines_app a (_ ++ _)), (lines_app a (concat L)). f_equal.
    destruct (concat L) as [|c r] eqn:E; [by rewrite app_nil_r, last_snoc in Hn|].
    rewrite <-!app_assoc in Hn, Hc. rewrite last_app in Hn, Hc.
    change (last ([NL] ++ c :: r)) with (last (c :: r)) in *.
    destruct (last (c :: r)) eqn:El; [|by apply last_None in El].
    by apply IH.
Qed.

Lemma lines_after_nl s : last s = Some NL → lines (s ++ [NL]) = lines s ++ [[]].
Proof.
  destruct s as [|c s _] using rev_ind; [done|]. rewrite last_snoc. intros [= ->].
  rewrite <-app_assoc. cbn [app]. by rewrite (lines_app s [NL]).
Qed.

(** The targets and the fence state, without the fenced roles. *)
Fixpoint zone (in_fence : bool) (ls : list ustr) : list ustr :=
  match ls with
  | [] => []
  | l :: ls' =>
      if is_fence_line l then zone (negb in_fence) ls'
      else (if in_fence then [] else structural_targets_on_line l) ++ zone in_fence ls'
  end.
Fixpoint fence_after (in_fence : bool) (ls : list ustr) : bool :=
  match ls with
  | [] => in_fence
  | l :: ls' => fence_after (if is_fence_line l then negb in_fence else in_fence) ls'
  end.

Lemma scan_lines_spec T F f ls :
  ∃ F', foldl scan_line (T, F, f) ls = (T ++ zone f ls, F', fence_after f ls).
Proof.
  revert T F f. induction ls as [|l ls IH]; intros T F f; cbn [foldl zone fence_after scan_line].
  { exists F. by rewrite app_nil_r. }
  destruct (is_fence_line l); [apply IH|].
  destruct f; [apply IH|]. rewrite app_assoc. apply IH.
Qed.

Lemma extract_zone body : extract_structural_targets body = zone false (lines body).
Proof.
  unfold extract_structural_targets, scan_structural_targets.
  destruct (scan_lines_spec [] [] false (lines body)) as [F ->]. done.
Qed.

Lemma unterminated_fence_after body :
  has_unterminated_code_fence body = fence_after false (lines body).
Proof.
  unfold has_unterminated_code_fence, scan_structural_targets.
  destruct (scan_lines_spec [] [] false (lines body)) as [F ->]. done.
Qed.

Lemma zone_app f l1 l2 : zone f (l1 ++ l2) = zone f l1 ++ zone (fence_after f l1) l2.
Proof.
  revert f. induction l1 as [|l l1 IH]; intros f; cbn [app zone fence_after]; [done|].
  rewrite !IH. destruct (is_fence_line l); [done|]. by rewrite app_assoc.
Qed.

Lemma fence_after_app f l1 l2 : fence_after f (l1 ++ l2) = fence_after (fence_after f l1) l2.
Proof. revert f. induction l1 as [|l l1 IH]; intros f; cbn; [done|]. apply IH. Qed.

(** Lines that hold no link and are no fence change nothing. *)
Lemma zone_inert f ls :
  Forall (λ l, is_fence_line l = false ∧ structural_targets_on_line l = []) ls →
  zone f ls = [] ∧ fence_after f ls = f.
Proof.
  induction 1 as [|l ls [Hf Hs] _ IH]; cbn [zone fence_after]; [done|].
  rewrite Hf, Hs. destruct f; apply IH.
Qed.

Lemma no_opening_no_targets l : str_contains OPENING l = false → structural_targets_on_line l = [].
Proof.
  intros Hc. assert (split_once OPENING l = None) as E.
  { unfold str_contains in Hc. by destruct (split_once OPENING l). }
  by rewrite (structural_line_spec l [] l (tokens_none l E)).
Qed.

Lemma zone_newline f s :
  last s ≠ Some CR →
  zone f (lines (s ++ [NL])) = zone f (lines s)
  ∧ fence_after f (lines (s ++ [NL])) = fence_after f (lines s).
Proof.
  intros Hc. destruct (decide (last s = Some NL)) as [Hn|Hn].
  - rewrite lines_after_nl, zone_app, fence_after_app by done. cbn. rewrite app_nil_r.
    by destruct (fence_after f (lines s)); rewrite ?app_nil_r.
  - destruct s as [|c s]; [by destruct f|]. by rewrite lines_snoc_nl.
Qed.

(** ** A role line appended to a body *)

(** [format!("{body}\n\n[[{target}]]")], as the server injects a role. *)
Definition inject_role (body target : ustr) : ustr :=
  body ++ [NL; NL] ++ OPENING ++ target ++ CLOSING.

Lemma role_line_targets target :
  RB ∉ target → structural_targets_on_line (OPENING ++ target ++ CLOSING) = [trim target].
Proof.
  intros Hr. rewrite (structural_line_spec _ [([], target)] []); [done|].
  eapply (tokens_cons _ [] (target ++ CLOSING) target []);
    [done|by apply (split_once_double RB target [])|by apply tokens_none].
Qed.

Lemma inject_role_targets body target :
  RB ∉ target → NL ∉ target →
  extract_structural_targets (inject_role body target)
  = zone false (lines (body ++ [NL]))
    ++ (if has_unterminated_code_fence (body ++ [NL]) then [] else [trim target]).
Proof.
  intros Hr Hn. rewrite extract_zone, unterminated_fence_after. unfold inject_role.
  change (body ++ [NL; NL] ++ ?x) with (body ++ NL :: NL :: x). rewrite lines_app, zone_app.
  f_equal. rewrite lines_nl, (lines_single (OPENING ++ _)); [|done|].
  - cbn [zone]. change (is_fence_line []) with false.
    change (is_fence_line (OPENING ++ target ++ CLOSING)) with false. rewrite role_line_targets by done.
    by destruct (fence_after _ _).
  - change OPENING with [91%N; 91%N]. change CLOSING with [93%N; 93%N]. set_solver.
Qed.
