(* ===== verification/ProjectEdit.v ===== *)
(** * ProjectEdit: editing one role of a card

    Fifth part of [crates/gradatum-core/src/project_map.rs]: the targeted mutation of a
    typed role.  Byte offsets are those of
    the code; a slice outside a character boundary would panic, which is [None] here, and
    is proved never to happen. *)

From S2P Require Import Prelude Text ProjectLinks ProjectBody ProjectScan.

#[local] Open Scope nat_scope.

(** ** Mutable roles *)

Inductive MutableRole := MutStatus | MutKind | MutRelease | MutVersion | MutTrack.

Definition wire_prefix (r : MutableRole) : ustr :=
  lit match r with
      | MutStatus => "status"
      | MutKind => "kind"
      | MutRelease => "release"
      | MutVersion => "version"
      | MutTrack => "track"
      end.

Inductive RoleMutationError :=
| UnknownRoleType (role_type : ustr)
| ImmutableIdentity (role_type : ustr)
| RoleAbsent (prefix : ustr)
| Ambiguous (prefix : ustr)
| InvalidNewValue (prefix value : ustr)
| HistoryLineInvalid.

Definition MutableRole_from_wire (role_type : ustr) : result MutableRole RoleMutationError :=
  match match_str [("status", Ok MutStatus); ("kind", Ok MutKind); ("release", Ok MutRelease);
                   ("version", Ok MutVersion); ("track", Ok MutTrack);
                   ("feature", Err (ImmutableIdentity role_type));
                   ("project", Err (ImmutableIdentity role_type))] role_type with
  | Some r => r
  | None => Err (UnknownRoleType role_type)
  end.

Definition matches_variant (r : MutableRole) (l : ProjectMapLink) : bool :=
  match r, l with
  | MutStatus, LinkStatus _ | MutKind, LinkKind _ | MutRelease, LinkRelease _
  | MutVersion, LinkVersion _ _ | MutTrack, LinkTrack _ _ => true
  | _, _ => false
  end.

(** ** Locating a role *)

Record RoleValueSpan := mkSpan { value_start : nat; value_end : nat }.

Definition strip_eol (line_with_nl : ustr) : ustr :=
  strip_suffix_or CR (strip_suffix_or NL line_with_nl).

(** The state of the walk over the tokens of one line. *)
Record walk := mkWalk {
  residue : ustr;
  candidate : option RoleValueSpan;
  line_matches : nat;
  has_token : bool;
}.

(** The [while let Some(open) = rest.find("[[")] loop; [cursor] is the offset of [rest]. *)
Fixpoint walk_tokens (fuel : nat) (prefix rest : ustr) (cursor : nat) (w : walk) : walk :=
  match fuel with
  | 0 => mkWalk (residue w ++ rest) (candidate w) (line_matches w) (has_token w)
  | S fuel' =>
      match split_once OPENING rest with
      | None => mkWalk (residue w ++ rest) (candidate w) (line_matches w) (has_token w)
      | Some (before, after_open) =>
          let residue' := residue w ++ before in
          let token_abs := cursor + str_len before in
          match split_once CLOSING after_open with
          | Some (inner, rest') =>
              let '(p, _) := split_prefix (trim inner) in
              let w' :=
                if bool_decide (p = prefix) then
                  mkWalk residue'
                    (match split_once [COLON] inner with
                     | Some (key, _) =>
                         let inner_abs := token_abs + 2 in
                         Some (mkSpan (inner_abs + str_len key + 1) (inner_abs + str_len inner))
                     | None => candidate w
                     end) (S (line_matches w)) true
                else mkWalk residue' (candidate w) (line_matches w) true in
              let consumed := str_len before + 2 + str_len inner + 2 in
              walk_tokens fuel' prefix rest' (cursor + consumed) w'
          | None => mkWalk (residue' ++ rest) (candidate w) (line_matches w) (has_token w)
          end
      end
  end.

(** The loop over the lines. *)
Fixpoint locate_loop (prefix : ustr) (raw_lines : list ustr) (line_start : nat)
    (in_fence : bool) (found : option RoleValueSpan)
    : result (option RoleValueSpan) RoleMutationError :=
  match raw_lines with
  | [] => Ok found
  | raw_line :: rest =>
      let content := strip_eol raw_line in
      let next := line_start + str_len raw_line in
      if is_fence_line content then locate_loop prefix rest next (negb in_fence) found
      else if in_fence then locate_loop prefix rest next in_fence found
      else
        let w := walk_tokens (length content) prefix content line_start (mkWalk [] None 0 false) in
        let structural := has_token w && forallb is_sep (residue w) in
        match structural, candidate w with
        | true, Some span =>
            if bool_decide (found ≠ None) || (1 <? line_matches w) then Err (Ambiguous prefix)
            else locate_loop prefix rest next in_fence (Some span)
        | _, _ => locate_loop prefix rest next in_fence found
        end
  end.

Definition locate_structural_role (body prefix : ustr) : result RoleValueSpan RoleMutationError :=
  match locate_loop prefix (split_inclusive body) 0 false None with
  | Ok (Some span) => Ok span
  | Ok None => Err (RoleAbsent prefix)
  | Err e => Err e
  end.

(** ** Mutating a role *)

Section mutation.
Context {UP : UlidParser}.

Definition mutate_typed_role (body : ustr) (role : MutableRole) (new_value : ustr)
    : option (result ustr RoleMutationError) :=
  let prefix := wire_prefix role in
  let invalid := Some (Err (InvalidNewValue prefix new_value)) in
  match parse_link (role_text prefix new_value) with
  | Ok link =>
      if matches_variant role link then
        match locate_structural_role body prefix with
        | Ok span =>
            '(before, _) ← split_at_byte (value_start span) body;
            '(_, after) ← split_at_byte (value_end span) body;
            Some (Ok (before ++ new_value ++ after))
        | Err e => Some (Err e)
        end
      else invalid
  | Err _ => invalid
  end.
End mutation.

(** ** The walk over one line *)

Definition token_matches (prefix inner : ustr) : bool :=
  bool_decide ((split_prefix (trim inner)).1 = prefix).
Definition match_count (prefix : ustr) (toks : list (ustr * ustr)) : nat :=
  length (filter (λ t, token_matches prefix t.2 = true) toks).

Fixpoint last_candidate (prefix : ustr) (cursor : nat) (c : option RoleValueSpan)
    (toks : list (ustr * ustr)) : option RoleValueSpan :=
  match toks with
  | [] => c
  | (b, i) :: toks' =>
      let inner_abs := cursor + str_len b + 2 in
      let c' := if token_matches prefix i then
                  match split_once [COLON] i with
                  | Some (key, _) =>
                      Some (mkSpan (inner_abs + str_len key + 1) (inner_abs + str_len i))
                  | None => c
                  end
                else c in
      last_candidate prefix (cursor + (str_len b + 2 + str_len i + 2)) c' toks'
  end.

Lemma walk_tokens_spec prefix rest toks tail :
  tokens rest toks tail → ∀ fuel cursor w, length rest ≤ fuel →
  walk_tokens fuel prefix rest cursor w
  = mkWalk (residue w ++ tokens_residue toks tail)
      (last_candidate prefix cursor (candidate w) toks)
      (line_matches w + match_count prefix toks)
      (has_token w || negb (bool_decide (toks = []))).
Proof.
  unfold match_count.
  induction 1 as [rest E|rest b a E1 E2|rest b a i r toks tail E1 E2 _ IH]; intros fuel cursor w Hl.
  - destruct fuel; cbn [walk_tokens]; rewrite ?E; cbn; by rewrite Nat.add_0_r, orb_false_r.
  - destruct fuel; [destruct rest; [done|cbn in Hl; lia]|]. cbn [walk_tokens].
    rewrite E1, E2. cbn. by rewrite Nat.add_0_r, orb_false_r, <-app_assoc.
  - destruct (token_shorter _ _ _ _ _ E1 E2) as [_ Hlt].
    destruct fuel; [lia|]. cbn [walk_tokens last_candidate]. rewrite E1, E2.
    rewrite (bool_decide_eq_false_2 (_ :: _ = [])) by done.
    assert (∀ p v, split_prefix (trim i) = (p, v) → token_matches prefix i = bool_decide (p = prefix))
      as Hm by (unfold token_matches; by intros ? ? ->).
    destruct (split_prefix (trim i)) as [p v] eqn:Ep. specialize (Hm p v eq_refl).
    rewrite Hm, IH by lia. rewrite orb_true_r. unfold tokens_residue.
    destruct (bool_decide_reflect (p = prefix)) as [Hp|Hp];
      cbn [residue candidate line_matches has_token orb];
      [rewrite filter_cons_True by done|rewrite filter_cons_False by (cbn; by rewrite Hm)];
      cbn; rewrite <-!app_assoc, ?Nat.add_succ_r; f_equal; f_equal; lia.
Qed.

Lemma match_count_0 prefix toks :
  match_count prefix toks = 0 → ∀ t, t ∈ toks → token_matches prefix t.2 = false.
Proof.
  intros Hc t Ht. apply length_zero_iff_nil in Hc. apply not_true_is_false. intros Hm.
  assert (t ∈ filter (λ t, token_matches prefix t.2 = true) toks) as Hin
    by (by apply list_elem_of_filter). rewrite Hc in Hin. by apply not_elem_of_nil in Hin.
Qed.

Lemma last_candidate_unmatched prefix cursor c toks :
  match_count prefix toks = 0 → last_candidate prefix cursor c toks = c.
Proof.
  revert cursor c. induction toks as [|[b i] toks IH]; intros cursor c Hc; [done|].
  cbn [last_candidate]. pose proof (match_count_0 _ _ Hc (b, i)) as Hm. cbn in Hm.
  rewrite Hm by (by left). apply IH. unfold match_count in *.
  by rewrite filter_cons_False in Hc by (cbn; rewrite Hm; [done|by left]).
Qed.

(** The only matching token, and the place of its value. *)
Lemma last_candidate_found prefix cursor toks span :
  match_count prefix toks = 1 → last_candidate prefix cursor None toks = Some span →
  ∃ toks1 b key val toks2,
    toks = toks1 ++ (b, key ++ COLON :: val) :: toks2 ∧ COLON ∉ key
    ∧ token_matches prefix (key ++ COLON :: val) = true
    ∧ (∀ t, t ∈ toks1 ++ toks2 → token_matches prefix t.2 = false)
    ∧ value_start span
      = cursor + str_len (concat (token_text <$> toks1) ++ b ++ OPENING ++ key ++ [COLON])
    ∧ value_end span = value_start span + str_len val.
Proof.
  revert cursor. induction toks as [|[b i] toks IH]; intros cursor Hc; [done|].
  cbn [last_candidate]. unfold match_count in Hc. destruct (token_matches prefix i) eqn:Hm.
  - rewrite filter_cons_True in Hc by done. cbn in Hc. injection Hc as Hc.
    fold (match_count prefix toks) in Hc. rewrite last_candidate_unmatched by done.
    destruct (split_once [COLON] i) as [[key val]|] eqn:Es; [|done]. intros [= <-].
    apply split_once_char in Es as [-> Hk].
    exists [], b, key, val, toks. split_and!; try done; [by apply match_count_0|..].
    + cbn. rewrite !str_len_app. change (str_len OPENING) with 2. change (str_len [COLON]) with 1. lia.
    + cbn. rewrite str_len_app, str_len_cons. change (len_utf8 COLON) with 1. lia.
  - rewrite filter_cons_False in Hc by (cbn; by rewrite Hm). intros Hs.
    destruct (IH _ Hc Hs) as (toks1 & b' & key & val & toks2 & -> & Hk & Hm' & Hu & Hst & He).
    exists ((b, i) :: toks1), b', key, val, toks2. split_and!; try done.
    + intros t [->|Ht]%elem_of_cons; [done|by apply Hu].
    + rewrite Hst. cbn. rewrite !str_len_app. unfold token_text. cbn [fst snd].
      change (str_len OPENING) with 2. change (str_len CLOSING) with 2. lia.
Qed.

Lemma last_candidate_None prefix cursor c toks :
  last_candidate prefix cursor c toks = None →
  c = None ∧ ∀ b i, (b, i) ∈ toks → token_matches prefix i = true → COLON ∉ i.
Proof.
  revert cursor c. induction toks as [|[b i] toks IH]; intros cursor c; cbn [last_candidate].
  { intros ->. split; [done|]. by intros ? ? ?%not_elem_of_nil. }
  intros [Hc Ht]%IH. destruct (token_matches prefix i) eqn:Hm.
  - destruct (split_once [COLON] i) as [[]|] eqn:Es; [done|]. split; [done|].
    intros b' i' [[= -> ->]|Hin]%elem_of_cons Hm'; [by apply split_once_char_None|by eapply Ht].
  - split; [done|]. intros b' i' [[= -> ->]|Hin]%elem_of_cons Hm'; [congruence|by eapply Ht].
Qed.

(** ** The walk over the lines *)

(** A target that names the role and has a value, be it empty. *)
Definition role_named (prefix t : ustr) : bool :=
  bool_decide ((split_prefix t).1 = prefix) && bool_decide (COLON ∈ t).
Definition quiet (prefix : ustr) (ts : list ustr) : Prop :=
  ∀ t, t ∈ ts → role_named prefix t = false.

Lemma colon_trim s : COLON ∈ trim s ↔ COLON ∈ s.
Proof.
  destruct (trim_spec s) as (pre & post & Hs & Hpre & Hpost & _).
  assert (∀ l, Forall is_whitespace l → COLON ∉ l) as Hw.
  { intros l Hl Hin. rewrite Forall_forall in Hl. by specialize (Hl _ Hin). }
  rewrite Hs at 2. rewrite !elem_of_app. pose proof (Hw pre Hpre). pose proof (Hw post Hpost).
  naive_solver.
Qed.

Lemma role_named_token prefix i :
  role_named prefix (trim i) = token_matches prefix i && bool_decide (COLON ∈ i).
Proof.
  unfold role_named, token_matches. f_equal. apply bool_decide_ext, colon_trim.
Qed.

Lemma quiet_app prefix a b : quiet prefix (a ++ b) ↔ quiet prefix a ∧ quiet prefix b.
Proof. unfold quiet. setoid_rewrite elem_of_app. naive_solver. Qed.

Lemma quiet_tokens prefix (toks : list (ustr * ustr)) :
  (∀ b i, (b, i) ∈ toks → token_matches prefix i = true → COLON ∉ i) →
  quiet prefix (trim ∘ snd <$> toks).
Proof.
  intros Ht t ([b i] & -> & Hin)%list_elem_of_fmap.
  change (role_named prefix (trim i) = false). rewrite role_named_token.
  destruct (token_matches prefix i) eqn:E; [|done]. cbn. apply bool_decide_eq_false. by eapply Ht.
Qed.

(** Where the single occurrence of the role was found. *)
Record occurrence (prefix : ustr) (f : bool) (raws : list ustr) (start : nat)
    (span : RoleValueSpan) (L1 L2 : list ustr) (raw : ustr) (toks1 toks2 : list (ustr * ustr))
    (b key val tail : ustr) : Prop := mkOccurrence {
  occ_lines : raws = L1 ++ raw :: L2;
  occ_outside : fence_after f (strip_eol <$> L1) = false;
  occ_not_fence : is_fence_line (strip_eol raw) = false;
  occ_tokens : tokens (strip_eol raw) (toks1 ++ (b, key ++ COLON :: val) :: toks2) tail;
  occ_seps : forallb is_sep
    (tokens_residue (toks1 ++ (b, key ++ COLON :: val) :: toks2) tail) = true;
  occ_key : COLON ∉ key;
  occ_named : token_matches prefix (key ++ COLON :: val) = true;
  occ_others : ∀ t, t ∈ toks1 ++ toks2 → token_matches prefix t.2 = false;
  occ_before : quiet prefix (zone f (strip_eol <$> L1));
  occ_after : quiet prefix (zone false (strip_eol <$> L2));
  occ_start : value_start span = start + str_len (concat L1)
    + str_len (concat (token_text <$> toks1) ++ b ++ OPENING ++ key ++ [COLON]);
  occ_end : value_end span = value_start span + str_len val;
}.

Definition found_somewhere prefix f raws start span : Prop :=
  ∃ L1 L2 raw toks1 toks2 b key val tail,
    occurrence prefix f raws start span L1 L2 raw toks1 toks2 b key val tail.

Lemma found_later prefix f f' raw raws start span :
  f' = fence_after f [strip_eol raw] → quiet prefix (zone f [strip_eol raw]) →
  found_somewhere prefix f' raws (start + str_len raw) span →
  found_somewhere prefix f (raw :: raws) start span.
Proof.
  intros -> Hq (L1 & L2 & raw' & toks1 & toks2 & b & key & val & tail & []).
  exists (raw :: L1), L2, raw', toks1, toks2, b, key, val, tail. constructor; try done.
  - by rewrite occ_lines0.
  - change (strip_eol raw :: (strip_eol <$> L1)) with ([strip_eol raw] ++ (strip_eol <$> L1)).
    rewrite fmap_cons. change (?x :: ?y) with ([x] ++ y). rewrite zone_app, quiet_app. done.
  - rewrite occ_start0. cbn [concat]. rewrite (str_len_app raw). lia.
Qed.

Lemma locate_loop_spec prefix raws start f found r :
  locate_loop prefix raws start f found = Ok r →
  (r = found ∧ quiet prefix (zone f (strip_eol <$> raws)))
  ∨ (found = None ∧ ∃ span, r = Some span ∧ found_somewhere prefix f raws start span).
Proof.
  revert start f found. induction raws as [|raw raws IH]; intros start f found;
    cbn [locate_loop fmap list_fmap].
  { intros [= <-]. left. split; [done|]. by intros t ?%not_elem_of_nil. }
  set (content := strip_eol raw).
  assert (∀ f', f' = fence_after f [content] → quiet prefix (zone f [content]) →
    locate_loop prefix raws (start + str_len raw) f' found = Ok r →
    r = found ∧ quiet prefix (zone f (content :: (strip_eol <$> raws)))
    ∨ found = None ∧ ∃ span, r = Some span ∧ found_somewhere prefix f (raw :: raws) start span) as Hskip.
  { intros f' Hf' Hq Hl. change (content :: (strip_eol <$> raws)) with ([content] ++ (strip_eol <$> raws)).
    rewrite zone_app, quiet_app, <-Hf'.
    destruct (IH _ _ _ Hl) as [[-> ?]|[-> (span & -> & Hs)]]; [by left|right; split; [done|]].
    exists span. split; [done|]. by eapply found_later. }
  destruct (is_fence_line content) eqn:Ef.
  { apply Hskip; cbn; rewrite Ef; [done|]. by intros t ?%not_elem_of_nil. }
  destruct f.
  { apply Hskip; cbn; rewrite Ef; [done|]. by intros t ?%not_elem_of_nil. }
  destruct (tokens_total content) as (toks & tail & Ht).
  rewrite (walk_tokens_spec prefix content toks tail Ht) by lia.
  cbn [residue candidate line_matches has_token app Nat.add orb].
  assert (zone false [content] = structural_targets_on_line content) as Hz
    by (cbn; by rewrite Ef, app_nil_r).
  rewrite (structural_line_spec content toks tail Ht) in Hz.
  assert (fence_after false [content] = false) as Hfa by (cbn; by rewrite Ef).
  destruct (negb (bool_decide (toks = [])) && forallb is_sep (tokens_residue toks tail)) eqn:Es.
  - apply andb_true_iff in Es as [Hne%negb_true_iff Hsep].
    rewrite Hne, Hsep in Hz. cbn [negb orb] in Hz.
    destruct (last_candidate prefix start None toks) as [span|] eqn:Ec.
    + destruct (bool_decide_reflect (found ≠ None)) as [Hf|Hf]; [done|]. cbn [orb].
      apply dec_stable in Hf as ->.
      destruct (Nat.ltb_spec 1 (match_count prefix toks)) as [|Hle]; [done|]. intros Hl.
      assert (match_count prefix toks = 1) as H1.
      { destruct (match_count prefix toks) as [|[|]] eqn:E0; [|done|lia].
        by rewrite last_candidate_unmatched in Ec. }
      destruct (last_candidate_found _ _ _ _ H1 Ec)
        as (toks1 & b & key & val & toks2 & -> & Hk & Hm & Hu & Hst & He).
      destruct (IH _ _ _ Hl) as [[-> Hq]|[? _]]; [|done].
      right. split; [done|]. exists span. split; [done|].
      exists [], raws, raw, toks1, toks2, b, key, val, tail.
      constructor; try done; [by intros t ?%not_elem_of_nil|]. cbn [concat]. rewrite Hst.
      change (str_len []) with 0. lia.
    + apply Hskip; [done|]. rewrite Hz. apply quiet_tokens.
      by apply last_candidate_None in Ec as [_ ?].
  - assert (zone false [content] = []) as Hz'.
    { rewrite Hz. destruct (bool_decide (toks = [])); [done|]. cbn in Es. by rewrite Es. }
    apply Hskip; [done|]. rewrite Hz'. by intros t ?%not_elem_of_nil.
Qed.

(** ** The edited body *)

Lemma trim_role key v : trim (key ++ COLON :: v) = trim_start key ++ COLON :: trim_end v.
Proof.
  unfold trim, trim_start. rewrite drop_while_app_stop by done. unfold trim_end.
  by rewrite drop_while_end_app_stop.
Qed.

Lemma token_matches_key prefix key v :
  COLON ∉ key → token_matches prefix (key ++ COLON :: v) = true → trim_start key = prefix.
Proof.
  intros Hk Hm%bool_decide_eq_true. rewrite trim_role in Hm.
  change (trim_start key ++ COLON :: trim_end v) with (role_text (trim_start key) (trim_end v)) in Hm.
  rewrite split_prefix_role in Hm; [done|]. intros Hin. apply Hk.
  destruct (drop_while_spec is_whitespace key) as (pre & -> & _). apply elem_of_app. by right.
Qed.

(** The end of a line is decided by its end. *)
Lemma strip_eol_app x u : strip_eol (x ++ RB :: u) = x ++ strip_eol (RB :: u).
Proof.
  unfold strip_eol. rewrite !(strip_suffix_or_app NL) by done. rewrite strip_suffix_or_app; [done|].
  unfold strip_suffix_or. destruct (strip_suffix NL (RB :: u)) as [t|] eqn:E; [|done].
  apply strip_suffix_Some in E. by destruct t.
Qed.

Lemma strip_line_ending_app x u :
  strip_line_ending (x ++ RB :: u) = x ++ strip_line_ending (RB :: u).
Proof.
  unfold strip_line_ending. rewrite strip_suffix_app by done.
  destruct (strip_suffix NL (RB :: u)) as [t|] eqn:E; [|done]. cbn.
  apply strip_suffix_Some in E. apply strip_suffix_or_app. by destruct t.
Qed.

(** Both ways of cutting a line agree, but on a last line that ends in a bare return. *)
Lemma line_endings_agree body :
  last body ≠ Some CR →
  strip_eol <$> split_inclusive body = strip_line_ending <$> split_inclusive body.
Proof.
  destruct (split_inclusive_spec body) as [HL Hc]. rewrite <-Hc at 1. clear Hc.
  induction HL as [|a Hne Ha|a L Ha HL IH]; intros Hlast; [done|..]; cbn.
  - f_equal. unfold strip_eol, strip_line_ending, strip_suffix_or.
    rewrite (strip_suffix_not_in NL) by done. cbn.
    destruct (strip_suffix CR a) as [t|] eqn:E; [|done]. apply strip_suffix_Some in E as ->.
    exfalso. apply Hlast. cbn. by rewrite app_nil_r, last_snoc.
  - f_equal.
    + unfold strip_eol, strip_line_ending, strip_suffix_or at 2. by rewrite strip_suffix_snoc.
    + destruct HL as [|b Hb|b L Hb]; [done|..]; apply IH; intros E; apply Hlast; cbn in E |- *;
        rewrite last_app, E; done.
Qed.

(** Whether a line is a fence is decided before its first link. *)
Lemma fence_local pre y y' :
  is_fence_line (pre ++ OPENING ++ y) = is_fence_line (pre ++ OPENING ++ y').
Proof.
  unfold is_fence_line, trim_start. change (OPENING ++ ?z) with (91%N :: 91%N :: z).
  rewrite !drop_while_app_stop by done. generalize (drop_while is_whitespace pre) as u. intros u.
  unfold str_starts_with.
  change (u ++ 91%N :: 91%N :: ?z) with (u ++ [91%N; 91%N] ++ z). rewrite !app_assoc.
  destruct u as [|c u]; [done|].
  rewrite (strip_prefix_local FENCE _ y), (strip_prefix_local FENCE _ y')
    by (change (length FENCE) with 3; rewrite length_app; cbn; lia).
  by destruct (strip_prefix FENCE _).
Qed.

Lemma strip_eol_prefix raw : ∃ eol, raw = strip_eol raw ++ eol.
Proof.
  assert (∀ c s, ∃ e, s = strip_suffix_or c s ++ e) as Hs.
  { intros c s. unfold strip_suffix_or. destruct (strip_suffix c s) as [t|] eqn:E; cbn.
    - apply strip_suffix_Some in E. eauto.
    - exists []. by rewrite app_nil_r. }
  unfold strip_eol. destruct (Hs NL raw) as [e1 H1]. destruct (Hs CR (strip_suffix_or NL raw)) as [e2 H2].
  exists (e2 ++ e1). by rewrite app_assoc, <-H2.
Qed.

Lemma key_no_bracket prefix key v :
  COLON ∉ key → token_matches prefix (key ++ COLON :: v) = true → RB ∉ prefix → RB ∉ key.
Proof.
  intros Hk Hm Hp. apply token_matches_key in Hm; [|done].
  destruct (drop_while_spec is_whitespace key) as (pre & Hs & Hw & _).
  fold (trim_start key) in Hs. rewrite Hm in Hs. subst key. intros [Hin|Hin]%elem_of_app; [|done].
  rewrite Forall_forall in Hw. by specialize (Hw _ Hin).
Qed.

Section edited.
Context (prefix body : ustr) (span : RoleValueSpan) (L1 L2 : list ustr) (raw : ustr)
  (toks1 toks2 : list (ustr * ustr)) (b key val tail : ustr)
  (Hprefix : RB ∉ prefix)
  (Hocc : occurrence prefix false (split_inclusive body) 0 span L1 L2 raw toks1 toks2 b key val tail).

Definition line_head : ustr := concat (token_text <$> toks1) ++ b ++ OPENING ++ key ++ [COLON].

(** The targets of the body, with a given value in the place of the one found. *)
Definition targets_with (v : ustr) : list ustr :=
  zone false (strip_eol <$> L1)
  ++ (trim ∘ snd <$> toks1) ++ role_text prefix (trim_end v) :: (trim ∘ snd <$> toks2)
  ++ zone false (strip_eol <$> L2).

(** The line of the role, with any value in its place. *)
Lemma edited_line :
  ∃ u, raw = line_head ++ val ++ RB :: u
    ∧ ∀ new (raw' := line_head ++ new ++ RB :: u), RB ∉ new →
       tokens (strip_eol raw') (toks1 ++ (b, key ++ COLON :: new) :: toks2) tail
       ∧ is_fence_line (strip_eol raw') = false
       ∧ (strip_eol raw = strip_line_ending raw → strip_eol raw' = strip_line_ending raw').
Proof.
  destruct Hocc as [_ _ Hnf Ht _ Hk Hm _ _ _ _ _].
  destruct (strip_eol_prefix raw) as [eol Hraw].
  destruct (tokens_replace _ _ _ _ _ _ Ht) as (pre & post & Hc & Hpre & Ht').
  assert (∀ v z, line_head ++ v ++ z = pre ++ OPENING ++ (key ++ COLON :: v) ++ z) as Hhead.
  { intros v z. unfold line_head. subst pre. by rewrite <-!app_assoc. }
  exists (RB :: post ++ eol).
  assert (raw = line_head ++ val ++ RB :: RB :: post ++ eol) as Hr.
  { rewrite Hhead, Hraw, Hc at 1. by rewrite <-!app_assoc. }
  split; [done|]. intros new raw' Hn.
  assert (∀ x, strip_eol (x ++ RB :: RB :: post ++ eol) = x ++ RB :: RB :: post) as He.
  { intros x. rewrite strip_eol_app. f_equal. apply (app_inv_head (line_head ++ val)).
    rewrite <-strip_eol_app, <-!app_assoc, <-Hr, Hc, Hhead. done. }
  assert (strip_eol raw' = pre ++ OPENING ++ (key ++ COLON :: new) ++ CLOSING ++ post) as Hraw'.
  { subst raw'. rewrite app_assoc, He, <-app_assoc, Hhead. done. }
  split_and!.
  - rewrite Hraw'. apply Ht'. pose proof (key_no_bracket _ _ _ Hk Hm Hprefix).
    by rewrite not_elem_of_app, not_elem_of_cons.
  - rewrite Hraw', (fence_local pre _ ((key ++ COLON :: val) ++ CLOSING ++ post)), <-Hc. done.
  - subst raw'. rewrite Hr, !app_assoc, !strip_eol_app, !strip_line_ending_app.
    by intros ->%app_inv_head.
Qed.

Lemma zone_edited raw' v :
  tokens (strip_eol raw') (toks1 ++ (b, key ++ COLON :: v) :: toks2) tail →
  is_fence_line (strip_eol raw') = false →
  zone false (strip_eol <$> (L1 ++ raw' :: L2)) = targets_with v.
Proof.
  intros Ht Hf. destruct Hocc as [_ Hout _ _ Hsep Hk Hm _ _ _ _ _].
  rewrite fmap_app, fmap_cons, zone_app, Hout. cbn [zone]. rewrite Hf.
  rewrite (structural_line_spec _ _ _ Ht). rewrite bool_decide_eq_false_2 by (by destruct toks1).
  unfold tokens_residue in *. rewrite !fmap_app, !fmap_cons in *. cbn [fst] in *. rewrite Hsep.
  cbn [negb orb]. unfold targets_with. rewrite <-!app_assoc.
  change ((trim ∘ snd) (b, key ++ COLON :: v)) with (trim (key ++ COLON :: v)).
  rewrite trim_role, (token_matches_key _ _ _ Hk Hm). done.
Qed.

Lemma edited_body :
  ∃ before after,
    body = before ++ val ++ after
    ∧ value_start span = str_len before ∧ value_end span = str_len (before ++ val)
    ∧ (last body ≠ Some CR → extract_structural_targets body = targets_with val)
    ∧ (∀ new, last body ≠ Some CR → RB ∉ new → NL ∉ new →
         extract_structural_targets (before ++ new ++ after) = targets_with new).
Proof.
  destruct edited_line as (u & Hraw & Hnew).
  destruct Hocc as [HL _ Hnf Ht _ _ _ _ _ _ Hst He].
  destruct (split_inclusive_spec body) as [Hll Hbody]. rewrite HL in Hll, Hbody.
  rewrite concat_app in Hbody. cbn [concat] in Hbody.
  exists (concat L1 ++ line_head), (RB :: u ++ concat L2).
  assert (∀ v, (concat L1 ++ line_head) ++ v ++ RB :: u ++ concat L2
    = concat (L1 ++ (line_head ++ v ++ RB :: u) :: L2)) as Hcat.
  { intros v. rewrite concat_app. cbn [concat]. by rewrite <-!app_assoc. }
  split_and!.
  - rewrite Hcat, <-Hraw, concat_app. by rewrite <-Hbody.
  - by rewrite Hst, (str_len_app (concat L1)).
  - rewrite He, Hst, <-app_assoc, (str_len_app (concat L1)), (str_len_app line_head).
    unfold line_head. lia.
  - intros Hcr. rewrite extract_zone. unfold lines.
    rewrite <-line_endings_agree, HL by done. by apply zone_edited.
  - intros new Hcr Hrb Hnl. destruct (Hnew new Hrb) as (Ht' & Hf' & Heol).
    rewrite extract_zone, Hcat. unfold lines. rewrite split_inclusive_concat.
    + pose proof (line_endings_agree body Hcr) as Hag. rewrite HL, !fmap_app, !fmap_cons in Hag.
      apply app_inj_1 in Hag as [H1 H2]; [|by rewrite !length_fmap]. injection H2 as H2 H3.
      rewrite <-(zone_edited _ _ Ht' Hf'), !fmap_app, !fmap_cons, <-H1, <-H3, Heol by done. done.
    + by eapply line_list_replace.
Qed.
End edited.

(** ** From targets to links *)

Lemma zone_trimmed f ls t : t ∈ zone f ls → trim t = t.
Proof.
  revert f. induction ls as [|l ls IH]; intros f; cbn [zone]; [by intros ?%not_elem_of_nil|].
  destruct (is_fence_line l); [apply IH|]. intros [Ht|Ht]%elem_of_app; [|by eapply IH].
  destruct f; [by apply not_elem_of_nil in Ht|].
  destruct (tokens_total l) as (toks & tail & Htok). rewrite (structural_line_spec _ _ _ Htok) in Ht.
  destruct (_ || _); [by apply not_elem_of_nil in Ht|].
  apply list_elem_of_fmap in Ht as (x & -> & _). apply trim_idemp.
Qed.

Section links.
Context {UP : UlidParser}.

Lemma variant_prefix role l :
  link_wf l → link_prefix l = wire_prefix role ↔ matches_variant role l = true.
Proof.
  intros Hwf. split.
  - intros Hp. destruct l as [| | | |[]|sec u| | | | | | |]; cbn in Hp; try (by destruct role).
    destruct Hwf as (_ & Hr & _). rewrite Hp in Hr. by destruct role.
  - by destruct role, l.
Qed.

Lemma link_role_named role t l :
  link_of t = Some l → trim t = t → matches_variant role l = true →
  role_named (wire_prefix role) t = true.
Proof.
  intros [Hwf Ht]%link_of_iff Htrim Hm. rewrite Htrim in Ht. subst t.
  apply variant_prefix in Hm; [|done]. unfold print_link. rewrite Hm.
  unfold role_named. rewrite split_prefix_role by (destruct role; apply (bool_decide_unpack _); done).
  rewrite !bool_decide_eq_true_2; [done| |done]. unfold role_text. set_solver.
Qed.

Lemma quiet_links role ts :
  quiet (wire_prefix role) ts → (∀ t, t ∈ ts → trim t = t) →
  Forall (λ l, matches_variant role l = false) (omap link_of ts).
Proof.
  intros Hq Ht. apply Forall_forall. intros l (t & Hin & Hl)%list_elem_of_omap.
  apply not_true_is_false. intros Hm. specialize (Hq t Hin).
  by rewrite (link_role_named role t l) in Hq by auto.
Qed.

Lemma link_value_no_bracket role l :
  link_wf l → matches_variant role l = true → RB ∉ link_value l.
Proof.
  intros Hwf Hm.
  assert (∀ a b', nonempty_ident a ∧ nonempty_ident b' → RB ∉ a ++ SLASH :: b') as Hpair.
  { intros a b' [[_ Ha] [_ Hb]]. apply (ident_no_char a RB) in Ha; [|done].
    apply (ident_no_char b' RB) in Hb; [|done]. rewrite not_elem_of_app, not_elem_of_cons. done. }
  destruct l as [|s|k| | | | |r| | | | |]; try (by destruct role); cbn [link_value link_wf] in *;
    first [by apply Hpair|destruct s|destruct k|destruct r];
    apply (bool_decide_unpack _); vm_compute; exact I.
Qed.

(** A valid new value holds no bracket, and its text reads as the new link. *)
Lemma new_value_spec role new l :
  parse_link (role_text (wire_prefix role) new) = Ok l → matches_variant role l = true →
  RB ∉ new ∧ link_of (role_text (wire_prefix role) (trim_end new)) = Some l.
Proof.
  intros [Hwf Ht]%parse_link_iff Hm. unfold role_text in Ht. rewrite trim_role in Ht.
  assert (trim_start (wire_prefix role) = wire_prefix role) as E by (by destruct role).
  rewrite E in Ht. pose proof Ht as Hval. unfold print_link in Hval.
  rewrite (proj2 (variant_prefix role l Hwf) Hm) in Hval. apply app_inv_head in Hval.
  injection Hval as Hval. split.
  - destruct (drop_while_end_spec is_whitespace new) as (post & Hnew & Hpost & _).
    fold (trim_end new) in Hnew. rewrite Hnew, Hval. intros [Hin|Hin]%elem_of_app.
    + by apply (link_value_no_bracket role l Hwf Hm).
    + rewrite Forall_forall in Hpost. by specialize (Hpost _ Hin).
  - apply link_of_iff. split; [done|]. rewrite <-Ht.
    replace (role_text (wire_prefix role) (trim_end new)) with (trim (role_text (wire_prefix role) new)).
    + rewrite trim_idemp. unfold role_text. by rewrite trim_role, E.
    + unfold role_text. by rewrite trim_role, E.
Qed.

(** The old target, if it was a link at all, was one of that role. *)
Lemma old_link_matches role v l :
  link_of (role_text (wire_prefix role) v) = Some l → trim (role_text (wire_prefix role) v)
    = role_text (wire_prefix role) v → matches_variant role l = true.
Proof.
  intros [Hwf Ht]%link_of_iff Htrim. rewrite Htrim in Ht. apply variant_prefix; [done|].
  destruct (is_dep l) eqn:Hd.
  - destruct l; try done. destruct Hwf as (Hc & _). unfold print_link in Ht. cbn in Ht |- *.
    assert (split_prefix (role_text (wire_prefix role) v) = split_prefix (role_text section ulid)) as E
      by (by rewrite Ht).
    rewrite !split_prefix_role in E; [by injection E|done|].
    destruct role; apply (bool_decide_unpack _); done.
  - destruct (reserved_prefix l Hd) as [_ Hc].
    assert (split_prefix (role_text (wire_prefix role) v) = split_prefix (print_link l)) as E
      by (by rewrite Ht).
    unfold print_link in E. rewrite !split_prefix_role in E; [by injection E|done|].
    destruct role; apply (bool_decide_unpack _); done.
Qed.
End links.

Definition of_role (role : MutableRole) (l : ProjectMapLink) : Prop := matches_variant role l = true.
#[export] Instance of_role_dec role l : Decision (of_role role l).
Proof. unfold of_role. apply _. Defined.

Section properties.
Context {UP : UlidParser}.

Definition role_links (role : MutableRole) (body : ustr) : list ProjectMapLink :=
  filter (of_role role) (links_of_body body).
Definition other_links (role : MutableRole) (body : ustr) : list ProjectMapLink :=
  filter (λ l, ¬ of_role role l) (links_of_body body).

Lemma filter_without_role role ls :
  Forall (λ l, matches_variant role l = false) ls →
  filter (of_role role) ls = [] ∧ filter (λ l, ¬ of_role role l) ls = ls.
Proof.
  unfold of_role. intros Hf. rewrite Forall_forall in Hf.
  split; [apply filter_none|apply filter_every]; intros l Hl; by rewrite Hf.
Qed.

(** Links around one target, by role. *)
Lemma split_links role ts1 x ts2 :
  Forall (λ l, matches_variant role l = false) (omap link_of ts1) →
  Forall (λ l, matches_variant role l = false) (omap link_of ts2) →
  (∀ l, link_of x = Some l → matches_variant role l = true) →
  filter (of_role role) (omap link_of (ts1 ++ x :: ts2)) = option_list (link_of x)
  ∧ filter (λ l, ¬ of_role role l) (omap link_of (ts1 ++ x :: ts2))
    = omap link_of ts1 ++ omap link_of ts2.
Proof.
  intros [E1 F1]%filter_without_role [E2 F2]%filter_without_role Hx.
  rewrite omap_app, !filter_app, E1, F1. cbn [omap list_omap].
  destruct (link_of x) as [l|]; [|by rewrite E2, F2].
  assert (of_role role l) as Hl by (by apply Hx).
  rewrite filter_cons_True, filter_cons_False, E2, F2 by (try done; by intros []). done.
Qed.

Lemma trim_role_text role v :
  trim (role_text (wire_prefix role) (trim_end v)) = role_text (wire_prefix role) (trim_end v).
Proof.
  unfold role_text. rewrite trim_role. f_equal; [by destruct role|]. f_equal.
  destruct (drop_while_end_spec is_whitespace v) as (_ & _ & _ & Hl). fold (trim_end v) in Hl.
  destruct (trim_end v) as [|c t _] using rev_ind; [done|]. apply drop_while_end_last. by eapply Hl.
Qed.

Lemma quiet_parts role L1 L2 (toks1 toks2 : list (ustr * ustr)) :
  quiet (wire_prefix role) (zone false (strip_eol <$> L1)) →
  quiet (wire_prefix role) (zone false (strip_eol <$> L2)) →
  (∀ t, t ∈ toks1 ++ toks2 → token_matches (wire_prefix role) t.2 = false) →
  Forall (λ l, matches_variant role l = false)
    (omap link_of (zone false (strip_eol <$> L1) ++ (trim ∘ snd <$> toks1)))
  ∧ Forall (λ l, matches_variant role l = false)
    (omap link_of ((trim ∘ snd <$> toks2) ++ zone false (strip_eol <$> L2))).
Proof.
  intros Hq1 Hq2 Hu. assert (∀ toks : list (ustr * ustr),
    (∀ t, t ∈ toks → token_matches (wire_prefix role) t.2 = false) →
    quiet (wire_prefix role) (trim ∘ snd <$> toks)) as Ht.
  { intros toks Hn. apply quiet_tokens. intros b i Hin Hm.
    specialize (Hn (b, i) Hin). cbn in Hn. congruence. }
  assert (∀ t (toks : list (ustr * ustr)), t ∈ trim ∘ snd <$> toks → trim t = t) as Htrim.
  { intros t toks (x & -> & _)%list_elem_of_fmap. apply trim_idemp. }
  split; apply quiet_links.
  - apply quiet_app. split; [done|]. apply Ht. set_solver.
  - intros t [?|?]%elem_of_app; [by eapply zone_trimmed|by eapply Htrim].
  - apply quiet_app. split; [|done]. apply Ht. set_solver.
  - intros t [?|?]%elem_of_app; [by eapply Htrim|by eapply zone_trimmed].
Qed.

Lemma mutate_found body role span :
  locate_structural_role body (wire_prefix role) = Ok span →
  found_somewhere (wire_prefix role) false (split_inclusive body) 0 span.
Proof.
  unfold locate_structural_role.
  destruct (locate_loop _ _ 0 false None) as [[s|]|] eqn:E; [|done|done]. intros [= ->].
  apply locate_loop_spec in E as [[? _]|[_ (s & [= ->] & Hs)]]; done.
Qed.

Lemma mutate_absent body role :
  locate_structural_role body (wire_prefix role) = Err (RoleAbsent (wire_prefix role)) →
  quiet (wire_prefix role) (zone false (strip_eol <$> split_inclusive body)).
Proof.
  unfold locate_structural_role.
  destruct (locate_loop _ _ 0 false None) as [[s|]|] eqn:E; [done| |].
  - intros _. apply locate_loop_spec in E as [[_ ?]|[_ (s & ? & _)]]; done.
  - intros [= ->]. exfalso. revert E. generalize 0 false (@None RoleValueSpan).
    induction (split_inclusive body) as [|raw raws IH]; intros n f o; cbn [locate_loop]; [done|].
    repeat case_match; try done; apply IH.
Qed.

Lemma mutate_core body role new :
  mutate_typed_role body role new ≠ None
  ∧ (∀ body', mutate_typed_role body role new = Some (Ok body') →
       ∃ before old after l,
         body = before ++ old ++ after ∧ body' = before ++ new ++ after
         ∧ parse_link (role_text (wire_prefix role) new) = Ok l ∧ of_role role l
         ∧ (NL ∉ new → last body ≠ Some CR →
            role_links role body' = [l] ∧ other_links role body' = other_links role body))
  ∧ (mutate_typed_role body role new = Some (Err (RoleAbsent (wire_prefix role))) →
       last body ≠ Some CR → role_links role body = []).
Proof.
  unfold mutate_typed_role.
  destruct (parse_link _) as [l|e] eqn:Hl; [destruct (matches_variant role l) eqn:Hm|].
  2-3: split_and!; done.
  destruct (locate_structural_role body (wire_prefix role)) as [span|e] eqn:Hloc.
  - destruct (mutate_found _ _ _ Hloc) as (L1 & L2 & raw & toks1 & toks2 & b & key & val & tail & Hocc).
    assert (RB ∉ wire_prefix role) as Hrb by (destruct role; apply (bool_decide_unpack _); done).
    destruct (edited_body _ _ _ _ _ _ _ _ _ _ _ _ Hrb Hocc)
      as (before & after & Hb & Hs & He & Hold & Hnew).
    assert (split_at_byte (value_start span) body = Some (before, val ++ after)) as ->
      by (rewrite Hs, Hb; apply split_at_byte_app).
    assert (split_at_byte (value_end span) body = Some (before ++ val, after)) as ->
      by (rewrite He, Hb, app_assoc; apply split_at_byte_app).
    split_and!; [done| |done].
    intros body' [= <-]. exists before, val, after, l. split_and!; try done.
    intros Hnl Hcr. destruct (new_value_spec role new l Hl Hm) as [Hbr Hlink].
    destruct Hocc as [_ _ _ _ _ _ _ Hu Hq1 Hq2 _ _].
    assert (∀ v, targets_with (wire_prefix role) L1 L2 toks1 toks2 v
      = (zone false (strip_eol <$> L1) ++ (trim ∘ snd <$> toks1))
        ++ role_text (wire_prefix role) (trim_end v)
        :: (trim ∘ snd <$> toks2) ++ zone false (strip_eol <$> L2)) as Hsplit
      by (intros v; unfold targets_with; by rewrite <-app_assoc).
    destruct (quiet_parts role L1 L2 toks1 toks2 Hq1 Hq2 Hu) as [HF1 HF2].
    unfold role_links, other_links, links_of_body. rewrite (Hnew new), Hold, !Hsplit by done.
    destruct (split_links role _ (role_text (wire_prefix role) (trim_end new)) _ HF1 HF2) as [-> ->].
    { intros l'. rewrite Hlink. by intros [= <-]. }
    rewrite Hlink. split; [done|].
    destruct (split_links role _ (role_text (wire_prefix role) (trim_end val)) _ HF1 HF2) as [_ ->]; [|done].
    intros l' Hl'. apply (old_link_matches role (trim_end val)); [done|apply trim_role_text].
  - split_and!; [done|done|].
    intros [= ->] Hcr. unfold role_links. apply mutate_absent in Hloc.
    unfold links_of_body. rewrite extract_zone. unfold lines.
    rewrite <-line_endings_agree by done. apply filter_none. intros l' Hin.
    apply quiet_links in Hloc; [|intros t; apply zone_trimmed]. rewrite Forall_forall in Hloc.
    unfold of_role. by rewrite Hloc.
Qed.

(** A card and an edit of it that the readers lose. *)
Definition sample_card : ustr := lit "[[project:g]] [[status:OPEN]] [[kind:TASK]]".
Definition newline_value : ustr := lit "DONE" ++ [NL].

Lemma newline_value_loses_role :
  validate_card_body sample_card = Ok tt
  ∧ (∃ body', mutate_typed_role sample_card MutStatus newline_value = Some (Ok body')
              ∧ role_links MutStatus body' = [])
  ∧ (∃ body', mutate_typed_role (sample_card ++ [CR]) MutStatus (lit "DONE") = Some (Ok body')
              ∧ role_links MutStatus (sample_card ++ [CR]) = []).
Proof.
  split_and!; [by vm_compute|..].
  - exists (lit "[[project:g]] [[status:DONE" ++ [NL] ++ lit "]] [[kind:TASK]]").
    split; vm_compute; reflexivity.
  - exists (lit "[[project:g]] [[status:DONE]] [[kind:TASK]]" ++ [CR]).
    split; vm_compute; reflexivity.
Qed.

(** Changing a typed role never panics, replaces exactly the bytes of one value with the
    new value, and leaves every other byte as it was; read back, the card has exactly the
    new link for that role, and all its other links unchanged.  A refusal for an absent
    role means that the readers see no such link.  Two conditions are needed: the value
    holds no newline, which the validation of the value does not check since it trims it
    (such a mutation succeeds and the card loses its status), and the body does not end in
    a bare carriage return, where the mutation finds a role that no reader sees. *)
Theorem mutate_typed_role_exact body role new :
  mutate_typed_role body role new ≠ None
  ∧ (∀ body', mutate_typed_role body role new = Some (Ok body') →
       ∃ before old after l,
         body = before ++ old ++ after ∧ body' = before ++ new ++ after
         ∧ parse_link (role_text (wire_prefix role) new) = Ok l ∧ of_role role l
         ∧ (NL ∉ new → last body ≠ Some CR →
            role_links role body' = [l] ∧ other_links role body' = other_links role body))
  ∧ (mutate_typed_role body role new = Some (Err (RoleAbsent (wire_prefix role))) →
       last body ≠ Some CR → role_links role body = [])
  ∧ (validate_card_body sample_card = Ok tt
     ∧ (∃ body', mutate_typed_role sample_card MutStatus newline_value = Some (Ok body')
                 ∧ role_links MutStatus body' = [])
     ∧ (∃ body', mutate_typed_role (sample_card ++ [CR]) MutStatus (lit "DONE") = Some (Ok body')
                 ∧ role_links MutStatus (sample_card ++ [CR]) = [])).
Proof.
  destruct (mutate_core body role new) as (H1 & H2 & H3).
  split_and!; [done|done|done|apply newline_value_loses_role..].
Qed.
End properties.
