(* ===== verification/ProjectHistory.v ===== *)
(** * ProjectHistory: the history section of a card

    Sixth part of [crates/gradatum-core/src/project_map.rs]: the line a client may append to
    the history section, its validation and its placement.  The insertion keeps every
    byte and every role of the card, as long as no line of the text is a code fence; the
    validation does not check the latter, and the last theorem shows what follows. *)

From S2P Require Import Prelude Text ProjectLinks ProjectBody ProjectScan ProjectEdit.

#[local] Open Scope nat_scope.

(** ** The history section *)

Definition is_hash (c : uchar) : bool := (c =? 35)%N.

Definition is_historique_heading (line : ustr) : bool :=
  let t := trim_start line in
  let after := drop_while is_hash t in
  if length t =? length after then false
  else str_starts_with (lit "historique") (to_lowercase (trim_start after)).

Definition is_any_heading (line : ustr) : bool := str_starts_with (lit "#") (trim_start line).

Definition validate_history_line (line : ustr) : result unit RoleMutationError :=
  if str_contains OPENING line then Err HistoryLineInvalid else Ok tt.

(** [raw.strip_suffix('\n').unwrap_or(raw).trim_end_matches('\r')]. *)
Definition heading_content (raw : ustr) : ustr := drop_while_end is_CR (strip_suffix_or NL raw).

(** Pass 1: the offset of the heading. *)
Fixpoint find_heading (pieces : list ustr) (in_fence : bool) (offset : nat) : option nat :=
  match pieces with
  | [] => None
  | raw :: rest =>
      let content := heading_content raw in
      if is_fence_line content then find_heading rest (negb in_fence) (offset + str_len raw)
      else if negb in_fence && is_historique_heading content then Some offset
      else find_heading rest in_fence (offset + str_len raw)
  end.

(** Pass 2: the end of the section, from its heading on. *)
Fixpoint find_section_end (pieces : list ustr) (first in_fence : bool) (o len : nat) : nat :=
  match pieces with
  | [] => len
  | raw :: rest =>
      let content := heading_content raw in
      if is_fence_line content then find_section_end rest false (negb in_fence) (o + str_len raw) len
      else if negb first && negb in_fence && is_any_heading content then o
      else find_section_end rest false in_fence (o + str_len raw) len
  end.

Definition ends_with_newline (s : ustr) : bool :=
  match last s with Some c => is_NL c | None => false end.

(** [line.trim_end_matches(['\n', '\r'])]. *)
Definition history_text (line : ustr) : ustr := drop_while_end is_NL_or_CR line.

Definition append_history_line (body line0 : ustr) : option ustr :=
  let line := history_text line0 in
  match find_heading (split_inclusive body) false 0 with
  | None =>
      Some (drop_while_end is_NL body ++ [NL; NL] ++ lit "## Historique" ++ [NL; NL]
            ++ line ++ [NL])
  | Some h =>
      '(_, from_heading) ← split_at_byte h body;
      let sect_end := find_section_end (split_inclusive from_heading) true false h (str_len body) in
      '(before, after) ← split_at_byte sect_end body;
      let separator := if ends_with_newline before then [] else [NL] in
      Some (before ++ separator ++ line ++ [NL] ++ after)
  end.

(** ** Where the line goes *)

Lemma find_heading_spec pieces f offset h :
  find_heading pieces f offset = Some h →
  ∃ L1 raw L2, pieces = L1 ++ raw :: L2 ∧ h = offset + str_len (concat L1)
               ∧ is_fence_line (heading_content raw) = false.
Proof.
  revert f offset. induction pieces as [|raw pieces IH]; intros f offset; cbn [find_heading]; [done|].
  destruct (is_fence_line (heading_content raw)) eqn:Ef.
  - intros (L1 & raw' & L2 & -> & -> & Hf)%IH. exists (raw :: L1), raw', L2. split_and!; [done| |done].
    cbn [concat]. rewrite str_len_app. lia.
  - destruct (_ && _).
    + intros [= <-]. exists [], raw, pieces. split_and!; [done|cbn; change (str_len []) with 0; lia|done].
    + intros (L1 & raw' & L2 & -> & -> & Hf)%IH. exists (raw :: L1), raw', L2.
      split_and!; [done| |done]. cbn [concat]. rewrite str_len_app. lia.
Qed.

Lemma find_section_end_spec pieces first f o len :
  o + str_len (concat pieces) = len →
  ∃ La Lb, pieces = La ++ Lb ∧ find_section_end pieces first f o len = o + str_len (concat La)
           ∧ (first = true → pieces ≠ [] → La ≠ []).
Proof.
  revert first f o. induction pieces as [|raw pieces IH]; intros first f o Hl; cbn [find_section_end].
  { exists [], []. split_and!; [done|cbn in *; change (str_len []) with 0 in *; lia|done]. }
  cbn [concat] in Hl. rewrite str_len_app in Hl.
  assert (∀ f', ∃ La Lb, raw :: pieces = La ++ Lb
    ∧ find_section_end pieces false f' (o + str_len raw) len = o + str_len (concat La)
    ∧ (first = true → raw :: pieces ≠ [] → La ≠ [])) as Hnext.
  { intros f'. destruct (IH false f' (o + str_len raw)) as (La & Lb & -> & -> & _); [lia|].
    exists (raw :: La), Lb. split_and!; [done| |done]. cbn [concat]. rewrite str_len_app. lia. }
  destruct (is_fence_line (heading_content raw)); [apply Hnext|].
  destruct (negb first && negb f && is_any_heading (heading_content raw)) eqn:E; [|apply Hnext].
  exists [], (raw :: pieces). split_and!; [done|cbn; change (str_len []) with 0; lia|]. intros ->. done.
Qed.

(** A line list ends its first part with a newline, or has no second part. *)
Lemma line_list_boundary P Q :
  line_list (P ++ Q) → P ≠ [] → ends_with_newline (concat P) = true ∨ Q = [].
Proof.
  intros HL. revert P HL. induction P as [|raw P IH]; intros HL HP; [done|]. cbn [app] in HL.
  inversion HL as [|a Hne Ha E|a L Ha HL' E]; subst.
  - right. by destruct P, Q.
  - destruct P as [|raw' P]; [left|].
    + cbn. rewrite app_nil_r. unfold ends_with_newline. by rewrite last_snoc.
    + destruct (IH HL') as [He|He]; [done|left|by right]. unfold ends_with_newline in *.
      change (concat ((a ++ [NL]) :: raw' :: P)) with ((a ++ [NL]) ++ concat (raw' :: P)).
      rewrite last_app. by destruct (last (concat (raw' :: P))).
Qed.

Lemma line_list_suffix P Q : line_list (P ++ Q) → line_list Q.
Proof.
  induction P as [|raw P IH]; [done|]. cbn [app]. intros HL. apply IH.
  inversion HL as [|a Hne Ha E|a L Ha HL' E]; subst; [constructor|done].
Qed.

Definition heading : ustr := lit "## Historique".

(** The result, on both branches: never a panic, an insertion at a line boundary. *)
Lemma append_history_spec body line0 (line := history_text line0) :
  ∃ out, append_history_line body line0 = Some out ∧
    ((∃ newlines, body = drop_while_end is_NL body ++ newlines ∧ Forall is_NL newlines
        ∧ out = drop_while_end is_NL body ++ NL :: NL :: heading ++ NL :: NL :: line ++ [NL])
     ∨ (∃ before after sep, body = before ++ after ∧ out = before ++ sep ++ line ++ NL :: after
        ∧ (ends_with_newline before = true ∧ sep = []
           ∨ ends_with_newline before = false ∧ sep = [NL] ∧ after = []))).
Proof.
  unfold append_history_line. fold line.
  destruct (split_inclusive_spec body) as [HL Hb].
  destruct (find_heading (split_inclusive body) false 0) as [h|] eqn:Eh.
  - apply find_heading_spec in Eh as (L1 & raw & L2 & HL12 & -> & _).
    rewrite HL12 in HL, Hb. rewrite concat_app in Hb. cbn [Nat.add].
    assert (split_at_byte (str_len (concat L1)) body = Some (concat L1, concat (raw :: L2))) as ->
      by (rewrite <-Hb; apply split_at_byte_app).
    cbn [mbind option_bind]. rewrite split_inclusive_concat by (by eapply line_list_suffix).
    destruct (find_section_end_spec (raw :: L2) true false (str_len (concat L1)) (str_len body))
      as (La & Lb & HLab & -> & Hne); [by rewrite <-Hb, str_len_app|].
    assert (body = concat (L1 ++ La) ++ concat Lb) as Hsplit
      by (rewrite <-Hb, HLab, !concat_app; by rewrite app_assoc).
    assert (split_at_byte (str_len (concat L1) + str_len (concat La)) body
      = Some (concat (L1 ++ La), concat Lb)) as ->.
    { rewrite <-str_len_app, <-concat_app. rewrite Hsplit at 1. apply split_at_byte_app. }
    cbn [mbind option_bind]. eexists. split; [done|]. right.
    exists (concat (L1 ++ La)), (concat Lb), (if ends_with_newline (concat (L1 ++ La)) then [] else [NL]).
    split_and!; [done|done|].
    assert (line_list ((L1 ++ La) ++ Lb)) as HLL by (by rewrite <-app_assoc, <-HLab).
    destruct (line_list_boundary _ _ HLL) as [He| ->].
    + intros [_ E]%app_eq_nil. by apply Hne.
    + left. by rewrite He.
    + destruct (ends_with_newline _); [by left|by right].
  - eexists. split; [done|]. left.
    destruct (drop_while_end_spec is_NL body) as (nls & Hbody & Hn & _).
    exists nls. split_and!; [done|done|]. done.
Qed.

(** ** What the readers see *)

Lemma line_within s l : l ∈ lines s → ∃ a b, s = a ++ l ++ b.
Proof.
  intros (raw & -> & Hin)%list_elem_of_fmap. destruct (split_inclusive_spec s) as [_ Hs].
  apply list_elem_of_split in Hin as (L1 & L2 & HL). rewrite HL, concat_app in Hs. cbn in Hs.
  assert (∃ e, raw = strip_line_ending raw ++ e) as [e He].
  { unfold strip_line_ending. destruct (strip_suffix NL raw) as [r|] eqn:E.
    - apply strip_suffix_Some in E. subst raw. unfold strip_suffix_or.
      destruct (strip_suffix CR r) as [r'|] eqn:E'; cbn; [|by eexists].
      apply strip_suffix_Some in E' as ->. rewrite <-app_assoc. by eexists.
    - exists []. by rewrite app_nil_r. }
  exists (concat L1), (e ++ concat L2). rewrite <-Hs, He at 1. by rewrite <-!app_assoc.
Qed.

Lemma no_opening_within s a l b :
  str_contains OPENING s = false → s = a ++ l ++ b → str_contains OPENING l = false.
Proof.
  intros Hc ->. apply not_true_is_false. intros (pre & post & ->)%str_contains_iff.
  rewrite <-not_true_iff_false, str_contains_iff in Hc. apply Hc.
  exists (a ++ pre), (post ++ b). by rewrite <-!app_assoc.
Qed.

Lemma no_opening_newline s : str_contains OPENING s = false → str_contains OPENING (s ++ [NL]) = false.
Proof.
  intros Hc. apply not_true_is_false. intros (pre & post & E)%str_contains_iff.
  rewrite <-not_true_iff_false, str_contains_iff in Hc. apply Hc.
  destruct post as [|c post _] using rev_ind.
  - exfalso. rewrite app_nil_r in E. change OPENING with ([91%N] ++ [91%N]) in E.
    rewrite app_assoc in E. by apply app_inj_tail in E as [_ ?].
  - rewrite !app_assoc in E. apply app_inj_tail in E as [-> _]. exists pre, post.
    by rewrite <-app_assoc.
Qed.

(** The text of a history line, on lines of its own. *)
Lemma history_inert line0 (line := history_text line0) :
  validate_history_line line0 = Ok tt →
  Forall (λ l, is_fence_line l = false) (lines line) →
  Forall (λ l, is_fence_line l = false ∧ structural_targets_on_line l = []) (lines (line ++ [NL])).
Proof.
  intros Hv Hf. unfold validate_history_line in Hv.
  destruct (str_contains OPENING line0) eqn:Hc; [done|].
  destruct (drop_while_end_spec is_NL_or_CR line0) as (post & Hl0 & _ & Hlast).
  fold (history_text line0) line in Hl0, Hlast.
  apply (no_opening_within _ [] line post) in Hc; [|done]. apply no_opening_newline in Hc.
  apply Forall_forall. intros l Hin. split.
  - destruct line as [|c r] eqn:El; [by apply list_elem_of_singleton in Hin as ->|].
    rewrite lines_snoc_nl in Hin; [by eapply Forall_forall in Hf|done|..];
      destruct (last (c :: r)) as [d|] eqn:E; try done;
      apply last_Some in E as [r' E]; specialize (Hlast _ _ E); by intros [= ->].
  - destruct (line_within _ _ Hin) as (a & b & E).
    apply no_opening_no_targets. by eapply no_opening_within.
Qed.

(** A body cut at a line boundary, with lines put in that are neither roles nor fences. *)
Lemma insertion_invisible s1 ins s2 :
  Forall (λ l, is_fence_line l = false ∧ structural_targets_on_line l = []) (lines (ins ++ [NL])) →
  extract_structural_targets ((s1 ++ [NL]) ++ ins ++ NL :: s2)
  = extract_structural_targets ((s1 ++ [NL]) ++ s2).
Proof.
  intros Hi. rewrite <-!app_assoc, !extract_zone. cbn [app].
  rewrite (lines_app s1 (ins ++ _)), (lines_app ins s2), (lines_app s1 s2), !zone_app.
  destruct (zone_inert (fence_after false (lines (s1 ++ [NL]))) _ Hi) as [-> ->]. done.
Qed.

Lemma trailing_newlines s nls :
  (nls = [] → last s ≠ Some CR) → Forall is_NL nls →
  extract_structural_targets (s ++ nls) = zone false (lines (s ++ [NL])).
Proof.
  intros Hc Hn. rewrite extract_zone. destruct Hn as [|c nls Hc' Hn].
  - rewrite app_nil_r. by rewrite (proj1 (zone_newline false s (Hc eq_refl))).
  - apply Is_true_true, N.eqb_eq in Hc' as ->. rewrite lines_app, zone_app.
    assert (∀ f, zone f (lines nls) = []) as ->; [|by rewrite app_nil_r].
    clear Hc. induction Hn as [|c nls Hc' _ IH]; intros f; [done|].
    apply Is_true_true, N.eqb_eq in Hc' as ->. rewrite lines_nl. cbn. destruct f; apply IH.
Qed.

Lemma append_history_targets body line0 out :
  validate_history_line line0 = Ok tt →
  Forall (λ l, is_fence_line l = false) (lines (history_text line0)) → last body ≠ Some CR →
  append_history_line body line0 = Some out →
  extract_structural_targets out = extract_structural_targets body.
Proof.
  intros Hv Hf Hcr Ha. pose proof (history_inert _ Hv Hf) as Hi.
  destruct (append_history_spec body line0) as (out' & E & Hcases). rewrite E in Ha. injection Ha as ->.
  destruct Hcases as [(nls & Hb & Hn & ->)|(before & after & sep & Hb & -> & Hsep)].
  - set (s := drop_while_end is_NL body) in *. clearbody s. subst body.
    rewrite (trailing_newlines s nls); [|intros ->; by rewrite app_nil_r in Hcr|done].
    rewrite extract_zone, (lines_app s), zone_app, lines_nl, (lines_app heading), lines_nl.
    assert (∀ f, zone f ([] :: lines (heading ++ [NL]) ++ [] :: lines (history_text line0 ++ [NL])) = [])
      as ->; [|by rewrite app_nil_r].
    intros f. apply zone_inert. constructor; [done|]. apply Forall_app. split; [by repeat constructor|].
    by constructor.
  - destruct Hsep as [[He ->]|(He & -> & ->)].
    + destruct before as [|c before _] using rev_ind; [done|]. unfold ends_with_newline in He.
      rewrite last_snoc in He. apply N.eqb_eq in He as ->. rewrite Hb. by apply insertion_invisible.
    + rewrite app_nil_r in Hb. subst before. cbn [app].
      change (body ++ NL :: ?x) with (body ++ [NL] ++ x). rewrite (app_assoc body [NL]).
      rewrite insertion_invisible, app_nil_r by done.
      by rewrite !extract_zone, (proj1 (zone_newline false body Hcr)).
Qed.

Section properties.
Context {UP : UlidParser}.

(** Two cards with a history, and a line that opens a fence. *)
Definition unlines (ls : list string) : ustr := ls ≫= λ l, lit l ++ [NL].
Definition citing_card : ustr :=
  unlines ["[[project:g]] [[status:OPEN]] [[kind:TASK]]"; "## Historique"; "- a";
           "## Roles"; "```"; "[[status:DONE]]"; "```"].
Definition tracking_card : ustr :=
  unlines ["[[project:g]] [[status:OPEN]] [[kind:TASK]]"; "## Historique"; "- a";
           "## Suite"; "[[track:g/1.0]]"].

Lemma fence_line_changes_roles :
  validate_history_line FENCE = Ok tt
  ∧ (statuses_of (links_of_body citing_card) = [StatusOpen]
     ∧ (λ out, statuses_of (links_of_body out)) <$> append_history_line citing_card FENCE
       = Some [StatusOpen; StatusDone])
  ∧ (tracks_of (links_of_body tracking_card) = [(lit "g", lit "1.0")]
     ∧ (λ out, (validate_card_body out, tracks_of (links_of_body out)))
         <$> append_history_line tracking_card FENCE = Some (Ok tt, [])).
Proof. split_and!; vm_compute; reflexivity. Qed.

(** Appending a history line never panics and only inserts text: every byte of the body
    stays, but for the newlines at its very end when the section is created.  An accepted
    line none of whose lines is a code fence leaves every role of the card as it was, for
    every reader.  The condition on fences is needed and is not checked: an accepted line
    can turn a cited role into a structural one, or make a card lose its track and still
    be valid. *)
Theorem append_history_line_exact body line :
  (∃ out before inserted after newlines,
     append_history_line body line = Some out
     ∧ body = before ++ after ++ newlines ∧ Forall is_NL newlines
     ∧ out = before ++ inserted ++ after ∧ str_contains (history_text line) inserted = true
     ∧ (validate_history_line line = Ok tt →
        Forall (λ l, is_fence_line l = false) (lines (history_text line)) → last body ≠ Some CR →
        links_of_body out = links_of_body body))
  ∧ (validate_history_line FENCE = Ok tt
     ∧ (statuses_of (links_of_body citing_card) = [StatusOpen]
        ∧ (λ out, statuses_of (links_of_body out)) <$> append_history_line citing_card FENCE
          = Some [StatusOpen; StatusDone])
     ∧ (tracks_of (links_of_body tracking_card) = [(lit "g", lit "1.0")]
        ∧ (λ out, (validate_card_body out, tracks_of (links_of_body out)))
            <$> append_history_line tracking_card FENCE = Some (Ok tt, []))).
Proof.
  split; [|apply fence_line_changes_roles].
  destruct (append_history_spec body line) as (out & E & Hcases).
  assert (validate_history_line line = Ok tt →
    Forall (λ l, is_fence_line l = false) (lines (history_text line)) → last body ≠ Some CR →
    links_of_body out = links_of_body body) as Hl.
  { intros. unfold links_of_body. by erewrite append_history_targets. }
  exists out. destruct Hcases as [(nls & Hb & Hn & Ho)|(before & after & sep & Hb & Ho & _)].
  - exists (drop_while_end is_NL body), (NL :: NL :: heading ++ NL :: NL :: history_text line ++ [NL]), [], nls.
    split_and!; [done|done|done|by rewrite app_nil_r| |done].
    apply str_contains_iff. exists (NL :: NL :: heading ++ [NL; NL]), [NL].
    cbn [app]. by rewrite <-app_assoc.
  - exists before, (sep ++ history_text line ++ [NL]), after, [].
    split_and!; [done|by rewrite app_nil_r|done| | |done].
    + rewrite Ho. by rewrite <-!app_assoc.
    + apply str_contains_iff. by exists sep, [NL].
Qed.
End properties.
