(* ===== verification/ProjectExport.v ===== *)
(** * ProjectExport: the structure index and the projections of a project map

    Last part of [crates/gradatum-core/src/project_map.rs]: the index of structure cards and
    the resolution of tracks, the two exports of feature cards (from the stored release,
    and from the release derived from the tracked structure), and the listing of cards.
    A map keyed by text is a [gmap]; a stable sort is [merge_sort] on the sort key. *)

From S2P Require Import Prelude Text ProjectLinks ProjectBody ProjectTitle.

#[local] Open Scope nat_scope.

(** ** The structure index *)

Inductive TrackResolutionError :=
| TargetNotFound (identity : ustr)
| PorteuseNotFound (roadmap porteuse : ustr).

Record StructureFacts := mkFacts {
  sf_kind : KindKind;
  sf_status : StatusKind;
  sf_porteuse : option ustr;
}.

Abbreviation StructureIndex := (gmap ustr StructureFacts).

(** The roles one pass over the links keeps: the last one of each kind. *)
Record card_roles := mkCardRoles {
  r_kind : option KindKind;
  r_status : option StatusKind;
  r_version : option (ustr * ustr);
  r_porteuse : option (ustr * ustr);
  r_feature : option ustr;
  r_release : option ReleaseKind;
  r_project : option ustr;
  r_track : option (ustr * ustr);
  r_visibility : option VisibilityKind;
  r_supersedes : list ustr;
  r_parent : list ustr;
}.
Definition no_roles : card_roles :=
  mkCardRoles None None None None None None None None None [] [].

Definition keep_role (r : card_roles) (l : ProjectMapLink) : card_roles :=
  let '(mkCardRoles k s v po f re p t vi su pa) := r in
  match l with
  | LinkKind k' => mkCardRoles (Some k') s v po f re p t vi su pa
  | LinkStatus s' => mkCardRoles k (Some s') v po f re p t vi su pa
  | LinkVersion a b => mkCardRoles k s (Some (a, b)) po f re p t vi su pa
  | LinkPorteuse a b => mkCardRoles k s v (Some (a, b)) f re p t vi su pa
  | LinkFeature f' => mkCardRoles k s v po (Some f') re p t vi su pa
  | LinkRelease re' => mkCardRoles k s v po f (Some re') p t vi su pa
  | LinkProject p' => mkCardRoles k s v po f re (Some p') t vi su pa
  | LinkTrack a b => mkCardRoles k s v po f re p (Some (a, b)) vi su pa
  | LinkVisibility vi' => mkCardRoles k s v po f re p t (Some vi') su pa
  | LinkSupersedes x => mkCardRoles k s v po f re p t vi (su ++ [x]) pa
  | LinkParent x => mkCardRoles k s v po f re p t vi su (pa ++ [x])
  | LinkAnnex _ _ | LinkDep _ _ => r
  end.

Definition pair_of (pv : ustr * ustr) : ustr := pair_text pv.1 pv.2.

Section index.
Context {UP : UlidParser}.

Definition roles_of (body : ustr) : card_roles := foldl keep_role no_roles (links_of_body body).

(** What [from_bodies] inserts for one body. *)
Definition index_entry (body : ustr) : option (ustr * StructureFacts) :=
  let r := roles_of body in
  match r_kind r, r_status r, r_version r with
  | Some kind, Some status, Some identity =>
      if is_structure kind
      then Some (pair_of identity, mkFacts kind status (pair_of <$> r_porteuse r))
      else None
  | _, _, _ => None
  end.

Definition index_body (ix : StructureIndex) (body : ustr) : StructureIndex :=
  match index_entry body with Some (identity, facts) => <[identity := facts]> ix | None => ix end.
Definition from_bodies (bodies : list ustr) : StructureIndex := foldl index_body ∅ bodies.
Definition from_notes (notes : list (ustr * ustr)) : StructureIndex := from_bodies notes.*1.
End index.

Definition resolve_track (ix : StructureIndex) (project target : ustr)
    : result TrackTarget TrackResolutionError :=
  let identity := pair_text project target in
  match ix !! identity with
  | None => Err (TargetNotFound identity)
  | Some facts =>
      match sf_kind facts with
      | KindBacklog => Ok TargetBacklog
      | KindRoadmap =>
          match sf_porteuse facts, sf_status facts with
          | Some carrier, StatusObsolete =>
              match ix !! carrier with
              | Some c => Ok (TargetRoadmap (sf_status facts) (Some (sf_status c)))
              | None => Err (PorteuseNotFound identity carrier)
              end
          | _, _ => Ok (TargetRoadmap (sf_status facts) None)
          end
      | _ => Err (TargetNotFound identity)
      end
  end.

(** ** Export of feature cards *)

Record FeatureEntry := mkEntry {
  fe_feature : ustr;
  fe_release : ustr;
  fe_version : option ustr;
  fe_visibility : option ustr;
  fe_title : ustr;
}.
Record ExportOptions := mkOptions { include_dropped : bool }.

Inductive DerivationFallbackReason :=
| NoTrack
| Unresolved (e : TrackResolutionError)
| Undetermined (e : ReleaseDerivationError)
| UnterminatedCodeFence.

Record DerivationDiagnostic := mkDiagnostic {
  dd_feature : ustr;
  dd_stored : option ustr;
  dd_reason : DerivationFallbackReason;
}.
Record DerivedExport := mkExport {
  entries : list FeatureEntry;
  diagnostics : list DerivationDiagnostic;
}.

(** [project_filter] and the structure guard, common to both exports. *)
Definition in_scope (project_filter : option ustr) (r : card_roles) : bool :=
  unless_null project_filter (λ want, bool_decide (r_project r = Some want))
  && negb (match r_kind r with Some k => is_structure k | None => false end).

(** The three filters of the public mirror; the audit mode lifts them all. *)
Definition exported (opts : ExportOptions) (r : card_roles) (release : ustr) : bool :=
  include_dropped opts
  || negb (bool_decide (release = lit "dropped"))
     && bool_decide (r_kind r = Some KindFeature)
     && negb (bool_decide (r_visibility r = Some VisibilityInterne)).

(** The version axis: the track before the card's own version. *)
Definition version_axis (r : card_roles) : option ustr :=
  match r_track r with Some t => Some (pair_of t) | None => pair_of <$> r_version r end.

Definition entry_le (a b : FeatureEntry) : bool :=
  (feature_sort_key (fe_feature a) <=? feature_sort_key (fe_feature b))%N.
Definition sort_by_feature (l : list FeatureEntry) : list FeatureEntry :=
  merge_sort (λ a b, entry_le a b) l.

Definition entry_of (r : card_roles) (feature release : ustr) (version : option ustr) (title : ustr)
    : FeatureEntry :=
  mkEntry feature release version (VisibilityKind_as_wire <$> r_visibility r) title.

Section exports.
Context {UP : UlidParser}.

(** The stored projection of one note; [None] is [continue]. *)
Definition stored_entry (opts : ExportOptions) (project_filter : option ustr)
    (note : ustr * ustr) : option FeatureEntry :=
  let r := roles_of note.1 in
  if negb (in_scope project_filter r) then None
  else match r_feature r, ReleaseKind_as_wire <$> r_release r with
       | Some feature_id, Some release =>
           let version := version_axis r ≫= map_version_raw in
           if exported opts r release then Some (entry_of r feature_id release version note.2)
           else None
       | _, _ => None
       end.

Definition project_map_feature_entries_scoped (notes : list (ustr * ustr)) (opts : ExportOptions)
    (project_filter : option ustr) : list FeatureEntry :=
  sort_by_feature (omap (stored_entry opts project_filter) notes).

Definition project_map_feature_entries (notes : list (ustr * ustr)) (opts : ExportOptions)
    : list FeatureEntry :=
  project_map_feature_entries_scoped notes opts None.

Definition fence_aware_reason (body : ustr) (scan : StructuralScan)
    (reason : DerivationFallbackReason) : DerivationFallbackReason :=
  match reason with
  | NoTrack =>
      if has_unterminated_code_fence body && negb (bool_decide (swallowed scan = []))
      then UnterminatedCodeFence else NoTrack
  | _ => reason
  end.

(** The derivation of one card: release and version, or why not. *)
Definition derivation (ix : StructureIndex) (r : card_roles)
    : result (ustr * ustr) DerivationFallbackReason :=
  match r_status r, r_track r with
  | Some status, Some (tp, tg) =>
      match resolve_track ix tp tg with
      | Ok target =>
          match derive_release status target tg with
          | Ok rk => Ok (ReleaseKind_as_wire rk, pair_text tp tg)
          | Err e => Err (Undetermined e)
          end
      | Err e => Err (Unresolved e)
      end
  | _, _ => Err NoTrack
  end.

(** One turn of the loop: what is pushed on the entries and on the diagnostics. *)
Definition derived_entry (ix : StructureIndex) (opts : ExportOptions)
    (project_filter : option ustr) (note : ustr * ustr)
    : option FeatureEntry * option DerivationDiagnostic :=
  let body := note.1 in
  let r := roles_of body in
  if negb (in_scope project_filter r) then (None, None)
  else match r_feature r with
       | None => (None, None)
       | Some feature_id =>
           let keep release version :=
             if exported opts r release then Some (entry_of r feature_id release version note.2)
             else None in
           match derivation ix r with
           | Ok (release, vraw) => (keep release (map_version_raw vraw), None)
           | Err reason0 =>
               let reason := fence_aware_reason body (scan_structural_targets body) reason0 in
               let stored := ReleaseKind_as_wire <$> r_release r in
               (match stored with
                | Some release => keep release (version_axis r ≫= map_version_raw)
                | None => None
                end, Some (mkDiagnostic feature_id stored reason))
           end
       end.

(** The [Debug] text of a reason; the texts inside are identifiers, never escaped. *)
Definition quoted (s : ustr) : ustr := [34%N] ++ s ++ [34%N].
Definition StatusKind_debug (s : StatusKind) : ustr :=
  lit match s with
      | StatusBrainstorming => "Brainstorming"
      | StatusOpen => "Open"
      | StatusInProgress => "InProgress"
      | StatusBlocked => "Blocked"
      | StatusDone => "Done"
      | StatusObsolete => "Obsolete"
      end.
Definition reason_debug (r : DerivationFallbackReason) : ustr :=
  match r with
  | NoTrack => lit "NoTrack"
  | Unresolved (TargetNotFound i) =>
      lit "Unresolved(TargetNotFound { identity: " ++ quoted i ++ lit " })"
  | Unresolved (PorteuseNotFound r p) =>
      lit "Unresolved(PorteuseNotFound { roadmap: " ++ quoted r ++ lit ", porteuse: " ++ quoted p
      ++ lit " })"
  | Undetermined (UndeterminedRoadmapStatus s) =>
      lit "Undetermined(UndeterminedRoadmapStatus(" ++ StatusKind_debug s ++ lit "))"
  | UnterminatedCodeFence => lit "UnterminatedCodeFence"
  end.

(** The sort key of a diagnostic, compared component by component; [None] before [Some]. *)
Definition option_le (a b : option ustr) : bool :=
  match a, b with
  | None, _ => true
  | Some _, None => false
  | Some x, Some y => ustr_le x y
  end.
Definition diagnostic_le (a b : DerivationDiagnostic) : bool :=
  let ka := feature_sort_key (dd_feature a) in
  let kb := feature_sort_key (dd_feature b) in
  (ka <? kb)%N
  || (ka =? kb)%N
     && (if decide (dd_feature a = dd_feature b) then
           if decide (dd_stored a = dd_stored b)
           then ustr_le (reason_debug (dd_reason a)) (reason_debug (dd_reason b))
           else option_le (dd_stored a) (dd_stored b)
         else ustr_le (dd_feature a) (dd_feature b)).

Definition project_map_feature_entries_derived_scoped (notes : list (ustr * ustr))
    (opts : ExportOptions) (project_filter : option ustr) : DerivedExport :=
  let ix := from_notes notes in
  let turns := derived_entry ix opts project_filter <$> notes in
  mkExport (sort_by_feature (omap fst turns))
           (merge_sort (λ a b, diagnostic_le a b) (omap snd turns)).

(** ** The listing of cards *)

Record ProjectMapCardEntry := mkCardEntry {
  ce_id : ustr;
  ce_feature : option ustr;
  ce_status : option ustr;
  ce_kind : option ustr;
  ce_release : option ustr;
  ce_version : option ustr;
  ce_visibility : option ustr;
  ce_title : ustr;
  ce_supersedes : list ustr;
  ce_parent : list ustr;
  ce_track : option ustr;
}.

Definition normalize_version_query (v : ustr) : ustr :=
  match strip_prefix (lit "v") v with
  | Some (c :: rest) => if is_digit c then c :: rest else v
  | _ => v
  end.

Definition card_is_structure (r : card_roles) : bool :=
  match r_kind r with Some k => is_structure k | None => false end.
Definition card_target (r : card_roles) : option (ustr * ustr) :=
  if card_is_structure r then r_version r else r_track r.

Definition card_release (ix : StructureIndex) (r : card_roles) : option ustr :=
  if card_is_structure r then None
  else match r_status r, r_track r with
       | Some st, Some (tp, tg) =>
           match resolve_track ix tp tg with
           | Ok target =>
               match derive_release st target tg with
               | Ok rk => Some (ReleaseKind_as_wire rk)
               | Err _ => None
               end
           | Err _ => None
           end
       | _, _ => None
       end.

Definition card_entry (ix : StructureIndex) (want_version project_filter : option ustr)
    (note : ustr * ustr * ustr) : option ProjectMapCardEntry :=
  let '(id, body, title) := note in
  let r := roles_of body in
  if negb (unless_null project_filter (λ want, bool_decide (r_project r = Some want))) then None
  else if negb (unless_null want_version (λ want, bool_decide (snd <$> card_target r = Some want)))
  then None
  else Some (mkCardEntry id (r_feature r) (StatusKind_as_wire <$> r_status r)
               (KindKind_as_wire <$> r_kind r) (card_release ix r)
               (card_target r ≫= λ pt, map_version_raw (pair_of pt))
               (VisibilityKind_as_wire <$> r_visibility r) title (r_supersedes r) (r_parent r)
               (pair_of <$> r_track r)).

Definition card_key (e : ProjectMapCardEntry) : N :=
  match ce_feature e with Some f => feature_sort_key f | None => 0%N end.
Definition card_le (a b : ProjectMapCardEntry) : bool :=
  (card_key a <? card_key b)%N || (card_key a =? card_key b)%N && ustr_le (ce_id a) (ce_id b).

Definition project_map_card_index (notes : list (ustr * ustr * ustr))
    (version_filter project_filter : option ustr) : list ProjectMapCardEntry :=
  let ix := from_bodies ((λ n, n.1.2) <$> notes) in
  let want_version := normalize_version_query <$> version_filter in
  merge_sort (λ a b, card_le a b) (omap (card_entry ix want_version project_filter) notes).
End exports.

(** ** Lemmas on the roles of a card *)

Lemma keep_roles_spec links :
  let r := foldl keep_role no_roles links in
  r_kind r = last (kinds_of links) ∧ r_status r = last (statuses_of links)
  ∧ r_version r = last (versions_of links) ∧ r_porteuse r = last (porteuses_of links)
  ∧ r_feature r = last (features_of links) ∧ r_release r = last (releases_of links)
  ∧ r_project r = last (projects_of links) ∧ r_track r = last (tracks_of links)
  ∧ r_visibility r = last (visibilities_of links).
Proof.
  unfold projects_of, statuses_of, kinds_of, versions_of, features_of, releases_of, tracks_of,
    visibilities_of, porteuses_of.
  induction links as [|l links IH] using rev_ind; [done|].
  cbn zeta in *. rewrite foldl_snoc, !omap_app.
  destruct (foldl keep_role no_roles links) as [k s v po f re p t vi su pa].
  cbn in IH. destruct IH as (-> & -> & -> & -> & -> & -> & -> & -> & ->).
  destruct l; cbn; rewrite ?app_nil_r, ?last_snoc; done.
Qed.

(** ** Resolving a track *)

Section resolution.
Context {UP : UlidParser}.

(** The last card of the corpus with that identity wins. *)
Lemma from_bodies_lookup bodies id :
  from_bodies bodies !! id
  = last (omap (λ b, match index_entry b with
                     | Some (i, facts) => if decide (i = id) then Some facts else None
                     | None => None
                     end) bodies).
Proof.
  unfold from_bodies. induction bodies as [|b bodies IH] using rev_ind; [done|].
  rewrite foldl_snoc, omap_app. unfold index_body at 1. cbn [omap list_omap].
  destruct (index_entry b) as [[i facts]|]; [|by rewrite app_nil_r].
  destruct (decide (i = id)) as [->|Hn].
  - by rewrite lookup_insert_eq, last_snoc.
  - by rewrite lookup_insert_ne, app_nil_r.
Qed.

Lemma from_bodies_structure bodies id facts :
  from_bodies bodies !! id = Some facts →
  is_structure (sf_kind facts) = true
  ∧ ∃ b, b ∈ bodies ∧ index_entry b = Some (id, facts).
Proof.
  rewrite from_bodies_lookup. intros Hl%last_Some_elem_of.
  apply list_elem_of_omap in Hl as (b & Hb & E).
  destruct (index_entry b) as [[i f]|] eqn:Ei; [|done]. case_decide; [|done]. simplify_eq.
  split; [|eauto]. unfold index_entry in Ei.
  by repeat case_match; simplify_eq.
Qed.

(** The target a track stands for, given the facts of the card it names. *)
Definition target_of (ix : StructureIndex) (facts : StructureFacts) : option TrackTarget :=
  match sf_kind facts, sf_status facts, sf_porteuse facts with
  | KindRoadmap, StatusObsolete, Some carrier =>
      (λ c, TargetRoadmap StatusObsolete (Some (sf_status c))) <$> ix !! carrier
  | KindRoadmap, s, _ => Some (TargetRoadmap s None)
  | _, _, _ => Some TargetBacklog
  end.

Lemma resolve_track_iff bodies p t target (ix := from_bodies bodies) :
  resolve_track ix p t = Ok target
  ↔ ∃ facts, ix !! pair_text p t = Some facts ∧ target_of ix facts = Some target.
Proof.
  unfold resolve_track, target_of. destruct (ix !! pair_text p t) as [facts|] eqn:E.
  - apply from_bodies_structure in E as [Hs _]. destruct facts as [k s po]. cbn in Hs.
    transitivity (target_of ix (mkFacts k s po) = Some target); unfold target_of;
      cbn [sf_kind sf_status sf_porteuse].
    + destruct k; try done; [|split; congruence].
      destruct s, po as [carrier|]; try (split; congruence).
      destruct (ix !! carrier); cbn; split; congruence.
    + split; [intros H; by eexists|by intros (? & [= <-] & ?)].
  - split; [done|]. by intros (? & ? & _).
Qed.

Lemma derivation_Ok ix r release version :
  derivation ix r = Ok (release, version) ↔
  ∃ s p t target, r_status r = Some s ∧ r_track r = Some (p, t) ∧ resolve_track ix p t = Ok target
    ∧ release = ReleaseKind_as_wire
                  (if is_sentinel_track_version t then ReleaseDropped else release_bucket s target)
    ∧ version = pair_text p t.
Proof.
  unfold derivation. split.
  - destruct (r_status r) as [s|]; [|done]. destruct (r_track r) as [[p t]|]; [|done].
    destruct (resolve_track ix p t) as [target|] eqn:E; [|done].
    rewrite derive_release_table. intros [= <- <-]. by exists s, p, t, target.
  - intros (s & p & t & target & -> & -> & -> & -> & ->). by rewrite derive_release_table.
Qed.
End resolution.

#[export] Instance entry_le_total : Total (λ a b, entry_le a b).
Proof. intros a b. unfold entry_le. rewrite !Is_true_true, !N.leb_le. lia. Qed.
#[export] Instance card_le_total : Total (λ a b, card_le a b).
Proof.
  intros a b. unfold card_le. rewrite !Is_true_true. pose proof (ustr_le_total (ce_id a) (ce_id b)) as Hu.
  destruct (N.ltb_spec (card_key a) (card_key b)), (N.ltb_spec (card_key b) (card_key a)),
    (N.eqb_spec (card_key a) (card_key b)), (N.eqb_spec (card_key b) (card_key a));
    cbn; auto; lia.
Qed.

Section properties.
Context {UP : UlidParser}.

(** A numbered work card of the wanted project. *)
Definition is_feature_card (pf : option ustr) (note : ustr * ustr) : bool :=
  in_scope pf (roles_of note.1) && bool_decide (r_feature (roles_of note.1) ≠ None).

(** What a card contributes to the derived export. *)
Lemma derived_entry_spec ix opts pf note (r := roles_of note.1) :
  derived_entry ix opts pf note
  = if is_feature_card pf note then
      match r_feature r, derivation ix r with
      | Some f, Ok (release, vraw) =>
          (if exported opts r release
           then Some (entry_of r f release (map_version_raw vraw) note.2) else None, None)
      | Some f, Err reason =>
          (match r_release r with
           | Some rk =>
               if exported opts r (ReleaseKind_as_wire rk)
               then Some (entry_of r f (ReleaseKind_as_wire rk) (version_axis r ≫= map_version_raw) note.2)
               else None
           | None => None
           end,
           Some (mkDiagnostic f (ReleaseKind_as_wire <$> r_release r)
                   (fence_aware_reason note.1 (scan_structural_targets note.1) reason)))
      | None, _ => (None, None)
      end
    else (None, None).
Proof.
  unfold derived_entry, is_feature_card. fold r. destruct (in_scope pf r); cbn [negb andb]; [|done].
  destruct (r_feature r) as [f|]; [|done]. rewrite bool_decide_eq_true_2 by done.
  destruct (derivation ix r) as [[release vraw]|reason]; [done|].
  by destruct (r_release r).
Qed.

Lemma entries_elem notes opts pf e :
  e ∈ entries (project_map_feature_entries_derived_scoped notes opts pf)
  ↔ ∃ note, note ∈ notes ∧ (derived_entry (from_notes notes) opts pf note).1 = Some e.
Proof.
  cbn [entries project_map_feature_entries_derived_scoped]. unfold sort_by_feature.
  rewrite merge_sort_Permutation, list_elem_of_omap. setoid_rewrite list_elem_of_fmap.
  split.
  - intros (x & (note & -> & Hin) & E). eauto.
  - intros (note & Hin & E). eauto.
Qed.

Lemma diagnostics_elem notes opts pf d :
  d ∈ diagnostics (project_map_feature_entries_derived_scoped notes opts pf)
  ↔ ∃ note, note ∈ notes ∧ (derived_entry (from_notes notes) opts pf note).2 = Some d.
Proof.
  cbn [diagnostics project_map_feature_entries_derived_scoped].
  rewrite merge_sort_Permutation, list_elem_of_omap. setoid_rewrite list_elem_of_fmap.
  split.
  - intros (x & (note & -> & Hin) & E). eauto.
  - intros (note & Hin & E). eauto.
Qed.

(** In the audit mode a card is listed, or reported as skipped. *)
Lemma audit_one ix pf note (p := derived_entry ix (mkOptions true) pf note) :
  length (option_list p.1)
  + length (filter (λ d, dd_stored d = None) (option_list p.2))
  = if is_feature_card pf note then 1 else 0.
Proof.
  subst p. rewrite derived_entry_spec. destruct (is_feature_card pf note) eqn:E; [|done].
  apply andb_true_iff in E as [_ Hf%bool_decide_eq_true].
  destruct (r_feature (roles_of note.1)) as [f|]; [|done].
  destruct (derivation ix (roles_of note.1)) as [[release vraw]|reason]; [done|].
  by destruct (r_release (roles_of note.1)).
Qed.

Lemma omap_option_list {A B} (f : A → option B) l : omap f l = l ≫= option_list ∘ f.
Proof. induction l as [|a l IH]; [done|]. cbn. rewrite IH. by destruct (f a). Qed.

Lemma audit_total notes pf (out := project_map_feature_entries_derived_scoped notes (mkOptions true) pf) :
  length (entries out) + length (filter (λ d, dd_stored d = None) (diagnostics out))
  = length (filter (λ n, is_feature_card pf n = true) notes).
Proof.
  subst out. cbn [entries diagnostics project_map_feature_entries_derived_scoped].
  unfold sort_by_feature. rewrite !merge_sort_Permutation. generalize (from_notes notes) as ix. intros ix.
  rewrite !omap_option_list. induction notes as [|note notes IH]; [done|].
  cbn [fmap list_fmap mbind list_bind]. rewrite filter_app, !length_app.
  pose proof (audit_one ix pf note) as H1. cbn zeta in H1.
  destruct (is_feature_card pf note) eqn:E;
    [rewrite filter_cons_True by done|rewrite filter_cons_False by (by rewrite E)];
    cbn [compose length] in *; lia.
Qed.

(** The release of a card of status [s] tracking [target], whose version is [t]. *)
Definition derived_release (s : StatusKind) (target : TrackTarget) (t : ustr) : ustr :=
  ReleaseKind_as_wire (if is_sentinel_track_version t then ReleaseDropped else release_bucket s target).

Lemma exported_public opts r release :
  exported opts r release = true → include_dropped opts = false →
  release ≠ lit "dropped" ∧ r_kind r = Some KindFeature ∧ r_visibility r ≠ Some VisibilityInterne.
Proof.
  unfold exported. intros He Ho. rewrite Ho in He. cbn in He. apply andb_true_iff in He as [[H1 H2]%andb_true_iff H3].
  apply negb_true_iff, bool_decide_eq_false in H1, H3. by apply bool_decide_eq_true in H2.
Qed.

Lemma entry_source ix opts pf note e (r := roles_of note.1) :
  (derived_entry ix opts pf note).1 = Some e →
  is_feature_card pf note = true ∧ r_feature r = Some (fe_feature e) ∧ fe_title e = note.2
  ∧ exported opts r (fe_release e) = true.
Proof.
  rewrite derived_entry_spec. fold r. destruct (is_feature_card pf note); [|done].
  destruct (r_feature r) as [f|]; [|done].
  destruct (derivation ix r) as [[release vraw]|reason]; cbn [fst].
  - destruct (exported opts r release) eqn:E; [|done]. by intros [= <-].
  - destruct (r_release r) as [rk|]; [|done].
    destruct (exported opts r (ReleaseKind_as_wire rk)) eqn:E; [|done]. by intros [= <-].
Qed.

(** The derived export of a corpus.  Its entries are sorted by feature number; each comes
    from a numbered work card of the wanted project, and outside the audit mode from a
    FEATURE card that is neither internal nor dropped.  A card whose track resolves is
    listed with the release its own status and the tracked structure give it, and with
    the tracked version.  A card that cannot be derived is reported.  In the audit mode
    no card is lost: each is listed, or reported as skipped. *)
Theorem derived_export_exact notes opts pf
    (out := project_map_feature_entries_derived_scoped notes opts pf) (ix := from_notes notes) :
  Sorted (λ a b, entry_le a b) (entries out)
  ∧ (∀ e, e ∈ entries out → ∃ note, note ∈ notes ∧ is_feature_card pf note = true
       ∧ r_feature (roles_of note.1) = Some (fe_feature e) ∧ fe_title e = note.2
       ∧ (include_dropped opts = false →
          fe_release e ≠ lit "dropped" ∧ r_kind (roles_of note.1) = Some KindFeature
          ∧ r_visibility (roles_of note.1) ≠ Some VisibilityInterne))
  ∧ (∀ note f s p t target (r := roles_of note.1),
       note ∈ notes → is_feature_card pf note = true → r_feature r = Some f →
       r_status r = Some s → r_track r = Some (p, t) → resolve_track ix p t = Ok target →
       exported opts r (derived_release s target t) = true →
       entry_of r f (derived_release s target t) (map_version_raw (pair_text p t)) note.2 ∈ entries out)
  ∧ (∀ note f reason (r := roles_of note.1),
       note ∈ notes → is_feature_card pf note = true → r_feature r = Some f →
       derivation ix r = Err reason →
       ∃ d, d ∈ diagnostics out ∧ dd_feature d = f
            ∧ dd_stored d = ReleaseKind_as_wire <$> r_release r)
  ∧ (include_dropped opts = true →
     length (entries out) + length (filter (λ d, dd_stored d = None) (diagnostics out))
     = length (filter (λ n, is_feature_card pf n = true) notes)).
Proof.
  split_and!.
  - subst out. apply (Sorted_merge_sort _).
  - intros e (note & Hin & E)%entries_elem. apply entry_source in E as (Hf & Hid & Ht & He).
    exists note. split_and!; try done. by apply exported_public.
  - intros note f s p t target r Hin Hc Hf Hs Ht Hres Hex. apply entries_elem.
    exists note. split; [done|]. rewrite derived_entry_spec, Hc. fold r. rewrite Hf.
    assert (derivation ix r = Ok (derived_release s target t, pair_text p t)) as Hd.
    { apply derivation_Ok. by exists s, p, t, target. }
    subst ix. rewrite Hd, Hex. done.
  - intros note f reason r Hin Hc Hf Hd. eexists. split.
    + apply diagnostics_elem. exists note. split; [done|].
      rewrite derived_entry_spec, Hc. fold r. subst ix. rewrite Hf, Hd. cbn. done.
    + done.
  - intros Ho. destruct opts as [b]. cbn in Ho. subst b. apply audit_total.
Qed.

(** The version column of a validated card. *)
Lemma map_version_raw_pair p t :
  ident_ok p = true →
  map_version_raw (pair_text p t)
  = Some (if bool_decide (t = lit "backlog") then lit "vX.Y.Z" else lit "v" ++ t).
Proof.
  intros Hp. unfold map_version_raw, pair_text.
  rewrite (proj2 (split_once_char SLASH _ p t)) by (split; [done|by eapply ident_no_char]).
  by case_bool_decide.
Qed.

Lemma head_last {A} (l : list A) : length l ≤ 1 → head l = last l.
Proof. destruct l as [|x [|]]; cbn; [done|done|lia]. Qed.

Lemma card_ok_single links :
  card_ok links → length (tracks_of links) ≤ 1 ∧ length (versions_of links) ≤ 1.
Proof.
  intros (p & k & _ & _ & _ & Hv & _ & Hk). split; [|done].
  destruct (is_structure k); destruct Hk as [Ht _]; [rewrite Ht; cbn; lia|done].
Qed.

Lemma pair_link_ident body p t :
  (p, t) ∈ tracks_of (links_of_body body) ∨ (p, t) ∈ versions_of (links_of_body body) →
  ident_ok p = true.
Proof.
  intros [Hin|Hin]; apply list_elem_of_omap in Hin as (l & Hl & E);
    apply list_elem_of_omap in Hl as (x & _ & [Hwf _]%link_of_iff);
    destruct l; try done; simplify_eq; by destruct Hwf as [[_ ?] _].
Qed.

(** The version column and the title of a card agree: on a validated card the exported
    version is the one the canonical title shows, and where the title shows none the
    column is the backlog marker or empty. *)
Theorem export_version_matches_title body (links := links_of_body body) (r := roles_of body) :
  validate_card_body body = Ok tt →
  match title_version links with
  | Some v => version_axis r ≫= map_version_raw = Some (lit "v" ++ v)
  | None => version_axis r ≫= map_version_raw
            = (if bool_decide (version_axis r = None) then None else Some (lit "vX.Y.Z"))
  end.
Proof.
  intros Hv. assert (card_ok links) as Hok.
  { unfold validate_card_body in Hv. destruct (collect_links _) as [ls|] eqn:Ec; [|done].
    apply collect_links_Ok in Ec as [-> _]. by apply validate_links_Ok. }
  destruct (card_ok_single links Hok) as [Ht Hvs].
  pose proof (keep_roles_spec links) as Hk. cbn zeta in Hk.
  change (foldl keep_role no_roles links) with r in Hk.
  destruct Hk as (_ & _ & Hver & _ & _ & _ & _ & Htr & _). unfold version_axis, title_version. rewrite Hver, Htr.
  rewrite <-!head_last by done.
  assert (∀ p t, head (tracks_of links) = Some (p, t) ∨ head (versions_of links) = Some (p, t) →
    map_version_raw (pair_text p t)
    = Some (if bool_decide (t = lit "backlog") then lit "vX.Y.Z" else lit "v" ++ t)) as Hmap.
  { intros p t Hpt. apply map_version_raw_pair. apply (pair_link_ident body p t).
    destruct Hpt as [E|E]; apply head_Some_elem_of in E; [by left|by right]. }
  destruct (head (tracks_of links)) as [[p t]|].
  - cbn [mbind option_bind fmap option_fmap option_map snd]. unfold pair_of. cbn [fst snd].
    rewrite Hmap by auto. by case_bool_decide.
  - destruct (head (versions_of links)) as [[p t]|]; [|done].
    cbn [mbind option_bind fmap option_fmap option_map snd]. unfold pair_of. cbn [fst snd].
    rewrite Hmap by auto. by case_bool_decide.
Qed.

(** The listing of cards without filters holds every card of the corpus exactly once,
    structure cards first and then by feature number and identifier; a version filter
    keeps exactly the cards attached to that version, with or without its leading v. *)
Theorem card_index_complete notes (ids := λ l : list ProjectMapCardEntry, ce_id <$> l) :
  Sorted (λ a b, card_le a b) (project_map_card_index notes None None)
  ∧ ids (project_map_card_index notes None None) ≡ₚ (λ n, n.1.1) <$> notes
  ∧ (∀ v, ids (project_map_card_index notes (Some v) None)
          ≡ₚ (λ n, n.1.1) <$> filter (λ n, snd <$> card_target (roles_of n.1.2)
                                         = Some (normalize_version_query v)) notes)
  ∧ (∀ c v, is_digit c = true →
       project_map_card_index notes (Some (lit "v" ++ c :: v)) None
       = project_map_card_index notes (Some (c :: v)) None).
Proof.
  unfold project_map_card_index. generalize (from_bodies ((λ n, n.1.2) <$> notes)) as ix. intros ix.
  subst ids. cbn beta. split_and!.
  - apply (Sorted_merge_sort _).
  - rewrite merge_sort_Permutation. induction notes as [|[[id body] title] notes IH]; [done|].
    cbn [omap list_omap card_entry negb unless_null fmap option_fmap option_map list_fmap ce_id fst snd].
    by rewrite IH.
  - intros v. rewrite merge_sort_Permutation. induction notes as [|[[id body] title] notes IH]; [done|].
    cbn [omap list_omap card_entry negb unless_null fmap option_fmap option_map].
    case_bool_decide as E; cbn [negb].
    + rewrite filter_cons_True by done. cbn. by rewrite IH.
    + rewrite filter_cons_False by done. done.
  - intros c v Hc. cbn [fmap option_fmap option_map]. unfold normalize_version_query at 1.
    rewrite strip_prefix_app, Hc.
    assert (normalize_version_query (c :: v) = c :: v) as ->; [|done].
    unfold normalize_version_query. destruct (strip_prefix (lit "v") (c :: v)) as [w|] eqn:E; [|done].
    apply strip_prefix_Some in E. injection E as -> _. done.
Qed.
End properties.

(** ** Witness *)

Lemma export_version_matches_title_witness :
  validate_card_body (UP := λ _, false) work_body = Ok tt
  ∧ version_axis (roles_of (UP := λ _, false) work_body) ≫= map_version_raw = Some (lit "v2.2.0").
Proof.
  assert (validate_card_body (UP := λ _, false) work_body = Ok tt) as Hok
    by (vm_compute; reflexivity).
  split; [exact Hok|].
  pose proof (export_version_matches_title (UP := λ _, false) work_body Hok) as H.
  vm_compute in H. vm_compute. exact H.
Defined.
