(* ===== verification/ProjectServer.v ===== *)
(** * ProjectServer: numbers and tracks of project-map cards, on the server

    How the server writes project-map cards: the wikilink extractor of
    [crates/gradatum-curator/src/wikilinks.rs] (one regular expression, matched left to
    right), the paged listing of notes and the allocation of feature numbers
    ([crates/gradatum-index/src/sqlite.rs]), the resolution of a track against the index
    and the creation of a feature card ([crates/gradatum-server/src/api_v1/logic.rs]).  The
    guards of the request are those of [TenantGuard]; auditing is left out. *)

From S2P Require Import Prelude Text ProjectLinks ProjectBody ProjectScan.

#[local] Open Scope nat_scope.

(** ** Wikilinks *)

Section wikilinks.
Fixpoint span_while (p : uchar → bool) (s : ustr) : ustr * ustr :=
  match s with
  | c :: s' => if p c then let '(a, b) := span_while p s' in (c :: a, b) else ([], s)
  | [] => ([], [])
  end.

(** One match of the pattern at the start of the text: the target, and what follows.
    Neither class holds a closing bracket, so no shorter repetition can match. *)
Definition match_wikilink (s : ustr) : option (ustr * ustr) :=
  match strip_prefix OPENING s with
  | None => None
  | Some s1 =>
      let '(target, s2) := span_while (λ c, negb (c =? RB)%N && negb (c =? 124)%N) s1 in
      if bool_decide (target = []) then None
      else match strip_prefix CLOSING s2, s2 with
           | Some r, _ => Some (target, r)
           | None, 124%N :: s3 =>
               let '(alias, s4) := span_while (λ c, negb (c =? RB)%N) s3 in
               if bool_decide (alias = []) then None
               else match strip_prefix CLOSING s4 with
                    | Some r => Some (target, r)
                    | None => None
                    end
           | _, _ => None
           end
  end.

(** [captures_iter]: leftmost matches that do not overlap. *)
Fixpoint wikilinks_loop (fuel : nat) (s : ustr) : list ustr :=
  match fuel, s with
  | S fuel', _ :: s' =>
      match match_wikilink s with
      | Some (target, rest) => trim target :: wikilinks_loop fuel' rest
      | None => wikilinks_loop fuel' s'
      end
  | _, _ => []
  end.
Definition extract_wikilinks (body : ustr) : list ustr := wikilinks_loop (length body) body.
End wikilinks.

(** ** The tables *)

(** The columns of a note that these operations read. *)
Record note_row := mkNote {
  n_id : ustr;
  n_vault : ustr;
  n_section : ustr;
  n_status : ustr;
  n_role_kind : option ustr;
  n_role_status : option ustr;
  n_body : ustr;
}.
#[export] Instance note_row_eq_dec : EqDecision note_row.
Proof. solve_decision. Defined.
Record index_db := mkDb { db_notes : list note_row; db_counters : gmap ustr N }.

(** [id LIKE '__sentinel__%']: an underscore stands for any character, and [LIKE] ignores
    the case of ASCII letters. *)
Definition is_sentinel (id : ustr) : bool :=
  bool_decide (ascii_lower <$> take 8 (drop 2 id) = lit "sentinel") && (12 <=? length id).

Definition by_id (a b : note_row) : bool := ustr_le (n_id a) (n_id b).

(** The [WHERE] clause of [list_notes_filtered] without the cursor. *)
Definition listed (vault : ustr) (section kind status : option ustr) (n : note_row) : bool :=
  bool_decide (n_vault n = vault)
  && unless_null section (λ s, bool_decide (n_section n = s))
  && negb (is_sentinel (n_id n)) && negb (bool_decide (n_status n = lit "downgraded"))
  && unless_null kind (λ k, bool_decide (n_role_kind n = Some k))
  && unless_null status (λ s, bool_decide (n_role_status n = Some s)).

Definition list_notes_filtered (db : index_db) (vault : ustr) (section kind status : option ustr)
    (limit : nat) (cursor : option ustr) : list note_row * nat :=
  let rows := filter (λ n, listed vault section kind status n = true) (db_notes db) in
  let limit_clamped := Nat.min (Nat.max limit 1) 200 in
  let cursor_val := default [] cursor in
  let page := filter (λ n, bool_decide (cursor_val = []) || ustr_lt cursor_val (n_id n) = true) rows in
  (take limit_clamped (merge_sort (λ a b, by_id a b) page), length rows).

(** ** Resolving a track *)

Section tracks.
Context {UP : UlidParser}.

Definition wikilinks_of (body : ustr) : list ProjectMapLink := omap link_of (extract_wikilinks body).

Definition card_carries_version (body want : ustr) : bool :=
  existsb (λ l, match l with
                | LinkVersion project version => bool_decide (pair_text project version = want)
                | _ => false
                end) (wikilinks_of body).
Definition card_carries_track (body want : ustr) : bool :=
  existsb (λ l, match l with
                | LinkTrack project target => bool_decide (pair_text project target = want)
                | _ => false
                end) (wikilinks_of body).

Definition PAGE : nat := 200.

(** The loop over pages of 200: is there a card whose body passes the test? *)
Fixpoint scan_pages (fuel : nat) (db : index_db) (vault : ustr) (kind : option ustr)
    (test : ustr → bool) (cursor : option ustr) : option bool :=
  match fuel with
  | 0 => None
  | S fuel' =>
      let '(recs, _) := list_notes_filtered db vault (Some (lit "project-map")) kind None PAGE cursor in
      if existsb (λ r, test (n_body r)) recs then Some true
      else if length recs <? PAGE then Some false
      else scan_pages fuel' db vault kind test (n_id <$> last recs)
  end.

Definition page_fuel (db : index_db) : nat := S (length (db_notes db)).

Definition is_structure_target (db : index_db) (tenant want : ustr) : option bool :=
  match scan_pages (page_fuel db) db tenant (Some (lit "ROADMAP"))
          (λ b, card_carries_version b want) None with
  | None => None
  | Some true => Some true
  | Some false =>
      scan_pages (page_fuel db) db tenant (Some (lit "BACKLOG"))
        (λ b, card_carries_version b want) None
  end.

Inductive TrackResolution := TrackStructure | TrackWorkCardOnly | TrackNotFound.

Definition resolve_track_target (db : index_db) (tenant want : ustr) : option TrackResolution :=
  match is_structure_target db tenant want with
  | None => None
  | Some true => Some TrackStructure
  | Some false =>
      match scan_pages (page_fuel db) db tenant None (λ b, card_carries_version b want) None with
      | None => None
      | Some true => Some TrackWorkCardOnly
      | Some false => Some TrackNotFound
      end
  end.

Definition structure_card_identity (body : ustr) : option (ustr * ustr) :=
  let links := wikilinks_of body in
  if existsb (λ l, match l with LinkKind k => is_structure k | _ => false end) links
  then head (versions_of links)
  else None.

Definition structure_has_children (db : index_db) (tenant want : ustr) : option bool :=
  scan_pages (page_fuel db) db tenant None (λ b, card_carries_track b want) None.

Inductive track_refusal :=
| TrackProjectMismatch (track_project : ustr) (card_project : option ustr)
| TrackNotStructure (want : ustr)
| TrackTargetNotFound (want : ustr).

(** Checks (a) and (b) on a track the client supplied. *)
Definition enforce_explicit_track (db : index_db) (tenant : ustr) (targets : list ustr)
    : option (result unit track_refusal) :=
  let links := omap link_of targets in
  let card_project := head (projects_of links) in
  match head (tracks_of links) with
  | None => Some (Ok tt)
  | Some (tp, tg) =>
      if negb (bool_decide (card_project = Some tp))
      then Some (Err (TrackProjectMismatch tp card_project))
      else
        let want := pair_text tp tg in
        r ← resolve_track_target db tenant want;
        Some match r with
             | TrackStructure => Ok tt
             | TrackWorkCardOnly => Err (TrackNotStructure want)
             | TrackNotFound => Err (TrackTargetNotFound want)
             end
  end.

(** ** Allocating a number *)

Inductive alloc_error := AllocOverflow (next : N).

Definition is_card (vault : ustr) (n : note_row) : bool :=
  bool_decide (n_vault n = vault) && bool_decide (n_section n = lit "project-map")
  && negb (is_sentinel (n_id n)).

(** The highest number the cards reference. *)
Definition derived_max (db : index_db) (vault : ustr) : N :=
  foldl (λ max_seen body,
           match max_feature_number body with
           | Some n => if (max_seen <? n)%N then n else max_seen
           | None => max_seen
           end) 0%N (n_body <$> filter (λ n, is_card vault n = true) (db_notes db)).

(** The counter is written before the number is checked to fit a [u32]. *)
Definition allocate_feature_number (db : index_db) (vault : ustr)
    : result N alloc_error * index_db :=
  let counter := default 0%N (db_counters db !! vault) in
  let next := (N.max counter (derived_max db vault) + 1)%N in
  let db' := mkDb (db_notes db) (<[vault := next]> (db_counters db)) in
  (if (next <? 2 ^ 32)%N then Ok next else Err (AllocOverflow next), db').

(** [format!("F-{number:02}")]. *)
Fixpoint decimal_rev (fuel : nat) (n : N) : ustr :=
  match fuel with
  | 0 => []
  | S fuel' =>
      (48 + n mod 10)%N :: (if (n <? 10)%N then [] else decimal_rev fuel' (n / 10)%N)
  end.
Definition decimal (n : N) : ustr := reverse (decimal_rev 10 n).
Definition format_feature (n : N) : ustr :=
  let d := decimal n in
  lit "F-" ++ (if length d <? 2 then 48%N :: d else d).

(** ** Creating a feature card *)

Inductive create_error :=
| BodyCarriesFeature
| CreateSchema (e : SchemaError)
| CreateAlloc (e : alloc_error).

Definition carries_feature_link (body : ustr) : bool :=
  existsb (λ t, str_starts_with (lit "feature:") (trim_start t)) (extract_wikilinks body).

(** Steps (2) to (5): refuse a client's number, pre-validate with a synthetic one, allocate,
    inject.  The result is the feature, its number and the body handed to the write path. *)
Definition create_feature_card (db : index_db) (vault body : ustr)
    : result (ustr * N * ustr) create_error * index_db :=
  if carries_feature_link body then (Err BodyCarriesFeature, db)
  else match validate_card_body (inject_role body (lit "feature:F-00")) with
       | Err e => (Err (CreateSchema e), db)
       | Ok _ =>
           let '(r, db') := allocate_feature_number db vault in
           match r with
           | Err e => (Err (CreateAlloc e), db')
           | Ok number =>
               let feature := format_feature number in
               (Ok (feature, number, inject_role body (lit "feature:" ++ feature)), db')
           end
       end.
End tracks.

(** ** Pages *)

Lemma NoDup_fmap_inj_in {A B} (f : A → B) (l : list A) :
  NoDup (f <$> l) → ∀ a b, a ∈ l → b ∈ l → f a = f b → a = b.
Proof.
  induction l as [|x l IH]; [by intros _ ? ? ?%not_elem_of_nil|].
  rewrite fmap_cons. intros [Hx Hl]%NoDup_cons a b [->|Ha]%elem_of_cons [->|Hb]%elem_of_cons E;
    [done|exfalso; apply Hx; rewrite E; by apply list_elem_of_fmap_2|
     exfalso; apply Hx; rewrite <-E; by apply list_elem_of_fmap_2|by apply IH].
Qed.

Lemma filter_length_lt {A} (P Q : A → Prop) `{∀ x, Decision (P x), ∀ x, Decision (Q x)} (l : list A) x :
  (∀ y, y ∈ l → Q y → P y) → x ∈ l → P x → ¬ Q x → length (filter Q l) < length (filter P l).
Proof.
  intros HQP Hx HP HQ. apply list_elem_of_split in Hx as (l1 & l2 & ->).
  rewrite !filter_app, !length_app, (filter_cons_True P), (filter_cons_False Q) by done. cbn.
  assert (∀ l', (∀ y, y ∈ l' → Q y → P y) → length (filter Q l') ≤ length (filter P l')) as Hle.
  { induction l' as [|z l' IH]; intros Hl; [done|].
    assert (length (filter Q l') ≤ length (filter P l')) by (apply IH; intros; apply Hl; [by right|done]).
    rewrite !filter_cons. repeat case_decide; cbn; try lia.
    exfalso. match goal with H : ¬ P z |- _ => apply H end. apply Hl; [by left|done]. }
  assert (length (filter Q l1) ≤ length (filter P l1)) by (apply Hle; set_solver).
  assert (length (filter Q l2) ≤ length (filter P l2)) by (apply Hle; set_solver). lia.
Qed.

Section pages.
Context (db : index_db) (vault : ustr) (section kind status : option ustr).

Definition rows_listed : list note_row :=
  filter (λ n, listed vault section kind status n = true) (db_notes db).
Definition after (cursor : option ustr) (n : note_row) : bool :=
  bool_decide (default [] cursor = []) || ustr_lt (default [] cursor) (n_id n).
Definition rows_after (cursor : option ustr) : list note_row :=
  filter (λ n, after cursor n = true) rows_listed.

(** Identifiers are unique within a vault, and not empty. *)
Definition ids_ok : Prop :=
  NoDup (n_id <$> filter (λ n, n_vault n = vault) (db_notes db))
  ∧ Forall (λ n, n_id n ≠ []) (db_notes db).

Lemma list_page cursor :
  list_notes_filtered db vault section kind status PAGE cursor
  = (take PAGE (merge_sort (λ a b, by_id a b) (rows_after cursor)), length rows_listed).
Proof. done. Qed.

#[local] Instance by_id_total : Total (λ a b, by_id a b).
Proof. intros a b. unfold by_id. rewrite !Is_true_true. apply ustr_le_total. Qed.
#[local] Instance by_id_trans : Transitive (λ a b, by_id a b).
Proof. intros a b c. unfold by_id. rewrite !Is_true_true. apply ustr_le_trans. Qed.

Lemma same_id_same_row a b :
  ids_ok → a ∈ rows_listed → b ∈ rows_listed → n_id a = n_id b → a = b.
Proof.
  intros [Hnd _] Ha Hb Hid. apply (NoDup_fmap_inj_in n_id _ Hnd); [..|done].
  all: unfold rows_listed in *; rewrite !list_elem_of_filter in *; unfold listed in *.
  all: repeat rewrite andb_true_iff in *; destruct_and!; split; [|done].
  all: by eapply bool_decide_eq_true_1.
Qed.

Lemma rows_after_elem cursor n : n ∈ rows_after cursor ↔ n ∈ rows_listed ∧ after cursor n = true.
Proof. unfold rows_after. rewrite list_elem_of_filter. tauto. Qed.

(** What one page leaves for the next. *)
Lemma next_page cursor recs r :
  ids_ok → recs = take PAGE (merge_sort (λ a b, by_id a b) (rows_after cursor)) →
  last recs = Some r →
  (∀ n, n ∈ rows_after cursor → n ∈ recs ∨ n ∈ rows_after (Some (n_id r)))
  ∧ (∀ n, n ∈ rows_after (Some (n_id r)) → n ∈ rows_after cursor)
  ∧ r ∈ rows_after cursor ∧ r ∉ rows_after (Some (n_id r)).
Proof.
  intros Hids Hrecs Hlast.
  assert (∀ n, n ∈ recs → n ∈ rows_after cursor) as Hsub.
  { intros n Hn. subst recs. rewrite <-(merge_sort_Permutation (λ a b, by_id a b)).
    by eapply subseteq_take. }
  assert (r ∈ recs) as Hr by (by apply last_Some_elem_of).
  assert (n_id r ≠ []) as Hne.
  { destruct Hids as [_ Hall]. rewrite Forall_forall in Hall. apply Hall.
    apply Hsub, rows_after_elem in Hr as [Hr _]. by apply list_elem_of_filter in Hr as [_ ?]. }
  split_and!; [| |by apply Hsub|].
  - intros n Hn. assert (n ∈ merge_sort (λ a b, by_id a b) (rows_after cursor)) as Hs
      by (by rewrite merge_sort_Permutation).
    rewrite <-(take_drop PAGE (merge_sort _ _)), <-Hrecs in Hs. apply elem_of_app in Hs as [Hs|Hs]; [by left|].
    destruct (decide (n = r)) as [->|Hnr]; [by left|right].
    apply rows_after_elem in Hn as [Hl Ha]. apply rows_after_elem. split; [done|].
    unfold after. cbn [default]. apply orb_true_iff. right. apply ustr_lt_iff. split.
    + pose proof (StronglySorted_merge_sort (λ a b, by_id a b) (rows_after cursor)) as HS.
      rewrite <-(take_drop PAGE (merge_sort _ _)), <-Hrecs in HS.
      apply StronglySorted_app_1_elem_of with (x1 := r) (x2 := n) in HS; [|done|done].
      by apply Is_true_true in HS.
    + intros E. apply Hnr. symmetry. apply same_id_same_row; try done.
      apply Hsub, rows_after_elem in Hr. apply Hr.
  - intros n [Hl Ha]%rows_after_elem. apply rows_after_elem. split; [done|].
    apply Hsub, rows_after_elem in Hr as [_ Hr]. unfold after in *. cbn [default] in Ha.
    rewrite (bool_decide_eq_false_2 (n_id r = [])) in Ha by done. cbn [orb] in Ha.
    apply orb_true_iff in Hr as [->|Hr]; [done|]. apply orb_true_iff. right.
    by eapply ustr_lt_trans.
  - intros [_ Ha]%rows_after_elem. unfold after in Ha. cbn [default] in Ha.
    rewrite (bool_decide_eq_false_2 (n_id r = [])) in Ha by done. cbn [orb] in Ha.
    apply ustr_lt_iff in Ha as [_ ?]. done.
Qed.
End pages.

(** The loop over pages ends and answers for the whole listing. *)
Lemma scan_pages_spec db vault kind test fuel cursor :
  ids_ok db vault →
  length (rows_after db vault (Some (lit "project-map")) kind None cursor) < fuel →
  scan_pages fuel db vault kind test cursor
  = Some (existsb (λ n, test (n_body n)) (rows_after db vault (Some (lit "project-map")) kind None cursor)).
Proof.
  intros Hids. revert cursor. induction fuel as [|fuel IH]; intros cursor Hf; [lia|].
  cbn [scan_pages]. rewrite list_page.
  set (rows := rows_after db vault (Some (lit "project-map")) kind None) in *.
  remember (take PAGE (merge_sort (λ a b, by_id a b) (rows cursor))) as recs eqn:Hrecs.
  assert (∀ n, n ∈ recs → n ∈ rows cursor) as Hsub.
  { intros n Hn. subst recs. rewrite <-(merge_sort_Permutation (λ a b, by_id a b)).
    by eapply subseteq_take. }
  destruct (existsb _ recs) eqn:Ex.
  { f_equal. symmetry. apply existsb_exists in Ex as (n & Hn & Ht). apply existsb_exists.
    exists n. split; [|done]. apply list_elem_of_In, Hsub. by apply list_elem_of_In. }
  assert (∀ n, n ∈ recs → test (n_body n) = false) as Hno.
  { intros n Hn. apply not_true_is_false. intros Ht. apply not_true_iff_false in Ex. apply Ex.
    apply existsb_exists. exists n. split; [by apply list_elem_of_In|done]. }
  destruct (Nat.ltb_spec (length recs) PAGE) as [Hlt|Hge].
  - f_equal. symmetry. apply not_true_is_false. intros (n & Hn & Ht)%existsb_exists.
    rewrite Hno in Ht; [done|]. subst recs. rewrite length_take in Hlt.
    rewrite take_ge by lia. rewrite merge_sort_Permutation. by apply list_elem_of_In.
  - destruct (last recs) as [r|] eqn:Hl; [|apply last_None in Hl; rewrite Hl in Hge; cbn in Hge; unfold PAGE in Hge; lia].
    destruct (next_page db vault _ kind None cursor recs r Hids Hrecs Hl) as (H1 & H2 & H3 & H4).
    fold rows in H1, H2, H3, H4. cbn [fmap option_fmap option_map]. rewrite IH.
    + f_equal. apply eq_bool_prop_intro. rewrite !Is_true_true, !existsb_exists. split.
      * intros (n & Hn%list_elem_of_In & Ht). exists n. split; [by apply list_elem_of_In, H2|done].
      * intros (n & Hn%list_elem_of_In & Ht). exists n. split; [|done]. apply list_elem_of_In.
        destruct (H1 n Hn) as [Hin|?]; [|done]. by rewrite Hno in Ht.
    + enough (length (rows (Some (n_id r))) < length (rows cursor)) by lia.
      apply (filter_length_lt _ _ _ r).
      * intros n Hn Ha. assert (n ∈ rows (Some (n_id r))) as Hin by (by apply rows_after_elem).
        apply H2, rows_after_elem in Hin. apply Hin.
      * apply rows_after_elem in H3. apply H3.
      * apply rows_after_elem in H3. apply H3.
      * intros Ha. apply H4, rows_after_elem. split; [|done]. apply rows_after_elem in H3. apply H3.
Qed.

(** The project-map cards a listing by kind shows. *)
Definition visible_cards (db : index_db) (vault : ustr) (kind : option ustr) : list note_row :=
  rows_listed db vault (Some (lit "project-map")) kind None.

Lemma scan_all db vault kind test :
  ids_ok db vault →
  scan_pages (page_fuel db) db vault kind test None
  = Some (existsb (λ n, test (n_body n)) (visible_cards db vault kind)).
Proof.
  intros Hids. rewrite scan_pages_spec; [|done|].
  - do 2 f_equal. unfold rows_after, visible_cards. by apply filter_every.
  - unfold page_fuel, rows_after, rows_listed. apply Nat.lt_succ_r.
    etrans; [apply length_filter|apply length_filter].
Qed.

Section properties.
Context {UP : UlidParser}.

Definition carried (db : index_db) (vault : ustr) (kind : option ustr) (want : ustr) : Prop :=
  ∃ n, n ∈ visible_cards db vault kind ∧ card_carries_version (n_body n) want = true.

Lemma scan_version db vault kind want :
  ids_ok db vault →
  ∃ b, scan_pages (page_fuel db) db vault kind (λ body, card_carries_version body want) None = Some b
       ∧ (b = true ↔ carried db vault kind want).
Proof.
  intros Hids. eexists. split; [by apply scan_all|]. rewrite existsb_exists. unfold carried.
  split; intros (n & Hn & Ht); exists n; (split; [|done]); by apply list_elem_of_In.
Qed.

(** Resolving a track against the index ends, whatever the number of pages, and tells
    exactly the three cases apart: a structure card carries the identity, only other cards
    do, or none does; asking whether a structure card still has children looks at every
    card. *)
Theorem resolve_track_target_exact db vault want :
  ids_ok db vault →
  (∃ r, resolve_track_target db vault want = Some r
    ∧ (r = TrackStructure ↔ carried db vault (Some (lit "ROADMAP")) want
                            ∨ carried db vault (Some (lit "BACKLOG")) want)
    ∧ (r = TrackNotFound → ¬ carried db vault None want)
    ∧ (r = TrackWorkCardOnly → carried db vault None want))
  ∧ (∃ b, structure_has_children db vault want = Some b
       ∧ (b = true ↔ ∃ n, n ∈ visible_cards db vault None ∧ card_carries_track (n_body n) want = true)).
Proof.
  intros Hids. split.
  - unfold resolve_track_target, is_structure_target.
    destruct (scan_version db vault (Some (lit "ROADMAP")) want Hids) as (b1 & -> & H1).
    destruct (scan_version db vault (Some (lit "BACKLOG")) want Hids) as (b2 & -> & H2).
    destruct (scan_version db vault None want Hids) as (b3 & -> & H3).
    destruct b1, b2, b3; eexists; (split; [done|]); rewrite <-H1, <-H2, <-?H3;
      split_and!; try done; try (by intros ?); split; intros; try done; try (by auto);
      by destruct_or!.
  - unfold structure_has_children. eexists. split; [by apply scan_all|]. rewrite existsb_exists.
    split; intros (n & Hn & Ht); exists n; (split; [|done]); by apply list_elem_of_In.
Qed.

(** ** Numbers *)

(** Some card of the vault, of any status, names that feature number. *)
Definition references (db : index_db) (vault : ustr) (k : N) : Prop :=
  ∃ n l, n ∈ db_notes db ∧ is_card vault n = true ∧ l ∈ links_of_body (n_body n)
         ∧ referenced_feature l = Some k.

Lemma list_max_spec l k : k ∈ l → ∃ m, list_max l = Some m ∧ (k ≤ m)%N.
Proof.
  destruct l as [|n l]; [by intros ?%not_elem_of_nil|]. intros Hin. eexists. split; [done|].
  assert (∀ l n, (n ≤ foldl N.max n l)%N ∧ ∀ k, k ∈ l → (k ≤ foldl N.max n l)%N) as Hfold.
  { clear. induction l as [|x l IH]; intros n; cbn; [split; [lia|by intros ? ?%not_elem_of_nil]|].
    destruct (IH (N.max n x)) as [H1 H2]. split; [lia|].
    intros k [->|Hk]%elem_of_cons; [lia|by apply H2]. }
  destruct (Hfold l n) as [H1 H2]. apply elem_of_cons in Hin as [->|Hin]; [done|by apply H2].
Qed.

Lemma derived_max_spec db vault k : references db vault k → (k ≤ derived_max db vault)%N.
Proof.
  intros (n & l & Hn & Hc & Hl & Hk).
  assert (n_body n ∈ n_body <$> filter (λ n, is_card vault n = true) (db_notes db)) as Hin.
  { apply list_elem_of_fmap_2. by apply list_elem_of_filter. }
  destruct (list_max_spec (omap referenced_feature (links_of_body (n_body n))) k) as (m & Hm & Hle).
  { apply list_elem_of_omap. eauto. }
  change (max_feature_number (n_body n) = Some m) in Hm. unfold derived_max.
  assert (∀ bodies acc, (acc ≤ foldl (λ max_seen body, match max_feature_number body with
      | Some n => if (max_seen <? n)%N then n else max_seen | None => max_seen end) acc bodies)%N
    ∧ ∀ b m, b ∈ bodies → max_feature_number b = Some m →
      (m ≤ foldl (λ max_seen body, match max_feature_number body with
        | Some n => if (max_seen <? n)%N then n else max_seen | None => max_seen end) acc bodies)%N)
    as Hfold.
  { clear. induction bodies as [|b bodies IH]; intros acc; cbn [foldl].
    { split; [lia|by intros ? ? ?%not_elem_of_nil]. }
    destruct (IH (match max_feature_number b with
      | Some n => if (acc <? n)%N then n else acc | None => acc end)) as [H1 H2]. split.
    - etrans; [|exact H1]. destruct (max_feature_number b) as [n|]; [|lia].
      destruct (N.ltb_spec acc n); lia.
    - intros b' m [->|Hb]%elem_of_cons Hm; [|by eapply H2]. rewrite Hm in H1 |- *.
      etrans; [|exact H1]. destruct (N.ltb_spec acc m); lia. }
  etrans; [exact Hle|]. by eapply (proj2 (Hfold _ 0%N)).
Qed.

(** A history: allocations for some vault, and any change of the notes between them. *)
Inductive alloc_event := Allocate (vault : ustr) | RewriteNotes (notes : list note_row).

Fixpoint alloc_run (db : index_db) (evs : list alloc_event) : list (ustr * N) :=
  match evs with
  | [] => []
  | Allocate vault :: evs' =>
      let '(r, db') := allocate_feature_number db vault in
      match r with Ok k => [(vault, k)] | Err _ => [] end ++ alloc_run db' evs'
  | RewriteNotes notes :: evs' => alloc_run (mkDb notes (db_counters db)) evs'
  end.
Definition numbers_of (vault : ustr) (l : list (ustr * N)) : list N :=
  omap (λ vn, if decide (vn.1 = vault) then Some vn.2 else None) l.
Definition counter_of (db : index_db) (vault : ustr) : N := default 0%N (db_counters db !! vault).

Lemma alloc_run_above db evs vault :
  Forall (λ k, (counter_of db vault < k)%N) (numbers_of vault (alloc_run db evs))
  ∧ StronglySorted N.lt (numbers_of vault (alloc_run db evs)).
Proof.
  revert db. induction evs as [|ev evs IH]; intros db; [by split; constructor|].
  destruct ev as [v|notes]; cbn [alloc_run allocate_feature_number].
  - set (next := (N.max (default 0 (db_counters db !! v)) (derived_max db v) + 1)%N).
    destruct (IH (mkDb (db_notes db) (<[v:=next]> (db_counters db)))) as [H1 H2].
    unfold counter_of in H1. cbn [db_counters] in H1.
    destruct (decide (v = vault)) as [->|Hv].
    + rewrite lookup_insert_eq in H1. cbn [default] in H1.
      assert (counter_of db vault < next)%N as Hlt by (unfold counter_of, next; lia).
      destruct (next <? 2 ^ 32)%N; cbn [app].
      * unfold numbers_of. cbn. rewrite decide_True by done. split.
        -- constructor; [done|]. eapply Forall_impl; [exact H1|]. intros k Hk. cbn in Hk. lia.
        -- constructor; [done|]. exact H1.
      * split; [|done]. eapply Forall_impl; [exact H1|]. intros k Hk. cbn in Hk. lia.
    + rewrite lookup_insert_ne in H1 by done.
      destruct (next <? 2 ^ 32)%N; cbn [app]; [|by split].
      unfold numbers_of. cbn. rewrite decide_False by done. by split.
  - destruct (IH (mkDb notes (db_counters db))) as [H1 H2]. by split.
Qed.

(** Feature numbers are never reused: whatever happens to the notes in between, the
    numbers allocated for a vault strictly increase, and a number handed out is above
    every number that any card of the vault names, as its identity, as superseded or as
    parent.  On overflow nothing is handed out, though the counter has advanced. *)
Theorem feature_numbers_fresh db vault :
  (∀ evs, StronglySorted N.lt (numbers_of vault (alloc_run db evs)))
  ∧ (∀ k db', allocate_feature_number db vault = (Ok k, db') →
       (k < 2 ^ 32)%N ∧ db_notes db' = db_notes db ∧ counter_of db' vault = k
       ∧ ∀ j, references db vault j → (j < k)%N)
  ∧ (∀ e db', allocate_feature_number db vault = (Err e, db') →
       (counter_of db vault < counter_of db' vault)%N).
Proof.
  split_and!.
  - intros evs. apply alloc_run_above.
  - intros k db'. unfold allocate_feature_number, counter_of.
    case_match eqn:E; [|done]. apply N.ltb_lt in E.
    intros [= <- <-]. cbn [db_counters db_notes]. rewrite lookup_insert_eq.
    split_and!; [done..|]. intros j Hj%derived_max_spec.
    lia.
  - intros e db'. unfold allocate_feature_number, counter_of. case_match; [done|].
    intros [= _ <-]. cbn [db_counters]. rewrite lookup_insert_eq. cbn [default]. unfold id. lia.
Qed.

(** ** The text of a number *)

Definition feature_role (n : N) : ustr := lit "feature:" ++ format_feature n.

Lemma decimal_digits fuel n : Forall (λ c, is_digit c) (decimal_rev fuel n).
Proof.
  revert n. induction fuel as [|fuel IH]; intros n; [constructor|]. cbn [decimal_rev]. constructor.
  - pose proof (N.mod_lt n 10 ltac:(done)) as Hm. unfold is_digit. apply Is_true_true, andb_true_iff.
    rewrite !N.leb_le. generalize dependent (n mod 10)%N. intros. lia.
  - destruct (n <? 10)%N; [constructor|apply IH].
Qed.

(** The characters of a feature role need no quoting. *)
Definition role_char (c : uchar) : bool :=
  negb (is_whitespace c) && negb (c =? RB)%N && negb (c =? NL)%N.

Lemma role_chars n : Forall role_char (feature_role n).
Proof.
  unfold feature_role. apply Forall_app. split; [vm_compute; repeat constructor|].
  unfold format_feature. apply Forall_app. split; [vm_compute; repeat constructor|].
  assert (Forall role_char (decimal n)) as Hd.
  { apply Forall_reverse. eapply Forall_impl; [apply decimal_digits|]. intros c Hc%Is_true_true.
    unfold is_digit in Hc. apply andb_true_iff in Hc as [H1%N.leb_le H2%N.leb_le].
    apply Is_true_true. destruct (decide (c ∈ N.of_nat <$> seq 48 10)) as [Hin|Hno].
    - repeat (apply elem_of_cons in Hin as [->|Hin]; [done|]). by apply not_elem_of_nil in Hin.
    - exfalso. apply Hno, list_elem_of_fmap. exists (N.to_nat c). split; [lia|]. apply elem_of_seq. lia. }
  destruct (length (decimal n) <? 2); [|done]. by constructor.
Qed.

Lemma feature_role_plain n :
  RB ∉ feature_role n ∧ NL ∉ feature_role n ∧ trim (feature_role n) = feature_role n.
Proof.
  pose proof (role_chars n) as Hc. rewrite Forall_forall in Hc.
  split_and!; [by intros H%Hc..|].
  apply trim_fix; intros a b E; rewrite E in Hc;
    [assert (role_char a) as Ha%Is_true_true by (apply Hc; set_solver)
    |assert (role_char b) as Ha%Is_true_true by (apply Hc; set_solver)];
    unfold role_char in Ha; rewrite !andb_true_iff, !negb_true_iff in Ha; apply Ha.
Qed.

Definition format_ok (n : N) : bool :=
  is_ok (validate_feature_ident (format_feature n))
  && bool_decide (feature_number (format_feature n) = Some n).

(** Up to 999 the text of a number is an identifier that reads back as the number. *)
Lemma format_small n :
  (n < 1000)%N →
  parse_link (feature_role n) = Ok (LinkFeature (format_feature n))
  ∧ feature_number (format_feature n) = Some n.
Proof.
  intros Hn. assert (forallb format_ok (N.of_nat <$> seq 0 1000) = true) as Hall
    by (vm_compute; reflexivity).
  rewrite forallb_forall in Hall. specialize (Hall n). rewrite <-list_elem_of_In in Hall.
  assert (format_ok n = true) as Hok.
  { apply Hall, list_elem_of_fmap. exists (N.to_nat n). split; [lia|]. apply elem_of_seq. lia. }
  apply andb_true_iff in Hok as [Hid Hnum%bool_decide_eq_true]. split; [|done].
  apply parse_link_iff. split; [done|]. by rewrite (proj2 (proj2 (feature_role_plain n))).
Qed.

Lemma decimal_long n : (1000 ≤ n)%N → 4 ≤ length (decimal n).
Proof.
  intros Hn. unfold decimal. rewrite length_reverse. change 10 with (S (S (S (S 6)))).
  cbn [decimal_rev]. assert (100 ≤ n / 10)%N by (apply N.div_le_lower_bound; lia).
  assert (10 ≤ n / 10 / 10)%N by (apply N.div_le_lower_bound; lia).
  rewrite !(proj2 (N.ltb_ge _ _)) by lia. cbn [length]. lia.
Qed.

Lemma length_str_len s : length s ≤ str_len s.
Proof.
  induction s as [|c s IH]; [done|]. rewrite str_len_cons. cbn. pose proof (len_utf8_pos c). lia.
Qed.

(** From 1000 on it is no identifier. *)
Lemma format_large n :
  (1000 ≤ n)%N → parse_link (feature_role n) = Err (FeatureIdentInvalid (format_feature n)).
Proof.
  intros Hn. unfold parse_link. rewrite (proj2 (proj2 (feature_role_plain n))).
  change (feature_role n) with (role_text (lit "feature") (format_feature n)).
  rewrite split_prefix_role by (apply (bool_decide_unpack _); vm_compute; exact I).
  change (match_str reserved_roles (lit "feature"))
    with (Some (λ v, _ ?<- validate_feature_ident v; Ok (LinkFeature v))).
  rewrite bool_decide_eq_false_2 by done. unfold validate_feature_ident, format_feature.
  rewrite strip_prefix_app. pose proof (decimal_long n Hn) as Hd.
  rewrite (proj2 (Nat.ltb_ge (length (decimal n)) 2)) by lia.
  pose proof (length_str_len (decimal n)) as Hs.
  rewrite !(proj2 (Nat.eqb_neq (str_len (decimal n)) _)) by lia. done.
Qed.

(** ** A created card *)

Lemma collect_links_app a b :
  collect_links (a ++ b) = (la ?<- collect_links a; lb ?<- collect_links b; Ok (la ++ lb)).
Proof.
  induction a as [|t a IH]; cbn [app collect_links result_bind]; [by destruct (collect_links b)|].
  rewrite IH. destruct (parse_link t) as [l|e];
    [by destruct (collect_links a), (collect_links b)|].
  by destruct e.
Qed.

(** The schema does not look at which number a card has. *)
Lemma validate_links_renumber ls f g :
  validate_links (ls ++ [LinkFeature f]) = validate_links (ls ++ [LinkFeature g]).
Proof. unfold validate_links. rewrite !foldl_app. by destruct (foldl _ _ ls). Qed.

Lemma numbered_alone ls f :
  validate_links (ls ++ [LinkFeature f]) = Ok tt → features_of ls = [].
Proof.
  intros (p & k & _ & _ & _ & _ & _ & Hk)%validate_links_Ok. unfold structure_ok, work_ok, features_of in *.
  rewrite omap_app in Hk. cbn in Hk.
  destruct (is_structure k); [destruct Hk as (_ & Hf & _); by apply app_eq_nil in Hf as [? _]|].
  destruct Hk as (_ & _ & _ & Hf & _). rewrite length_app in Hf. cbn in Hf.
  apply nil_length_inv. lia.
Qed.

(** The targets of a body with a role injected. *)
Lemma injected_targets body n :
  extract_structural_targets (inject_role body (feature_role n))
  = extract_structural_targets (body ++ [NL])
    ++ (if has_unterminated_code_fence (body ++ [NL]) then [] else [feature_role n]).
Proof.
  destruct (feature_role_plain n) as (Hr & Hl & Ht).
  rewrite inject_role_targets by done. by rewrite Ht, extract_zone.
Qed.

Lemma validate_injected body n :
  validate_card_body (inject_role body (feature_role 0)) = Ok tt →
  has_unterminated_code_fence (body ++ [NL]) = false →
  let out := inject_role body (feature_role n) in
  if (n <? 1000)%N
  then validate_card_body out = Ok tt ∧ features_of (links_of_body out) = [format_feature n]
       ∧ feature_number (format_feature n) = Some n
  else validate_card_body out = Err (FeatureIdentInvalid (format_feature n)).
Proof.
  intros Hpre Hf out. subst out. unfold validate_card_body in *. rewrite injected_targets in *.
  unfold links_of_body. rewrite injected_targets. rewrite Hf in *. rewrite collect_links_app in *.
  destruct (collect_links (extract_structural_targets (body ++ [NL]))) as [ls|] eqn:El; [|done].
  destruct (format_small 0) as [H0 _]; [done|]. cbn [collect_links result_bind] in Hpre |- *.
  rewrite H0 in Hpre. cbn [result_bind] in Hpre.
  destruct (N.ltb_spec n 1000) as [Hn|Hn].
  - destruct (format_small n Hn) as [H1 H2]. rewrite H1. cbn [result_bind]. split_and!; [|..|done].
    + by rewrite (validate_links_renumber _ _ (format_feature 0)).
    + apply numbered_alone in Hpre. apply collect_links_Ok in El as [-> _].
      rewrite omap_app. unfold features_of in *. rewrite omap_app, Hpre. cbn [app omap list_omap].
      unfold link_of. by rewrite H1.
  - by rewrite (format_large n Hn).
Qed.

(** Creating a feature card.  A refusal before the allocation leaves the index alone.
    An accepted card gets a number above every number in use, and when the client's text
    leaves no code fence open, the body passes the schema and carries exactly that number,
    up to 999; from 1000 on the text of the number is no identifier, and the schema refuses
    the body although the number is spent.  Behind an open fence the card is accepted
    without carrying the number at all. *)
Theorem create_feature_card_exact db vault body :
  let '(r, db') := create_feature_card db vault body in
  db_notes db' = db_notes db
  ∧ match r with
    | Err BodyCarriesFeature => carries_feature_link body = true ∧ db' = db
    | Err (CreateSchema e) =>
        validate_card_body (inject_role body (lit "feature:F-00")) = Err e ∧ db' = db
    | Err (CreateAlloc (AllocOverflow next)) => (2 ^ 32 ≤ next)%N ∧ counter_of db' vault = next
    | Ok (feature, k, out) =>
        carries_feature_link body = false ∧ feature = format_feature k
        ∧ counter_of db' vault = k ∧ (∀ j, references db vault j → (j < k)%N)
        ∧ if has_unterminated_code_fence (body ++ [NL])
          then validate_card_body out = Ok tt
               ∧ extract_structural_targets out = extract_structural_targets (body ++ [NL])
          else if (k <? 1000)%N
               then validate_card_body out = Ok tt ∧ features_of (links_of_body out) = [feature]
                    ∧ feature_number feature = Some k
               else validate_card_body out = Err (FeatureIdentInvalid feature)
    end.
Proof.
  unfold create_feature_card.
  destruct (carries_feature_link body) eqn:Ec; [done|].
  change (inject_role body (lit "feature:F-00")) with (inject_role body (feature_role 0)).
  destruct (validate_card_body (inject_role body (feature_role 0))) as [[]|e] eqn:Ev; [|done].
  unfold allocate_feature_number.
  set (next := (N.max (default 0 (db_counters db !! vault)) (derived_max db vault) + 1)%N).
  assert (counter_of (mkDb (db_notes db) (<[vault:=next]> (db_counters db))) vault = next) as Hcnt
    by (unfold counter_of; cbn [db_counters]; by rewrite lookup_insert_eq).
  destruct (N.ltb_spec next (2 ^ 32)) as [Hlt|Hge]; (split; [done|]); [|done].
  change (lit "feature:" ++ format_feature next) with (feature_role next).
  split_and!; [done|done|done|intros j Hj%derived_max_spec; lia|].
  destruct (has_unterminated_code_fence (body ++ [NL])) eqn:Ef.
  - unfold validate_card_body in *. rewrite injected_targets in *. by rewrite Ef, app_nil_r in *.
  - by apply validate_injected.
Qed.
End properties.

(** ** Witnesses *)

Definition sample_ulid : UlidParser := λ _, false.
Definition sample_structure : ustr :=
  lit "[[project:gradatum]] [[kind:ROADMAP]] [[status:OPEN]] [[version:gradatum/2.2.0]] [[visibilite:public]]".
Definition sample_db : index_db :=
  mkDb [mkNote (lit "01A") (lit "main") (lit "project-map") (lit "live") (Some (lit "ROADMAP"))
          (Some (lit "OPEN")) sample_structure] ∅.

Lemma resolve_track_target_exact_witness :
  ids_ok sample_db (lit "main")
  ∧ resolve_track_target (UP := sample_ulid) sample_db (lit "main") (lit "gradatum/2.2.0")
    = Some TrackStructure
  ∧ ∃ r, resolve_track_target (UP := sample_ulid) sample_db (lit "main") (lit "gradatum/9.9.9") = Some r
         ∧ r ≠ TrackStructure.
Proof.
  assert (ids_ok sample_db (lit "main")) as Hids.
  { split; [apply (bool_decide_unpack _); vm_compute; exact I|by repeat constructor]. }
  split; [exact Hids|]. split; [vm_compute; reflexivity|].
  destruct (resolve_track_target_exact (UP := sample_ulid) sample_db (lit "main")
    (lit "gradatum/9.9.9") Hids) as [(r & Hr & _) _].
  exists r. split; [exact Hr|]. intros ->. vm_compute in Hr. discriminate Hr.
Defined.
