(* ===== verification/Notes.v ===== *)
(** * Notes: states, sections and tags of a note

    The vocabulary of notes in [crates/gradatum-core/src]: the life cycle of [status.rs],
    the tables of [section.rs] (protections, cognitive kinds, trust) and the tags of
    [tag.rs].  Trust scores are hundredths.  The extra fields of a note are values of the
    [toml] crate, whose tables are association lists in the order of their keys. *)

From S2P Require Import Prelude Text PrivacyPass.

#[local] Open Scope nat_scope.

(** ** TOML values *)

Inductive toml :=
| TString (s : ustr)
| TInteger (z : Z)
| TFloat (bits : Z)
| TBoolean (b : bool)
| TDatetime (s : ustr)
| TArray (l : list toml)
| TTable (l : list (ustr * toml)).

(** ** Tables *)

(** [Map::insert]. *)
Fixpoint table_insert (k : ustr) (v : toml) (l : list (ustr * toml)) : list (ustr * toml) :=
  match l with
  | [] => [(k, v)]
  | (k', v') :: l' =>
      if bool_decide (k = k') then (k, v) :: l'
      else if ustr_lt k k' then (k, v) :: l
      else (k', v') :: table_insert k v l'
  end.

(** [Map::get]. *)
Fixpoint table_get (k : ustr) (l : list (ustr * toml)) : option toml :=
  match l with [] => None | (k', v) :: l' => if bool_decide (k = k') then Some v else table_get k l' end.

(** [Map::remove]. *)
Definition table_remove (k : ustr) (l : list (ustr * toml)) : list (ustr * toml) :=
  filter (λ kv, kv.1 ≠ k) l.

(** [Value::get] with a string, [as_str], [as_table]. *)
Definition toml_get (v : toml) (k : ustr) : option toml :=
  match v with TTable l => table_get k l | _ => None end.
Definition toml_as_str (v : toml) : option ustr := match v with TString s => Some s | _ => None end.
Definition toml_as_table (v : toml) : option (list (ustr * toml)) :=
  match v with TTable l => Some l | _ => None end.
Definition toml_as_integer (v : toml) : option Z := match v with TInteger z => Some z | _ => None end.

Lemma table_get_insert k v l : table_get k (table_insert k v l) = Some v.
Proof.
  induction l as [|[k' v'] l IH]; cbn [table_insert].
  - cbn. by rewrite bool_decide_eq_true_2.
  - case_bool_decide; [cbn; by rewrite bool_decide_eq_true_2|]. destruct (ustr_lt k k'); cbn.
    + by rewrite bool_decide_eq_true_2.
    + by rewrite bool_decide_eq_false_2.
Qed.

Lemma table_get_insert_ne k k' v l : k ≠ k' → table_get k (table_insert k' v l) = table_get k l.
Proof.
  intros Hk. induction l as [|[k1 v1] l IH]; cbn [table_insert].
  - cbn. by rewrite bool_decide_eq_false_2.
  - case_bool_decide; [subst; cbn; by rewrite bool_decide_eq_false_2|].
    destruct (ustr_lt k' k1); cbn; [by rewrite (bool_decide_eq_false_2 (k = k'))|]. by rewrite IH.
Qed.

(** ** Equality and numbering *)

Section toml_ind.
Context (P : toml → Prop) (Hs : ∀ s, P (TString s)) (Hz : ∀ z, P (TInteger z))
  (Hf : ∀ b, P (TFloat b)) (Hb : ∀ b, P (TBoolean b)) (Hd : ∀ s, P (TDatetime s))
  (Ha : ∀ l, Forall P l → P (TArray l)) (Ht : ∀ l, Forall (λ kv, P kv.2) l → P (TTable l)).
Fixpoint toml_ind' (v : toml) : P v :=
  match v with
  | TString s => Hs s
  | TInteger z => Hz z
  | TFloat b => Hf b
  | TBoolean b => Hb b
  | TDatetime s => Hd s
  | TArray l => Ha l ((fix go l := match l return Forall P l with
                                   | [] => @Forall_nil_2 _ P
                                   | v :: l' => Forall_cons_2 P v l' (toml_ind' v) (go l')
                                   end) l)
  | TTable l => Ht l ((fix go l := match l return Forall (λ kv, P kv.2) l with
                                   | [] => @Forall_nil_2 _ (λ kv, P kv.2)
                                   | kv :: l' => Forall_cons_2 (λ kv, P kv.2) kv l' (toml_ind' kv.2) (go l')
                                   end) l)
  end.
End toml_ind.

Abbreviation toml_leaf := (ustr + Z + bool)%type.
Fixpoint to_tree (v : toml) : gen_tree toml_leaf :=
  match v with
  | TString s => GenNode 0 [GenLeaf (inl (inl s))]
  | TInteger z => GenNode 1 [GenLeaf (inl (inr z))]
  | TFloat z => GenNode 2 [GenLeaf (inl (inr z))]
  | TBoolean b => GenNode 3 [GenLeaf (inr b)]
  | TDatetime s => GenNode 4 [GenLeaf (inl (inl s))]
  | TArray l => GenNode 5 (to_tree <$> l)
  | TTable l => GenNode 6 ((λ kv, GenNode 0 [GenLeaf (inl (inl kv.1)); to_tree kv.2]) <$> l)
  end.
Fixpoint of_tree (t : gen_tree toml_leaf) : toml :=
  match t with
  | GenNode 0 [GenLeaf (inl (inl s))] => TString s
  | GenNode 1 [GenLeaf (inl (inr z))] => TInteger z
  | GenNode 2 [GenLeaf (inl (inr z))] => TFloat z
  | GenNode 3 [GenLeaf (inr b)] => TBoolean b
  | GenNode 4 [GenLeaf (inl (inl s))] => TDatetime s
  | GenNode 5 l => TArray (of_tree <$> l)
  | GenNode 6 l => TTable ((λ t, match t with
                                 | GenNode _ [GenLeaf (inl (inl k)); t'] => (k, of_tree t')
                                 | _ => ([], TBoolean false)
                                 end) <$> l)
  | _ => TBoolean false
  end.
Lemma of_to_tree v : of_tree (to_tree v) = v.
Proof.
  induction v as [| | | | |l IH|l IH] using toml_ind'; try done; cbn; f_equal.
  - induction IH as [|v l Hv _ IHl]; [done|]. cbn. by rewrite Hv, IHl.
  - induction IH as [|[k v] l Hv _ IHl]; [done|]. cbn in *. by rewrite Hv, IHl.
Qed.

#[export] Instance toml_eq_dec : EqDecision toml.
Proof.
  intros v w. destruct (decide (to_tree v = to_tree w)) as [E|E]; [left|right; congruence].
  by rewrite <-(of_to_tree v), <-(of_to_tree w), E.
Defined.
#[export] Instance toml_countable : Countable toml := inj_countable' to_tree of_tree of_to_tree.

(** ** The life cycle *)

Inductive NoteStatus := Draft | Staging | PendingReview | Live | Deprecated | Garbage.
#[export] Instance NoteStatus_eq_dec : EqDecision NoteStatus.
Proof. solve_decision. Defined.

Definition can_transition_to (self target : NoteStatus) : bool :=
  match self, target with
  | Draft, PendingReview | Draft, Garbage
  | PendingReview, Live | PendingReview, Garbage | PendingReview, Staging
  | Staging, Live | Staging, Garbage
  | Live, Deprecated | Live, Garbage
  | Deprecated, Live | Garbage, Live => true
  | _, _ => false
  end.

Definition is_visible_default (self : NoteStatus) : bool :=
  match self with Live => true | _ => false end.
Definition is_embeddable_default (self : NoteStatus) : bool :=
  match self with Live | PendingReview | Staging => true | _ => false end.

Definition NoteStatus_ALL : list NoteStatus :=
  [Draft; Staging; PendingReview; Live; Deprecated; Garbage].

Definition serde_kebab_repr (self : NoteStatus) : ustr :=
  lit match self with
      | Draft => "draft"
      | Staging => "staging"
      | PendingReview => "pending-review"
      | Live => "live"
      | Deprecated => "deprecated"
      | Garbage => "garbage"
      end.

(** [v.join(sep)]. *)
Fixpoint join (sep : ustr) (l : list ustr) : ustr :=
  match l with [] => [] | [s] => s | s :: l' => s ++ sep ++ join sep l' end.

Definition embeddable_default_sql_list : ustr :=
  join (lit ", ")
    ((λ s, lit "'" ++ serde_kebab_repr s ++ lit "'")
       <$> filter (λ s, is_embeddable_default s = true) NoteStatus_ALL).

(** [cfg] is the list [embed.embeddable_status], when there is one. *)
Definition is_embeddable (self : NoteStatus) (cfg : option (list ustr)) : bool :=
  match cfg with
  | Some allowed => existsb (λ s, bool_decide (s = serde_kebab_repr self)) allowed
  | None => is_embeddable_default self
  end.

(** A path of the life cycle. *)
Inductive lifecycle : NoteStatus → NoteStatus → Prop :=
| lifecycle_refl s : lifecycle s s
| lifecycle_step s t u : can_transition_to s t = true → lifecycle t u → lifecycle s u.

(** ** Sections *)

Definition section_as_str (self : NoteSection) : ustr :=
  lit match self with
      | Decisions => "decisions"
      | Architecture => "architecture"
      | SectionDebug => "debug"
      | Reasoning => "reasoning"
      | Feedback => "feedback"
      | LessonsLearned => "lessons-learned"
      | Retrospectives => "retrospectives"
      | Experiments => "experiments"
      | AgentIssues => "agent-issues"
      | Reference => "reference"
      | Council => "council"
      | ProjectMap => "project-map"
      | Identity => "identity"
      | Snapshot => "snapshot"
      | Messaging => "messaging"
      end.

Definition Section_ALL : list NoteSection :=
  [Decisions; Architecture; SectionDebug; Reasoning; Feedback; LessonsLearned; Retrospectives;
   Experiments; AgentIssues; Reference; Council; ProjectMap; Identity; Snapshot; Messaging].

(** [ALL.iter().find(…)]. *)
Definition from_canonical_str (s : ustr) : option NoteSection :=
  head (filter (λ sec, section_as_str sec = s) Section_ALL).

Definition PROTECTED_FORGET : list NoteSection := [AgentIssues; Council; ProjectMap; Identity].
Definition PROTECTED_DELETE : list NoteSection :=
  [AgentIssues; Council; ProjectMap; Identity; Decisions; Reasoning].
Definition DEFAULT_SEARCH_EXCLUDED : list NoteSection := [Snapshot; Messaging].
Definition PROTECTED_DOWNGRADE : list ustr :=
  [lit "agent-issues"; lit "council"; lit "project-map"; lit "identity"; lit "decisions";
   lit "lessons-learned"; lit "feedback"; lit "retrospectives"; lit "architecture"].

Definition IDENTITY_PERSON_TITLE_PREFIX : ustr := lit "identity/person/".
Definition identity_person_carveout (title : ustr) : bool :=
  str_starts_with IDENTITY_PERSON_TITLE_PREFIX title.

Definition is_forget_protected (section title : ustr) : bool :=
  if bool_decide (section = section_as_str Identity) then negb (identity_person_carveout title)
  else existsb (λ s, bool_decide (section_as_str s = section)) PROTECTED_FORGET.
Definition is_delete_protected (section title : ustr) : bool :=
  if bool_decide (section = section_as_str Identity) then negb (identity_person_carveout title)
  else existsb (λ s, bool_decide (section_as_str s = section)) PROTECTED_DELETE.
Definition is_protected_delete (name : ustr) : bool := is_delete_protected name [].
Definition is_protected_downgrade (section : ustr) : bool :=
  existsb (λ s, bool_decide (s = section)) PROTECTED_DOWNGRADE.

Definition section_to_c_kind (section : NoteSection) : ustr :=
  lit match section with
      | Architecture | Reasoning | LessonsLearned | Experiments | Reference => "semantic"
      | Decisions | SectionDebug | Council | Snapshot | Messaging => "episodic"
      | Feedback | Retrospectives => "reflective"
      | AgentIssues | ProjectMap | Identity => "procedural"
      end.

Definition section_to_doc_kind (section : NoteSection) : ustr :=
  lit match section with
      | SectionDebug | AgentIssues | Snapshot | Council | Messaging => "Event"
      | Architecture | Decisions | Reasoning | Feedback | LessonsLearned | Retrospectives
      | Experiments | Reference | ProjectMap | Identity => "Static"
      end.

Definition SECTION_TRUST_SCORES : list (ustr * N) :=
  [(lit "council", 95%N); (lit "decisions", 95%N); (lit "project-map", 95%N);
   (lit "identity", 95%N); (lit "lessons-learned", 75%N); (lit "architecture", 75%N);
   (lit "retrospectives", 75%N); (lit "feedback", 75%N); (lit "reasoning", 75%N);
   (lit "reference", 60%N); (lit "agent-issues", 60%N); (lit "debug", 40%N);
   (lit "experiments", 40%N)].

Definition TRUST_NON_DECAYING_SECTIONS : list ustr :=
  [lit "council"; lit "decisions"; lit "project-map"; lit "identity"].
Definition is_trust_non_decaying (section : ustr) : bool :=
  existsb (λ s, bool_decide (s = section)) TRUST_NON_DECAYING_SECTIONS.

Definition trust_for_section (section : NoteSection) : N :=
  match section with
  | Council | Decisions | ProjectMap | Identity => 95
  | LessonsLearned | Architecture | Retrospectives | Feedback | Reasoning => 75
  | Reference | AgentIssues => 60
  | SectionDebug | Experiments => 40
  | Snapshot => 40
  | Messaging => 40
  end.
Definition trust_for_section_str (section : ustr) : N :=
  match from_canonical_str section with Some s => trust_for_section s | None => 50 end.
Definition section_str_to_doc_kind (section : ustr) : ustr :=
  match from_canonical_str section with Some s => section_to_doc_kind s | None => lit "Static" end.

(** ** Tags *)

Definition RESERVED_TAGS : list ustr := [lit "personal-classified"; lit "privacy-unscanned"].
Definition is_reserved_literal (coerced : ustr) : bool :=
  existsb (λ r, bool_decide (r = coerced)) RESERVED_TAGS.

Definition HYPHEN_CHAR : uchar := 45%N.
Definition is_hyphen (c : uchar) : bool := (c =? HYPHEN_CHAR)%N.
Definition is_tag_char (c : uchar) : bool := is_lower c || is_digit c.

(** The loop of [coerce]: [in_run] is [in_invalid_run]. *)
Fixpoint coerce_loop (result : ustr) (in_run : bool) (chars : ustr) : ustr :=
  match chars with
  | [] => result
  | ch :: chars' =>
      if is_tag_char ch then
        let result' := if in_run && negb (bool_decide (result = [])) then result ++ [HYPHEN_CHAR]
                       else result in
        coerce_loop (result' ++ [ch]) false chars'
      else coerce_loop result true chars'
  end.

Definition coerce (s : ustr) : option ustr :=
  let result := coerce_loop [] false (to_lowercase s) in
  if bool_decide (result = []) then None
  else
    let result := if 64 <? length result then drop_while_end is_hyphen (take 64 result) else result in
    if bool_decide (result = []) then None else Some result.

Inductive tag_error := InvalidTag (s : ustr).

(** [Tag::new]; the value of a tag is its text. *)
Definition Tag_new (s : ustr) : result ustr tag_error :=
  if bool_decide (s = []) || (64 <? str_len s) then Err (InvalidTag s)
  else if match coerce s with Some c => is_reserved_literal c | None => false end
  then Err (InvalidTag s)
  else match s with
       | c :: rest =>
           if negb (is_tag_char c) then Err (InvalidTag s)
           else if forallb (λ b, is_tag_char b || is_hyphen b) rest then Ok s
           else Err (InvalidTag s)
       | [] => Err (InvalidTag s)
       end.

Definition Tag_normalize (s : ustr) : option ustr :=
  match coerce s with
  | None => None
  | Some result => if is_reserved_literal result then None else Some result
  end.

Definition parse_tag_query (s : ustr) : option ustr :=
  if existsb (λ r, bool_decide (r = s)) RESERVED_TAGS then Some s
  else if is_ok (Tag_new s) then Some s else None.

(** ** Coerced tags *)

(** Letters and digits, with single hyphens strictly between them. *)
Fixpoint slug_tail (s : ustr) : bool :=
  match s with
  | [] => true
  | c :: s' =>
      (is_tag_char c
       || is_hyphen c && match s' with d :: _ => is_tag_char d | [] => false end)
      && slug_tail s'
  end.
Definition slug (s : ustr) : bool :=
  match s with c :: _ => is_tag_char c | [] => false end && slug_tail s.

Lemma tag_char_not_hyphen c : is_tag_char c = true → is_hyphen c = false.
Proof.
  unfold is_tag_char, is_lower, is_digit, is_hyphen, HYPHEN_CHAR. intros Hc.
  apply N.eqb_neq. intros ->. done.
Qed.

Lemma slug_tail_app s t :
  slug_tail s = true → slug_tail t = true → slug_tail (s ++ t) = true.
Proof.
  induction s as [|c s IH]; [done|]. cbn [app slug_tail]. intros [Hc Hs]%andb_true_iff Ht.
  rewrite (IH Hs Ht), andb_true_r. destruct (is_tag_char c); [done|]. cbn [orb] in *.
  destruct s as [|d s]; [by rewrite andb_false_r in Hc|done].
Qed.

Lemma slug_tail_tag c : is_tag_char c = true → slug_tail [c] = true.
Proof. intros Hc. cbn [slug_tail]. by rewrite Hc. Qed.

Lemma coerce_loop_slug chars r b :
  r = [] ∨ slug r = true →
  coerce_loop r b chars = [] ∨ slug (coerce_loop r b chars) = true.
Proof.
  revert r b. induction chars as [|ch chars IH]; intros r b Hr; cbn [coerce_loop]; [done|].
  destruct (is_tag_char ch) eqn:Ech; [|by apply IH]. apply IH. right.
  destruct Hr as [->|Hr].
  - rewrite bool_decide_eq_true_2, andb_false_r by done. unfold slug. cbn [app slug_tail]. by rewrite Ech.
  - rewrite bool_decide_eq_false_2 by (by intros ->). rewrite andb_true_r.
    apply andb_true_iff in Hr as [Hh Ht]. unfold slug. apply andb_true_iff.
    destruct r as [|c r]; [done|]. split; [by destruct b|].
    destruct b; [|apply slug_tail_app; [done|by apply slug_tail_tag]].
    rewrite <-app_assoc. apply slug_tail_app; [done|]. cbn [app slug_tail]. by rewrite Ech.
Qed.

Lemma coerce_loop_id s r : slug_tail s = true → r ≠ [] → coerce_loop r false s = r ++ s.
Proof.
  revert r. induction s as [|c s IH]; intros r Hs Hr; cbn [coerce_loop]; [by rewrite app_nil_r|].
  cbn [slug_tail] in Hs. apply andb_true_iff in Hs as [Hc Hs].
  destruct (is_tag_char c) eqn:Ec.
  { cbn [andb]. rewrite IH by (done || by destruct r). by rewrite <-app_assoc. }
  cbn [orb] in Hc. apply andb_true_iff in Hc as [Hh Hd].
  unfold is_hyphen in Hh. apply N.eqb_eq in Hh as ->. destruct s as [|d s]; [done|].
  specialize (IH (r ++ [HYPHEN_CHAR]) Hs ltac:(by destruct r)).
  cbn [coerce_loop] in IH |- *. rewrite Hd in IH |- *.
  rewrite bool_decide_eq_false_2 by done. cbn [andb negb] in IH |- *.
  by rewrite IH, <-app_assoc.
Qed.

Lemma slug_take n s :
  slug_tail s = true →
  slug_tail (take n s) = true ∨ ∃ t, take n s = t ++ [HYPHEN_CHAR] ∧ slug_tail t = true.
Proof.
  revert n. induction s as [|c s IH]; intros [|n] Hs; [by left..|]. cbn [take slug_tail] in *.
  apply andb_true_iff in Hs as [Hc Hs]. destruct (is_tag_char c) eqn:Ec.
  - destruct (IH n Hs) as [H|(t & E & H)]; [by left; rewrite H|right].
    exists (c :: t). rewrite E. cbn [slug_tail]. by rewrite Ec, H.
  - cbn [orb] in Hc. apply andb_true_iff in Hc as [Hh Hd]. destruct s as [|d s]; [done|].
    destruct n as [|n].
    { right. exists []. unfold is_hyphen in Hh. apply N.eqb_eq in Hh as ->. done. }
    destruct (IH (S n) Hs) as [H|(t & E & H)]; cbn [take] in *.
    + left. by rewrite Hh, Hd, H.
    + right. destruct t as [|e t].
      * injection E as -> _. by vm_compute in Hd.
      * injection E as <- E. exists (c :: d :: t). rewrite E. cbn [slug_tail] in *.
        rewrite H, Hh, Hd. by destruct (is_tag_char c).
Qed.

Lemma slug_tail_no_end s : slug_tail s = true → drop_while_end is_hyphen s = s.
Proof.
  destruct s as [|c s _] using rev_ind; [done|]. intros Hs. apply drop_while_end_last.
  induction s as [|d s IH]; cbn [app slug_tail] in Hs.
  - rewrite !andb_true_r, andb_false_r, orb_false_r in Hs. by apply tag_char_not_hyphen.
  - apply andb_true_iff in Hs as [_ Hs]. by apply IH.
Qed.

Lemma coerce_slug s t : coerce s = Some t → slug t = true ∧ length t ≤ 64.
Proof.
  unfold coerce. destruct (coerce_loop_slug (to_lowercase s) [] false) as [->|Hs]; [by left|done|].
  set (r := coerce_loop [] false (to_lowercase s)) in *.
  case_bool_decide; [done|]. destruct (Nat.ltb_spec 64 (length r)) as [Hl|Hl].
  - apply andb_true_iff in Hs as [Hh Ht]. destruct r as [|c r]; [done|].
    assert (∃ u, drop_while_end is_hyphen (take 64 (c :: r)) = c :: u ∧ slug_tail (c :: u) = true
      ∧ length (c :: u) ≤ 64) as (u & -> & Hu & Hlu).
    { pose proof (length_take (c :: r) 64) as Hlen. destruct (slug_take 64 (c :: r) Ht) as [Hk|(v & E & Hk)].
      - rewrite (slug_tail_no_end _ Hk). exists (take 63 r). split_and!; [done|done|].
        change (c :: take 63 r) with (take 64 (c :: r)). lia.
      - rewrite E in Hlen |- *. rewrite drop_while_end_app_r by (by repeat constructor).
        rewrite slug_tail_no_end by done.
        destruct v as [|d v]; [injection E as ->; by vm_compute in Hh|].
        injection E as <- _. exists v. split_and!; [done|done|].
        rewrite length_app in Hlen. cbn [length] in *. lia. }
    rewrite bool_decide_eq_false_2 by done. intros [= <-]. split; [|done].
    unfold slug. by rewrite Hh, Hu.
  - case_bool_decide; [done|]. intros [= <-]. split; [done|lia].
Qed.

Definition plain_tag_char (c : uchar) : bool := is_tag_char c || is_hyphen c.

Lemma slug_chars s : slug_tail s = true → forallb plain_tag_char s = true.
Proof.
  induction s as [|c s IH]; [done|]. cbn [slug_tail forallb]. unfold plain_tag_char at 1.
  intros [Hc Hs]%andb_true_iff. rewrite (IH Hs), andb_true_r.
  destruct (is_tag_char c); [done|]. cbn [orb] in *. by apply andb_true_iff in Hc as [-> _].
Qed.

Lemma plain_range c : plain_tag_char c = true → (c ≤ 122)%N ∧ ¬ (65 ≤ c ≤ 90)%N.
Proof.
  unfold plain_tag_char, is_tag_char, is_lower, is_digit, is_hyphen, HYPHEN_CHAR.
  rewrite !orb_true_iff, !andb_true_iff, !N.leb_le, N.eqb_eq. lia.
Qed.

Lemma plain_lowercase s : forallb plain_tag_char s = true → to_lowercase s = s.
Proof.
  induction s as [|c s IH]; [done|]. cbn [forallb]. intros [[Hc Hn]%plain_range Hs]%andb_true_iff.
  unfold to_lowercase in *. rewrite bind_cons, (IH Hs).
  destruct ((65 <=? c) && (c <=? 90))%N eqn:E.
  { apply andb_true_iff in E. rewrite !N.leb_le in E. lia. }
  rewrite (proj2 (N.eqb_neq c 8490)), (proj2 (N.eqb_neq c 304)) by lia. done.
Qed.

Lemma plain_len s : forallb plain_tag_char s = true → str_len s = length s.
Proof.
  induction s as [|c s IH]; [done|]. cbn [forallb]. intros [[Hc _]%plain_range Hs]%andb_true_iff.
  rewrite str_len_cons, (IH Hs). unfold len_utf8.
  rewrite (proj2 (N.ltb_lt c 128)) by lia. done.
Qed.

Lemma coerce_fix t : slug t = true → length t ≤ 64 → coerce t = Some t.
Proof.
  intros [Hh Ht]%andb_true_iff Hl. unfold coerce.
  rewrite plain_lowercase by (by apply slug_chars). destruct t as [|c t]; [done|].
  cbn [coerce_loop]. rewrite Hh. cbn [slug_tail] in Ht. rewrite Hh in Ht. cbn [andb orb] in Ht.
  cbn [andb app].
  rewrite coerce_loop_id by done. cbn [app].
  rewrite (proj2 (Nat.ltb_ge 64 (length (c :: t)))) by done. by rewrite !bool_decide_eq_false_2.
Qed.

Definition tag_shape (s : ustr) : Prop :=
  length s ≤ 64 ∧ (∃ c rest, s = c :: rest ∧ is_tag_char c = true)
  ∧ forallb plain_tag_char s = true.

Definition names_reserved (s : ustr) : Prop := ∃ r, coerce s = Some r ∧ r ∈ RESERVED_TAGS.

Lemma reserved_literal_iff c : is_reserved_literal c = true ↔ c ∈ RESERVED_TAGS.
Proof.
  unfold is_reserved_literal. rewrite existsb_exists. split.
  - intros (r & Hr%list_elem_of_In & ->%bool_decide_eq_true). done.
  - intros Hc%list_elem_of_In. exists c. split; [done|]. by apply bool_decide_eq_true.
Qed.

Lemma Tag_new_Ok s t : Tag_new s = Ok t ↔ t = s ∧ tag_shape s ∧ ¬ names_reserved s.
Proof.
  unfold Tag_new, tag_shape, names_reserved. split.
  - case_bool_decide as Hne; [done|]. cbn [orb].
    destruct (Nat.ltb_spec 64 (str_len s)); [done|].
    destruct (match coerce s with Some c => is_reserved_literal c | None => false end) eqn:Er; [done|].
    destruct s as [|c rest]; [done|]. destruct (is_tag_char c) eqn:Ec; [|done]. cbn [negb].
    destruct (forallb _ rest) eqn:Ef; [|done]. intros [= <-].
    assert (forallb plain_tag_char (c :: rest) = true) as Hall.
    { cbn [forallb]. unfold plain_tag_char at 1. rewrite Ec. exact Ef. }
    split_and!; [done|by rewrite <-plain_len|by eauto|done|].
    intros (r & Hr & Hin). rewrite Hr in Er. by rewrite (proj2 (reserved_literal_iff r)) in Er.
  - intros (-> & (Hl & (c & rest & -> & Hc) & Hall) & Hn).
    rewrite bool_decide_eq_false_2, plain_len by done. cbn [orb].
    rewrite (proj2 (Nat.ltb_ge _ _)) by done.
    destruct (match coerce _ with Some c => is_reserved_literal c | None => false end) eqn:Er.
    { destruct (coerce _) as [r|] eqn:E; [|done]. exfalso. apply Hn. exists r.
      by rewrite <-reserved_literal_iff. }
    rewrite Hc. cbn [negb]. cbn [forallb] in Hall. apply andb_true_iff in Hall as [_ Hall].
    unfold plain_tag_char in Hall. by rewrite Hall.
Qed.

(** The two constructors of tags.  [Tag::new] accepts exactly the well-shaped texts no
    spelling of which coerces onto a reserved name; [Tag::normalize] only produces tags
    that [Tag::new] accepts and leaves unchanged, drops nothing but reserved names and
    texts without a letter or digit, and is idempotent; a query additionally accepts the
    reserved names, spelled exactly.  No caller text ever becomes a reserved tag. *)
Theorem tag_constructors_agree s :
  (∀ t, Tag_new s = Ok t ↔ t = s ∧ tag_shape s ∧ ¬ names_reserved s)
  ∧ (∀ t, Tag_normalize s = Some t → Tag_new t = Ok t ∧ Tag_normalize t = Some t ∧ t ∉ RESERVED_TAGS)
  ∧ (Tag_normalize s = None ↔ coerce s = None ∨ names_reserved s)
  ∧ (∀ t, parse_tag_query s = Some t ↔ t = s ∧ (s ∈ RESERVED_TAGS ∨ Tag_new s = Ok s)).
Proof.
  assert (∀ t, Tag_normalize s = Some t → slug t = true ∧ length t ≤ 64 ∧ t ∉ RESERVED_TAGS) as Hn.
  { unfold Tag_normalize. destruct (coerce s) as [r|] eqn:E; [|done].
    destruct (is_reserved_literal r) eqn:Er; [done|]. intros t [= <-].
    apply coerce_slug in E as [? ?]. split_and!; [done|done|].
    intros Hin%reserved_literal_iff. by rewrite Hin in Er. }
  split_and!.
  - apply Tag_new_Ok.
  - intros t (Hs & Hl & Hr)%Hn. assert (coerce t = Some t) as Hc by (by apply coerce_fix).
    split_and!; [|by unfold Tag_normalize; rewrite Hc; destruct (is_reserved_literal t) eqn:E;
      [apply reserved_literal_iff in E|]|done].
    apply Tag_new_Ok. apply andb_true_iff in Hs as [Hh Ht].
    split_and!; [done|split_and!; [done|destruct t; [done|by eauto]|by apply slug_chars]|].
    intros (r & Hr' & Hin). rewrite Hc in Hr'. by injection Hr' as ->.
  - unfold Tag_normalize, names_reserved. destruct (coerce s) as [r|] eqn:E; [|by split; auto].
    destruct (is_reserved_literal r) eqn:Er; split; try done.
    + intros _. right. exists r. by rewrite <-reserved_literal_iff.
    + intros [?|(r' & [= <-] & Hin)]; [done|]. apply reserved_literal_iff in Hin. by rewrite Er in Hin.
  - intros t. unfold parse_tag_query. change (existsb _ RESERVED_TAGS) with (is_reserved_literal s).
    destruct (is_reserved_literal s) eqn:Er.
    + apply reserved_literal_iff in Er. split; [intros [= <-]; auto|intros [-> _]; done].
    + assert (s ∉ RESERVED_TAGS) as Hno by (intros H%reserved_literal_iff; by rewrite H in Er).
      destruct (Tag_new s) as [u|] eqn:E; cbn [is_ok].
      * apply Tag_new_Ok in E as [-> ?]. split; [intros [= <-]; auto|intros [-> _]; done].
      * split; [done|intros [_ [?|?]]; done].
Qed.

(** ** Facts about states and sections *)

Lemma from_canonical_str_exact s sec : from_canonical_str s = Some sec ↔ s = section_as_str sec.
Proof.
  split.
  - unfold from_canonical_str. intros H%head_Some_elem_of.
    apply list_elem_of_filter in H as [-> _]. done.
  - intros ->. by destruct sec.
Qed.

(** Every state leads to [Live]; no path leads back to [Draft]. *)
Lemma lifecycle_to_live s : lifecycle s Live.
Proof.
  assert (lifecycle PendingReview Live) by (by eapply lifecycle_step, lifecycle_refl).
  destruct s; try (by eapply lifecycle_step, lifecycle_refl); [|apply lifecycle_refl].
  by eapply (lifecycle_step _ PendingReview).
Qed.
Lemma lifecycle_no_draft s : lifecycle s Draft → s = Draft.
Proof.
  remember Draft as d eqn:Hd. induction 1 as [|s t u Hst _ IH]; [done|].
  specialize (IH Hd). subst. by destruct s.
Qed.

(** What can never be forgotten can never be deleted, and only person cards of the
    identity section escape. *)
Lemma forget_protected_delete_protected section title :
  is_forget_protected section title = true → is_delete_protected section title = true.
Proof.
  unfold is_forget_protected, is_delete_protected. case_bool_decide; [done|].
  cbn [existsb PROTECTED_FORGET PROTECTED_DELETE]. rewrite !orb_true_iff. naive_solver.
Qed.
