(* ===== verification/Markdown.v ===== *)
(** * Markdown: a note and its file

    A note in memory ([frontmatter.rs], [note.rs], [author.rs], [provenance.rs] and
    [history.rs] of [crates/gradatum-core/src]) and its text on disk
    ([crates/gradatum-markdown/src]: [parser.rs], [writer.rs]).  The YAML crate is the class
    [Yaml], the canonical JSON and SHA-256 of a frontmatter and a body the class
    [ContentHasher]. *)

From S2P Require Import Prelude Text Job PrivacyPass Notes.

#[local] Open Scope nat_scope.

(** ** Notes *)

Inductive AuthorKind := Human | MainAgent | SubAgent | System.
Record AuthorRef := mkAuthor { au_kind : AuthorKind; au_id : ustr; au_display_name : option ustr }.

(** [ExtraFields]: an optional map from keys to TOML values. *)
Definition ExtraFields : Type := option (gmap ustr toml).
Definition extra_is_empty (e : ExtraFields) : bool :=
  match e with None => true | Some m => bool_decide (m = ∅) end.
Definition extra_get (e : ExtraFields) (k : ustr) : option toml := m ← e; m !! k.
Definition extra_insert (e : ExtraFields) (k : ustr) (v : toml) : ExtraFields :=
  Some (<[k := v]> (default ∅ e)).

Record Frontmatter := mkFrontmatter {
  fm_schema_version : N;
  fm_vault_id : ustr;
  fm_locus : option ustr;
  fm_section : NoteSection;
  fm_status : NoteStatus;
  fm_status_reason : option ustr;
  fm_status_changed : option DateTime;
  fm_tags : list ustr;
  fm_author : option AuthorRef;
  fm_created : DateTime;
  fm_updated : option DateTime;
  fm_extra : ExtraFields;
  fm_provenance : option ustr;
  fm_forgotten : option bool;
  fm_forgotten_at : option DateTime;
  fm_forgotten_by : option ustr;
}.

(** Field updates. *)
Section updates.
Context (fm : Frontmatter).
Definition with_vault_id (v : ustr) : Frontmatter :=
  let '(mkFrontmatter sv _ lo se st sr sc ta au cr up ex pr fo fa fb) := fm in
  mkFrontmatter sv v lo se st sr sc ta au cr up ex pr fo fa fb.
Definition with_locus (l : option ustr) : Frontmatter :=
  let '(mkFrontmatter sv vi _ se st sr sc ta au cr up ex pr fo fa fb) := fm in
  mkFrontmatter sv vi l se st sr sc ta au cr up ex pr fo fa fb.
Definition with_status (s : NoteStatus) (reason : option ustr) (changed : option DateTime) : Frontmatter :=
  let '(mkFrontmatter sv vi lo se _ _ _ ta au cr up ex pr fo fa fb) := fm in
  mkFrontmatter sv vi lo se s reason changed ta au cr up ex pr fo fa fb.
Definition with_tags (t : list ustr) : Frontmatter :=
  let '(mkFrontmatter sv vi lo se st sr sc _ au cr up ex pr fo fa fb) := fm in
  mkFrontmatter sv vi lo se st sr sc t au cr up ex pr fo fa fb.
Definition with_updated (u : option DateTime) : Frontmatter :=
  let '(mkFrontmatter sv vi lo se st sr sc ta au cr _ ex pr fo fa fb) := fm in
  mkFrontmatter sv vi lo se st sr sc ta au cr u ex pr fo fa fb.
Definition with_extra (e : ExtraFields) : Frontmatter :=
  let '(mkFrontmatter sv vi lo se st sr sc ta au cr up _ pr fo fa fb) := fm in
  mkFrontmatter sv vi lo se st sr sc ta au cr up e pr fo fa fb.
End updates.

Record Note := mkNoteRec {
  note_id : ustr;
  frontmatter : Frontmatter;
  body : ustr;
  version : N;
  content_hash : N;
}.
Definition NoteVersion_initial : N := 1.

(** [ContentHash::compute]; an absent map of extra fields and an empty one serialise alike. *)
Definition canonical (fm : Frontmatter) : Frontmatter :=
  if extra_is_empty (fm_extra fm) then with_extra fm None else fm.
Class ContentHasher := {
  compute : Frontmatter → ustr → N;
  compute_canonical fm b : compute (canonical fm) b = compute fm b;
}.

Definition HISTORY_EXCLUDED_FIELDS : list ustr :=
  [lit "processed"; lit "covered-by"; lit "derived-into"; lit "updated"; lit "rank"; lit "privacy"].

Definition frontmatter_for_history (fm : Frontmatter) : Frontmatter :=
  let filtered := with_updated fm None in
  match fm_extra filtered with
  | None => filtered
  | Some extra_map =>
      let m := foldl (λ m key, if bool_decide (key ≠ lit "updated") then delete key m else m)
                 extra_map HISTORY_EXCLUDED_FIELDS in
      with_extra filtered (if bool_decide (m = ∅) then None else Some m)
  end.

(** The same canonical form and digest as [ContentHash::compute], on the filtered
    frontmatter. *)
Definition sha256_for_history `{ContentHasher} (note : Note) : N :=
  compute (frontmatter_for_history (frontmatter note)) (body note).

(** Trust scores, in hundredths. *)
Definition TRUST_SCORES : list (ustr * N) :=
  [(lit "human-decision", 95%N); (lit "qa-event", 75%N); (lit "distilled", 60%N);
   (lit "agent-log", 50%N); (lit "web-scraped", 35%N)].
Definition trust_for (provenance : ustr) : option N :=
  snd <$> head (filter (λ kv, kv.1 = provenance) TRUST_SCORES).
Definition resolve_provenance (section_hint : option ustr) : ustr :=
  match section_hint with
  | Some hint => default (lit "agent-log") (fst <$> head (filter (λ kv, kv.1 = hint) TRUST_SCORES))
  | None => lit "agent-log"
  end.

(** ** The file of a note *)

Class Yaml := {
  yaml_to_string : Frontmatter → option ustr;
  yaml_from_str : ustr → option Frontmatter;
}.

Record ParsedNote := mkParsed { p_frontmatter : Frontmatter; p_body : ustr; p_hash : N }.

Inductive MarkdownError := MissingFrontmatter | UnterminatedFrontmatter | YamlErr.

Definition DASHES : ustr := lit "---".
Definition CLOSE_MARKER : ustr := NL :: DASHES ++ [NL].

Section markdown.
Context `{Yaml} `{ContentHasher}.

Definition parse (raw : ustr) : result ParsedNote MarkdownError :=
  match strip_prefix (DASHES ++ [NL]) raw with
  | None => Err MissingFrontmatter
  | Some rest =>
      match split_once CLOSE_MARKER rest with
      | None => Err UnterminatedFrontmatter
      | Some (yaml_block, body_raw) =>
          match yaml_from_str yaml_block with
          | None => Err YamlErr
          | Some fm =>
              let body_str := default body_raw (strip_prefix [NL] body_raw) in
              Ok (mkParsed fm body_str (compute fm body_str))
          end
      end
  end.

Definition write_parsed (note : ParsedNote) : result ustr MarkdownError :=
  match yaml_to_string (p_frontmatter note) with
  | None => Err YamlErr
  | Some yaml => Ok (DASHES ++ [NL] ++ yaml ++ DASHES ++ [NL; NL] ++ p_body note)
  end.

Definition md_write (note : Note) : result ustr MarkdownError :=
  write_parsed (mkParsed (frontmatter note) (body note) (content_hash note)).
End markdown.

(** What the YAML crate is used for: a frontmatter that is printed is printed as a document that
    ends in a newline, has no line of three dashes, and reads back. *)
Class YamlLaws `{Yaml} := {
  yaml_reads_back fm text : yaml_to_string fm = Some text →
    ∃ doc, text = doc ++ [NL] ∧ yaml_from_str doc = Some (canonical fm)
           ∧ str_contains CLOSE_MARKER (doc ++ [NL]) = false;
}.

(** A printer that never refuses. *)
Class YamlPrints `{Yaml} := yaml_prints fm : is_Some (yaml_to_string fm).

(** ** Round trip *)

Lemma close_marker_first doc rest :
  str_contains CLOSE_MARKER (doc ++ [NL]) = false →
  split_once CLOSE_MARKER (doc ++ CLOSE_MARKER ++ rest) = Some (doc, rest).
Proof.
  intros Hno. eapply (split_once_local _ doc []). rewrite app_nil_r.
  destruct (split_once CLOSE_MARKER (doc ++ CLOSE_MARKER)) as [[a b]|] eqn:E.
  2:{ apply split_once_None in E. destruct E. exists doc, []. by rewrite app_nil_r. }
  apply split_once_sound in E. pose proof (f_equal length E) as Hlen.
  rewrite !length_app in Hlen. change (length CLOSE_MARKER) with 5 in Hlen.
  destruct b as [|c1 b]; [rewrite app_nil_r in E; by apply app_inv_tail in E as ->|].
  exfalso. cbn [length] in Hlen.
  destruct b as [|c2 [|c3 [|c4 b]]]; cbn [length] in Hlen.
  1,2,3: assert (Hk := f_equal (λ l, l !! length doc) E); cbn beta in Hk;
    rewrite lookup_app_r, Nat.sub_diag in Hk by lia;
    rewrite lookup_app_r in Hk by lia;
    replace (length doc - length a) with (length doc - length a) in Hk by lia.
  - replace (length doc - length a) with 1 in Hk by lia. done.
  - replace (length doc - length a) with 2 in Hk by lia. done.
  - replace (length doc - length a) with 3 in Hk by lia. done.
  - apply not_true_iff_false in Hno. apply Hno, str_contains_iff.
    exists a, (take (length b) (c1 :: c2 :: c3 :: c4 :: b)).
    apply (f_equal (take (length doc + 1))) in E.
    rewrite take_app_ge in E by lia. replace (length doc + 1 - length doc) with 1 in E by lia.
    rewrite take_app_ge in E by lia. rewrite take_app_ge in E by (change (length CLOSE_MARKER) with 5; lia).
    change (length CLOSE_MARKER) with 5 in E.
    replace (length doc + 1 - length a - 5) with (length b) in E by lia. exact E.
Qed.

Section roundtrip.
Context `{Yaml} `{ContentHasher}.

(** The file of a note whose printed frontmatter has no closing line. *)
Lemma md_write_parse note doc :
  yaml_to_string (frontmatter note) = Some (doc ++ [NL]) → str_contains CLOSE_MARKER (doc ++ [NL]) = false →
  ∃ text, md_write note = Ok text
  ∧ parse text = match yaml_from_str doc with
                 | Some fm => Ok (mkParsed fm (body note) (compute fm (body note)))
                 | None => Err YamlErr
                 end.
Proof.
  intros Hdoc Hno. unfold md_write, write_parsed, parse. cbn [p_frontmatter p_body]. rewrite Hdoc.
  eexists. split; [done|]. rewrite app_assoc, strip_prefix_app.
  replace ((doc ++ [NL]) ++ DASHES ++ [NL; NL] ++ body note)
    with (doc ++ CLOSE_MARKER ++ NL :: body note) by (by rewrite <-app_assoc).
  by rewrite close_marker_first by done.
Qed.

Lemma md_write_parses `{!YamlLaws} note text :
  md_write note = Ok text →
  parse text = Ok (mkParsed (canonical (frontmatter note)) (body note) (compute (frontmatter note) (body note))).
Proof.
  intros Hw. destruct (yaml_to_string (frontmatter note)) as [printed|] eqn:Ey.
  2:{ unfold md_write, write_parsed in Hw. cbn in Hw. by rewrite Ey in Hw. }
  destruct (yaml_reads_back _ _ Ey) as (doc & -> & Hfrom & Hno).
  destruct (md_write_parse note doc Ey Hno) as (text' & Hw' & Hp).
  rewrite Hw in Hw'. injection Hw' as <-. by rewrite Hp, Hfrom, compute_canonical.
Qed.
Lemma md_write_prints `{!YamlPrints} note : ∃ text, md_write note = Ok text.
Proof.
  unfold md_write, write_parsed. cbn. destruct (yaml_prints (frontmatter note)) as [text ->]. by eexists.
Qed.

(** C39: a note survives its file.  For any printer and reader of frontmatters: writing fails
    exactly when the frontmatter cannot be printed; and when it is printed as a document that
    ends in a newline and has no line of three dashes past its first one, what was written
    parses to whatever the reader makes of that very document, the body to the byte,
    whatever lines of dashes or newlines it holds, and the hash of the two.  The condition
    is the one the file format needs: a document with such a line is cut there, and what follows
    the line is read as the body. *)
Theorem note_file_roundtrip note :
  (md_write note = Err YamlErr ↔ yaml_to_string (frontmatter note) = None)
  ∧ ∀ doc, yaml_to_string (frontmatter note) = Some (doc ++ [NL]) →
      (str_contains CLOSE_MARKER (doc ++ [NL]) = false →
       ∃ text, md_write note = Ok text
       ∧ parse text = match yaml_from_str doc with
                      | Some fm => Ok (mkParsed fm (body note) (compute fm (body note)))
                      | None => Err YamlErr
                      end)
      ∧ (∀ doc1 doc2, doc ++ [NL] = doc1 ++ CLOSE_MARKER ++ doc2 → str_contains CLOSE_MARKER (doc1 ++ [NL]) = false →
         ∃ text rest, md_write note = Ok text
         ∧ parse text = match yaml_from_str doc1 with
                        | Some fm => Ok (mkParsed fm rest (compute fm rest))
                        | None => Err YamlErr
                        end
         ∧ length (body note) < length rest).
Proof.
  split; [|intros doc Hdoc; split].
  - unfold md_write, write_parsed. cbn. by destruct (yaml_to_string _).
  - by apply md_write_parse.
  - intros doc1 doc2 Hcut Hno. unfold md_write, write_parsed, parse. cbn [p_frontmatter p_body]. rewrite Hdoc.
    set (tail := doc2 ++ DASHES ++ [NL; NL] ++ body note).
    exists (DASHES ++ [NL] ++ (doc ++ [NL]) ++ DASHES ++ [NL; NL] ++ body note),
      (default tail (strip_prefix [NL] tail)).
    split; [done|]. rewrite Hcut. split.
    + rewrite app_assoc, strip_prefix_app.
      replace ((doc1 ++ CLOSE_MARKER ++ doc2) ++ DASHES ++ [NL; NL] ++ body note)
        with (doc1 ++ CLOSE_MARKER ++ tail) by (subst tail; by rewrite <-!app_assoc).
      by rewrite close_marker_first.
    + assert (length (body note) + 5 ≤ length tail) as Hlen.
      { subst tail. rewrite !length_app. change (length DASHES) with 3. cbn [length]. lia. }
      destruct (strip_prefix [NL] tail) as [rest|] eqn:Es; cbn; [|lia].
      apply strip_prefix_Some in Es. rewrite Es, length_app in Hlen. change (length [NL]) with 1 in Hlen. lia.
Qed.
End roundtrip.

(** ** A concrete codec

    The laws asked of the two crates can be met: a frontmatter printed as one character for
    each field, its number past those of a newline and a dash, and hashed, without
    collisions, as the number of the text. *)

#[export] Instance AuthorKind_eq_dec : EqDecision AuthorKind.
Proof. solve_decision. Defined.
#[export] Instance AuthorRef_eq_dec : EqDecision AuthorRef.
Proof. solve_decision. Defined.
#[export] Instance Frontmatter_eq_dec : EqDecision Frontmatter.
Proof. solve_decision. Defined.

(** An enumeration, by the position in the list of its values. *)
Definition position {A} `{EqDecision A} (l : list A) (a : A) : nat :=
  default 0 (fst <$> list_find (a =.) l).
Lemma position_lookup {A} `{EqDecision A} (l : list A) a : a ∈ l → l !! position l a = Some a.
Proof.
  intros Hin. unfold position. destruct (list_find (a =.) l) as [[i b]|] eqn:E.
  - by apply list_find_Some in E as (? & <- & _).
  - apply list_find_None in E. rewrite Forall_forall in E. by destruct (E a Hin).
Qed.

#[export] Program Instance NoteSection_countable : Countable NoteSection :=
  inj_countable (position Section_ALL) (λ n, Section_ALL !! n) _.
Next Obligation. intros s. apply position_lookup. destruct s; set_solver. Qed.
#[export] Program Instance NoteStatus_countable : Countable NoteStatus :=
  inj_countable (position NoteStatus_ALL) (λ n, NoteStatus_ALL !! n) _.
Next Obligation. intros s. apply position_lookup. destruct s; set_solver. Qed.
#[export] Program Instance AuthorKind_countable : Countable AuthorKind :=
  inj_countable (position [Human; MainAgent; SubAgent; System])
    (λ n, [Human; MainAgent; SubAgent; System] !! n) _.
Next Obligation. intros s. apply position_lookup. destruct s; set_solver. Qed.
#[export] Program Instance AuthorRef_countable : Countable AuthorRef :=
  inj_countable' (λ a, (au_kind a, au_id a, au_display_name a)) (λ '(k, i, d), mkAuthor k i d) _.
Next Obligation. by intros []. Qed.
Definition field_char {A} `{Countable A} (a : A) : uchar := (100 + Npos (encode a))%N.
Definition char_field {A} `{Countable A} (c : uchar) : option A :=
  match (c - 100)%N with Npos p => decode p | N0 => None end.
Lemma char_field_char {A} `{Countable A} (a : A) : char_field (field_char a) = Some a.
Proof.
  unfold char_field, field_char. replace (100 + Npos (encode a) - 100)%N with (Npos (encode a)) by lia.
  apply decode_encode.
Qed.

Definition print_fields (f : Frontmatter) : ustr :=
  [field_char (fm_schema_version f); field_char (fm_vault_id f); field_char (fm_locus f);
   field_char (fm_section f); field_char (fm_status f); field_char (fm_status_reason f);
   field_char (fm_status_changed f); field_char (fm_tags f); field_char (fm_author f);
   field_char (fm_created f); field_char (fm_updated f); field_char (fm_extra f);
   field_char (fm_provenance f); field_char (fm_forgotten f); field_char (fm_forgotten_at f);
   field_char (fm_forgotten_by f)].
Definition read_fields (s : ustr) : option Frontmatter :=
  match s with
  | [sv; vi; lo; se; st; sr; sc; ta; au; cr; up; ex; pr; fo; fa; fb] =>
      sv ← char_field sv; vi ← char_field vi; lo ← char_field lo; se ← char_field se;
      st ← char_field st; sr ← char_field sr; sc ← char_field sc; ta ← char_field ta;
      au ← char_field au; cr ← char_field cr; up ← char_field up; ex ← char_field ex;
      pr ← char_field pr; fo ← char_field fo; fa ← char_field fa; fb ← char_field fb;
      Some (mkFrontmatter sv vi lo se st sr sc ta au cr up ex pr fo fa fb)
  | _ => None
  end.
Lemma read_print_fields f : read_fields (print_fields f) = Some f.
Proof. unfold read_fields, print_fields. rewrite !char_field_char. by destruct f. Qed.
Lemma print_fields_high f c : c ∈ print_fields f → (100 < c)%N.
Proof.
  unfold print_fields, field_char. rewrite !elem_of_cons. intros H.
  repeat (destruct H as [->|H]; [lia|]). by apply not_elem_of_nil in H.
Qed.

#[local] Instance sample_yaml : Yaml := {
  yaml_to_string fm := Some (print_fields (canonical fm) ++ [NL]);
  yaml_from_str s := read_fields s;
}.
Lemma canonical_idemp fm : canonical (canonical fm) = canonical fm.
Proof.
  unfold canonical. destruct (extra_is_empty (fm_extra fm)) eqn:E; [|by rewrite E]. by destruct fm.
Qed.
#[local] Program Instance sample_hasher : ContentHasher := {
  compute fm b := Npos (encode (print_fields (canonical fm), b));
}.
Next Obligation. intros fm b. cbn. by rewrite canonical_idemp. Qed.

Lemma print_fields_unmarked fm : str_contains CLOSE_MARKER (print_fields (canonical fm) ++ [NL]) = false.
Proof.
  apply not_true_iff_false. intros (pre & post & E)%str_contains_iff.
  assert (45%N ∈ print_fields (canonical fm) ++ [NL]) as Hin.
  { rewrite E. apply elem_of_app. right. apply elem_of_app. left.
    apply (bool_decide_unpack _). vm_compute. exact I. }
  clear E. apply elem_of_app in Hin as [Hin%print_fields_high|Hin]; [lia|set_solver].
Qed.
#[local] Instance sample_yaml_laws : YamlLaws.
Proof.
  constructor. intros fm text Ht. exists (print_fields (canonical fm)).
  split; [by apply (inj Some) in Ht|]. split; [apply read_print_fields|].
  apply print_fields_unmarked.
Qed.
#[local] Instance sample_yaml_prints : YamlPrints.
Proof. intros fm. by eexists. Qed.

Definition sample_frontmatter : Frontmatter :=
  mkFrontmatter 1 (lit "main") None Decisions Draft None None [lit "kept"] None 0%Z None
    (Some ∅) None None None None.
Definition sample_note : Note :=
  mkNoteRec (lit "01A") sample_frontmatter (NL :: lit "a" ++ CLOSE_MARKER ++ lit "b") 1 7.

Lemma note_file_roundtrip_witness :
  ∃ text, md_write sample_note = Ok text
  ∧ parse text = Ok (mkParsed (canonical sample_frontmatter) (body sample_note)
                       (compute sample_frontmatter (body sample_note))).
Proof.
  destruct (note_file_roundtrip sample_note) as [_ H].
  destruct (H (print_fields (canonical sample_frontmatter)) eq_refl) as [Hok _].
  destruct (Hok (print_fields_unmarked _)) as (text & Hw & Hp).
  exists text. split; [exact Hw|]. rewrite Hp. cbn [yaml_from_str sample_yaml]. rewrite read_print_fields.
  rewrite compute_canonical. reflexivity.
Defined.
