(* ===== verification/NoteStore.v ===== *)
(** * NoteStore: what a vault stands on

    The storage of files ([crates/gradatum-storage/src/file.rs]) behind the write guard
    ([crates/gradatum-vault/src/note_write_guard.rs]), the index of notes with its
    full-text postings ([upsert_note] and the status fields of
    [crates/gradatum-index/src/sqlite.rs]), the registry of archives
    ([crates/gradatum-index/src/archive.rs]) and the cache of notes
    ([crates/gradatum-cache/src/effective_note.rs]).

    The operator under the storage is a finite map from paths to contents together with
    the class [Disk], which says which operations fail; a failed operation changes nothing.
    Directories hold no data and are left out.  A file holds a text, or bytes that are not
    UTF-8. *)

From S2P Require Import Prelude Text Job PrivacyPass Notes Markdown ProjectLinks ProjectBody ProjectServer.

#[local] Open Scope nat_scope.

(** ** Storage *)

Inductive disk_op := DiskRead | DiskWrite | DiskDelete | DiskList | DiskExists | DiskMkdir.
Class Disk := disk_fails : disk_op → ustr → bool.

Inductive StorageError :=
| NotFound (path : ustr)
| InvalidPath (path : ustr)
| OpenDal
| WriteRejected (path : ustr).

Inductive content := TextFile (s : ustr) | BinaryFile (bytes : list N).
Abbreviation files := (gmap ustr content).

Definition PATH_SEP : uchar := 47%N.

Definition validate_relative_path (path : ustr) : result unit StorageError :=
  if str_starts_with [PATH_SEP] path then Err (InvalidPath path)
  else if existsb (λ seg, bool_decide (seg = lit "..")) (split_on PATH_SEP path)
  then Err (InvalidPath path)
  else Ok tt.

Section storage.
Context {D : Disk}.

Definition fs_read (fs : files) (path : ustr) : result content StorageError :=
  _ ?<- validate_relative_path path;
  if disk_fails DiskRead path then Err OpenDal
  else match fs !! path with Some c => Ok c | None => Err (NotFound path) end.

Definition fs_write (fs : files) (path : ustr) (c : content) : result unit StorageError * files :=
  match validate_relative_path path with
  | Err e => (Err e, fs)
  | Ok _ => if disk_fails DiskWrite path then (Err OpenDal, fs) else (Ok tt, <[path := c]> fs)
  end.

Definition fs_delete (fs : files) (path : ustr) : result unit StorageError * files :=
  match validate_relative_path path with
  | Err e => (Err e, fs)
  | Ok _ =>
      if disk_fails DiskDelete path then (Err OpenDal, fs)
      else match fs !! path with
           | Some _ => (Ok tt, delete path fs)
           | None => (Err (NotFound path), fs)
           end
  end.

(** The files under a prefix, in some order. *)
Definition paths_under (prefix : ustr) (fs : files) : list ustr :=
  filter (λ p, str_starts_with prefix p = true) (map_to_list fs).*1.

Definition fs_list (fs : files) (prefix : ustr) : result (list ustr) StorageError :=
  _ ?<- validate_relative_path prefix;
  if disk_fails DiskList prefix then Err OpenDal else Ok (paths_under prefix fs).

(** [exists(path).unwrap_or(false)]. *)
Definition fs_exists (fs : files) (path : ustr) : bool :=
  is_ok (validate_relative_path path) && negb (disk_fails DiskExists path)
  && bool_decide (is_Some (fs !! path)).

Definition fs_create_dir (path : ustr) : result unit StorageError :=
  _ ?<- validate_relative_path path;
  if disk_fails DiskMkdir path then Err OpenDal else Ok tt.
End storage.

(** ** The write guard *)

Definition MD : ustr := lit ".md".

(** [s.strip_suffix(".md")]. *)
Definition strip_md (s : ustr) : option ustr := reverse <$> strip_prefix (reverse MD) (reverse s).

Section guard.
Context {UP : UlidParser} {D : Disk}.

Definition is_note_path (path : ustr) : bool :=
  if existsb (str_starts_with (lit ".")) (split_on PATH_SEP path) then false
  else match last (split_on PATH_SEP path) with
       | None => false
       | Some file =>
           match strip_md file with None => false | Some stem => ulid_from_string_ok stem end
       end.

(** [Storage::write] of the guard. *)
Definition guard_write (fs : files) (path : ustr) (c : content) : result unit StorageError * files :=
  if is_note_path path then (Err (WriteRejected path), fs) else fs_write fs path c.
Definition write_note_file : files → ustr → content → result unit StorageError * files := fs_write.
End guard.

(** ** The index *)

(** The columns of a note that writes and reads of the vault touch. *)
Record index_row := mkRow {
  r_locus : option ustr;
  r_section : ustr;
  r_status : ustr;
  r_status_reason : option ustr;
  r_status_changed : option Z;
  r_replaced_by : option ustr;
  r_schema_version : N;
  r_author : option AuthorRef;
  r_created : Z;
  r_updated : option Z;
  r_content_hash : N;
  r_version : N;
  r_body_text : ustr;
  r_extra : option (gmap ustr toml);
  r_tags : option ustr;
  r_c_kind : ustr;
  r_doc_kind : ustr;
  r_provenance : option ustr;
  r_trust : N;
  r_role_kind : option ustr;
  r_role_status : option ustr;
  r_title : option ustr;
}.

Record FileChecksumEntry := mkChecksum {
  expected_size : nat;
  expected_hash : N;
  expected_hash_prefix_4kb : N;
  expected_mtime : Z;
  last_verified : Z;
}.

Record ArchiveEntry := mkArchive {
  ar_note_id : ustr;
  ar_vault_id : ustr;
  ar_section : ustr;
  ar_title : option ustr;
  ar_original_locus : option ustr;
  archive_path : ustr;
  archived_at : Z;
  archived_by : option ustr;
  gc_due : Z;
  gc_at : option Z;
  restored_at : option Z;
}.

(** [postings] is the full-text index; [fts_corrupt] is set by a maintenance command that
    does not match what the index holds. *)
Record index := mkIndex {
  notes : gmap (ustr * ustr) index_row;
  postings : gmap (ustr * ustr) (ustr * ustr);
  fts_corrupt : bool;
  file_checksums : gmap ustr FileChecksumEntry;
  archives : list ArchiveEntry;
}.

(** [chrono]'s [timestamp_millis]. *)
Definition timestamp_millis (t : DateTime) : Z := (t `div` 1000000)%Z.

Definition tags_text (tags : list ustr) : ustr := join (lit " ") tags.

Section index_writes.
Context {UP : UlidParser}.

(** The row of a note that is not in the table yet. *)
Definition row_of_note (note : Note) : index_row :=
  let fm := frontmatter note in
  let roles := if bool_decide (fm_section fm = ProjectMap) then roles_of_body (body note)
               else mkRoles None None in
  let tags_str := tags_text (fm_tags fm) in
  mkRow (fm_locus fm) (section_as_str (fm_section fm)) (serde_kebab_repr (fm_status fm))
    (fm_status_reason fm) (timestamp_millis <$> fm_status_changed fm) None
    (fm_schema_version fm) (fm_author fm) (timestamp_millis (fm_created fm))
    (timestamp_millis <$> fm_updated fm) (content_hash note) (version note) (body note)
    (if extra_is_empty (fm_extra fm) then None else fm_extra fm)
    (if bool_decide (tags_str = []) then None else Some tags_str)
    (section_to_c_kind (fm_section fm)) (section_to_doc_kind (fm_section fm))
    (fm_provenance fm) (default 50%N (fm_provenance fm ≫= trust_for))
    (role_kind roles) (role_status roles) None.

(** [ON CONFLICT DO UPDATE]: the creation date, the title and the replacement are kept, the
    locus when the content is the same, the trust when the provenance is the same. *)
Definition merge_row (old excluded : index_row) : index_row :=
  mkRow (if bool_decide (r_content_hash old ≠ r_content_hash excluded) then r_locus excluded
         else r_locus old)
    (r_section excluded) (r_status excluded) (r_status_reason excluded)
    (r_status_changed excluded) (r_replaced_by old) (r_schema_version excluded)
    (r_author excluded) (r_created old) (r_updated excluded) (r_content_hash excluded)
    (r_version excluded) (r_body_text excluded) (r_extra excluded) (r_tags excluded)
    (r_c_kind excluded) (r_doc_kind excluded) (r_provenance excluded)
    (if bool_decide (r_provenance old ≠ r_provenance excluded) then r_trust excluded
     else r_trust old)
    (r_role_kind excluded) (r_role_status excluded) (r_title old).

(** The external-content commands of FTS5: removing postings that are not there, or
    inserting over postings that are, leaves the index undefined. *)
Definition fts_delete (k : ustr * ustr) (old : ustr * ustr) (ix : index) : index :=
  if bool_decide (postings ix !! k = Some old)
  then mkIndex (notes ix) (delete k (postings ix)) (fts_corrupt ix) (file_checksums ix) (archives ix)
  else mkIndex (notes ix) (postings ix) true (file_checksums ix) (archives ix).
Definition fts_insert (k : ustr * ustr) (new : ustr * ustr) (ix : index) : index :=
  if bool_decide (postings ix !! k = None)
  then mkIndex (notes ix) (<[k := new]> (postings ix)) (fts_corrupt ix) (file_checksums ix) (archives ix)
  else mkIndex (notes ix) (postings ix) true (file_checksums ix) (archives ix).

Definition upsert_note (note : Note) (ix : index) : index :=
  let k := (fm_vault_id (frontmatter note), note_id note) in
  let tags_str := tags_text (fm_tags (frontmatter note)) in
  let old := notes ix !! k in
  let row := match old with
             | Some r => merge_row r (row_of_note note)
             | None => row_of_note note
             end in
  let ix1 := mkIndex (<[k := row]> (notes ix)) (postings ix) (fts_corrupt ix)
               (file_checksums ix) (archives ix) in
  let ix2 := match old with
             | Some r => fts_delete k (r_body_text r, default [] (r_tags r)) ix1
             | None => ix1
             end in
  fts_insert k (body note, tags_str) ix2.
End index_writes.

Definition get_note (ix : index) (vault_id id : ustr) : option index_row :=
  if is_sentinel id then None else notes ix !! (vault_id, id).
Definition get_content_hash (ix : index) (vault_id id : ustr) : option N :=
  r_content_hash <$> notes ix !! (vault_id, id).

Record IndexStatusSnapshot := mkStatusSnapshot {
  ss_status : ustr;
  ss_status_reason : option ustr;
  ss_status_changed_ms : option Z;
  ss_replaced_by : option ustr;
}.
Definition get_index_status_snapshot (ix : index) (vault_id id : ustr) : option IndexStatusSnapshot :=
  (λ r, mkStatusSnapshot (r_status r) (r_status_reason r) (r_status_changed r) (r_replaced_by r))
    <$> notes ix !! (vault_id, id).

Definition with_index_status (s : IndexStatusSnapshot) (r : index_row) : index_row :=
  mkRow (r_locus r) (r_section r) (ss_status s) (ss_status_reason s) (ss_status_changed_ms s)
    (ss_replaced_by s) (r_schema_version r) (r_author r) (r_created r) (r_updated r)
    (r_content_hash r) (r_version r) (r_body_text r) (r_extra r) (r_tags r) (r_c_kind r)
    (r_doc_kind r) (r_provenance r) (r_trust r) (r_role_kind r) (r_role_status r) (r_title r).

(** [false] when no row matched. *)
Definition restore_index_status_fields (ix : index) (vault_id id : ustr) (s : IndexStatusSnapshot)
    : bool * index :=
  match notes ix !! (vault_id, id) with
  | None => (false, ix)
  | Some r =>
      (true, mkIndex (<[(vault_id, id) := with_index_status s r]> (notes ix)) (postings ix)
               (fts_corrupt ix) (file_checksums ix) (archives ix))
  end.

Definition upsert_file_checksum (path : ustr) (e : FileChecksumEntry) (ix : index) : index :=
  mkIndex (notes ix) (postings ix) (fts_corrupt ix) (<[path := e]> (file_checksums ix)) (archives ix).

(** ** The registry of archives *)

Definition is_active (e : ArchiveEntry) : bool :=
  bool_decide (gc_at e = None) && bool_decide (restored_at e = None).
Definition is_active_of (vault_id note_id : ustr) (e : ArchiveEntry) : bool :=
  bool_decide (ar_note_id e = note_id) && bool_decide (ar_vault_id e = vault_id) && is_active e.

Definition with_archives (ix : index) (l : list ArchiveEntry) : index :=
  mkIndex (notes ix) (postings ix) (fts_corrupt ix) (file_checksums ix) l.

(** [false] when the unique index on active rows refuses the row. *)
Definition insert_archive_entry (e : ArchiveEntry) (ix : index) : bool * index :=
  if is_active e && existsb (is_active_of (ar_vault_id e) (ar_note_id e)) (archives ix)
  then (false, ix)
  else (true, with_archives ix (archives ix ++ [e])).

Definition get_active_archive (ix : index) (vault_id note_id : ustr) : option ArchiveEntry :=
  head (filter (λ e, is_active_of vault_id note_id e = true) (archives ix)).

Definition ARCHIVE_LIST_MAX : nat := 500.

Definition gc_before (a b : ArchiveEntry) : bool := (gc_due a <=? gc_due b)%Z.
Definition select_gc_due_archives (ix : index) (now_ms : Z) (limit : nat) : list ArchiveEntry :=
  take (Nat.min limit ARCHIVE_LIST_MAX)
    (merge_sort (λ a b, gc_before a b)
       (filter (λ e, (gc_due e <? now_ms)%Z && is_active e = true) (archives ix))).

(** [UPDATE archive_index SET … WHERE …]: how many rows changed, and the table. *)
Definition update_active (vault_id note_id : ustr) (f : ArchiveEntry → ArchiveEntry) (ix : index)
    : bool * index :=
  (existsb (is_active_of vault_id note_id) (archives ix),
   with_archives ix ((λ e, if is_active_of vault_id note_id e then f e else e) <$> archives ix)).

Definition with_gc_at (t : Z) (e : ArchiveEntry) : ArchiveEntry :=
  mkArchive (ar_note_id e) (ar_vault_id e) (ar_section e) (ar_title e) (ar_original_locus e)
    (archive_path e) (archived_at e) (archived_by e) (gc_due e) (Some t) (restored_at e).
Definition with_restored_at (t : Z) (e : ArchiveEntry) : ArchiveEntry :=
  mkArchive (ar_note_id e) (ar_vault_id e) (ar_section e) (ar_title e) (ar_original_locus e)
    (archive_path e) (archived_at e) (archived_by e) (gc_due e) (gc_at e) (Some t).

Definition mark_archive_gc (vault_id note_id : ustr) (t : Z) : index → bool * index :=
  update_active vault_id note_id (with_gc_at t).
Definition mark_archive_restored (vault_id note_id : ustr) (t : Z) : index → bool * index :=
  update_active vault_id note_id (with_restored_at t).

Record ArchiveListFilter := mkArchiveFilter {
  f_vault_id : option ustr;
  f_section : option ustr;
  f_from_ms : option Z;
  f_until_ms : option Z;
  f_include_gc : bool;
  f_include_restored : bool;
  f_limit : nat;
  f_offset : nat;
}.

Definition archive_matches (f : ArchiveListFilter) (e : ArchiveEntry) : bool :=
  (f_include_gc f || bool_decide (gc_at e = None))
  && (f_include_restored f || bool_decide (restored_at e = None))
  && unless_null (f_vault_id f) (λ v, bool_decide (ar_vault_id e = v))
  && unless_null (f_section f) (λ s, bool_decide (ar_section e = s))
  && unless_null (f_from_ms f) (λ t, (t <=? archived_at e)%Z)
  && unless_null (f_until_ms f) (λ t, (archived_at e <=? t)%Z).

(** [ORDER BY archived_at DESC, id DESC]: the table is in the order of its ids, and the sort
    keeps the order of equal rows. *)
Definition archived_later (a b : ArchiveEntry) : bool := (archived_at b <=? archived_at a)%Z.
Definition list_archive_entries (ix : index) (f : ArchiveListFilter) : list ArchiveEntry :=
  take (Nat.min (f_limit f) ARCHIVE_LIST_MAX)
    (drop (f_offset f)
       (merge_sort (λ a b, archived_later a b)
          (filter (λ e, archive_matches f e = true) (reverse (archives ix))))).

(** ** The cache *)

Definition cache_key : Type := ustr * ustr * N.
Abbreviation cache := (gmap (ustr * ustr * N) (Note * N)).

(** [EffectiveNoteCache::get] with a validator that reads the current hash: an entry whose
    hash is no longer current is dropped, and a validator that fails leaves it. *)
Definition cache_get {E : Type} (c : cache) (k : cache_key) (live : result N E)
    : result (option Note) E * cache :=
  match c !! k with
  | None => (Ok None, c)
  | Some (value, h) =>
      match live with
      | Err e => (Err e, c)
      | Ok live_hash =>
          if bool_decide (live_hash = h) then (Ok (Some value), c) else (Ok None, delete k c)
      end
  end.
Definition cache_insert (c : cache) (k : cache_key) (value : Note) (h : N) : cache :=
  <[k := (value, h)]> c.

(** ** Lemmas *)

Definition fts_ok (ix : index) : Prop :=
  fts_corrupt ix = false
  ∧ ∀ k, postings ix !! k = (λ r, (r_body_text r, default [] (r_tags r))) <$> notes ix !! k.

(** Writing a note keeps the full-text index in step with the table. *)
Lemma upsert_fts_ok {UP : UlidParser} note ix : fts_ok ix → fts_ok (upsert_note note ix).
Proof.
  intros [Hc Hp]. unfold upsert_note.
  set (k := (fm_vault_id (frontmatter note), note_id note)).
  set (row := match notes ix !! k with
              | Some r => merge_row r (row_of_note note) | None => row_of_note note end).
  assert (r_body_text row = body note ∧ default [] (r_tags row) = tags_text (fm_tags (frontmatter note)))
    as [Hb Ht].
  { subst row. destruct (notes ix !! k); cbn; (split; [done|]); by case_bool_decide as E; cbn; rewrite ?E. }
  assert (∀ ix2, fts_corrupt ix2 = false → notes ix2 = <[k:=row]> (notes ix) →
    postings ix2 = delete k (postings ix) →
    fts_ok (fts_insert k (body note, tags_text (fm_tags (frontmatter note))) ix2)) as Hins.
  { intros ix2 H1 H2 H3. unfold fts_insert. rewrite H3, lookup_delete_eq, bool_decide_eq_true_2 by done.
    split; cbn [fts_corrupt postings notes]; [done|]. intros k'. rewrite H2, insert_delete_eq.
    destruct (decide (k = k')) as [<-|Hk]; [by rewrite !lookup_insert_eq; cbn; rewrite Hb, Ht|].
    rewrite !lookup_insert_ne by done. apply Hp. }
  destruct (notes ix !! k) as [r|] eqn:Ek.
  - unfold fts_delete. cbn [postings notes fts_corrupt]. rewrite Hp, Ek.
    rewrite bool_decide_eq_true_2 by done. by apply Hins.
  - apply Hins; [done|done|]. cbn [postings]. symmetry. apply delete_id. by rewrite Hp, Ek.
Qed.

Lemma upsert_notes {UP : UlidParser} note ix :
  let k := (fm_vault_id (frontmatter note), note_id note) in
  notes (upsert_note note ix)
  = <[k := match notes ix !! k with
           | Some r => merge_row r (row_of_note note) | None => row_of_note note end]> (notes ix)
  ∧ archives (upsert_note note ix) = archives ix.
Proof.
  cbn zeta. unfold upsert_note, fts_insert, fts_delete. destruct (notes ix !! _); repeat case_bool_decide; done.
Qed.
