(* ===== verification/Vault.v ===== *)
(** * Vault: the life of a note on disk and in the index

    [crates/gradatum-vault/src/lifecycle.rs] and [write.rs]: writing a note through the one
    insertion point, with copy-on-write history and its retention; reading through the
    cache; compare-and-swap; changes of status, locus and tags; deletion, archiving,
    restoring and the collection of archives.  The detection of personal data that a write
    consults is the class [PrivacyStage]; digests of files are [FileDigest]. *)

From S2P Require Import Prelude Text Job PrivacyPass Notes Markdown ProjectLinks ProjectBody ProjectServer NoteStore.

#[local] Open Scope nat_scope.

(** ** Numbers in file names *)

(** [format!("{n}")] of an [i64], and [parse::<i64>()]. *)
Definition fmt_i64 (z : Z) : ustr :=
  if (z <? 0)%Z then lit "-" ++ fmt_nat (Z.abs_N z) else fmt_nat (Z.abs_N z).

Definition digits_value (s : ustr) : N := foldl (λ n c, n * 10 + (c - 48))%N 0%N s.
Definition parse_i64 (s : ustr) : option Z :=
  let '(neg, digits) := match s with
                        | 45%N :: s' => (true, s')
                        | 43%N :: s' => (false, s')
                        | _ => (false, s)
                        end in
  if bool_decide (digits = []) || negb (forallb is_digit digits) then None
  else
    let z := if neg : bool then (- Z.of_N (digits_value digits))%Z else Z.of_N (digits_value digits) in
    if ((- 2 ^ 63 <=? z) && (z <? 2 ^ 63))%Z then Some z else None.

(** ** What a vault needs *)

Class VaultConfig := {
  self_vault_id : ustr;
  max_versions : nat;
  ttl_days : option N;
}.

Class FileDigest := { digest_full : ustr → N; digest_prefix_4kb : ustr → N }.

(** The detection pass of a write: what it reports for a vault, a section and a body; whether
    the policy masks; whether the detector failed to answer; what the verdict does to the
    frontmatter, given the previous version; the body to persist, and whether it was
    rewritten. *)
Class PrivacyStage := {
  PassOutcome : Type;
  run_privacy_pass : ustr → NoteSection → ustr → option PassOutcome;
  masks_bodies : bool;
  detector_unavailable : PassOutcome → bool;
  decide_privacy : Frontmatter → option Note → option PassOutcome → Frontmatter;
  masked_body : ustr → option PassOutcome → ustr * bool;
}.

Inductive VaultError :=
| NoteNotFound (id : ustr)
| InvalidStatusTransition (from to : NoteStatus)
| VaultConflict (id : ustr)
| MaskRefused
| TooManyTags (n : nat)
| VaultTag (e : tag_error)
| VaultStorage (e : StorageError)
| VaultMarkdown (e : MarkdownError)
| NotUtf8
| IndexRefused.

Record vault := mkVault {
  v_files : files;
  v_index : index;
  v_cache : cache;
  v_cache_hits : N;
}.
Definition with_files (v : vault) (fs : files) : vault :=
  mkVault fs (v_index v) (v_cache v) (v_cache_hits v).
Definition with_index (v : vault) (ix : index) : vault :=
  mkVault (v_files v) ix (v_cache v) (v_cache_hits v).

(** A computation on the vault. *)
Definition VM (A : Type) : Type := vault → result A VaultError * vault.
Definition vm_bind {A B} (c : VM A) (k : A → VM B) : VM B :=
  λ v, let '(r, v') := c v in match r with Ok a => k a v' | Err e => (Err e, v') end.
Definition vm_ret {A} (a : A) : VM A := λ v, (Ok a, v).
Definition vm_fail {A} (e : VaultError) : VM A := λ v, (Err e, v).
Notation "x <-! c ; k" := (vm_bind c (λ x, k))
  (at level 60, c at next level, right associativity) : gradatum_scope.

(** Paths. *)
Definition path_with (vault_id dir id : ustr) : ustr :=
  vault_id ++ [PATH_SEP] ++ dir ++ [PATH_SEP] ++ id ++ MD.
Definition path_no_locus (vault_id id : ustr) : ustr := vault_id ++ [PATH_SEP] ++ id ++ MD.
Definition note_md_relative_path (note : Note) : ustr :=
  let tenant := fm_vault_id (frontmatter note) in
  match fm_locus (frontmatter note) with
  | Some locus => path_with tenant locus (note_id note)
  | None => path_no_locus tenant (note_id note)
  end.
Definition history_dir (tenant id : ustr) : ustr :=
  tenant ++ lit "/.history/" ++ id ++ [PATH_SEP].
Definition snapshot_path (tenant id : ustr) (ts_ms : Z) : ustr :=
  history_dir tenant id ++ fmt_i64 ts_ms ++ MD.
Definition ARCHIVE_DIR_PREFIX : ustr := lit ".archive/".
Definition MAX_NOTE_TAGS : nat := 200.

Section lifecycle.
Context {UP : UlidParser} {D : Disk} {CH : ContentHasher} {Y : Yaml} {FD : FileDigest}
        {PS : PrivacyStage} {VC : VaultConfig}.

(** ** Reading *)

(** [record.locus.filter(|l| !l.is_empty())]. *)
Definition nonempty_locus (row : index_row) : option ustr :=
  match r_locus row with Some [] | None => None | Some l => Some l end.

(** The first path that exists: the explicit locus, the root of the vault, the section. *)
Definition resolve_md_path (fs : files) (vault_id : ustr) (row : index_row) (id : ustr) : ustr :=
  let no_locus := path_no_locus vault_id id in
  let with_section := path_with vault_id (r_section row) id in
  match nonempty_locus row with
  | Some locus =>
      let with_locus := path_with vault_id locus id in
      if fs_exists fs with_locus then with_locus
      else if fs_exists fs no_locus then no_locus else with_section
  | None => if fs_exists fs no_locus then no_locus else with_section
  end.

(** Decoding and parsing the bytes of a note. *)
Definition note_of_content (id : ustr) (c : content) : result Note VaultError :=
  match c with
  | BinaryFile _ => Err NotUtf8
  | TextFile s =>
      match parse s with
      | Err e => Err (VaultMarkdown e)
      | Ok p => Ok (mkNoteRec id (p_frontmatter p) (p_body p) NoteVersion_initial (p_hash p))
      end
  end.

Definition read_note_from_record (fs : files) (vault_id : ustr) (row : index_row) (id : ustr)
    : result Note VaultError :=
  match fs_read fs (resolve_md_path fs vault_id row id) with
  | Err (NotFound _) => Err (NoteNotFound id)
  | Err e => Err (VaultStorage e)
  | Ok c => note_of_content id c
  end.

Definition read_note_in (v : vault) (vault_id id : ustr) : result Note VaultError :=
  match get_note (v_index v) vault_id id with
  | None => Err (NoteNotFound id)
  | Some row => read_note_from_record (v_files v) vault_id row id
  end.

Definition read_note (id : ustr) : VM Note :=
  λ v,
    let key : cache_key := (self_vault_id, id, 0%N) in
    let live := match get_content_hash (v_index v) self_vault_id id with
                | Some h => Ok h | None => Err (NoteNotFound id) end in
    let '(cached, c') := cache_get (v_cache v) key live in
    let v' := mkVault (v_files v) (v_index v) c' (v_cache_hits v) in
    match cached with
    | Err e => (Err e, v')
    | Ok (Some n) =>
        (Ok (mkNoteRec id (frontmatter n) (body n) (version n) (content_hash n)),
         mkVault (v_files v) (v_index v) c' (v_cache_hits v + 1)%N)
    | Ok None =>
        match read_note_in v' self_vault_id id with
        | Err e => (Err e, v')
        | Ok note =>
            (Ok note, mkVault (v_files v) (v_index v)
                        (cache_insert c' key note (content_hash note)) (v_cache_hits v))
        end
    end.

(** ** History *)

(** [basename.strip_suffix(".md")?.parse::<i64>().ok()]. *)
Definition snapshot_ts (path : ustr) : option Z :=
  basename ← last (split_on PATH_SEP path); stem ← strip_md basename; parse_i64 stem.

Definition z_le (a b : Z) : bool := (a <=? b)%Z.
Definition history_versions (fs : files) (id : ustr) : result (list Z) StorageError :=
  match fs_list fs (history_dir self_vault_id id) with
  | Ok entries => Ok (merge_sort (λ a b, z_le a b) (omap snapshot_ts entries))
  | Err (NotFound _) => Ok []
  | Err e => Err e
  end.

Definition history_get (fs : files) (id : ustr) (ts_ms : Z) : result Note VaultError :=
  match fs_read fs (snapshot_path self_vault_id id ts_ms) with
  | Err e => Err (VaultStorage e)
  | Ok c => note_of_content id c
  end.

(** [let _ = storage.delete(path)]. *)
Definition delete_quietly (fs : files) (path : ustr) : files := (fs_delete fs path).2.

Definition expired (now_ms : N) (days : N) (ts : Z) : bool :=
  let ttl_ms := Z.to_N (u64_saturating_mul (Z.of_N days) 86400000) in
  let cutoff_ms := (now_ms - ttl_ms)%N in
  (Z.to_N ts <? cutoff_ms)%N.

(** The snapshots are listed under the vault of the instance, and deleted under [tenant]. *)
Definition apply_history_trim (fs : files) (id tenant : ustr) (now_ms : N) : files :=
  match history_versions fs id with
  | Err _ => fs
  | Ok versions =>
      let gone := match ttl_days with
                  | Some days => filter (λ ts, expired now_ms days ts = true) versions
                  | None => []
                  end in
      let fs1 := foldl (λ fs ts, delete_quietly fs (snapshot_path tenant id ts)) fs gone in
      let kept := filter (λ ts, ts ∉ gone) versions in
      let effective_max := Nat.max max_versions 1 in
      if length kept <=? effective_max then fs1
      else foldl (λ fs ts, delete_quietly fs (snapshot_path tenant id ts)) fs1
             (take (length kept - effective_max) kept)
  end.

Definition purge_step (acc : nat * nat * files) (path : ustr) : nat * nat * files :=
  let '(destroyed, failed, fs) := acc in
  match fs_delete fs path with
  | (Ok _, fs') => (S destroyed, failed, fs')
  | (Err _, fs') => (destroyed, S failed, fs')
  end.
Definition purge_history_dir (fs : files) (id tenant : ustr) : nat * nat * files :=
  match fs_list fs (history_dir tenant id) with
  | Err _ => (0, 0, fs)
  | Ok entries => foldl purge_step (0, 0, fs) entries
  end.

(** ** Writing *)

(** The clock readings of one write. *)
Record write_clock := mkClock { ck_updated : DateTime; ck_trim : DateTime; ck_checksum : DateTime }.

(** Copy-on-write: what happens to the previous version.  Nothing here can fail the write. *)
Definition keep_history (fs : files) (note : Note) (existing : option Note) (body_masked : bool)
    (now_trim : DateTime) : files :=
  match existing with
  | None => fs
  | Some prev =>
      let tenant := fm_vault_id (frontmatter prev) in
      if body_masked then (purge_history_dir fs (note_id prev) tenant).2
      else if bool_decide (sha256_for_history prev = sha256_for_history note) then fs
      else
        let ts_ms := timestamp_millis (default (fm_created (frontmatter prev))
                                         (fm_updated (frontmatter prev))) in
        match fs_read fs (note_md_relative_path prev) with
        | Err _ => fs
        | Ok current_bytes =>
            match fs_create_dir (history_dir tenant (note_id prev)) with
            | Err _ => fs
            | Ok _ =>
                match guard_write fs (snapshot_path tenant (note_id prev) ts_ms) current_bytes with
                | (Err _, fs') => fs'
                | (Ok _, fs') =>
                    apply_history_trim fs' (note_id note) tenant
                      (Z.to_N (Z.max (timestamp_millis now_trim) 0))
                end
            end
        end
  end.

Definition checksum_entry (md : ustr) (now : DateTime) : FileChecksumEntry :=
  let now_secs := (now `div` 1000000000)%Z in
  mkChecksum (str_len md) (digest_full md) (digest_prefix_4kb md) now_secs now_secs.

Definition write_note_judged (fm0 : Frontmatter) (body0 id : ustr) (reuse : option PassOutcome)
    (ck : write_clock) : VM Note :=
  λ v,
    let fm1 := if bool_decide (fm_vault_id fm0 = []) then with_vault_id fm0 self_vault_id else fm0 in
    let write_vault := fm_vault_id fm1 in
    let outcome := match reuse with
                   | Some o => Some o
                   | None => run_privacy_pass write_vault (fm_section fm1) body0
                   end in
    if masks_bodies && match outcome with Some o => detector_unavailable o | None => false end
    then (Err MaskRefused, v)
    else
      let go existing :=
        let fm2 := with_updated (decide_privacy fm1 existing outcome) (Some (ck_updated ck)) in
        let '(body1, body_masked) := masked_body body0 outcome in
        let note := mkNoteRec id fm2 body1 NoteVersion_initial (compute fm2 body1) in
        let fs1 := keep_history (v_files v) note existing body_masked (ck_trim ck) in
        match md_write note with
        | Err e => (Err (VaultMarkdown e), with_files v fs1)
        | Ok md_content =>
            let md_path := note_md_relative_path note in
            match write_note_file fs1 md_path (TextFile md_content) with
            | (Err e, fs2) => (Err (VaultStorage e), with_files v fs2)
            | (Ok _, fs2) =>
                (Ok note,
                 with_index (with_files v fs2)
                   (upsert_file_checksum md_path (checksum_entry md_content (ck_checksum ck))
                      (upsert_note note (v_index v))))
            end
        end in
      match read_note_in v write_vault id with
      | Ok prev => go (Some prev)
      | Err (NoteNotFound _) => go None
      | Err e => (Err e, v)
      end.

Definition write_note_inner (fm : Frontmatter) (body id : ustr) (ck : write_clock) : VM Note :=
  write_note_judged fm body id None ck.
Definition write_note_with_id : Frontmatter → ustr → ustr → write_clock → VM Note := write_note_inner.
Definition write_note (fm : Frontmatter) (body new_id : ustr) (ck : write_clock) : VM Note :=
  write_note_inner fm body new_id ck.

Inductive WriteResult := Written (new_sha256 : N) | Conflict (current_sha256 : N).

(** The two halves of [write_if_match]: the comparison, whose answer is the hash of a conflict,
    and the write.  Nothing keeps another writer out between them. *)
Definition check_expected (id : ustr) (expected_sha256 : option N) : VM (option N) :=
  match expected_sha256 with
  | None => vm_ret None
  | Some expected =>
      λ v,
        match read_note id v with
        | (Ok existing, v') =>
            if bool_decide (content_hash existing ≠ expected)
            then (Ok (Some (content_hash existing)), v')
            else (Ok None, v')
        | (Err (NoteNotFound _), v') => (Ok None, v')
        | (Err e, v') => (Err e, v')
        end
  end.
Definition write_checked (fm : Frontmatter) (body id : ustr) (ck : write_clock) : VM WriteResult :=
  written <-! write_note_inner fm body id ck;
  vm_ret (Written (content_hash written)).

Definition write_if_match (fm : Frontmatter) (body id : ustr) (expected_sha256 : option N)
    (ck : write_clock) : VM WriteResult :=
  conflict <-! check_expected id expected_sha256;
  match conflict with
  | Some current => vm_ret (Conflict current)
  | None => write_checked fm body id ck
  end.

(** ** Changes of a note *)

Definition update_status (id : ustr) (target : NoteStatus) (reason : option ustr)
    (now : DateTime) (ck : write_clock) : VM unit :=
  note <-! read_note id;
  let current := fm_status (frontmatter note) in
  if bool_decide (current = target) then vm_ret tt
  else if negb (can_transition_to current target)
  then vm_fail (InvalidStatusTransition current target)
  else
    _ <-! write_note_with_id (with_status (frontmatter note) target reason (Some now))
            (body note) id ck;
    vm_ret tt.

(** Where the file of a note may be before a move, in the order of the search. *)
Definition old_path_candidates (note : Note) (id : ustr) : list ustr :=
  match fm_locus (frontmatter note) with
  | Some [] | None => []
  | Some loc => [path_with self_vault_id loc id]
  end
  ++ [path_no_locus self_vault_id id;
      path_with self_vault_id (section_as_str (fm_section (frontmatter note))) id].

(** The first candidate that exists and is not the new file is removed; a failure is kept
    quiet. *)
Fixpoint drop_old (fs : files) (new_path : ustr) (candidates : list ustr) : files :=
  match candidates with
  | [] => fs
  | old_path :: rest =>
      if bool_decide (old_path = new_path) then drop_old fs new_path rest
      else if fs_exists fs old_path then delete_quietly fs old_path
      else drop_old fs new_path rest
  end.

Definition move_locus (id new_locus : ustr) (ck : write_clock) : VM unit :=
  note <-! read_note id;
  if bool_decide (fm_locus (frontmatter note) = Some new_locus) then vm_ret tt
  else
    λ v,
      let status_snapshot := get_index_status_snapshot (v_index v) self_vault_id id in
      (written <-! write_note_with_id (with_locus (frontmatter note) (Some new_locus)) (body note) id ck;
       λ v1,
         let v2 := match status_snapshot with
                   | Some snapshot =>
                       with_index v1
                         (restore_index_status_fields (v_index v1) self_vault_id id snapshot).2
                   | None => v1
                   end in
         (Ok tt, with_files v2 (drop_old (v_files v2) (note_md_relative_path written)
                                  (old_path_candidates note id)))) v.

(** One pass of the loop of [add_tags]: the forms seen, the tags, whether one was added. *)
Definition union_tag (acc : list ustr * list ustr * bool) (raw : ustr)
    : result (list ustr * list ustr * bool) VaultError :=
  let '(seen_lower, tags, changed) := acc in
  match Tag_new raw with
  | Err e => Err (VaultTag e)
  | Ok tag =>
      let lower := to_ascii_lowercase tag in
      if bool_decide (lower ∈ seen_lower) then Ok acc
      else Ok (lower :: seen_lower, tags ++ [tag], true)
  end.
Fixpoint union_tags (acc : list ustr * list ustr * bool) (new_tags : list ustr)
    : result (list ustr * list ustr * bool) VaultError :=
  match new_tags with
  | [] => Ok acc
  | raw :: rest => acc' ?<- union_tag acc raw; union_tags acc' rest
  end.

Definition add_tags (id : ustr) (new_tags : list ustr) (ck : write_clock) : VM unit :=
  note <-! read_note id;
  let tags0 := fm_tags (frontmatter note) in
  match union_tags (to_ascii_lowercase <$> tags0, tags0, false) new_tags with
  | Err e => vm_fail e
  | Ok (_, tags, changed) =>
      if negb changed then vm_ret tt
      else if MAX_NOTE_TAGS <? length tags then vm_fail (TooManyTags (length tags))
      else
        _ <-! write_note_with_id (with_tags (frontmatter note) tags) (body note) id ck;
        vm_ret tt
  end.

(** ** Deletion and archives *)

Definition delete_note_in (vault_id id : ustr) : VM unit :=
  λ v,
    match get_note (v_index v) vault_id id with
    | None => (Err (NoteNotFound id), v)
    | Some row =>
        match fs_delete (v_files v) (resolve_md_path (v_files v) vault_id row id) with
        | (Err e, fs') => (Err (VaultStorage e), with_files v fs')
        | (Ok _, fs') => (Ok tt, with_files v (purge_history_dir fs' id vault_id).2)
        end
    end.
Definition delete_note (id : ustr) : VM unit := delete_note_in self_vault_id id.

(** Read, write, delete: the destination exists before the source goes. *)
Definition move_file (fs : files) (src dest : ustr) : result unit VaultError * files :=
  match fs_read fs src with
  | Err e => (Err (VaultStorage e), fs)
  | Ok c =>
      match guard_write fs dest c with
      | (Err e, fs1) => (Err (VaultStorage e), fs1)
      | (Ok _, fs1) =>
          match fs_delete fs1 src with
          | (Err e, fs2) => (Err (VaultStorage e), fs2)
          | (Ok _, fs2) => (Ok tt, fs2)
          end
      end
  end.

Definition archive_history_dir (fs : files) (id tenant : ustr) : files :=
  match fs_list fs (history_dir tenant id) with
  | Err _ => fs
  | Ok entries => foldl (λ fs p, (move_file fs p (ARCHIVE_DIR_PREFIX ++ p)).2) fs entries
  end.

Record ArchiveOutcome := mkArchiveOutcome {
  ao_archive_path : ustr;
  ao_section : ustr;
  ao_original_locus : option ustr;
  ao_title : option ustr;
}.

(** A second archive of the same path takes a name with the time. *)
Definition archive_dest (fs : files) (src_md : ustr) (now_ms : Z) : ustr :=
  let dest_md := ARCHIVE_DIR_PREFIX ++ src_md in
  if fs_exists fs dest_md
  then ARCHIVE_DIR_PREFIX ++ default src_md (strip_md src_md) ++ lit "-" ++ fmt_i64 now_ms ++ MD
  else dest_md.

Definition archive_note_in (vault_id id : ustr) (by_whom : option ustr) (gc_due_ms : Z)
    (now : DateTime) : VM ArchiveOutcome :=
  λ v,
    match get_note (v_index v) vault_id id with
    | None => (Err (NoteNotFound id), v)
    | Some row =>
        let src_md := resolve_md_path (v_files v) vault_id row id in
        let now_ms := timestamp_millis now in
        let dest_md := archive_dest (v_files v) src_md now_ms in
        match move_file (v_files v) src_md dest_md with
        | (Err e, fs1) => (Err e, with_files v fs1)
        | (Ok _, fs1) =>
            let v2 := with_files v (archive_history_dir fs1 id vault_id) in
            let entry := mkArchive id vault_id (r_section row) (r_title row) (nonempty_locus row)
                           dest_md now_ms by_whom gc_due_ms None None in
            match insert_archive_entry entry (v_index v2) with
            | (false, _) => (Err IndexRefused, v2)
            | (true, ix) =>
                (Ok (mkArchiveOutcome dest_md (r_section row) (nonempty_locus row) (r_title row)),
                 with_index v2 ix)
            end
        end
    end.
Definition archive_note (id : ustr) : option ustr → Z → DateTime → VM ArchiveOutcome :=
  archive_note_in self_vault_id id.

(** The archived history is looked for under the vault of the instance. *)
Definition delete_archive_files (fs : files) (id archive_md_path : ustr) : files :=
  let fs1 := delete_quietly fs archive_md_path in
  match fs_list fs1 (ARCHIVE_DIR_PREFIX ++ history_dir self_vault_id id) with
  | Err _ => fs1
  | Ok entries => foldl delete_quietly fs1 entries
  end.

Definition gc_step (now_ms : Z) (acc : nat * vault) (entry : ArchiveEntry) : nat * vault :=
  let '(destroyed, v) := acc in
  let v1 := with_files v (delete_archive_files (v_files v) (ar_note_id entry) (archive_path entry)) in
  let '(marked, ix) := mark_archive_gc (ar_vault_id entry) (ar_note_id entry) now_ms (v_index v1) in
  (if marked : bool then S destroyed else destroyed, with_index v1 ix).
Definition run_archive_gc (now_ms : Z) (limit : nat) : VM nat :=
  λ v,
    let '(destroyed, v') := foldl (gc_step now_ms) (0, v) (select_gc_due_archives (v_index v) now_ms limit) in
    (Ok destroyed, v').

Definition purge_archive (id : ustr) (now : DateTime) : VM bool :=
  λ v,
    match get_active_archive (v_index v) self_vault_id id with
    | None => (Ok false, v)
    | Some entry =>
        if bool_decide (ar_vault_id entry ≠ self_vault_id) then (Ok false, v)
        else
          let v1 := with_files v (delete_archive_files (v_files v) id (archive_path entry)) in
          let '(marked, ix) := mark_archive_gc self_vault_id id (timestamp_millis now) (v_index v1) in
          (Ok marked, with_index v1 ix)
    end.

(** [path.rsplit_once('/')], the part after. *)
Definition file_name (path : ustr) : option ustr :=
  if bool_decide (PATH_SEP ∈ path) then last (split_on PATH_SEP path) else None.
Definition restore_snapshot (dst_dir : ustr) (fs : files) (path : ustr) : files :=
  match file_name path with
  | None => fs
  | Some file =>
      match fs_read fs path with
      | Err _ => fs
      | Ok c =>
          match guard_write fs (dst_dir ++ file) c with
          | (Ok _, fs1) => delete_quietly fs1 path
          | (Err _, fs1) => fs1
          end
      end
  end.
Definition restore_history_dir (fs : files) (id tenant : ustr) : files :=
  match fs_list fs (ARCHIVE_DIR_PREFIX ++ history_dir tenant id) with
  | Err _ => fs
  | Ok entries => foldl (restore_snapshot (history_dir tenant id)) fs entries
  end.

Record RestoreOutcome := mkRestoreOutcome {
  ro_restored_path : ustr;
  ro_section : ustr;
  ro_status : NoteStatus;
}.
Definition RESTORE_REASON : ustr := lit "restored from archive (quarantine)".

Definition restore_archive (id : ustr) (changed : DateTime) (ck : write_clock) (now : DateTime)
    : VM RestoreOutcome :=
  λ v,
    match get_active_archive (v_index v) self_vault_id id with
    | None => (Err (NoteNotFound id), v)
    | Some entry =>
        if bool_decide (ar_vault_id entry ≠ self_vault_id) then (Err (NoteNotFound id), v)
        else if bool_decide (is_Some (get_note (v_index v) self_vault_id id))
        then (Err (VaultConflict id), v)
        else
          match fs_read (v_files v) (archive_path entry) with
          | Err e => (Err (VaultStorage e), v)
          | Ok c =>
              match note_of_content id c with
              | Err e => (Err e, v)
              | Ok parsed =>
                  let fm := with_status (frontmatter parsed) PendingReview (Some RESTORE_REASON)
                              (Some changed) in
                  (note <-! write_note_with_id fm (body parsed) id ck;
                   λ v1,
                     let '(_, ix) := mark_archive_restored self_vault_id id (timestamp_millis now)
                                       (v_index v1) in
                     let fs1 := delete_quietly (v_files v1) (archive_path entry) in
                     (Ok (mkRestoreOutcome (note_md_relative_path note) (ar_section entry) PendingReview),
                      with_files (with_index v1 ix) (restore_history_dir fs1 id self_vault_id))) v
              end
          end
    end.
End lifecycle.
