(* ===== verification/VaultWrite.v ===== *)
(** * VaultWrite: what writes, reads and changes of a note guarantee

    Theorems on the operations of [Vault]: a write is read back, a compare-and-swap never
    loses an update, a change of status follows the life cycle, a move keeps the status the
    index holds, tags only grow.  What a write asks of the detection pass is the class
    [PrivacyLaws]; the block of the pass is in [PrivacyBlock]. *)

From S2P Require Import Prelude Text Job PrivacyPass Notes Markdown ProjectLinks ProjectBody ProjectServer NoteStore Vault.

#[local] Open Scope nat_scope.

(** The tags that belong to the authors of a note. *)
Definition ordinary (tags : list ustr) : list ustr :=
  filter (λ t, is_reserved_literal t = false) tags.

(** The pass decides on reserved tags and extra fields, and rewrites a body only when the policy
    masks. *)
Class PrivacyLaws {PS : PrivacyStage} := {
  decide_privacy_frame fm existing outcome :
    ∃ tags extra, decide_privacy fm existing outcome = with_extra (with_tags fm tags) extra;
  decide_privacy_tags fm existing outcome :
    ordinary (fm_tags (decide_privacy fm existing outcome)) = ordinary (fm_tags fm);
  masked_body_off b outcome : masks_bodies = false → masked_body b outcome = (b, false);
}.

(** ** Storage *)

Section storage_facts.
Context {D : Disk}.

Lemma fs_write_Ok fs p c fs' :
  fs_write fs p c = (Ok tt, fs') →
  validate_relative_path p = Ok tt ∧ disk_fails DiskWrite p = false ∧ fs' = <[p := c]> fs.
Proof.
  unfold fs_write. destruct (validate_relative_path p) as [[]|]; [|done].
  destruct (disk_fails DiskWrite p); [done|]. by intros [= <-].
Qed.

Lemma fs_write_Err fs p c e fs' : fs_write fs p c = (Err e, fs') → fs' = fs.
Proof.
  unfold fs_write. destruct (validate_relative_path p) as [[]|]; [|by intros [= _ <-]].
  destruct (disk_fails DiskWrite p); [by intros [= _ <-]|done].
Qed.

Lemma fs_read_Ok fs p c :
  validate_relative_path p = Ok tt → disk_fails DiskRead p = false → fs !! p = Some c →
  fs_read fs p = Ok c.
Proof. intros Hv Hd Hp. unfold fs_read. rewrite Hv. cbn. by rewrite Hd, Hp. Qed.

Lemma fs_read_Ok_inv fs p c : fs_read fs p = Ok c → fs !! p = Some c.
Proof.
  unfold fs_read. destruct (validate_relative_path p); cbn; [|done].
  destruct (disk_fails DiskRead p); [done|]. by destruct (fs !! p) as [c'|] eqn:E; intros [= ->].
Qed.

Lemma fs_exists_true fs p :
  validate_relative_path p = Ok tt → disk_fails DiskExists p = false → is_Some (fs !! p) →
  fs_exists fs p = true.
Proof. intros Hv Hd Hp. unfold fs_exists. rewrite Hv, Hd, bool_decide_eq_true_2 by done. done. Qed.

Lemma fs_delete_lookup fs p q : q ≠ p → (fs_delete fs p).2 !! q = fs !! q.
Proof.
  intros Hq. unfold fs_delete. destruct (validate_relative_path p); [|done].
  destruct (disk_fails DiskDelete p); [done|]. destruct (fs !! p); [|done].
  cbn. by rewrite lookup_delete_ne by done.
Qed.
End storage_facts.

(** ** The write *)

Lemma with_updated_locus fm u : fm_locus (with_updated fm u) = fm_locus fm.
Proof. by destruct fm. Qed.

Section writes.
Context {UP : UlidParser} {D : Disk} {CH : ContentHasher} {Y : Yaml} {FD : FileDigest}
        {PS : PrivacyStage} {VC : VaultConfig}.

(** What a write did, when it did it: the file and the row are those of one note. *)
Record wrote (fm : Frontmatter) (b id : ustr) (v : vault) (note : Note) (v' : vault) : Prop := {
  wr_id : note_id note = id;
  wr_hash : content_hash note = compute (frontmatter note) (body note);
  wr_version : version note = NoteVersion_initial;
  wr_front : ∃ existing outcome now,
    frontmatter note
    = with_updated (decide_privacy (if bool_decide (fm_vault_id fm = []) then with_vault_id fm self_vault_id
                                    else fm) existing outcome) now
    ∧ body note = (masked_body b outcome).1;
  wr_path : validate_relative_path (note_md_relative_path note) = Ok tt;
  wr_files : ∃ fs1 md, md_write note = Ok md
    ∧ v_files v' = <[note_md_relative_path note := TextFile md]> fs1;
  wr_index : ∃ p e, v_index v' = upsert_file_checksum p e (upsert_note note (v_index v));
  wr_cache : v_cache v' = v_cache v ∧ v_cache_hits v' = v_cache_hits v;
}.

Lemma write_note_judged_Ok fm b id reuse ck v note v' :
  write_note_judged fm b id reuse ck v = (Ok note, v') → wrote fm b id v note v'.
Proof.
  unfold write_note_judged. destruct (masks_bodies && _); [done|].
  set (outcome := match reuse with Some o => Some o | None => _ end). cbn zeta.
  destruct (read_note_in v _ id) as [prev|[]]; try done.
  all: destruct (masked_body b outcome) as [b1 m] eqn:Em;
    destruct (md_write _) as [md|] eqn:Emd; [|done];
    destruct (write_note_file _ _ _) as [[[]|] fs2] eqn:Ew; [|done];
    intros [= <- <-]; apply fs_write_Ok in Ew as (Hp & _ & ->);
    constructor; cbn [note_id content_hash frontmatter body version v_files v_index v_cache
                      v_cache_hits with_files with_index]; eauto 10.
  all: try (do 3 eexists; (split; [reflexivity|]); cbn [body]; by rewrite Em).
Qed.

(** A write that is given the outcome of a pass uses it. *)
Lemma write_note_judged_reuse fm b id o ck v note v' :
  write_note_judged fm b id (Some o) ck v = (Ok note, v') →
  ∃ existing now, frontmatter note
    = with_updated (decide_privacy (if bool_decide (fm_vault_id fm = []) then with_vault_id fm self_vault_id
                                    else fm) existing (Some o)) now.
Proof.
  unfold write_note_judged. destruct (masks_bodies && _); [done|]. cbn zeta.
  destruct (read_note_in v _ id) as [prev|[]]; try done.
  all: destruct (masked_body b (Some o)) as [b1 m];
    destruct (md_write _); [|done]; destruct (write_note_file _ _ _) as [[[]|] fs2]; [|done];
    intros [= <- <-]; eauto.
Qed.

(** A write that fails leaves the index alone. *)
Lemma write_note_judged_Err fm b id reuse ck v e v' :
  write_note_judged fm b id reuse ck v = (Err e, v') →
  v_index v' = v_index v ∧ v_cache v' = v_cache v.
Proof.
  unfold write_note_judged. destruct (masks_bodies && _); [by intros [= _ <-]|].
  cbn zeta. destruct (read_note_in v _ id) as [prev|[]]; try by intros [= _ <-].
  all: destruct (masked_body b _) as [b1 m];
    destruct (md_write _); [|by intros [= _ <-]];
    destruct (write_note_file _ _ _) as [[[]|] fs2]; [done|by intros [= _ <-]].
Qed.

Definition home_vault (fm : Frontmatter) : ustr :=
  if bool_decide (fm_vault_id fm = []) then self_vault_id else fm_vault_id fm.

Definition rehomed (fm : Frontmatter) : Frontmatter :=
  if bool_decide (fm_vault_id fm = []) then with_vault_id fm self_vault_id else fm.

Context {PL : PrivacyLaws} {YL : YamlLaws}.

(** The note of a write is the one given, apart from its tags, its extra fields and its
    date. *)
Lemma wrote_frame fm b id v note v' :
  wrote fm b id v note v' →
  ∃ tags extra now,
    frontmatter note = with_updated (with_extra (with_tags (rehomed fm) tags) extra) now.
Proof.
  intros [_ _ _ (ex & o & now & -> & _) _ _ _ _].
  destruct (decide_privacy_frame (rehomed fm) ex o) as (tags & extra & E).
  exists tags, extra, now. by rewrite <-E.
Qed.

Lemma wrote_fields fm b id v note v' :
  wrote fm b id v note v' →
  fm_vault_id (frontmatter note) = home_vault fm ∧ fm_locus (frontmatter note) = fm_locus fm
  ∧ fm_status (frontmatter note) = fm_status fm ∧ fm_section (frontmatter note) = fm_section fm.
Proof.
  intros (tags & extra & now & ->)%wrote_frame. unfold home_vault, rehomed.
  by case_bool_decide; destruct fm.
Qed.

Lemma wrote_body fm b id v note v' :
  masks_bodies = false → wrote fm b id v note v' → body note = b.
Proof. intros Hm [_ _ _ (ex & o & now & _ & ->) _ _ _ _]. by rewrite masked_body_off. Qed.

Lemma wrote_row fm b id v note v' :
  wrote fm b id v note v' →
  notes (v_index v') !! (home_vault fm, id)
  = Some match notes (v_index v) !! (home_vault fm, id) with
         | Some r => merge_row r (row_of_note note) | None => row_of_note note end
  ∧ ∀ k, k ≠ (home_vault fm, id) → notes (v_index v') !! k = notes (v_index v) !! k.
Proof.
  intros Hw. destruct (wrote_fields _ _ _ _ _ _ Hw) as (Hv & _).
  destruct Hw as [<- _ _ _ _ _ (p & e & ->) _]. cbn [notes upsert_file_checksum].
  rewrite (proj1 (upsert_notes note (v_index v))), Hv. split; [apply lookup_insert_eq|].
  intros k Hk. by rewrite lookup_insert_ne.
Qed.

Definition note_on_disk (note : Note) : Note :=
  mkNoteRec (note_id note) (canonical (frontmatter note)) (body note) NoteVersion_initial
    (content_hash note).

Lemma canonical_locus fm : fm_locus (canonical fm) = fm_locus fm.
Proof. unfold canonical. destruct (extra_is_empty _); [by destruct fm|done]. Qed.
Lemma canonical_status fm : fm_status (canonical fm) = fm_status fm.
Proof. unfold canonical. destruct (extra_is_empty _); [by destruct fm|done]. Qed.

(** The text of a written note parses to it. *)
Lemma written_text_parses note md :
  content_hash note = compute (frontmatter note) (body note) → md_write note = Ok md →
  note_of_content (note_id note) (TextFile md) = Ok (note_on_disk note).
Proof.
  intros Hh Hmd. pose proof (md_write_parses note md Hmd) as Hp. unfold note_of_content. rewrite Hp. unfold note_on_disk. by rewrite Hh.
Qed.

(** A note whose row says where it is and whose file is there is read. *)
Lemma read_row_file v note md row :
  let vid := fm_vault_id (frontmatter note) in
  is_sentinel (note_id note) = false → notes (v_index v) !! (vid, note_id note) = Some row →
  r_locus row = fm_locus (frontmatter note) → fm_locus (frontmatter note) ≠ Some [] →
  validate_relative_path (note_md_relative_path note) = Ok tt →
  (∀ op, disk_fails op (note_md_relative_path note) = false) →
  v_files v !! note_md_relative_path note = Some (TextFile md) → md_write note = Ok md →
  content_hash note = compute (frontmatter note) (body note) →
  read_note_in v vid (note_id note) = Ok (note_on_disk note).
Proof.
  cbn zeta. intros Hid Hr Hrl Hloc Hp Hdisk Hfile Hmd Hh.
  unfold read_note_in, get_note. rewrite Hid, Hr. unfold read_note_from_record.
  assert (resolve_md_path (v_files v) (fm_vault_id (frontmatter note)) row (note_id note)
          = note_md_relative_path note) as ->.
  { assert (fs_exists (v_files v) (note_md_relative_path note) = true) as Hex by (apply fs_exists_true; eauto).
    unfold resolve_md_path, nonempty_locus. rewrite Hrl.
    unfold note_md_relative_path in Hex |- *.
    destruct (fm_locus (frontmatter note)) as [[|c l]|]; [done| |]; by rewrite Hex. }
  rewrite (fs_read_Ok _ _ (TextFile md)) by done. by apply written_text_parses.
Qed.

Lemma write_read_back_core fm b id v note v' :
  wrote fm b id v note v' → is_sentinel id = false → fm_locus fm ≠ Some [] →
  (∀ r, notes (v_index v) !! (home_vault fm, id) = Some r →
        r_content_hash r = content_hash note → r_locus r = fm_locus fm) →
  (∀ op, disk_fails op (note_md_relative_path note) = false) →
  read_note_in v' (home_vault fm) id = Ok (note_on_disk note).
Proof.
  intros Hw Hid Hloc Hrow Hdisk. pose proof (wrote_row _ _ _ _ _ _ Hw) as [Hr _].
  destruct (wrote_fields _ _ _ _ _ _ Hw) as (Hv & Hl & _).
  destruct Hw as [<- Hh _ _ Hp (fs1 & md & Hmd & Hfs) _ _]. rewrite <-Hv in Hr, Hrow |- *. rewrite <-Hl in Hloc, Hrow.
  eapply read_row_file; try done; [|by rewrite Hfs, lookup_insert_eq].
  destruct (notes (v_index v) !! _) as [r|] eqn:Er; [|done]. cbn.
  case_bool_decide as E; [done|]. apply (Hrow r eq_refl).
  by destruct (decide (r_content_hash r = content_hash note)).
Qed.

(** The body of a note that was written is the one given, as the privacy pass masked it. *)
Lemma write_inner_body fm b id ck v note v' :
  write_note_inner fm b id ck v = (Ok note, v') →
  body note = (masked_body b (run_privacy_pass (home_vault fm) (fm_section fm) b)).1.
Proof.
  assert (run_privacy_pass (fm_vault_id (rehomed fm)) (fm_section (rehomed fm)) b
          = run_privacy_pass (home_vault fm) (fm_section fm) b) as Hpass.
  { unfold home_vault, rehomed. case_bool_decide; by destruct fm. }
  unfold write_note_inner, write_note_judged. fold (rehomed fm). rewrite Hpass.
  destruct (masks_bodies && _); [done|]. cbn zeta.
  destruct (read_note_in v _ id) as [prev|[]]; try done.
  all: destruct (masked_body b _) as [b1 m]; destruct (md_write _); [|done];
    destruct (write_note_file _ _ _) as [[[]|] fs2]; [|done]; by intros [= <- <-].
Qed.

(** C31: a note that was written is read back.  Whatever the vault held before, the read of its
    vault gives the note the write returned: with the body that was asked for, as the privacy
    pass masks it and unchanged in a vault that does not mask, with the section, status and
    locus that were asked for, and a hash computed from what is stored.  This is for an
    identifier that is not the sentinel, a locus that is not the empty text, a disk that does
    not fail at the path of the note, and an index whose row of the note, if it has one under the
    same hash, does not point to another locus. *)
Theorem write_read_back fm b id ck v note v'
    (Hw : write_note_inner fm b id ck v = (Ok note, v'))
    (Hid : is_sentinel id = false) (Hloc : fm_locus fm ≠ Some [])
    (Hrow : ∀ r, notes (v_index v) !! (home_vault fm, id) = Some r →
                 r_content_hash r = content_hash note → r_locus r = fm_locus fm)
    (Hdisk : ∀ op, disk_fails op (note_md_relative_path note) = false) :
  read_note_in v' (home_vault fm) id = Ok (note_on_disk note)
  ∧ body note = (masked_body b (run_privacy_pass (home_vault fm) (fm_section fm) b)).1
  ∧ (masks_bodies = false → body note = b)
  ∧ fm_locus (frontmatter note) = fm_locus fm ∧ fm_status (frontmatter note) = fm_status fm
  ∧ fm_section (frontmatter note) = fm_section fm
  ∧ content_hash note = compute (frontmatter note) (body note).
Proof.
  pose proof (write_inner_body _ _ _ _ _ _ _ Hw) as Hb.
  apply write_note_judged_Ok in Hw. destruct (wrote_fields _ _ _ _ _ _ Hw) as (_ & H1 & H2 & H3).
  split; [by eapply write_read_back_core|]. split; [done|]. split; [by intros; eapply wrote_body|].
  repeat split; try done. by destruct Hw.
Qed.

(** ** Reads and the cache *)

(** An entry of the cache carries the hash of its note. *)
Definition cache_ok (v : vault) : Prop :=
  ∀ k n h, v_cache v !! k = Some (n, h) → content_hash n = h.

Definition same_store (v v' : vault) : Prop := v_files v' = v_files v ∧ v_index v' = v_index v.

Lemma cache_get_sub {E : Type} (c : cache) k (live : result N E) r c' :
  cache_get c k live = (r, c') → c' ⊆ c.
Proof.
  unfold cache_get. destruct (c !! k) as [[n h]|]; [|by intros [= _ <-]].
  destruct live; [|by intros [= _ <-]]. case_bool_decide; intros [= _ <-]; [done|apply delete_subseteq].
Qed.

Lemma cache_get_hit {E : Type} (c : cache) k (live : result N E) n c' :
  cache_get c k live = (Ok (Some n), c') → ∃ h, c !! k = Some (n, h) ∧ live = Ok h.
Proof.
  unfold cache_get. destruct (c !! k) as [[m h]|]; [|done].
  destruct live; [|done]. case_bool_decide; intros [= ->]; subst; eauto.
Qed.

Lemma cache_get_Err {E : Type} (c : cache) k (live : result N E) e c' :
  cache_get c k live = (Err e, c') → live = Err e.
Proof.
  unfold cache_get. destruct (c !! k) as [[m h]|]; [|done].
  destruct live; [by case_bool_decide|]. by intros [= ->].
Qed.

Lemma read_note_store id v r v' :
  read_note id v = (r, v') → same_store v v' ∧ (cache_ok v → cache_ok v').
Proof.
  unfold read_note. destruct (cache_get _ _ _) as [q c'] eqn:Eq. apply cache_get_sub in Eq.
  assert (∀ k n h, c' !! k = Some (n, h) → v_cache v !! k = Some (n, h)) as Hsub.
  { intros k n h Hk. by apply (lookup_weaken c'). }
  unfold same_store, cache_ok. destruct q as [[n|]|e]; cbn zeta.
  2: destruct (read_note_in _ _ _) as [note|].
  all: intros [= _ <-]; cbn [v_cache v_files v_index]; (split; [done|]); intros Hok k m h; eauto.
  unfold cache_insert. rewrite lookup_insert_Some. naive_solver.
Qed.

(** A successful read has the hash the index holds, or what the files hold. *)
Lemma read_note_Ok id v n v' :
  cache_ok v → read_note id v = (Ok n, v') →
  get_content_hash (v_index v) self_vault_id id = Some (content_hash n)
  ∨ read_note_in v self_vault_id id = Ok n.
Proof.
  intros Hok. unfold read_note. destruct (cache_get _ _ _) as [[[m|]|e] c'] eqn:Eq; cbn zeta.
  - intros [= <- _]. apply cache_get_hit in Eq as (h & Hm & Hlive). left. cbn [content_hash].
    rewrite (Hok _ _ _ Hm). by destruct (get_content_hash _ _ _); simplify_eq.
  - destruct (read_note_in _ _ _) as [note|] eqn:Er; [|done]. intros [= <- _]. by right.
  - done.
Qed.

(** A note that is read has a row. *)
Lemma read_note_row id v n v' :
  read_note id v = (Ok n, v') → is_Some (notes (v_index v) !! (self_vault_id, id)).
Proof.
  unfold read_note. destruct (cache_get _ _ _) as [[[m|]|e] c'] eqn:Eq; cbn zeta; [| |done].
  - intros _. apply cache_get_hit in Eq as (h & _ & Hlive). unfold get_content_hash in Hlive.
    destruct (notes (v_index v) !! _); [eauto|done].
  - unfold read_note_in, get_note. cbn [v_index]. destruct (is_sentinel id); [done|].
    destruct (notes (v_index v) !! _); [eauto|done].
Qed.

(** A read succeeds as soon as the files do. *)
Lemma read_note_total id v n :
  read_note_in v self_vault_id id = Ok n → ∃ n' v', read_note id v = (Ok n', v').
Proof.
  intros Hr. unfold read_note. destruct (cache_get _ _ _) as [[[m|]|e] c'] eqn:Eq; cbn zeta.
  - eauto.
  - change (read_note_in _ self_vault_id id) with (read_note_in v self_vault_id id). rewrite Hr. eauto.
  - apply cache_get_Err in Eq. unfold read_note_in, get_note in Hr. unfold get_content_hash in Eq.
    destruct (is_sentinel id); [done|]. by destruct (notes (v_index v) !! _).
Qed.

(** After a write, as long as neither a file nor a row moves, a read of the same vault finds
    the hash of the write. *)
Lemma read_after_write fm b id v note v' w :
  wrote fm b id v note v' → home_vault fm = self_vault_id → is_sentinel id = false →
  fm_locus fm ≠ Some [] → cache_ok w →
  (∀ r, notes (v_index v) !! (self_vault_id, id) = Some r →
        r_content_hash r = content_hash note → r_locus r = fm_locus fm) →
  (∀ op, disk_fails op (note_md_relative_path note) = false) → same_store v' w →
  ∃ n w', read_note id w = (Ok n, w') ∧ content_hash n = content_hash note.
Proof.
  intros Hw Hv Hid Hl Hok Hrow Hdisk [Hfiles Hindex].
  assert (read_note_in w self_vault_id id = Ok (note_on_disk note)) as Hr.
  { unfold read_note_in. rewrite Hfiles, Hindex. change (read_note_in v' self_vault_id id = Ok (note_on_disk note)).
    rewrite <-Hv in Hrow |- *. by eapply write_read_back_core. }
  destruct (read_note_total _ _ _ Hr) as (n & w' & E). exists n, w'. split; [done|].
  apply read_note_Ok in E as [E|E]; [| |done].
  - destruct (wrote_row _ _ _ _ _ _ Hw) as [Hrow' _]. rewrite Hv in Hrow'.
    unfold get_content_hash in E. rewrite Hindex, Hrow' in E. cbn in E. injection E as <-.
    by destruct (notes (v_index v) !! _).
  - rewrite Hr in E. by injection E as <-.
Qed.

Lemma read_note_in_id v vid id n : read_note_in v vid id = Ok n → note_id n = id.
Proof.
  unfold read_note_in, read_note_from_record, note_of_content. intros H.
  destruct (get_note _ _ _); [|done]. destruct (fs_read _ _) as [[s|]|[]]; try done.
  by destruct (parse s); simplify_eq.
Qed.

(** ** Compare and swap *)

Lemma write_if_match_Written fm b id h ck v h1 v1 :
  write_if_match fm b id (Some h) ck v = (Ok (Written h1), v1) →
  ∃ v0 note, same_store v v0 ∧ (cache_ok v → cache_ok v0) ∧ wrote fm b id v0 note v1
    ∧ content_hash note = h1
    ∧ ((∃ n, (read_note id v).1 = Ok n ∧ content_hash n = h)
       ∨ ∃ i, (read_note id v).1 = Err (NoteNotFound i)).
Proof.
  unfold write_if_match, check_expected, write_checked, vm_bind, vm_ret.
  destruct (read_note id v) as [[n|e] v0] eqn:Er; apply read_note_store in Er as [Hs Hc].
  - case_bool_decide as Eh; [done|].
    destruct (write_note_inner fm b id ck v0) as [[note|] v2] eqn:Ew; [|done].
    intros [= <- <-]. apply write_note_judged_Ok in Ew. exists v0, note.
    split_and!; try done. left. exists n. split; [done|]. by destruct (decide (content_hash n = h)).
  - destruct e; try done.
    destruct (write_note_inner fm b id ck v0) as [[note|] v2] eqn:Ew; [|done].
    intros [= <- <-]. apply write_note_judged_Ok in Ew. exists v0, note. split_and!; try done. eauto.
Qed.

(** What comes after a write: reads, and compare-and-swaps of note [id] by writers that still
    hold the hash [h]. *)
Inductive later_call := LaterRead (i : ustr) | LaterSwap (fm : Frontmatter) (b : ustr) (ck : write_clock).
Fixpoint run_later (id : ustr) (h : N) (cs : list later_call) (v : vault) :
    list (result WriteResult VaultError) * vault :=
  match cs with
  | [] => ([], v)
  | LaterRead i :: cs => run_later id h cs (read_note i v).2
  | LaterSwap fm b ck :: cs =>
      let '(answer, v1) := write_if_match fm b id (Some h) ck v in
      let '(answers, v2) := run_later id h cs v1 in (answer :: answers, v2)
  end.
Definition is_swap (c : later_call) : bool := match c with LaterSwap _ _ _ => true | LaterRead _ => false end.

Lemma same_store_trans v1 v2 v3 : same_store v1 v2 → same_store v2 v3 → same_store v1 v3.
Proof. intros [E1 E2] [E3 E4]. split; congruence. Qed.

(** As long as the note reads with another hash, every one of them is refused. *)
Lemma run_later_refused id h h1 cs v1 v :
  h1 ≠ h →
  (∀ w, same_store v1 w → cache_ok w → ∃ n w', read_note id w = (Ok n, w') ∧ content_hash n = h1) →
  same_store v1 v → cache_ok v →
  (run_later id h cs v).1 = replicate (length (List.filter is_swap cs)) (Ok (Conflict h1))
  ∧ same_store v1 (run_later id h cs v).2.
Proof.
  intros Hne Hread. revert v. induction cs as [|[i|fm b ck] cs IH]; intros v Hs Hc; cbn [run_later]; [done|..].
  - destruct (read_note i v) as [r v'] eqn:E. apply read_note_store in E as [Hs' Hc']. cbn [snd].
    by apply IH; [eapply same_store_trans|auto].
  - destruct (Hread v Hs Hc) as (n & v' & E & Hn). unfold write_if_match, check_expected, vm_bind, vm_ret.
    rewrite E, bool_decide_eq_true_2 by congruence. apply read_note_store in E as [Hs' Hc']. rewrite Hn.
    destruct (IH v') as [IH1 IH2]; [by eapply same_store_trans|auto|].
    destruct (run_later id h cs v'). cbn in *. by rewrite IH1.
Qed.

(** C4: no lost update between compare-and-swaps that follow one another.  When one of them has
    written a new hash, it wrote over the hash it expected or over nothing; and whatever
    number of later ones of the same note still hold the hash the first writer started from,
    with reads of any notes in between, each is refused with the new hash and neither a file
    nor a row moves.  This is for operations of which each ends before the next starts (the
    comparison and the write of one are not protected from another), for a note of the vault's
    own with a locus that is not empty, a disk that does not fail, a cache whose entries carry
    the hash of their note, and an index that does not point elsewhere under the new hash. *)
Theorem compare_and_swap_no_lost_update fm1 b1 id h ck1 v h1 v1 later
    (Hw : write_if_match fm1 b1 id (Some h) ck1 v = (Ok (Written h1), v1))
    (Hnew : h1 ≠ h) (Hself : home_vault fm1 = self_vault_id) (Hid : is_sentinel id = false)
    (Hloc : fm_locus fm1 ≠ Some []) (Hcache : cache_ok v)
    (Hrow : ∀ r, notes (v_index v) !! (self_vault_id, id) = Some r →
                 r_content_hash r = h1 → r_locus r = fm_locus fm1)
    (Hdisk : ∀ op p, disk_fails op p = false) :
  (∀ n, (read_note id v).1 = Ok n → content_hash n = h)
  ∧ let '(answers, v2) := run_later id h later v1 in
    answers = replicate (length (List.filter is_swap later)) (Ok (Conflict h1)) ∧ same_store v1 v2.
Proof.
  apply write_if_match_Written in Hw as (v0 & note & [Hf Hi] & Hc & Hw & <- & Hread). split.
  - intros n Hn. rewrite Hn in Hread. destruct Hread as [(m & [= <-] & ?)|[??]]; done.
  - assert (cache_ok v1) as Hc1.
    { intros k m w. destruct Hw as [_ _ _ _ _ _ _ [-> _]]. by apply Hc. }
    destruct (run_later_refused id h (content_hash note) later v1 v1) as [H1 H2]; [done| |done|done|].
    + intros w Hs Hok. by eapply read_after_write; [..|exact Hs]; rewrite ?Hi.
    + by destruct (run_later id h later v1).
Qed.

(** ** Changes of status *)

(** The failures of reads and writes; the others are refusals of an operation. *)
Definition basic_error (e : VaultError) : bool :=
  match e with
  | InvalidStatusTransition _ _ | VaultTag _ | TooManyTags _ => false
  | _ => true
  end.

Lemma read_note_in_errors v vid id e : read_note_in v vid id = Err e → basic_error e = true.
Proof.
  unfold read_note_in, read_note_from_record, note_of_content. intros H.
  destruct (get_note _ _ _); [|by injection H as <-].
  destruct (fs_read _ _) as [[s|]|[]]; try (by injection H as <-).
  by destruct (parse s); simplify_eq.
Qed.

Lemma write_note_errors fm b id reuse ck v e v' :
  write_note_judged fm b id reuse ck v = (Err e, v') → basic_error e = true.
Proof.
  unfold write_note_judged. intros H. destruct (masks_bodies && _); [by injection H as <-|].
  cbn zeta in H. destruct (read_note_in v _ id) as [prev|e'] eqn:Er.
  2: apply read_note_in_errors in Er; destruct e'; try (by simplify_eq).
  all: destruct (masked_body b _) as [b1 m]; destruct (md_write _); [|by injection H as <-];
    destruct (write_note_file _ _ _) as [[[]|] fs2]; [done|by injection H as <-].
Qed.

Lemma read_note_errors id v e v' : read_note id v = (Err e, v') → basic_error e = true.
Proof.
  unfold read_note. intros H. destruct (cache_get _ _ _) as [[[m|]|e'] c'] eqn:Eq; cbn zeta in H.
  - done.
  - destruct (read_note_in _ _ _) as [n|e'] eqn:Er; [done|]. injection H as -> _.
    by apply read_note_in_errors in Er.
  - injection H as -> _. apply cache_get_Err in Eq. by destruct (get_content_hash _ _ _); simplify_eq.
Qed.

(** A change of status takes exactly the edges of the life cycle.  Asking for the status a
    note has does nothing; an edge that is not allowed is refused and nothing is touched; an
    allowed one leaves a row with the new status, its reason and, when bodies are not masked,
    the same body; any other failure leaves the index as it was. *)
Theorem update_status_exact id target reason now ck v :
  let '(r, v') := update_status id target reason now ck v in
  match r with
  | Ok _ => ∃ n, (read_note id v).1 = Ok n
      ∧ ((fm_status (frontmatter n) = target ∧ same_store v v')
         ∨ (fm_status (frontmatter n) ≠ target ∧ can_transition_to (fm_status (frontmatter n)) target = true
            ∧ ∃ row, notes (v_index v') !! (home_vault (frontmatter n), id) = Some row
                ∧ r_status row = serde_kebab_repr target ∧ r_status_reason row = reason
                ∧ (masks_bodies = false → r_body_text row = body n)))
  | Err (InvalidStatusTransition from to) =>
      to = target ∧ from ≠ target ∧ can_transition_to from target = false ∧ same_store v v'
      ∧ ∃ n, (read_note id v).1 = Ok n ∧ fm_status (frontmatter n) = from
  | Err _ => v_index v' = v_index v
  end.
Proof.
  unfold update_status, vm_bind, vm_ret, vm_fail.
  destruct (read_note id v) as [[n|e] v0] eqn:Er; cbn [fst].
  2:{ pose proof (read_note_errors _ _ _ _ Er) as He. apply read_note_store in Er as [[_ Hi] _].
      by destruct e. }
  apply read_note_store in Er as [Hs _]. case_bool_decide as Et; [eauto|].
  destruct (can_transition_to _ target) eqn:Ec; cbn [negb]; [|eauto 10].
  destruct (write_note_with_id _ _ _ _ _) as [[note|e] v'] eqn:Ew.
  - apply write_note_judged_Ok in Ew. exists n. split; [done|]. right. split_and!; [done|done|].
    pose proof (wrote_row _ _ _ _ _ _ Ew) as [Hr _].
    assert (home_vault (with_status (frontmatter n) target reason (Some now)) = home_vault (frontmatter n))
      as Hh by (unfold home_vault; by destruct (frontmatter n)).
    rewrite Hh in Hr. eexists. split; [exact Hr|].
    pose proof (wrote_frame _ _ _ _ _ _ Ew) as (tags & extra & up & Ef).
    assert (fm_status (frontmatter note) = target ∧ fm_status_reason (frontmatter note) = reason) as [H1 H2].
    { rewrite Ef. unfold rehomed. case_bool_decide; by destruct (frontmatter n). }
    assert (masks_bodies = false → body note = body n) as H3 by (intros; by eapply wrote_body).
    by destruct (notes (v_index v0) !! _); cbn; rewrite H1, H2.
  - pose proof (write_note_errors _ _ _ _ _ _ _ _ Ew) as He.
    apply write_note_judged_Err in Ew as [Hi _]. destruct Hs as [_ <-].
    by destruct e.
Qed.
End writes.
