(* ===== verification/VaultEdit.v ===== *)
(** * VaultEdit: moving a note and tagging it

    Theorems on [move_locus] and [add_tags] of [Vault]. *)

From S2P Require Import Prelude Text Job PrivacyPass Notes Markdown ProjectLinks ProjectBody ProjectServer NoteStore Vault VaultWrite.

#[local] Open Scope nat_scope.

(** ** The status the index holds *)

Lemma restore_snapshot_fields ix vid id s :
  is_Some (notes ix !! (vid, id)) →
  get_index_status_snapshot (restore_index_status_fields ix vid id s).2 vid id = Some s.
Proof.
  intros [r Hr]. unfold restore_index_status_fields, get_index_status_snapshot. rewrite Hr. cbn.
  rewrite lookup_insert_eq. by destruct s.
Qed.

Lemma path_with_inj vid a b id : path_with vid a id = path_with vid b id → a = b.
Proof.
  unfold path_with. intros E. apply app_inv_head in E. cbn in E. injection E as E.
  by apply app_inv_tail in E.
Qed.

Section edits.
Context {UP : UlidParser} {D : Disk} {CH : ContentHasher} {Y : Yaml} {FD : FileDigest}
        {PS : PrivacyStage} {VC : VaultConfig} {PL : PrivacyLaws} {YL : YamlLaws}.

(** What is dropped after a move is a candidate, and never the new file. *)
Lemma drop_old_keeps fs new_path cands p :
  p = new_path ∨ p ∉ cands → drop_old fs new_path cands !! p = fs !! p.
Proof.
  intros Hp. induction cands as [|q cands IH]; [done|]. cbn [drop_old].
  assert (p = new_path ∨ p ∉ cands) by (destruct Hp; [by left|right; set_solver]).
  case_bool_decide; [by apply IH|]. destruct (fs_exists fs q); [|by apply IH].
  apply fs_delete_lookup. destruct Hp as [->|Hp]; [done|]. intros ->. by apply Hp; left.
Qed.

Lemma drop_old_first fs new_path p cands :
  p ≠ new_path → validate_relative_path p = Ok tt → (∀ op, disk_fails op p = false) →
  drop_old fs new_path (p :: cands) !! p = None.
Proof.
  intros Hp Hv Hd. cbn [drop_old]. rewrite bool_decide_eq_false_2 by done.
  destruct (fs !! p) as [c|] eqn:E.
  - rewrite fs_exists_true by eauto. unfold delete_quietly, fs_delete. rewrite Hv, Hd, E. cbn.
    apply lookup_delete_eq.
  - assert (fs_exists fs p = false) as ->.
    { unfold fs_exists. rewrite E, bool_decide_eq_false_2 by (by intros []). by rewrite andb_false_r. }
    assert (∀ l, drop_old fs new_path l !! p = None) as H; [|apply H].
    induction l as [|q l IH]; cbn [drop_old]; [done|]. case_bool_decide; [done|].
    destruct (fs_exists fs q); [|done]. destruct (decide (p = q)) as [<-|Hq].
    + unfold delete_quietly, fs_delete. rewrite Hv, Hd, E. done.
    + unfold delete_quietly. by rewrite fs_delete_lookup.
Qed.

(** The write of a move. *)
Lemma wrote_moved n new_locus b id v note v' :
  wrote (with_locus (frontmatter n) (Some new_locus)) b id v note v' →
  home_vault (frontmatter n) = self_vault_id →
  ∃ md, md_write note = Ok md ∧ fm_locus (frontmatter note) = Some new_locus
    ∧ fm_status (frontmatter note) = fm_status (frontmatter n)
    ∧ (masks_bodies = false → body note = b)
    ∧ note_md_relative_path note = path_with self_vault_id new_locus id
    ∧ v_files v' !! path_with self_vault_id new_locus id = Some (TextFile md)
    ∧ is_Some (notes (v_index v') !! (self_vault_id, id)).
Proof.
  intros Hw Hself. set (fm' := with_locus (frontmatter n) (Some new_locus)) in *.
  assert (home_vault fm' = self_vault_id ∧ fm_locus fm' = Some new_locus
          ∧ fm_status fm' = fm_status (frontmatter n)) as (Hh & Hl' & Hs')
    by (rewrite <-Hself; unfold home_vault, fm'; by destruct (frontmatter n)).
  pose proof (wrote_fields _ _ _ _ _ _ Hw) as (Hv & Hl & Hst & _).
  rewrite Hh in Hv. rewrite Hl' in Hl. rewrite Hs' in Hst.
  pose proof (wrote_row _ _ _ _ _ _ Hw) as [Hr _]. rewrite Hh in Hr.
  assert (masks_bodies = false → body note = b) as Hb by (intros; by eapply wrote_body).
  destruct Hw as [Hid _ _ _ _ (fs1 & md & Hmd & Hfs) _ _].
  assert (note_md_relative_path note = path_with self_vault_id new_locus id) as Hnp
    by (unfold note_md_relative_path; by rewrite Hl, Hv, Hid).
  exists md. repeat (split; [done|]). split; [rewrite Hfs, Hnp; apply lookup_insert_eq|]. by rewrite Hr.
Qed.

(** Moving a note to another locus moves its file and nothing else.  After a move that
    wrote, the file at the new path holds the note with the new locus and the file at the old
    locus is gone; and the status, its reason, its date and the replacement that the index
    held for the note are what they were, even when the file says otherwise: a note that was
    downgraded in the index alone does not come back to life. *)
Theorem move_locus_relocates id new_locus ck v v'
    (Hm : move_locus id new_locus ck v = (Ok tt, v')) n old
    (Hn : (read_note id v).1 = Ok n) (Hself : home_vault (frontmatter n) = self_vault_id)
    (Hold : fm_locus (frontmatter n) = Some old) (Hne : old ≠ []) (Hdiff : old ≠ new_locus)
    (Hvalid : validate_relative_path (path_with self_vault_id old id) = Ok tt)
    (Hdisk : ∀ op, disk_fails op (path_with self_vault_id old id) = false) :
  v_files v' !! path_with self_vault_id old id = None
  ∧ (∃ note md, md_write note = Ok md ∧ fm_locus (frontmatter note) = Some new_locus
       ∧ fm_status (frontmatter note) = fm_status (frontmatter n)
       ∧ (masks_bodies = false → body note = body n)
       ∧ v_files v' !! path_with self_vault_id new_locus id = Some (TextFile md))
  ∧ get_index_status_snapshot (v_index v') self_vault_id id
    = get_index_status_snapshot (v_index v) self_vault_id id.
Proof.
  unfold move_locus, vm_bind, vm_ret in Hm.
  destruct (read_note id v) as [[n'|e] v0] eqn:Er; [|done]. cbn in Hn. injection Hn as ->.
  pose proof (read_note_row _ _ _ _ Er) as [row Hrow]. apply read_note_store in Er as [[_ Hi] _].
  rewrite bool_decide_eq_false_2 in Hm by congruence.
  destruct (write_note_with_id _ _ _ _ _) as [[note|e] v1] eqn:Ew; [|done].
  apply write_note_judged_Ok, wrote_moved in Ew as (md & Hmd & Hl & Hst & Hb & Hp & Hfs & Hr); [|done].
  assert (∃ s, get_index_status_snapshot (v_index v) self_vault_id id = Some s) as [s Es].
  { unfold get_index_status_snapshot. rewrite Hrow. eauto. }
  rewrite Hi, Es in Hm. injection Hm as <-. rewrite Hp in *. cbn [v_files with_files v_index with_index].
  split_and!.
  - unfold old_path_candidates. rewrite Hold. destruct old as [|c old]; [done|]. cbn [app].
    apply drop_old_first; [|done..]. intros E. by apply path_with_inj in E.
  - exists note, md. split_and!; try done. by rewrite drop_old_keeps by (by left).
  - rewrite Es. by apply restore_snapshot_fields.
Qed.

(** ** Tags *)

Lemma union_tags_spec new seen tags ch seen' tags' ch' :
  union_tags (seen, tags, ch) new = Ok (seen', tags', ch') →
  (∀ x, x ∈ seen ↔ x ∈ to_ascii_lowercase <$> tags) →
  ∃ added, tags' = tags ++ added ∧ ch' = ch || negb (bool_decide (added = []))
    ∧ (∀ raw, raw ∈ new → ∃ t, Tag_new raw = Ok t ∧ to_ascii_lowercase t ∈ to_ascii_lowercase <$> tags')
    ∧ (∀ t, t ∈ added → (∃ raw, raw ∈ new ∧ Tag_new raw = Ok t)
                        ∧ to_ascii_lowercase t ∉ to_ascii_lowercase <$> tags)
    ∧ NoDup (to_ascii_lowercase <$> added).
Proof.
  revert seen tags ch. induction new as [|raw new IH]; intros seen tags ch E Hseen.
  { cbn in E. injection E as <- <- <-. exists []. rewrite app_nil_r, orb_false_r.
    repeat split; [set_solver..|]. apply NoDup_nil_2. }
  cbn [union_tags union_tag] in E. destruct (Tag_new raw) as [t|] eqn:Et; [|done].
  case_bool_decide as Hin; cbn in E; apply IH in E as (added & -> & -> & H1 & H2 & H3); try done.
  - exists added. split_and!; try done.
    + intros r [->|Hr]%elem_of_cons; [|by apply H1]. exists t. split; [done|].
      rewrite fmap_app, elem_of_app. left. by apply Hseen.
    + intros u Hu. destruct (H2 u Hu) as [(r & ? & ?) ?]. split; [|done]. exists r. by split; [right|].
  - exists (t :: added). rewrite <-app_assoc. split_and!; [done|by rewrite orb_true_r| | |].
    + intros r [->|Hr]%elem_of_cons; [|by rewrite <-app_assoc in H1; apply H1]. exists t. split; [done|].
      rewrite fmap_app. set_solver.
    + intros u [->|Hu]%elem_of_cons.
      * split; [exists raw; by split; [left|]|]. by rewrite <-Hseen.
      * destruct (H2 u Hu) as [(r & ? & ?) Hn]. rewrite fmap_app in Hn.
        split; [exists r; by split; [right|]|set_solver].
    + apply NoDup_cons. split; [|done]. intros (u & Hu & Hmem)%list_elem_of_fmap.
      destruct (H2 u Hmem) as [_ Hn]. rewrite fmap_app in Hn. set_solver.
  - intros x. rewrite elem_of_cons, Hseen, fmap_app. set_solver.
Qed.

Lemma union_tags_Err new acc e :
  union_tags acc new = Err e → ∃ raw e', raw ∈ new ∧ Tag_new raw = Err e' ∧ e = VaultTag e'.
Proof.
  revert acc. induction new as [|raw new IH]; intros [[seen tags] ch] E; [done|].
  cbn [union_tags union_tag] in E. destruct (Tag_new raw) as [t|e'] eqn:Et.
  - case_bool_decide; cbn in E; apply IH in E as (r & e' & ? & ? & ?);
      exists r, e'; by split; [right|].
  - cbn in E. injection E as <-. exists raw, e'. by split; [left|].
Qed.

(** Tags only grow.  After tags were added to a note its own tags are still there, first
    and in their order; every tag that was asked for is present up to case; what was added is
    new up to case, and comes from the request; a request that adds nothing writes nothing.
    A malformed tag, or a set of more than the maximum, is refused with nothing touched. *)
Theorem add_tags_union id new_tags ck v :
  let '(r, v') := add_tags id new_tags ck v in
  match r with
  | Ok _ => ∃ n added, (read_note id v).1 = Ok n
      ∧ (∀ raw, raw ∈ new_tags → ∃ t, Tag_new raw = Ok t
           ∧ to_ascii_lowercase t ∈ to_ascii_lowercase <$> fm_tags (frontmatter n) ++ added)
      ∧ (∀ t, t ∈ added → (∃ raw, raw ∈ new_tags ∧ Tag_new raw = Ok t)
           ∧ to_ascii_lowercase t ∉ to_ascii_lowercase <$> fm_tags (frontmatter n))
      ∧ NoDup (to_ascii_lowercase <$> added)
      ∧ ((added = [] ∧ same_store v v')
         ∨ (length (fm_tags (frontmatter n) ++ added) ≤ MAX_NOTE_TAGS
            ∧ ∃ note md, md_write note = Ok md
                ∧ v_files v' !! note_md_relative_path note = Some (TextFile md)
                ∧ ordinary (fm_tags (frontmatter note)) = ordinary (fm_tags (frontmatter n) ++ added)
                ∧ (masks_bodies = false → body note = body n)))
  | Err (VaultTag e) => same_store v v' ∧ ∃ raw, raw ∈ new_tags ∧ Tag_new raw = Err e
  | Err (TooManyTags k) => same_store v v' ∧ MAX_NOTE_TAGS < k
  | Err _ => v_index v' = v_index v
  end.
Proof.
  unfold add_tags, vm_bind, vm_ret, vm_fail.
  destruct (read_note id v) as [[n|e] v0] eqn:Er; cbn [fst].
  2:{ pose proof (read_note_errors _ _ _ _ Er) as He. apply read_note_store in Er as [[_ Hi] _]. by destruct e. }
  apply read_note_store in Er as [Hs _].
  destruct (union_tags _ new_tags) as [[[seen tags] ch]|e] eqn:Eu.
  2:{ apply union_tags_Err in Eu as (raw & e' & ? & ? & ->). eauto. }
  apply union_tags_spec in Eu as (added & -> & -> & H1 & H2 & H3); [|done].
  case_bool_decide as Ea; cbn [orb negb]; [exists n, added; by eauto 10|].
  destruct (MAX_NOTE_TAGS <? _) eqn:El; [apply Nat.ltb_lt in El; by split|]. apply Nat.ltb_ge in El.
  destruct (write_note_with_id _ _ _ _ _) as [[note|e] v'] eqn:Ew.
  - apply write_note_judged_Ok in Ew. exists n, added. split_and!; try done. right. split; [done|].
    assert (ordinary (fm_tags (frontmatter note)) = ordinary (fm_tags (frontmatter n) ++ added)) as Ho.
    { destruct Ew as [_ _ _ (ex & o & up & -> & _) _ _ _ _].
      set (fm1 := if bool_decide _ then _ else _).
      replace (fm_tags (frontmatter n) ++ added) with (fm_tags fm1)
        by (unfold fm1; case_bool_decide; by destruct (frontmatter n)).
      rewrite <-(decide_privacy_tags fm1 ex o). by destruct (decide_privacy _ _ _). }
    assert (masks_bodies = false → body note = body n) by (intros; by eapply wrote_body).
    destruct Ew as [_ _ _ _ _ (fs1 & md & Hmd & Hfs) _ _]. exists note, md. split_and!; try done.
    rewrite Hfs. apply lookup_insert_eq.
  - pose proof (write_note_errors _ _ _ _ _ _ _ _ Ew) as He.
    apply write_note_judged_Err in Ew as [Hi _]. destruct Hs as [_ <-]. by destruct e.
Qed.
End edits.
