(* ===== verification/VaultHistory.v ===== *)
(** * VaultHistory: the versions a vault keeps

    Theorems on copy-on-write and retention in [Vault]: the name of a snapshot reads back as
    its time, the trim keeps exactly the newest unexpired versions, a write over a note keeps
    the version it replaces. *)

From S2P Require Import Prelude Text Job PrivacyPass Notes Markdown ProjectLinks ProjectBody ProjectServer NoteStore Vault VaultWrite.

#[local] Open Scope nat_scope.

(** ** Numbers *)

Definition add_digit (c : uchar) (acc : N) : N := (acc * 10 + (c - 48))%N.

Lemma digits_rev_value fuel n :
  (n < 10 ^ N.of_nat fuel)%N → 0 < fuel → foldr add_digit 0%N (digits_rev fuel n) = n.
Proof.
  revert n. induction fuel as [|fuel IH]; intros n Hn Hf; [lia|]. cbn [digits_rev].
  pose proof (N.div_mod n 10 ltac:(done)) as Hd. pose proof (N.mod_lt n 10 ltac:(done)) as Hm.
  destruct (N.ltb_spec n 10) as [Hlt|Hge]; cbn [foldr].
  - unfold add_digit. rewrite (N.mod_small n 10) by done. lia.
  - rewrite IH.
    + unfold add_digit. generalize dependent (n mod 10)%N. generalize (n / 10)%N. lia.
    + apply N.Div0.div_lt_upper_bound. rewrite Nat2N.inj_succ, N.pow_succ_r' in Hn. lia.
    + destruct fuel; [|lia]. cbn in Hn. lia.
Qed.

Lemma digits_rev_digit fuel n c : c ∈ digits_rev fuel n → is_digit c = true.
Proof.
  revert n. induction fuel as [|fuel IH]; intros n; cbn [digits_rev]; [set_solver|].
  rewrite elem_of_cons. intros [->|Hc].
  - pose proof (N.mod_lt n 10 ltac:(done)) as Hm. unfold is_digit. apply andb_true_intro.
    split; apply N.leb_le; generalize dependent (n mod 10)%N; lia.
  - destruct (n <? 10)%N; [set_solver|eauto].
Qed.

Lemma digits_value_snoc s c : digits_value (s ++ [c]) = add_digit c (digits_value s).
Proof. unfold digits_value. by rewrite foldl_app. Qed.

Lemma fmt_nat_value n : digits_value (fmt_nat n) = n.
Proof.
  unfold fmt_nat. transitivity (foldr add_digit 0%N (digits_rev (S (N.to_nat (N.log2 n))) n)).
  - induction (digits_rev _ n) as [|c l IH]; [done|].
    by rewrite reverse_cons, digits_value_snoc, IH.
  - apply digits_rev_value; [|lia]. rewrite Nat2N.inj_succ, N2Nat.id.
    destruct (decide (n = 0%N)) as [->|Hn]; [done|].
    eapply N.lt_le_trans; [apply N.log2_spec; lia|]. by apply N.pow_le_mono_l.
Qed.

Lemma fmt_nat_digits n c : c ∈ fmt_nat n → is_digit c = true.
Proof. unfold fmt_nat. rewrite elem_of_reverse. apply digits_rev_digit. Qed.

Lemma fmt_nat_ne n : fmt_nat n ≠ [].
Proof. unfold fmt_nat. cbn [digits_rev]. rewrite reverse_cons. by destruct (reverse _). Qed.

Definition in_i64 (z : Z) : Prop := (- 2 ^ 63 ≤ z < 2 ^ 63)%Z.

Lemma parse_digits (neg : bool) n :
  (forallb is_digit (fmt_nat n) = true) ∧ bool_decide (fmt_nat n = []) = false.
Proof.
  split; [|apply bool_decide_eq_false_2, fmt_nat_ne].
  apply forallb_forall. intros c Hc. apply (fmt_nat_digits n). by apply list_elem_of_In.
Qed.

Lemma parse_fmt_i64 z : in_i64 z → parse_i64 (fmt_i64 z) = Some z.
Proof.
  intros [Hlo Hhi]. destruct (parse_digits false (Z.abs_N z)) as [Hd He].
  unfold fmt_i64, parse_i64. destruct (Z.ltb_spec z 0) as [Hz|Hz].
  - change (lit "-" ++ fmt_nat (Z.abs_N z)) with (45%N :: fmt_nat (Z.abs_N z)).
    cbv beta iota zeta. rewrite He, Hd. cbn [orb negb]. rewrite fmt_nat_value.
    replace (- Z.of_N (Z.abs_N z))%Z with z by lia.
    by rewrite (proj2 (Z.leb_le _ _) Hlo), (proj2 (Z.ltb_lt _ _) Hhi).
  - assert (match fmt_nat (Z.abs_N z) with
            | 45%N :: s' => (true, s') | 43%N :: s' => (false, s') | _ => (false, fmt_nat (Z.abs_N z)) end
            = (false, fmt_nat (Z.abs_N z))) as ->.
    { destruct (fmt_nat (Z.abs_N z)) as [|c s] eqn:E; [done|].
      assert (is_digit c = true) as Hc by (apply (fmt_nat_digits (Z.abs_N z)); rewrite E; left).
      unfold is_digit in Hc. apply andb_true_iff in Hc as [H1%N.leb_le H2%N.leb_le].
      destruct (decide (c = 45%N)) as [->|H45]; [lia|]. destruct (decide (c = 43%N)) as [->|H43]; [lia|].
      clear -H45 H43. destruct c as [|p]; [done|]. repeat (destruct p as [p|p|]; try done). }
    cbv beta iota zeta. rewrite He, Hd. cbn [orb negb]. rewrite fmt_nat_value.
    replace (Z.of_N (Z.abs_N z)) with z by lia.
    by rewrite (proj2 (Z.leb_le _ _) Hlo), (proj2 (Z.ltb_lt _ _) Hhi).
Qed.

Lemma fmt_i64_chars z c : c ∈ fmt_i64 z → is_digit c = true ∨ c = 45%N.
Proof.
  unfold fmt_i64. destruct (z <? 0)%Z; [|left; by eapply fmt_nat_digits].
  change (lit "-" ++ fmt_nat (Z.abs_N z)) with (45%N :: fmt_nat (Z.abs_N z)).
  rewrite elem_of_cons. intros [->|Hc]; [by right|left; by eapply fmt_nat_digits].
Qed.

(** ** Paths *)

Lemma split_on_ne c s : split_on c s ≠ [].
Proof. destruct s as [|d s]; cbn; [done|]. destruct (d =? c)%N; [done|]. by destruct (split_on c s). Qed.

Lemma split_on_app c a b : split_on c (a ++ c :: b) = split_on c a ++ split_on c b.
Proof.
  induction a as [|d a IH]; cbn [split_on app]; [by rewrite N.eqb_refl|].
  destruct (d =? c)%N; [by rewrite IH|]. rewrite IH.
  pose proof (split_on_ne c a). by destruct (split_on c a).
Qed.

Lemma split_on_plain c s : c ∉ s → split_on c s = [s].
Proof.
  induction s as [|d s IH]; cbn [split_on]; [done|]. intros Hn.
  destruct (N.eqb_spec d c) as [->|_]; [set_solver|]. rewrite IH by set_solver. done.
Qed.

Lemma strip_md_app x : strip_md (x ++ MD) = Some x.
Proof. unfold strip_md. rewrite reverse_app, strip_prefix_app. cbn. by rewrite reverse_involutive. Qed.

Lemma sep_not_in_name ts : PATH_SEP ∉ fmt_i64 ts ++ MD.
Proof.
  rewrite elem_of_app. intros [Hc%fmt_i64_chars|Hc].
  - by destruct Hc.
  - revert Hc. apply (bool_decide_unpack _). vm_compute. exact I.
Qed.

Lemma history_dir_split tenant id :
  history_dir tenant id = (tenant ++ lit "/.history/" ++ id) ++ [PATH_SEP].
Proof. unfold history_dir. by rewrite <- !app_assoc. Qed.

Lemma snapshot_path_split tenant id ts :
  split_on PATH_SEP (snapshot_path tenant id ts)
  = split_on PATH_SEP (tenant ++ lit "/.history/" ++ id) ++ [fmt_i64 ts ++ MD].
Proof.
  unfold snapshot_path. rewrite history_dir_split, <-app_assoc. cbn [app].
  rewrite split_on_app. by rewrite (split_on_plain _ (fmt_i64 ts ++ MD)) by apply sep_not_in_name.
Qed.

Lemma snapshot_ts_path tenant id ts : in_i64 ts → snapshot_ts (snapshot_path tenant id ts) = Some ts.
Proof.
  intros Hts. unfold snapshot_ts. rewrite snapshot_path_split, last_snoc. cbn.
  rewrite strip_md_app. cbn. by apply parse_fmt_i64.
Qed.

Lemma starts_with_app_ne p a b : a ≠ [] → str_starts_with [p] (a ++ b) = str_starts_with [p] a.
Proof. destruct a as [|d a]; [done|]. intros _. unfold str_starts_with. cbn. by destruct (p =? d)%N. Qed.

Lemma snapshot_path_valid tenant id ts :
  validate_relative_path (history_dir tenant id) = Ok tt →
  validate_relative_path (snapshot_path tenant id ts) = Ok tt.
Proof.
  assert (history_dir tenant id ≠ []) as Hne by (rewrite history_dir_split; by destruct (tenant ++ _ ++ id)).
  unfold validate_relative_path. rewrite snapshot_path_split.
  unfold snapshot_path at 1. rewrite (starts_with_app_ne _ (history_dir tenant id)) by done.
  destruct (str_starts_with _ _); [done|]. rewrite history_dir_split, split_on_app, !existsb_app.
  destruct (existsb _ (split_on _ (tenant ++ _))); [done|]. cbn [orb existsb split_on].
  intros _. assert (bool_decide (fmt_i64 ts ++ MD = lit "..") = false) as ->; [|done].
  apply bool_decide_eq_false_2. intros E. apply (f_equal length) in E.
  rewrite length_app in E. change (length MD) with 3 in E. change (length (lit "..")) with 2 in E. lia.
Qed.

(** ** Retention *)

#[local] Instance z_le_trans : Transitive (λ a b : Z, z_le a b).
Proof. intros x y z Hxy Hyz. apply Is_true_true in Hxy, Hyz. apply Is_true_true. unfold z_le in *. lia. Qed.
#[local] Instance z_le_total : Total (λ a b : Z, z_le a b).
Proof.
  intros x y. destruct (Z.le_ge_cases x y); [left|right]; apply Is_true_true; unfold z_le; lia.
Qed.
#[local] Instance z_le_antisym : AntiSymm (=) (λ a b : Z, z_le a b).
Proof. intros x y Hxy Hyx. apply Is_true_true in Hxy, Hyx. unfold z_le in *. lia. Qed.

(** Two ascending lists without repetition are equal when they have the same elements. *)
Lemma ascending_ext (l1 l2 : list Z) :
  StronglySorted (λ a b, z_le a b) l1 → StronglySorted (λ a b, z_le a b) l2 → NoDup l1 → NoDup l2 →
  (∀ x, x ∈ l1 ↔ x ∈ l2) → l1 = l2.
Proof.
  intros H1 H2 N1 N2 Hel. eapply (StronglySorted_unique (λ a b, z_le a b)); [done|done|].
  by apply NoDup_Permutation.
Qed.

Lemma NoDup_omap_inj {A B} (f : A → option B) (l : list A) :
  NoDup l → (∀ x y z, x ∈ l → y ∈ l → f x = Some z → f y = Some z → x = y) → NoDup (omap f l).
Proof.
  induction 1 as [|x l Hx Hl IH]; intros Hf; cbn; [constructor|].
  assert (NoDup (omap f l)) as Hl' by (apply IH; intros; eapply Hf; set_solver).
  destruct (f x) as [z|] eqn:E; [|done]. constructor; [|done].
  intros (y & Hy & Ey)%list_elem_of_omap. apply Hx. by rewrite (Hf x y z); [|left|right|..].
Qed.

Lemma list_filter_iff' {A} (P Q : A → Prop) `{∀ x, Decision (P x)} `{∀ x, Decision (Q x)} (l : list A) :
  (∀ x, x ∈ l → P x ↔ Q x) → filter P l = filter Q l.
Proof.
  induction l as [|x l IH]; intros HPQ; [done|]. rewrite !filter_cons.
  rewrite IH by (intros; apply HPQ; by right). pose proof (HPQ x ltac:(by left)).
  repeat case_decide; naive_solver.
Qed.

Section history.
Context {UP : UlidParser} {D : Disk} {CH : ContentHasher} {Y : Yaml} {FD : FileDigest}
        {PS : PrivacyStage} {VC : VaultConfig}.

(** Every file of the history of a note has the name the vault gives to a snapshot. *)
Definition history_canonical (fs : files) (id : ustr) : Prop :=
  ∀ p, is_Some (fs !! p) → str_starts_with (history_dir self_vault_id id) p = true →
  ∃ ts, in_i64 ts ∧ p = snapshot_path self_vault_id id ts.

Definition effective_max : nat := Nat.max max_versions 1.
Definition unexpired (now_ms : N) (ts : Z) : bool :=
  match ttl_days with Some days => negb (expired now_ms days ts) | None => true end.
(** The newest versions that have not expired, no more than the maximum. *)
Definition retained (now_ms : N) (versions : list Z) : list Z :=
  let kept := filter (λ ts, unexpired now_ms ts = true) versions in
  drop (length kept - effective_max) kept.

Lemma starts_with_app p q : str_starts_with p (p ++ q) = true.
Proof. unfold str_starts_with. by rewrite strip_prefix_app. Qed.

Lemma elem_of_paths_under prefix fs p :
  p ∈ paths_under prefix fs ↔ is_Some (fs !! p) ∧ str_starts_with prefix p = true.
Proof.
  unfold paths_under. rewrite list_elem_of_filter, list_elem_of_fmap. split.
  - intros (Hp & [q c] & -> & Hin%elem_of_map_to_list). eauto.
  - intros ([c Hc] & Hp). split; [done|]. exists (p, c). split; [done|]. by apply elem_of_map_to_list.
Qed.

Lemma history_versions_Ok fs id versions :
  history_versions fs id = Ok versions →
  validate_relative_path (history_dir self_vault_id id) = Ok tt
  ∧ disk_fails DiskList (history_dir self_vault_id id) = false
  ∧ versions = merge_sort (λ a b, z_le a b)
                 (omap snapshot_ts (paths_under (history_dir self_vault_id id) fs)).
Proof.
  unfold history_versions, fs_list. destruct (validate_relative_path _) as [[]|e] eqn:Ev; cbn.
  - destruct (disk_fails _ _); [done|]. by intros [= <-].
  - unfold validate_relative_path in Ev. by repeat case_match; simplify_eq.
Qed.

(** The versions of a canonical history are the times of its snapshots, in order. *)
Lemma history_versions_elem fs id versions :
  history_canonical fs id → history_versions fs id = Ok versions →
  StronglySorted (λ a b, z_le a b) versions ∧ NoDup versions
  ∧ ∀ ts, ts ∈ versions ↔ in_i64 ts ∧ is_Some (fs !! snapshot_path self_vault_id id ts).
Proof.
  intros Hc Hv. apply history_versions_Ok in Hv as (_ & _ & ->). split; [apply (StronglySorted_merge_sort _)|].
  assert (∀ ts, ts ∈ omap snapshot_ts (paths_under (history_dir self_vault_id id) fs) ↔
            in_i64 ts ∧ is_Some (fs !! snapshot_path self_vault_id id ts)) as Hel.
  { intros ts. rewrite list_elem_of_omap. split.
    - intros (p & [Hp Hpre]%elem_of_paths_under & Hts). destruct (Hc p Hp Hpre) as (ts' & Hi & ->).
      rewrite snapshot_ts_path in Hts by done. injection Hts as ->. by split.
    - intros [Hi Hs]. exists (snapshot_path self_vault_id id ts). rewrite elem_of_paths_under.
      split_and!; [done|apply starts_with_app|by apply snapshot_ts_path]. }
  split.
  - eapply NoDup_Permutation_proper; [apply merge_sort_Permutation|].
    apply NoDup_omap_inj; [apply NoDup_filter, NoDup_fst_map_to_list|].
    intros p q ts Hp Hq E1 E2. apply elem_of_paths_under in Hp as [Hp Hpre], Hq as [Hq Hqre].
    destruct (Hc p Hp Hpre) as (t1 & H1 & ->), (Hc q Hq Hqre) as (t2 & H2 & ->).
    rewrite snapshot_ts_path in E1, E2 by done. congruence.
  - intros ts. by rewrite merge_sort_Permutation.
Qed.

Definition delete_snapshots (tenant id : ustr) (fs : files) (l : list Z) : files :=
  foldl (λ fs ts, delete_quietly fs (snapshot_path tenant id ts)) fs l.

Lemma delete_quietly_lookup fs q p :
  validate_relative_path q = Ok tt → disk_fails DiskDelete q = false →
  delete_quietly fs q !! p = if bool_decide (p = q) then None else fs !! p.
Proof.
  intros Hv Hd. unfold delete_quietly. case_bool_decide as E; [|by apply fs_delete_lookup].
  subst p. unfold fs_delete. rewrite Hv, Hd. destruct (fs !! q) eqn:Eq; [apply lookup_delete_eq|done].
Qed.

(** Whatever fails, only the named snapshots can go. *)
Lemma delete_snapshots_others tenant id l fs p :
  (∀ ts, ts ∈ l → p ≠ snapshot_path tenant id ts) → delete_snapshots tenant id fs l !! p = fs !! p.
Proof.
  revert fs. induction l as [|ts l IH]; intros fs Hp; [done|].
  change (delete_snapshots tenant id fs (ts :: l))
    with (delete_snapshots tenant id (delete_quietly fs (snapshot_path tenant id ts)) l).
  rewrite IH by (intros; apply Hp; by right). apply fs_delete_lookup. apply Hp. by left.
Qed.

Lemma delete_snapshots_gone tenant id l fs ts :
  validate_relative_path (history_dir tenant id) = Ok tt →
  (∀ t, disk_fails DiskDelete (snapshot_path tenant id t) = false) →
  ts ∈ l → delete_snapshots tenant id fs l !! snapshot_path tenant id ts = None.
Proof.
  intros Hv Hd. revert fs. induction l as [|t l IH]; intros fs; [set_solver|].
  change (delete_snapshots tenant id fs (t :: l))
    with (delete_snapshots tenant id (delete_quietly fs (snapshot_path tenant id t)) l).
  destruct (decide (ts ∈ l)) as [Hl|Hl]; [by intros _; apply IH|].
  intros [<-|?]%elem_of_cons; [|done].
  assert (∀ fs', fs' !! snapshot_path tenant id ts = None →
            delete_snapshots tenant id fs' l !! snapshot_path tenant id ts = None) as Hstay.
  { clear IH Hl fs. induction l as [|t' l IH]; intros fs' Hfs; [done|].
    change (delete_snapshots tenant id fs' (t' :: l))
      with (delete_snapshots tenant id (delete_quietly fs' (snapshot_path tenant id t')) l).
    apply IH. rewrite delete_quietly_lookup by auto using snapshot_path_valid. by case_bool_decide. }
  apply Hstay. rewrite delete_quietly_lookup by auto using snapshot_path_valid.
  by rewrite bool_decide_eq_true_2.
Qed.

(** The snapshots a trim of [versions] removes. *)
Definition trimmed (now_ms : N) (versions : list Z) : list Z :=
  filter (λ ts, ts ∉ retained now_ms versions) versions.

Lemma apply_history_trim_eq fs id tenant now_ms versions :
  history_versions fs id = Ok versions →
  ∃ l, apply_history_trim fs id tenant now_ms = delete_snapshots tenant id fs l
    ∧ (NoDup versions → ∀ ts, ts ∈ l ↔ ts ∈ trimmed now_ms versions).
Proof.
  intros Hv. unfold apply_history_trim. rewrite Hv. cbn zeta.
  set (gone := match ttl_days with Some days => _ | None => _ end).
  set (kept := filter (λ ts, ts ∉ gone) versions).
  assert (filter (λ ts, unexpired now_ms ts = true) versions = kept) as Hkept.
  { subst kept gone. apply list_filter_iff'. intros ts Hts. unfold unexpired.
    destruct ttl_days as [days|]; [|set_solver]. rewrite list_elem_of_filter.
    destruct (expired now_ms days ts); naive_solver. }
  set (k := length kept - effective_max).
  assert (retained now_ms versions = drop k kept) as Hret by (unfold retained; by rewrite Hkept).
  exists (gone ++ take k kept). split.
  - unfold delete_snapshots. rewrite foldl_app. fold effective_max.
    destruct (Nat.leb_spec (length kept) effective_max) as [Hle|Hgt]; [|done].
    by replace k with 0 by lia.
  - intros Hnd ts. unfold trimmed. rewrite list_elem_of_filter, Hret, elem_of_app.
    assert (NoDup kept) as Hndk by (by apply NoDup_filter).
    rewrite <-(take_drop k kept) in Hndk. apply NoDup_app in Hndk as (_ & Hdisj & _).
    assert (ts ∈ kept ↔ ts ∈ take k kept ∨ ts ∈ drop k kept) as Hk.
    { rewrite <-(take_drop k kept) at 1. apply elem_of_app. }
    assert (ts ∈ kept ↔ ts ∉ gone ∧ ts ∈ versions) as Hk2
      by (unfold kept; by rewrite list_elem_of_filter).
    assert (ts ∈ gone → ts ∈ versions) as Hg.
    { subst gone. destruct ttl_days; [|set_solver]. by intros [_ ?]%list_elem_of_filter. }
    destruct (decide (ts ∈ gone)); naive_solver.
Qed.

Lemma retained_sub now_ms versions ts : ts ∈ retained now_ms versions → ts ∈ versions.
Proof.
  unfold retained. intros H. apply (elem_of_sublist _ _ _ H).
  etrans; [apply sublist_drop|apply sublist_filter].
Qed.

Lemma snapshot_path_inj tenant id t1 t2 :
  in_i64 t1 → in_i64 t2 → snapshot_path tenant id t1 = snapshot_path tenant id t2 → t1 = t2.
Proof.
  intros H1 H2 E. apply (f_equal snapshot_ts) in E. rewrite !snapshot_ts_path in E by done. congruence.
Qed.

Lemma trim_exact fs id now_ms versions
    (Hv : history_versions fs id = Ok versions) (Hcan : history_canonical fs id)
    (Hdel : ∀ ts, disk_fails DiskDelete (snapshot_path self_vault_id id ts) = false) :
  let fs' := apply_history_trim fs id self_vault_id now_ms in
  history_versions fs' id = Ok (retained now_ms versions)
  ∧ length (retained now_ms versions) ≤ effective_max
  ∧ ∀ p, (∀ ts, p ≠ snapshot_path self_vault_id id ts) → fs' !! p = fs !! p.
Proof.
  cbn zeta. pose proof (history_versions_Ok _ _ _ Hv) as (Hdir & Hlist & _).
  destruct (history_versions_elem _ _ _ Hcan Hv) as (Hsort & Hnd & Hel).
  destruct (apply_history_trim_eq fs id self_vault_id now_ms versions Hv) as (l & -> & Hl).
  specialize (Hl Hnd). set (fs' := delete_snapshots _ _ _ _).
  assert (∀ p, is_Some (fs' !! p) → is_Some (fs !! p)) as Hsub.
  { intros p Hp. unfold fs' in Hp.
    destruct (decide (p ∈ snapshot_path self_vault_id id <$> l)) as [(ts & -> & Hts)%list_elem_of_fmap|Hno].
    - rewrite delete_snapshots_gone in Hp by done. by destruct Hp.
    - rewrite delete_snapshots_others in Hp; [done|]. intros ts Hts ->. by apply Hno, list_elem_of_fmap_2. }
  assert (history_canonical fs' id) as Hcan' by (intros p Hp; apply Hcan; by apply Hsub).
  split_and!.
  - assert (∃ vs, history_versions fs' id = Ok vs) as [vs Hvs].
    { unfold history_versions, fs_list. rewrite Hdir. cbn. rewrite Hlist. eauto. }
    rewrite Hvs. f_equal. destruct (history_versions_elem _ _ _ Hcan' Hvs) as (Hs' & Hn' & Hel').
    apply ascending_ext; try done.
    + unfold retained. apply strict_sorted_drop. by apply strict_sorted_filter.
    + unfold retained. apply (sublist_NoDup _ versions); [done|].
      etrans; [apply sublist_drop|apply sublist_filter].
    + intros ts. rewrite Hel'. split.
      * intros [Hi Hp]. destruct (decide (ts ∈ retained now_ms versions)) as [|Hno]; [done|].
        assert (ts ∈ l) as Hin.
        { apply Hl. unfold trimmed. apply list_elem_of_filter. split; [done|]. apply Hel. split; [done|].
          by apply Hsub. }
        unfold fs' in Hp. rewrite delete_snapshots_gone in Hp by done. by destruct Hp.
      * intros Hr. assert (ts ∈ versions) as [Hi Hp]%Hel by (by eapply retained_sub).
        split; [done|]. unfold fs'. rewrite delete_snapshots_others; [done|].
        intros t [Ht1 [Ht2 _]%Hel]%Hl%list_elem_of_filter E. apply Ht1.
        by rewrite <-(snapshot_path_inj _ _ _ _ Hi Ht2 E).
  - unfold retained. rewrite length_drop. lia.
  - intros p Hp. apply delete_snapshots_others. intros ts _. apply Hp.
Qed.

(** The trim looks for versions under the vault of the instance: the history of a note of
    another vault, where it deletes, is never bounded. *)
Theorem trim_skips_other_vaults fs id tenant now_ms
    (Hnone : ∀ p, is_Some (fs !! p) → str_starts_with (history_dir self_vault_id id) p = false) :
  apply_history_trim fs id tenant now_ms = fs.
Proof.
  unfold apply_history_trim. destruct (history_versions fs id) as [vs|] eqn:Ev; [|done].
  apply history_versions_Ok in Ev as (_ & _ & ->).
  replace (paths_under (history_dir self_vault_id id) fs) with (@nil ustr); [by destruct ttl_days|].
  symmetry. apply elem_of_nil_inv. intros p [Hp Hpre]%elem_of_paths_under. by rewrite Hnone in Hpre.
Qed.

(** Retention is exact.  On the history of a note of the vault, the trim that follows a
    snapshot leaves the newest unexpired versions, at most the configured number (and at least
    room for one), and removes every other one; nothing but snapshots of that note is
    touched. *)
Theorem trim_keeps_newest fs id now_ms versions
    (Hv : history_versions fs id = Ok versions) (Hcan : history_canonical fs id)
    (Hdel : ∀ ts, disk_fails DiskDelete (snapshot_path self_vault_id id ts) = false) :
  let fs' := apply_history_trim fs id self_vault_id now_ms in
  history_versions fs' id = Ok (retained now_ms versions)
  ∧ length (retained now_ms versions) ≤ effective_max
  ∧ ∀ p, (∀ ts, p ≠ snapshot_path self_vault_id id ts) → fs' !! p = fs !! p.
Proof. by apply trim_exact. Qed.

(** ** The version a write replaces *)

Lemma trim_keeps_file fs id now_ms versions ts :
  history_versions fs id = Ok versions → history_canonical fs id → ts ∈ retained now_ms versions →
  apply_history_trim fs id self_vault_id now_ms !! snapshot_path self_vault_id id ts
  = fs !! snapshot_path self_vault_id id ts.
Proof.
  intros Hv Hcan Hts. destruct (history_versions_elem _ _ _ Hcan Hv) as (_ & Hnd & Hel).
  destruct (apply_history_trim_eq fs id self_vault_id now_ms versions Hv) as (l & -> & Hl).
  pose proof (proj1 (Hel ts) (retained_sub _ _ _ Hts)) as [Hi _].
  apply delete_snapshots_others. intros t [Ht1 [Ht2 _]%Hel]%(Hl Hnd)%list_elem_of_filter E.
  apply Ht1. by rewrite <-(snapshot_path_inj _ _ _ _ Hi Ht2 E).
Qed.

Lemma sorted_le_last l x z :
  StronglySorted (λ a b : Z, z_le a b) l → last l = Some z → x ∈ l → (x ≤ z)%Z.
Proof.
  intros Hs. revert z. induction Hs as [|y l Hl IH Hy]; intros z Hz; [done|].
  rewrite elem_of_cons. destruct l as [|y' l]; [injection Hz as ->; intros [->|?]; [lia|set_solver]|].
  rewrite last_cons_cons in Hz. intros [->|Hx]; [|by apply IH].
  rewrite Forall_forall in Hy. assert (z ∈ y' :: l) as Hin by (apply last_Some_elem_of; exact Hz).
  specialize (Hy z Hin). apply Is_true_true in Hy. unfold z_le in Hy. lia.
Qed.

Lemma newest_retained now_ms versions ts :
  StronglySorted (λ a b, z_le a b) versions → ts ∈ versions → unexpired now_ms ts = true →
  (∀ t, t ∈ versions → (t ≤ ts)%Z) → ts ∈ retained now_ms versions.
Proof.
  intros Hs Hin Hun Hmax. unfold retained. set (kept := filter _ versions).
  assert (StronglySorted (λ a b, z_le a b) kept) as Hsk by (by apply strict_sorted_filter).
  assert (ts ∈ kept) as Hk by (by apply list_elem_of_filter).
  assert (last kept = Some ts) as Hlast.
  { destruct (last kept) as [z|] eqn:Ez; [|apply last_None in Ez; rewrite Ez in Hk; set_solver].
    pose proof (sorted_le_last _ _ _ Hsk Ez Hk) as H1. apply last_Some_elem_of in Ez.
    apply list_elem_of_filter in Ez as [_ Ez]. specialize (Hmax z Ez). f_equal. lia. }
  assert (0 < length kept) by (destruct kept; [set_solver|cbn; lia]).
  rewrite last_lookup in Hlast. apply list_elem_of_lookup. exists (pred (length kept) - (length kept - effective_max)).
  rewrite lookup_drop. rewrite <-Hlast. f_equal. unfold effective_max. lia.
Qed.

Lemma snapshot_not_note tenant id ts : is_note_path (snapshot_path tenant id ts) = false.
Proof.
  unfold is_note_path. rewrite snapshot_path_split.
  change (tenant ++ lit "/.history/" ++ id) with (tenant ++ PATH_SEP :: lit ".history" ++ PATH_SEP :: id).
  rewrite split_on_app, split_on_app, !existsb_app.
  replace (existsb _ (split_on PATH_SEP (lit ".history"))) with true by reflexivity.
  by rewrite !orb_true_r.
Qed.

Definition version_ts (prev : Note) : Z :=
  timestamp_millis (default (fm_created (frontmatter prev)) (fm_updated (frontmatter prev))).
Definition trim_now (t : DateTime) : N := Z.to_N (Z.max (timestamp_millis t) 0).

Lemma canonical_insert fs id ts c :
  in_i64 ts → history_canonical fs id → history_canonical (<[snapshot_path self_vault_id id ts := c]> fs) id.
Proof.
  intros Hts Hcan p Hp Hpre. destruct (decide (p = snapshot_path self_vault_id id ts)) as [->|Hne]; [eauto|].
  rewrite lookup_insert_ne in Hp by done. by apply Hcan.
Qed.

Lemma keep_history_snapshot fs note prev now c id :
  note_id prev = id → note_id note = id → fm_vault_id (frontmatter prev) = self_vault_id →
  sha256_for_history prev ≠ sha256_for_history note →
  fs_read fs (note_md_relative_path prev) = Ok c →
  validate_relative_path (history_dir self_vault_id id) = Ok tt →
  (∀ op p, disk_fails op p = false) → history_canonical fs id →
  in_i64 (version_ts prev) → unexpired (trim_now now) (version_ts prev) = true →
  (∀ t, in_i64 t → is_Some (fs !! snapshot_path self_vault_id id t) → (t ≤ version_ts prev)%Z) →
  keep_history fs note (Some prev) false now !! snapshot_path self_vault_id id (version_ts prev) = Some c.
Proof.
  intros <- Hid Hv Hsha Hread Hdir Hdisk Hcan Hi Hun Hmax. unfold keep_history. rewrite Hv.
  rewrite bool_decide_eq_false_2 by done. fold (version_ts prev) (trim_now now). rewrite Hread.
  unfold fs_create_dir. rewrite Hdir. cbn [result_bind]. rewrite Hdisk.
  unfold guard_write. rewrite snapshot_not_note. unfold fs_write.
  rewrite snapshot_path_valid, Hdisk, Hid by done. cbn match.
  set (fs1 := <[snapshot_path self_vault_id (note_id prev) (version_ts prev) := c]> fs).
  assert (history_canonical fs1 (note_id prev)) as Hcan1 by (by apply canonical_insert).
  assert (∃ vs, history_versions fs1 (note_id prev) = Ok vs) as [vs Hvs].
  { unfold history_versions, fs_list. rewrite Hdir. cbn. rewrite Hdisk. eauto. }
  destruct (history_versions_elem _ _ _ Hcan1 Hvs) as (Hs & Hnd & Hel).
  rewrite (trim_keeps_file _ _ _ vs); [by unfold fs1; rewrite lookup_insert_eq|done|done|].
  apply newest_retained; [done| |done|].
  - apply Hel. split; [done|]. unfold fs1. rewrite lookup_insert_eq. eauto.
  - intros t [Ht Hp]%Hel. destruct (decide (t = version_ts prev)) as [->|Hne]; [done|].
    apply Hmax; [done|]. unfold fs1 in Hp. rewrite lookup_insert_ne in Hp; [done|].
    intros E. by apply snapshot_path_inj in E.
Qed.

Context {PL : PrivacyLaws}.

(** The version a write replaces is kept.  When a note of the vault is overwritten by a
    version whose meaning differs, and the policy does not mask, the text that was in the file
    is in the history of the note afterwards, under the time of that version, however many
    versions the trim removed, unless that time has itself expired. *)
Theorem previous_version_kept fm b id ck v note v' prev c
    (Hw : write_note_inner fm b id ck v = (Ok note, v'))
    (Hself : home_vault fm = self_vault_id) (Hmask : masks_bodies = false)
    (Hprev : read_note_in v self_vault_id id = Ok prev)
    (Hpv : fm_vault_id (frontmatter prev) = self_vault_id)
    (Hsha : sha256_for_history prev ≠ sha256_for_history note)
    (Hfile : fs_read (v_files v) (note_md_relative_path prev) = Ok c)
    (Hdir : validate_relative_path (history_dir self_vault_id id) = Ok tt)
    (Hnote : is_note_path (note_md_relative_path note) = true)
    (Hdisk : ∀ op p, disk_fails op p = false) (Hcan : history_canonical (v_files v) id)
    (Hi64 : in_i64 (version_ts prev)) (Hlive : unexpired (trim_now (ck_trim ck)) (version_ts prev) = true)
    (Hnewest : ∀ t, in_i64 t → is_Some (v_files v !! snapshot_path self_vault_id id t) →
                    (t ≤ version_ts prev)%Z) :
  v_files v' !! snapshot_path self_vault_id id (version_ts prev) = Some c.
Proof.
  assert (note_id prev = id) as Hpid by (by eapply read_note_in_id).
  unfold write_note_inner, write_note_judged in Hw. rewrite Hmask in Hw. cbn [andb] in Hw. cbv zeta in Hw.
  replace (fm_vault_id (if bool_decide (fm_vault_id fm = []) then with_vault_id fm self_vault_id else fm))
    with self_vault_id in Hw
    by (rewrite <-Hself; unfold home_vault; case_bool_decide; by destruct fm).
  rewrite Hprev, masked_body_off in Hw by done.
  destruct (md_write _) as [md|]; [|done].
  destruct (write_note_file _ _ _) as [[[]|] fs2] eqn:Ew; [|done].
  apply fs_write_Ok in Ew as (_ & _ & ->). injection Hw as <- <-.
  cbn [v_files with_files with_index]. rewrite lookup_insert_ne.
  - by apply keep_history_snapshot.
  - intros E. rewrite E, snapshot_not_note in Hnote. done.
Qed.
End history.
