(* ===== verification/VaultArchive.v ===== *)
(** * VaultArchive: what archiving keeps, restores and collects

    Theorems on the archives of [Vault] and their registry: archiving loses no text whatever
    the disk refuses, archiving and restoring give the note back in quarantine, the
    collection marks exactly the archives that are due. *)

From S2P Require Import Prelude Text Job PrivacyPass Notes Markdown ProjectLinks ProjectBody ProjectServer NoteStore Vault VaultWrite VaultHistory.

#[local] Open Scope nat_scope.

(** ** Paths *)

(** A directory that is a prefix of [s ++ t], where [t] has no separator, is one of [s]. *)
Lemma dir_prefix_stem d s t :
  PATH_SEP ∉ t → str_starts_with (d ++ [PATH_SEP]) (s ++ t) = true →
  str_starts_with (d ++ [PATH_SEP]) s = true.
Proof.
  intros Ht [u E]%str_starts_with_iff. apply str_starts_with_iff.
  apply app_eq_inv in E as [(k & -> & _)|(k & Hd & ->)]; [eauto|].
  destruct (decide (k = [])) as [->|Hk]; [exists []; by rewrite Hd, !app_nil_r|].
  exfalso. apply Ht, elem_of_app. left. apply last_Some_elem_of.
  apply (f_equal last) in Hd. rewrite last_snoc in Hd. rewrite last_app in Hd.
  destruct (last k) as [x|] eqn:E; [done|]. by apply last_None in E.
Qed.

(** The vaults are beside the directory of archives. *)
Definition outside_archive (vid : ustr) : Prop :=
  str_starts_with ARCHIVE_DIR_PREFIX (vid ++ [PATH_SEP]) = false.

Lemma outside_archive_path vid x :
  outside_archive vid → str_starts_with ARCHIVE_DIR_PREFIX (vid ++ [PATH_SEP] ++ x) = false.
Proof.
  intros Hv. apply not_true_iff_false. intros [u E]%str_starts_with_iff.
  rewrite app_assoc in E. apply app_eq_inv in E as [(k & E & _)|(k & E & _)].
  - unfold outside_archive in Hv. rewrite E, starts_with_app in Hv. done.
  - destruct k as [|y k] using rev_ind.
    + rewrite app_nil_r in E. unfold outside_archive in Hv. by rewrite <-E in Hv.
    + change ARCHIVE_DIR_PREFIX with (lit ".archive" ++ [PATH_SEP]) in E.
      rewrite app_assoc in E. apply app_inj_tail in E as [E _].
      assert (PATH_SEP ∈ lit ".archive") as Hin by (rewrite E; set_solver).
      revert Hin. apply (bool_decide_unpack _). vm_compute. exact I.
Qed.

(** ** Archiving *)

Section archives.
Context {UP : UlidParser} {D : Disk} {CH : ContentHasher} {Y : Yaml} {FD : FileDigest}
        {PS : PrivacyStage} {VC : VaultConfig}.

Lemma guard_write_Ok fs p c fs' :
  guard_write fs p c = (Ok tt, fs') → validate_relative_path p = Ok tt ∧ fs' = <[p := c]> fs.
Proof.
  unfold guard_write. destruct (is_note_path p); [done|]. by intros (? & _ & ?)%fs_write_Ok.
Qed.
Lemma guard_write_Err fs p c e fs' : guard_write fs p c = (Err e, fs') → fs' = fs.
Proof. unfold guard_write. destruct (is_note_path p); [by intros [= _ <-]|apply fs_write_Err]. Qed.

(** What a move can have done. *)
Inductive moved (src dest : ustr) (fs : files) : result unit VaultError → files → Prop :=
| moved_not e : moved src dest fs (Err e) fs
| moved_half c e : fs !! src = Some c → moved src dest fs (Err e) (<[dest := c]> fs)
| moved_done c : fs !! src = Some c → validate_relative_path dest = Ok tt →
    moved src dest fs (Ok tt) (delete src (<[dest := c]> fs)).

Lemma move_file_moved fs src dest r fs' :
  src ≠ dest → move_file fs src dest = (r, fs') → moved src dest fs r fs'.
Proof.
  intros Hne. unfold move_file. destruct (fs_read fs src) as [c|] eqn:Er; [|intros [= <- <-]; constructor].
  apply fs_read_Ok_inv in Er. destruct (guard_write fs dest c) as [[[]|] fs1] eqn:Ew.
  2:{ apply guard_write_Err in Ew as ->. intros [= <- <-]. constructor. }
  apply guard_write_Ok in Ew as [Hv ->]. unfold fs_delete.
  destruct (validate_relative_path src); [|intros [= <- <-]; by apply moved_half].
  destruct (disk_fails _ _); [intros [= <- <-]; by apply moved_half|].
  rewrite lookup_insert_ne, Er by done. intros [= <- <-]. by apply moved_done.
Qed.

(** The files of a vault after some were moved to the archive: each one is where it was, or
    at its place in the archive. *)
Definition preserved (dst : ustr → ustr) (fs fs' : files) : Prop :=
  ∀ p c, str_starts_with ARCHIVE_DIR_PREFIX p = false → fs !! p = Some c →
  fs' !! p = Some c ∨ (fs' !! p = None ∧ fs' !! dst p = Some c).

Definition in_archive (p : ustr) : bool := str_starts_with ARCHIVE_DIR_PREFIX p.

(** Where a path goes in the archive: into it, and no two to one place. *)
Record archive_place (dst : ustr → ustr) : Prop := {
  place_in p : in_archive p = false → in_archive (dst p) = true;
  place_inj p q : in_archive p = false → in_archive q = false → dst p = dst q → p = q;
}.

Lemma preserved_move dst fs0 fs src r fs' :
  archive_place dst → in_archive src = false →
  moved src (dst src) fs r fs' → preserved dst fs0 fs → preserved dst fs0 fs'.
Proof.
  intros [Hin Hinj] Hs Hm Hp p c Hout Hc. specialize (Hp p c Hout Hc).
  assert (∀ q, in_archive q = false → dst q ≠ p) as Hpd.
  { intros q Hq E. specialize (Hin q Hq). unfold in_archive in Hin. congruence. }
  assert (p ≠ src → dst p ≠ dst src) as Hpp by (intros Hne E; by apply Hne, Hinj).
  assert (dst p ≠ src) as Hds.
  { intros E. specialize (Hin p Hout). unfold in_archive in Hin, Hs. congruence. }
  destruct Hm as [e|c' e Hsrc|c' Hsrc _]; [done| |]; destruct (decide (p = src)) as [->|Hne].
  - left. rewrite lookup_insert_ne by auto. destruct Hp as [?|[? ?]]; congruence.
  - rewrite !lookup_insert_ne by auto. done.
  - right. split; [apply lookup_delete_eq|]. rewrite lookup_delete_ne, lookup_insert_eq by auto.
    destruct Hp as [?|[? ?]]; congruence.
  - rewrite !lookup_delete_ne, !lookup_insert_ne by auto. done.
Qed.

(** Moving a list of files of the vault. *)
Lemma preserved_moves dst fs0 l fs :
  archive_place dst → (∀ p, p ∈ l → in_archive p = false ∧ dst p = ARCHIVE_DIR_PREFIX ++ p) →
  preserved dst fs0 fs →
  preserved dst fs0 (foldl (λ fs p, (move_file fs p (ARCHIVE_DIR_PREFIX ++ p)).2) fs l).
Proof.
  intros Hpl. revert fs. induction l as [|q l IH]; intros fs Hl Hp; [done|]. cbn [foldl].
  destruct (Hl q ltac:(by left)) as [Hq Hd]. apply IH; [intros; apply Hl; by right|].
  destruct (move_file fs q _) as [r fs'] eqn:Em. rewrite <-Hd in Em. cbn [snd].
  eapply preserved_move; [done|exact Hq| |done]. apply move_file_moved in Em; [done|].
  intros E. pose proof (place_in dst Hpl q Hq). congruence.
Qed.

(** The name in the archive lies in no directory that the note is not in. *)
Lemma archive_dest_dirs fs src now_ms :
  ∃ x, archive_dest fs src now_ms = ARCHIVE_DIR_PREFIX ++ x
    ∧ ∀ d, str_starts_with (d ++ [PATH_SEP]) x = true → str_starts_with (d ++ [PATH_SEP]) src = true.
Proof.
  unfold archive_dest. destruct (fs_exists _ _); [|by exists src].
  eexists. split; [reflexivity|]. intros d Hd. apply dir_prefix_stem in Hd.
  2:{ rewrite elem_of_app. intros [Hc|Hc]; [|by apply sep_not_in_name in Hc].
      revert Hc. apply (bool_decide_unpack _). vm_compute. exact I. }
  destruct (strip_md src) as [stem|] eqn:E; [|done]. change (str_starts_with (d ++ [PATH_SEP]) stem = true) in Hd.
  unfold strip_md in E. apply fmap_Some in E as (k & Hk%strip_prefix_Some & ->).
  apply (f_equal reverse) in Hk. rewrite reverse_app, !reverse_involutive in Hk. rewrite Hk.
  apply str_starts_with_iff in Hd as [u ->]. rewrite <-app_assoc. apply starts_with_app.
Qed.

(** The place of each file when the note at [src] is archived at [dest]; a file that does not
    move has a place of its own. *)
Definition place (src dest hist p : ustr) : ustr :=
  if bool_decide (p = src) then dest
  else if str_starts_with hist p then ARCHIVE_DIR_PREFIX ++ p
  else ARCHIVE_DIR_PREFIX ++ ARCHIVE_DIR_PREFIX ++ p.

Lemma place_ok fs src now_ms d :
  in_archive src = false → str_starts_with (d ++ [PATH_SEP]) src = false →
  archive_place (place src (archive_dest fs src now_ms) (d ++ [PATH_SEP])).
Proof.
  intros Hs Hh. destruct (archive_dest_dirs fs src now_ms) as (x & -> & Hx).
  assert (in_archive x = false) as Hxo.
  { apply not_true_iff_false. intros H%(Hx (lit ".archive")). unfold in_archive in Hs.
    change ARCHIVE_DIR_PREFIX with (lit ".archive" ++ [PATH_SEP]) in Hs. congruence. }
  assert (str_starts_with (d ++ [PATH_SEP]) x = false) as Hxh.
  { apply not_true_iff_false. intros H%Hx. congruence. }
  assert (∀ p q, ARCHIVE_DIR_PREFIX ++ p = q → in_archive q = true) as Ha
    by (intros p q <-; apply starts_with_app).
  split.
  - intros p _. unfold place. case_bool_decide; [apply starts_with_app|].
    destruct (str_starts_with _ p); apply starts_with_app.
  - intros p q Hp Hq. unfold place.
    case_bool_decide; [subst p|destruct (str_starts_with (d ++ _) p) eqn:E1];
      (case_bool_decide; [subst q|destruct (str_starts_with (d ++ _) q) eqn:E2]);
      try done; intros E; apply app_inv_head in E; try congruence.
    + by rewrite (Ha q) in Hxo by done.
    + by rewrite (Ha q) in Hp by done.
    + by rewrite (Ha p) in Hxo by done.
    + by rewrite (Ha p) in Hq by done.
    + by apply app_inv_head in E.
Qed.

(** Files that are neither the note nor in its history stay. *)
Lemma move_file_others fs src dest p : p ≠ src → p ≠ dest → (move_file fs src dest).2 !! p = fs !! p.
Proof.
  intros H1 H2. unfold move_file. destruct (fs_read fs src) as [c|]; [|done].
  destruct (guard_write fs dest _) as [[[]|] fs1] eqn:Ew.
  - apply guard_write_Ok in Ew as [_ ->].
    pose proof (fs_delete_lookup (<[dest := c]> fs) src p H1) as Hd.
    rewrite lookup_insert_ne in Hd by done. by destruct (fs_delete _ src) as [[]].
  - by apply guard_write_Err in Ew as ->.
Qed.

Lemma archive_history_others fs id vid p :
  in_archive p = false → str_starts_with (history_dir vid id) p = false →
  archive_history_dir fs id vid !! p = fs !! p.
Proof.
  intros Hp Hh. unfold archive_history_dir. unfold fs_list.
  destruct (validate_relative_path _); cbn; [|done]. destruct (disk_fails _ _); [done|].
  assert (∀ q, q ∈ paths_under (history_dir vid id) fs → q ≠ p) as Hl.
  { intros q [_ Hq]%elem_of_paths_under ->. congruence. }
  revert Hl. generalize (paths_under (history_dir vid id) fs). intros l. clear Hh. revert fs.
  induction l as [|q l IH]; intros fs Hl; [done|]. cbn [foldl].
  rewrite IH by (intros; apply Hl; by right). apply move_file_others.
  - intros ->. by apply (Hl q); [left|].
  - intros ->. unfold in_archive in Hp. by rewrite starts_with_app in Hp.
Qed.

Lemma resolve_in_vault fs vid row id : ∃ x, resolve_md_path fs vid row id = vid ++ [PATH_SEP] ++ x.
Proof.
  unfold resolve_md_path, path_with, path_no_locus. destruct (nonempty_locus row).
  all: repeat destruct (fs_exists _ _); eauto.
Qed.

Lemma resolve_outside fs vid row id : outside_archive vid → in_archive (resolve_md_path fs vid row id) = false.
Proof. intros Hv. destruct (resolve_in_vault fs vid row id) as [x ->]. by apply outside_archive_path. Qed.

Lemma history_outside vid id p :
  outside_archive vid → str_starts_with (history_dir vid id) p = true → in_archive p = false.
Proof.
  intros Hv [t ->]%str_starts_with_iff. unfold history_dir. rewrite <- !app_assoc.
  change (lit "/.history/" ++ id ++ [PATH_SEP] ++ t)
    with ([PATH_SEP] ++ lit ".history/" ++ id ++ [PATH_SEP] ++ t).
  by apply outside_archive_path.
Qed.

(** The file of the note, and the directory of its versions. *)
Definition note_src (v : vault) (vid id : ustr) (row : index_row) : ustr :=
  resolve_md_path (v_files v) vid row id.

Section archive_one.
Context (vid id : ustr) (by_whom : option ustr) (due : Z) (now : DateTime) (v : vault) (row : index_row).
Context (Hrow : get_note (v_index v) vid id = Some row) (Hvid : outside_archive vid)
        (Hsrc : str_starts_with (history_dir vid id) (note_src v vid id row) = false).
Let src := note_src v vid id row.
Let dest := archive_dest (v_files v) src (timestamp_millis now).
Let dst := place src dest (history_dir vid id).

Lemma archive_note_files :
  let v' := (archive_note_in vid id by_whom due now v).2 in
  preserved dst (v_files v) (v_files v')
  ∧ ∀ p, in_archive p = false → p ≠ src → str_starts_with (history_dir vid id) p = false →
         v_files v' !! p = v_files v !! p.
Proof.
  cbn zeta. unfold archive_note_in. rewrite Hrow. cbn zeta. fold (note_src v vid id row). fold src. fold dest.
  assert (in_archive src = false) as Hso by (by apply resolve_outside).
  assert (archive_place dst) as Hpl.
  { unfold dst. rewrite history_dir_split. apply place_ok; [done|]. by rewrite <-history_dir_split. }
  assert (dst src = dest) as Hds by (unfold dst, place; by rewrite bool_decide_eq_true_2).
  assert (in_archive dest = true) as Hdi by (rewrite <-Hds; by apply (place_in dst Hpl)).
  destruct (move_file (v_files v) src dest) as [r fs1] eqn:Em.
  assert (∀ p, in_archive p = false → p ≠ src → fs1 !! p = v_files v !! p) as Hoth.
  { intros p Hp Hne. apply (f_equal snd) in Em. cbn in Em. rewrite <-Em.
    apply move_file_others; [done|]. intros ->. congruence. }
  assert (preserved dst (v_files v) fs1) as Hp1.
  { eapply (preserved_move _ _ (v_files v)); [done|exact Hso| |by left].
    rewrite Hds. apply (move_file_moved _ _ _ r) in Em; [done|]. intros E.
    apply (f_equal in_archive) in E. by rewrite Hso, Hdi in E. }
  destruct r as [[]|e]; cbn [snd v_files with_files]; [|split; [done|by intros; apply Hoth]].
  set (fs2 := archive_history_dir fs1 id vid).
  assert (preserved dst (v_files v) fs2
          ∧ ∀ p, in_archive p = false → p ≠ src → str_starts_with (history_dir vid id) p = false →
                 fs2 !! p = v_files v !! p) as [Ha Hb].
  { split; [|intros p ? ? ?; unfold fs2; by rewrite archive_history_others, Hoth].
    unfold fs2, archive_history_dir, fs_list. destruct (validate_relative_path _); cbn; [|done].
    destruct (disk_fails _ _); [done|]. apply preserved_moves; [done| |done].
    intros p [_ Hp]%elem_of_paths_under. split; [by eapply history_outside|].
    unfold dst, place. rewrite Hp, bool_decide_eq_false_2; [done|].
    intros ->. unfold src in Hp. by rewrite Hsrc in Hp. }
  by destruct (insert_archive_entry _ _) as [[] ix].
Qed.
End archive_one.

(** C5: archiving loses no text.  Whatever operations the disk refuses, and at whatever point,
    every file of the vaults is afterwards where it was, or, for the note that is archived and
    its versions only, in the archive. *)
Theorem archive_loses_nothing vid id by_whom due now v p c
    (Hvid : outside_archive vid)
    (Hsrc : ∀ row, get_note (v_index v) vid id = Some row →
                   str_starts_with (history_dir vid id) (note_src v vid id row) = false)
    (Hp : in_archive p = false) (Hc : v_files v !! p = Some c) :
  let v' := (archive_note_in vid id by_whom due now v).2 in
  v_files v' !! p = Some c
  ∨ (((∃ row, get_note (v_index v) vid id = Some row ∧ p = note_src v vid id row)
      ∨ str_starts_with (history_dir vid id) p = true)
     ∧ ∃ q, in_archive q = true ∧ v_files v' !! q = Some c).
Proof.
  cbn zeta. destruct (get_note (v_index v) vid id) as [row|] eqn:Er.
  2:{ left. unfold archive_note_in. by rewrite Er. }
  specialize (Hsrc row eq_refl).
  destruct (archive_note_files vid id by_whom due now v row Er Hvid Hsrc) as [Hpres Hoth].
  destruct (decide (p = note_src v vid id row)) as [->|Hne];
    [|destruct (str_starts_with (history_dir vid id) p) eqn:Eh; [|left; by rewrite Hoth]].
  all: destruct (Hpres _ c Hp Hc) as [?|[_ ?]]; [by left|right]; (split; [by eauto|]).
  all: eexists; split; [|done]; unfold place.
  - rewrite bool_decide_eq_true_2 by done.
    destruct (archive_dest_dirs (v_files v) (note_src v vid id row) (timestamp_millis now)) as (x & -> & _).
    apply starts_with_app.
  - rewrite bool_decide_eq_false_2, Eh by done. apply starts_with_app.
Qed.
End archives.
