(* ===== verification/VaultRestore.v ===== *)
(** * VaultRestore: the way back from the archive

    A note that was archived and dropped from the index comes back with its body, in
    quarantine; and the collection of archives marks exactly the rows that are due. *)

From S2P Require Import Prelude Text Job PrivacyPass Notes Markdown ProjectLinks ProjectBody ProjectServer NoteStore Vault VaultWrite VaultHistory VaultArchive.

#[local] Open Scope nat_scope.

(** ** The registry *)

Lemma no_active_filter vid nid l :
  existsb (is_active_of vid nid) l = false ↔ filter (λ e, is_active_of vid nid e = true) l = [].
Proof.
  induction l as [|e l IH]; [done|]. cbn [existsb]. rewrite filter_cons.
  destruct (is_active_of vid nid e); cbn [orb]; [by case_decide|]. by rewrite IH; case_decide.
Qed.

Lemma mark_restored_inactive vid nid t ix :
  get_active_archive (mark_archive_restored vid nid t ix).2 vid nid = None.
Proof.
  unfold get_active_archive, mark_archive_restored, update_active. cbn [snd archives with_archives].
  assert (filter (λ e, is_active_of vid nid e = true)
            ((λ e, if is_active_of vid nid e then with_restored_at t e else e) <$> archives ix) = []) as ->; [|done].
  apply elem_of_nil_inv. intros e [He (e' & -> & _)%list_elem_of_fmap]%list_elem_of_filter.
  destruct (is_active_of vid nid e') eqn:E; [|congruence].
  unfold is_active_of, is_active, with_restored_at in He. cbn in He.
  by rewrite !andb_false_r in He.
Qed.

(** The row of a note is gone from the index. *)
Definition without_row (ix : index) (k : ustr * ustr) : index :=
  mkIndex (delete k (notes ix)) (postings ix) (fts_corrupt ix) (file_checksums ix) (archives ix).

Section restores.
Context {UP : UlidParser} {D : Disk} {CH : ContentHasher} {Y : Yaml} {FD : FileDigest}
        {PS : PrivacyStage} {VC : VaultConfig}.

(** ** What a successful archive leaves *)

Lemma archive_note_Ok vid id by_whom due now v row out v' c :
  get_note (v_index v) vid id = Some row → outside_archive vid →
  str_starts_with (history_dir vid id) (note_src v vid id row) = false →
  archive_note_in vid id by_whom due now v = (Ok out, v') →
  v_files v !! note_src v vid id row = Some c →
  v_files v' !! ao_archive_path out = Some c
  ∧ validate_relative_path (ao_archive_path out) = Ok tt ∧ in_archive (ao_archive_path out) = true
  ∧ notes (v_index v') = notes (v_index v)
  ∧ get_active_archive (v_index v') vid id
    = Some (mkArchive id vid (r_section row) (r_title row) (nonempty_locus row) (ao_archive_path out)
              (timestamp_millis now) by_whom due None None).
Proof.
  intros Hrow Hvid Hsrc Ha Hc.
  destruct (archive_note_files vid id by_whom due now v row Hrow Hvid Hsrc) as [Hpres _].
  rewrite Ha in Hpres. cbn [snd] in Hpres. unfold archive_note_in in Ha. rewrite Hrow in Ha.
  cbn zeta in Ha. fold (note_src v vid id row) in Ha. set (src := note_src v vid id row) in *.
  set (dest := archive_dest (v_files v) src (timestamp_millis now)) in *.
  assert (in_archive src = false) as Hso by (by apply resolve_outside).
  assert (in_archive dest = true) as Hdi.
  { unfold dest. destruct (archive_dest_dirs (v_files v) src (timestamp_millis now)) as (x & -> & _).
    apply starts_with_app. }
  destruct (move_file (v_files v) src dest) as [[[]|] fs1] eqn:Em; [|done].
  apply move_file_moved in Em; [|congruence]. inversion Em as [| |c' Hc' Hval Hr Hf]; subst fs1.
  rewrite Hc in Hc'. injection Hc' as <-.
  destruct (insert_archive_entry _ _) as [[] ix] eqn:Ei; [|done]. injection Ha as <- <-.
  cbn [v_files with_files with_index v_index ao_archive_path] in *.
  unfold insert_archive_entry in Ei. cbn [is_active gc_at restored_at] in Ei.
  destruct (existsb _ _) eqn:Eex; cbn in Ei; [done|]. injection Ei as <-.
  split_and!; [|done|done|done|].
  - destruct (Hpres src c Hso Hc) as [Hs|[_ Hd]].
    + rewrite archive_history_others, lookup_delete_eq in Hs; done.
    + revert Hd. unfold place. by rewrite bool_decide_eq_true_2.
  - unfold get_active_archive. cbn [archives with_archives].
    apply no_active_filter in Eex.
    cbn [archives with_files with_index v_index ar_vault_id ar_note_id] in Eex |- *.
    rewrite filter_app, Eex. rewrite filter_cons, decide_True; [done|].
    unfold is_active_of, is_active. cbn. by rewrite !bool_decide_eq_true_2.
Qed.

(** ** Restoring *)

Lemma restore_snapshot_others dst_dir fs q p :
  p ≠ q → str_starts_with dst_dir p = false → restore_snapshot dst_dir fs q !! p = fs !! p.
Proof.
  intros Hq Hd. unfold restore_snapshot. destruct (file_name q) as [f|]; [|done].
  destruct (fs_read fs q) as [c|]; [|done]. destruct (guard_write fs _ c) as [[[]|] fs1] eqn:Ew.
  - apply guard_write_Ok in Ew as [_ ->]. unfold delete_quietly. rewrite fs_delete_lookup by done.
    apply lookup_insert_ne. intros <-. by rewrite starts_with_app in Hd.
  - by apply guard_write_Err in Ew as ->.
Qed.

(** Bringing versions back touches the history of the note, and what it takes them from. *)
Lemma restore_history_others fs id vid p :
  str_starts_with (history_dir vid id) p = false →
  p ∉ paths_under (ARCHIVE_DIR_PREFIX ++ history_dir vid id) fs →
  restore_history_dir fs id vid !! p = fs !! p.
Proof.
  intros Hh Ha. unfold restore_history_dir, fs_list.
  destruct (validate_relative_path _); cbn; [|done]. destruct (disk_fails _ _); [done|].
  assert (∀ q, q ∈ paths_under (ARCHIVE_DIR_PREFIX ++ history_dir vid id) fs → p ≠ q) as Hl
    by (by intros q Hq ->).
  revert Hl. generalize (paths_under (ARCHIVE_DIR_PREFIX ++ history_dir vid id) fs). intros l.
  clear Ha. revert fs. induction l as [|q l IH]; intros fs Hl; [done|]. cbn [foldl].
  rewrite IH by (intros; apply Hl; by right). apply restore_snapshot_others; [apply Hl; by left|done].
Qed.

Context {PL : PrivacyLaws} {YL : YamlLaws} {YP : YamlPrints}.

(** A write of a note that is not in the index succeeds when its path is valid. *)
Lemma write_new_note fm b id ck v :
  masks_bodies = false → (∀ op p, disk_fails op p = false) →
  notes (v_index v) !! (home_vault fm, id) = None →
  validate_relative_path (match fm_locus fm with
                          | Some l => path_with (home_vault fm) l id
                          | None => path_no_locus (home_vault fm) id end) = Ok tt →
  ∃ note md v', write_note_with_id fm b id ck v = (Ok note, v') ∧ wrote fm b id v note v'
    ∧ md_write note = Ok md ∧ v_files v' = <[note_md_relative_path note := TextFile md]> (v_files v)
    ∧ note_md_relative_path note = match fm_locus fm with
                                   | Some l => path_with (home_vault fm) l id
                                   | None => path_no_locus (home_vault fm) id end.
Proof.
  intros Hmask Hdisk Hrow Hval.
  destruct (write_note_with_id fm b id ck v) as [r v'] eqn:Ew. pose proof Ew as Ew0.
  unfold write_note_with_id, write_note_inner, write_note_judged in Ew. rewrite Hmask in Ew.
  cbn [andb] in Ew. cbv zeta in Ew. fold (rehomed fm) in Ew.
  replace (fm_vault_id (rehomed fm)) with (home_vault fm) in Ew
    by (unfold home_vault, rehomed; case_bool_decide; by destruct fm).
  assert (read_note_in v (home_vault fm) id = Err (NoteNotFound id)) as Hr.
  { unfold read_note_in, get_note. rewrite Hrow. by destruct (is_sentinel id). }
  rewrite Hr, masked_body_off in Ew by done.
  set (o := run_privacy_pass _ _ _) in Ew. set (note := mkNoteRec id _ b _ _) in Ew.
  destruct (md_write_prints note) as (md & Hmd). rewrite Hmd in Ew.
  assert (note_md_relative_path note = match fm_locus fm with
            | Some l => path_with (home_vault fm) l id | None => path_no_locus (home_vault fm) id end) as Hpath.
  { unfold note_md_relative_path, note. cbn [frontmatter note_id].
    destruct (decide_privacy_frame (rehomed fm) None o) as (tags & extra & ->).
    unfold home_vault, rehomed. case_bool_decide; by destruct fm. }
  rewrite Hpath in Ew. unfold write_note_file, fs_write in Ew. rewrite Hval, Hdisk in Ew.
  cbn [keep_history] in Ew. injection Ew as <- <-. exists note, md. eexists. split; [done|].
  split; [by eapply write_note_judged_Ok|]. split; [done|]. rewrite Hpath. done.
Qed.

(** Restoring an archive whose file parses, when no row has the id. *)
Lemma restore_archive_Ok id changed ck now v entry c n0 :
  masks_bodies = false → (∀ op p, disk_fails op p = false) →
  get_active_archive (v_index v) self_vault_id id = Some entry → ar_vault_id entry = self_vault_id →
  notes (v_index v) !! (self_vault_id, id) = None → is_sentinel id = false →
  v_files v !! archive_path entry = Some c → validate_relative_path (archive_path entry) = Ok tt →
  in_archive (archive_path entry) = true →
  note_of_content id c = Ok n0 → note_id n0 = id → fm_vault_id (frontmatter n0) = self_vault_id →
  self_vault_id ≠ [] → outside_archive self_vault_id → fm_locus (frontmatter n0) ≠ Some [] →
  validate_relative_path (note_md_relative_path n0) = Ok tt →
  str_starts_with (history_dir self_vault_id id) (note_md_relative_path n0) = false →
  ∃ out v' n, restore_archive id changed ck now v = (Ok out, v')
    ∧ read_note_in v' self_vault_id id = Ok n
    ∧ fm_status (frontmatter n) = PendingReview ∧ body n = body n0
    ∧ fm_locus (frontmatter n) = fm_locus (frontmatter n0)
    ∧ get_active_archive (v_index v') self_vault_id id = None
    ∧ v_files v' !! archive_path entry = None.
Proof.
  intros Hmask Hdisk Hact Hev Hrow Hsent Hfile Hav Hain Hparse Hnid Hhome Hne Hout Hloc Hval Hhist.
  unfold restore_archive. rewrite Hact, bool_decide_eq_false_2 by (by intros []).
  assert (get_note (v_index v) self_vault_id id = None) as Hgn by (unfold get_note; by rewrite Hsent).
  rewrite bool_decide_eq_false_2 by (rewrite Hgn; by intros []).
  rewrite (fs_read_Ok _ _ c) by done. rewrite Hparse. set (fm := with_status _ _ _ _).
  assert (home_vault fm = self_vault_id ∧ fm_locus fm = fm_locus (frontmatter n0)
          ∧ fm_status fm = PendingReview) as (Hh & Hl & Hst).
  { rewrite <-Hhome. unfold home_vault, fm. rewrite bool_decide_eq_false_2; by destruct (frontmatter n0); cbn in *; subst. }
  assert (note_md_relative_path n0 = match fm_locus fm with
            | Some l => path_with (home_vault fm) l id | None => path_no_locus (home_vault fm) id end) as Hp0.
  { unfold note_md_relative_path. by rewrite Hhome, Hh, Hl, Hnid. }
  destruct (write_new_note fm (body n0) id ck v) as (note & md & v1 & Hw & Hwr & Hmd & Hfs & Hpath);
    [done|done|by rewrite Hh|by rewrite <-Hp0|]. rewrite <-Hp0 in Hpath.
  unfold vm_bind. rewrite Hw. destruct (mark_archive_restored _ _ _ _) as [b ix] eqn:Em.
  apply (f_equal snd) in Em. cbn [snd] in Em.
  do 2 eexists. exists (note_on_disk note). split; [reflexivity|].
  destruct (wrote_fields _ _ _ _ _ _ Hwr) as (Wv & Wl & Ws & _). rewrite Hh in Wv.
  pose proof (wrote_row _ _ _ _ _ _ Hwr) as [Wr _]. rewrite Hh, Hrow in Wr.
  assert (in_archive (note_md_relative_path n0) = false) as Hpo.
  { rewrite Hp0, Hh. destruct (fm_locus fm); by apply outside_archive_path. }
  assert (∀ fs, note_md_relative_path n0 ∉ paths_under (ARCHIVE_DIR_PREFIX ++ history_dir self_vault_id id) fs)
    as Hph.
  { intros fs [_ [t E]%str_starts_with_iff]%elem_of_paths_under. unfold in_archive in Hpo.
    by rewrite E, <-app_assoc, starts_with_app in Hpo. }
  cbn [v_files v_index with_files with_index]. split_and!.
  - pose proof (wr_id _ _ _ _ _ _ Hwr) as Wid. rewrite <-Wv, <-Wid.
    eapply (read_row_file _ note md (row_of_note note)); rewrite ?Wid, ?Wv; try done.
    + cbn [v_index with_files with_index]. rewrite <-Em. cbn. by rewrite Wr.
    + by rewrite Wl, Hl.
    + by destruct Hwr.
    + rewrite Hpath. cbn [v_files with_files]. rewrite restore_history_others by done.
      unfold delete_quietly. rewrite fs_delete_lookup by congruence.
      by rewrite Hfs, Hpath, lookup_insert_eq.
    + by destruct Hwr.
  - cbn. by rewrite canonical_status, Ws.
  - cbn. by eapply wrote_body.
  - cbn. by rewrite canonical_locus, Wl.
  - rewrite <-Em. apply mark_restored_inactive.
  - assert (delete_quietly (v_files v1) (archive_path entry) !! archive_path entry = None) as Hgone
      by (rewrite delete_quietly_lookup by done; by rewrite bool_decide_eq_true_2).
    rewrite restore_history_others; [done| |].
    + apply not_true_iff_false. intros Hp%history_outside; [congruence|done].
    + intros [Hp _]%elem_of_paths_under. rewrite Hgone in Hp. by destruct Hp.
Qed.

Lemma read_note_in_file v vid id n :
  read_note_in v vid id = Ok n →
  ∃ row c, get_note (v_index v) vid id = Some row ∧ is_sentinel id = false
    ∧ v_files v !! note_src v vid id row = Some c ∧ note_of_content id c = Ok n.
Proof.
  unfold read_note_in, read_note_from_record. intros H.
  destruct (get_note (v_index v) vid id) as [row|] eqn:Er; [|done]. exists row.
  fold (note_src v vid id row) in H.
  destruct (fs_read (v_files v) (note_src v vid id row)) as [c|[]] eqn:Ef; try done.
  apply fs_read_Ok_inv in Ef. exists c. split_and!; [done| |done|done].
  unfold get_note in Er. by destruct (is_sentinel id).
Qed.

(** The archive is a way out and back.  A note that was archived, and whose row the caller
    then removed, is restored: its body and locus are what they were, its status is pending
    review whatever it had been, its archive is no longer active and the archived file is
    gone. *)
Theorem archive_restore_roundtrip id by_whom due now v out v1 n0 changed ck now'
    (Ha : archive_note id by_whom due now v = (Ok out, v1))
    (Hn : read_note_in v self_vault_id id = Ok n0)
    (Hmask : masks_bodies = false) (Hdisk : ∀ op p, disk_fails op p = false)
    (Hself : self_vault_id ≠ []) (Hout : outside_archive self_vault_id)
    (Hhome : fm_vault_id (frontmatter n0) = self_vault_id) (Hloc : fm_locus (frontmatter n0) ≠ Some [])
    (Hval : validate_relative_path (note_md_relative_path n0) = Ok tt)
    (Hpath : str_starts_with (history_dir self_vault_id id) (note_md_relative_path n0) = false)
    (Hsrc : ∀ row, get_note (v_index v) self_vault_id id = Some row →
                   str_starts_with (history_dir self_vault_id id) (note_src v self_vault_id id row) = false) :
  let v2 := with_index v1 (without_row (v_index v1) (self_vault_id, id)) in
  ∃ out' v3 n, restore_archive id changed ck now' v2 = (Ok out', v3)
    ∧ read_note_in v3 self_vault_id id = Ok n
    ∧ fm_status (frontmatter n) = PendingReview ∧ body n = body n0
    ∧ fm_locus (frontmatter n) = fm_locus (frontmatter n0)
    ∧ get_active_archive (v_index v3) self_vault_id id = None
    ∧ v_files v3 !! ao_archive_path out = None.
Proof.
  cbn zeta. pose proof (read_note_in_id _ _ _ _ Hn) as Hnid.
  destruct (read_note_in_file _ _ _ _ Hn) as (row & c & Hrow & Hsent & Hc & Hparse).
  destruct (archive_note_Ok _ _ _ _ _ _ _ _ _ _ Hrow Hout (Hsrc row Hrow) Ha Hc)
    as (H1 & H2 & H3 & H4 & H5).
  match type of H5 with _ = Some ?e =>
    change (ao_archive_path out) with (archive_path e); apply (restore_archive_Ok id changed ck now' _ e c n0)
  end; try done. apply lookup_delete_eq.
Qed.

(** ** Collecting archives *)

Definition archive_key (e : ArchiveEntry) : ustr * ustr := (ar_vault_id e, ar_note_id e).

(** The unique index of the table: one active archive for a note. *)
Definition registry_ok (ix : index) : Prop :=
  NoDup (archive_key <$> filter (λ e, is_active e = true) (archives ix)).

Definition is_due (now_ms : Z) (e : ArchiveEntry) : bool := (gc_due e <? now_ms)%Z && is_active e.

(** The registry once the active rows of the notes [ks] are marked. *)
Definition marked_at (now_ms : Z) (ks : list (ustr * ustr)) (e : ArchiveEntry) : ArchiveEntry :=
  if is_active e && bool_decide (archive_key e ∈ ks) then with_gc_at now_ms e else e.

Lemma is_active_of_key vid nid e :
  is_active_of vid nid e = is_active e && bool_decide (archive_key e = (vid, nid)).
Proof.
  unfold is_active_of, archive_key. destruct (is_active e); [|by rewrite !andb_false_r].
  rewrite andb_true_r. cbn [andb].
  repeat case_bool_decide; naive_solver.
Qed.

Lemma marked_inactive now_ms ks e :
  is_active (marked_at now_ms ks e) = is_active e && bool_decide (archive_key e ∉ ks).
Proof.
  unfold marked_at. destruct (is_active e) eqn:Ea; cbn [andb]; [|done].
  repeat case_bool_decide; done.
Qed.

Lemma marked_key now_ms ks e : archive_key (marked_at now_ms ks e) = archive_key e.
Proof. unfold marked_at. by destruct (_ && _). Qed.

Lemma mark_step now_ms ks k (l : list ArchiveEntry) :
  (λ e, if is_active_of k.1 k.2 e then with_gc_at now_ms e else e) <$> (marked_at now_ms ks <$> l)
  = marked_at now_ms (k :: ks) <$> l.
Proof.
  rewrite <-list_fmap_compose. apply list_fmap_ext. intros _ e _. cbn.
  rewrite is_active_of_key, marked_inactive, marked_key.
  replace ((k.1, k.2)) with k by (by destruct k).
  unfold marked_at. destruct (is_active e) eqn:Ea; cbn [andb]; [|done].
  repeat case_bool_decide; cbn [andb]; try done; set_solver.
Qed.

(** Removing the files of an archive only removes. *)
Lemma delete_list_sub l fs p : foldl delete_quietly fs l !! p = fs !! p ∨ foldl delete_quietly fs l !! p = None.
Proof.
  revert fs. induction l as [|q l IH]; intros fs; cbn [foldl]; [by left|].
  destruct (IH (delete_quietly fs q)) as [->|?]; [|by right].
  unfold delete_quietly, fs_delete. destruct (validate_relative_path q); [|by left].
  destruct (disk_fails _ _); [by left|]. destruct (fs !! q); [|by left]. cbn.
  destruct (decide (q = p)) as [->|]; [right; apply lookup_delete_eq|left; by apply lookup_delete_ne].
Qed.

Lemma delete_list_others l fs p : p ∉ l → foldl delete_quietly fs l !! p = fs !! p.
Proof.
  revert fs. induction l as [|q l IH]; intros fs Hp; cbn [foldl]; [done|].
  rewrite IH by set_solver. apply fs_delete_lookup. set_solver.
Qed.

Lemma delete_archive_files_sub fs id q p :
  delete_archive_files fs id q !! p = fs !! p ∨ delete_archive_files fs id q !! p = None.
Proof.
  assert (delete_quietly fs q !! p = fs !! p ∨ delete_quietly fs q !! p = None) as Hq
    by apply (delete_list_sub [q]).
  unfold delete_archive_files. destruct (fs_list _ _) as [l|]; [|done].
  destruct (delete_list_sub l (delete_quietly fs q) p) as [->|?]; [done|by right].
Qed.

Lemma delete_archive_files_gone fs id q :
  validate_relative_path q = Ok tt → disk_fails DiskDelete q = false →
  delete_archive_files fs id q !! q = None.
Proof.
  intros Hv Hd. assert (delete_quietly fs q !! q = None) as Hq.
  { rewrite delete_quietly_lookup by done. by rewrite bool_decide_eq_true_2. }
  unfold delete_archive_files. destruct (fs_list _ _) as [l|]; [|done].
  by destruct (delete_list_sub l (delete_quietly fs q) q) as [->|?].
Qed.

(** The archived versions of a note of another vault are not looked for: they outlive the
    collection of their note. *)
Theorem gc_skips_other_vaults fs id q vid p
    (Hq : p ≠ q) (Hp : str_starts_with (ARCHIVE_DIR_PREFIX ++ history_dir vid id) p = true)
    (Hother : str_starts_with (ARCHIVE_DIR_PREFIX ++ history_dir self_vault_id id) p = false) :
  delete_archive_files fs id q !! p = fs !! p.
Proof.
  unfold delete_archive_files, fs_list. destruct (validate_relative_path _); cbn.
  2: by apply fs_delete_lookup.
  destruct (disk_fails _ _); [by apply fs_delete_lookup|].
  rewrite delete_list_others; [by apply fs_delete_lookup|].
  intros [_ Hl]%elem_of_paths_under. congruence.
Qed.

Lemma gc_loop now_ms A0 L n v ks :
  archives (v_index v) = marked_at now_ms ks <$> A0 →
  (∀ e, e ∈ L → e ∈ A0 ∧ is_active e = true) → NoDup (archive_key <$> L) →
  (∀ e, e ∈ L → archive_key e ∉ ks) →
  let '(n', v') := foldl (gc_step now_ms) (n, v) L in
  n' = n + length L
  ∧ archives (v_index v') = marked_at now_ms (reverse (archive_key <$> L) ++ ks) <$> A0
  ∧ notes (v_index v') = notes (v_index v)
  ∧ (∀ p, v_files v' !! p = v_files v !! p ∨ v_files v' !! p = None)
  ∧ (∀ e, e ∈ L → validate_relative_path (archive_path e) = Ok tt →
       disk_fails DiskDelete (archive_path e) = false → v_files v' !! archive_path e = None).
Proof.
  revert n v ks. induction L as [|e L IH]; intros n v ks HA HL Hnd Hks.
  { cbn. rewrite Nat.add_0_r. split_and!; [done|done|done|by left|set_solver]. }
  cbn [foldl]. destruct (HL e ltac:(by left)) as [HeA Hact].
  unfold gc_step at 2. unfold mark_archive_gc, update_active. cbn [v_files v_index with_files with_index].
  assert (existsb (is_active_of (ar_vault_id e) (ar_note_id e)) (archives (v_index v)) = true) as ->.
  { rewrite HA, existsb_exists. exists (marked_at now_ms ks e).
    assert (archive_key e ∉ ks) by (apply Hks; by left). split.
    - apply list_elem_of_In, list_elem_of_fmap. eauto.
    - rewrite is_active_of_key, marked_inactive, marked_key, Hact.
      by rewrite !bool_decide_eq_true_2. }
  set (v1 := with_index _ _).
  cbn [fmap list_fmap] in Hnd. apply NoDup_cons in Hnd as [Hek Hnd].
  specialize (IH (S n) v1 (archive_key e :: ks)).
  destruct (foldl (gc_step now_ms) (S n, v1) L) as [n' v'] eqn:Ef.
  destruct IH as (-> & Ha & Hn & Hf & Hg).
  - unfold v1. cbn. rewrite HA. apply (mark_step now_ms ks (archive_key e) A0).
  - intros x Hx. apply HL. by right.
  - done.
  - intros x Hx [Heq|?]%elem_of_cons; [|by apply (Hks x); [right|]].
    apply Hek. rewrite <-Heq. by apply list_elem_of_fmap_2.
  - split_and!; [cbn; lia| |done| |].
    + rewrite Ha, fmap_cons, reverse_cons, <-app_assoc. done.
    + intros p. destruct (Hf p) as [->|?]; [|by right]. apply delete_archive_files_sub.
    + intros x [->|Hx]%elem_of_cons Hv Hd; [|by apply Hg].
      destruct (Hf (archive_path e)) as [->|?]; [|done]. by apply delete_archive_files_gone.
Qed.

Lemma fmap_NoDup_inj {A B} (f : A → B) l x y :
  NoDup (f <$> l) → x ∈ l → y ∈ l → f x = f y → x = y.
Proof.
  intros Hnd [i Hi]%list_elem_of_lookup [j Hj]%list_elem_of_lookup E.
  assert (i = j) as ->; [|congruence]. eapply (NoDup_lookup (f <$> l)); [done| |].
  - by rewrite list_lookup_fmap, Hi.
  - by rewrite list_lookup_fmap, Hj, E.
Qed.

Lemma registry_ok_marks now_ms (A0 : list ArchiveEntry) :
  NoDup (archive_key <$> filter (λ e, is_active e = true) A0) →
  NoDup (archive_key <$> filter (λ e, is_active e = true)
           ((λ e, if is_due now_ms e then with_gc_at now_ms e else e) <$> A0)).
Proof.
  intros Hnd. eapply sublist_NoDup; [exact Hnd|]. clear Hnd.
  induction A0 as [|e l IH]; [done|]. rewrite fmap_cons, !filter_cons.
  destruct (is_due now_ms e).
  - rewrite decide_False by done. case_decide; [by apply sublist_cons|done].
  - case_decide; [by apply sublist_skip|done].
Qed.

(** A collection marks exactly the archives that are due, when there are no more than its
    limit: it reports their number, stamps their rows and no other, keeps every row as a
    trace, touches no note, creates no file, and every archived text it could delete is
    gone. *)
Theorem archive_gc_exact now_ms limit v
    (Hok : registry_ok (v_index v))
    (Hlim : length (filter (λ e, is_due now_ms e = true) (archives (v_index v))) ≤ Nat.min limit ARCHIVE_LIST_MAX) :
  let due := filter (λ e, is_due now_ms e = true) (archives (v_index v)) in
  let '(r, v') := run_archive_gc now_ms limit v in
  r = Ok (length due)
  ∧ archives (v_index v') = (λ e, if is_due now_ms e then with_gc_at now_ms e else e) <$> archives (v_index v)
  ∧ registry_ok (v_index v') ∧ notes (v_index v') = notes (v_index v)
  ∧ (∀ p, v_files v' !! p = v_files v !! p ∨ v_files v' !! p = None)
  ∧ (∀ e, e ∈ due → validate_relative_path (archive_path e) = Ok tt →
       disk_fails DiskDelete (archive_path e) = false → v_files v' !! archive_path e = None).
Proof.
  cbn zeta. set (A0 := archives (v_index v)) in *. set (due := filter _ A0) in *.
  unfold run_archive_gc. set (L := select_gc_due_archives (v_index v) now_ms limit).
  assert (L ≡ₚ due) as HL.
  { unfold L, select_gc_due_archives. fold A0. rewrite take_ge; [apply merge_sort_Permutation|].
    by rewrite merge_sort_Permutation. }
  assert (∀ e, e ∈ L ↔ is_due now_ms e = true ∧ e ∈ A0) as Hel
    by (intros e; rewrite HL; unfold due; by rewrite list_elem_of_filter).
  assert (∀ e, is_due now_ms e = true → is_active e = true) as Hda
    by (intros e; unfold is_due; by intros [_ ?]%andb_true_iff).
  pose proof (gc_loop now_ms A0 L 0 v []) as HG.
  destruct (foldl (gc_step now_ms) (0, v) L) as [n v'] eqn:Ef.
  destruct HG as (-> & Ha & Hn & Hf & Hg).
  - unfold A0, marked_at. rewrite <-(list_fmap_id (archives (v_index v))) at 1.
    apply list_fmap_ext. intros _ e _. by rewrite bool_decide_eq_false_2, andb_false_r by set_solver.
  - intros e [Hd HA]%Hel. auto.
  - rewrite HL. eapply sublist_NoDup; [exact Hok|]. apply fmap_sublist.
    unfold due. rewrite <-(list_filter_filter_l _ (λ e, is_active e = true)) by exact Hda.
    apply sublist_filter.
  - set_solver.
  - rewrite app_nil_r in Ha.
    assert (marked_at now_ms (reverse (archive_key <$> L)) <$> A0
            = (λ e, if is_due now_ms e then with_gc_at now_ms e else e) <$> A0) as Hmark.
    { apply list_fmap_ext. intros i e He%list_elem_of_lookup_2. unfold marked_at.
      enough (is_active e && bool_decide (archive_key e ∈ reverse (archive_key <$> L)) = is_due now_ms e)
        as -> by done.
      apply eq_true_iff_eq. rewrite andb_true_iff, bool_decide_eq_true, elem_of_reverse, list_elem_of_fmap.
      split; [|intros Hd; split; [by apply Hda|exists e; by rewrite Hel]].
      intros [Hact (e' & Ek & [Hd' HA']%Hel)].
      rewrite (fmap_NoDup_inj archive_key _ e e' Hok); [done| | |done]; apply list_elem_of_filter; auto. }
    split_and!; [by rewrite HL|congruence| |done|done|].
    + unfold registry_ok. rewrite Ha, Hmark. by apply registry_ok_marks.
    + intros e He. apply Hg. by rewrite HL.
Qed.
End restores.
