(* ===== verification/PrivacyBlock.v ===== *)
(** * PrivacyBlock: what a detection pass leaves on a note

    [crates/gradatum-vault/src/privacy_block.rs] and [privacy_rescan.rs]: the block of a pass
    in the extra fields of a note, the human review it carries, the two reserved tags, the
    body a masking policy persists, and the deferred re-judgement of a note.  SHA-256 in
    hexadecimal is a parameter, as are the identity a detector declares and the clock. *)

From S2P Require Import Prelude Text Job Windowing Spans Masking PrivacyPass Notes Markdown ProjectLinks ProjectBody ProjectServer NoteStore Vault.
From Stdlib Require Import Ascii.

#[local] Open Scope nat_scope.

(** ** The block *)

Definition BLOCK_KEY : ustr := lit "privacy".
Definition CLASSIFIED_TAG : ustr := lit "personal-classified".
Definition UNSCANNED_TAG : ustr := lit "privacy-unscanned".
Definition MAX_SPANS : nat := 256.
Definition BLOCK_VERSION : Z := 1.
Definition MODE_REPORT_ONLY : ustr := lit "report_only".
Definition MODE_MASK : ustr := lit "mask".
Definition REVIEW_KEY : ustr := lit "review".
Definition REVIEW_PENDING : ustr := lit "pending".
Definition REVIEW_ACCEPTED : ustr := lit "accepted".
Definition REVIEW_REJECTED : ustr := lit "rejected".

Definition is_reserved (tag : ustr) : bool := is_reserved_literal tag.

Inductive Status := StatusOk | DetectorUnavailable | StatusInputTooLarge | SpansTruncated.
#[export] Instance Status_eq_dec : EqDecision Status.
Proof. solve_decision. Defined.

Definition status_from_error (err : PiiDetectError) : Status :=
  match err with InputTooLarge _ _ => StatusInputTooLarge | _ => DetectorUnavailable end.
Definition status_as_str (self : Status) : ustr :=
  lit match self with
      | StatusOk => "ok"
      | DetectorUnavailable => "detector_unavailable"
      | StatusInputTooLarge => "input_too_large"
      | SpansTruncated => "spans_truncated"
      end.
Definition is_unscanned (self : Status) : bool := match self with StatusOk => false | _ => true end.

Inductive Review := ReviewPending | ReviewAccepted | ReviewRejected.
#[export] Instance Review_eq_dec : EqDecision Review.
Proof. solve_decision. Defined.

Definition review_as_str (self : Review) : ustr :=
  match self with
  | ReviewPending => REVIEW_PENDING
  | ReviewAccepted => REVIEW_ACCEPTED
  | ReviewRejected => REVIEW_REJECTED
  end.
Definition review_of (block : toml) : Review :=
  match toml_get block REVIEW_KEY ≫= toml_as_str with
  | Some s => if bool_decide (s = REVIEW_ACCEPTED) then ReviewAccepted
              else if bool_decide (s = REVIEW_REJECTED) then ReviewRejected else ReviewPending
  | None => ReviewPending
  end.

Inductive TagAction := TagPose | TagRetire | TagKeep.

Record Block := mkBlock { block_value : toml; block_unscanned : bool }.
Record Verdict := mkVerdict { vd_block : toml; vd_classified : TagAction; vd_unscanned : TagAction }.

Definition digest_of (block : toml) : option ustr := toml_get block (lit "spans_digest") ≫= toml_as_str.

Definition binds_the_tag (block : toml) (previous : option toml) : bool :=
  bool_decide (review_of block = ReviewRejected)
  && bool_decide (digest_of block = (previous ≫= digest_of)).

Definition moves_only_the_review (incoming recorded : toml) : bool :=
  match toml_as_table incoming, toml_as_table recorded with
  | Some i, Some r =>
      (length i =? length r)
      && forallb (λ kv, bool_decide (kv.1 = REVIEW_KEY) || bool_decide (table_get kv.1 r = Some kv.2)) i
  | _, _ => false
  end.

Definition stripped (value : toml) : toml :=
  match value with TTable l => TTable (table_remove (lit "scanned_at") l) | v => v end.
Definition same_block_modulo_scanned_at (a b : toml) : bool := bool_decide (stripped a = stripped b).

Definition markable (spans : list PiiSpan) (policy : PrivacyPolicy) : bool := existsb (marks policy) spans.

(** [labels.sort_unstable(); labels.dedup()]. *)
Definition string_le (a b : string) : bool :=
  match String.compare a b with Gt => false | _ => true end.
Fixpoint dedup (l : list string) : list string :=
  match l with
  | a :: (b :: _) as l' => if String.eqb a b then dedup l' else a :: dedup l'
  | _ => l
  end.
Definition markable_categories (spans : list PiiSpan) (policy : PrivacyPolicy) : list string :=
  dedup (merge_sort (λ a b, string_le a b)
           ((λ s, category_as_str (category s)) <$> filter (λ s, marks policy s = true) spans)).

Definition apply_reserved_tag (tags : list ustr) (tag : ustr) (action : TagAction) : list ustr :=
  match action with
  | TagKeep => tags
  | TagPose => if bool_decide (tag ∈ tags) then tags else tags ++ [tag]
  | TagRetire => if bool_decide (tag ∈ tags) then filter (λ held, held ≠ tag) tags else tags
  end.

(** [n as i64] of a [usize]. *)
Definition as_i64 (n : N) : Z := if (n <? 2 ^ 63)%N then Z.of_N n else (Z.of_N n - 2 ^ 64)%Z.

Definition span_value (span : PiiSpan) : toml :=
  TTable (foldl (λ l kv, table_insert kv.1 kv.2 l) []
    [(lit "start", TInteger (as_i64 (start span)));
     (lit "len", TInteger (as_i64 (len span)));
     (lit "category", TString (lit (category_as_str (category span))));
     (lit "score_m", TInteger (score_m (score span)))]).

Definition counts (spans : list PiiSpan) : list (ustr * toml) :=
  foldl (λ table span,
           let key := lit (category_as_str (category span)) in
           let seen := default 0%Z (table_get key table ≫= toml_as_integer) in
           table_insert key (TInteger (seen + 1)) table) [] spans.

(** ** Digests *)

Definition triplet : Type := N * N * string.
Definition triplet_le (a b : triplet) : bool :=
  let '(s1, e1, c1) := a in
  let '(s2, e2, c2) := b in
  (s1 <? s2)%N || (s1 =? s2)%N && ((e1 <? e2)%N || (e1 =? e2)%N && string_le c1 c2).
Definition triplet_of (span : PiiSpan) : triplet :=
  (start span, saturating_add (start span) (len span), category_as_str (category span)).
Definition triplet_line (t : triplet) : ustr :=
  let '(s, e, c) := t in fmt_nat s ++ lit ":" ++ fmt_nat e ++ lit ":" ++ lit c ++ [NL].

Record DetectorIdentity := mkIdentity {
  di_detector : ustr;
  di_model_digest : ustr;
  di_model_source : ustr;
  di_mapping_v : N;
  di_sidecar_v : ustr;
  di_score_mode : ustr;
}.

(** What a vault mounts: a detector and its identity, budgets, a policy, the digests. *)
Class PrivacyEnv := {
  pe_detector :: PiiDetector;
  pe_identity : DetectorIdentity;
  pe_budgets : PrivacyBudgets;
  pe_policy : PrivacyPolicy;
  pattern_id : text → string;
  sha256_hex : text → ustr;
}.

Section frontier.
Context `{PrivacyEnv}.

Definition spans_digest (spans : list PiiSpan) : ustr :=
  let triplets := merge_sort (λ a b, triplet_le a b) (triplet_of <$> spans) in
  lit "sha256:" ++ sha256_hex (utf8_encode (triplets ≫= triplet_line)).

Definition key_line (key value : ustr) : ustr := key ++ lit "=" ++ value ++ [NL].

Definition ALL_CATEGORIES : list PiiCategory :=
  [AccountNumber; Address; Email; Person; Phone; Url; Date; Secret].
(** The keys of an ordered map, in order. *)
Definition enabled_categories (policy : PrivacyPolicy) : list PiiCategory :=
  filter (λ c, is_Some (thresholds policy !! c)) ALL_CATEGORIES.
Definition ordered_exceptions (policy : PrivacyPolicy) : list (string * list text) :=
  merge_sort (λ a b, string_le a.1 b.1) (map_to_list (exceptions policy)).

Definition policy_canon (identity : DetectorIdentity) (budgets : PrivacyBudgets) (policy : PrivacyPolicy)
    : text :=
  utf8_encode
    (key_line (lit "detector") (di_detector identity)
     ++ key_line (lit "model_digest") (di_model_digest identity)
     ++ key_line (lit "model_source") (di_model_source identity)
     ++ key_line (lit "sidecar_v") (di_sidecar_v identity)
     ++ key_line (lit "score_mode") (di_score_mode identity)
     ++ key_line (lit "mapping_v") (fmt_nat (di_mapping_v identity))
     ++ key_line (lit "max_input_bytes") (fmt_nat (pb_max_input_bytes budgets))
     ++ key_line (lit "window_overlap_bytes") (fmt_nat (window_overlap_bytes budgets))
     ++ key_line (lit "mode") (if masks policy then MODE_MASK else MODE_REPORT_ONLY)
     ++ (enabled_categories policy ≫= λ c,
           key_line (lit "category")
             (lit (category_as_str c) ++ lit ":" ++ fmt_i64 (default 0%Z (threshold_m policy c)))))
  ++ (ordered_exceptions policy ≫= λ e,
        utf8_encode (lit "exception_tenant=") ++ String.list_ascii_of_string e.1 ++ utf8_encode [NL]
        ++ (e.2 ≫= λ pattern, utf8_encode (lit "exception=") ++ pattern ++ utf8_encode [NL])).
Definition policy_digest (identity : DetectorIdentity) (budgets : PrivacyBudgets) (policy : PrivacyPolicy)
    : ustr := lit "sha256:" ++ sha256_hex (policy_canon identity budgets policy).

(** ** Building the block *)

Definition effective_status (status : Status) (spans : list PiiSpan) : Status :=
  if bool_decide (status = StatusOk) && (MAX_SPANS <? length spans) then SpansTruncated else status.

Definition block (scanned_at : ustr) (status0 : Status) (spans : list PiiSpan) (review : Review) : Block :=
  let status := effective_status status0 spans in
  let carried := take (Nat.min (length spans) MAX_SPANS) spans in
  let root := foldl (λ l kv, table_insert kv.1 kv.2 l) []
    [(lit "v", TInteger BLOCK_VERSION);
     (lit "mode", TString (if masks pe_policy then MODE_MASK else MODE_REPORT_ONLY));
     (lit "status", TString (status_as_str status));
     (lit "review", TString (review_as_str review));
     (lit "scanned_at", TString scanned_at);
     (lit "detector", TString (di_detector pe_identity));
     (lit "model_digest", TString (di_model_digest pe_identity));
     (lit "model_source", TString (di_model_source pe_identity));
     (lit "mapping_v", TInteger (Z.of_N (di_mapping_v pe_identity)));
     (lit "sidecar_v", TString (di_sidecar_v pe_identity));
     (lit "score_mode", TString (di_score_mode pe_identity));
     (lit "policy", TString (policy_digest pe_identity pe_budgets pe_policy));
     (lit "spans_digest", TString (spans_digest carried));
     (lit "counts", TTable (counts spans));
     (lit "spans", TArray (if masks pe_policy then [] else span_value <$> carried))] in
  mkBlock (TTable root) (is_unscanned status).

Definition carried_review (spans : list PiiSpan) (previous : option toml) : Review :=
  let carried := take (Nat.min (length spans) MAX_SPANS) spans in
  match previous with
  | Some prev =>
      if bool_decide (digest_of prev = Some (spans_digest carried)) then review_of prev else ReviewPending
  | None => ReviewPending
  end.

Definition privacy_verdict (scanned_at : ustr) (status : Status) (spans : list PiiSpan)
    (previous : option toml) : Verdict :=
  let review := carried_review spans previous in
  let built := block scanned_at status spans review in
  let classified := if bool_decide (review = ReviewRejected) then TagRetire
                    else if block_unscanned built then TagKeep
                    else if markable spans pe_policy then TagPose else TagRetire in
  let unscanned := if block_unscanned built then TagPose else TagRetire in
  mkVerdict (block_value built) classified unscanned.

(** ** The pass of a write *)

Record pass_outcome := mkOutcome {
  po_status : Status;
  po_spans : list PiiSpan;
  po_unmapped_labels : N;
  po_rejected_out_of_bounds : nat;
  po_rejected_utf8_boundary : nat;
  po_touching_window_edge : nat;
  po_exception_hits : gmap string N;
}.

Definition privacy_pass_of (vault_id : ustr) (section : NoteSection) (body : ustr) : option pass_outcome :=
  match pass (native vault_id) section (utf8_encode body) pe_budgets with
  | Ok (Some sc) =>
      let '(spans, hits) := retain pattern_id pe_policy (native vault_id) (utf8_encode body) (ps_spans sc) in
      Some (mkOutcome StatusOk spans (ps_unmapped_labels sc) (rejected_out_of_bounds (ps_stats sc))
              (rejected_utf8_boundary (ps_stats sc)) (touching_window_edge (ps_stats sc)) hits)
  | Ok None => None
  | Err err => Some (mkOutcome (status_from_error err) [] 0 0 0 0 ∅)
  end.

Definition mask_body (body : ustr) (outcome : option pass_outcome) : ustr * bool :=
  match outcome with
  | None => (body, false)
  | Some o =>
      if negb (masks pe_policy) then (body, false)
      else
        let marked := filter (λ s, marks pe_policy s = true) (take MAX_SPANS (po_spans o)) in
        if bool_decide (marked = []) then (body, false)
        else
          let masked := mask_spans (utf8_encode body) marked in
          if bool_decide (masked = utf8_encode body) then (body, false) else (utf8_decode masked, true)
  end.

(** Step 3: the keys the write does not state are carried over. *)
Definition recarry_extra (extra : ExtraFields) (existing : option Note) : ExtraFields :=
  match existing with
  | Some prev =>
      match fm_extra (frontmatter prev) with
      | Some m => if bool_decide (m = ∅) then extra else Some (default ∅ extra ∪ m)
      | None => extra
      end
  | None => extra
  end.

(** Step 3ter: one tag of the previous version. *)
Definition recarry_tag (binds : bool) (tags : list ustr) (tag : ustr) : list ustr :=
  if negb (is_reserved tag) then tags
  else if binds && bool_decide (tag = CLASSIFIED_TAG) then tags
  else if bool_decide (tag ∈ tags) then tags else tags ++ [tag].
Definition recarry_tags (binds : bool) (tags : list ustr) (existing : option Note) : list ustr :=
  match existing with
  | Some prev => foldl (recarry_tag binds) tags (fm_tags (frontmatter prev))
  | None => tags
  end.

Definition block_of (fm : Frontmatter) : option toml := extra_get (fm_extra fm) BLOCK_KEY.
Definition previous_block (existing : option Note) : option toml := prev ← existing; block_of (frontmatter prev).
Definition verdict_binds (existing : option Note) : bool :=
  match previous_block existing with
  | Some b => binds_the_tag b (previous_block existing)
  | None => false
  end.
Definition carried_block (extra : ExtraFields) (existing : option Note) : option toml :=
  match extra_get extra BLOCK_KEY with
  | Some incoming =>
      if match previous_block existing with
         | Some recorded => moves_only_the_review incoming recorded
         | None => false
         end
      then Some incoming else previous_block existing
  | None => previous_block existing
  end.

Definition judge (scanned_at : ustr) (fm : Frontmatter) (existing : option Note)
    (outcome : option pass_outcome) : Frontmatter * option (TagAction * TagAction) :=
  let extra := recarry_extra (fm_extra fm) existing in
  let binds := verdict_binds existing in
  let tags := recarry_tags binds (fm_tags fm) existing in
  match outcome, has_detector_identity with
  | Some o, true =>
      let decided := privacy_verdict scanned_at (po_status o) (po_spans o) (carried_block extra existing) in
      let tags1 := apply_reserved_tag tags UNSCANNED_TAG (vd_unscanned decided) in
      let tags2 := apply_reserved_tag tags1 CLASSIFIED_TAG (vd_classified decided) in
      (with_extra (with_tags fm tags2) (extra_insert extra BLOCK_KEY (vd_block decided)),
       Some (vd_classified decided, vd_unscanned decided))
  | _, _ =>
      (with_extra (with_tags fm (if binds then apply_reserved_tag tags CLASSIFIED_TAG TagRetire else tags))
         extra, None)
  end.

(** What the observer is told of a pass. *)
Record PrivacyPass := mkPrivacyPass {
  pp_status : ustr;
  pp_categories : list string;
  pp_classified_tagged : bool;
  pp_unscanned_tagged : bool;
  pp_unmapped_labels : N;
  pp_rejected_out_of_bounds : nat;
  pp_rejected_utf8_boundary : nat;
  pp_touching_window_edge : nat;
  pp_exception_hits : gmap string N;
}.
Definition is_pose (a : TagAction) : bool := match a with TagPose => true | _ => false end.
Definition observe_pass (o : pass_outcome) (b : toml) (classified unscanned : TagAction) : PrivacyPass :=
  mkPrivacyPass (default [] (toml_get b (lit "status") ≫= toml_as_str))
    (markable_categories (po_spans o) pe_policy) (is_pose classified) (is_pose unscanned)
    (po_unmapped_labels o) (po_rejected_out_of_bounds o) (po_rejected_utf8_boundary o)
    (po_touching_window_edge o) (po_exception_hits o).

(** The stage of a vault that mounts this frontier, at the time [scanned_at]. *)
Definition frontier_stage (scanned_at : ustr) : PrivacyStage := {|
  PassOutcome := pass_outcome;
  run_privacy_pass := privacy_pass_of;
  masks_bodies := masks pe_policy;
  detector_unavailable o := bool_decide (po_status o = DetectorUnavailable);
  decide_privacy fm existing outcome := (judge scanned_at fm existing outcome).1;
  masked_body := mask_body;
|}.

Inductive PrivacyRescanOutcome := Rewritten | Unchanged | Skipped.

Definition rescan_privacy_in {UP : UlidParser} {D : Disk} {CH : ContentHasher} {Y : Yaml}
    {FD : FileDigest} {VC : VaultConfig} (vault_id id scanned_preview scanned_write : ustr)
    (ck : write_clock) : VM PrivacyRescanOutcome :=
  λ v,
    match read_note_in v vault_id id with
    | Err (NoteNotFound _) => (Ok Skipped, v)
    | Err other => (Err other, v)
    | Ok note =>
        let fm := frontmatter note in
        let write_vault := if bool_decide (fm_vault_id fm = []) then self_vault_id else fm_vault_id fm in
        match privacy_pass_of write_vault (fm_section fm) (body note) with
        | None => (Ok Skipped, v)
        | Some outcome =>
            let preview := (judge scanned_preview fm (Some note) (Some outcome)).1 in
            let identical := match block_of fm, block_of preview with
                             | Some before, Some after => same_block_modulo_scanned_at before after
                             | None, None => true
                             | _, _ => false
                             end in
            if identical then (Ok Unchanged, v)
            else (_ <-! @write_note_judged UP D CH Y FD (frontier_stage scanned_write) VC fm (body note) id
                          (Some outcome) ck;
                  vm_ret Rewritten) v
        end
    end.
End frontier.
