(* ===== verification/PrivacyProps.v ===== *)
(** * PrivacyProps: the marker of personal data, and re-judging a note

    Theorems on [PrivacyBlock]: the frontier keeps what a write asks of a detection pass; the
    marker of personal data is on a note exactly when the rules say so, whatever the caller
    posted; and a note that was just re-judged is left alone. *)

From S2P Require Import Prelude Text Job Windowing Spans Masking PrivacyPass Notes Markdown ProjectLinks ProjectBody ProjectServer NoteStore Vault VaultWrite PrivacyBlock.

#[local] Open Scope nat_scope.

Section tags.

Lemma ordinary_app a b : ordinary (a ++ b) = ordinary a ++ ordinary b.
Proof. apply filter_app. Qed.

Lemma ordinary_reserved t : is_reserved t = true → ordinary [t] = [].
Proof. intros Ht. unfold ordinary. rewrite filter_cons, decide_False; [done|]. unfold is_reserved in Ht. congruence. Qed.

Lemma ordinary_apply tags t a : is_reserved t = true → ordinary (apply_reserved_tag tags t a) = ordinary tags.
Proof.
  intros Ht. destruct a; cbn [apply_reserved_tag]; [| |done]; case_bool_decide; try done.
  - by rewrite ordinary_app, ordinary_reserved, app_nil_r.
  - unfold ordinary. rewrite list_filter_filter_l; [done|].
    intros x Hx ->. unfold is_reserved in Ht. congruence.
Qed.

Lemma ordinary_recarry binds tags existing : ordinary (recarry_tags binds tags existing) = ordinary tags.
Proof.
  destruct existing as [prev|]; [|done]. cbn. generalize (fm_tags (frontmatter prev)). intros l.
  revert tags. induction l as [|t l IH]; intros tags; [done|]. cbn [foldl]. rewrite IH.
  unfold recarry_tag. destruct (is_reserved t) eqn:Et; [|done]. cbn [negb].
  destruct (binds && _); [done|]. case_bool_decide; [done|].
  by rewrite ordinary_app, ordinary_reserved, app_nil_r.
Qed.

Lemma elem_of_apply_other t u tags a : t ≠ u → t ∈ apply_reserved_tag tags u a ↔ t ∈ tags.
Proof.
  intros Hne. destruct a; cbn; [| |done]; case_bool_decide; try done.
  - rewrite elem_of_app, list_elem_of_singleton. naive_solver.
  - rewrite list_elem_of_filter. naive_solver.
Qed.

Lemma elem_of_apply_same t tags a :
  t ∈ apply_reserved_tag tags t a ↔ match a with TagPose => True | TagRetire => False | TagKeep => t ∈ tags end.
Proof.
  destruct a; cbn; [| |done]; case_bool_decide; rewrite ?elem_of_app, ?list_elem_of_filter; set_solver.
Qed.

Lemma elem_of_recarry t binds tags existing :
  is_reserved t = true →
  t ∈ recarry_tags binds tags existing ↔
  t ∈ tags ∨ (negb (binds && bool_decide (t = CLASSIFIED_TAG)) = true
              ∧ ∃ prev, existing = Some prev ∧ t ∈ fm_tags (frontmatter prev)).
Proof.
  intros Ht. destruct existing as [prev|]; cbn; [|naive_solver].
  transitivity (t ∈ tags ∨ (negb (binds && bool_decide (t = CLASSIFIED_TAG)) = true ∧ t ∈ fm_tags (frontmatter prev)));
    [|naive_solver].
  generalize (fm_tags (frontmatter prev)). intros l. revert tags.
  induction l as [|u l IH]; intros tags; cbn [foldl]; [set_solver|]. rewrite IH, elem_of_cons.
  unfold recarry_tag. destruct (is_reserved u) eqn:Eu; cbn [negb]; [|by naive_solver congruence].
  destruct (decide (t = u)) as [<-|Hne].
  - destruct (binds && bool_decide (t = CLASSIFIED_TAG)) eqn:Eb; cbn [negb]; [naive_solver|].
    clear Eb. destruct (bool_decide_reflect (t ∈ tags)); [naive_solver|].
    rewrite elem_of_app, list_elem_of_singleton. naive_solver.
  - destruct (binds && bool_decide (u = CLASSIFIED_TAG)); [naive_solver|].
    destruct (bool_decide_reflect (u ∈ tags)); [naive_solver|].
    rewrite elem_of_app, list_elem_of_singleton. naive_solver.
Qed.
End tags.

Section frontier_props.
Context `{PrivacyEnv}.

(** ** The interface of a write *)

#[export] Instance frontier_laws scanned_at : @PrivacyLaws (frontier_stage scanned_at).
Proof.
  split.
  - intros fm existing outcome. cbn. unfold judge. destruct outcome, has_detector_identity; eauto.
  - intros fm existing outcome. cbn. unfold judge.
    assert (∀ t e, fm_tags (with_extra (with_tags fm t) e) = t) as Hf by (by destruct fm).
    destruct outcome as [o|], has_detector_identity; cbn [fst]; rewrite Hf.
    1: by rewrite !ordinary_apply, ordinary_recarry.
    all: destruct (verdict_binds existing); by rewrite ?ordinary_apply, ordinary_recarry.
  - intros b outcome Hm. cbn in *. unfold mask_body. destruct outcome; [|done]. by rewrite Hm.
Qed.

(** ** The marker *)

(** The marker stands before the pass: the caller posted it, or the note carries it and no
    rejection binds it off. *)
Definition marker_held (fm : Frontmatter) (existing : option Note) : Prop :=
  CLASSIFIED_TAG ∈ fm_tags fm
  ∨ (verdict_binds existing = false
     ∧ ∃ prev, existing = Some prev ∧ CLASSIFIED_TAG ∈ fm_tags (frontmatter prev)).

(** A rejection that the note records binds, whatever has become of its body since: the block
    is compared with itself. *)
Lemma verdict_binds_iff existing :
  verdict_binds existing = true
  ↔ ∃ prev block, existing = Some prev ∧ block_of (frontmatter prev) = Some block
                  ∧ review_of block = ReviewRejected.
Proof.
  unfold verdict_binds, previous_block. destruct existing as [prev|]; cbn; [|naive_solver].
  destruct (block_of (frontmatter prev)) as [block|] eqn:E; [|naive_solver]. unfold binds_the_tag. cbn.
  rewrite bool_decide_eq_true_2 with (P := digest_of block = digest_of block), andb_true_r by done.
  rewrite bool_decide_eq_true. naive_solver.
Qed.

(** C35: who decides on the marker of personal data.  Without a pass, the note has the marker
    exactly when it had it or the caller posts it, and the block the note records is not one
    of a rejection: any recorded rejection binds the marker off, also when the body, and so the
    spans, have changed since.  With a pass, a rejection of the very spans it reports takes
    the marker off; failing that, a pass that did not complete leaves the marker to what it
    was, and a completed one sets it exactly when it reports a span the policy marks. *)
Theorem personal_marker_exact scanned_at fm existing outcome :
  (verdict_binds existing = true
   ↔ ∃ prev block, existing = Some prev ∧ block_of (frontmatter prev) = Some block
                   ∧ review_of block = ReviewRejected)
  ∧ (CLASSIFIED_TAG ∈ fm_tags (judge scanned_at fm existing outcome).1
  ↔ match outcome, has_detector_identity with
    | Some o, true =>
        carried_review (po_spans o) (carried_block (recarry_extra (fm_extra fm) existing) existing)
        ≠ ReviewRejected
        ∧ (if is_unscanned (effective_status (po_status o) (po_spans o)) then marker_held fm existing
           else markable (po_spans o) pe_policy = true)
    | _, _ => verdict_binds existing = false ∧ marker_held fm existing
    end).
Proof.
  split; [apply verdict_binds_iff|].
  assert (∀ t e, fm_tags (with_extra (with_tags fm t) e) = t) as Hf by (by destruct fm).
  assert (CLASSIFIED_TAG ∈ recarry_tags (verdict_binds existing) (fm_tags fm) existing
          ↔ marker_held fm existing) as Hrec.
  { rewrite elem_of_recarry by done. unfold marker_held. rewrite bool_decide_eq_true_2, andb_true_r by done.
    by rewrite negb_true_iff. }
  unfold judge. destruct outcome as [o|], has_detector_identity; cbn [fst]; rewrite Hf.
  - rewrite elem_of_apply_same. set (tags := recarry_tags _ _ _) in *.
    assert (∀ a, CLASSIFIED_TAG ∈ apply_reserved_tag tags UNSCANNED_TAG a ↔ marker_held fm existing) as Hun.
    { intros a. by rewrite elem_of_apply_other, Hrec. }
    unfold privacy_verdict. cbn [vd_classified]. cbn [block_unscanned block].
    set (review := carried_review _ _). case_bool_decide as Er; [naive_solver|].
    destruct (is_unscanned _); [rewrite Hun; naive_solver|]. destruct (markable _ _); naive_solver.
  - destruct (verdict_binds existing) eqn:Eb; [rewrite elem_of_apply_same; naive_solver|].
    rewrite Hrec. naive_solver.
  - destruct (verdict_binds existing) eqn:Eb; [rewrite elem_of_apply_same; naive_solver|].
    rewrite Hrec. naive_solver.
  - destruct (verdict_binds existing) eqn:Eb; [rewrite elem_of_apply_same; naive_solver|].
    rewrite Hrec. naive_solver.
Qed.

(** ** The block reads back *)

(** The table of a block, with its values left open. *)
Ltac open_block status spans :=
  unfold block; cbv zeta; cbn [block_value];
  generalize (spans_digest (take (length spans `min` MAX_SPANS) spans))
    (status_as_str (effective_status status spans)) (di_detector pe_identity)
    (di_model_digest pe_identity) (di_model_source pe_identity) (Z.of_N (di_mapping_v pe_identity))
    (di_sidecar_v pe_identity) (di_score_mode pe_identity) (policy_digest pe_identity pe_budgets pe_policy)
    (counts spans) (if masks pe_policy then [] else span_value <$> take (length spans `min` MAX_SPANS) spans)
    (if masks pe_policy then MODE_MASK else MODE_REPORT_ONLY).

Lemma block_digest scanned_at status spans review :
  digest_of (block_value (block scanned_at status spans review))
  = Some (spans_digest (take (Nat.min (length spans) MAX_SPANS) spans)).
Proof.
  open_block status spans. generalize (review_as_str review). intros. vm_compute. reflexivity.
Qed.

Lemma block_review scanned_at status spans review :
  review_of (block_value (block scanned_at status spans review)) = review.
Proof.
  open_block status spans. intros. destruct review; vm_compute; reflexivity.
Qed.

(** Two blocks of one verdict differ in their time only. *)
Lemma block_stripped t1 t2 status spans review :
  stripped (block_value (block t1 status spans review)) = stripped (block_value (block t2 status spans review)).
Proof.
  open_block status spans. generalize (review_as_str review). intros. vm_compute. reflexivity.
Qed.

Lemma block_of_judge scanned_at fm existing o :
  has_detector_identity = true →
  block_of (judge scanned_at fm existing (Some o)).1
  = Some (vd_block (privacy_verdict scanned_at (po_status o) (po_spans o)
                      (carried_block (recarry_extra (fm_extra fm) existing) existing))).
Proof.
  intros Hid. unfold judge. rewrite Hid. cbn [fst]. unfold block_of.
  assert (∀ t e, fm_extra (with_extra (with_tags fm t) e) = e) as -> by (by destruct fm).
  unfold extra_get, extra_insert. cbn. apply lookup_insert_eq.
Qed.

(** Judging again a note that carries the block of a verdict gives that block, but for its
    time. *)
Lemma judge_again t1 t2 fm existing o fm' n' :
  has_detector_identity = true →
  block_of fm' = block_of (judge t1 fm existing (Some o)).1 → frontmatter n' = fm' →
  ∃ b1 b2, block_of fm' = Some b1 ∧ block_of (judge t2 fm' (Some n') (Some o)).1 = Some b2
    ∧ stripped b1 = stripped b2.
Proof.
  intros Hid Hb Hn. rewrite block_of_judge in Hb by done. set (cb := carried_block _ existing) in Hb.
  set (b1 := vd_block _) in Hb. exists b1. eexists. split; [done|]. rewrite block_of_judge by done.
  split; [reflexivity|].
  assert (carried_block (recarry_extra (fm_extra fm') (Some n')) (Some n') = Some b1) as ->.
  { assert (previous_block (Some n') = Some b1) as Hp by (cbn; by rewrite Hn).
    unfold carried_block. rewrite Hp. unfold recarry_extra. rewrite Hn.
    unfold block_of in Hb. destruct (fm_extra fm') as [m|]; [|done].
    change (default ∅ (Some m)) with m. rewrite (map_union_idemp m).
    replace (if bool_decide (m = ∅) then Some m else Some m) with (Some m) by (by case_bool_decide).
    rewrite Hb. by destruct (moves_only_the_review b1 b1). }
  unfold b1, privacy_verdict. cbn [vd_block].
  assert (carried_review (po_spans o) (Some (block_value (block t1 (po_status o) (po_spans o)
            (carried_review (po_spans o) cb)))) = carried_review (po_spans o) cb) as ->.
  { unfold carried_review at 1. rewrite block_digest, bool_decide_eq_true_2 by done. apply block_review. }
  apply block_stripped.
Qed.

(** A pass that ran has a detector with an identity. *)
Lemma pass_has_identity vid section b o : privacy_pass_of vid section b = Some o → has_detector_identity = true.
Proof.
  unfold privacy_pass_of, pass. destruct (is_excluded _ _); [done|]. by destruct has_detector_identity.
Qed.

Lemma block_of_canonical fm : block_of (canonical fm) = block_of fm.
Proof.
  unfold canonical, block_of. destruct (extra_is_empty (fm_extra fm)) eqn:E; [|done].
  assert (∀ e, fm_extra (with_extra fm e) = e) as -> by (by destruct fm).
  destruct (fm_extra fm) as [m|]; [|done]. cbn in E. apply bool_decide_eq_true in E as ->. done.
Qed.

Section rescan.
Context {UP : UlidParser} {D : Disk} {CH : ContentHasher} {Y : Yaml} {FD : FileDigest}
        {VC : VaultConfig} {YL : YamlLaws}.

(** The sweep does not write twice.  When a re-judgement rewrote a note of a vault that
    does not mask, judging the note again, at any later time, finds nothing to change and
    leaves the vault as it is. *)
Theorem rescan_idempotent vid id t1 t2 t3 t4 ck ck' v v' n
    (Hr : rescan_privacy_in vid id t1 t2 ck v = (Ok Rewritten, v'))
    (Hn : read_note_in v vid id = Ok n) (Hmask : masks pe_policy = false)
    (Hhome : home_vault (frontmatter n) = vid) (Hvid : vid ≠ []) (Hloc : fm_locus (frontmatter n) ≠ Some [])
    (Hrow : ∀ r, notes (v_index v) !! (vid, id) = Some r → r_locus r = fm_locus (frontmatter n))
    (Hdisk : ∀ op p, disk_fails op p = false) :
  rescan_privacy_in vid id t3 t4 ck' v' = (Ok Unchanged, v').
Proof.
  unfold rescan_privacy_in in Hr. rewrite Hn in Hr. fold (home_vault (frontmatter n)) in Hr. rewrite Hhome in Hr.
  destruct (privacy_pass_of vid _ (body n)) as [o|] eqn:Eo; [|done].
  pose proof (pass_has_identity _ _ _ _ Eo) as Hid.
  destruct (match block_of _ with Some _ => _ | None => _ end); [done|].
  unfold vm_bind, vm_ret in Hr.
  destruct (write_note_judged _ _ _ _ _ v) as [[note|] v1] eqn:Ew; [|done]. injection Hr as ->.
  pose proof Ew as Hw. apply write_note_judged_Ok in Hw.
  assert (is_sentinel id = false) as Hsent.
  { unfold read_note_in, get_note in Hn. by destruct (is_sentinel id). }
  assert (read_note_in v' vid id = Ok (note_on_disk note)) as Hback.
  { rewrite <-Hhome. eapply (write_read_back_core (PL := frontier_laws t2)); try done.
    rewrite Hhome. intros r Hr' _. by apply Hrow. }
  destruct (write_note_judged_reuse _ _ _ _ _ _ _ _ Ew) as (existing & now & Hfm).
  destruct (wrote_fields (PL := frontier_laws t2) _ _ _ _ _ _ Hw) as (Wv & _ & _ & Ws). rewrite Hhome in Wv.
  pose proof (wrote_body (PL := frontier_laws t2) _ _ _ _ _ _ Hmask Hw) as Wb.
  unfold rescan_privacy_in. rewrite Hback. cbn [frontmatter body note_on_disk]. rewrite Wb.
  assert (fm_vault_id (canonical (frontmatter note)) = vid
          ∧ fm_section (canonical (frontmatter note)) = fm_section (frontmatter n)) as [Cv Cs].
  { rewrite <-Wv, <-Ws. unfold canonical. destruct (extra_is_empty _); [|done]. by destruct (frontmatter note). }
  rewrite Cv, Cs, bool_decide_eq_false_2, Eo by done.
  destruct (judge_again t2 t3 (rehomed (frontmatter n)) existing o (canonical (frontmatter note)) (note_on_disk note))
    as (b1 & b2 & -> & -> & Hs); [done| |done|].
  { assert (∀ fm u, block_of (with_updated fm u) = block_of fm) as Hu by (by intros []).
    by rewrite block_of_canonical, Hfm, Hu. }
  unfold same_block_modulo_scanned_at. by rewrite bool_decide_eq_true_2.
Qed.
End rescan.
End frontier_props.
