(* ===== verification/VaultWitness.v ===== *)
(** * VaultWitness: the vault at work

    A small vault without a detector, and one whose detector reports the letter "l", on which
    the hypotheses of the theorems about vaults are met. *)

From S2P Require Import Prelude Text Job Windowing Spans Masking PrivacyPass Notes Markdown ProjectLinks ProjectBody ProjectServer NoteStore Vault VaultWrite VaultEdit VaultHistory VaultArchive VaultRestore PrivacyBlock PrivacyProps.
From Stdlib Require Import Ascii.

#[local] Open Scope nat_scope.

Module VaultExamples.
#[local] Existing Instance sample_yaml.
#[local] Existing Instance sample_yaml_laws.
#[local] Existing Instance sample_yaml_prints.

(** A hash of the tags, the locus, the status and the body. *)
#[local] Program Instance toy_hasher : ContentHasher := {
  compute fm b := Npos (encode [fm_tags fm; [default [] (fm_locus fm); serde_kebab_repr (fm_status fm); b]]);
}.
Next Obligation. intros fm b. cbn. unfold canonical. destruct (extra_is_empty _); [by destruct fm|done]. Qed.
#[local] Instance three_letters : UlidParser := λ s, length s =? 3.
#[local] Instance sound_disk : Disk := λ _ _, false.
#[local] Instance toy_digest : FileDigest := {| digest_full s := N.of_nat (length s); digest_prefix_4kb s := 0%N |}.
#[local] Instance main_vault : VaultConfig := {|
  self_vault_id := lit "main"; max_versions := 1; ttl_days := None;
|}.
Definition frontier_of (detector : PiiDetector) : PrivacyEnv := {|
  pe_detector := detector;
  pe_identity := mkIdentity (lit "letters") [] [] 1 [] [];
  pe_budgets := mkPrivacyBudgets 64 4 10000 2000 0 20000;
  pe_policy := mkPrivacyPolicy false {[ Secret := 1%Z ]} ∅;
  pattern_id t := String.string_of_list_ascii t;
  sha256_hex t := utf8_decode t;
|}.
(** No detector is mounted. *)
Definition no_detector : PiiDetector := {|
  detect_call _ _ _ := Returned (Ok (mkDetection [] 0)); has_detector_identity := false;
|}.
#[local] Instance quiet_frontier : PrivacyEnv := frontier_of no_detector.
#[local] Instance quiet : PrivacyStage := frontier_stage [].

Definition empty_vault : vault := mkVault ∅ (mkIndex ∅ ∅ false ∅ []) ∅ 0%N.
Definition the_id : ustr := lit "01A".
Definition first_fm : Frontmatter :=
  mkFrontmatter 1 [] (Some (lit "inbox")) Decisions Draft None None [lit "kept"] None 1000000%Z None
    None None None None None.
Definition clock (t : Z) : write_clock := mkClock t t t.

Definition value_of {A} (d : A) (r : result A VaultError * vault) : A := match r.1 with Ok a => a | Err _ => d end.

(** A write, as an equation between its result and its parts. *)
Lemma ran {A} (d : A) (c : result A VaultError * vault) : is_ok c.1 = true → c = (Ok (value_of d c), c.2).
Proof. by destruct c as [[a|] v]. Qed.

Lemma ran_as {A} (d a : A) (c : result A VaultError * vault) :
  is_ok c.1 = true → value_of d c = a → c = (Ok a, c.2).
Proof. destruct c as [[b|] v]; [|done]. by intros _ <-. Qed.

Definition write1 := write_note_inner first_fm (lit "hello") the_id (clock 2000000) empty_vault.
Definition note1 : Note := value_of sample_note write1.
Definition vault1 : vault := write1.2.

Lemma write_read_back_witness :
  read_note_in vault1 (home_vault first_fm) the_id = Ok (note_on_disk note1) ∧ body note1 = lit "hello".
Proof.
  assert (write1 = (Ok note1, vault1)) as Hw by (apply ran; vm_compute; reflexivity).
  destruct (write_read_back first_fm (lit "hello") the_id (clock 2000000) empty_vault note1 vault1 Hw)
    as (H1 & _ & H2 & _).
  - reflexivity.
  - discriminate.
  - intros r Hr. discriminate Hr.
  - reflexivity.
  - split; [exact H1|apply H2; reflexivity].
Defined.

(** The files, the row and the cache after the first write. *)
Definition path1 : ustr := path_with (lit "main") (lit "inbox") the_id.
Definition text1 : content := match v_files vault1 !! path1 with Some c => c | None => BinaryFile [] end.
Lemma files1 : v_files vault1 = {[ path1 := text1 ]}.
Proof. vm_compute. reflexivity. Qed.
Lemma cache1 : v_cache vault1 = ∅.
Proof. vm_compute. reflexivity. Qed.
Lemma row1 r : notes (v_index vault1) !! (lit "main", the_id) = Some r → r_locus r = Some (lit "inbox").
Proof.
  intros Hr. assert (r_locus <$> notes (v_index vault1) !! (lit "main", the_id) = Some (Some (lit "inbox"))) as E
    by (vm_compute; reflexivity).
  rewrite Hr in E. by injection E.
Qed.
Definition read1 : Note := value_of sample_note (read_note the_id vault1).

Definition cas1 := write_if_match first_fm (lit "again") the_id (Some (content_hash note1)) (clock 3000000) vault1.
Definition hash_of (r : WriteResult) : N := match r with Written h | Conflict h => h end.
Definition hash2 : N := hash_of (value_of (Conflict 0) cas1).

Definition late_swaps : list later_call :=
  [LaterSwap first_fm (lit "late") (clock 4000000); LaterRead the_id; LaterSwap first_fm (lit "later") (clock 5000000)].
Lemma compare_and_swap_witness :
  let '(answers, v2) := run_later the_id (content_hash note1) late_swaps cas1.2 in
  answers = [Ok (Conflict hash2); Ok (Conflict hash2)] ∧ same_store cas1.2 v2.
Proof.
  assert (cas1 = (Ok (Written hash2), cas1.2)) as Hw by (apply (ran_as (Conflict 0)); vm_compute; reflexivity).
  destruct (compare_and_swap_no_lost_update first_fm (lit "again") the_id (content_hash note1) (clock 3000000)
              vault1 hash2 cas1.2 late_swaps Hw) as [_ H].
  - apply (bool_decide_unpack _). vm_compute. exact I.
  - reflexivity.
  - reflexivity.
  - discriminate.
  - intros k n h. rewrite cache1, lookup_empty. discriminate.
  - intros r Hr _. by apply row1.
  - reflexivity.
  - exact H.
Defined.

Definition body_read (v : vault) : option ustr :=
  match read_note_in v (lit "main") the_id with Ok n => Some (body n) | Err _ => None end.
(** The window between the comparison and the write: a writer whose comparison was made before
    the first one wrote is not refused, and the update of the first is lost. *)
Example both_writers_win :
  let '(check2, v0) := check_expected the_id (Some (content_hash note1)) vault1 in
  let '(first, v1) := write_if_match first_fm (lit "again") the_id (Some (content_hash note1)) (clock 3000000) v0 in
  let '(second, v2) := write_checked first_fm (lit "late") the_id (clock 4000000) v1 in
  check2 = Ok None ∧ is_ok first = true ∧ hash_of (value_of (Conflict 0) (first, v1)) = hash2
  ∧ is_ok second = true ∧ body_read v1 = Some (lit "again")
  ∧ body_read v2 = Some (lit "late").
Proof. vm_compute. repeat split; reflexivity. Qed.

Lemma update_status_witness :
  ∃ n, (read_note the_id vault1).1 = Ok n
  ∧ ∃ row, notes (v_index (update_status the_id PendingReview None 9 (clock 3000000) vault1).2)
             !! (home_vault (frontmatter n), the_id) = Some row
           ∧ r_status row = lit "pending-review".
Proof.
  pose proof (update_status_exact the_id PendingReview None 9 (clock 3000000) vault1) as H.
  assert (is_ok (update_status the_id PendingReview None 9 (clock 3000000) vault1).1 = true) as Hok
    by (vm_compute; reflexivity).
  destruct (update_status _ _ _ _ _ vault1) as [[u|] v']; [|discriminate Hok].
  destruct H as (n & Hn & [[Hs _]|(_ & _ & row & Hrow & Hst & _)]).
  - exfalso. assert (fm_status (frontmatter read1) = Draft) as Hd by (vm_compute; reflexivity).
    unfold read1, value_of in Hd. rewrite Hn in Hd. congruence.
  - exists n. split; [exact Hn|]. exists row. split; [exact Hrow|exact Hst].
Defined.

Definition moved1 := move_locus the_id (lit "done") (clock 3000000) vault1.
Lemma move_locus_witness :
  v_files moved1.2 !! path1 = None
  ∧ get_index_status_snapshot (v_index moved1.2) (lit "main") the_id
    = get_index_status_snapshot (v_index vault1) (lit "main") the_id.
Proof.
  assert (moved1 = (Ok tt, moved1.2)) as Hm by (apply (ran_as tt); vm_compute; reflexivity).
  destruct (move_locus_relocates the_id (lit "done") (clock 3000000) vault1 moved1.2 Hm read1 (lit "inbox"))
    as (H1 & _ & H2).
  1,2,3,6,7: vm_compute; reflexivity.
  1,2: apply (bool_decide_unpack _); vm_compute; exact I.
  split; [exact H1|exact H2].
Defined.

Lemma add_tags_witness :
  ∃ n added, (read_note the_id vault1).1 = Ok n
  ∧ (∀ raw, raw ∈ [lit "new"; lit "kept"] → ∃ t, Tag_new raw = Ok t
       ∧ to_ascii_lowercase t ∈ to_ascii_lowercase <$> fm_tags (frontmatter n) ++ added).
Proof.
  pose proof (add_tags_union the_id [lit "new"; lit "kept"] (clock 3000000) vault1) as H.
  assert (is_ok (add_tags the_id [lit "new"; lit "kept"] (clock 3000000) vault1).1 = true) as Hok
    by (vm_compute; reflexivity).
  destruct (add_tags _ _ _ vault1) as [[u|] v']; [|discriminate Hok].
  destruct H as (n & added & Hn & Hall & _). exists n, added. split; [exact Hn|exact Hall].
Defined.

(** Three versions, of which one is kept. *)
Definition snap (t : Z) : ustr := snapshot_path (lit "main") the_id t.
Definition three_versions : files := <[snap 30 := TextFile []]> (<[snap 7 := TextFile []]> {[ snap 4 := TextFile [] ]}).
Lemma trim_witness :
  history_versions (apply_history_trim three_versions the_id (lit "main") 100) the_id = Ok [30%Z].
Proof.
  destruct (trim_keeps_newest three_versions the_id 100 [4; 7; 30]%Z) as [H _].
  - vm_compute. reflexivity.
  - intros p Hp _. unfold three_versions in Hp.
    destruct (decide (p = snap 30)) as [->|H1]; [exists 30%Z; split; [vm_compute; split; congruence|reflexivity]|].
    rewrite lookup_insert_ne in Hp by (intros E; apply H1; symmetry; exact E).
    destruct (decide (p = snap 7)) as [->|H2]; [exists 7%Z; split; [vm_compute; split; congruence|reflexivity]|].
    rewrite lookup_insert_ne in Hp by (intros E; apply H2; symmetry; exact E).
    destruct (decide (p = snap 4)) as [->|H3]; [exists 4%Z; split; [vm_compute; split; congruence|reflexivity]|].
    rewrite lookup_singleton_ne in Hp by (intros E; apply H3; symmetry; exact E).
    destruct Hp as [c Hc]. discriminate Hc.
  - reflexivity.
  - exact H.
Defined.

Lemma only_path1 p : is_Some (v_files vault1 !! p) → p = path1.
Proof. rewrite files1. intros [c [<- _]%lookup_singleton_Some]. done. Qed.

Definition prev1 : Note := match read_note_in vault1 (lit "main") the_id with Ok n => n | Err _ => sample_note end.
Definition write2 := write_note_inner first_fm (lit "changed") the_id (clock 3000000) vault1.
Lemma previous_version_witness :
  v_files write2.2 !! snap (version_ts prev1) = Some text1.
Proof.
  assert (write2 = (Ok (value_of sample_note write2), write2.2)) as Hw by (apply ran; vm_compute; reflexivity).
  apply (previous_version_kept first_fm (lit "changed") the_id (clock 3000000) vault1
           (value_of sample_note write2) write2.2 prev1 text1 Hw).
  1,2,3,4,6,7,8,12: vm_compute; reflexivity.
  - apply (bool_decide_unpack _). vm_compute. exact I.
  - reflexivity.
  - intros p Hp%only_path1 Hpre. exfalso. rewrite Hp in Hpre. revert Hpre. vm_compute. discriminate.
  - vm_compute. split; congruence.
  - intros t _ Hp%only_path1. exfalso. apply (f_equal is_note_path) in Hp.
    rewrite snapshot_not_note in Hp. revert Hp. vm_compute. discriminate.
Defined.

Lemma src1 row :
  get_note (v_index vault1) (lit "main") the_id = Some row →
  str_starts_with (history_dir (lit "main") the_id) (note_src vault1 (lit "main") the_id row) = false.
Proof.
  intros Hrow.
  assert ((λ r, str_starts_with (history_dir (lit "main") the_id) (note_src vault1 (lit "main") the_id r))
            <$> get_note (v_index vault1) (lit "main") the_id = Some false) as Hf by (vm_compute; reflexivity).
  rewrite Hrow in Hf. by injection Hf.
Qed.

Lemma archive_loses_nothing_witness :
  let v' := (archive_note_in (lit "main") the_id None 5 4000000 vault1).2 in
  v_files v' !! path1 = Some text1
  ∨ ∃ q, in_archive q = true ∧ v_files v' !! q = Some text1.
Proof.
  destruct (archive_loses_nothing (lit "main") the_id None 5 4000000 vault1 path1 text1) as [H|[_ H]].
  - vm_compute. reflexivity.
  - exact src1.
  - vm_compute. reflexivity.
  - vm_compute. reflexivity.
  - left. exact H.
  - right. exact H.
Defined.

Definition archive1 := archive_note the_id None 5 4000000 vault1.
Definition archived_at1 : ArchiveOutcome := value_of (mkArchiveOutcome [] [] None None) archive1.
Lemma archive_restore_witness :
  let v2 := with_index archive1.2 (without_row (v_index archive1.2) (lit "main", the_id)) in
  ∃ out v3 n, restore_archive the_id 5000000 (clock 5000000) 6000000 v2 = (Ok out, v3)
    ∧ read_note_in v3 (lit "main") the_id = Ok n
    ∧ fm_status (frontmatter n) = PendingReview ∧ body n = lit "hello".
Proof.
  assert (archive1 = (Ok archived_at1, archive1.2)) as Ha by (apply ran; vm_compute; reflexivity).
  destruct (archive_restore_roundtrip the_id None 5 4000000 vault1 archived_at1 archive1.2 prev1 5000000
              (clock 5000000) 6000000 Ha) as (out & v3 & n & H1 & H2 & H3 & H4 & _).
  1,2,5,6,8,9: vm_compute; reflexivity.
  - reflexivity.
  - discriminate.
  - apply (bool_decide_unpack _). vm_compute. exact I.
  - exact src1.
  - exists out, v3, n. split; [exact H1|]. split; [exact H2|]. split; [exact H3|].
    rewrite H4. vm_compute. reflexivity.
Defined.

(** One archive is due, one is not. *)
Definition entry (id : ustr) (due : Z) : ArchiveEntry :=
  mkArchive id (lit "main") (lit "decisions") None None (lit ".archive/main/" ++ id) 0 None due None None.
Definition two_archives : vault :=
  with_index empty_vault (mkIndex ∅ ∅ false ∅ [entry (lit "01A") 10; entry (lit "01B") 90]).
Lemma archive_gc_witness :
  (run_archive_gc 50 10 two_archives).1 = Ok 1
  ∧ archives (v_index (run_archive_gc 50 10 two_archives).2)
    = [with_gc_at 50 (entry (lit "01A") 10); entry (lit "01B") 90].
Proof.
  pose proof (archive_gc_exact 50 10 two_archives) as H. cbn zeta in H.
  destruct (run_archive_gc 50 10 two_archives) as [r v'].
  destruct H as (H1 & H2 & _).
  - unfold registry_ok. apply (bool_decide_unpack _). vm_compute. exact I.
  - vm_compute. repeat constructor.
  - split; [exact H1|exact H2].
Defined.

(** A read that hits the cache outlives the deletion of the file. *)
Definition cached1 : vault := (read_note the_id vault1).2.
Theorem deleted_note_still_read :
  (delete_note the_id cached1).1 = Ok tt
  ∧ v_files (delete_note the_id cached1).2 = ∅
  ∧ (read_note the_id (delete_note the_id cached1).2).1 = Ok read1.
Proof. vm_compute. split; [reflexivity|]. split; reflexivity. Qed.

(** A note found under its section, where older vaults put it, loses its version. *)
Definition legacy_fm : Frontmatter := with_locus first_fm None.
Definition legacy_written := write_note_inner legacy_fm (lit "hello") the_id (clock 2000000) empty_vault.
Definition legacy_text : content :=
  match v_files legacy_written.2 !! path_no_locus (lit "main") the_id with Some c => c | None => BinaryFile [] end.
Definition legacy_path : ustr := path_with (lit "main") (lit "decisions") the_id.
Definition legacy_vault : vault := with_files legacy_written.2 {[ legacy_path := legacy_text ]}.
Definition legacy_rewritten : vault :=
  (write_note_inner legacy_fm (lit "changed") the_id (clock 3000000) legacy_vault).2.
Theorem legacy_version_lost :
  is_ok (read_note_in legacy_vault (lit "main") the_id) = true
  ∧ history_versions (v_files legacy_rewritten) the_id = Ok []
  ∧ is_Some (v_files legacy_rewritten !! path_no_locus (lit "main") the_id).
Proof.
  split; [vm_compute; reflexivity|]. split; [vm_compute; reflexivity|].
  apply (bool_decide_unpack _). vm_compute. exact I.
Qed.

(** The detector that reports a letter, on the note of the first vault. *)
Definition rescan1 :=
  @rescan_privacy_in (frontier_of letter_detector) _ _ _ _ _ _ (lit "main") the_id [1%N] [2%N] (clock 3000000) vault1.
Definition is_rewritten (r : result PrivacyRescanOutcome VaultError) : bool :=
  match r with Ok Rewritten => true | _ => false end.
Lemma rescan_witness :
  @rescan_privacy_in (frontier_of letter_detector) _ _ _ _ _ _ (lit "main") the_id [3%N] [4%N] (clock 4000000) rescan1.2
  = (Ok Unchanged, rescan1.2).
Proof.
  assert (is_rewritten rescan1.1 = true) as Hb by (vm_compute; reflexivity).
  assert (rescan1 = (Ok Rewritten, rescan1.2)) as Hr by (by destruct rescan1 as [[[]|] v]).
  apply (@rescan_idempotent (frontier_of letter_detector) _ _ _ _ _ _ _ (lit "main") the_id [1%N] [2%N] [3%N] [4%N]
           (clock 3000000) (clock 4000000) vault1 rescan1.2 prev1 Hr).
  1,2,3: vm_compute; reflexivity.
  1,2: apply (bool_decide_unpack _); vm_compute; exact I.
  - intros r Hrow%row1. rewrite Hrow. vm_compute. reflexivity.
  - reflexivity.
Defined.
End VaultExamples.
