(* ===== verification/GatewayTypes.v ===== *)
(** * GatewayTypes: the wire types of the gateway

    The OpenAI types the gateway speaks to its backends ([commons/chat.rs],
    [commons/streaming.rs]), the Anthropic types it offers its clients
    ([commons/anthropic.rs]), the errors of a backend ([commons/error.rs]) and those of a
    handler ([error.rs]), all under [crates/gradatum-gateway/src].  A float is its bits.
    The first part models JSON values ([serde_json::Value]): objects are association lists
    in the order of the keys, and the text form is the class [SerdeJson]. *)

From S2P Require Import Prelude Text.

#[local] Open Scope nat_scope.

(** * JSON values *)

(** [serde_json::Number]: an integer, or a float by its bits. *)
Inductive jnumber := JInt (z : Z) | JFloat (bits : Z).
#[export] Instance jnumber_eq_dec : EqDecision jnumber.
Proof. solve_decision. Defined.

Inductive json :=
| JNull
| JBool (b : bool)
| JNumber (n : jnumber)
| JString (s : ustr)
| JArray (l : list json)
| JObject (l : list (ustr * json)).

Section json_ind.
Context (P : json → Prop).
Hypothesis Hnull : P JNull.
Hypothesis Hbool : ∀ b, P (JBool b).
Hypothesis Hnumber : ∀ n, P (JNumber n).
Hypothesis Hstring : ∀ s, P (JString s).
Hypothesis Harray : ∀ l, Forall P l → P (JArray l).
Hypothesis Hobject : ∀ l, Forall (λ kv, P kv.2) l → P (JObject l).
Fixpoint json_ind' (v : json) : P v :=
  match v with
  | JNull => Hnull | JBool b => Hbool b | JNumber n => Hnumber n | JString s => Hstring s
  | JArray l => Harray l ((fix go l := match l return Forall P l with
      | [] => Forall_nil_2 _ | x :: l' => Forall_cons_2 _ _ _ (json_ind' x) (go l') end) l)
  | JObject l => Hobject l ((fix go l := match l return Forall (λ kv, P kv.2) l with
      | [] => Forall_nil_2 _ | kv :: l' => Forall_cons_2 _ _ _ (json_ind' kv.2) (go l') end) l)
  end.
End json_ind.

(** ** Objects *)

(** [Map::insert]. *)
Fixpoint obj_insert (k : ustr) (v : json) (l : list (ustr * json)) : list (ustr * json) :=
  match l with
  | [] => [(k, v)]
  | (k', v') :: l' =>
      if bool_decide (k = k') then (k, v) :: l'
      else if ustr_lt k k' then (k, v) :: l
      else (k', v') :: obj_insert k v l'
  end.

(** [Map::get]. *)
Fixpoint obj_get (k : ustr) (l : list (ustr * json)) : option json :=
  match l with [] => None | (k', v) :: l' => if bool_decide (k = k') then Some v else obj_get k l' end.

(** [Value::get] with a string, [as_str]; [json!] of an object with the given fields. *)
Definition json_get (v : json) (k : ustr) : option json :=
  match v with JObject l => obj_get k l | _ => None end.
Definition json_as_str (v : json) : option ustr := match v with JString s => Some s | _ => None end.
Definition json_obj (fields : list (string * json)) : json :=
  JObject (foldl (λ m kv, obj_insert (lit kv.1) kv.2 m) [] fields).
Definition json_nat (n : N) : json := JNumber (JInt (Z.of_N n)).

(** What the crate guarantees of an object: its keys ascend.  [insert] keeps it so. *)
Definition obj_key_lt (a b : ustr * json) : Prop := ustr_lt a.1 b.1 = true.
Definition obj_ok (l : list (ustr * json)) : Prop := StronglySorted obj_key_lt l.

#[export] Instance obj_key_lt_trans : Transitive obj_key_lt.
Proof. intros a b c. apply ustr_lt_trans. Qed.

(** Inserting below every key puts the field first. *)
Lemma obj_insert_front k v l : Forall (obj_key_lt (k, v)) l → obj_insert k v l = (k, v) :: l.
Proof.
  destruct l as [|[k' v'] l]; [done|]. intros [Hlt _]%Forall_cons. cbn [obj_insert].
  unfold obj_key_lt in Hlt. cbn in Hlt. rewrite Hlt.
  by rewrite bool_decide_eq_false_2 by (apply ustr_lt_iff in Hlt; tauto).
Qed.

Lemma obj_get_insert k v l : obj_get k (obj_insert k v l) = Some v.
Proof.
  induction l as [|[k' v'] l IH]; cbn [obj_insert].
  - cbn. by rewrite bool_decide_eq_true_2.
  - case_bool_decide; [cbn; by rewrite bool_decide_eq_true_2|].
    destruct (ustr_lt k k'); cbn; [by rewrite bool_decide_eq_true_2|by rewrite bool_decide_eq_false_2].
Qed.

Lemma obj_get_insert_ne k k' v l : k ≠ k' → obj_get k (obj_insert k' v l) = obj_get k l.
Proof.
  intros Hk. induction l as [|[k1 v1] l IH]; cbn [obj_insert].
  - cbn. by rewrite bool_decide_eq_false_2.
  - case_bool_decide; [subst; cbn; by rewrite !bool_decide_eq_false_2|].
    destruct (ustr_lt k' k1); cbn; [by rewrite bool_decide_eq_false_2|]. by rewrite IH.
Qed.

(** Values are countable, through trees. *)
Abbreviation json_leaf := (ustr + Z + bool)%type.
Fixpoint json_to_tree (v : json) : gen_tree json_leaf :=
  match v with
  | JNull => GenNode 0 []
  | JBool b => GenNode 1 [GenLeaf (inr b)]
  | JNumber (JInt z) => GenNode 2 [GenLeaf (inl (inr z))]
  | JNumber (JFloat z) => GenNode 3 [GenLeaf (inl (inr z))]
  | JString s => GenNode 4 [GenLeaf (inl (inl s))]
  | JArray l => GenNode 5 (json_to_tree <$> l)
  | JObject l => GenNode 6 ((λ kv, GenNode 0 [GenLeaf (inl (inl kv.1)); json_to_tree kv.2]) <$> l)
  end.
Fixpoint json_of_tree (t : gen_tree json_leaf) : json :=
  match t with
  | GenNode 1 [GenLeaf (inr b)] => JBool b
  | GenNode 2 [GenLeaf (inl (inr z))] => JNumber (JInt z)
  | GenNode 3 [GenLeaf (inl (inr z))] => JNumber (JFloat z)
  | GenNode 4 [GenLeaf (inl (inl s))] => JString s
  | GenNode 5 l => JArray (json_of_tree <$> l)
  | GenNode 6 l => JObject ((λ t, match t with
                                  | GenNode _ [GenLeaf (inl (inl k)); t'] => (k, json_of_tree t')
                                  | _ => ([], JNull)
                                  end) <$> l)
  | _ => JNull
  end.
Lemma json_of_to_tree v : json_of_tree (json_to_tree v) = v.
Proof.
  induction v as [| |[]| |l IH|l IH] using json_ind'; try done; cbn; f_equal.
  - induction IH as [|v l Hv _ IHl]; [done|]. cbn. by rewrite Hv, IHl.
  - induction IH as [|[k v] l Hv _ IHl]; [done|]. cbn in *. by rewrite Hv, IHl.
Qed.

#[export] Instance json_eq_dec : EqDecision json.
Proof.
  intros v w. destruct (decide (json_to_tree v = json_to_tree w)) as [E|E]; [left|right; congruence].
  by rewrite <-(json_of_to_tree v), <-(json_of_to_tree w), E.
Defined.
#[export] Instance json_countable : Countable json := inj_countable' json_to_tree json_of_tree json_of_to_tree.

(** ** Printing and parsing

    [serde_json::to_string] of a value, which the code allows to fail, and
    [serde_json::from_str]. *)
Class SerdeJson := {
  to_string : json → option ustr;
  from_str : ustr → option json
}.

(** The documented behaviour the theorems need: a value always prints, and what it prints
    parses back to it. *)
Class SerdeJsonLaws `{SerdeJson} : Prop := {
  to_string_total : ∀ v, is_Some (to_string v);
  from_to_string : ∀ v s, to_string v = Some s → from_str s = Some v
}.

(** * GatewayTypes *)

(** ** OpenAI: messages and requests *)

Inductive Role := RoleSystem | RoleUser | RoleAssistant | RoleTool.
#[export] Instance Role_eq_dec : EqDecision Role.
Proof. solve_decision. Defined.

Inductive ContentPart := PartText (text : ustr) | PartImageUrl (url : ustr).
Inductive MessageContent := ContentText (s : ustr) | ContentParts (parts : list ContentPart).

Definition part_is_image (p : ContentPart) : bool := match p with PartImageUrl _ => true | _ => false end.
Definition has_image (c : MessageContent) : bool :=
  match c with ContentText _ => false | ContentParts parts => existsb part_is_image parts end.
Definition part_text (p : ContentPart) : option ustr := match p with PartText t => Some t | _ => None end.
Definition text_content (c : MessageContent) : ustr :=
  match c with ContentText s => s | ContentParts parts => concat (omap part_text parts) end.
Definition image_count (c : MessageContent) : nat :=
  match c with
  | ContentText _ => 0
  | ContentParts parts => length (filter (λ p, part_is_image p = true) parts)
  end.

Record ToolCall := mkToolCall {
  call_id : ustr; call_tool_type : ustr; call_name : ustr; call_arguments : ustr }.

Record Message := mkMessage {
  role : Role;
  content : MessageContent;
  tool_calls : option (list ToolCall);
  tool_call_id : option ustr;
  name : option ustr }.

Definition message_system (s : ustr) : Message := mkMessage RoleSystem (ContentText s) None None None.
Definition message_user (s : ustr) : Message := mkMessage RoleUser (ContentText s) None None None.
Definition message_assistant (s : ustr) : Message := mkMessage RoleAssistant (ContentText s) None None None.
Definition message_has_image (m : Message) : bool := has_image (content m).

Record FunctionDefinition := mkFunctionDefinition {
  fn_name : ustr; fn_description : option ustr; fn_parameters : json; fn_strict : option bool }.
Record ToolDefinition := mkToolDefinition { def_tool_type : ustr; def_function : FunctionDefinition }.
Definition tool_definition_function (f : FunctionDefinition) : ToolDefinition :=
  mkToolDefinition (lit "function") f.

Inductive OpenAIToolChoice := Mode (mode : ustr) | ForceFunction (tool_type fname : ustr).
Definition choice_auto : OpenAIToolChoice := Mode (lit "auto").
Definition choice_none : OpenAIToolChoice := Mode (lit "none").
Definition choice_required : OpenAIToolChoice := Mode (lit "required").

Record ChatCompletionRequest := mkRequest {
  req_model : ustr;
  req_messages : list Message;
  req_max_tokens : option N;
  req_temperature : option N;
  req_stream : option bool;
  req_top_p : option N;
  req_top_k : option N;
  req_min_p : option N;
  req_presence_penalty : option N;
  req_stop : option (list ustr);
  req_tools : option (list ToolDefinition);
  req_tool_choice : option OpenAIToolChoice;
  req_chat_template_kwargs : option json }.

Record Usage := mkUsage {
  prompt_tokens : N; completion_tokens : N; total_tokens : N; cached_tokens : option (option N) }.
Record Choice := mkChoice { choice_index : N; choice_message : Message; choice_finish_reason : option ustr }.
Record ChatCompletionResponse := mkResponse {
  resp_id : ustr; resp_object : ustr; resp_created : N; resp_model : ustr;
  resp_choices : list Choice; resp_usage : option Usage }.

(** ** OpenAI: the chunks of a stream *)

Record ChunkToolCallFunction := mkChunkFunction { cf_name : option ustr; cf_arguments : option ustr }.
Record ChunkToolCall := mkChunkToolCall {
  tc_index : N; tc_id : option ustr; tc_type : option ustr; tc_function : option ChunkToolCallFunction }.
Record ChunkDelta := mkDelta {
  d_role : option ustr; d_content : option ustr; d_tool_calls : option (list ChunkToolCall) }.
Record ChunkChoice := mkChunkChoice { cc_index : N; cc_delta : ChunkDelta; cc_finish_reason : option ustr }.
Record ChatCompletionChunk := mkChunk {
  ck_id : ustr; ck_object : ustr; ck_created : N; ck_model : ustr; ck_choices : list ChunkChoice }.

(** ** Anthropic: messages and requests *)

Record ImageSource := mkImageSource {
  source_type : ustr; media_type : option ustr; data : option ustr; url : option ustr }.

Inductive ContentBlock :=
| BlockText (text : ustr)
| BlockToolUse (id bname : ustr) (input : json)
| BlockToolResult (tool_use_id : ustr) (result_content : json) (is_error : option bool)
| BlockImage (source : ImageSource)
| BlockThinking (thinking : ustr)
| BlockUnknown.

Inductive AnthropicContent := AText (s : ustr) | ABlocks (blocks : list ContentBlock).
Inductive SystemContent := SText (s : ustr) | SBlocks (blocks : list ContentBlock).

Definition block_text (b : ContentBlock) : option ustr := match b with BlockText t => Some t | _ => None end.
Definition as_text (c : AnthropicContent) : ustr :=
  match c with AText s => s | ABlocks blocks => concat (omap block_text blocks) end.

Record AnthropicMessage := mkAMessage { am_role : ustr; am_content : AnthropicContent }.
Record Tool := mkTool { tool_name : ustr; tool_description : option ustr; input_schema : json }.
Inductive AToolChoice := ChoiceAuto | ChoiceAny | ChoiceTool (tname : ustr) | ChoiceNone.

Record MessagesRequest := mkMessagesRequest {
  mr_model : ustr;
  mr_messages : list AnthropicMessage;
  mr_system : option SystemContent;
  mr_max_tokens : N;
  mr_temperature : option N;
  mr_top_p : option N;
  mr_stop_sequences : option (list ustr);
  mr_stream : option bool;
  mr_tools : option (list Tool);
  mr_tool_choice : option AToolChoice;
  mr_thinking : option json;
  mr_betas : option (list ustr);
  mr_metadata : option json }.

Inductive ResponseBlock :=
| RBText (text : ustr)
| RBToolUse (id bname : ustr) (input : json).
Record AnthropicUsage := mkAUsage { input_tokens : N; output_tokens : N }.
Record MessagesResponse := mkMessagesResponse {
  mres_id : ustr; mres_type : ustr; mres_role : ustr; mres_model : ustr;
  mres_content : list ResponseBlock; mres_stop_reason : option ustr;
  mres_stop_sequence : option ustr; mres_usage : AnthropicUsage }.

(** ** Errors *)

(** [LlmError]; the source of a network or serialization error is not kept. *)
Inductive LlmError :=
| Network
| Timeout
| Http (status : N) (body : ustr)
| InvalidRequest (message : ustr)
| Unauthorized (message : ustr)
| Forbidden (message : ustr)
| LlmNotFound (message : ustr)
| RateLimited (retry_after_secs : option N) (message : ustr)
| QuotaExceeded (message : ustr)
| UpstreamError (status : N) (message : ustr)
| ProviderUnavailable (provider reason : ustr)
| AllProvidersFailed (attempts : list ustr)
| Serialization
| ToolValidation (tool_name reason : ustr)
| Custom (message : ustr).

Definition is_retryable (e : LlmError) : bool :=
  match e with Network | Timeout | RateLimited _ _ | UpstreamError _ _ => true | _ => false end.

Definition from_http_status (status : N) (body : ustr) : LlmError :=
  (if status =? 400 then InvalidRequest body
   else if status =? 401 then Unauthorized body
   else if status =? 403 then Forbidden body
   else if status =? 404 then LlmNotFound body
   else if (status =? 402) || (status =? 413) then QuotaExceeded body
   else if status =? 429 then RateLimited None body
   else if (500 <=? status) && (status <=? 599) then UpstreamError status body
   else Http status body)%N.

Inductive ApiError :=
| AliasNotFound (alias : ustr) (available : list ustr)
| ProviderNotFound (provider : ustr)
| Backend (e : LlmError)
| InvalidBody (message : ustr)
| ContextLengthExceeded (total cap : N)
| TooManyTools (count max : nat)
| ServiceUnavailable (message : ustr)
| VisionNotSupported (alias : ustr).

Definition status_code (e : ApiError) : N :=
  match e with
  | AliasNotFound _ _ => 404
  | ProviderNotFound _ => 500
  | InvalidBody _ => 400
  | ContextLengthExceeded _ _ => 413
  | TooManyTools _ _ => 400
  | ServiceUnavailable _ => 503
  | VisionNotSupported _ => 400
  | Backend e =>
      match e with
      | InvalidRequest _ => 400
      | Unauthorized _ => 401
      | Forbidden _ => 403
      | LlmNotFound _ => 404
      | RateLimited _ _ => 429
      | Timeout | Network | ProviderUnavailable _ _ | UpstreamError _ _ => 502
      | _ => 500
      end
  end%N.
