(* ===== verification/Translate.v ===== *)
(** * Translate: Anthropic requests to OpenAI requests, and answers back

    [crates/gradatum-gateway/src/anthropic/translate.rs]: the messages, images, tools and
    tool choice of a request, the sanitisation of tool schemas, and the answer of a
    backend. *)

From S2P Require Import Prelude Text GatewayTypes.

#[local] Open Scope nat_scope.

Inductive TranslateError := EmptyChoices | InvalidImageUrl (rejected : ustr).

(** ** Images and parts *)

Definition translate_image_source (source : ImageSource)
    : result (option ContentPart) TranslateError :=
  if bool_decide (source_type source = lit "base64") then
    let media_type := default (lit "image/jpeg") (media_type source) in
    let data := default [] (data source) in
    Ok (Some (PartImageUrl (lit "data:" ++ media_type ++ lit ";base64," ++ data)))
  else if bool_decide (source_type source = lit "url") then
    let url := default [] (url source) in
    if negb (str_starts_with (lit "https://") url) then Err (InvalidImageUrl url)
    else Ok (Some (PartImageUrl url))
  else Ok None.

(** The loop over the blocks, without the fallback of the end. *)
Fixpoint blocks_to_parts (blocks : list ContentBlock) : result (list ContentPart) TranslateError :=
  match blocks with
  | [] => Ok []
  | BlockText text :: rest => parts ?<- blocks_to_parts rest; Ok (PartText text :: parts)
  | BlockImage source :: rest =>
      part ?<- translate_image_source source;
      parts ?<- blocks_to_parts rest;
      Ok (option_list part ++ parts)
  | _ :: rest => blocks_to_parts rest
  end.
Definition translate_content_blocks_to_parts (blocks : list ContentBlock)
    : result (list ContentPart) TranslateError :=
  parts ?<- blocks_to_parts blocks;
  Ok (match parts with [] => [PartText []] | _ => parts end).

(** ** Messages *)

Section with_json.
Context `{SerdeJson}.

(** [other.to_string()]: a value that does not print has no text. *)
Definition value_display (v : json) : ustr := default [] (to_string v).

Definition extract_tool_result_text (content : json) : ustr :=
  match content with
  | JString s => s
  | JArray blocks => concat (omap (λ b, t ← json_get b (lit "text"); json_as_str t) blocks)
  | JNull => []
  | other => value_display other
  end.

(** The [role:tool] message of a result; [None] for every other block. *)
Definition tool_message (block : ContentBlock) : option Message :=
  match block with
  | BlockToolResult tool_use_id result_content _ =>
      Some (mkMessage RoleTool (ContentText (extract_tool_result_text result_content)) None
              (Some tool_use_id) None)
  | _ => None
  end.
Definition is_tool_result (block : ContentBlock) : bool :=
  match block with BlockToolResult _ _ _ => true | _ => false end.

Definition user_message_of_parts (parts : list ContentPart) : Message :=
  match parts with
  | [PartText text] => message_user text
  | _ => mkMessage RoleUser (ContentParts parts) None None None
  end.

Definition translate_user_message (content : AnthropicContent)
    : result (list Message) TranslateError :=
  match content with
  | AText s => Ok [message_user s]
  | ABlocks blocks =>
      let tool_messages := omap tool_message blocks in
      let non_tool_blocks := filter (λ b, is_tool_result b = false) blocks in
      match non_tool_blocks with
      | [] => Ok tool_messages
      | _ =>
          parts ?<- translate_content_blocks_to_parts non_tool_blocks;
          Ok (tool_messages ++ [user_message_of_parts parts])
      end
  end.

Definition tool_call_of (block : ContentBlock) : option ToolCall :=
  match block with
  | BlockToolUse id name input =>
      Some (mkToolCall id (lit "function") name (default (lit "{}") (to_string input)))
  | _ => None
  end.

Definition translate_assistant_message (content : AnthropicContent) : Message :=
  match content with
  | AText s => message_assistant s
  | ABlocks blocks =>
      let text_parts := omap block_text blocks in
      let tool_calls := omap tool_call_of blocks in
      mkMessage RoleAssistant
        (ContentText (match text_parts with [] => [] | _ => concat text_parts end))
        (match tool_calls with [] => None | _ => Some tool_calls end) None None
  end.

Definition translate_message (msg : AnthropicMessage) : result (list Message) TranslateError :=
  if bool_decide (am_role msg = lit "user") then translate_user_message (am_content msg)
  else if bool_decide (am_role msg = lit "assistant") then
    Ok [translate_assistant_message (am_content msg)]
  else if bool_decide (am_role msg = lit "system") then
    Ok [message_system (as_text (am_content msg))]
  else translate_user_message (am_content msg).

(** ** Schemas *)

Definition GBNF_BLOAT_KEYWORDS : list ustr :=
  [lit "maximum"; lit "minimum"; lit "exclusiveMaximum"; lit "exclusiveMinimum";
   lit "multipleOf"; lit "maxLength"; lit "minLength"; lit "pattern"; lit "maxItems";
   lit "minItems"; lit "uniqueItems"].

(** How the value of a key is treated: a map of schemas, a schema or an array of them, an
    array of schemas, a schema, or left as it is. *)
Inductive key_class := MapOfSchemas | SchemaOrSchemas | ArrayOfSchemas | OneSchema | Verbatim.
Definition classify_key (key : ustr) : key_class :=
  if bool_decide (key ∈ [lit "properties"; lit "$defs"; lit "definitions"]) then MapOfSchemas
  else if bool_decide (key = lit "items") then SchemaOrSchemas
  else if bool_decide (key ∈ [lit "anyOf"; lit "oneOf"; lit "allOf"]) then ArrayOfSchemas
  else if bool_decide (key = lit "additionalProperties") then OneSchema
  else if bool_decide (key = lit "prefixItems") then ArrayOfSchemas
  else Verbatim.

Fixpoint sanitize_schema (value : json) : json :=
  match value with
  | JObject map =>
      JObject
        ((fix fields (map : list (ustr * json)) : list (ustr * json) :=
            match map with
            | [] => []
            | (key, val) :: rest =>
                if bool_decide (key ∈ GBNF_BLOAT_KEYWORDS) then fields rest
                else
                  let sanitized_val :=
                    match classify_key key, val with
                    | MapOfSchemas, JObject inner =>
                        JObject
                          ((fix props (inner : list (ustr * json)) : list (ustr * json) :=
                              match inner with
                              | [] => []
                              | (prop_key, prop_val) :: rest' =>
                                  obj_insert prop_key (sanitize_schema prop_val) (props rest')
                              end) inner)
                    | (SchemaOrSchemas | OneSchema), JObject _ => sanitize_schema val
                    | (SchemaOrSchemas | ArrayOfSchemas), JArray arr =>
                        JArray (sanitize_schema <$> arr)
                    | _, _ => val
                    end in
                  obj_insert key sanitized_val (fields rest)
            end) map)
  | other => other
  end.

(** ** Requests *)

Definition translate_tools (tools : list Tool) : list ToolDefinition :=
  (λ t, tool_definition_function
          (mkFunctionDefinition (tool_name t) (tool_description t)
             (sanitize_schema (input_schema t)) None)) <$> tools.

Definition translate_tool_choice (tc : AToolChoice) : OpenAIToolChoice :=
  match tc with
  | ChoiceAuto => choice_auto
  | ChoiceAny => choice_required
  | ChoiceNone => choice_none
  | ChoiceTool name => ForceFunction (lit "function") name
  end.

Definition extract_text_from_system (system : SystemContent) : ustr :=
  match system with SText s => s | SBlocks blocks => concat (omap block_text blocks) end.

Fixpoint translate_messages (msgs : list AnthropicMessage) : result (list Message) TranslateError :=
  match msgs with
  | [] => Ok []
  | msg :: rest =>
      translated ?<- translate_message msg;
      more ?<- translate_messages rest;
      Ok (translated ++ more)
  end.

Definition anthropic_to_chat (req : MessagesRequest) (resolved_model : ustr)
    : result ChatCompletionRequest TranslateError :=
  let system := match mr_system req with
                | Some system => [message_system (extract_text_from_system system)]
                | None => []
                end in
  messages ?<- translate_messages (mr_messages req);
  let tools := translate_tools <$> mr_tools req in
  let tool_choice :=
    match mr_tool_choice req, tools with
    | Some tc, _ => Some (translate_tool_choice tc)
    | None, Some _ => Some choice_auto
    | None, None => None
    end in
  Ok (mkRequest resolved_model (system ++ messages) (Some (mr_max_tokens req))
        (mr_temperature req) (mr_stream req) (mr_top_p req) None None None
        (mr_stop_sequences req) tools tool_choice None).

(** ** Answers *)

Definition map_stop_reason (finish_reason : ustr) : ustr :=
  if bool_decide (finish_reason = lit "stop") then lit "end_turn"
  else if bool_decide (finish_reason = lit "length") then lit "max_tokens"
  else if bool_decide (finish_reason = lit "tool_calls") then lit "tool_use"
  else if bool_decide (finish_reason = lit "stop_sequence") then lit "stop_sequence"
  else lit "end_turn".

Definition parse_tool_arguments (arguments : ustr) : json := default (JObject []) (from_str arguments).

Definition build_usage (usage : option Usage) : AnthropicUsage :=
  match usage with
  | Some u => mkAUsage (prompt_tokens u) (completion_tokens u)
  | None => mkAUsage 0 0
  end.

Definition response_tool_use (tc : ToolCall) : ResponseBlock :=
  RBToolUse (call_id tc) (call_name tc) (parse_tool_arguments (call_arguments tc)).
Definition is_tool_use (b : ResponseBlock) : bool := match b with RBToolUse _ _ _ => true | _ => false end.

Definition chat_to_anthropic (resp : ChatCompletionResponse) (model : ustr)
    : result MessagesResponse TranslateError :=
  match resp_choices resp with
  | [] => Err EmptyChoices
  | choice :: _ =>
      let text := text_content (content (choice_message choice)) in
      let blocks :=
        (if text is [] then [] else [RBText text])
        ++ (response_tool_use <$> default [] (tool_calls (choice_message choice))) in
      let blocks := match blocks with [] => [RBText []] | _ => blocks end in
      let stop_reason := if existsb is_tool_use blocks then Some (lit "tool_use")
                         else map_stop_reason <$> choice_finish_reason choice in
      Ok (mkMessagesResponse (lit "msg_" ++ resp_id resp) (lit "message") (lit "assistant")
            model blocks stop_reason None (build_usage (resp_usage resp)))
  end.
End with_json.
