(* ===== verification/AnthropicStream.v ===== *)
(** * AnthropicStream: from the chunks of a backend to the events of a client

    [crates/gradatum-gateway/src/anthropic/stream.rs].  An event is kept symbolic
    ([sse_event]) until it is rendered; [process_chunk] is the state machine over the chunks
    of a backend, [keepalive_anthropic_sse] the stream a client reads, whose awaits are
    decided by a schedule: at each one, either the periodic tick or the awaited thing comes
    first. *)

From S2P Require Import Prelude Text GatewayTypes Translate.

#[local] Open Scope nat_scope.

(** ** Events *)

Section format.
Context `{SerdeJson}.

Definition format_sse_event (event_type : ustr) (data : json) : ustr :=
  match to_string data with
  | Some json => lit "event: " ++ event_type ++ [NL] ++ lit "data: " ++ json ++ [NL; NL]
  | None => []
  end.

Definition block_stop_event (index : N) : ustr :=
  format_sse_event (lit "content_block_stop")
    (json_obj [("type", JString (lit "content_block_stop")); ("index", json_nat index)]).

Definition message_start_event (model message_id : ustr) : ustr :=
  format_sse_event (lit "message_start")
    (json_obj [("type", JString (lit "message_start"));
               ("message", json_obj [("id", JString message_id);
                                     ("type", JString (lit "message"));
                                     ("role", JString (lit "assistant"));
                                     ("model", JString model);
                                     ("content", JArray []);
                                     ("stop_reason", JNull);
                                     ("stop_sequence", JNull);
                                     ("usage", json_obj [("input_tokens", json_nat 0);
                                                         ("output_tokens", json_nat 0)])])]).

Definition ping_event : ustr :=
  format_sse_event (lit "ping") (json_obj [("type", JString (lit "ping"))]).

Definition message_stop_event : ustr :=
  format_sse_event (lit "message_stop") (json_obj [("type", JString (lit "message_stop"))]).

Definition message_delta_event (stop_reason : ustr) (output_tokens : N) : ustr :=
  format_sse_event (lit "message_delta")
    (json_obj [("type", JString (lit "message_delta"));
               ("delta", json_obj [("stop_reason", JString stop_reason); ("stop_sequence", JNull)]);
               ("usage", json_obj [("output_tokens", json_nat output_tokens)])]).

Definition error_event (error_type message : ustr) : ustr :=
  format_sse_event (lit "error")
    (json_obj [("type", JString (lit "error"));
               ("error", json_obj [("type", JString error_type); ("message", JString message)])]).

(** The [content_block_start] and [content_block_delta] that [process_chunk] builds in
    place. *)
Definition block_start_event (index : N) (block : json) : ustr :=
  format_sse_event (lit "content_block_start")
    (json_obj [("type", JString (lit "content_block_start")); ("index", json_nat index);
               ("content_block", block)]).
Definition block_delta_event (index : N) (delta : json) : ustr :=
  format_sse_event (lit "content_block_delta")
    (json_obj [("type", JString (lit "content_block_delta")); ("index", json_nat index);
               ("delta", delta)]).

Definition is_message_stop (item : ustr) : bool :=
  str_starts_with (lit "event: message_stop" ++ [NL]) item.
End format.

Inductive sse_event :=
| MessageStart (model message_id : ustr)
| Ping
| TextStart (index : N)
| ToolStart (index : N) (id tname : ustr)
| TextDelta (index : N) (text : ustr)
| InputJsonDelta (index : N) (partial_json : ustr)
| BlockStop (index : N)
| MessageDelta (stop_reason : ustr) (output_tokens : N)
| MessageStop
| ErrorEvent (error_type message : ustr).

Definition render `{SerdeJson} (e : sse_event) : ustr :=
  match e with
  | MessageStart model message_id => message_start_event model message_id
  | Ping => ping_event
  | TextStart idx =>
      block_start_event idx (json_obj [("type", JString (lit "text")); ("text", JString [])])
  | ToolStart idx id name =>
      block_start_event idx (json_obj [("type", JString (lit "tool_use")); ("id", JString id);
                                       ("name", JString name); ("input", JObject [])])
  | TextDelta idx text =>
      block_delta_event idx (json_obj [("type", JString (lit "text_delta")); ("text", JString text)])
  | InputJsonDelta idx args =>
      block_delta_event idx (json_obj [("type", JString (lit "input_json_delta"));
                                       ("partial_json", JString args)])
  | BlockStop idx => block_stop_event idx
  | MessageDelta stop_reason output_tokens => message_delta_event stop_reason output_tokens
  | MessageStop => message_stop_event
  | ErrorEvent error_type message => error_event error_type message
  end.

(** ** The state machine over the chunks *)

Definition u32_max : N := 4294967295.
Definition u32_saturating_add (a b : N) : N := N.min (a + b) u32_max.

Record StreamState := mkStreamState {
  text_block_index : option N;
  tool_blocks : gmap N (N * bool);
  next_block_index : N;
  finish_reason : option ustr;
  out_tokens : N }.

Definition StreamState_new : StreamState := mkStreamState None ∅ 0 None 0.

Definition alloc_block (s : StreamState) : N * StreamState :=
  let idx := next_block_index s in
  (idx, mkStreamState (text_block_index s) (tool_blocks s) (u32_saturating_add idx 1)
          (finish_reason s) (out_tokens s)).

Definition with_text (s : StreamState) (t : option N) : StreamState :=
  mkStreamState t (tool_blocks s) (next_block_index s) (finish_reason s) (out_tokens s).
Definition with_tool (s : StreamState) (i : N) (b : N * bool) : StreamState :=
  mkStreamState (text_block_index s) (<[i := b]> (tool_blocks s)) (next_block_index s)
    (finish_reason s) (out_tokens s).
Definition with_finish (s : StreamState) (r : option ustr) : StreamState :=
  mkStreamState (text_block_index s) (tool_blocks s) (next_block_index s) r (out_tokens s).

(** The tokens a fragment is counted for: [(len / 4) as u32]. *)
Definition add_tokens (s : StreamState) (text : ustr) : StreamState :=
  mkStreamState (text_block_index s) (tool_blocks s) (next_block_index s) (finish_reason s)
    (u32_saturating_add (out_tokens s) (N.of_nat (str_len text / 4) `mod` 4294967296)%N).

Definition to_close (s : StreamState) : list N :=
  option_list (text_block_index s)
  ++ omap (λ b, if (b : N * bool).2 then Some b.1 else None) (map_to_list (tool_blocks s)).*2.

Definition close_open_blocks (s : StreamState) : list sse_event * StreamState :=
  (BlockStop <$> vec_dedup (merge_sort N.le (to_close s)), with_text s None).

(** The text of a delta. *)
Definition on_text (s : StreamState) (text : ustr) : list sse_event * StreamState :=
  let s1 := add_tokens s text in
  match text_block_index s1 with
  | Some idx => ([TextDelta idx text], s1)
  | None =>
      let '(idx, s2) := alloc_block s1 in
      ([TextStart idx; TextDelta idx text], with_text s2 (Some idx))
  end.

(** One fragment of a tool call: a new index closes the open text block and takes a block. *)
Definition register_tool (s : StreamState) (openai_idx : N) : list sse_event * StreamState :=
  match tool_blocks s !! openai_idx with
  | Some _ => ([], s)
  | None =>
      let stops := BlockStop <$> option_list (text_block_index s) in
      let '(anthropic_idx, s1) := alloc_block (with_text s None) in
      (stops, with_tool s1 openai_idx (anthropic_idx, false))
  end.

Definition tool_announced (tc : ChunkToolCall) : option (ustr * ustr) :=
  match tc_id tc, tc_function tc with
  | Some id, Some func => name ← cf_name func; Some (id, name)
  | _, _ => None
  end.
Definition nonempty_text (t : option ustr) : option ustr :=
  match t with Some [] | None => None | Some t => Some t end.
Definition tool_arguments (tc : ChunkToolCall) : option ustr :=
  match tc_function tc with Some func => nonempty_text (cf_arguments func) | None => None end.

Definition on_tool_call (s : StreamState) (tc : ChunkToolCall) : list sse_event * StreamState :=
  let '(ev0, s0) := register_tool s (tc_index tc) in
  match (tool_blocks s0 !! tc_index tc : option (N * bool)) with
  | None => (ev0, s0)
  | Some (anthropic_idx, started) =>
      let '(ev1, s1) :=
        match (if started then None else tool_announced tc) with
        | Some (id, name) =>
            ([ToolStart anthropic_idx id name], with_tool s0 (tc_index tc) (anthropic_idx, true))
        | None => ([], s0)
        end in
      match tool_arguments tc with
      | Some args => (ev0 ++ ev1 ++ [InputJsonDelta anthropic_idx args], add_tokens s1 args)
      | None => (ev0 ++ ev1, s1)
      end
  end.

Fixpoint on_tool_calls (s : StreamState) (tcs : list ChunkToolCall) : list sse_event * StreamState :=
  match tcs with
  | [] => ([], s)
  | tc :: rest =>
      let '(ev, s1) := on_tool_call s tc in
      let '(evs, s2) := on_tool_calls s1 rest in
      (ev ++ evs, s2)
  end.

Definition process_choice (s : StreamState) (choice : ChunkChoice) : list sse_event * StreamState :=
  let s0 := match cc_finish_reason choice with
            | Some reason => with_finish s (Some reason)
            | None => s
            end in
  let '(ev1, s1) := match nonempty_text (d_content (cc_delta choice)) with
                    | Some text => on_text s0 text
                    | None => ([], s0)
                    end in
  let '(ev2, s2) := on_tool_calls s1 (default [] (d_tool_calls (cc_delta choice))) in
  match cc_finish_reason choice with
  | None => (ev1 ++ ev2, s2)
  | Some _ =>
      let '(ev3, s3) := close_open_blocks s2 in
      let stop_reason := match finish_reason s3 with
                         | Some r => map_stop_reason r
                         | None => lit "end_turn"
                         end in
      (ev1 ++ ev2 ++ ev3 ++ [MessageDelta stop_reason (out_tokens s3); MessageStop], s3)
  end.

Abbreviation chunk_item := (result ChatCompletionChunk LlmError).

Definition process_chunk (s : StreamState) (chunk_result : chunk_item)
    : list sse_event * StreamState :=
  match chunk_result with
  | Err e =>
      let '(ev, s1) := close_open_blocks s in
      (ev ++ [ErrorEvent (lit "api_error") (lit "internal backend error"); MessageStop], s1)
  | Ok chunk =>
      match ck_choices chunk with
      | [] => ([], s)
      | choice :: _ => process_choice s choice
      end
  end.

(** The machine scanned over a stream. *)
Fixpoint scan_chunks (s : StreamState) (stream : list chunk_item) : list sse_event * StreamState :=
  match stream with
  | [] => ([], s)
  | item :: rest =>
      let '(ev, s1) := process_chunk s item in
      let '(evs, s2) := scan_chunks s1 rest in
      (ev ++ evs, s2)
  end.

Definition chunks_to_anthropic_content_sse (stream : list chunk_item) : list sse_event :=
  (scan_chunks StreamState_new stream).1.

Definition chunks_to_anthropic_sse (stream : list chunk_item) (model message_id : ustr)
    : list sse_event :=
  [MessageStart model message_id; Ping] ++ chunks_to_anthropic_content_sse stream.

(** ** The stream a client reads *)

Inductive StreamDispatch :=
| Ready (stream : list chunk_item)
| Failed (error_type message : ustr).

Inductive KeepAlivePhase :=
| PhaseStart (message_start : sse_event) (dispatch : StreamDispatch)
| PhaseWaiting (dispatch : StreamDispatch)
| PhaseContent (stream : list sse_event) (stop_emitted : bool)
| PhaseError (error_type message : ustr)
| PhaseStop
| PhaseDone.

(** One turn of the loop: an item is yielded, the loop goes on, or the stream has ended. *)
Inductive turn := Yield (item : sse_event) (next : KeepAlivePhase) | Continue (next : KeepAlivePhase) | End.

Definition keepalive_turn `{SerdeJson} (tick_first : bool) (phase : KeepAlivePhase) : turn :=
  match phase with
  | PhaseStart message_start dispatch => Yield message_start (PhaseWaiting dispatch)
  | PhaseWaiting dispatch =>
      if tick_first then Yield Ping (PhaseWaiting dispatch)
      else match dispatch with
           | Ready stream => Continue (PhaseContent (chunks_to_anthropic_content_sse stream) false)
           | Failed error_type message => Continue (PhaseError error_type message)
           end
  | PhaseContent stream stop_emitted =>
      if tick_first then Yield Ping (PhaseContent stream stop_emitted)
      else match stream with
           | item :: rest => Yield item (PhaseContent rest (stop_emitted || is_message_stop (render item)))
           | [] => if stop_emitted then Continue PhaseDone
                   else Yield (MessageDelta (lit "end_turn") 0) PhaseStop
           end
  | PhaseError error_type message => Yield (ErrorEvent error_type message) PhaseStop
  | PhaseStop => Yield MessageStop PhaseDone
  | PhaseDone => End
  end.

(** The turns a schedule gives, and where they leave the stream. *)
Fixpoint keepalive_run `{SerdeJson} (schedule : list bool) (phase : KeepAlivePhase)
    : list sse_event * KeepAlivePhase :=
  match schedule with
  | [] => ([], phase)
  | tick_first :: rest =>
      match keepalive_turn tick_first phase with
      | Yield item next => let '(items, p) := keepalive_run rest next in (item :: items, p)
      | Continue next => keepalive_run rest next
      | End => ([], phase)
      end
  end.

Definition keepalive_anthropic_sse `{SerdeJson} (schedule : list bool) (dispatch : StreamDispatch)
    (model message_id : ustr) : list sse_event * KeepAlivePhase :=
  keepalive_run schedule (PhaseStart (MessageStart model message_id) dispatch).
