(* ===== verification/StreamProtocol.v ===== *)
(** * StreamProtocol: what a client may rely on

    The protocol of a message as a client reads it, an automaton over the events of
    AnthropicStream.v, and the proof that the events the gateway emits follow it. *)

From S2P Require Import Prelude Text GatewayTypes Translate AnthropicStream.

#[local] Open Scope nat_scope.

#[export] Instance sse_event_eq_dec : EqDecision sse_event.
Proof. solve_decision. Defined.

(** ** The protocol

    A message starts once.  A block starts at an index above every index used so far, and
    while no text block is open; deltas go to an open block of their kind; only an open
    block stops.  The message delta and an error come when every block has stopped, and the
    message stops after one of them.  A ping is allowed anywhere. *)

Inductive block_kind := KindText | KindTool.
#[export] Instance block_kind_eq_dec : EqDecision block_kind.
Proof. solve_decision. Defined.

Record message := mkMsg { m_open : gmap N block_kind; m_floor : N; m_ended : bool }.
Inductive client := Idle | Receiving (m : message) | Stopped.

Definition text_open (m : message) : bool :=
  existsb (λ kb, bool_decide ((kb : N * block_kind).2 = KindText)) (map_to_list (m_open m)).

Definition start_block (m : message) (idx : N) (k : block_kind) : option client :=
  if negb (m_ended m) && (m_floor m <=? idx)%N && negb (text_open m)
  then Some (Receiving (mkMsg (<[idx := k]> (m_open m)) (idx + 1) false)) else None.
Definition delta_block (m : message) (idx : N) (k : block_kind) : option client :=
  if bool_decide (m_open m !! idx = Some k) then Some (Receiving m) else None.

Definition client_step (c : client) (e : sse_event) : option client :=
  match c, e with
  | _, Ping => Some c
  | Idle, MessageStart _ _ => Some (Receiving (mkMsg ∅ 0 false))
  | Receiving m, TextStart idx => start_block m idx KindText
  | Receiving m, ToolStart idx _ _ => start_block m idx KindTool
  | Receiving m, TextDelta idx _ => delta_block m idx KindText
  | Receiving m, InputJsonDelta idx _ => delta_block m idx KindTool
  | Receiving m, BlockStop idx =>
      if bool_decide (is_Some (m_open m !! idx))
      then Some (Receiving (mkMsg (delete idx (m_open m)) (m_floor m) (m_ended m))) else None
  | Receiving m, (MessageDelta _ _ | ErrorEvent _ _) =>
      if bool_decide (m_open m = ∅) && negb (m_ended m)
      then Some (Receiving (mkMsg ∅ (m_floor m) true)) else None
  | Receiving m, MessageStop => if m_ended m then Some Stopped else None
  | _, _ => None
  end.

Fixpoint client_run (c : client) (es : list sse_event) : option client :=
  match es with [] => Some c | e :: es' => c' ← client_step c e; client_run c' es' end.

Lemma client_run_app c es1 es2 :
  client_run c (es1 ++ es2) = (c' ← client_run c es1; client_run c' es2).
Proof. revert c. induction es1 as [|e es1 IH]; intros c; [done|]. cbn. destruct (client_step c e); [apply IH|done]. Qed.

(** Pings never matter. *)
Lemma client_run_pings c es : client_run c es = client_run c (filter (λ e, e ≠ Ping) es).
Proof.
  revert c. induction es as [|e es IH]; intros c; [done|].
  destruct (decide (e = Ping)) as [->|Hne].
  - rewrite filter_cons_False by naive_solver. by destruct c; cbn.
  - rewrite filter_cons_True by done. cbn. destruct (client_step c e); [apply IH|done].
Qed.

Lemma text_open_false m :
  text_open m = false ↔ ∀ i, m_open m !! i ≠ Some KindText.
Proof.
  unfold text_open. rewrite <- not_true_iff_false, existsb_exists. split.
  - intros Hn i Hi. apply Hn. exists (i, KindText).
    split; [by apply list_elem_of_In, elem_of_map_to_list|by rewrite bool_decide_eq_true_2].
  - intros Hall ([i k] & Hin & Hk%bool_decide_eq_true_1). cbn in Hk. subst k.
    apply list_elem_of_In, elem_of_map_to_list in Hin. by apply (Hall i).
Qed.

(** ** Backend streams the protocol asks for

    The first fragment of a tool call must carry its identifier and its name, as the OpenAI
    protocol says it does, and nothing may follow the end of the stream but chunks without
    choices, such as the final usage. *)

Definition item_choice (item : chunk_item) : option ChunkChoice :=
  match item with Ok ck => head (ck_choices ck) | Err _ => None end.
Definition choice_tools (c : ChunkChoice) : list ChunkToolCall := default [] (d_tool_calls (cc_delta c)).

Definition silent (item : chunk_item) : bool :=
  match item with Ok ck => match ck_choices ck with [] => true | _ => false end | Err _ => false end.

Fixpoint announce (seen : gset N) (tcs : list ChunkToolCall) : option (gset N) :=
  match tcs with
  | [] => Some seen
  | tc :: rest =>
      if bool_decide (tc_index tc ∈ seen) then announce seen rest
      else match tool_announced tc with
           | Some _ => announce ({[tc_index tc]} ∪ seen) rest
           | None => None
           end
  end.

Fixpoint orderly (seen : gset N) (stream : list chunk_item) : bool :=
  match stream with
  | [] => true
  | item :: rest =>
      match item, item_choice item with
      | Err _, _ => forallb silent rest
      | Ok _, None => orderly seen rest
      | Ok _, Some c =>
          match announce seen (choice_tools c) with
          | None => false
          | Some seen' => match cc_finish_reason c with
                          | Some _ => forallb silent rest
                          | None => orderly seen' rest
                          end
          end
      end
  end.

(** Whether the stream says that it is over. *)
Definition concludes (item : chunk_item) : bool :=
  match item, item_choice item with
  | Err _, _ => true
  | Ok _, Some c => match cc_finish_reason c with Some _ => true | None => false end
  | Ok _, None => false
  end.
Definition concluded (stream : list chunk_item) : bool := existsb concludes stream.

(** A bound on the blocks a stream opens. *)
Definition demand (stream : list chunk_item) : N :=
  foldr (λ item n, match item_choice item with
                   | Some c => 1 + N.of_nat (length (choice_tools c)) + n
                   | None => n
                   end)%N 0%N stream.

(** ** The simulation *)

(** A state of the machine whose tool blocks have all been opened, and the message of the
    client that has read its events. *)
Record sim (s : StreamState) (seen : gset N) (m : message) : Prop := mkSim {
  sim_ended : m_ended m = false;
  sim_floor : m_floor m = next_block_index s;
  sim_seen : ∀ i, i ∈ seen ↔ is_Some (tool_blocks s !! i);
  sim_text : ∀ i, m_open m !! i = Some KindText ↔ text_block_index s = Some i;
  sim_tool : ∀ i, m_open m !! i = Some KindTool ↔ ∃ o, tool_blocks s !! o = Some (i, true);
  sim_started : ∀ o i b, tool_blocks s !! o = Some (i, b) → b = true;
  sim_below : ∀ i, is_Some (m_open m !! i) → (i < next_block_index s)%N;
  sim_inj : ∀ o o' i b b', tool_blocks s !! o = Some (i, b) → tool_blocks s !! o' = Some (i, b') → o = o'
}.

Lemma sim_new : sim StreamState_new ∅ (mkMsg ∅ 0 false).
Proof.
  split; cbn; intros *; rewrite ?lookup_empty, ?is_Some_alt; try set_solver.
Qed.

(** Only the fields the client sees matter. *)
Lemma sim_same s s' seen m :
  text_block_index s' = text_block_index s → tool_blocks s' = tool_blocks s →
  next_block_index s' = next_block_index s → sim s seen m → sim s' seen m.
Proof. intros E1 E2 E3 []. split; rewrite ?E1, ?E2, ?E3; done. Qed.

Lemma alloc_next s : (next_block_index s < u32_max)%N → u32_saturating_add (next_block_index s) 1 = (next_block_index s + 1)%N.
Proof. unfold u32_saturating_add. lia. Qed.

Lemma sim_not_open s seen m i : sim s seen m → (next_block_index s <= i)%N → m_open m !! i = None.
Proof.
  intros Hs Hi. apply eq_None_not_Some. intros Hopen. apply (sim_below _ _ _ Hs) in Hopen. lia.
Qed.

(** Text opens its block when none is open. *)
Lemma on_text_sim s seen m text :
  sim s seen m → (next_block_index s < u32_max)%N →
  ∃ m', client_run (Receiving m) (on_text s text).1 = Some (Receiving m')
        ∧ sim (on_text s text).2 seen m'
        ∧ (next_block_index (on_text s text).2 <= next_block_index s + 1)%N.
Proof.
  intros Hs Hlt. unfold on_text. cbn [add_tokens text_block_index].
  destruct (text_block_index s) as [idx|] eqn:Et; cbn.
  - unfold delta_block. rewrite bool_decide_eq_true_2 by (by apply (sim_text _ _ _ Hs)). cbn.
    exists m. split_and!; [done| |lia]. by apply (sim_same s).
  - assert (Hto : text_open m = false).
    { apply text_open_false. intros i Hi. apply (sim_text _ _ _ Hs) in Hi. congruence. }
    unfold start_block. rewrite (sim_ended _ _ _ Hs), Hto, (sim_floor _ _ _ Hs), N.leb_refl. cbn.
    unfold delta_block. cbn. rewrite bool_decide_eq_true_2 by apply lookup_insert_eq. cbn.
    eexists. split; [done|]. rewrite alloc_next by done. split; [|lia].
    pose proof (sim_not_open _ _ _ _ Hs (N.le_refl _)) as Hfresh.
    split; cbn; try done.
    + apply (sim_seen _ _ _ Hs).
    + intros i. destruct (decide (i = next_block_index s)) as [->|Hne].
      * rewrite lookup_insert_eq. naive_solver.
      * rewrite lookup_insert_ne by done. rewrite (sim_text _ _ _ Hs), Et. naive_solver.
    + intros i. destruct (decide (i = next_block_index s)) as [->|Hne].
      * rewrite lookup_insert_eq. split; [done|].
        intros Hex. apply (sim_tool _ _ _ Hs) in Hex. congruence.
      * rewrite lookup_insert_ne by done. apply (sim_tool _ _ _ Hs).
    + apply (sim_started _ _ _ Hs).
    + intros i. destruct (decide (i = next_block_index s)) as [->|Hne]; [lia|].
      rewrite lookup_insert_ne by done. intros Hi%(sim_below _ _ _ Hs). lia.
    + apply (sim_inj _ _ _ Hs).
Qed.

(** A block that starts at the next index, with the text block gone. *)
Lemma sim_open_tool s seen m o :
  sim s seen m → text_block_index s = None → tool_blocks s !! o = None →
  (next_block_index s < u32_max)%N →
  sim (with_tool (alloc_block s).2 o (next_block_index s, true)) ({[o]} ∪ seen)
    (mkMsg (<[next_block_index s := KindTool]> (m_open m)) (next_block_index s + 1) false).
Proof.
  intros Hs Et Ho Hlt. pose proof (sim_not_open _ _ _ _ Hs (N.le_refl _)) as Hfresh.
  assert (Hnew : ∀ o' b, tool_blocks s !! o' ≠ Some (next_block_index s, b)).
  { intros o' b Ho'. pose proof (sim_started _ _ _ Hs _ _ _ Ho') as ->.
    assert (m_open m !! next_block_index s = Some KindTool) by (apply (sim_tool _ _ _ Hs); eauto).
    congruence. }
  split; cbn; rewrite ?alloc_next by done; [done|done| | | | | |].
  - intros i. rewrite elem_of_union, elem_of_singleton, (sim_seen _ _ _ Hs), lookup_insert_is_Some.
    destruct (decide (i = o)); naive_solver.
  - intros i. rewrite lookup_insert_Some, (sim_text _ _ _ Hs), Et. naive_solver.
  - intros i. rewrite lookup_insert_Some. setoid_rewrite lookup_insert_Some. split.
    + intros [[<- _]|[Hne (o' & Ho')%(sim_tool _ _ _ Hs)]]; [exists o; naive_solver|].
      exists o'. right. split; [by intros <-; congruence|done].
    + intros (o' & [[-> [= <-]]|[Hne Ho']]); [by left|]. right. split.
      * intros <-. by apply (Hnew o' true).
      * apply (sim_tool _ _ _ Hs). eauto.
  - intros o' i b [[-> [= <- <-]]|[_ Ho']]%lookup_insert_Some; [done|]. by apply (sim_started _ _ _ Hs _ _ _ Ho').
  - intros i [->|[_ Hi]]%lookup_insert_is_Some; [lia|]. apply (sim_below _ _ _ Hs) in Hi. lia.
  - intros o1 o2 i b b' [[E1 E1']|[H1 E1]]%lookup_insert_Some
      [[E2 E2']|[H2 E2]]%lookup_insert_Some; simplify_eq; [done| | |].
    + by destruct (Hnew o2 b').
    + by destruct (Hnew o1 b).
    + by apply (sim_inj _ _ _ Hs _ _ _ _ _ E1 E2).
Qed.

(** Closing the text block. *)
Lemma sim_close_text s seen m idx :
  sim s seen m → text_block_index s = Some idx →
  client_step (Receiving m) (BlockStop idx)
  = Some (Receiving (mkMsg (delete idx (m_open m)) (m_floor m) (m_ended m)))
  ∧ sim (with_text s None) seen (mkMsg (delete idx (m_open m)) (m_floor m) (m_ended m)).
Proof.
  intros Hs Et. pose proof (proj2 (sim_text _ _ _ Hs idx) Et) as Hidx.
  split; [cbn; by rewrite Hidx|].
  split; cbn; [apply Hs|apply Hs|apply Hs| | |apply (sim_started _ _ _ Hs)| |apply (sim_inj _ _ _ Hs)].
  - intros i. rewrite lookup_delete_Some, (sim_text _ _ _ Hs), Et. naive_solver.
  - intros i. rewrite lookup_delete_Some, (sim_tool _ _ _ Hs). split; [naive_solver|].
    intros Hex. split; [|done]. intros <-. apply (sim_tool _ _ _ Hs) in Hex. congruence.
  - intros i [_ Hi]%lookup_delete_is_Some. by apply (sim_below _ _ _ Hs).
Qed.

(** A fragment of a tool call whose index is known or which announces itself. *)
Lemma on_tool_call_sim s seen m tc seen' :
  sim s seen m → (next_block_index s < u32_max)%N → announce seen [tc] = Some seen' →
  ∃ m', client_run (Receiving m) (on_tool_call s tc).1 = Some (Receiving m')
        ∧ sim (on_tool_call s tc).2 seen' m'
        ∧ (next_block_index (on_tool_call s tc).2 <= next_block_index s + 1)%N.
Proof.
  intros Hs Hlt Han. unfold on_tool_call, register_tool. cbn [announce] in Han.
  destruct (tool_blocks s !! tc_index tc) as [[aidx st]|] eqn:Eo.
  - rewrite bool_decide_eq_true_2 in Han by (apply (sim_seen _ _ _ Hs); eauto).
    injection Han as <-. rewrite Eo. pose proof (sim_started _ _ _ Hs _ _ _ Eo) as ->.
    assert (m_open m !! aidx = Some KindTool) as Hopen by (apply (sim_tool _ _ _ Hs); eauto).
    destruct (tool_arguments tc) as [args|]; cbn.
    + unfold delta_block. rewrite bool_decide_eq_true_2 by done. cbn.
      exists m. split_and!; [done|by apply (sim_same s)|lia].
    + exists m. split_and!; [done|done|lia].
  - rewrite bool_decide_eq_false_2 in Han
      by (rewrite (sim_seen _ _ _ Hs), Eo; by intros [? ?]).
    destruct (tool_announced tc) as [[id nm]|] eqn:Ea; [|done]. injection Han as <-.
    assert (∃ m0, client_run (Receiving m) (BlockStop <$> option_list (text_block_index s))
                  = Some (Receiving m0) ∧ sim (with_text s None) seen m0) as (m0 & Hrun & Hs0).
    { destruct (text_block_index s) as [idx|] eqn:Et.
      - destruct (sim_close_text _ _ _ _ Hs Et) as [Hstep Hs0]. eexists. split; [|exact Hs0].
        change (client_run (Receiving m) [BlockStop idx] = Some (Receiving
          (mkMsg (delete idx (m_open m)) (m_floor m) (m_ended m)))).
        cbn [client_run]. by rewrite Hstep.
      - exists m. split; [done|]. by apply (sim_same s). }
    cbn. rewrite lookup_insert_eq.
    assert (Hstart : client_step (Receiving m0) (ToolStart (next_block_index s) id nm)
      = Some (Receiving (mkMsg (<[next_block_index s := KindTool]> (m_open m0))
                           (next_block_index s + 1) false))).
    { cbn. unfold start_block. rewrite (sim_ended _ _ _ Hs0), (sim_floor _ _ _ Hs0). cbn.
      rewrite N.leb_refl. replace (text_open m0) with false; [done|]. symmetry.
      apply text_open_false. intros i Hi. by apply (sim_text _ _ _ Hs0) in Hi. }
    pose proof (sim_open_tool _ _ _ (tc_index tc) Hs0 eq_refl Eo Hlt) as Hs1.
    destruct (tool_arguments tc) as [args|]; cbn.
    + rewrite client_run_app, Hrun. cbn [mbind option_bind client_run app]. rewrite Hstart.
      cbn. unfold delta_block. cbn. rewrite bool_decide_eq_true_2 by apply lookup_insert_eq. cbn.
      eexists. split; [done|]. rewrite alloc_next by done. split; [|lia].
      eapply sim_same; [..|exact Hs1]; cbn; rewrite ?alloc_next by done; try done.
      by rewrite insert_insert_eq.
    + rewrite client_run_app, Hrun. cbn [mbind option_bind client_run app]. rewrite Hstart.
      eexists. split; [done|]. rewrite alloc_next by done. split; [|lia].
      eapply sim_same; [..|exact Hs1]; cbn; rewrite ?alloc_next by done; try done.
      by rewrite insert_insert_eq.
Qed.

Lemma announce_cons seen tc tcs seen' :
  announce seen (tc :: tcs) = Some seen' →
  ∃ seen1, announce seen [tc] = Some seen1 ∧ announce seen1 tcs = Some seen'.
Proof.
  cbn. case_bool_decide; [by eauto|]. destruct (tool_announced tc); [by eauto|done].
Qed.

Lemma on_tool_calls_sim s seen m tcs seen' :
  sim s seen m → (next_block_index s + N.of_nat (length tcs) <= u32_max)%N →
  announce seen tcs = Some seen' →
  ∃ m', client_run (Receiving m) (on_tool_calls s tcs).1 = Some (Receiving m')
        ∧ sim (on_tool_calls s tcs).2 seen' m'
        ∧ (next_block_index (on_tool_calls s tcs).2 <= next_block_index s + N.of_nat (length tcs))%N.
Proof.
  revert s seen m. induction tcs as [|tc tcs IH]; intros s seen m Hs Hlt Han; cbn [on_tool_calls].
  - injection Han as <-. exists m. split_and!; [done|done|cbn; lia].
  - apply announce_cons in Han as (seen1 & Han1 & Han2). cbn [length] in *.
    destruct (on_tool_call_sim _ _ _ tc seen1 Hs ltac:(lia) Han1) as (m1 & Hr1 & Hs1 & Hn1).
    destruct (on_tool_call s tc) as [ev s1]. cbn [fst snd] in *.
    destruct (IH s1 seen1 m1 Hs1 ltac:(lia) Han2) as (m2 & Hr2 & Hs2 & Hn2).
    destruct (on_tool_calls s1 tcs) as [evs s2]. cbn [fst snd] in *.
    exists m2. rewrite client_run_app, Hr1. split_and!; [exact Hr2|done|lia].
Qed.

(** ** Closing *)

Lemma vec_dedup_NoDup l : NoDup l → vec_dedup l = l.
Proof.
  induction 1 as [|x l Hx Hl IH]; [done|]. cbn [vec_dedup]. rewrite IH. destruct l as [|y l]; [done|].
  cbv beta iota.
  destruct (N.eqb_spec x y) as [->|]; [set_solver|done].
Qed.

Lemma elem_of_option_list {A} (o : option A) x : x ∈ option_list o ↔ o = Some x.
Proof. destruct o as [y|]; cbn; set_solver. Qed.

(** Stopping every open block, in any order. *)
Lemma client_run_stops m l :
  NoDup l → (∀ i, i ∈ l ↔ is_Some (m_open m !! i)) →
  client_run (Receiving m) (BlockStop <$> l) = Some (Receiving (mkMsg ∅ (m_floor m) (m_ended m))).
Proof.
  intros Hnd. revert m. induction Hnd as [|i l Hi Hnd IH]; intros m Hm; cbn.
  - destruct m as [op fl en]. do 3 f_equal. apply map_empty. intros i. cbn in *.
    apply eq_None_not_Some. rewrite <- Hm. set_solver.
  - rewrite bool_decide_eq_true_2 by (apply Hm; set_solver). cbn. rewrite IH; [done|].
    intros j. cbn. rewrite lookup_delete_is_Some, <- Hm. set_solver.
Qed.

Lemma elem_of_to_close s seen m i :
  sim s seen m → i ∈ to_close s ↔ is_Some (m_open m !! i).
Proof.
  intros Hs. unfold to_close. rewrite elem_of_app, elem_of_option_list, list_elem_of_omap.
  rewrite <- (sim_text _ _ _ Hs). split.
  - intros [Ht|([a st] & Hin & Hst)]; [eauto|]. cbn in Hst. destruct st; [|done].
    injection Hst as ->. apply list_elem_of_fmap in Hin as ([o b] & E & Hin).
    apply elem_of_map_to_list in Hin. cbn in E. subst b. exists KindTool. apply (sim_tool _ _ _ Hs). eauto.
  - intros [[] Hk]; [by left|right]. apply (sim_tool _ _ _ Hs) in Hk as (o & Ho).
    exists (i, true). split; [|done]. apply list_elem_of_fmap. exists (o, (i, true)).
    split; [done|]. by apply elem_of_map_to_list.
Qed.

Lemma NoDup_to_close s seen m : sim s seen m → NoDup (to_close s).
Proof.
  intros Hs. unfold to_close. apply NoDup_app. split_and!.
  - destruct (text_block_index s); cbn; [apply NoDup_singleton|constructor].
  - intros i Hi%elem_of_option_list Hin. apply (sim_text _ _ _ Hs) in Hi.
    apply list_elem_of_omap in Hin as ([a st] & Hin & Hst). cbn in Hst. destruct st; [|done].
    injection Hst as ->. apply list_elem_of_fmap in Hin as ([o b] & E & Hin). cbn in E. subst b.
    apply elem_of_map_to_list in Hin.
    assert (m_open m !! i = Some KindTool) by (apply (sim_tool _ _ _ Hs); eauto). congruence.
  - assert (Hall : ∀ l, NoDup l.*1 → (∀ kb, kb ∈ l → tool_blocks s !! kb.1 = Some kb.2) →
      NoDup (omap (λ b : N * bool, if b.2 then Some b.1 else None) l.*2)).
    { induction l as [|[o [a st]] l IH]; intros Hnd Hl; [constructor|].
      cbn in Hnd. apply NoDup_cons in Hnd as [Ho Hnd].
      assert (IH' := IH Hnd (λ kb H, Hl kb (list_elem_of_further _ _ _ H))).
      cbn. destruct st; cbn; [|done]. apply NoDup_cons. split; [|done].
      intros ([a' st'] & Hin & Hst)%list_elem_of_omap. cbn in Hst. destruct st'; [|done].
      injection Hst as ->. apply list_elem_of_fmap in Hin as ([o' b'] & E & Hin). cbn in E. subst b'.
      pose proof (Hl _ (list_elem_of_here _ _)) as H1. cbn in H1.
      pose proof (Hl _ (list_elem_of_further _ _ _ Hin)) as H2. cbn in H2.
      pose proof (sim_inj _ _ _ Hs _ _ _ _ _ H1 H2) as ->. apply Ho.
      apply list_elem_of_fmap. by exists (o', (a, true)). }
    apply Hall; [apply NoDup_fst_map_to_list|]. intros [o b]. apply elem_of_map_to_list.
Qed.

Lemma close_open_blocks_sim s seen m :
  sim s seen m →
  client_run (Receiving m) (close_open_blocks s).1 = Some (Receiving (mkMsg ∅ (m_floor m) false)).
Proof.
  intros Hs. cbn. rewrite <- (sim_ended _ _ _ Hs). rewrite vec_dedup_NoDup.
  - apply client_run_stops.
    + rewrite merge_sort_Permutation. by eapply NoDup_to_close.
    + intros i. rewrite merge_sort_Permutation. by eapply elem_of_to_close.
  - rewrite merge_sort_Permutation. by eapply NoDup_to_close.
Qed.

(** ** Chunks and streams *)

Lemma process_choice_sim s seen m c seen' :
  sim s seen m →
  (next_block_index s + 1 + N.of_nat (length (choice_tools c)) <= u32_max)%N →
  announce seen (choice_tools c) = Some seen' →
  match cc_finish_reason c with
  | Some _ => client_run (Receiving m) (process_choice s c).1 = Some Stopped
  | None => ∃ m', client_run (Receiving m) (process_choice s c).1 = Some (Receiving m')
                  ∧ sim (process_choice s c).2 seen' m'
                  ∧ (next_block_index (process_choice s c).2
                     <= next_block_index s + 1 + N.of_nat (length (choice_tools c)))%N
  end.
Proof.
  intros Hs Hlt Han. unfold process_choice.
  set (s0 := match cc_finish_reason c with Some reason => with_finish s (Some reason) | None => s end).
  assert (Hs0 : sim s0 seen m) by (subst s0; destruct (cc_finish_reason c); [by apply (sim_same s)|done]).
  assert (Hn0 : next_block_index s0 = next_block_index s) by (subst s0; by destruct (cc_finish_reason c)).
  destruct (match nonempty_text (d_content (cc_delta c)) with
            | Some text => on_text s0 text | None => ([], s0) end) as [ev1 s1] eqn:E1.
  assert (∃ m1, client_run (Receiving m) ev1 = Some (Receiving m1) ∧ sim s1 seen m1
                ∧ (next_block_index s1 <= next_block_index s + 1)%N) as (m1 & Hr1 & Hs1 & Hn1).
  { destruct (nonempty_text _) as [text|].
    - destruct (on_text_sim s0 seen m text Hs0 ltac:(lia)) as (m1 & ? & ? & ?).
      rewrite E1 in *. cbn in *. exists m1. split_and!; [done|done|lia].
    - injection E1 as <- <-. exists m. split_and!; [done|done|lia]. }
  destruct (on_tool_calls_sim s1 seen m1 (choice_tools c) seen' Hs1 ltac:(lia) Han) as (m2 & Hr2 & Hs2 & Hn2).
  fold (choice_tools c).
  destruct (on_tool_calls s1 (choice_tools c)) as [ev2 s2]. cbn [fst snd] in *.
  destruct (cc_finish_reason c) as [reason|]; cbn [fst snd].
  - pose proof (close_open_blocks_sim _ _ _ Hs2) as Hr3.
    destruct (close_open_blocks s2) as [ev3 s3]. cbn [fst snd] in *.
    rewrite !client_run_app, Hr1. cbn [mbind option_bind]. rewrite !client_run_app, Hr2.
    cbn [mbind option_bind]. rewrite client_run_app, Hr3. cbn. done.
  - rewrite client_run_app, Hr1. cbn [mbind option_bind]. rewrite Hr2.
    exists m2. split_and!; [done|done|lia].
Qed.

Lemma scan_silent s stream : forallb silent stream = true → (scan_chunks s stream).1 = [].
Proof.
  revert s. induction stream as [|item stream IH]; intros s; [done|]. cbn.
  rewrite andb_true_iff. intros [Hi Hs]. destruct item as [ck|]; cbn in *; [|done].
  destruct (ck_choices ck); [|done]. specialize (IH s Hs).
  by destruct (scan_chunks s stream).
Qed.

Lemma scan_chunks_sim s seen m stream :
  sim s seen m → (next_block_index s + demand stream <= u32_max)%N → orderly seen stream = true →
  if concluded stream
  then client_run (Receiving m) (scan_chunks s stream).1 = Some Stopped
  else ∃ m', client_run (Receiving m) (scan_chunks s stream).1 = Some (Receiving m')
             ∧ m_ended m' = false.
Proof.
  revert s seen m. induction stream as [|item stream IH]; intros s seen m Hs Hlt Hord.
  - exists m. split; [done|apply Hs].
  - cbn [scan_chunks]. unfold concluded. cbn [existsb orderly demand foldr] in *.
    fold (demand stream) (concluded stream) in *.
    destruct item as [ck|e]; cbn [concludes item_choice process_chunk] in *.
    + destruct (ck_choices ck) as [|c cs]; cbn [head] in *.
      * specialize (IH s seen m Hs Hlt Hord). cbn [orb]. by destruct (scan_chunks s stream).
      * destruct (announce seen (choice_tools c)) as [seen'|] eqn:Han; [|done].
        pose proof (process_choice_sim s seen m c seen' Hs ltac:(lia) Han) as Hc.
        destruct (process_choice s c) as [ev s1]. cbn [fst snd] in *.
        destruct (cc_finish_reason c); cbn [orb].
        -- pose proof (scan_silent s1 stream Hord) as Hsil.
           destruct (scan_chunks s1 stream) as [evs s2]. cbn [fst] in *. subst evs.
           by rewrite app_nil_r.
        -- destruct Hc as (m' & Hr & Hs' & Hn).
           specialize (IH s1 seen' m' Hs' ltac:(lia) Hord).
           destruct (scan_chunks s1 stream) as [evs s2]. cbn [fst] in *.
           rewrite client_run_app, Hr. done.
    + cbn [orb]. pose proof (close_open_blocks_sim _ _ _ Hs) as Hr.
      destruct (close_open_blocks s) as [ev s1]. cbn [fst] in *.
      pose proof (scan_silent s1 stream Hord) as Hsil.
      destruct (scan_chunks s1 stream) as [evs s2]. cbn [fst] in *. subst evs.
      rewrite app_nil_r, client_run_app, Hr. done.
Qed.
