(* ===== verification/StreamContent.v ===== *)
(** * StreamContent: nothing a backend says is lost

    The texts and the tool arguments of a stream of chunks are those of the events the
    gateway makes of it, whatever the chunks, and each tool call keeps a block of its own. *)

From S2P Require Import Prelude Text GatewayTypes Translate AnthropicStream StreamProtocol.

#[local] Open Scope nat_scope.

(** The texts and the tool arguments of a stream, and those of its events. *)

Definition event_text (e : sse_event) : option ustr := match e with TextDelta _ t => Some t | _ => None end.
Definition texts (es : list sse_event) : ustr := concat (omap event_text es).
Definition event_args (idx : N) (e : sse_event) : option ustr :=
  match e with InputJsonDelta i a => if (i =? idx)%N then Some a else None | _ => None end.
Definition args_at (idx : N) (es : list sse_event) : ustr := concat (omap (event_args idx) es).

Definition item_text (item : chunk_item) : ustr :=
  match item_choice item with Some c => default [] (d_content (cc_delta c)) | None => [] end.
Definition stream_text (stream : list chunk_item) : ustr := concat (item_text <$> stream).

Definition call_args (o : N) (tc : ChunkToolCall) : ustr :=
  if (tc_index tc =? o)%N
  then match tc_function tc with Some f => default [] (cf_arguments f) | None => [] end else [].
Definition item_args (o : N) (item : chunk_item) : ustr :=
  match item_choice item with Some c => concat (call_args o <$> choice_tools c) | None => [] end.
Definition stream_args (o : N) (stream : list chunk_item) : ustr := concat (item_args o <$> stream).

Lemma texts_app a b : texts (a ++ b) = texts a ++ texts b.
Proof. unfold texts. by rewrite omap_app, concat_app. Qed.
Lemma args_at_app i a b : args_at i (a ++ b) = args_at i a ++ args_at i b.
Proof. unfold args_at. by rewrite omap_app, concat_app. Qed.

(** The blocks of a state are apart and below its counter. *)
Record blocks_ok (s : StreamState) : Prop := mkBlocksOk {
  blocks_below : ∀ o a b, tool_blocks s !! o = Some (a, b) → (a < next_block_index s)%N;
  blocks_inj : ∀ o o' a b b', tool_blocks s !! o = Some (a, b) → tool_blocks s !! o' = Some (a, b') → o = o'
}.

(** A stretch of the machine that carries [t] of text and [f o] of the arguments of the
    tool call [o], and takes at most [n] blocks. *)
Record carries (s : StreamState) (n : N) (t : ustr) (f : N → ustr) (ev : list sse_event)
    (s' : StreamState) : Prop := mkCarries {
  carries_ok : blocks_ok s';
  carries_next : (next_block_index s <= next_block_index s' <= next_block_index s + n)%N;
  carries_old : ∀ o a b, tool_blocks s !! o = Some (a, b) → ∃ b', tool_blocks s' !! o = Some (a, b');
  carries_new : ∀ o a b, tool_blocks s !! o = None → tool_blocks s' !! o = Some (a, b) →
                         (next_block_index s <= a)%N;
  carries_text : texts ev = t;
  carries_args : ∀ o a b, tool_blocks s' !! o = Some (a, b) → args_at a ev = f o;
  carries_none : ∀ o, tool_blocks s' !! o = None → f o = [];
  carries_above : ∀ a, (next_block_index s' <= a)%N → args_at a ev = []
}.

Lemma carries_nil s : blocks_ok s → carries s 0 [] (λ _, []) [] s.
Proof. intros Hs. split; try done; [lia|by eauto|congruence]. Qed.

Lemma carries_trans s n1 t1 f1 ev1 s1 n2 t2 f2 ev2 s2 :
  carries s n1 t1 f1 ev1 s1 → carries s1 n2 t2 f2 ev2 s2 →
  carries s (n1 + n2) (t1 ++ t2) (λ o, f1 o ++ f2 o) (ev1 ++ ev2) s2.
Proof.
  intros C1 C2. pose proof (carries_next _ _ _ _ _ _ C1). pose proof (carries_next _ _ _ _ _ _ C2).
  split.
  - apply C2.
  - lia.
  - intros o a b Ho. destruct (carries_old _ _ _ _ _ _ C1 _ _ _ Ho) as [b1 H1].
    apply (carries_old _ _ _ _ _ _ C2 _ _ _ H1).
  - intros o a b Ho H2. destruct (tool_blocks s1 !! o) as [[a1 b1]|] eqn:E1.
    + pose proof (carries_new _ _ _ _ _ _ C1 _ _ _ Ho E1) as Hle.
      destruct (carries_old _ _ _ _ _ _ C2 _ _ _ E1) as [b2 E2]. congruence.
    + pose proof (carries_new _ _ _ _ _ _ C2 _ _ _ E1 H2). lia.
  - by rewrite texts_app, (carries_text _ _ _ _ _ _ C1), (carries_text _ _ _ _ _ _ C2).
  - intros o a b H2. rewrite args_at_app. f_equal; [|by eapply carries_args].
    destruct (tool_blocks s1 !! o) as [[a1 b1]|] eqn:E1.
    + destruct (carries_old _ _ _ _ _ _ C2 _ _ _ E1) as [b2 E2].
      assert (a1 = a) as -> by congruence. by eapply (carries_args _ _ _ _ _ _ C1).
    + rewrite (carries_none _ _ _ _ _ _ C1 _ E1). apply (carries_above _ _ _ _ _ _ C1).
      apply (carries_new _ _ _ _ _ _ C2 _ _ _ E1 H2).
  - intros o H2. rewrite (carries_none _ _ _ _ _ _ C2 _ H2).
    rewrite (carries_none _ _ _ _ _ _ C1); [done|].
    destruct (tool_blocks s1 !! o) as [[a1 b1]|] eqn:E1; [|done].
    destruct (carries_old _ _ _ _ _ _ C2 _ _ _ E1). congruence.
  - intros a Ha. rewrite args_at_app, (carries_above _ _ _ _ _ _ C2 _ Ha).
    by rewrite (carries_above _ _ _ _ _ _ C1) by lia.
Qed.

Lemma carries_ext s n t f f' ev s' : (∀ o, f o = f' o) → carries s n t f ev s' → carries s n t f' ev s'.
Proof. intros Hf [H1 H2 H3 H4 H5 H6 H7 H8]. split; try done; intros; rewrite <- Hf; eauto. Qed.

(** Stretches that leave the blocks alone. *)
Lemma carries_quiet s s' t ev :
  blocks_ok s → tool_blocks s' = tool_blocks s →
  (next_block_index s <= next_block_index s' <= next_block_index s + 1)%N →
  texts ev = t → (∀ a, args_at a ev = []) → carries s 1 t (λ _, []) ev s'.
Proof.
  intros Hs E Hn Ht Ha. split; rewrite ?E; try done; eauto; [|congruence].
  split; rewrite ?E; [|apply Hs]. intros o a b Ho%(blocks_below _ Hs). lia.
Qed.

Lemma texts_stops l : texts (BlockStop <$> l) = [].
Proof. induction l; [done|]. by cbn. Qed.
Lemma args_at_stops i l : args_at i (BlockStop <$> l) = [].
Proof. induction l; [done|]. by cbn. Qed.

Lemma on_text_carries s text :
  blocks_ok s → (next_block_index s < u32_max)%N →
  carries s 1 text (λ _, []) (on_text s text).1 (on_text s text).2.
Proof.
  intros Hs Hlt. unfold on_text. cbn [add_tokens text_block_index].
  destruct (text_block_index s); cbn; apply carries_quiet; cbn; rewrite ?alloc_next by done; try done; try lia;
    unfold texts; cbn; by rewrite app_nil_r.
Qed.

(** The block of a fragment, once it is registered. *)
Lemma register_tool_carries s o :
  blocks_ok s → (next_block_index s < u32_max)%N →
  carries s 1 [] (λ _, []) (register_tool s o).1 (register_tool s o).2
  ∧ ∃ a b, tool_blocks (register_tool s o).2 !! o = Some (a, b).
Proof.
  intros Hs Hlt. unfold register_tool.
  destruct (tool_blocks s !! o) as [[a b]|] eqn:Eo.
  - cbn. split; [apply carries_quiet; try done; lia|by eauto].
  - cbn [alloc_block]. cbn -[fmap]. split; [|eexists _, _; apply lookup_insert_eq].
    rewrite !alloc_next by done. split; cbn.
    + split; cbn; rewrite ?alloc_next by done.
      * intros o' a b [[_ [= <- _]]|[_ H']]%lookup_insert_Some; [lia|]. apply (blocks_below _ Hs) in H'. lia.
      * intros o1 o2 a b b' [[E1 E1']|[H1 E1]]%lookup_insert_Some
          [[E2 E2']|[H2 E2]]%lookup_insert_Some; simplify_eq; [done| | |by eapply blocks_inj].
        -- apply (blocks_below _ Hs) in E2. lia.
        -- apply (blocks_below _ Hs) in E1. lia.
    + rewrite ?alloc_next by done. lia.
    + intros o' a b Ho'. exists b. rewrite lookup_insert_ne; [done|]. congruence.
    + intros o' a b Ho' [[-> [= <- _]]|[_ H']]%lookup_insert_Some; [lia|congruence].
    + apply texts_stops.
    + intros o' a b _. apply args_at_stops.
    + done.
    + intros. apply args_at_stops.
Qed.

Lemma blocks_ok_same s s' :
  tool_blocks s' = tool_blocks s → next_block_index s' = next_block_index s → blocks_ok s → blocks_ok s'.
Proof. intros E1 E2 []. split; rewrite E1, ?E2; done. Qed.

(** Marking a block as started keeps its index. *)
Lemma with_tool_carries s o a b b' :
  blocks_ok s → tool_blocks s !! o = Some (a, b) →
  ∀ ev, texts ev = [] → (∀ i, args_at i ev = []) →
  carries s 0 [] (λ _, []) ev (with_tool s o (a, b')).
Proof.
  intros Hs Ho ev Ht Ha.
  assert (Hl : ∀ o1 a1 b1, tool_blocks (with_tool s o (a, b')) !! o1 = Some (a1, b1) →
                           ∃ b2, tool_blocks s !! o1 = Some (a1, b2)).
  { cbn. intros o1 a1 b1 [[-> [= -> _]]|[_ H1]]%lookup_insert_Some; eauto. }
  split; cbn; try done; [|lia| |].
  - split.
    + intros o1 a1 b1 [b2 H2]%Hl. cbn. by apply (blocks_below _ Hs) in H2.
    + intros o1 o2 a1 b1 b2 [b3 H3]%Hl [b4 H4]%Hl. by eapply blocks_inj.
  - intros o1 a1 b1 H1. destruct (decide (o = o1)) as [<-|Hne].
    + rewrite lookup_insert_eq. assert (a1 = a) as -> by congruence. eauto.
    + rewrite lookup_insert_ne by done. eauto.
  - intros o1 a1 b1 H1 [[-> _]|[_ H2]]%lookup_insert_Some; congruence.
Qed.

(** The argument fragment of a registered call. *)
Lemma args_carries s o a b args :
  blocks_ok s → tool_blocks s !! o = Some (a, b) →
  carries s 0 [] (λ o', if (o =? o')%N then args else []) [InputJsonDelta a args] (add_tokens s args).
Proof.
  intros Hs Ho. split; cbn; try done; [by apply (blocks_ok_same s)|lia|by eauto|congruence| | |].
  - intros o' a' b' Ho'. unfold args_at. cbn.
    destruct (N.eqb_spec a a') as [<-|Hne], (N.eqb_spec o o') as [<-|Hno]; cbn; rewrite ?app_nil_r; try done.
    + by destruct Hno; eapply blocks_inj.
    + congruence.
  - intros o' Ho'. destruct (N.eqb_spec o o') as [<-|]; [congruence|done].
  - intros a' Ha'. unfold args_at. cbn. destruct (N.eqb_spec a a') as [<-|Hne]; [|done].
    apply (blocks_below _ Hs) in Ho. lia.
Qed.

Lemma call_args_eq o tc :
  call_args o tc = if (tc_index tc =? o)%N then default [] (tool_arguments tc) else [].
Proof.
  unfold call_args, tool_arguments. destruct (tc_index tc =? o)%N; [|done].
  destruct (tc_function tc) as [[n [[|c a]|]]|]; done.
Qed.

Lemma on_tool_call_carries s tc :
  blocks_ok s → (next_block_index s < u32_max)%N →
  carries s 1 [] (λ o, call_args o tc) (on_tool_call s tc).1 (on_tool_call s tc).2.
Proof.
  intros Hs Hlt. unfold on_tool_call.
  destruct (register_tool_carries s (tc_index tc) Hs Hlt) as [C0 (a & b & Ho)].
  destruct (register_tool s (tc_index tc)) as [ev0 s0]. cbn [fst snd] in *. rewrite Ho.
  pose proof (carries_ok _ _ _ _ _ _ C0) as Hs0.
  destruct (match (if b then None else tool_announced tc) with
            | Some (id, name) => ([ToolStart a id name], with_tool s0 (tc_index tc) (a, true))
            | None => ([], s0) end) as [ev1 s1] eqn:E1.
  assert (carries s0 0 [] (λ _, []) ev1 s1 ∧ ∃ b', tool_blocks s1 !! tc_index tc = Some (a, b'))
    as [C1 [b' Ho1]].
  { destruct (if b then None else tool_announced tc) as [[id nm]|]; injection E1 as <- <-.
    - split; [by eapply with_tool_carries|]. cbn. rewrite lookup_insert_eq. eauto.
    - split; [by apply carries_nil|eauto]. }
  pose proof (carries_ok _ _ _ _ _ _ C1) as Hs1.
  pose proof (carries_trans _ _ _ _ _ _ _ _ _ _ _ C0 C1) as C01.
  destruct (tool_arguments tc) as [args|] eqn:Ea; cbn [fst snd].
  - pose proof (carries_trans _ _ _ _ _ _ _ _ _ _ _ C01 (args_carries _ _ _ _ args Hs1 Ho1)) as C.
    rewrite app_assoc. eapply carries_ext; [|exact C]. intros o. by rewrite call_args_eq, Ea.
  - eapply carries_ext; [|exact C01]. intros o. rewrite call_args_eq, Ea. by destruct (_ =? _)%N.
Qed.

Lemma on_tool_calls_carries s tcs :
  blocks_ok s → (next_block_index s + N.of_nat (length tcs) <= u32_max)%N →
  carries s (N.of_nat (length tcs)) [] (λ o, concat (call_args o <$> tcs))
    (on_tool_calls s tcs).1 (on_tool_calls s tcs).2.
Proof.
  revert s. induction tcs as [|tc tcs IH]; intros s Hs Hlt; cbn [on_tool_calls length] in *.
  - by apply carries_nil.
  - pose proof (on_tool_call_carries s tc Hs ltac:(lia)) as C1.
    destruct (on_tool_call s tc) as [ev s1]. cbn [fst snd] in *.
    pose proof (carries_next _ _ _ _ _ _ C1). pose proof (carries_ok _ _ _ _ _ _ C1) as Hs1.
    specialize (IH s1 Hs1 ltac:(lia)). destruct (on_tool_calls s1 tcs) as [evs s2]. cbn [fst snd] in *.
    replace (N.of_nat (S (length tcs))) with (1 + N.of_nat (length tcs))%N by lia.
    apply (carries_trans _ _ _ _ _ _ _ _ _ _ _ C1 IH).
Qed.

(** The end of a message carries nothing. *)
Lemma carries_close s es :
  blocks_ok s → texts es = [] → (∀ a, args_at a es = []) →
  carries s 0 [] (λ _, []) ((close_open_blocks s).1 ++ es) (close_open_blocks s).2.
Proof.
  intros Hs Ht Ha.
  split; cbn [close_open_blocks fst snd with_text tool_blocks next_block_index]; try done;
    [by apply (blocks_ok_same s)|lia|by eauto|congruence| | |].
  - by rewrite texts_app, texts_stops, Ht.
  - intros. by rewrite args_at_app, args_at_stops, Ha.
  - intros. by rewrite args_at_app, args_at_stops, Ha.
Qed.

Lemma process_chunk_carries s item :
  blocks_ok s → (next_block_index s + demand [item] <= u32_max)%N →
  carries s (demand [item]) (item_text item) (λ o, item_args o item)
    (process_chunk s item).1 (process_chunk s item).2.
Proof.
  intros Hs Hlt. unfold demand in *. cbn [foldr] in *. unfold item_text, item_args.
  destruct item as [ck|e]; cbn [process_chunk item_choice] in *.
  - destruct (ck_choices ck) as [|c cs]; cbn [head fst snd] in *; [by apply carries_nil|].
    unfold process_choice.
    set (s0 := match cc_finish_reason c with Some reason => with_finish s (Some reason) | None => s end).
    assert (C0 : carries s 0 [] (λ _, []) [] s0).
    { destruct (carries_nil s Hs) as [H1 H2 H3 H4 H5 H6 H7 H8].
      subst s0. destruct (cc_finish_reason c); [|by apply carries_nil].
      split; try done. by apply (blocks_ok_same s). }
    pose proof (carries_next _ _ _ _ _ _ C0) as Hn0. pose proof (carries_ok _ _ _ _ _ _ C0) as Hs0.
    destruct (match nonempty_text (d_content (cc_delta c)) with
              | Some text => on_text s0 text | None => ([], s0) end) as [ev1 s1] eqn:E1.
    assert (C1 : carries s0 1 (default [] (d_content (cc_delta c))) (λ _, []) ev1 s1).
    { destruct (d_content (cc_delta c)) as [[|ch text]|]; cbn in E1 |- *.
      - injection E1 as <- <-. apply carries_quiet; try done. lia.
      - pose proof (on_text_carries s0 (ch :: text) Hs0 ltac:(lia)) as C. by rewrite E1 in C.
      - injection E1 as <- <-. apply carries_quiet; try done. lia. }
    pose proof (carries_next _ _ _ _ _ _ C1) as Hn1. pose proof (carries_ok _ _ _ _ _ _ C1) as Hs1.
    fold (choice_tools c).
    pose proof (on_tool_calls_carries s1 (choice_tools c) Hs1 ltac:(lia)) as C2.
    destruct (on_tool_calls s1 (choice_tools c)) as [ev2 s2]. cbn [fst snd] in *.
    pose proof (carries_ok _ _ _ _ _ _ C2) as Hs2.
    pose proof (carries_trans _ _ _ _ _ _ _ _ _ _ _ C0
                  (carries_trans _ _ _ _ _ _ _ _ _ _ _ C1 C2)) as C.
    cbn [app] in C. rewrite app_nil_r in C.
    replace (0 + (1 + N.of_nat (length (choice_tools c))))%N
      with (1 + N.of_nat (length (choice_tools c)) + 0)%N in C by lia.
    destruct (cc_finish_reason c); [|exact C].
    pose proof (carries_close s2 [MessageDelta
      match finish_reason (close_open_blocks s2).2 with
      | Some r => map_stop_reason r | None => lit "end_turn" end
      (out_tokens (close_open_blocks s2).2); MessageStop] Hs2 eq_refl (λ _, eq_refl)) as C3.
    destruct (close_open_blocks s2) as [ev3 s3]. cbn [fst snd] in *.
    pose proof (carries_trans _ _ _ _ _ _ _ _ _ _ _ C C3) as C'.
    rewrite N.add_0_r, app_nil_r, <- app_assoc in C'.
    eapply carries_ext; [|exact C']. intros o. cbn. by rewrite app_nil_r.
  - pose proof (carries_close s [ErrorEvent (lit "api_error") (lit "internal backend error"); MessageStop]
      Hs eq_refl (λ _, eq_refl)) as C.
    destruct (close_open_blocks s) as [ev s1]. exact C.
Qed.

Lemma scan_chunks_carries s stream :
  blocks_ok s → (next_block_index s + demand stream <= u32_max)%N →
  carries s (demand stream) (stream_text stream) (λ o, stream_args o stream)
    (scan_chunks s stream).1 (scan_chunks s stream).2.
Proof.
  revert s. induction stream as [|item stream IH]; intros s Hs Hlt; cbn [scan_chunks].
  - by apply carries_nil.
  - assert (Hd : demand (item :: stream) = (demand [item] + demand stream)%N).
    { unfold demand. cbn. destruct (item_choice item); lia. }
    rewrite Hd in *. pose proof (process_chunk_carries s item Hs ltac:(lia)) as C1.
    destruct (process_chunk s item) as [ev s1]. cbn [fst snd] in *.
    pose proof (carries_next _ _ _ _ _ _ C1).
    specialize (IH s1 (carries_ok _ _ _ _ _ _ C1) ltac:(lia)).
    destruct (scan_chunks s1 stream) as [evs s2].
    apply (carries_trans _ _ _ _ _ _ _ _ _ _ _ C1 IH).
Qed.

(** Nothing a backend says is lost or mixed up on its way to the client.  For any stream
    of chunks, orderly or not, that needs fewer than 2^32 blocks: the text deltas of the
    events spell exactly the text of the chunks; every tool call the backend sent arguments
    for owns a block; the deltas on that block spell exactly its arguments, in order; and
    two tool calls never share a block. *)
Theorem stream_keeps_content (stream : list chunk_item) (fits : (demand stream <= u32_max)%N) :
  texts (chunks_to_anthropic_content_sse stream) = stream_text stream
  ∧ (∀ o, stream_args o stream ≠ [] →
      ∃ a b, tool_blocks (scan_chunks StreamState_new stream).2 !! o = Some (a, b)
             ∧ args_at a (chunks_to_anthropic_content_sse stream) = stream_args o stream)
  ∧ (∀ o o' a b b', tool_blocks (scan_chunks StreamState_new stream).2 !! o = Some (a, b) →
                    tool_blocks (scan_chunks StreamState_new stream).2 !! o' = Some (a, b') → o = o').
Proof.
  assert (Hnew : blocks_ok StreamState_new) by (split; intros *; cbn; by rewrite lookup_empty).
  pose proof (scan_chunks_carries StreamState_new stream Hnew ltac:(cbn; lia)) as C.
  unfold chunks_to_anthropic_content_sse. destruct (scan_chunks StreamState_new stream) as [es s].
  cbn [fst snd] in *. split_and!.
  - apply C.
  - intros o Ho. destruct (tool_blocks s !! o) as [[a b]|] eqn:E.
    + exists a, b. split; [done|]. by eapply (carries_args _ _ _ _ _ _ C).
    + by rewrite (carries_none _ _ _ _ _ _ C _ E) in Ho.
  - intros *. apply (blocks_inj _ (carries_ok _ _ _ _ _ _ C)).
Qed.
