(* ===== verification/StreamKeepAlive.v ===== *)
(** * StreamKeepAlive: the stream a client reads, to its end

    The stream of a request is opened at once and kept alive by pings until the backend
    answers.  Whatever the timing, it ends when the backend does, shows its content and nothing
    else, and follows the protocol of StreamProtocol.v where the backend keeps to its
    own. *)

From S2P Require Import Prelude Text GatewayTypes Translate AnthropicStream StreamProtocol.

#[local] Open Scope nat_scope.

(** ** What a stream has yet to say *)

Definition is_stop (e : sse_event) : bool := bool_decide (e = MessageStop).

(** The close that ends a content without a [message_stop]. *)
Definition safety_close (content : list sse_event) : list sse_event :=
  if existsb is_stop content then [] else [MessageDelta (lit "end_turn") 0; MessageStop].

Definition dispatch_events (d : StreamDispatch) : list sse_event :=
  match d with
  | Ready stream => let content := chunks_to_anthropic_content_sse stream in content ++ safety_close content
  | Failed error_type message => [ErrorEvent error_type message; MessageStop]
  end.

Definition remaining (phase : KeepAlivePhase) : list sse_event :=
  match phase with
  | PhaseStart message_start d => message_start :: dispatch_events d
  | PhaseWaiting d => dispatch_events d
  | PhaseContent stream true => stream
  | PhaseContent stream false => stream ++ safety_close stream
  | PhaseError error_type message => [ErrorEvent error_type message; MessageStop]
  | PhaseStop => [MessageStop]
  | PhaseDone => []
  end.

(** How many awaited things have yet to come. *)
Definition awaits (phase : KeepAlivePhase) : nat :=
  match phase with
  | PhaseStart _ d => 3 + length (dispatch_events d)
  | PhaseWaiting d => 2 + length (dispatch_events d)
  | PhaseContent _ _ => 1 + length (remaining phase)
  | _ => length (remaining phase)
  end.

(** The awaits a schedule lets come before a tick. *)
Definition progress (schedule : list bool) : nat := length (filter (λ b, b = false) schedule).

Section run.
Context `{SerdeJsonLaws}.

Lemma format_starts t v :
  ∃ text, format_sse_event t v = lit "event: " ++ t ++ [NL] ++ lit "data: " ++ text ++ [NL; NL].
Proof. unfold format_sse_event. destruct (to_string_total v) as [text ->]. by exists text. Qed.

(** The prefix the code tests tells the terminal event from every other. *)
Lemma is_message_stop_render e : is_message_stop (render e) = is_stop e.
Proof.
  destruct e; cbn [render]; unfold message_start_event, ping_event, block_start_event,
    block_delta_event, block_stop_event, message_delta_event, message_stop_event, error_event;
    match goal with |- context [format_sse_event ?t ?v] => destruct (format_starts t v) as [? ->] end;
    reflexivity.
Qed.

Lemma remaining_content stream b :
  remaining (PhaseContent stream b) = stream ++ (if b || existsb is_stop stream then []
                                                 else [MessageDelta (lit "end_turn") 0; MessageStop]).
Proof. destruct b; cbn; [by rewrite app_nil_r|done]. Qed.

Lemma no_ping_dispatch d : Forall (λ e, e ≠ Ping) (dispatch_events d).
Proof.
  assert (Hscan : ∀ stream s, Forall (λ e, e ≠ Ping) (scan_chunks s stream).1).
  { assert (Hstops : ∀ l, Forall (λ e, e ≠ Ping) (BlockStop <$> l)).
    { intros l. apply Forall_fmap, Forall_true. done. }
    assert (Hcalls : ∀ tcs s, Forall (λ e, e ≠ Ping) (on_tool_calls s tcs).1).
    { induction tcs as [|tc tcs IH]; intros s; [constructor|]. cbn [on_tool_calls].
      destruct (on_tool_call s tc) as [ev s1] eqn:E1. specialize (IH s1).
      destruct (on_tool_calls s1 tcs) as [evs s2]. cbn in *. apply Forall_app. split; [|done].
      unfold on_tool_call in E1. destruct (register_tool s (tc_index tc)) as [ev0 s0] eqn:E0.
      assert (Forall (λ e, e ≠ Ping) ev0).
      { unfold register_tool in E0. destruct (tool_blocks s !! tc_index tc); injection E0 as <- _;
          [constructor|apply Hstops]. }
      destruct (tool_blocks s0 !! tc_index tc) as [[a b]|]; [|by injection E1 as <- _].
      destruct (if b then None else tool_announced tc) as [[id nm]|];
        destruct (tool_arguments tc); injection E1 as <- _; repeat (apply Forall_app; split); try done;
        repeat constructor; done. }
    induction stream as [|item stream IH]; intros s; [constructor|]. cbn [scan_chunks].
    destruct (process_chunk s item) as [ev s1] eqn:E. specialize (IH s1).
    destruct (scan_chunks s1 stream) as [evs s2]. cbn in *. apply Forall_app. split; [|done].
    unfold process_chunk in E. destruct item as [ck|].
    - destruct (ck_choices ck) as [|c cs]; [by injection E as <- _; constructor|].
      unfold process_choice in E.
      set (s0 := match cc_finish_reason c with Some _ => _ | None => s end) in E.
      destruct (match nonempty_text _ with Some _ => _ | None => _ end) as [ev1 s1'] eqn:E1.
      assert (Forall (λ e, e ≠ Ping) ev1).
      { destruct (nonempty_text _); [|by injection E1 as <- _; constructor].
        unfold on_text in E1. destruct (text_block_index _); injection E1 as <- _; repeat constructor; done. }
      pose proof (Hcalls (default [] (d_tool_calls (cc_delta c))) s1') as H2.
      destruct (on_tool_calls s1' _) as [ev2 s2']. cbn in H2.
      destruct (cc_finish_reason c); cbn in E; injection E as <- _;
        repeat (apply Forall_app; split); try done; try apply Hstops; repeat constructor; done.
    - injection E as <- _. apply Forall_app. split; [apply Hstops|repeat constructor; done]. }
  destruct d as [stream|]; cbn; [|repeat constructor; done]. apply Forall_app. split; [apply Hscan|].
  unfold safety_close. destruct (existsb _ _); repeat constructor; done.
Qed.

(** A run says a part of what remains, and every await that comes brings it closer to its
    end. *)
Lemma keepalive_run_spec schedule phase :
  Forall (λ e, e ≠ Ping) (remaining phase) →
  remaining phase = filter (λ e, e ≠ Ping) (keepalive_run schedule phase).1
                    ++ remaining (keepalive_run schedule phase).2
  ∧ awaits (keepalive_run schedule phase).2 ≤ awaits phase - progress schedule.
Proof.
  revert phase. induction schedule as [|tick schedule IH]; intros phase Hping; [cbn; split; [done|lia]|].
  assert (Hp : progress (tick :: schedule) = (if tick then 0 else 1) + progress schedule).
  { unfold progress. rewrite filter_cons. by destruct tick. }
  (** A turn that yields [items] and comes closer, or only pings. *)
  assert (Hyield : ∀ e next, keepalive_turn tick phase = Yield e next →
    remaining phase = e :: remaining next → awaits next < awaits phase →
    remaining phase = filter (λ e, e ≠ Ping) (keepalive_run (tick :: schedule) phase).1
                      ++ remaining (keepalive_run (tick :: schedule) phase).2
    ∧ awaits (keepalive_run (tick :: schedule) phase).2 ≤ awaits phase - progress (tick :: schedule)).
  { intros e next Ht Hr Ha. rewrite Hr in Hping. apply Forall_cons in Hping as [He Hnext].
    cbn [keepalive_run]. rewrite Ht. destruct (IH next Hnext) as [IH1 IH2].
    destruct (keepalive_run schedule next) as [out p]. cbn [fst snd] in *.
    rewrite filter_cons_True by done. rewrite Hp. split; [|destruct tick; lia].
    by rewrite Hr, IH1 at 1. }
  assert (Hping' : keepalive_turn tick phase = Yield Ping phase → tick = true →
    remaining phase = filter (λ e, e ≠ Ping) (keepalive_run (tick :: schedule) phase).1
                      ++ remaining (keepalive_run (tick :: schedule) phase).2
    ∧ awaits (keepalive_run (tick :: schedule) phase).2 ≤ awaits phase - progress (tick :: schedule)).
  { intros Ht ->. cbn [keepalive_run]. rewrite Ht. destruct (IH phase Hping) as [IH1 IH2].
    destruct (keepalive_run schedule phase) as [out p]. cbn [fst snd] in *.
    rewrite filter_cons_False by naive_solver. by rewrite Hp. }
  assert (Hcont : ∀ next, keepalive_turn tick phase = Continue next →
    remaining phase = remaining next → awaits next < awaits phase →
    remaining phase = filter (λ e, e ≠ Ping) (keepalive_run (tick :: schedule) phase).1
                      ++ remaining (keepalive_run (tick :: schedule) phase).2
    ∧ awaits (keepalive_run (tick :: schedule) phase).2 ≤ awaits phase - progress (tick :: schedule)).
  { intros next Ht Hr Ha. rewrite Hr in Hping. cbn [keepalive_run]. rewrite Ht, Hr.
    destruct (IH next Hping) as [IH1 IH2]. split; [done|]. rewrite Hp. destruct tick; lia. }
  destruct phase as [ms d|d|stream stop|et msg| |].
  - apply (Hyield ms (PhaseWaiting d)); [done|done|cbn; lia].
  - destruct tick; [by apply Hping'|]. destruct d as [stream|et msg].
    + eapply Hcont; [done|done|]. cbn. lia.
    + eapply Hcont; [done|done|]. cbn. lia.
  - destruct tick; [by apply Hping'|]. destruct stream as [|e stream].
    + destruct stop.
      * eapply Hcont; [done|done|]. cbn. lia.
      * eapply Hyield; [done|done|]. cbn. lia.
    + eapply Hyield; [done| |].
      * rewrite !remaining_content, is_message_stop_render. cbn. by rewrite orb_assoc.
      * unfold awaits. rewrite !remaining_content, is_message_stop_render. cbn.
        rewrite orb_assoc. rewrite !length_app. lia.
  - eapply Hyield; [done|done|]. cbn. lia.
  - eapply Hyield; [done|done|]. cbn. lia.
  - cbn. split; [done|lia].
Qed.

Lemma awaits_done phase : awaits phase = 0 → phase = PhaseDone.
Proof. by destruct phase as [| |? []| | |]. Qed.

Lemma no_ping_start model message_id d :
  Forall (λ e, e ≠ Ping) (remaining (PhaseStart (MessageStart model message_id) d)).
Proof. cbn. constructor; [done|apply no_ping_dispatch]. Qed.

Lemma existsb_is_stop es : existsb is_stop es = true ↔ MessageStop ∈ es.
Proof.
  rewrite existsb_exists. setoid_rewrite list_elem_of_In. split.
  - by intros (e & He & ->%bool_decide_eq_true_1).
  - intros He. exists MessageStop. split; [done|]. by apply bool_decide_eq_true_2.
Qed.

Lemma dispatch_stops d : MessageStop ∈ dispatch_events d.
Proof.
  destruct d as [stream|]; cbn; [|set_solver]. unfold safety_close.
  destruct (existsb is_stop _) eqn:E; [|set_solver].
  apply existsb_is_stop in E. apply elem_of_app. by left.
Qed.

(** While the backend is waited for, only pings are sent. *)
Lemma waiting_pings n d : keepalive_run (replicate n true) (PhaseWaiting d) = (replicate n Ping, PhaseWaiting d).
Proof. induction n as [|n IH]; [done|]. cbn. by rewrite IH. Qed.

(** C37: a stream that was opened is closed when its backend ends.  For a backend whose answer is
    finite, or that fails, and however the pings fall: at any moment what the client was told
    apart from pings is a beginning of the opening, the events of the backend and, only when
    those lack a [message_stop], the closing pair (for a failed dispatch an error and the stop);
    once everything awaited has come (three steps and one for each event) the stream has ended,
    all of that was said, and the client was told that the message stopped.  For a backend that
    does not answer there is no such end: after the opening the client is sent one ping after
    the other, without limit. *)
Theorem keepalive_stream_ends (schedule : list bool) (d : StreamDispatch) (model message_id : ustr) :
  let told := MessageStart model message_id :: dispatch_events d in
  let '(out, phase) := keepalive_anthropic_sse schedule d model message_id in
  filter (λ e, e ≠ Ping) out `prefix_of` told
  ∧ (3 + length (dispatch_events d) ≤ progress schedule →
     phase = PhaseDone ∧ MessageStop ∈ out ∧ filter (λ e, e ≠ Ping) out = told)
  ∧ (∀ n, keepalive_anthropic_sse (replicate (S n) true) d model message_id
          = (MessageStart model message_id :: replicate n Ping, PhaseWaiting d)).
Proof.
  cbn zeta. unfold keepalive_anthropic_sse.
  destruct (keepalive_run_spec schedule _ (no_ping_start model message_id d)) as [Hout Haw].
  destruct (keepalive_run schedule _) as [out phase]. cbn [fst snd] in *.
  split_and!; [by exists (remaining phase)| |intros n; cbn; by rewrite waiting_pings].
  intros enough. assert (phase = PhaseDone) as -> by (apply awaits_done; cbn in Haw; lia).
  cbn [remaining] in Hout. rewrite app_nil_r in Hout. split_and!; [done| |done].
  apply (list_elem_of_filter (λ e, e ≠ Ping)). rewrite <- Hout. apply elem_of_cons. right.
  apply dispatch_stops.
Qed.

Lemma client_run_prefix c es1 es2 c' :
  client_run c (es1 ++ es2) = Some c' → is_Some (client_run c es1).
Proof. rewrite client_run_app. by destruct (client_run c es1). Qed.

(** A client that has stopped has read the stop. *)
Lemma client_run_stopped c es : client_run c es = Some Stopped → c = Stopped ∨ MessageStop ∈ es.
Proof.
  revert c. induction es as [|e es IH]; intros c; cbn; [intros [= ->]; by left|].
  destruct (client_step c e) as [c1|] eqn:E; [|done]. cbn. intros [->|Hin]%IH; [|set_solver].
  destruct c as [|m|], e; cbn in E; unfold start_block, delta_block in E; repeat case_match;
    simplify_eq; (by left) || (right; set_solver).
Qed.

(** C13: what a client reads is a message.  When the backend announces its tool calls and
    ends its stream as the OpenAI protocol asks, then for every timing of the pings what the
    client has read at any moment is the beginning of a well-formed message (blocks open at
    fresh indices, deltas fall into open blocks of their kind, nothing is left open), and
    once everything awaited has come the message is complete. *)
Theorem client_reads_a_message (stream : list chunk_item) (schedule : list bool) (model message_id : ustr)
    (ordered : orderly ∅ stream = true) (fits : (demand stream <= u32_max)%N)
    (ended : concluded stream = true) :
  let '(out, phase) := keepalive_anthropic_sse schedule (Ready stream) model message_id in
  is_Some (client_run Idle out)
  ∧ (3 + length (dispatch_events (Ready stream)) ≤ progress schedule →
     client_run Idle out = Some Stopped).
Proof.
  unfold keepalive_anthropic_sse.
  destruct (keepalive_run_spec schedule _ (no_ping_start model message_id (Ready stream))) as [Hout Haw].
  destruct (keepalive_run schedule _) as [out phase]. cbn [fst snd] in *.
  pose proof (scan_chunks_sim _ _ _ stream sim_new ltac:(cbn; lia) ordered) as Hsim.
  rewrite ended in Hsim. fold (chunks_to_anthropic_content_sse stream) in Hsim.
  assert (Hall : client_run Idle (remaining (PhaseStart (MessageStart model message_id) (Ready stream)))
                 = Some Stopped).
  { cbn [remaining dispatch_events client_run client_step mbind option_bind]. unfold safety_close.
    destruct (client_run_stopped _ _ Hsim) as [|Hin]; [done|].
    apply existsb_is_stop in Hin. by rewrite Hin, app_nil_r. }
  rewrite (client_run_pings Idle out). rewrite Hout in Hall. split; [by eapply client_run_prefix|].
  intros Henough. assert (phase = PhaseDone) as -> by (apply awaits_done; cbn in Haw, Henough; lia).
  cbn [remaining] in Hall. by rewrite app_nil_r in Hall.
Qed.
End run.
