(* ===== verification/TranslateProps.v ===== *)
(** * TranslateProps: what a translation keeps

    A translated request carries every tool result, every tool call and every text of the
    original, and no image that is neither inline nor served over HTTPS; an assistant turn
    survives the way to the backend and back.  [sanitize_schema] agrees with a declarative
    reading: which positions of a value are schemas, and that exactly the listed keywords
    disappear, exactly there. *)

From S2P Require Import Prelude Text GatewayTypes Translate.

#[local] Open Scope nat_scope.

(** ** Tool schemas *)

(** ** Well-formed values: the keys of every object ascend *)

Inductive json_ok : json → Prop :=
| ok_null : json_ok JNull
| ok_bool b : json_ok (JBool b)
| ok_number n : json_ok (JNumber n)
| ok_string s : json_ok (JString s)
| ok_array l : Forall json_ok l → json_ok (JArray l)
| ok_object l : obj_ok l → Forall (λ kv, json_ok kv.2) l → json_ok (JObject l).

(** ** Schemas without the keywords *)

Definition bloat (key : ustr) : bool := bool_decide (key ∈ GBNF_BLOAT_KEYWORDS).

(** A value in the position of a schema: no keyword among its keys, and the values its
    structural keys hold are clean in turn.  Whatever is not in such a position, the names
    of properties above all, is unconstrained. *)
Inductive clean : json → Prop :=
| clean_object l : Forall (λ kv, bloat kv.1 = false ∧ clean_at (classify_key kv.1) kv.2) l → clean (JObject l)
| clean_other v : (∀ l, v ≠ JObject l) → clean v
with clean_at : key_class → json → Prop :=
| clean_map l : Forall (λ kv, clean kv.2) l → clean_at MapOfSchemas (JObject l)
| clean_one k l : k = SchemaOrSchemas ∨ k = OneSchema → clean (JObject l) → clean_at k (JObject l)
| clean_array k l : k = SchemaOrSchemas ∨ k = ArrayOfSchemas → Forall clean l → clean_at k (JArray l)
| clean_rest k v :
    match k, v with
    | MapOfSchemas, JObject _ | SchemaOrSchemas, JObject _ | OneSchema, JObject _
    | SchemaOrSchemas, JArray _ | ArrayOfSchemas, JArray _ => False
    | _, _ => True
    end → clean_at k v.

(** What becomes of the value of a key. *)
Definition sanitize_at (k : key_class) (val : json) : json :=
  match k, val with
  | MapOfSchemas, JObject inner => JObject ((λ kv, (kv.1, sanitize_schema kv.2)) <$> inner)
  | (SchemaOrSchemas | OneSchema), JObject _ => sanitize_schema val
  | (SchemaOrSchemas | ArrayOfSchemas), JArray arr => JArray (sanitize_schema <$> arr)
  | _, _ => val
  end.
Definition sanitize_field (kv : ustr * json) : option (ustr * json) :=
  if bloat kv.1 then None else Some (kv.1, sanitize_at (classify_key kv.1) kv.2).

Lemma obj_ok_fmap (f : json → json) l : obj_ok l → obj_ok ((λ kv, (kv.1, f kv.2)) <$> l).
Proof.
  induction 1 as [|[k v] l Hl IH Hlt]; [constructor|]. constructor; [done|].
  apply Forall_fmap. eapply Forall_impl; [exact Hlt|]. done.
Qed.

Lemma obj_ok_omap (f : ustr → json → option json) l :
  obj_ok l → obj_ok (omap (λ kv, pair kv.1 <$> f kv.1 kv.2) l).
Proof.
  induction 1 as [|[k v] l Hl IH Hlt]; [constructor|]. cbn.
  destruct (f k v) as [v'|]; cbn; [|done]. constructor; [done|].
  apply Forall_forall. intros [k1 v1] ([k2 v2] & Hin & Hf)%list_elem_of_omap. cbn in Hf.
  destruct (f k2 v2); [|done]. injection Hf as <- <-.
  rewrite Forall_forall in Hlt. apply (Hlt _ Hin).
Qed.

(** On a well-formed object, inserting the fields one by one lists them in order. *)
Lemma sanitize_props_eq (inner : list (ustr * json)) :
  obj_ok inner →
  (fix props (inner : list (ustr * json)) : list (ustr * json) :=
     match inner with
     | [] => []
     | (prop_key, prop_val) :: rest' => obj_insert prop_key (sanitize_schema prop_val) (props rest')
     end) inner
  = (λ kv, (kv.1, sanitize_schema kv.2)) <$> inner.
Proof.
  induction 1 as [|[k v] l Hl IH Hlt]; [done|]. rewrite IH, obj_insert_front; [done|].
  apply Forall_fmap. eapply Forall_impl; [exact Hlt|]. done.
Qed.

Lemma sanitize_field_above k v l :
  Forall (obj_key_lt (k, v)) l → ∀ v', Forall (obj_key_lt (k, v')) (omap sanitize_field l).
Proof.
  intros Hl v'. apply Forall_forall. intros [k1 v1] ([k2 v2] & Hin & Hf)%list_elem_of_omap.
  unfold sanitize_field in Hf. cbn in Hf. destruct (bloat k2); [done|]. injection Hf as <- _.
  rewrite Forall_forall in Hl. apply (Hl _ Hin).
Qed.

Lemma sanitize_object l :
  obj_ok l → Forall (λ kv, json_ok kv.2) l →
  sanitize_schema (JObject l) = JObject (omap sanitize_field l).
Proof.
  intros Hok Hv. cbn [sanitize_schema]. f_equal.
  induction Hok as [|[k v] l Hl IH Hlt]; [done|]. apply Forall_cons in Hv as [Hv Hvs].
  specialize (IH Hvs). rewrite IH.
  change (omap sanitize_field ((k, v) :: l))
    with (match sanitize_field (k, v) with Some y => y :: omap sanitize_field l
                                         | None => omap sanitize_field l end).
  replace (sanitize_field (k, v)) with
    (if bool_decide (k ∈ GBNF_BLOAT_KEYWORDS) then None else Some (k, sanitize_at (classify_key k) v)) by done.
  destruct (bool_decide (k ∈ GBNF_BLOAT_KEYWORDS)); [done|].
  rewrite obj_insert_front by (by eapply sanitize_field_above). do 2 f_equal. unfold sanitize_at.
  destruct (classify_key k), v as [| | | | |inner]; try done.
  f_equal. apply sanitize_props_eq. by inversion Hv.
Qed.

Lemma sanitize_other v : (∀ l, v ≠ JObject l) → sanitize_schema v = v.
Proof. destruct v; try done. intros Hn. by destruct (Hn l). Qed.

(** ** The pass is a projection onto the clean values *)

(** One statement for the value and for what its keys hold, so that one induction proves
    it. *)
Definition projects (v : json) : Prop :=
  json_ok v →
  json_ok (sanitize_schema v) ∧ clean (sanitize_schema v) ∧ (clean v → sanitize_schema v = v).

Lemma sanitize_at_projects k v :
  json_ok v → projects v → (∀ l, v = JArray l → Forall projects l) →
  (∀ l, v = JObject l → Forall (λ kv, projects kv.2) l) →
  json_ok (sanitize_at k v) ∧ clean_at k (sanitize_at k v) ∧ (clean_at k v → sanitize_at k v = v).
Proof.
  intros Hok Hp Harr Hobj.
  assert (Hsame : match k, v with
    | MapOfSchemas, JObject _ | SchemaOrSchemas, JObject _ | OneSchema, JObject _
    | SchemaOrSchemas, JArray _ | ArrayOfSchemas, JArray _ => False | _, _ => True end →
    json_ok v ∧ clean_at k v ∧ (clean_at k v → v = v)).
  { intros Hm. split_and!; [done| |done]. by apply clean_rest. }
  assert (Hone : ∀ l, v = JObject l → k = SchemaOrSchemas ∨ k = OneSchema →
    json_ok (sanitize_schema v) ∧ clean_at k (sanitize_schema v) ∧ (clean_at k v → sanitize_schema v = v)).
  { intros l -> Hk. destruct (Hp Hok) as (H1 & H2 & H3). split_and!; [done| |].
    - rewrite sanitize_object in * by (by inversion Hok). by apply clean_one.
    - intros Hc. apply H3. destruct Hk as [->| ->]; by inversion Hc; simplify_eq. }
  assert (Hlist : ∀ l, v = JArray l → k = SchemaOrSchemas ∨ k = ArrayOfSchemas →
    json_ok (JArray (sanitize_schema <$> l)) ∧ clean_at k (JArray (sanitize_schema <$> l))
    ∧ (clean_at k v → JArray (sanitize_schema <$> l) = v)).
  { intros l -> Hk. specialize (Harr l eq_refl). inversion Hok as [| | | |? Hl|]; simplify_eq.
    split_and!.
    - constructor. apply Forall_fmap. eapply Forall_impl; [apply Forall_and; split; [exact Hl|exact Harr]|].
      intros x [Hx Hx']. by apply Hx'.
    - apply clean_array; [done|]. apply Forall_fmap. eapply Forall_impl; [apply Forall_and; split; [exact Hl|exact Harr]|].
      intros x [Hx Hx']. by apply Hx'.
    - intros Hc. f_equal. assert (Hcl : Forall clean l)
        by (destruct Hk as [->| ->]; by inversion Hc; simplify_eq).
      clear Hc Hok Hp Hsame Hone Hobj. induction Hl as [|x l Hx Hl IH]; [done|].
      apply Forall_cons in Harr as [Hpx Harr], Hcl as [Hcx Hcl]. cbn.
      rewrite IH by done. f_equal. by apply Hpx. }
  destruct k, v as [| | | |l|l]; cbn [sanitize_at]; try (by apply Hsame); try (by apply (Hone l); auto);
    try (by apply (Hlist l); auto).
  specialize (Hobj l eq_refl). inversion Hok as [| | | | |? Hl Hls]; simplify_eq. split_and!.
  - constructor; [by apply (obj_ok_fmap sanitize_schema)|]. apply Forall_fmap.
    eapply Forall_impl; [apply Forall_and; split; [exact Hls|exact Hobj]|]. intros x [Hx Hx']. by apply Hx'.
  - apply clean_map, Forall_fmap. eapply Forall_impl; [apply Forall_and; split; [exact Hls|exact Hobj]|].
    intros x [Hx Hx']. by apply Hx'.
  - intros Hc. f_equal. assert (Hcl : Forall (λ kv, clean kv.2) l)
      by (inversion Hc; simplify_eq; try done; naive_solver).
    clear Hc Hok Hp Hsame Hone Hlist Harr Hl. induction Hls as [|[k x] l Hx Hls IH]; [done|].
    apply Forall_cons in Hobj as [Hpx Hobj], Hcl as [Hcx Hcl]. cbn in *.
    rewrite IH by done. do 2 f_equal. by apply Hpx.
Qed.

Lemma sanitize_field_Some kv y :
  sanitize_field kv = Some y ↔ bloat kv.1 = false ∧ y = (kv.1, sanitize_at (classify_key kv.1) kv.2).
Proof. unfold sanitize_field. destruct (bloat kv.1); naive_solver. Qed.

(** A clean object keeps its fields. *)
Lemma omap_clean l :
  Forall (λ kv, bloat kv.1 = false ∧ sanitize_at (classify_key kv.1) kv.2 = kv.2) l →
  omap sanitize_field l = l.
Proof.
  induction 1 as [|[k v] l [Hb Hs] _ IH]; [done|].
  change (omap sanitize_field ((k, v) :: l))
    with (match sanitize_field (k, v) with Some y => y :: omap sanitize_field l
                                         | None => omap sanitize_field l end).
  unfold sanitize_field at 1. cbn [fst snd] in *. by rewrite Hb, Hs, IH.
Qed.

Lemma obj_ok_sanitized l : obj_ok l → obj_ok (omap sanitize_field l).
Proof.
  intros Hl. pose proof (obj_ok_omap (λ k v, if bloat k then None else Some (sanitize_at (classify_key k) v)) l Hl)
    as Ho. replace (omap sanitize_field l) with
    (omap (λ kv, pair kv.1 <$> (λ k v, if bloat k then None else Some (sanitize_at (classify_key k) v)) kv.1 kv.2) l);
    [done|].
  apply list_omap_ext. clear. induction l; constructor; [|done]. unfold sanitize_field. by destruct (bloat _).
Qed.

Lemma projects_all v :
  projects v ∧ (∀ l, v = JArray l → Forall projects l) ∧ (∀ l, v = JObject l → Forall (λ kv, projects kv.2) l).
Proof.
  induction v as [|b|n|s|l IH|l IH] using json_ind'.
  1-4: split_and!; [|done|done]; intros Hok; cbn; split_and!; [done|by apply clean_other|done].
  - split_and!; [|intros l' [= <-]; eapply Forall_impl; [exact IH|]; naive_solver|done].
    intros Hok. cbn. split_and!; [done|by apply clean_other|done].
  - split_and!; [|done|intros l' [= <-]; eapply Forall_impl; [exact IH|]; naive_solver].
    intros Hok. inversion Hok as [| | | | |? Hl Hls]; simplify_eq. rewrite sanitize_object by done.
    assert (Hat : Forall (λ kv, json_ok (sanitize_at (classify_key kv.1) kv.2)
        ∧ clean_at (classify_key kv.1) (sanitize_at (classify_key kv.1) kv.2)
        ∧ (clean_at (classify_key kv.1) kv.2 → sanitize_at (classify_key kv.1) kv.2 = kv.2)) l).
    { eapply Forall_impl; [apply Forall_and; split; [exact Hls|exact IH]|].
      intros [k x] (Hx & Hp & Ha & Ho). by apply sanitize_at_projects. }
    rewrite Forall_forall in Hat.
    assert (Hin : ∀ y, y ∈ omap sanitize_field l → ∃ kv, kv ∈ l ∧ bloat kv.1 = false
                    ∧ y = (kv.1, sanitize_at (classify_key kv.1) kv.2)).
    { intros y (kv & Hkv & [Hb ->]%sanitize_field_Some)%list_elem_of_omap. eauto. }
    split_and!.
    + constructor; [by apply obj_ok_sanitized|]. apply Forall_forall.
      intros y (kv & Hkv & _ & ->)%Hin. by apply (Hat _ Hkv).
    + apply clean_object, Forall_forall. intros y (kv & Hkv & Hb & ->)%Hin.
      split; [done|by apply (Hat _ Hkv)].
    + intros Hc. f_equal. inversion Hc as [? Hc'|? Hc']; simplify_eq; [|by destruct (Hc' l)].
      apply omap_clean. rewrite Forall_forall in Hc' |- *. intros kv Hkv.
      destruct (Hc' _ Hkv) as [Hb Hca]. split; [done|]. by apply (Hat _ Hkv).
Qed.

Lemma obj_get_omap l key :
  obj_get key (omap sanitize_field l)
  = if bloat key then None else sanitize_at (classify_key key) <$> obj_get key l.
Proof.
  induction l as [|[k v] l IH]; [by destruct (bloat key)|].
  change (omap sanitize_field ((k, v) :: l))
    with (match sanitize_field (k, v) with Some y => y :: omap sanitize_field l
                                         | None => omap sanitize_field l end).
  unfold sanitize_field at 1. cbn [fst snd obj_get].
  destruct (bloat k) eqn:Eb; cbn [obj_get].
  - rewrite IH. case_bool_decide; [subst; by rewrite Eb|done].
  - case_bool_decide; [subst; by rewrite Eb|apply IH].
Qed.

(** Sanitising the schema of a tool removes the listed keywords and nothing else.  For a
    value as [serde_json] keeps it: in the result no keyword is left at any position that is
    a schema; a value that has none comes back unchanged, so sanitising again changes
    nothing; and field by field, a keyword is gone, the value of a structural key is
    sanitised in the way of that key, and every other value, and every name of a property,
    is kept. *)
Theorem sanitize_schema_exact (v : json) (well_formed : json_ok v) :
  json_ok (sanitize_schema v) ∧ clean (sanitize_schema v)
  ∧ (clean v → sanitize_schema v = v)
  ∧ sanitize_schema (sanitize_schema v) = sanitize_schema v
  ∧ (∀ key, json_get (sanitize_schema v) key
            = if bloat key then None else sanitize_at (classify_key key) <$> json_get v key).
Proof.
  destruct (projects_all v) as [Hp _]. destruct (Hp well_formed) as (H1 & H2 & H3).
  split_and!; [done|done|done| |].
  - destruct (projects_all (sanitize_schema v)) as [Hp' _]. by apply Hp'.
  - intros key. inversion well_formed; subst; cbn; try (by destruct (bloat key)).
    rewrite <- obj_get_omap. pose proof (sanitize_object l ltac:(done) ltac:(done)) as Hs.
    cbn [sanitize_schema] in Hs. injection Hs as Hs. by rewrite Hs.
Qed.

(** ** What a request carries *)

(** The turns that are translated as the user's: any role but the two others. *)
Definition is_user_turn (msg : AnthropicMessage) : bool :=
  negb (bool_decide (am_role msg = lit "assistant") || bool_decide (am_role msg = lit "system")).
Definition is_assistant_turn (msg : AnthropicMessage) : bool := bool_decide (am_role msg = lit "assistant").

Definition turn_blocks (msg : AnthropicMessage) : list ContentBlock :=
  match am_content msg with AText _ => [] | ABlocks blocks => blocks end.

Section translation.
Context `{SerdeJson}.

(** The text of a tool result: a string as it is, of a list the [text] members of its objects,
    nothing for null, and the printed value otherwise. *)
Definition result_text (content : json) : ustr :=
  match content with
  | JString s => s
  | JNull => []
  | JArray blocks =>
      flat_map (λ b, match b with
                     | JObject fields => match obj_get (lit "text") fields with Some (JString t) => t | _ => [] end
                     | _ => []
                     end) blocks
  | other => match to_string other with Some printed => printed | None => [] end
  end.
Definition block_result (b : ContentBlock) : option (ustr * ustr) :=
  match b with
  | BlockToolResult id result _ => Some (id, result_text result)
  | _ => None
  end.
(** The call of a tool use: its identifier, its name and its input as printed. *)
Definition block_call (b : ContentBlock) : option ToolCall :=
  match b with
  | BlockToolUse id name input =>
      Some (mkToolCall id (lit "function") name (match to_string input with Some args => args | None => lit "{}" end))
  | _ => None
  end.
Definition turn_results (msg : AnthropicMessage) : list (ustr * ustr) :=
  if is_user_turn msg then omap block_result (turn_blocks msg) else [].
Definition turn_calls (msg : AnthropicMessage) : list ToolCall :=
  if is_assistant_turn msg then omap block_call (turn_blocks msg) else [].

(** The remote images of a turn that are forwarded. *)
Definition block_url (b : ContentBlock) : option ustr :=
  match b with
  | BlockImage source => if bool_decide (source_type source = lit "url") then Some (default [] (url source)) else None
  | _ => None
  end.
Definition turn_urls (msg : AnthropicMessage) : list ustr :=
  if is_user_turn msg then omap block_url (turn_blocks msg) else [].

(** The address of every image of a turn that is forwarded: a remote one as it is, one given
    inline as data; a source of another type has none. *)
Definition block_image (b : ContentBlock) : option ustr :=
  match b with
  | BlockImage source =>
      if bool_decide (source_type source = lit "base64")
      then Some (lit "data:" ++ default (lit "image/jpeg") (media_type source) ++ lit ";base64," ++ default [] (data source))
      else block_url b
  | _ => None
  end.
Definition turn_images (msg : AnthropicMessage) : list ustr :=
  if is_user_turn msg then omap block_image (turn_blocks msg) else [].

(** What a translated request carries. *)
Definition message_result (m : Message) : option (ustr * ustr) :=
  match role m, tool_call_id m with
  | RoleTool, Some id => Some (id, text_content (content m))
  | _, _ => None
  end.
Definition message_calls (m : Message) : list ToolCall := default [] (tool_calls m).
Definition message_text (m : Message) : ustr :=
  match role m with RoleTool => [] | _ => text_content (content m) end.
Definition part_url (p : ContentPart) : option ustr := match p with PartImageUrl u => Some u | _ => None end.
Definition message_urls (m : Message) : list ustr :=
  match content m with ContentText _ => [] | ContentParts parts => omap part_url parts end.

Definition https (u : ustr) : bool := str_starts_with (lit "https://") u.
Definition safe_url (u : ustr) : bool := https u || str_starts_with (lit "data:") u.

(** ** Parts *)

Lemma result_text_eq content : extract_tool_result_text content = result_text content.
Proof.
  destruct content as [| | | |blocks|]; cbn; try done; unfold value_display; try (by destruct (to_string _)).
  induction blocks as [|b blocks IH]; [done|]. cbn. rewrite <- IH. destruct b as [| | | | |fields]; try done. cbn.
  by destruct (obj_get (lit "text") fields) as [[]|].
Qed.

Lemma translate_image_cases source :
  match translate_image_source source with
  | Err e => ∃ u, block_url (BlockImage source) = Some u ∧ https u = false ∧ e = InvalidImageUrl u
  | Ok None => block_url (BlockImage source) = None ∧ block_image (BlockImage source) = None
  | Ok (Some p) => ∃ v, p = PartImageUrl v ∧ safe_url v = true ∧ block_image (BlockImage source) = Some v
                        ∧ (block_url (BlockImage source) = None
                           ∨ block_url (BlockImage source) = Some v ∧ https v = true)
  end.
Proof.
  unfold translate_image_source, block_image, block_url.
  destruct (bool_decide_reflect (source_type source = lit "base64")) as [->|Hb].
  { eexists. split_and!; [done|done|done|by left]. }
  destruct (bool_decide_reflect (source_type source = lit "url")) as [_|Hu]; [|done].
  fold (https (default [] (url source))). destruct (https _) eqn:Eh; cbn; [|by eauto].
  eexists. split_and!; [done|by unfold safe_url; rewrite Eh|done|by right].
Qed.

(** The first image that is refused, and the parts otherwise. *)
Lemma blocks_to_parts_spec blocks :
  match blocks_to_parts blocks with
  | Ok parts => Forall (λ u, https u = true) (omap block_url blocks)
                ∧ concat (omap part_text parts) = concat (omap block_text blocks)
                ∧ Forall (λ u, safe_url u = true) (omap part_url parts)
                ∧ omap part_url parts = omap block_image blocks
  | Err e => ∃ pre u post, omap block_url blocks = pre ++ u :: post
                           ∧ Forall (λ u, https u = true) pre ∧ https u = false ∧ e = InvalidImageUrl u
  end.
Proof.
  induction blocks as [|b blocks IH]; [by repeat constructor|].
  destruct b as [text|id nm input|id res err|source|th|]; try exact IH.
  - cbn [blocks_to_parts]. destruct (blocks_to_parts blocks) as [parts|e]; cbn [result_bind]; [|exact IH].
    destruct IH as (H1 & H2 & H3 & H4). split_and!; [exact H1|cbn; by rewrite <- H2|exact H3|exact H4].
  - cbn [blocks_to_parts].
    change (omap block_url (BlockImage source :: blocks))
      with (match block_url (BlockImage source) with Some y => y :: omap block_url blocks
                                                   | None => omap block_url blocks end).
    change (omap block_text (BlockImage source :: blocks)) with (omap block_text blocks).
    change (omap block_image (BlockImage source :: blocks))
      with (match block_image (BlockImage source) with Some y => y :: omap block_image blocks
                                                     | None => omap block_image blocks end).
    pose proof (translate_image_cases source) as Hc.
    destruct (translate_image_source source) as [[p|]|e]; cbn [result_bind].
    + destruct Hc as (v & -> & Hv & Him & Hu). rewrite Him.
      destruct (blocks_to_parts blocks) as [parts|e]; cbn [result_bind].
      * destruct IH as (H1 & H2 & H3 & H4). split_and!; [|exact H2|constructor; [done|exact H3]|cbn; by rewrite <- H4].
        destruct Hu as [->|[-> Hh]]; [done|by constructor].
      * destruct IH as (pre & u & post & IH & H2 & H3 & H4). destruct Hu as [->|[-> Hh]].
        -- by exists pre, u, post.
        -- exists (v :: pre), u, post. rewrite IH. split_and!; [done|by constructor|done|done].
    + destruct Hc as [-> ->]. by destruct (blocks_to_parts blocks).
    + destruct Hc as (u & -> & Hu & ->). by exists [], u, (omap block_url blocks).
Qed.

(** Results and calls never touch the parts. *)
Lemma omap_filter_results {A} (f : ContentBlock → option A) (blocks : list ContentBlock) :
  (∀ b, is_tool_result b = true → f b = None) →
  omap f (filter (λ b, is_tool_result b = false) blocks) = omap f blocks.
Proof.
  intros Hf. induction blocks as [|b blocks IH]; [done|].
  change (omap f (b :: blocks)) with (match f b with Some y => y :: omap f blocks | None => omap f blocks end).
  destruct (is_tool_result b) eqn:E.
  - rewrite filter_cons_False by congruence. by rewrite IH, Hf.
  - rewrite filter_cons_True by done. cbn. by rewrite IH.
Qed.

(** ** Turns *)

(** Everything the messages of a turn must carry. *)
Record turn_carried (msg : AnthropicMessage) (ms : list Message) : Prop := mkTurnCarried {
  turn_keeps_results : omap message_result ms = turn_results msg;
  turn_keeps_calls : concat (message_calls <$> ms) = turn_calls msg;
  turn_keeps_text : concat (message_text <$> ms) = as_text (am_content msg);
  turn_urls_safe : Forall (λ u, safe_url u = true) (concat (message_urls <$> ms));
  turn_keeps_images : concat (message_urls <$> ms) = turn_images msg;
  turn_urls_https : Forall (λ u, https u = true) (turn_urls msg)
}.

Lemma user_message_of_parts_carries parts :
  parts ≠ [] →
  message_result (user_message_of_parts parts) = None
  ∧ message_calls (user_message_of_parts parts) = []
  ∧ message_text (user_message_of_parts parts) = concat (omap part_text parts)
  ∧ message_urls (user_message_of_parts parts) = omap part_url parts.
Proof.
  intros Hne. destruct parts as [|[t|u] [|p2 parts]]; try done; cbn in *; rewrite ?app_nil_r; done.
Qed.

Lemma tool_messages_carry (blocks : list ContentBlock) :
  omap message_result (omap tool_message blocks) = omap block_result blocks
  ∧ concat (message_calls <$> omap tool_message blocks) = []
  ∧ concat (message_text <$> omap tool_message blocks) = []
  ∧ concat (message_urls <$> omap tool_message blocks) = [].
Proof.
  induction blocks as [|b blocks (H1 & H2 & H3 & H4)]; [done|].
  destruct b; cbn in *; try done. rewrite result_text_eq. split_and!; [by f_equal|done|done|done].
Qed.

(** A user turn: one message per result, then what is left as one message. *)
Lemma translate_user_spec msg :
  is_user_turn msg = true →
  match translate_user_message (am_content msg) with
  | Ok ms => turn_carried msg ms
  | Err e => ∃ pre u post, turn_urls msg = pre ++ u :: post
                           ∧ Forall (λ u, https u = true) pre ∧ https u = false ∧ e = InvalidImageUrl u
  end.
Proof.
  intros Hu. assert (Ha : is_assistant_turn msg = false).
  { unfold is_user_turn in Hu. unfold is_assistant_turn. by destruct (bool_decide (_ = lit "assistant")). }
  unfold translate_user_message.
  destruct (am_content msg) as [s|blocks] eqn:Ec.
  - split; unfold turn_results, turn_calls, turn_urls, turn_images, turn_blocks; rewrite ?Ec, ?Hu, ?Ha; cbn;
      rewrite ?app_nil_r; try done; constructor.
  - destruct (tool_messages_carry blocks) as (T1 & T2 & T3 & T4).
    pose proof (blocks_to_parts_spec (filter (λ b, is_tool_result b = false) blocks)) as Hp.
    rewrite (omap_filter_results block_url), (omap_filter_results block_text),
      (omap_filter_results block_image) in Hp by (by intros []).
    destruct (filter (λ b, is_tool_result b = false) blocks) as [|b rest] eqn:Ef.
    + destruct Hp as (P1 & P2 & _ & P4).
      split; unfold turn_results, turn_calls, turn_urls, turn_images, turn_blocks; rewrite ?Ec, ?Hu, ?Ha; cbn;
        rewrite ?T1, ?T2, ?T3, ?T4; done.
    + unfold translate_content_blocks_to_parts.
      destruct (blocks_to_parts (b :: rest)) as [parts|e]; cbn [result_bind].
      2: { unfold turn_urls, turn_blocks. by rewrite Ec, Hu. }
      destruct Hp as (P1 & P2 & P3 & P4).
      set (parts' := match parts with [] => [PartText []] | _ => parts end).
      assert (Hne : parts' ≠ []) by (by destruct parts).
      assert (P2' : concat (omap part_text parts') = concat (omap block_text blocks)) by (by destruct parts).
      assert (P4' : omap part_url parts' = omap block_image blocks) by (by destruct parts).
      destruct (user_message_of_parts_carries parts' Hne) as (U1 & U2 & U3 & U4).
      split; unfold turn_results, turn_calls, turn_urls, turn_images, turn_blocks; rewrite ?Ec, ?Hu, ?Ha;
        rewrite ?omap_app, ?fmap_app, ?concat_app; rewrite ?T1, ?T2, ?T3, ?T4; cbn [fmap list_fmap concat omap list_omap].
      * cbn. by rewrite U1, app_nil_r.
      * cbn. by rewrite U2.
      * cbn. by rewrite U3, app_nil_r.
      * cbn. by rewrite app_nil_r, U4, P4', <- P4.
      * cbn. by rewrite app_nil_r, U4, P4'.
      * done.
Qed.

Lemma translate_message_spec msg :
  match translate_message msg with
  | Ok ms => turn_carried msg ms
  | Err e => ∃ pre u post, turn_urls msg = pre ++ u :: post
                           ∧ Forall (λ u, https u = true) pre ∧ https u = false ∧ e = InvalidImageUrl u
  end.
Proof.
  unfold translate_message.
  destruct (bool_decide_reflect (am_role msg = lit "user")) as [E|Hu].
  { apply translate_user_spec. unfold is_user_turn. by rewrite E. }
  destruct (bool_decide_reflect (am_role msg = lit "assistant")) as [E|Hass].
  { assert (is_user_turn msg = false ∧ is_assistant_turn msg = true) as [Hu' Ha]
      by (unfold is_user_turn, is_assistant_turn; by rewrite E).
    split; unfold turn_results, turn_calls, turn_urls, turn_images, turn_blocks; rewrite ?Hu', ?Ha; try done;
      destruct (am_content msg) as [s|blocks]; cbn; rewrite ?app_nil_r; try done.
    - change (omap block_call blocks) with (omap tool_call_of blocks).
      by destruct (omap tool_call_of blocks).
    - by destruct (omap block_text blocks). }
  destruct (bool_decide_reflect (am_role msg = lit "system")) as [E|Hsys].
  { assert (is_user_turn msg = false ∧ is_assistant_turn msg = false) as [Hu' Ha]
      by (unfold is_user_turn, is_assistant_turn; by rewrite E).
    split; unfold turn_results, turn_calls, turn_urls, turn_images, turn_blocks; rewrite ?Hu', ?Ha; try done;
      cbn; rewrite ?app_nil_r; done. }
  apply translate_user_spec. unfold is_user_turn. by rewrite !bool_decide_eq_false_2.
Qed.

(** ** Requests *)

Lemma translate_messages_spec msgs :
  match translate_messages msgs with
  | Ok ms =>
      omap message_result ms = concat (turn_results <$> msgs)
      ∧ concat (message_calls <$> ms) = concat (turn_calls <$> msgs)
      ∧ concat (message_text <$> ms) = concat ((λ m, as_text (am_content m)) <$> msgs)
      ∧ Forall (λ u, safe_url u = true) (concat (message_urls <$> ms))
      ∧ concat (message_urls <$> ms) = concat (turn_images <$> msgs)
      ∧ Forall (λ u, https u = true) (concat (turn_urls <$> msgs))
  | Err e => ∃ pre u post, concat (turn_urls <$> msgs) = pre ++ u :: post
                           ∧ Forall (λ u, https u = true) pre ∧ https u = false ∧ e = InvalidImageUrl u
  end.
Proof.
  induction msgs as [|msg msgs IH]; [cbn; split_and!; done|]. cbn [translate_messages].
  pose proof (translate_message_spec msg) as Hm.
  destruct (translate_message msg) as [ms1|e]; cbn [result_bind].
  - destruct Hm as [M1 M2 M3 M4 M5 M6]. destruct (translate_messages msgs) as [ms2|e]; cbn [result_bind].
    + destruct IH as (I1 & I2 & I3 & I4 & I5 & I6). rewrite omap_app, !fmap_app, !concat_app.
      split_and!; [by rewrite M1, I1|by rewrite M2, I2|by rewrite M3, I3|by apply Forall_app
                  |by rewrite M5, I5|by apply Forall_app].
    + destruct IH as (pre & u & post & I1 & I2 & I3 & I4).
      exists (turn_urls msg ++ pre), u, post. cbn. rewrite I1, <- app_assoc.
      split_and!; [done|by apply Forall_app|done|done].
  - destruct Hm as (pre & u & post & M1 & M2 & M3 & M4).
    exists pre, u, (post ++ concat (turn_urls <$> msgs)). cbn. rewrite M1, <- app_assoc. by split_and!.
Qed.

(** Tool results, tool calls, texts and images of a request before and after. *)
Definition system_text (req : MessagesRequest) : ustr := from_option extract_text_from_system [] (mr_system req).

(** C32: what a translated request carries, by the role of its turns.  A request is refused
    exactly when one of the remote images of a user turn is not served over HTTPS, with the
    first such address.  Otherwise the translation carries, in order: for each tool result of
    the user turns one tool message with its identifier and text, the tool calls of the
    assistant turns, all of the text with the system prompt first, and the images of the user
    turns, remote or inline; and nothing else of these kinds: a tool result or an image in an
    assistant turn and a tool use in a user turn are dropped.  Every image address is HTTPS
    or inline data. *)
Theorem anthropic_to_chat_exact (req : MessagesRequest) (model : ustr) :
  match anthropic_to_chat req model with
  | Ok chat =>
      Forall (λ u, https u = true) (concat (turn_urls <$> mr_messages req))
      ∧ omap message_result (req_messages chat) = concat (turn_results <$> mr_messages req)
      ∧ concat (message_calls <$> req_messages chat) = concat (turn_calls <$> mr_messages req)
      ∧ concat (message_text <$> req_messages chat)
        = system_text req ++ concat ((λ m, as_text (am_content m)) <$> mr_messages req)
      ∧ concat (message_urls <$> req_messages chat) = concat (turn_images <$> mr_messages req)
      ∧ Forall (λ u, safe_url u = true) (concat (message_urls <$> req_messages chat))
      ∧ req_model chat = model ∧ req_max_tokens chat = Some (mr_max_tokens req)
      ∧ (is_Some (req_tools chat) → is_Some (req_tool_choice chat))
  | Err e =>
      ∃ pre u post, concat (turn_urls <$> mr_messages req) = pre ++ u :: post
                    ∧ Forall (λ u, https u = true) pre ∧ https u = false ∧ e = InvalidImageUrl u
  end.
Proof.
  unfold anthropic_to_chat. pose proof (translate_messages_spec (mr_messages req)) as Hm.
  destruct (translate_messages (mr_messages req)) as [ms|e]; cbn [result_bind]; [|exact Hm].
  destruct Hm as (M1 & M2 & M3 & M4 & M5 & M6). cbn [req_messages req_model req_max_tokens req_tools req_tool_choice].
  unfold system_text. destruct (mr_system req) as [sys|]; cbn [app from_option];
    (split_and!; [done| | | | | |done|done|]);
    try (cbn; by rewrite ?M1, ?M2, ?M3, ?M5); try done;
    destruct (mr_tool_choice req), (mr_tools req); cbn; by eauto.
Qed.

(** ** Answers *)

Definition response_blocks (blocks : list ContentBlock) : list ResponseBlock :=
  (match concat (omap block_text blocks) with [] => [] | t => [RBText t] end)
  ++ omap (λ b, match b with BlockToolUse id nm input => Some (RBToolUse id nm input) | _ => None end) blocks.

Lemma response_tool_calls `{!SerdeJsonLaws} (blocks : list ContentBlock) :
  response_tool_use <$> omap tool_call_of blocks
  = omap (λ b, match b with BlockToolUse id nm input => Some (RBToolUse id nm input) | _ => None end) blocks.
Proof.
  induction blocks as [|b blocks IH]; [done|]. destruct b as [|id nm input| | | |]; try exact IH.
  cbn. f_equal; [|exact IH]. unfold response_tool_use, parse_tool_arguments. cbn.
  destruct (to_string_total input) as [s Hs]. rewrite Hs. cbn. by rewrite (from_to_string _ _ Hs).
Qed.

(** An assistant turn survives the way to the backend and back.  If a backend answers
    with the turn the gateway made of an assistant's blocks, the client gets back the text
    of those blocks as one block, followed by every tool use with its identifier, name and
    input unchanged, never an empty list; and it is told to run tools exactly when there is
    one, whatever finish reason the backend gave. *)
Theorem assistant_turn_roundtrip `{!SerdeJsonLaws} (blocks : list ContentBlock)
    (id object rmodel model : ustr) (created idx : N) (finish : option ustr) (usage : option Usage)
    (more : list Choice) :
  ∃ answer,
    chat_to_anthropic
      (mkResponse id object created rmodel
         (mkChoice idx (translate_assistant_message (ABlocks blocks)) finish :: more) usage) model
    = Ok answer
    ∧ mres_content answer = (match response_blocks blocks with [] => [RBText []] | bs => bs end)
    ∧ mres_stop_reason answer
      = (if existsb (λ b, match b with BlockToolUse _ _ _ => true | _ => false end) blocks
         then Some (lit "tool_use") else map_stop_reason <$> finish)
    ∧ mres_model answer = model.
Proof.
  eexists. split; [done|]. cbn [resp_choices choice_message translate_assistant_message content tool_calls
    mres_content mres_stop_reason mres_model choice_finish_reason].
  set (text := text_content (ContentText match omap block_text blocks with
                               | [] => [] | _ => concat (omap block_text blocks) end)).
  assert (Hblocks : (if text is [] then [] else [RBText text])
     ++ (response_tool_use <$> default [] match omap tool_call_of blocks with
                                          | [] => None | _ => Some (omap tool_call_of blocks) end)
     = response_blocks blocks).
  { unfold response_blocks, text. cbn [text_content]. f_equal.
    - destruct (omap block_text blocks); [done|]. by destruct (concat _).
    - rewrite <- response_tool_calls. by destruct (omap tool_call_of blocks). }
  assert (Huse : existsb is_tool_use (response_blocks blocks)
                 = existsb (λ b, match b with BlockToolUse _ _ _ => true | _ => false end) blocks).
  { unfold response_blocks. rewrite existsb_app.
    replace (existsb is_tool_use match concat (omap block_text blocks) with [] => [] | t => [RBText t] end)
      with false by (by destruct (concat (omap block_text blocks))).
    cbn [orb]. clear. induction blocks as [|[] blocks IH]; try done. }
  split_and!; [|rewrite <- Huse|done].
  - rewrite Hblocks. by destruct (response_blocks blocks).
  - rewrite Hblocks. by destruct (response_blocks blocks).
Qed.
End translation.
