(* ===== verification/Breaker.v ===== *)
(** * Breaker: the circuit breakers of the gateway

    [crates/gradatum-gateway/src/commons/circuit_breaker.rs]: one breaker per provider,
    closed until failures accumulate, open for a cooldown, then half open for one probe.
    Instants and durations are nanoseconds; a reading of the clock is an argument. *)

From S2P Require Import Prelude Text GatewayTypes.

#[local] Open Scope nat_scope.

Inductive CircuitState := Closed | Open | HalfOpen.
#[export] Instance CircuitState_eq_dec : EqDecision CircuitState.
Proof. solve_decision. Defined.

Record CircuitBreakerConfig := mkBreakerConfig { threshold : nat; window : Z; cooldown : Z }.

Record Inner := mkInner {
  state : CircuitState;
  failure_timestamps : list Z;
  opened_at : option Z;
  half_open_probe_in_flight : bool }.

(** [Instant::duration_since] and [elapsed]: zero when the clock went back. *)
Definition duration_since (now ts : Z) : Z := Z.max 0 (now - ts).

Definition breaker_new : Inner := mkInner Closed [] None false.

Definition counts_as_circuit_failure (e : LlmError) : bool :=
  match e with Network | Timeout | RateLimited _ _ | UpstreamError _ _ => true | _ => false end.

Abbreviation breakers := (gmap ustr Inner).

Section breaker.
Context (config : CircuitBreakerConfig).

Definition evaluate_state_transition (now : Z) (inner : Inner) : Inner :=
  match state inner, opened_at inner with
  | Open, Some opened =>
      if bool_decide (cooldown config ≤ duration_since now opened)%Z
      then mkInner HalfOpen (failure_timestamps inner) (opened_at inner) false
      else inner
  | _, _ => inner
  end.

Definition evict_stale_failures (now : Z) (inner : Inner) : Inner :=
  mkInner (state inner)
    (filter (λ ts, (duration_since now ts < window config)%Z) (failure_timestamps inner))
    (opened_at inner) (half_open_probe_in_flight inner).

Definition breaker_state (now : Z) (inner : Inner) : CircuitState * Inner :=
  let inner := evaluate_state_transition now inner in (state inner, inner).

Definition should_allow (now : Z) (inner : Inner) : bool * Inner :=
  let inner := evaluate_state_transition now inner in
  match state inner with
  | Closed => (true, inner)
  | Open => (false, inner)
  | HalfOpen =>
      if half_open_probe_in_flight inner then (false, inner)
      else (true, mkInner (state inner) (failure_timestamps inner) (opened_at inner) true)
  end.

Definition record_success (inner : Inner) : Inner :=
  match state inner with
  | Closed => mkInner Closed [] (opened_at inner) (half_open_probe_in_flight inner)
  | HalfOpen => mkInner Closed [] None false
  | Open => inner
  end.

Definition record_failure (error : LlmError) (now : Z) (inner : Inner) : Inner :=
  if negb (counts_as_circuit_failure error) then inner
  else
    match state inner with
    | Closed =>
        let inner := evict_stale_failures now
                       (mkInner Closed (failure_timestamps inner ++ [now]) (opened_at inner)
                          (half_open_probe_in_flight inner)) in
        if threshold config <=? length (failure_timestamps inner)
        then mkInner Open [] (Some now) (half_open_probe_in_flight inner)
        else inner
    | HalfOpen => mkInner Open [] (Some now) false
    | Open => mkInner Open (failure_timestamps inner) (Some now) (half_open_probe_in_flight inner)
    end.

Definition failure_count (now : Z) (inner : Inner) : nat * Inner :=
  let inner := evict_stale_failures now inner in (length (failure_timestamps inner), inner).

(** ** The registry: a breaker per provider, made on first use *)

Definition breaker_of (b : breakers) (provider_id : ustr) : Inner := default breaker_new (b !! provider_id).

Definition reg_should_allow (provider_id : ustr) (now : Z) (b : breakers) : bool * breakers :=
  let '(allowed, cb) := should_allow now (breaker_of b provider_id) in (allowed, <[provider_id := cb]> b).
Definition reg_record_success (provider_id : ustr) (b : breakers) : breakers :=
  <[provider_id := record_success (breaker_of b provider_id)]> b.
Definition reg_record_failure (provider_id : ustr) (error : LlmError) (now : Z) (b : breakers) : breakers :=
  <[provider_id := record_failure error now (breaker_of b provider_id)]> b.
Definition reg_state (provider_id : ustr) (now : Z) (b : breakers) : CircuitState * breakers :=
  match b !! provider_id with
  | Some cb => let '(s, cb) := breaker_state now cb in (s, <[provider_id := cb]> b)
  | None => (Closed, b)
  end.

(** ** Histories of calls on one breaker *)

Inductive breaker_call :=
| CallAllow (now : Z)
| CallSuccess (now : Z)
| CallFailure (error : LlmError) (now : Z)
| CallState (now : Z)
| CallCount (now : Z).

Definition call_time (c : breaker_call) : Z :=
  match c with CallAllow t | CallSuccess t | CallFailure _ t | CallState t | CallCount t => t end.

(** The breaker after a call, and whether the call let a request through. *)
Definition breaker_step (c : breaker_call) (inner : Inner) : bool * Inner :=
  match c with
  | CallAllow now => should_allow now inner
  | CallSuccess _ => (false, record_success inner)
  | CallFailure error now => (false, record_failure error now inner)
  | CallState now => (false, (breaker_state now inner).2)
  | CallCount now => (false, (failure_count now inner).2)
  end.
Fixpoint breaker_run (cs : list breaker_call) (inner : Inner) : nat * Inner :=
  match cs with
  | [] => (0, inner)
  | c :: cs' =>
      let '(let_through, inner1) := breaker_step c inner in
      let '(n, inner2) := breaker_run cs' inner1 in
      ((if let_through then S n else n), inner2)
  end.

(** Calls in the order of time, from an instant on. *)
Fixpoint in_order (t0 : Z) (cs : list breaker_call) : bool :=
  match cs with
  | [] => true
  | c :: cs' => bool_decide (t0 ≤ call_time c)%Z && in_order (call_time c) cs'
  end.

(** ** Properties *)

(** The counted failures of a history since its last success. *)
Fixpoint failures_since (acc : list Z) (cs : list breaker_call) : list Z :=
  match cs with
  | [] => acc
  | CallSuccess _ :: cs' => failures_since [] cs'
  | CallFailure e t :: cs' =>
      failures_since (if counts_as_circuit_failure e then acc ++ [t] else acc) cs'
  | _ :: cs' => failures_since acc cs'
  end.

Definition recent (now : Z) (ts : list Z) : list Z := filter (λ t, (duration_since now t < window config)%Z) ts.

Lemma recent_recent t now ts : (t ≤ now)%Z → recent now (recent t ts) = recent now ts.
Proof.
  intros Hle. unfold recent. rewrite list_filter_filter. apply list_filter_iff.
  unfold duration_since. intros x. lia.
Qed.
Lemma recent_app now a b : recent now (a ++ b) = recent now a ++ recent now b.
Proof. apply filter_app. Qed.

(** A closed breaker whose failures, as far as they are recent, are those of [fs]. *)
Definition closed_with (t : Z) (fs : list Z) (inner : Inner) : Prop :=
  state inner = Closed ∧ ∀ now, (t ≤ now)%Z → recent now (failure_timestamps inner) = recent now fs.

(** The failure that opens a closed breaker. *)
Definition trips (fs : list Z) (e : LlmError) (now : Z) : bool :=
  counts_as_circuit_failure e && (threshold config <=? length (recent now (fs ++ [now]))).

(** No call of a history opens a breaker that starts closed with failures [fs]. *)
Fixpoint never_trips (fs : list Z) (cs : list breaker_call) : bool :=
  match cs with
  | [] => true
  | CallFailure e t :: cs' => negb (trips fs e t) && never_trips (failures_since fs [CallFailure e t]) cs'
  | c :: cs' => never_trips (failures_since fs [c]) cs'
  end.

Lemma closed_failure t fs inner e now :
  closed_with t fs inner → (t ≤ now)%Z →
  if trips fs e now
  then record_failure e now inner = mkInner Open [] (Some now) (half_open_probe_in_flight inner)
  else closed_with now (failures_since fs [CallFailure e now]) (record_failure e now inner).
Proof.
  intros [Hst Hfs] Hle. unfold record_failure, trips. cbn [failures_since].
  destruct (counts_as_circuit_failure e); cbn [negb andb].
  - rewrite Hst. cbn [evict_stale_failures failure_timestamps state half_open_probe_in_flight opened_at].
    fold (recent now (failure_timestamps inner ++ [now])).
    replace (recent now (failure_timestamps inner ++ [now])) with (recent now (fs ++ [now]))
      by (by rewrite !recent_app, Hfs).
    destruct (threshold config <=? length (recent now (fs ++ [now]))); [done|].
    split; [done|]. intros now' Hle'. cbn. etrans; [by apply recent_recent|].
    rewrite !recent_app, Hfs by lia. done.
  - split; [done|]. intros now' Hle'. apply Hfs. lia.
Qed.

Lemma closed_other t fs inner c :
  closed_with t fs inner → (t ≤ call_time c)%Z → (∀ e now, c ≠ CallFailure e now) →
  closed_with (call_time c) (failures_since fs [c]) (breaker_step c inner).2.
Proof.
  intros [Hst Hfs] Hle Hne. destruct c as [now|now|e now|now|now]; cbn in *.
  - unfold should_allow, evaluate_state_transition. rewrite Hst. cbn. rewrite Hst.
    split; [done|]. intros. apply Hfs. lia.
  - unfold record_success. rewrite Hst. by split.
  - by destruct (Hne e now).
  - unfold evaluate_state_transition. rewrite Hst. split; [done|]. intros. apply Hfs. lia.
  - split; [done|]. intros now' Hle'. cbn. rewrite <- (Hfs now') by lia. by apply recent_recent.
Qed.

Lemma closed_run cs t fs inner :
  closed_with t fs inner → in_order t cs = true → never_trips fs cs = true →
  ∃ t', (∀ now, in_order t (cs ++ [CallSuccess now]) = true → (t' ≤ now)%Z)
        ∧ closed_with t' (failures_since fs cs) (breaker_run cs inner).2.
Proof.
  revert t fs inner. induction cs as [|c cs IH]; intros t fs inner Hc Hord Htrip.
  - exists t. split; [|done]. intros now. cbn. case_bool_decide; [done|done].
  - cbn [in_order] in Hord. apply andb_true_iff in Hord as [Hle%bool_decide_eq_true_1 Hord].
    assert (closed_with (call_time c) (failures_since fs [c]) (breaker_step c inner).2
                    ∧ never_trips (failures_since fs [c]) cs = true) as [Hc1 Htrip1].
    { destruct c as [now|now|e now|now|now]; try (split; [by apply (closed_other t)|done]).
      cbn [never_trips] in Htrip. apply andb_true_iff in Htrip as [Ht Htrip].
      split; [|done]. pose proof (closed_failure t fs inner e now Hc Hle) as Hf.
      by destruct (trips fs e now). }
    destruct (IH _ _ _ Hc1 Hord Htrip1) as (t' & Ht' & Hc'). exists t'. split.
    + intros now Hall. cbn [app in_order] in Hall. apply andb_true_iff in Hall as [_ Hall]. by apply Ht'.
    + cbn [breaker_run]. destruct (breaker_step c inner) as [lt inner1]. cbn [snd] in *.
      destruct (breaker_run cs inner1) as [n inner2]. cbn [snd] in *.
      replace (failures_since fs (c :: cs)) with (failures_since (failures_since fs [c]) cs); [done|].
      by destruct c.
Qed.

(** A closed breaker opens exactly when it should.  After any history of calls in order
    of time that has not opened it, one more failure opens it if and only if it is of a
    counted kind and, with it, at least [threshold] counted failures lie within the window,
    all of them since the last success; and until then every request is let through. *)
Theorem breaker_trips_exactly (cs : list breaker_call) (t0 : Z) (e : LlmError) (now : Z)
    (ordered : in_order t0 (cs ++ [CallFailure e now]) = true)
    (quiet : never_trips [] cs = true) :
  let inner := (breaker_run cs breaker_new).2 in
  (should_allow now inner).1 = true
  ∧ state (record_failure e now inner)
    = (if counts_as_circuit_failure e
          && (threshold config <=? length (recent now (failures_since [] cs ++ [now])))
       then Open else Closed).
Proof.
  assert (Hord : in_order t0 cs = true ∧ in_order t0 (cs ++ [CallSuccess now]) = true).
  { clear quiet. revert t0 ordered. induction cs as [|c cs IH]; intros t0; cbn; [done|].
    rewrite !andb_true_iff. intros [Hle Hord]. destruct (IH _ Hord). done. }
  destruct (closed_run cs t0 [] breaker_new) as (t' & Ht' & Hc); [done|tauto|done|].
  pose proof (closed_failure _ _ _ e now Hc (Ht' now (proj2 Hord))) as Hf.
  destruct Hc as [Hst Hfs]. unfold trips in Hf. cbn zeta. split.
  - unfold should_allow, evaluate_state_transition. rewrite Hst. cbn. by rewrite Hst.
  - destruct (counts_as_circuit_failure e && _); [by rewrite Hf|apply Hf].
Qed.

(** Calls that settle nothing: no success, and no failure of a counted kind. *)
Definition no_outcome (c : breaker_call) : bool :=
  match c with
  | CallSuccess _ => false
  | CallFailure e _ => negb (counts_as_circuit_failure e)
  | _ => true
  end.

Lemma breaker_run_app cs1 cs2 inner :
  breaker_run (cs1 ++ cs2) inner
  = ((breaker_run cs1 inner).1 + (breaker_run cs2 (breaker_run cs1 inner).2).1,
     (breaker_run cs2 (breaker_run cs1 inner).2).2).
Proof.
  revert inner. induction cs1 as [|c cs IH]; intros inner; cbn [app breaker_run].
  - cbn [fst snd]. destruct (breaker_run cs2 inner); done.
  - destruct (breaker_step c inner) as [[] inner1]; rewrite IH; destruct (breaker_run cs inner1); done.
Qed.

(** An uncounted failure changes nothing. *)
Lemma uncounted_failure e now inner :
  negb (counts_as_circuit_failure e) = true → breaker_step (CallFailure e now) inner = (false, inner).
Proof. intros He. cbn. unfold record_failure. by rewrite He. Qed.

Lemma half_open_run cs inner :
  state inner = HalfOpen → forallb no_outcome cs = true →
  (breaker_run cs inner).1 ≤ (if half_open_probe_in_flight inner then 0 else 1).
Proof.
  revert inner. induction cs as [|c cs IH]; intros inner Hst Hno; [cbn; destruct (half_open_probe_in_flight _); lia|].
  cbn [forallb] in Hno. apply andb_true_iff in Hno as [Hc Hno]. cbn [breaker_run].
  destruct c as [now| |e now|now|now]; try done.
  - cbn [breaker_step]. unfold should_allow, evaluate_state_transition. rewrite Hst. rewrite Hst.
    destruct (half_open_probe_in_flight inner) eqn:Ep.
    + specialize (IH inner Hst Hno). rewrite Ep in IH. by destruct (breaker_run cs inner).
    + specialize (IH (mkInner HalfOpen (failure_timestamps inner) (opened_at inner) true) eq_refl Hno).
      cbn in IH. destruct (breaker_run cs _) as [n i]. cbn in *. lia.
  - rewrite uncounted_failure by done. specialize (IH inner Hst Hno). by destruct (breaker_run cs inner).
  - cbn [breaker_step]. unfold breaker_state, evaluate_state_transition. rewrite Hst. cbn [snd].
    specialize (IH inner Hst Hno). by destruct (breaker_run cs inner).
  - specialize (IH (evict_stale_failures now inner) Hst Hno). cbn [breaker_step failure_count snd].
    by destruct (breaker_run cs _).
Qed.

(** An open breaker since [opened], asked before the cooldown has passed. *)
Lemma open_step c inner opened :
  state inner = Open → opened_at inner = Some opened → (opened ≤ call_time c)%Z →
  (duration_since (call_time c) opened < cooldown config)%Z →
  ∃ opened', (opened ≤ opened' ≤ call_time c)%Z
    ∧ (breaker_step c inner).1 = false
    ∧ state (breaker_step c inner).2 = Open ∧ opened_at (breaker_step c inner).2 = Some opened'.
Proof.
  intros Hst Hop Hle Hcool.
  assert (He : ∀ now, call_time c = now → evaluate_state_transition now inner = inner).
  { intros now <-. unfold evaluate_state_transition. rewrite Hst, Hop, bool_decide_eq_false_2 by lia. done. }
  destruct c as [now|now|e now|now|now]; cbn in *.
  - exists opened. unfold should_allow. rewrite He, Hst by done. done.
  - exists opened. unfold record_success. rewrite Hst. done.
  - unfold record_failure. destruct (counts_as_circuit_failure e); cbn.
    + exists now. rewrite Hst. cbn. split_and!; [lia|lia|done..].
    + by exists opened.
  - exists opened. rewrite He by done. done.
  - exists opened. done.
Qed.

Lemma open_run cs inner opened t0 t :
  state inner = Open → opened_at inner = Some opened → (t0 ≤ opened ≤ t)%Z → in_order t cs = true →
  forallb (λ c, bool_decide (duration_since (call_time c) t0 < cooldown config)%Z) cs = true →
  (breaker_run cs inner).1 = 0 ∧ state (breaker_run cs inner).2 = Open
  ∧ is_Some (opened_at (breaker_run cs inner).2).
Proof.
  revert inner opened t. induction cs as [|c cs IH]; intros inner opened t Hst Hop Hle Hord Hin; [cbn; rewrite Hop; done|].
  cbn [forallb in_order] in *.
  apply andb_true_iff in Hord as [Hlt%bool_decide_eq_true_1 Hord].
  apply andb_true_iff in Hin as [Hc%bool_decide_eq_true_1 Hin].
  destruct (open_step c inner opened) as (o' & Ho & Hs1 & Hs2 & Hs3); [done|done|lia| |].
  { revert Hc. unfold duration_since. lia. }
  cbn [breaker_run]. destruct (breaker_step c inner) as [lt inner1]. cbn in Hs1, Hs2, Hs3. subst lt.
  destruct (IH inner1 o' (call_time c)) as (I1 & I2 & I3); [done|done|lia|done|done|].
  destruct (breaker_run cs inner1). done.
Qed.

(** An open breaker lets at most one request through before an outcome is recorded. *)
Lemma open_run_silent cs inner :
  state inner = Open → is_Some (opened_at inner) → forallb no_outcome cs = true →
  (breaker_run cs inner).1 ≤ 1.
Proof.
  intros Hst [opened Hop]. revert inner Hst Hop.
  induction cs as [|c cs IH]; intros inner Hst Hop Hno; [cbn; lia|].
  pose proof (half_open_run cs (mkInner HalfOpen (failure_timestamps inner) (Some opened) true) eq_refl) as Hh1.
  pose proof (half_open_run cs (mkInner HalfOpen (failure_timestamps inner) (Some opened) false) eq_refl) as Hh2.
  cbn [forallb] in Hno. apply andb_true_iff in Hno as [Hc Hno].
  specialize (IH inner Hst Hop Hno) as IHi. specialize (Hh1 Hno). specialize (Hh2 Hno).
  cbn [breaker_run]. destruct c as [now| |e now|now|now]; try done.
  - cbn [breaker_step]. unfold should_allow, evaluate_state_transition. rewrite Hst, Hop.
    case_bool_decide; cbn [state half_open_probe_in_flight failure_timestamps opened_at]; [|rewrite Hst].
    + destruct (breaker_run cs (mkInner HalfOpen _ _ true)); cbn in *; lia.
    + destruct (breaker_run cs inner); cbn in *; lia.
  - rewrite uncounted_failure by done. by destruct (breaker_run cs inner).
  - cbn [breaker_step]. unfold breaker_state, evaluate_state_transition. rewrite Hst, Hop.
    case_bool_decide; cbn [snd].
    + destruct (breaker_run cs (mkInner HalfOpen _ _ false)); cbn in *; lia.
    + destruct (breaker_run cs inner); cbn in *; lia.
  - specialize (IH (evict_stale_failures now inner) Hst Hop Hno). cbn [breaker_step failure_count snd].
    by destruct (breaker_run cs _).
Qed.

Lemma opening_failure e t0 inner :
  state (record_failure e t0 inner) = Open → counts_as_circuit_failure e = true →
  opened_at (record_failure e t0 inner) = Some t0.
Proof.
  unfold record_failure. intros Hst He. rewrite He in *. cbn [negb] in *.
  destruct (state inner) eqn:Es; [|done|done].
  destruct (threshold config <=? _); [done|]. cbn in Hst. congruence.
Qed.

(** C14: an open breaker sheds load.  Let a counted failure recorded at [t0] leave the breaker
    open.  While the cooldown of that failure lasts, no request is let through and the breaker
    stays open, whatever calls are made in the order of time, late successes and late
    failures of other requests included: a success does not close it, a counted failure only
    moves the end of the cooldown.  From then on, at whatever times it is asked, at most one
    request is let through until a success or a counted failure is recorded. *)
Theorem open_breaker_sheds_load (e : LlmError) (inner : Inner) (t0 : Z) (early late : list breaker_call)
    (opened : state (record_failure e t0 inner) = Open) (counted : counts_as_circuit_failure e = true)
    (ordered : in_order t0 early = true)
    (cooling : forallb (λ c, bool_decide (duration_since (call_time c) t0 < cooldown config)%Z) early = true)
    (unsettled : forallb no_outcome late = true) :
  (breaker_run early (record_failure e t0 inner)).1 = 0
  ∧ state (breaker_run early (record_failure e t0 inner)).2 = Open
  ∧ (breaker_run (early ++ late) (record_failure e t0 inner)).1 ≤ 1.
Proof.
  destruct (open_run early (record_failure e t0 inner) t0 t0 t0) as (H1 & H2 & H3);
    [done|by apply opening_failure|lia|done|done|].
  split_and!; [done|done|]. rewrite breaker_run_app, H1. cbn [fst]. by apply open_run_silent.
Qed.

(** A probe whose outcome does not count closes the breaker for good.  When the request
    let through by a half-open breaker ends with an error that is not counted, or without
    any outcome, no later request is ever let through, at any time, however many uncounted
    errors are recorded; only a success or a counted failure of another request would free
    it. *)
Theorem lost_probe_blocks_forever (inner : Inner) (now : Z) (cs : list breaker_call)
    (half : state inner = HalfOpen) (probe : (should_allow now inner).1 = true)
    (lost : forallb (λ c, match c with
                          | CallSuccess _ => false
                          | CallFailure e _ => negb (counts_as_circuit_failure e)
                          | _ => true
                          end) cs = true) :
  (breaker_run cs (should_allow now inner).2).1 = 0.
Proof.
  assert (Hs : state (should_allow now inner).2 = HalfOpen
               ∧ half_open_probe_in_flight (should_allow now inner).2 = true).
  { unfold should_allow, evaluate_state_transition in *. rewrite half in *. rewrite half in *.
    by destruct (half_open_probe_in_flight inner). }
  clear half probe. revert Hs lost. generalize (should_allow now inner).2. clear inner now.
  induction cs as [|c cs IH]; intros inner [Hst Hp] Hl; [done|].
  cbn [forallb] in Hl. apply andb_true_iff in Hl as [Hc Hl].
  assert (∃ inner', breaker_step c inner = (false, inner')
    ∧ state inner' = HalfOpen ∧ half_open_probe_in_flight inner' = true) as (inner' & Hs & Hst' & Hp').
  { destruct c as [t| |e t|t|t]; try done; cbn.
    - exists inner. unfold should_allow, evaluate_state_transition. rewrite Hst. by rewrite Hst, Hp.
    - exists inner. unfold record_failure. by rewrite Hc.
    - exists inner. unfold evaluate_state_transition. by rewrite Hst.
    - by eexists. }
  cbn [breaker_run]. rewrite Hs. pose proof (IH inner' (conj Hst' Hp') Hl) as Hr.
  by destruct (breaker_run cs inner').
Qed.
End breaker.
