(* ===== verification/RateLimit.v ===== *)
(** * RateLimit: the limiter of requests per client

    [crates/gradatum-gateway/src/rate_limit.rs]: a window of a minute per address, counted
    from its first request.  A call reads the clock up to three times: [now], once more for
    the eviction of expired windows and once more for the age of the window. *)

From S2P Require Import Prelude Text.

#[local] Open Scope nat_scope.

Record Window := mkWindow { count : nat; started_at : Z }.

(** Addresses are numbers: an [IpAddr] is its bits. *)
Abbreviation windows := (gmap N Window).

Definition window_duration : Z := 60 * 1000000000.

(** [Instant::elapsed] at the instant [t]. *)
Definition elapsed (t : Z) (w : Window) : Z := Z.max 0 (t - started_at w).

(** The three readings of the clock of a call. *)
Record reading := mkReading { r_now : Z; r_evict : Z; r_age : Z }.

Section limiter.
Context (max_per_minute : nat).

Definition evict (t : Z) (map : windows) : windows :=
  if 1000 <? size map then filter (λ kv, (elapsed t kv.2 < window_duration)%Z) map else map.

Definition check_and_increment (ip : N) (r : reading) (map : windows) : bool * windows :=
  if max_per_minute =? 0 then (true, map)
  else
    let map := evict (r_evict r) map in
    let entry := default (mkWindow 0 (r_now r)) (map !! ip) in
    let entry := if bool_decide (window_duration ≤ elapsed (r_age r) entry)%Z
                 then mkWindow 0 (r_now r) else entry in
    if max_per_minute <=? count entry then (false, <[ip := entry]> map)
    else (true, <[ip := mkWindow (S (count entry)) (started_at entry)]> map).

(** ** Histories *)

Fixpoint limiter_run (calls : list (N * reading)) (map : windows) : list bool * windows :=
  match calls with
  | [] => ([], map)
  | (ip, r) :: rest =>
      let '(ok, map1) := check_and_increment ip r map in
      let '(oks, map2) := limiter_run rest map1 in
      (ok :: oks, map2)
  end.

(** The readings of a history never go back. *)
Fixpoint clock_ok (t : Z) (calls : list (N * reading)) : bool :=
  match calls with
  | [] => true
  | (_, r) :: rest =>
      bool_decide (t ≤ r_now r)%Z && bool_decide (r_now r ≤ r_evict r)%Z
      && bool_decide (r_evict r ≤ r_age r)%Z && clock_ok (r_age r) rest
  end.

(** The instants at which the requests of an address were let through. *)
Definition admitted (ip : N) (calls : list (N * reading)) (oks : list bool) : list Z :=
  omap (λ p : (N * reading) * bool, if (p.1.1 =? ip)%N && p.2 then Some (r_now p.1.2) else None)
    (zip calls oks).

Definition within (lo hi : Z) (ts : list Z) : nat := length (filter (λ t, (lo ≤ t < hi)%Z) ts).

(** ** The window of an address *)

Lemma lookup_evict t map ip :
  evict t map !! ip = map !! ip
  ∨ evict t map !! ip = None ∧ ∃ w, map !! ip = Some w ∧ (window_duration ≤ elapsed t w)%Z.
Proof.
  unfold evict. destruct (1000 <? size map); [|by left].
  destruct (map !! ip) as [w|] eqn:E.
  - destruct (decide (elapsed t w < window_duration)%Z) as [Hlt|Hge].
    + left. by apply map_lookup_filter_Some_2.
    + right. split; [|exists w; split; [done|lia]]. apply map_lookup_filter_None_2. right. intros x Hx HP. cbn in HP.
      assert (Some x = Some w) as [= ->] by (rewrite <- E; exact (eq_sym Hx)). lia.
  - left. apply map_lookup_filter_None_2. by left.
Qed.

(** What a call does to the window of its own address: an expired or absent window starts
    anew, otherwise it goes on; evicted windows were expired. *)
Definition window_after (w : option Window) (r : reading) : Window :=
  match w with
  | Some w => if bool_decide (window_duration ≤ elapsed (r_age r) w)%Z then mkWindow 0 (r_now r) else w
  | None => mkWindow 0 (r_now r)
  end.

Lemma elapsed_mono t t' w : (t ≤ t')%Z → (elapsed t w ≤ elapsed t' w)%Z.
Proof. unfold elapsed. lia. Qed.

Lemma check_own ip r map :
  max_per_minute ≠ 0 → (r_evict r ≤ r_age r)%Z →
  let w := window_after (map !! ip) r in
  (check_and_increment ip r map).1 = negb (max_per_minute <=? count w)
  ∧ (check_and_increment ip r map).2 !! ip
    = Some (if max_per_minute <=? count w then w else mkWindow (S (count w)) (started_at w)).
Proof.
  intros Hmax Hle. unfold check_and_increment. rewrite (proj2 (Nat.eqb_neq _ _) Hmax).
  set (entry := if bool_decide _ then _ else _).
  assert (entry = window_after (map !! ip) r) as ->.
  { subst entry. unfold window_after.
    assert (Hfresh : (if bool_decide (window_duration ≤ elapsed (r_age r) (mkWindow 0 (r_now r)))%Z
                      then mkWindow 0 (r_now r) else mkWindow 0 (r_now r)) = mkWindow 0 (r_now r))
      by (by destruct (bool_decide _)).
    destruct (lookup_evict (r_evict r) map ip) as [->|[-> (w & -> & Hw)]].
    - by destruct (map !! ip).
    - cbn. rewrite Hfresh. rewrite bool_decide_eq_true_2; [done|].
      pose proof (elapsed_mono _ _ w Hle). lia. }
  destruct (max_per_minute <=? count _); cbn; by rewrite lookup_insert_eq.
Qed.

(** A call for another address at most evicts a window that had expired. *)
Lemma check_other ip ip' r map :
  ip ≠ ip' →
  (check_and_increment ip' r map).2 !! ip = map !! ip
  ∨ (check_and_increment ip' r map).2 !! ip = None
    ∧ ∃ w, map !! ip = Some w ∧ (window_duration ≤ elapsed (r_evict r) w)%Z.
Proof.
  intros Hne. unfold check_and_increment. destruct (max_per_minute =? 0); [by left|].
  destruct (max_per_minute <=? _); cbn; rewrite lookup_insert_ne by done; apply lookup_evict.
Qed.

(** ** The bound *)

Section bound.
Context (delay lo : Z) (Hdelay : (0 ≤ delay < window_duration)%Z) (Hmax : max_per_minute ≠ 0).
Let hi : Z := (lo + window_duration - delay)%Z.

(** How many more requests can fall between [lo] and [hi] once the clock has reached [t]
    and the window of the address is [w]. *)
Definition allowance (t : Z) (w : option Window) : nat :=
  if bool_decide (hi ≤ t)%Z then 0
  else match w with
       | None => if bool_decide (lo ≤ t)%Z then max_per_minute else 2 * max_per_minute
       | Some w =>
           if bool_decide (lo ≤ started_at w)%Z then max_per_minute - count w
           else if bool_decide (lo ≤ t)%Z then (max_per_minute - count w) + max_per_minute
           else 2 * max_per_minute
       end.

Definition prompt (calls : list (N * reading)) : bool :=
  forallb (λ c, bool_decide (r_age c.2 - r_now c.2 ≤ delay)%Z) calls.

Lemma within_cons t ts : within lo hi (t :: ts) = (if bool_decide (lo ≤ t < hi)%Z then 1 else 0) + within lo hi ts.
Proof. unfold within. rewrite filter_cons. by destruct (decide (lo ≤ t < hi)%Z); case_bool_decide. Qed.

Ltac allowance_cases :=
  unfold allowance, window_after, elapsed in *; cbn in *; subst hi;
  repeat case_bool_decide; cbn in *; try lia.

(** A request of the address itself. *)
Lemma allowance_own t w r :
  (t ≤ r_now r)%Z → (r_now r ≤ r_age r)%Z → (r_age r - r_now r ≤ delay)%Z →
  (∀ w', w = Some w' → (started_at w' ≤ t)%Z ∧ count w' ≤ max_per_minute) →
  (if max_per_minute <=? count (window_after w r) then 0
   else if bool_decide (lo ≤ r_now r < hi)%Z then 1 else 0)
  + allowance (r_age r)
      (Some (if max_per_minute <=? count (window_after w r) then window_after w r
             else mkWindow (S (count (window_after w r))) (started_at (window_after w r))))
  ≤ allowance t w.
Proof.
  intros Ht Hra Hd Hw. destruct (Nat.leb_spec max_per_minute (count (window_after w r))) as [Hle|Hgt];
    destruct w as [w|]; try (destruct (Hw w eq_refl) as [Hs Hc]); clear Hw; allowance_cases.
Qed.

(** A request of another address. *)
Lemma allowance_other t t' w w' :
  (t ≤ t')%Z →
  w' = w ∨ w' = None ∧ (∃ v, w = Some v ∧ (window_duration ≤ elapsed t' v)%Z) →
  (∀ v, w = Some v → count v ≤ max_per_minute) →
  allowance t' w' ≤ allowance t w.
Proof.
  intros Ht [->|[-> (v & -> & Hv)]] Hw.
  - destruct w as [w|]; [pose proof (Hw w eq_refl)|]; allowance_cases.
  - pose proof (Hw v eq_refl). allowance_cases.
Qed.

Definition window_ok (t : Z) (w : option Window) : Prop :=
  ∀ v, w = Some v → (started_at v ≤ t)%Z ∧ count v ≤ max_per_minute.

Lemma limiter_run_allowance ip calls t map :
  clock_ok t calls = true → prompt calls = true → window_ok t (map !! ip) →
  within lo hi (admitted ip calls (limiter_run calls map).1) ≤ allowance t (map !! ip).
Proof.
  revert t map. induction calls as [|[ip' r] calls IH]; intros t map Hclock Hprompt Hw; [cbn; lia|].
  cbn [clock_ok] in Hclock. rewrite !andb_true_iff, !bool_decide_eq_true in Hclock.
  destruct Hclock as [[[H1 H2] H3] Hclock]. cbn [prompt forallb] in Hprompt.
  apply andb_true_iff in Hprompt as [Hd%bool_decide_eq_true_1 Hprompt]. cbn [snd] in Hd.
  cbn [limiter_run]. destruct (decide (ip' = ip)) as [->|Hne].
  - destruct (check_own ip r map Hmax ltac:(lia)) as [Hok Hnew].
    pose proof (allowance_own t (map !! ip) r ltac:(lia) ltac:(lia) Hd Hw) as Hall.
    destruct (check_and_increment ip r map) as [ok map1]. cbn [fst snd] in *.
    assert (Hw1 : window_ok (r_age r) (map1 !! ip)).
    { rewrite Hnew. intros v [= <-].
      assert ((started_at (window_after (map !! ip) r) ≤ r_age r)%Z
              ∧ count (window_after (map !! ip) r) ≤ max_per_minute) as [Hs Hc].
      { clear Hall. unfold window_after. destruct (map !! ip) as [w|]; [|cbn; lia].
        destruct (Hw w eq_refl). case_bool_decide; cbn; lia. }
      destruct (Nat.leb_spec max_per_minute (count (window_after (map !! ip) r)));
        cbn [started_at count]; lia. }
    specialize (IH _ map1 Hclock Hprompt Hw1). rewrite Hnew in IH.
    destruct (limiter_run calls map1) as [oks map2]. cbn [fst] in *.
    unfold admitted. cbn [zip zip_with omap list_omap]. cbn [fst snd]. rewrite N.eqb_refl. subst ok.
    destruct (max_per_minute <=? count (window_after (map !! ip) r)); cbn [negb andb].
    + etrans; [exact IH|]. cbn in Hall. exact Hall.
    + change (within lo hi (r_now r :: admitted ip calls oks) ≤ allowance t (map !! ip)).
      rewrite within_cons. lia.
  - pose proof (check_other ip ip' r map ltac:(done)) as Hother.
    destruct (check_and_increment ip' r map) as [ok map1]. cbn [snd] in *.
    assert (Hch : map1 !! ip = map !! ip ∨ map1 !! ip = None
              ∧ (∃ v, map !! ip = Some v ∧ (window_duration ≤ elapsed (r_age r) v)%Z)).
    { destruct Hother as [|[? (v & ? & ?)]]; [by left|right]. split; [done|]. exists v. split; [done|].
      pose proof (elapsed_mono _ _ v H3). lia. }
    assert (Hw1 : window_ok (r_age r) (map1 !! ip)).
    { intros v Hv. destruct Hch as [E|[E _]]; rewrite E in Hv; [|done].
      destruct (Hw v Hv). split; lia. }
    specialize (IH _ map1 Hclock Hprompt Hw1).
    destruct (limiter_run calls map1) as [oks map2]. cbn [fst] in *.
    unfold admitted. cbn [zip zip_with omap list_omap]. cbn [fst snd].
    rewrite (proj2 (N.eqb_neq ip' ip) Hne). cbn [andb].
    etrans; [exact IH|]. apply (allowance_other t (r_age r)); [lia|done|].
    intros v Hv. by apply Hw.
Qed.
End bound.

(** The limiter bounds what an address gets.  Over any history of requests from any
    addresses, in which the clock does not go back and no call takes longer than [delay]
    between its first and its last look at it: in any stretch of time shorter than a minute
    by that delay, at most twice [max_per_minute] requests of one address are let through,
    and at most [max_per_minute] when no window of the address is open at its beginning. *)
Theorem rate_limit_bounds (calls : list (N * reading)) (ip : N) (delay lo t0 : Z)
    (enabled : max_per_minute ≠ 0) (short : (0 ≤ delay < window_duration)%Z)
    (ordered : clock_ok t0 calls = true) (in_time : prompt delay calls = true) :
  let oks := (limiter_run calls ∅).1 in
  within lo (lo + window_duration - delay) (admitted ip calls oks) ≤ 2 * max_per_minute
  ∧ ((lo ≤ t0)%Z → within lo (lo + window_duration - delay) (admitted ip calls oks) ≤ max_per_minute).
Proof.
  pose proof (limiter_run_allowance delay lo short enabled ip calls t0 ∅ ordered in_time) as Hr.
  rewrite lookup_empty in Hr. specialize (Hr ltac:(done)). cbn zeta. unfold allowance in Hr.
  repeat case_bool_decide; split; lia.
Qed.
End limiter.
