(* ===== verification/GatewayDispatch.v ===== *)
(** * GatewayDispatch: from a request to a backend

    The handlers of [POST /v1/chat/completions] ([handlers/chat.rs]) and of
    [POST /v1/messages] ([handlers/messages.rs]): their guards, the choice of a provider,
    the fallback and the records of the circuit breakers.  Backends, the curator and the
    clock are the class [Backends]; what a backend answers may depend on how many calls
    were made before.  Metrics, cost events and the request log are left out.

    Before them, what a handler computes from the request: [smart_router.rs] (defaults layered
    under what the client asked for), the pre-classifier and the outcome of [router.rs], the
    headers ([slot_passthrough.rs], [handlers/chat.rs]) and the estimate of
    [token_counter.rs].  The curator that classifies the remaining queries is a parameter. *)

From S2P Require Import Prelude Text GatewayTypes Translate AnthropicStream Breaker RateLimit.

#[local] Open Scope nat_scope.

(** * Parameters, reasoning and size of a chat request *)

(** ** Configuration *)

Record AliasTarget := mkAlias {
  provider : ustr;
  model : ustr;
  fallback_provider : option ustr;
  fallback_model : option ustr;
  temperature_default : option N;
  max_tokens_default : option N;
  vision_capable : bool }.

Record AgentAwareParams := mkAgentParams {
  ap_temperature : option N; ap_max_tokens : option N; alias_override : option ustr }.

(** ** Defaults *)

Definition with_temperature (r : ChatCompletionRequest) (t : option N) : ChatCompletionRequest :=
  mkRequest (req_model r) (req_messages r) (req_max_tokens r) t (req_stream r) (req_top_p r)
    (req_top_k r) (req_min_p r) (req_presence_penalty r) (req_stop r) (req_tools r)
    (req_tool_choice r) (req_chat_template_kwargs r).
Definition with_max_tokens (r : ChatCompletionRequest) (n : option N) : ChatCompletionRequest :=
  mkRequest (req_model r) (req_messages r) n (req_temperature r) (req_stream r) (req_top_p r)
    (req_top_k r) (req_min_p r) (req_presence_penalty r) (req_stop r) (req_tools r)
    (req_tool_choice r) (req_chat_template_kwargs r).
Definition with_kwargs (r : ChatCompletionRequest) (k : option json) : ChatCompletionRequest :=
  mkRequest (req_model r) (req_messages r) (req_max_tokens r) (req_temperature r) (req_stream r)
    (req_top_p r) (req_top_k r) (req_min_p r) (req_presence_penalty r) (req_stop r) (req_tools r)
    (req_tool_choice r) k.
Definition with_model (r : ChatCompletionRequest) (m : ustr) : ChatCompletionRequest :=
  mkRequest m (req_messages r) (req_max_tokens r) (req_temperature r) (req_stream r) (req_top_p r)
    (req_top_k r) (req_min_p r) (req_presence_penalty r) (req_stop r) (req_tools r)
    (req_tool_choice r) (req_chat_template_kwargs r).
Definition with_stream (r : ChatCompletionRequest) (s : option bool) : ChatCompletionRequest :=
  mkRequest (req_model r) (req_messages r) (req_max_tokens r) (req_temperature r) s (req_top_p r)
    (req_top_k r) (req_min_p r) (req_presence_penalty r) (req_stop r) (req_tools r)
    (req_tool_choice r) (req_chat_template_kwargs r).

(** A value of the client, or the first default there is. *)
Definition or_else {A} (a b : option A) : option A := match a with Some x => Some x | None => b end.

Definition smart_apply (request : ChatCompletionRequest) (alias : AliasTarget)
    (agent_params : option AgentAwareParams) : option ustr * ChatCompletionRequest :=
  let override := p ← agent_params; alias_override p in
  let request :=
    match req_temperature request with
    | Some _ => request
    | None =>
        match (p ← agent_params; ap_temperature p), temperature_default alias with
        | Some t, _ | None, Some t => with_temperature request (Some t)
        | None, None => request
        end
    end in
  let request :=
    match req_max_tokens request with
    | Some _ => request
    | None =>
        match (p ← agent_params; ap_max_tokens p), max_tokens_default alias with
        | Some n, _ | None, Some n => with_max_tokens request (Some n)
        | None, None => request
        end
    end in
  (override, request).

(** ** Reasoning and modality *)

Inductive ReasoningMode := NoThink | Think | Vision.

(** The presets: temperature, top_p, top_k, min_p and presence penalty; floats by their
    bits. *)
Definition mode_preset (mode : ReasoningMode) : N * N * N * N * N :=
  match mode with
  | NoThink => (1053609165, 1063675494, 20, 0, 1065353216)
  | Think => (1058642330, 1064514355, 20, 0, 1067030938)
  | Vision => (1045220557, 1063675494, 20, 0, 1065353216)
  end%N.

Definition apply_mode_sampling (r : ChatCompletionRequest) (mode : ReasoningMode) : ChatCompletionRequest :=
  let '(temperature, top_p, top_k, min_p, presence_penalty) := mode_preset mode in
  mkRequest (req_model r) (req_messages r) (req_max_tokens r)
    (or_else (req_temperature r) (Some temperature)) (req_stream r)
    (or_else (req_top_p r) (Some top_p)) (or_else (req_top_k r) (Some top_k))
    (or_else (req_min_p r) (Some min_p)) (or_else (req_presence_penalty r) (Some presence_penalty))
    (req_stop r) (req_tools r) (req_tool_choice r) (req_chat_template_kwargs r).

Definition resolve_mode (reasoning vision : bool) : ReasoningMode :=
  if vision then Vision else if reasoning then Think else NoThink.

Definition ENABLE_THINKING : ustr := lit "enable_thinking".
Definition set_enable_thinking (r : ChatCompletionRequest) (reasoning : bool) : ChatCompletionRequest :=
  match req_chat_template_kwargs r with
  | Some (JObject map) =>
      with_kwargs r (Some (JObject (match obj_get ENABLE_THINKING map with
                                    | Some _ => map
                                    | None => obj_insert ENABLE_THINKING (JBool reasoning) map
                                    end)))
  | _ => with_kwargs r (Some (JObject (obj_insert ENABLE_THINKING (JBool reasoning) [])))
  end.

Definition apply_reasoning (r : ChatCompletionRequest) (reasoning vision : bool) : ChatCompletionRequest :=
  set_enable_thinking (apply_mode_sampling r (resolve_mode reasoning vision)) reasoning.

Inductive ReasoningSource := SourceOverride | SourceRouter | SourceFallback | SourceDefault.

Definition resolve_reasoning (override_decision : option bool)
    (router_outcome : option (bool * ReasoningSource)) : bool * ReasoningSource :=
  match override_decision, router_outcome with
  | Some r, _ => (r, SourceOverride)
  | None, Some (r, source) => (r, source)
  | None, None => (false, SourceDefault)
  end.

Definition reasoning_output_reserve (reasoning vision : bool) : N :=
  (match reasoning, vision with true, _ => 4096 | false, true => 1024 | false, false => 512 end)%N.

(** ** The router *)

Definition REASONING_TRIGGERS : list ustr :=
  [lit "why"; lit "compare"; lit "analyz"; lit "analyse"; lit "design"; lit "plan"; lit "debug";
   lit "explain"; lit "diagnos"; lit "prove"; lit "derive"; lit "optimi"; lit "migrat";
   lit "architect"; lit "tradeoff"; lit "versus"].
Definition GREETINGS : list ustr :=
  [lit "hi"; lit "hello"; lit "hey"; lit "yo"; lit "thanks"; lit "thank you"; lit "ok";
   lit "okay"; lit "yes"; lit "no"; lit "bonjour"; lit "merci"; lit "salut"; lit "hi there";
   lit "hello there"].
Definition COMMAND_VERBS : list ustr :=
  [lit "restart"; lit "start"; lit "stop"; lit "reboot"; lit "kill"; lit "enable"; lit "disable";
   lit "status"; lit "ping"; lit "ls"; lit "cat"].

Definition preclassify (query : ustr) : option bool :=
  let q := to_ascii_lowercase (trim query) in
  if bool_decide (q = []) then Some false
  else if bool_decide (q ∈ GREETINGS) then Some false
  else if existsb (λ t, str_contains t q) REASONING_TRIGGERS then None
  else
    let words := split_whitespace q in
    match words with
    | w :: _ => if (length words <=? 6) && bool_decide (w ∈ COMMAND_VERBS) then Some false else None
    | [] => None
    end.

Definition parse_label (raw : ustr) : option bool :=
  if bool_decide (trim raw = lit "THINK") then Some true
  else if bool_decide (trim raw = lit "NO_THINK") then Some false
  else None.

(** The errors of a call to the curator; all of them fall back. *)
Inductive RouterError := Saturated | RouterTimeout | RouterHttp | BadStatus (status : N) | Unparseable.

Section router.
Context (call_curator : ustr → bool → result ustr RouterError) (query_head_chars : nat).

Definition curator_decision (query : ustr) (image_present : bool) : result bool RouterError :=
  match call_curator query image_present with
  | Ok raw => match parse_label raw with Some b => Ok b | None => Err Unparseable end
  | Err e => Err e
  end.

Definition router_resolve (query : ustr) (image_present : bool) : bool * ReasoningSource :=
  let head := take query_head_chars query in
  match preclassify head with
  | Some decision => (decision, SourceRouter)
  | None =>
      match curator_decision head image_present with
      | Ok think => (think, SourceRouter)
      | Err _ => (false, SourceFallback)
      end
  end.
End router.

(** ** Size *)

Definition u64_top : N := 18446744073709551615.
Definition sat_add (a b : N) : N := N.min (a + b) u64_top.
Definition sat_mul (a b : N) : N := N.min (a * b) u64_top.
Definition div_ceil (a b : N) : N := ((a + b - 1) / b)%N.

Definition TOKENS_PER_MESSAGE_OVERHEAD : N := 4.
Definition CHARS_PER_TOKEN : N := 4.
Definition TOKENS_PER_IMAGE : N := 1100.

Definition message_tokens (msg : Message) : N :=
  let content_chars := N.of_nat (length (text_content (content msg))) in
  let text_tokens := div_ceil content_chars CHARS_PER_TOKEN in
  let image_tokens := sat_mul (N.of_nat (image_count (content msg))) TOKENS_PER_IMAGE in
  sat_add (sat_add text_tokens image_tokens) TOKENS_PER_MESSAGE_OVERHEAD.
Definition estimate_input_tokens (request : ChatCompletionRequest) : N :=
  foldl sat_add 0%N (message_tokens <$> req_messages request).

(** ** Headers *)

Definition extract_slot_id (header : option ustr) : option N := s ← header; parse_u32 (trim s).

Definition inject_slot_id_if_needed (body : json) (slot_id : option N) (enable_slot_passthrough : bool) : json :=
  match enable_slot_passthrough, slot_id, body with
  | true, Some id, JObject obj => JObject (obj_insert (lit "slot_id") (json_nat id) obj)
  | _, _, _ => body
  end.

(** The [X-Reasoning-Mode] header. *)
Definition reasoning_header (header : option ustr) : option bool :=
  s ← header;
  let s := to_ascii_lowercase (trim s) in
  if bool_decide (s ∈ [lit "think"; lit "reasoning"; lit "true"]) then Some true
  else if bool_decide (s ∈ [lit "no-think"; lit "no_think"; lit "nothink"; lit "false"]) then Some false
  else None.

(** * GatewayDispatch *)

(** ** Configuration and state *)

Record ServerConfig := mkServerConfig {
  rate_limit_per_minute : nat;
  circuit : CircuitBreakerConfig;
  max_total_tokens : N;
  enable_slot_passthrough : bool;
  max_tools_per_request : nat }.

Record GatewayConfig := mkGatewayConfig {
  server : ServerConfig;
  config_providers : list ustr;
  aliases : gmap ustr AliasTarget;
  gateway : gmap ustr AgentAwareParams;
  default_alias : ustr;
  model_map : gmap ustr ustr;
  router_head : option nat }.

(** What the handlers share: the breakers, the windows of the limiter, how often the clock
    was read, and the calls made to backends, oldest first. *)
Record gw := mkGw {
  g_breakers : breakers;
  g_windows : windows;
  g_readings : nat;
  g_calls : list (ustr * ChatCompletionRequest) }.

Class Backends := {
  clock : nat → Z;
  pool : ustr → bool;
  complete : nat → ustr → ChatCompletionRequest → result ChatCompletionResponse LlmError;
  stream_from : nat → ustr → ChatCompletionRequest → result (list chunk_item) LlmError;
  post : nat → ustr → json → result (N * option ustr) LlmError;
  call_curator : nat → ustr → bool → result ustr RouterError;
  request_to_value : ChatCompletionRequest → option json;
  response_size : ChatCompletionResponse → nat
}.

(** The response of a handler, as far as it is more than a status. *)
Inductive Response :=
| RespJson (completion : ChatCompletionResponse)
| RespEvents (chunks : list chunk_item)
| RespRaw (status : N) (streamed : bool) (body : ustr)
| RespTooMany.
Definition response_status (r : Response) : N :=
  (match r with RespJson _ | RespEvents _ => 200 | RespRaw status _ _ => status | RespTooMany => 429 end)%N.

(** The order of [sort] on strings. *)
Definition name_le (a b : ustr) : Prop := ustr_le a b = true.
#[export] Instance name_le_dec : RelDecision name_le.
Proof. intros a b. unfold name_le. apply _. Defined.

Section dispatch.
Context `{Backends} (config : GatewayConfig).

Definition read_clock (g : gw) : Z * gw :=
  (clock (g_readings g), mkGw (g_breakers g) (g_windows g) (S (g_readings g)) (g_calls g)).
Definition with_breakers (g : gw) (b : breakers) : gw := mkGw b (g_windows g) (g_readings g) (g_calls g).
Definition log_call (g : gw) (p : ustr) (r : ChatCompletionRequest) : gw :=
  mkGw (g_breakers g) (g_windows g) (g_readings g) (g_calls g ++ [(p, r)]).

Definition gw_allow (p : ustr) (g : gw) : bool * gw :=
  let '(now, g) := read_clock g in
  let '(ok, b) := reg_should_allow (circuit (server config)) p now (g_breakers g) in (ok, with_breakers g b).
Definition gw_success (p : ustr) (g : gw) : gw := with_breakers g (reg_record_success p (g_breakers g)).
Definition gw_failure (p : ustr) (e : LlmError) (g : gw) : gw :=
  let '(now, g) := read_clock g in
  with_breakers g (reg_record_failure (circuit (server config)) p e now (g_breakers g)).

(** What the handlers record of an outcome: only errors of a backend count. *)
Definition record_outcome {A} (p : ustr) (r : result A ApiError) (g : gw) : gw :=
  match r with
  | Ok _ => gw_success p g
  | Err (Backend e) => gw_failure p e g
  | Err _ => g
  end.

Definition circuit_open (p : ustr) : ApiError := Backend (ProviderUnavailable p (lit "circuit breaker open")).
Definition is_backend_error (e : ApiError) : bool := match e with Backend _ => true | _ => false end.

(** ** One provider *)

Definition try_provider_with_slot (body : ChatCompletionRequest) (p : ustr) (is_stream : bool)
    (slot_id : option N) (g : gw) : result Response ApiError * gw :=
  if negb (bool_decide (p ∈ config_providers config)) then (Err (ProviderNotFound p), g)
  else
    match request_to_value body with
    | None => (Err (Backend Serialization), g)
    | Some value =>
        let value := inject_slot_id_if_needed value slot_id (enable_slot_passthrough (server config)) in
        let n := length (g_calls g) in
        let g := log_call g p body in
        match post n p value with
        | Err e => (Err (Backend e), g)
        | Ok (status, bytes) =>
            if negb ((200 <=? status) && (status <=? 299))%N
            then (Ok (RespRaw status false (default [] bytes)), g)
            else if is_stream then (Ok (RespRaw 200 true (default [] bytes)), g)
            else match bytes with
                 | Some b => (Ok (RespRaw 200 false b), g)
                 | None => (Err (Backend Network), g)
                 end
        end
    end.

Definition try_provider (body : ChatCompletionRequest) (p m : ustr) (is_stream : bool)
    (slot_id : option N) (g : gw) : result (Response * option Usage) ApiError * gw :=
  let '(allowed, g) := gw_allow p g in
  if negb allowed then (Err (circuit_open p), g)
  else
    let body := with_model body m in
    if enable_slot_passthrough (server config) && (if slot_id is Some _ then true else false) then
      let '(r, g) := try_provider_with_slot body p is_stream slot_id g in
      (resp ?<- r; Ok (resp, None), g)
    else if negb (pool p) then (Err (ProviderNotFound p), g)
    else
      let n := length (g_calls g) in
      let g := log_call g p body in
      if is_stream then
        (match stream_from n p body with
         | Ok chunks => Ok (RespEvents chunks, None)
         | Err e => Err (Backend e)
         end, g)
      else
        (match complete n p body with
         | Ok completion => Ok (RespJson completion, resp_usage completion)
         | Err e => Err (Backend e)
         end, g).

Definition try_provider_stream (body : ChatCompletionRequest) (p m : ustr) (g : gw)
    : result (list chunk_item) ApiError * gw :=
  let '(allowed, g) := gw_allow p g in
  if negb allowed then (Err (circuit_open p), g)
  else
    let body := with_stream (with_model body m) (Some true) in
    if negb (pool p) then (Err (ProviderNotFound p), g)
    else
      let n := length (g_calls g) in
      let g := log_call g p body in
      (match stream_from n p body with Ok chunks => Ok chunks | Err e => Err (Backend e) end, g).

(** ** Fallback *)

Definition vision_unavailable (p : ustr) : ApiError :=
  ServiceUnavailable (lit "vision provider '" ++ p ++ lit "' unavailable, no vision-capable fallback").
Definition fb_model_of (alias : AliasTarget) : ustr := default (model alias) (fallback_model alias).

(** The failure of the primary, before the fallback is considered. *)
Definition record_primary (p : ustr) (e : ApiError) (g : gw) : gw :=
  match e with Backend llm => gw_failure p llm g | _ => g end.

Definition dispatch_with_fallback (body : ChatCompletionRequest) (alias : AliasTarget)
    (is_stream : bool) (slot_id : option N) (image : bool) (g : gw)
    : (result Response ApiError * ustr * option Usage * ustr) * gw :=
  let '(primary, g) := try_provider body (provider alias) (model alias) is_stream slot_id g in
  match primary with
  | Ok (resp, usage) => (Ok resp, provider alias, usage, model alias, g)
  | Err e =>
      if negb (is_backend_error e) then (Err e, provider alias, None, model alias, g)
      else
        let g := record_primary (provider alias) e g in
        if image then (Err (vision_unavailable (provider alias)), provider alias, None, model alias, g)
        else
          match fallback_provider alias with
          | None => (Err e, provider alias, None, model alias, g)
          | Some fb =>
              let '(second, g) := try_provider body fb (fb_model_of alias) is_stream slot_id g in
              match second with
              | Ok (resp, usage) => (Ok resp, fb, usage, fb_model_of alias, g)
              | Err e' => (Err e', fb, None, fb_model_of alias, g)
              end
          end
  end.

Definition dispatch_stream_with_fallback (body : ChatCompletionRequest) (alias : AliasTarget)
    (image : bool) (g : gw) : result (list chunk_item * ustr) ApiError * gw :=
  let '(primary, g) := try_provider_stream body (provider alias) (model alias) g in
  match primary with
  | Ok chunks => (Ok (chunks, model alias), gw_success (provider alias) g)
  | Err e =>
      if negb (is_backend_error e) then (Err e, g)
      else
        let g := record_primary (provider alias) e g in
        if image then (Err (vision_unavailable (provider alias)), g)
        else
          match fallback_provider alias with
          | None => (Err e, g)
          | Some fb =>
              let '(second, g) := try_provider_stream body fb (fb_model_of alias) g in
              match second with
              | Ok chunks => (Ok (chunks, fb_model_of alias), gw_success fb g)
              | Err e' => (Err e', record_primary fb e' g)
              end
          end
  end.

(** The errors of a stream, recorded as they are read. *)
Definition inspect_chunks (p : ustr) (chunks : list chunk_item) (g : gw) : gw :=
  foldl (λ g item, match item with Err e => gw_failure p e g | Ok _ => g end) g chunks.

(** ** [POST /v1/chat/completions] *)

Record Headers := mkHeaders {
  x_reasoning_mode : option ustr; x_feature_id : option ustr; x_slot_id : option ustr }.

Definition rate_check (ip : N) (g : gw) : bool * gw :=
  let '(now, g) := read_clock g in
  let '(t1, g) := read_clock g in
  let '(t2, g) := read_clock g in
  let '(ok, w) := check_and_increment (rate_limit_per_minute (server config)) ip (mkReading now t1 t2)
                    (g_windows g) in
  (ok, mkGw (g_breakers g) w (g_readings g) (g_calls g)).

Definition too_many_tools {A} (tools : option (list A)) : option ApiError :=
  let max := max_tools_per_request (server config) in
  match tools with
  | Some tools => if (0 <? max) && (max <? length tools) then Some (TooManyTools (length tools) max) else None
  | None => None
  end.

(** The text of the last message of the user. *)
Definition last_user_text (messages : list Message) : ustr :=
  match filter (λ m, role m = RoleUser) (reverse messages) with
  | m :: _ => text_content (content m)
  | [] => []
  end.

Definition resolve_axis (headers : Headers) (body : ChatCompletionRequest) (image : bool) (g : gw)
    : bool * ReasoningSource :=
  let override := reasoning_header (x_reasoning_mode headers) in
  let outcome :=
    match override, router_head config with
    | None, Some head =>
        Some (router_resolve (call_curator (g_readings g)) head (last_user_text (req_messages body)) image)
    | _, _ => None
    end in
  resolve_reasoning override outcome.

Definition over_cap (body : ChatCompletionRequest) (reasoning image : bool) : option ApiError :=
  let cap := max_total_tokens (server config) in
  if (0 <? cap)%N then
    let output_budget := N.max (default 0%N (req_max_tokens body)) (reasoning_output_reserve reasoning image) in
    let total := sat_add (estimate_input_tokens body) output_budget in
    if (cap <? total)%N then Some (ContextLengthExceeded total cap) else None
  else None.

(** The configured aliases, sorted; where the code lists them unsorted the order is open. *)
Definition alias_names : list ustr :=
  merge_sort name_le (map_to_list (aliases config)).*1.
Definition find_alias (a : ustr) : result AliasTarget ApiError :=
  match aliases config !! a with
  | Some t => Ok t
  | None => Err (AliasNotFound a alias_names)
  end.

(** The request as it is forwarded and the alias it goes to, or the refusal of a guard. *)
Definition chat_prepare (headers : Headers) (body : ChatCompletionRequest) (g : gw)
    : result (ChatCompletionRequest * AliasTarget * bool) ApiError :=
  match too_many_tools (req_tools body) with
  | Some e => Err e
  | None =>
      let image := existsb message_has_image (req_messages body) in
      let reasoning := (resolve_axis headers body image g).1 in
      match over_cap body reasoning image with
      | Some e => Err e
      | None =>
          alias ?<- find_alias (req_model body);
          let feature_id := take 256 <$> x_feature_id headers in
          let agent_params := fid ← feature_id; gateway config !! fid in
          let '(override, body') := smart_apply body alias agent_params in
          effective ?<- match override with Some o => find_alias o | None => Ok alias end;
          if image && negb (vision_capable effective) then Err (VisionNotSupported (req_model body'))
          else Ok (apply_reasoning body' reasoning image, effective, image)
      end
  end.

Definition chat_handler (ip : N) (headers : Headers) (body : ChatCompletionRequest) (g : gw)
    : result Response ApiError * gw :=
  let '(ok, g) := rate_check ip g in
  if negb ok then (Ok RespTooMany, g)
  else
    match chat_prepare headers body g with
    | Err e => (Err e, g)
    | Ok (body, alias, image) =>
        let slot_id := extract_slot_id (x_slot_id headers) in
        let is_stream := bool_decide (req_stream body = Some true) in
        let '(result, effective_provider, usage, model_used, g) :=
          dispatch_with_fallback body alias is_stream slot_id image g in
        (result, record_outcome effective_provider result g)
    end.

(** ** [POST /v1/messages] *)

Definition block_chars `{SerdeJson} (b : ContentBlock) : nat :=
  match b with
  | BlockText text => str_len text
  | BlockToolResult _ (JString s) _ => str_len s
  | BlockToolResult _ (JArray arr) _ =>
      sum_list (omap (λ item, str_len <$> (json_get item (lit "text") ≫= json_as_str)) arr)
  | BlockToolResult _ _ _ => 0
  | BlockImage _ => 256
  | BlockToolUse _ name _ => str_len name
  | BlockThinking _ | BlockUnknown => 0
  end.

Definition system_chars (system : option SystemContent) : nat :=
  match system with
  | Some (SText s) => str_len s
  | Some (SBlocks blocks) => sum_list (str_len <$> omap block_text blocks)
  | None => 0
  end.
Definition turn_chars `{SerdeJson} (msg : AnthropicMessage) : nat :=
  match am_content msg with AText s => str_len s | ABlocks blocks => sum_list (block_chars <$> blocks) end.
Definition tool_chars `{SerdeJson} (tool : Tool) : nat :=
  str_len (tool_name tool) + from_option str_len 0 (tool_description tool)
  + from_option str_len 0 (to_string (input_schema tool)).

Definition estimate_tokens_from_messages_request `{SerdeJson} (body : MessagesRequest) : N :=
  let char_count := system_chars (mr_system body) + sum_list (turn_chars <$> mr_messages body)
                    + sum_list (tool_chars <$> default [] (mr_tools body)) in
  sat_add (div_ceil (N.of_nat char_count) 4) (mr_max_tokens body).

Definition MAX_MESSAGES_PER_REQUEST : nat := 500.
Definition MAX_STOP_SEQUENCES : nat := 4.

Definition anthropic_error_type (status : N) : ustr :=
  (if status =? 400 then lit "invalid_request_error"
   else if status =? 401 then lit "authentication_error"
   else if status =? 404 then lit "not_found_error"
   else if status =? 413 then lit "request_too_large"
   else if status =? 429 then lit "rate_limit_error"
   else if (status =? 503) || (status =? 529) then lit "overloaded_error"
   else lit "api_error")%N.

Definition block_is_image (b : ContentBlock) : bool := match b with BlockImage _ => true | _ => false end.
Definition turn_has_image (msg : AnthropicMessage) : bool :=
  match am_content msg with ABlocks blocks => existsb block_is_image blocks | AText _ => false end.

(** The translated request, its alias and whether it carries an image, or the refusal of a
    guard. *)
Definition messages_prepare `{SerdeJson} (body : MessagesRequest)
    : result (ChatCompletionRequest * AliasTarget * bool) ApiError :=
  match too_many_tools (mr_tools body) with
  | Some e => Err e
  | None =>
      let cap := max_total_tokens (server config) in
      let total := estimate_tokens_from_messages_request body in
      if (0 <? cap)%N && (cap <? total)%N then Err (ContextLengthExceeded total cap)
      else if MAX_MESSAGES_PER_REQUEST <? length (mr_messages body)
      then Err (InvalidBody (lit "messages array exceeds limit"))
      else if MAX_STOP_SEQUENCES <? length (default [] (mr_stop_sequences body))
      then Err (InvalidBody (lit "stop_sequences array exceeds limit"))
      else
        let resolved := default (default_alias config) (model_map config !! mr_model body) in
        alias ?<- find_alias resolved;
        let image := existsb turn_has_image (mr_messages body) in
        match anthropic_to_chat body resolved with
        | Ok chat => Ok (chat, alias, image)
        | Err _ => Err (InvalidBody (lit "translation error"))
        end
  end.

Inductive MessagesOutcome :=
| MsgTooMany
| MsgStream (dispatch : StreamDispatch)
| MsgJson (answer : MessagesResponse).

(** The stream is read to its end. *)
Definition messages_stream (chat : ChatCompletionRequest) (alias : AliasTarget) (image : bool) (g : gw)
    : StreamDispatch * gw :=
  let '(result, g) := dispatch_stream_with_fallback (with_stream chat (Some true)) alias image g in
  match result with
  | Ok (chunks, model_used) => (Ready chunks, inspect_chunks (provider alias) chunks g)
  | Err e => (Failed (anthropic_error_type (status_code e)) (lit "internal backend error"), g)
  end.

(** The answer of the backend, read back from the response of the dispatch. *)
Definition messages_answer `{SerdeJson} (r : Response) (model_name : ustr) : result MessagesResponse ApiError :=
  match r with
  | RespJson completion =>
      if 4194304 <? response_size completion then Err (InvalidBody (lit "cannot read backend response"))
      else map_err (λ _, InvalidBody (lit "response-to-Anthropic translation error"))
             (chat_to_anthropic completion model_name)
  | _ => Err (InvalidBody (lit "cannot deserialize backend response"))
  end.

Definition messages_handler_inner `{SerdeJson} (ip : N) (body : MessagesRequest) (g : gw)
    : result MessagesOutcome ApiError * gw :=
  let '(ok, g) := rate_check ip g in
  if negb ok then (Ok MsgTooMany, g)
  else
    match messages_prepare body with
    | Err e => (Err e, g)
    | Ok (chat, alias, image) =>
        if bool_decide (mr_stream body = Some true) then
          let '(d, g) := messages_stream chat alias image g in (Ok (MsgStream d), g)
        else
          let '(result, effective_provider, usage, model_used, g) :=
            dispatch_with_fallback (with_stream chat (Some false)) alias false None image g in
          let g := record_outcome effective_provider result g in
          (r ?<- result; answer ?<- messages_answer r (mr_model body); Ok (MsgJson answer), g)
    end.
End dispatch.
