(* ===== verification/GatewayProps.v ===== *)
(** * GatewayProps: what the gateway does with a chat request

    Which calls a request leads to, what they carry, and what the guards keep away from the
    backends. *)

From S2P Require Import Prelude Text GatewayTypes Translate AnthropicStream Breaker RateLimit GatewayDispatch.

#[local] Open Scope nat_scope.

Section props.
Context `{Backends} (config : GatewayConfig).

(** The calls made between two states. *)
Definition new_calls (g g' : gw) : list (ustr * ChatCompletionRequest) := drop (length (g_calls g)) (g_calls g').

(** ** The calls of one attempt *)

(** A step that makes the calls [l], in order. *)
Definition makes (g g' : gw) (l : list (ustr * ChatCompletionRequest)) : Prop := g_calls g' = g_calls g ++ l.

Lemma makes_nil g g' : g_calls g' = g_calls g → makes g g' [].
Proof. unfold makes. by rewrite app_nil_r. Qed.
Lemma makes_trans g1 g2 g3 l1 l2 : makes g1 g2 l1 → makes g2 g3 l2 → makes g1 g3 (l1 ++ l2).
Proof. unfold makes. intros H1 H2. by rewrite H2, H1, app_assoc. Qed.
Lemma makes_new g g' l : makes g g' l → new_calls g g' = l.
Proof. unfold makes, new_calls. intros ->. apply drop_app_length. Qed.

Lemma gw_allow_calls p g : g_calls (gw_allow config p g).2 = g_calls g.
Proof. unfold gw_allow. cbn. by destruct (reg_should_allow _ _ _ _). Qed.
Lemma rate_check_calls ip g : g_calls (rate_check config ip g).2 = g_calls g.
Proof. unfold rate_check. cbn. by destruct (check_and_increment _ _ _ _). Qed.
Lemma rate_check_breakers ip g : g_breakers (rate_check config ip g).2 = g_breakers g.
Proof. unfold rate_check. cbn. by destruct (check_and_increment _ _ _ _). Qed.
Lemma record_outcome_calls {A} p (r : result A ApiError) g : g_calls (record_outcome config p r g) = g_calls g.
Proof. by destruct r as [|[]]. Qed.
Lemma record_primary_calls p e g : g_calls (record_primary config p e g) = g_calls g.
Proof. by destruct e. Qed.

(** An attempt makes at most one call, to its provider, with its model. *)
Lemma try_provider_makes body p m is_stream slot g :
  ∃ l, makes g (try_provider config body p m is_stream slot g).2 l
       ∧ (l = [] ∨ l = [(p, with_model body m)]).
Proof.
  unfold try_provider. pose proof (gw_allow_calls p g) as Hc.
  destruct (gw_allow config p g) as [allowed g1]. cbn [snd] in Hc.
  destruct allowed; cbn [negb]; [|exists []; split; [by apply makes_nil|by left]].
  destruct (enable_slot_passthrough _ && _).
  - unfold try_provider_with_slot. destruct (negb _); [exists []; split; [by apply makes_nil|by left]|].
    destruct (request_to_value _); [|exists []; split; [by apply makes_nil|by left]].
    exists [(p, with_model body m)]. split; [|by right].
    destruct (post _ _ _) as [[st bs]|]; [|unfold makes; cbn; by rewrite Hc].
    destruct (negb _); [unfold makes; cbn; by rewrite Hc|].
    destruct is_stream; [unfold makes; cbn; by rewrite Hc|].
    destruct bs; unfold makes; cbn; by rewrite Hc.
  - destruct (negb (pool p)); [exists []; split; [by apply makes_nil|by left]|].
    exists [(p, with_model body m)]. split; [|by right]. destruct is_stream; unfold makes; cbn; by rewrite Hc.
Qed.

(** A dispatch calls the primary, and the fallback only where there is no image. *)
Lemma dispatch_makes body alias is_stream slot image g :
  ∃ l1 l2, makes g (dispatch_with_fallback config body alias is_stream slot image g).2 (l1 ++ l2)
    ∧ (l1 = [] ∨ l1 = [(provider alias, with_model body (model alias))])
    ∧ (l2 = [] ∨ image = false ∧ ∃ fb, fallback_provider alias = Some fb
                                       ∧ l2 = [(fb, with_model body (fb_model_of alias))]).
Proof.
  unfold dispatch_with_fallback.
  destruct (try_provider_makes body (provider alias) (model alias) is_stream slot g) as (l1 & H1 & Hl1).
  destruct (try_provider config body (provider alias) (model alias) is_stream slot g) as [r g1]. cbn [snd] in H1.
  assert (Hstop : ∀ g', g_calls g' = g_calls g1 → makes g g' (l1 ++ [])).
  { intros g' E. eapply makes_trans; [exact H1|by apply makes_nil]. }
  exists l1. destruct r as [[resp usage]|e]; [exists []; split_and!; [by apply Hstop|done|by left]|].
  destruct (negb (is_backend_error e)); [exists []; split_and!; [by apply Hstop|done|by left]|].
  pose proof (record_primary_calls (provider alias) e g1) as Hrp.
  destruct image; [exists []; split_and!; [by apply Hstop|done|by left]|].
  destruct (fallback_provider alias) as [fb|] eqn:Efb;
    [|exists []; split_and!; [by apply Hstop|done|by left]].
  destruct (try_provider_makes body fb (fb_model_of alias) is_stream slot
              (record_primary config (provider alias) e g1)) as (l2 & H2 & Hl2).
  destruct (try_provider config body fb (fb_model_of alias) is_stream slot _) as [r2 g2]. cbn [snd] in H2.
  exists l2. assert (Hm : makes g g2 (l1 ++ l2)).
  { eapply makes_trans; [exact H1|]. unfold makes in *. by rewrite H2, Hrp. }
  split_and!; [by destruct r2 as [[]|]|done|].
  destruct Hl2 as [->| ->]; [by left|right; split; [done|by exists fb]].
Qed.

(** ** What a forwarded request keeps of the client's *)

Definition kept {A} (client forwarded : option A) : Prop := ∀ x, client = Some x → forwarded = Some x.

Record keeps (client r : ChatCompletionRequest) : Prop := mkKeeps {
  keeps_messages : req_messages r = req_messages client;
  keeps_stream : req_stream r = req_stream client;
  keeps_stop : req_stop r = req_stop client;
  keeps_tools : req_tools r = req_tools client;
  keeps_choice : req_tool_choice r = req_tool_choice client;
  keeps_max_tokens : kept (req_max_tokens client) (req_max_tokens r);
  keeps_temperature : kept (req_temperature client) (req_temperature r);
  keeps_top_p : kept (req_top_p client) (req_top_p r);
  keeps_top_k : kept (req_top_k client) (req_top_k r);
  keeps_min_p : kept (req_min_p client) (req_min_p r);
  keeps_presence : kept (req_presence_penalty client) (req_presence_penalty r)
}.

(** The template flag of a request: what the client set, or the resolved reasoning. *)
Definition thinking_flag (r : ChatCompletionRequest) : option json :=
  kw ← req_chat_template_kwargs r; json_get kw ENABLE_THINKING.

Lemma smart_apply_keeps body alias params : keeps body (smart_apply body alias params).2
  ∧ req_chat_template_kwargs (smart_apply body alias params).2 = req_chat_template_kwargs body
  ∧ req_model (smart_apply body alias params).2 = req_model body.
Proof.
  unfold smart_apply. destruct body as [a b c d e f g h i j k l m]; cbn.
  destruct d, (params ≫= ap_temperature), (temperature_default alias),
    c, (params ≫= ap_max_tokens), (max_tokens_default alias);
    (split_and!; [split; cbn; try done; intros ? [= ->]; done|done|done]).
Qed.

Lemma apply_reasoning_keeps body reasoning vision : keeps body (apply_reasoning body reasoning vision)
  ∧ req_model (apply_reasoning body reasoning vision) = req_model body
  ∧ thinking_flag (apply_reasoning body reasoning vision)
    = Some (default (JBool reasoning) (thinking_flag body)).
Proof.
  unfold apply_reasoning, apply_mode_sampling.
  destruct (mode_preset _) as [[[[p1 p2] p3] p4] p5]. unfold set_enable_thinking.
  destruct body as [a b c d e f g h i j k l kw]. cbn.
  destruct kw as [[| | | | |map]|]; cbn;
    (split_and!; [split; cbn; try done; intros ? ->; done|done|]); try done.
  unfold thinking_flag. cbn. destruct (obj_get ENABLE_THINKING map) eqn:E; cbn; [done|]. apply obj_get_insert.
Qed.

Lemma keeps_trans a b c : keeps a b → keeps b c → keeps a c.
Proof.
  intros [A1 A2 A3 A4 A5 A6 A7 A8 A9 A10 A11] [B1 B2 B3 B4 B5 B6 B7 B8 B9 B10 B11].
  split; try congruence; unfold kept in *; eauto.
Qed.
Lemma keeps_model a b m : keeps a b → keeps a (with_model b m).
Proof. intros []. split; done. Qed.

(** A prepared request: which guards it has passed. *)
Lemma chat_prepare_Ok headers body g r alias image :
  chat_prepare config headers body g = Ok (r, alias, image) →
  image = existsb message_has_image (req_messages body)
  ∧ keeps body r
  ∧ thinking_flag r = Some (default (JBool (resolve_axis config headers body image g).1) (thinking_flag body))
  ∧ (image = true → vision_capable alias = true)
  ∧ (∃ a, aliases config !! a = Some alias)
  ∧ too_many_tools config (req_tools body) = None
  ∧ over_cap config body (resolve_axis config headers body image g).1 image = None.
Proof.
  unfold chat_prepare. destruct (too_many_tools config (req_tools body)); [done|].
  set (im := existsb message_has_image (req_messages body)).
  set (re := (resolve_axis config headers body im g).1).
  destruct (over_cap config body re im) eqn:Ecap; [done|].
  destruct (find_alias config (req_model body)) as [al|] eqn:Eal; cbn [result_bind]; [|done].
  set (params := (take 256 <$> x_feature_id headers) ≫= λ fid, gateway config !! fid).
  pose proof (smart_apply_keeps body al params) as (K1 & K2 & K3).
  destruct (smart_apply body al params) as [override body'] eqn:Esa. cbn [snd] in *.
  destruct (match override with Some o => find_alias config o | None => Ok al end) as [eff|] eqn:Eeff;
    cbn [result_bind]; [|done].
  destruct (im && negb (vision_capable eff)) eqn:Ev; [done|]. intros [= <- <- <-].
  destruct (apply_reasoning_keeps body' re im) as (R1 & R2 & R3). fold re. split_and!; try done.
  - by eapply keeps_trans.
  - rewrite R3. unfold thinking_flag. by rewrite K2.
  - intros Him. rewrite Him in Ev. by destruct (vision_capable eff).
  - unfold find_alias in Eal, Eeff.
    destruct override as [o|]; [|injection Eeff as <-].
    + destruct (aliases config !! o) as [t|] eqn:E; [|done]. injection Eeff as <-. by exists o.
    + destruct (aliases config !! req_model body) as [t|] eqn:E; [|done]. injection Eal as <-. eauto.
Qed.

(** The calls of the handler, and what its guards have seen of the request behind them. *)
Lemma chat_handler_calls ip headers body g :
  ∀ c, c ∈ new_calls g (chat_handler config ip headers body g).2 →
  ∃ r alias image m, chat_prepare config headers body (rate_check config ip g).2 = Ok (r, alias, image)
    ∧ (c = (provider alias, with_model r m)
       ∨ image = false ∧ ∃ fb, fallback_provider alias = Some fb ∧ c = (fb, with_model r m)).
Proof.
  intros c. unfold chat_handler. pose proof (rate_check_calls ip g) as Hrc.
  destruct (rate_check config ip g) as [ok g1]. cbn [snd] in *.
  destruct ok; cbn [negb]; [|cbn [snd]; rewrite (makes_new g g1 []) by (by apply makes_nil); by intros ?%elem_of_nil].
  destruct (chat_prepare config headers body g1) as [[[r alias] image]|e] eqn:Ep;
    [|cbn [snd]; rewrite (makes_new g g1 []) by (by apply makes_nil); by intros ?%elem_of_nil].
  destruct (dispatch_makes r alias (bool_decide (req_stream r = Some true))
              (extract_slot_id (x_slot_id headers)) image g1) as (l1 & l2 & Hm & H1 & H2).
  destruct (dispatch_with_fallback _ _ _ _ _ _ _) as [[[[res eff] usage] mu] g2]. cbn [snd] in *.
  rewrite (makes_new g _ (l1 ++ l2)).
  2: { unfold makes in *. by rewrite record_outcome_calls, Hm, Hrc. }
  intros [Hin|Hin]%elem_of_app; exists r, alias, image.
  - destruct H1 as [->| ->]; [by apply elem_of_nil in Hin|].
    apply list_elem_of_singleton in Hin. exists (model alias). split; [done|by left].
  - destruct H2 as [->|[Hi (fb & Hfb & ->)]]; [by apply elem_of_nil in Hin|].
    apply list_elem_of_singleton in Hin. exists (fb_model_of alias). split; [done|]. right.
    split; [done|]. by exists fb.
Qed.

(** An image only ever reaches a backend that can see.  For any chat request that holds
    an image, every call the handler makes goes to the primary provider of a configured
    alias that is declared capable of vision; no fallback is called, whatever fails. *)
Theorem images_reach_vision_only (ip : N) (headers : Headers) (body : ChatCompletionRequest) (g : gw)
    (image : existsb message_has_image (req_messages body) = true) :
  ∀ c, c ∈ new_calls g (chat_handler config ip headers body g).2 →
  ∃ a alias, aliases config !! a = Some alias ∧ vision_capable alias = true ∧ c.1 = provider alias
             ∧ req_messages c.2 = req_messages body.
Proof.
  intros c (r & alias & im & m & Hp & Hc)%chat_handler_calls.
  apply chat_prepare_Ok in Hp as (-> & Hk & _ & Hv & (a & Ha) & _).
  rewrite image in *. exists a, alias. split_and!; [done|by apply Hv|..].
  - destruct Hc as [->|[? _]]; done.
  - destruct Hc as [->|[? _]]; [|done]. apply Hk.
Qed.

(** A request is forwarded as the client wrote it.  Every call a chat request leads to
    carries its messages, tools, stop sequences and streaming flag unchanged and every
    sampling parameter the client set; the defaults only fill what was left out, and the
    thinking flag of the template is always set, to the client's value if there is one.
    The request had passed the guards: at most the configured number of tools, and within
    the token cap with room for its answer. *)
Theorem client_values_kept (ip : N) (headers : Headers) (body : ChatCompletionRequest) (g : gw) :
  ∀ c, c ∈ new_calls g (chat_handler config ip headers body g).2 →
  keeps body c.2
  ∧ is_Some (thinking_flag c.2) ∧ kept (thinking_flag body) (thinking_flag c.2)
  ∧ too_many_tools config (req_tools body) = None
  ∧ (max_total_tokens (server config) = 0
     ∨ sat_add (estimate_input_tokens body) (default 0 (req_max_tokens body))
       <= max_total_tokens (server config))%N.
Proof.
  intros c (r & alias & im & m & Hp & Hc)%chat_handler_calls.
  apply chat_prepare_Ok in Hp as (_ & Hk & Ht & _ & _ & Htools & Hcap).
  assert (Hc2 : keeps body c.2 ∧ thinking_flag c.2 = thinking_flag r).
  { destruct Hc as [->|[_ (fb & _ & ->)]]; (split; [by apply keeps_model|done]). }
  destruct Hc2 as [Hk2 Ht2]. rewrite Ht2, Ht. split_and!; [done|by eexists| |done|].
  - intros x Hx. by rewrite Hx.
  - unfold over_cap in Hcap. destruct (N.ltb_spec 0 (max_total_tokens (server config))); [|left; lia].
    right. destruct (N.ltb_spec (max_total_tokens (server config))
      (sat_add (estimate_input_tokens body)
         (N.max (default 0%N (req_max_tokens body)) (reasoning_output_reserve (resolve_axis config headers body im (rate_check config ip g).2).1 im))));
      [done|]. unfold sat_add in *. lia.
Qed.

(** ** Attempts on closed breakers *)

Lemma closed_allows p g :
  state (breaker_of (g_breakers g) p) = Closed →
  (gw_allow config p g).1 = true
  ∧ g_calls (gw_allow config p g).2 = g_calls g
  ∧ (∀ q, breaker_of (g_breakers (gw_allow config p g).2) q = breaker_of (g_breakers g) q).
Proof.
  intros Hc. unfold gw_allow, reg_should_allow, should_allow, evaluate_state_transition. cbn.
  rewrite Hc. rewrite Hc. cbn. split_and!; [done|done|]. intros q. unfold breaker_of at 1.
  destruct (decide (p = q)) as [<-|Hne]; [by rewrite lookup_insert_eq|by rewrite lookup_insert_ne].
Qed.

(** An attempt without streaming or slot on a provider whose breaker is closed. *)
Lemma try_provider_closed body p m slot g :
  state (breaker_of (g_breakers g) p) = Closed → pool p = true →
  enable_slot_passthrough (server config) && (if slot is Some _ then true else false) = false →
  (try_provider config body p m false slot g).1
  = (match complete (length (g_calls g)) p (with_model body m) with
     | Ok completion => Ok (RespJson completion, resp_usage completion)
     | Err e => Err (Backend e)
     end)
  ∧ makes g (try_provider config body p m false slot g).2 [(p, with_model body m)]
  ∧ (∀ q, breaker_of (g_breakers (try_provider config body p m false slot g).2) q = breaker_of (g_breakers g) q).
Proof.
  intros Hc Hpool Hslot. destruct (closed_allows p g Hc) as (A1 & A2 & A3). unfold try_provider.
  destruct (gw_allow config p g) as [ok g1]. cbn [fst snd] in *. subst ok. cbn [negb].
  rewrite Hslot, Hpool. cbn. rewrite A2. split_and!; [done|unfold makes; cbn; by rewrite A2|done].
Qed.

Lemma breaker_of_failure p e g q :
  breaker_of (g_breakers (gw_failure config p e g)) q
  = if decide (p = q) then record_failure (circuit (server config)) e (clock (g_readings g)) (breaker_of (g_breakers g) p)
    else breaker_of (g_breakers g) q.
Proof.
  unfold gw_failure, breaker_of, reg_record_failure. cbn.
  destruct (decide (p = q)) as [<-|Hne]; [by rewrite lookup_insert_eq|by rewrite lookup_insert_ne].
Qed.

(** A failing primary is covered by its fallback.  When a chat request without an image
    has passed the guards, its primary answers with any error and its fallback with a
    completion, and neither breaker is open, then the client gets that completion: the two
    providers are called once each, in order, with their own models; the breaker of the
    fallback records a success, and that of the primary its failure. *)
Theorem fallback_serves (ip : N) (headers : Headers) (body r : ChatCompletionRequest) (g : gw)
    (alias : AliasTarget) (fb : ustr) (e : LlmError) (completion : ChatCompletionResponse)
    (admitted : (rate_check config ip g).1 = true)
    (prepared : chat_prepare config headers body (rate_check config ip g).2 = Ok (r, alias, false))
    (plain : req_stream r ≠ Some true)
    (no_slot : extract_slot_id (x_slot_id headers) = None)
    (has_fallback : fallback_provider alias = Some fb) (other : fb ≠ provider alias)
    (known : pool (provider alias) = true ∧ pool fb = true)
    (closed : state (breaker_of (g_breakers g) (provider alias)) = Closed
              ∧ state (breaker_of (g_breakers g) fb) = Closed)
    (fails : complete (length (g_calls g)) (provider alias) (with_model r (model alias)) = Err e)
    (answers : complete (S (length (g_calls g))) fb (with_model r (fb_model_of alias)) = Ok completion) :
  let g' := (chat_handler config ip headers body g).2 in
  (chat_handler config ip headers body g).1 = Ok (RespJson completion)
  ∧ new_calls g g' = [(provider alias, with_model r (model alias)); (fb, with_model r (fb_model_of alias))]
  ∧ failure_timestamps (breaker_of (g_breakers g') fb) = []
  ∧ ∃ now, breaker_of (g_breakers g') (provider alias)
           = record_failure (circuit (server config)) e now (breaker_of (g_breakers g) (provider alias)).
Proof.
  unfold chat_handler. pose proof (rate_check_calls ip g) as Hrc.
  pose proof (rate_check_breakers ip g) as Hrb.
  destruct (rate_check config ip g) as [ok g1]. cbn [fst snd] in *. subst ok. cbn [negb].
  rewrite prepared, no_slot, (bool_decide_eq_false_2 _ plain). unfold dispatch_with_fallback.
  destruct known as [K1 K2], closed as [C1 C2]. rewrite <- Hrb in C1, C2.
  assert (Hslot : enable_slot_passthrough (server config) && (if @None N is Some _ then true else false) = false)
    by (by rewrite andb_false_r).
  destruct (try_provider_closed r (provider alias) (model alias) None g1 C1 K1 Hslot) as (P1 & P2 & P3).
  destruct (try_provider config r (provider alias) (model alias) false None g1) as [res1 g2]. cbn [fst snd] in *.
  rewrite Hrc, fails in P1. subst res1. cbn [is_backend_error negb record_primary]. rewrite has_fallback.
  set (g3 := gw_failure config (provider alias) e g2).
  assert (C3 : state (breaker_of (g_breakers g3) fb) = Closed).
  { unfold g3. rewrite breaker_of_failure, decide_False by done. by rewrite P3. }
  destruct (try_provider_closed r fb (fb_model_of alias) None g3 C3 K2 Hslot) as (Q1 & Q2 & Q3).
  destruct (try_provider config r fb (fb_model_of alias) false None g3) as [res2 g4]. cbn [fst snd] in *.
  assert (Hlen : length (g_calls g3) = S (length (g_calls g))).
  { unfold g3. cbn. unfold makes in P2. rewrite P2, length_app, Hrc. cbn. lia. }
  rewrite Hlen, answers in Q1. subst res2. cbn [fst snd record_outcome].
  split_and!; [done| | |].
  - apply makes_new. unfold makes in *. cbn. rewrite Q2. unfold g3. cbn. by rewrite P2, Hrc, <- app_assoc.
  - cbn. unfold breaker_of at 1, reg_record_success. rewrite lookup_insert_eq. cbn. rewrite Q3.
    unfold record_success. by rewrite C3.
  - exists (clock (g_readings g2)). cbn. unfold breaker_of at 1, reg_record_success.
    rewrite lookup_insert_ne by done. fold (breaker_of (g_breakers g4) (provider alias)).
    rewrite Q3. unfold g3. rewrite breaker_of_failure, decide_True by done. by rewrite P3, Hrb.
Qed.

(** Without a fallback, one failure is recorded twice: by the dispatch and by the handler. *)
Lemma lone_failure_counts_twice (ip : N) (headers : Headers) (body r : ChatCompletionRequest) (g : gw)
    (alias : AliasTarget) (e : LlmError) :
  (rate_check config ip g).1 = true →
  chat_prepare config headers body (rate_check config ip g).2 = Ok (r, alias, false) →
  req_stream r ≠ Some true → extract_slot_id (x_slot_id headers) = None →
  fallback_provider alias = None → pool (provider alias) = true →
  state (breaker_of (g_breakers g) (provider alias)) = Closed →
  complete (length (g_calls g)) (provider alias) (with_model r (model alias)) = Err e →
  ∃ t1 t2, breaker_of (g_breakers (chat_handler config ip headers body g).2) (provider alias)
           = record_failure (circuit (server config)) e t2
               (record_failure (circuit (server config)) e t1 (breaker_of (g_breakers g) (provider alias))).
Proof.
  intros admitted prepared plain no_slot no_fb K1 C1 fails. unfold chat_handler.
  pose proof (rate_check_calls ip g) as Hrc. pose proof (rate_check_breakers ip g) as Hrb.
  destruct (rate_check config ip g) as [ok g1]. cbn [fst snd] in *. subst ok. cbn [negb].
  rewrite prepared, no_slot, (bool_decide_eq_false_2 _ plain). unfold dispatch_with_fallback. rewrite <- Hrb in C1.
  assert (Hslot : enable_slot_passthrough (server config) && (if @None N is Some _ then true else false) = false)
    by (by rewrite andb_false_r).
  destruct (try_provider_closed r (provider alias) (model alias) None g1 C1 K1 Hslot) as (P1 & P2 & P3).
  destruct (try_provider config r (provider alias) (model alias) false None g1) as [res1 g2]. cbn [fst snd] in *.
  rewrite Hrc, fails in P1. subst res1. cbn [is_backend_error negb record_primary]. rewrite no_fb.
  cbn [fst snd record_outcome]. rewrite breaker_of_failure, decide_True by done.
  rewrite breaker_of_failure, decide_True by done. rewrite P3, Hrb. eauto.
Qed.
End props.
