(* ===== verification/GatewayWitness.v ===== *)
(** * GatewayWitness: the gateway at work

    A concrete JSON printer, concrete backends and requests, the theorems of the gateway
    applied to them, and the inputs on which the code departs from what it says. *)

From S2P Require Import Prelude Text GatewayTypes Translate AnthropicStream StreamProtocol StreamContent StreamKeepAlive TranslateProps Breaker RateLimit GatewayDispatch GatewayProps.

#[local] Open Scope nat_scope.

Module GatewayExamples.

(** A printer that writes the number of a value, and its parser. *)
#[local] Instance sample_json : SerdeJson := {
  to_string v := Some [Npos (encode v)];
  from_str s := match s with [Npos p] => decode p | _ => None end
}.
#[local] Instance sample_json_laws : SerdeJsonLaws.
Proof. split; [by eexists|]. intros v s [= <-]. apply decode_encode. Qed.

(** ** Streams *)

Definition chunk (delta : ChunkDelta) (finish : option ustr) : chunk_item :=
  Ok (mkChunk (lit "c") (lit "chat.completion.chunk") 0 (lit "m") [mkChunkChoice 0 delta finish]).
Definition say (t : string) : ChunkDelta := mkDelta None (Some (lit t)) None.
Definition call (i : N) (id nm args : option ustr) : ChunkDelta :=
  mkDelta None None (Some [mkChunkToolCall i id None (Some (mkChunkFunction nm args))]).
Definition hush : ChunkDelta := mkDelta None None None.

Definition sample_stream : list chunk_item :=
  [chunk (say "one moment") None;
   chunk (call 0 (Some (lit "t1")) (Some (lit "search")) (Some (lit "{"))) None;
   chunk (call 0 None None (Some (lit "}"))) None;
   chunk hush (Some (lit "tool_calls"));
   Ok (mkChunk (lit "c") (lit "chat.completion.chunk") 0 (lit "m") [])].

Lemma stream_keeps_content_witness :
  texts (chunks_to_anthropic_content_sse sample_stream) = lit "one moment"
  ∧ (∃ a b, tool_blocks (scan_chunks StreamState_new sample_stream).2 !! 0%N = Some (a, b)
            ∧ args_at a (chunks_to_anthropic_content_sse sample_stream) = lit "{}").
Proof.
  destruct (stream_keeps_content sample_stream ltac:(vm_compute; discriminate)) as (H1 & H2 & _).
  split; [rewrite H1; reflexivity|]. apply (H2 0%N). vm_compute. discriminate.
Defined.

Definition sample_schedule : list bool := [true; true] ++ repeat false 20.

Lemma keepalive_ends_witness :
  let '(out, phase) := keepalive_anthropic_sse sample_schedule (Failed (lit "api_error") (lit "down")) (lit "m") (lit "id") in
  phase = PhaseDone ∧ MessageStop ∈ out
  ∧ filter (λ e, e ≠ Ping) out
    = [MessageStart (lit "m") (lit "id"); ErrorEvent (lit "api_error") (lit "down"); MessageStop].
Proof.
  pose proof (keepalive_stream_ends sample_schedule (Failed (lit "api_error") (lit "down")) (lit "m") (lit "id")) as H.
  cbn zeta in H. destruct (keepalive_anthropic_sse _ _ _ _) as [out phase].
  destruct H as [_ [H _]]. apply H. vm_compute. lia.
Defined.

Lemma client_reads_witness :
  let '(out, phase) := keepalive_anthropic_sse sample_schedule (Ready sample_stream) (lit "m") (lit "id") in
  is_Some (client_run Idle out)
  ∧ (3 + length (dispatch_events (Ready sample_stream)) ≤ progress sample_schedule →
     client_run Idle out = Some Stopped).
Proof.
  exact (client_reads_a_message sample_stream sample_schedule (lit "m") (lit "id")
           ltac:(vm_compute; reflexivity) ltac:(vm_compute; discriminate) ltac:(vm_compute; reflexivity)).
Defined.

(** A tool call whose first fragment lacks its name: its arguments are sent to a block that
    was never opened. *)
Example unannounced_delta_breaks_protocol :
  client_run (Receiving (mkMsg ∅ 0 false))
    (chunks_to_anthropic_content_sse [chunk (call 0 (Some (lit "t1")) None (Some (lit "{}"))) None]) = None.
Proof. vm_compute. reflexivity. Qed.

(** An error after the end of a stream: the tool blocks are stopped again, and the message
    a second time. *)
Example late_error_breaks_protocol :
  client_run (Receiving (mkMsg ∅ 0 false))
    (chunks_to_anthropic_content_sse (take 4 sample_stream ++ [Err Network])) = None
  ∧ length (filter (λ e, e = MessageStop)
      (chunks_to_anthropic_content_sse (take 4 sample_stream ++ [Err Network]))) = 2.
Proof. vm_compute. by split. Qed.

(** A backend that dies after its first words: the safety close ends the message over a
    block that is still open. *)
Example cut_stream_leaves_block_open :
  client_run Idle (keepalive_anthropic_sse (repeat false 9) (Ready (take 1 sample_stream)) (lit "m") (lit "id")).1 = None
  ∧ (keepalive_anthropic_sse (repeat false 9) (Ready (take 1 sample_stream)) (lit "m") (lit "id")).2 = PhaseDone.
Proof. vm_compute. by split. Qed.

(** A backend that ends a tool call with [stop]: a streaming client is told the turn has
    ended, where a client that waits for the whole answer is told to run the tool. *)
Example streamed_tool_use_not_announced :
  MessageDelta (lit "end_turn") 2
    ∈ chunks_to_anthropic_content_sse (take 3 sample_stream ++ [chunk hush (Some (lit "stop"))])
  ∧ (∃ answer, chat_to_anthropic
       (mkResponse (lit "r") (lit "o") 0 (lit "m")
          [mkChoice 0 (mkMessage RoleAssistant (ContentText [])
             (Some [mkToolCall (lit "t1") (lit "function") (lit "search") (lit "{}")]) None None)
             (Some (lit "stop"))] None) (lit "m") = Ok answer
     ∧ mres_stop_reason answer = Some (lit "tool_use")).
Proof.
  split; [|by eexists]. apply (bool_decide_unpack _). vm_compute. exact I.
Qed.

(** ** Translation *)

Definition sample_schema : json :=
  json_obj [("type", JString (lit "object"));
            ("properties", json_obj [("pattern", json_obj [("type", JString (lit "string"));
                                                           ("maxLength", json_nat 10)])])].

Lemma sample_schema_ok : json_ok sample_schema.
Proof.
  assert (Hlt : ∀ a b : ustr * json, ustr_lt a.1 b.1 = true → obj_key_lt a b) by done.
  vm_compute. repeat (constructor; try (cbn; reflexivity)).
Qed.

Lemma sanitize_witness :
  sanitize_schema sample_schema
  = json_obj [("type", JString (lit "object"));
              ("properties", json_obj [("pattern", json_obj [("type", JString (lit "string"))])])]
  ∧ clean (sanitize_schema sample_schema).
Proof.
  destruct (sanitize_schema_exact sample_schema sample_schema_ok) as (_ & H2 & _).
  split; [vm_compute; reflexivity|exact H2].
Defined.

Lemma assistant_turn_witness :
  ∃ answer,
    chat_to_anthropic
      (mkResponse (lit "r") (lit "o") 0 (lit "m")
         [mkChoice 0 (translate_assistant_message
                        (ABlocks [BlockText (lit "see"); BlockToolUse (lit "t1") (lit "search") (json_nat 1)]))
            (Some (lit "stop"))] None) (lit "claude") = Ok answer
    ∧ mres_content answer = [RBText (lit "see"); RBToolUse (lit "t1") (lit "search") (json_nat 1)]
    ∧ mres_stop_reason answer = Some (lit "tool_use") ∧ mres_model answer = lit "claude".
Proof.
  destruct (assistant_turn_roundtrip [BlockText (lit "see"); BlockToolUse (lit "t1") (lit "search") (json_nat 1)]
    (lit "r") (lit "o") (lit "m") (lit "claude") 0 0 (Some (lit "stop")) None []) as (answer & H1 & H2 & H3 & H4).
  exists answer. split; [exact H1|]. split; [exact H2|]. split; [exact H3|exact H4].
Defined.

(** ** Breakers *)

Definition sample_breaker : CircuitBreakerConfig := mkBreakerConfig 3 60 30.
Definition bad : LlmError := UpstreamError 500 (lit "down").

Definition sample_calls : list breaker_call :=
  [CallFailure bad 1; CallSuccess 2; CallFailure bad 3; CallAllow 10; CallFailure bad 20].

Lemma breaker_trips_witness :
  state (record_failure sample_breaker bad 62 (breaker_run sample_breaker sample_calls breaker_new).2) = Open
  ∧ state (record_failure sample_breaker bad 70 (breaker_run sample_breaker sample_calls breaker_new).2) = Closed.
Proof.
  destruct (breaker_trips_exactly sample_breaker sample_calls 0 bad 62 eq_refl eq_refl) as [_ H1].
  destruct (breaker_trips_exactly sample_breaker sample_calls 0 bad 70 eq_refl eq_refl) as [_ H2].
  split; [exact H1|exact H2].
Defined.

Definition tripped : Inner := (breaker_run sample_breaker (take 3 sample_calls ++ [CallFailure bad 20]) breaker_new).2.

Lemma open_breaker_witness :
  let opened := record_failure sample_breaker bad 25 tripped in
  let early := [CallAllow 30; CallSuccess 31; CallAllow 32; CallFailure bad 40; CallAllow 54] in
  let late := [CallAllow 55; CallAllow 70; CallFailure (InvalidRequest (lit "bad")) 71; CallAllow 72] in
  (breaker_run sample_breaker early opened).1 = 0
  ∧ state (breaker_run sample_breaker early opened).2 = Open
  ∧ (breaker_run sample_breaker (early ++ late) opened).1 ≤ 1.
Proof.
  exact (open_breaker_sheds_load sample_breaker bad tripped 25
           [CallAllow 30; CallSuccess 31; CallAllow 32; CallFailure bad 40; CallAllow 54]
           [CallAllow 55; CallAllow 70; CallFailure (InvalidRequest (lit "bad")) 71; CallAllow 72]
           eq_refl eq_refl eq_refl eq_refl eq_refl).
Defined.

Definition half_open : Inner := (breaker_state sample_breaker 100 (record_failure sample_breaker bad 25 tripped)).2.

Lemma lost_probe_witness :
  (breaker_run sample_breaker [CallFailure (InvalidRequest (lit "bad")) 102; CallAllow 1000; CallAllow 1000000]
     (should_allow sample_breaker 101 half_open).2).1 = 0.
Proof.
  exact (lost_probe_blocks_forever sample_breaker half_open 101
           [CallFailure (InvalidRequest (lit "bad")) 102; CallAllow 1000; CallAllow 1000000]
           eq_refl eq_refl eq_refl).
Defined.

(** ** The limiter *)

Definition at_second (s : Z) : reading := mkReading (s * 1000000000) (s * 1000000000) (s * 1000000000).

Lemma rate_limit_witness :
  let calls := [(7%N, at_second 0); (7%N, at_second 1); (7%N, at_second 59); (8%N, at_second 59); (7%N, at_second 61)] in
  within 0 (0 + window_duration - 0) (admitted 7 calls (limiter_run 2 calls ∅).1) ≤ 2.
Proof.
  exact (proj2 (rate_limit_bounds 2 [(7%N, at_second 0); (7%N, at_second 1); (7%N, at_second 59); (8%N, at_second 59); (7%N, at_second 61)]
    7 0 0 0 ltac:(done) ltac:(by vm_compute) eq_refl eq_refl) ltac:(lia)).
Defined.

(** The window is not a sliding one: two windows meet, and one address gets twice its quota
    within two seconds. *)
Example two_quotas_in_two_seconds :
  let calls := [(7%N, at_second 0); (7%N, at_second 59); (7%N, at_second 59);
                (7%N, at_second 60); (7%N, at_second 60); (7%N, at_second 60)] in
  (limiter_run 3 calls ∅).1 = repeat true 6.
Proof. vm_compute. reflexivity. Qed.

(** ** Handlers *)

Definition completion (t : string) : ChatCompletionResponse :=
  mkResponse (lit "r") (lit "chat.completion") 0 (lit "m")
    [mkChoice 0 (message_assistant (lit t)) (Some (lit "stop"))] None.

(** The backend [big] fails with the given error and the backend [small] answers. *)
#[local] Instance sample_backends (e : LlmError) : Backends := {
  clock n := Z.of_nat n;
  pool p := bool_decide (p ∈ [lit "big"; lit "small"]);
  complete _ p _ := if bool_decide (p = lit "small") then Ok (completion "hello") else Err e;
  stream_from _ p _ := if bool_decide (p = lit "small") then Ok [chunk (say "hello") None; Err Network] else Err e;
  post _ _ _ := Ok (500%N, Some (lit "down"));
  call_curator _ _ _ := Err Saturated;
  request_to_value _ := Some (JObject []);
  response_size _ := 100
}.

Definition sample_alias : AliasTarget := mkAlias (lit "big") (lit "m1") (Some (lit "small")) (Some (lit "m2")) None None false.
Definition seeing_alias : AliasTarget := mkAlias (lit "small") (lit "m1") None None None None true.
Definition lone_alias : AliasTarget := mkAlias (lit "big") (lit "m1") None None None None false.
Definition sample_config : GatewayConfig :=
  mkGatewayConfig (mkServerConfig 0 sample_breaker 0 true 64) [lit "big"; lit "small"]
    {[lit "default" := sample_alias; lit "eye" := seeing_alias; lit "lone" := lone_alias]}
    ∅ (lit "default") ∅ None.
Definition start : gw := mkGw ∅ ∅ 0 [].
Definition no_headers : Headers := mkHeaders None None None.

Definition ask (a : string) (msgs : list Message) : ChatCompletionRequest :=
  mkRequest (lit a) msgs None (Some 1%N) None None None None None None None None None.
Definition picture : Message :=
  mkMessage RoleUser (ContentParts [PartImageUrl (lit "https://x")]) None None None.

Lemma images_witness :
  ∃ a alias, aliases sample_config !! a = Some alias ∧ vision_capable alias = true
    ∧ (lit "small", with_model (apply_reasoning (ask "eye" [picture]) false true) (lit "m1")).1 = provider alias
    ∧ req_messages (with_model (apply_reasoning (ask "eye" [picture]) false true) (lit "m1"))
      = req_messages (ask "eye" [picture]).
Proof.
  exact (@images_reach_vision_only (sample_backends bad) sample_config 7 no_headers (ask "eye" [picture]) start eq_refl
    (lit "small", with_model (apply_reasoning (ask "eye" [picture]) false true) (lit "m1"))
    ltac:(vm_compute; left)).
Defined.

Lemma client_values_witness :
  req_temperature (with_model (apply_reasoning (ask "default" [message_user (lit "hi")]) false false) (lit "m2")) = Some 1%N.
Proof.
  destruct (@client_values_kept (sample_backends bad) sample_config 7 no_headers
    (ask "default" [message_user (lit "hi")]) start
    (lit "small", with_model (apply_reasoning (ask "default" [message_user (lit "hi")]) false false) (lit "m2"))
    ltac:(vm_compute; right; left)) as [K _].
  exact (keeps_temperature _ _ K 1%N eq_refl).
Defined.

Lemma fallback_witness :
  (@chat_handler (sample_backends bad) sample_config 7 no_headers (ask "default" [message_user (lit "hi")]) start).1
  = Ok (RespJson (completion "hello")).
Proof.
  exact (proj1 (@fallback_serves (sample_backends bad) sample_config 7 no_headers
    (ask "default" [message_user (lit "hi")])
    (apply_reasoning (ask "default" [message_user (lit "hi")]) false false) start sample_alias (lit "small") bad
    (completion "hello") eq_refl ltac:(vm_compute; reflexivity) ltac:(vm_compute; discriminate) eq_refl eq_refl
    ltac:(vm_compute; discriminate) ltac:(split; vm_compute; reflexivity) ltac:(split; vm_compute; reflexivity)
    ltac:(vm_compute; reflexivity) ltac:(vm_compute; reflexivity))).
Defined.

(** An alias without a fallback: two failing requests trip a breaker that takes three
    failures, since each is recorded twice. *)
Example two_requests_trip_three_failures :
  let h := @chat_handler (sample_backends bad) sample_config 7 no_headers (ask "lone" [message_user (lit "hi")]) in
  state (breaker_of (g_breakers (h (h start).2).2) (lit "big")) = Open.
Proof. vm_compute. reflexivity. Qed.

(** A breaker that refuses is reported as 502, not as the documented 503. *)
Example open_circuit_is_502 : status_code (circuit_open (lit "big")) = 502%N.
Proof. reflexivity. Qed.

(** The messages route sends an image to an alias that is not declared capable of vision;
    the chat route refuses the same. *)
Definition picture_turn : AnthropicMessage :=
  mkAMessage (lit "user") (ABlocks [BlockImage (mkImageSource (lit "url") None None (Some (lit "https://x")))]).
Definition picture_request (stream : option bool) : MessagesRequest :=
  mkMessagesRequest (lit "claude") [picture_turn] None 10 None None None stream None None None None None.
Example messages_image_reaches_blind_alias :
  (g_calls (@messages_handler_inner (sample_backends bad) sample_config sample_json 7 (picture_request None) start).2).*1
  = [lit "big"]
  ∧ (@chat_handler (sample_backends bad) sample_config 7 no_headers (ask "default" [picture]) start).1
    = Err (VisionNotSupported (lit "default")).
Proof. vm_compute. by split. Qed.

(** A fallback that breaks off in mid-stream is recorded against the primary. *)
Definition text_request : MessagesRequest :=
  mkMessagesRequest (lit "claude") [mkAMessage (lit "user") (AText (lit "hi"))] None 10 None None None (Some true)
    None None None None None.
Example fallback_break_blames_primary :
  let g := (@messages_handler_inner (sample_backends bad) sample_config sample_json 7 text_request start).2 in
  length (failure_timestamps (breaker_of (g_breakers g) (lit "big"))) = 2
  ∧ failure_timestamps (breaker_of (g_breakers g) (lit "small")) = [].
Proof. vm_compute. by split. Qed.

(** With a slot, an answer 500 of the backend is passed on and recorded as a success. *)
Example slot_error_is_a_success :
  let h := @chat_handler (sample_backends bad) sample_config 7 (mkHeaders None None (Some (lit "3")))
             (ask "default" [message_user (lit "hi")]) in
  (h start).1 = Ok (RespRaw 500 false (lit "down"))
  ∧ (g_calls (h start).2).*1 = [lit "big"].
Proof. vm_compute. by split. Qed.
End GatewayExamples.
