(* ===== verification/EngineConfig.v ===== *)
(** * EngineConfig: the configuration of an inference engine and the child it describes

    [crates/gradatum-engine/src/config.rs] (the [EngineConfig] record and its validation)
    and the pure part of [supervisor.rs]: the argument vector of the child process, the
    allow-list of pass-through arguments, the conflicts, the checks on the binary, the
    environment the child inherits and the construction of the supervisor.  What the file
    system answers to [canonicalize] is the class [FileSystem].
    The first part models the addresses of the standard library ([IpAddr], [SocketAddr]) and
    the parsers of their literals, which the configuration reads. *)

From S2P Require Import Prelude Text.

#[local] Open Scope N_scope.

(** * The addresses of the standard library *)

Inductive IpAddr := V4 (bits : N) | V6 (bits : N).

#[export] Instance IpAddr_eq_dec : EqDecision IpAddr.
Proof. solve_decision. Defined.

(** ** Predicates *)

(** The first octet of an address. *)
Definition v4_first (v4 : N) : N := N.shiftr v4 24.
Definition v6_first (v6 : N) : N := N.shiftr v6 120.

Definition v4_is_unspecified (v4 : N) : bool := v4 =? 0.
Definition v4_is_broadcast (v4 : N) : bool := v4 =? 2 ^ 32 - 1.
Definition v4_is_multicast (v4 : N) : bool := (224 <=? v4_first v4) && (v4_first v4 <=? 239).
Definition v6_is_unspecified (v6 : N) : bool := v6 =? 0.
Definition v6_is_multicast (v6 : N) : bool := v6_first v6 =? 255.

(** [Ipv6Addr::to_ipv4_mapped]: the addresses [::ffff:a.b.c.d]. *)
Definition to_ipv4_mapped (v6 : N) : option N :=
  if N.shiftr v6 32 =? 65535 then Some (N.land v6 (2 ^ 32 - 1)) else None.

(** [IpAddr::is_loopback]: the block [127.0.0.0/8] and [::1]. *)
Definition is_loopback (ip : IpAddr) : bool :=
  match ip with
  | V4 v4 => v4_first v4 =? 127
  | V6 v6 => v6 =? 1
  end.

Definition LOCALHOST : IpAddr := V4 2130706433.

(** ** Literals *)

(** The value of a digit in the given radix. *)
Definition digit_value (radix : N) (c : uchar) : option N :=
  let v := if is_digit c then Some (c - 48)
           else if is_lower c then Some (c - 87)
           else if (65 <=? c) && (c <=? 90) then Some (c - 55)
           else None in
  match v with Some d => if d <? radix then Some d else None | None => None end.

(** The run of digits at the head of a text. *)
Fixpoint read_digits (radix : N) (s : ustr) : list N * ustr :=
  match s with
  | c :: s' =>
      match digit_value radix c with
      | Some d => let '(ds, rest) := read_digits radix s' in (d :: ds, rest)
      | None => ([], s)
      end
  | [] => ([], [])
  end.

(** [Parser::read_number]: all digits that follow, at least one, at most [max_digits], with
    a value up to [limit], and unless [zeros] is given no leading zero. *)
Definition read_number (radix : N) (max_digits : option nat) (zeros : bool) (limit : N) (s : ustr)
    : option (N * ustr) :=
  let '(ds, rest) := read_digits radix s in
  let n := foldl (λ n d, n * radix + d) 0 ds in
  if bool_decide (ds = []) || negb (n <=? limit) then None
  else if match max_digits with Some m => bool_decide (m < length ds)%nat | None => false end then None
  else if negb zeros && bool_decide (head ds = Some 0) && bool_decide (1 < length ds)%nat then None
  else Some (n, rest).

Definition read_char (c : uchar) (s : ustr) : option ustr :=
  match s with d :: s' => if d =? c then Some s' else None | [] => None end.

Definition DOT : uchar := 46.
Definition COLON : uchar := 58.

Definition read_octet : ustr → option (N * ustr) := read_number 10 (Some 3%nat) false 255.

(** [Parser::read_ipv4_addr]. *)
Definition read_ipv4 (s : ustr) : option (N * ustr) :=
  '(a, s) ← read_octet s; s ← read_char DOT s;
  '(b, s) ← read_octet s; s ← read_char DOT s;
  '(c, s) ← read_octet s; s ← read_char DOT s;
  '(d, s) ← read_octet s;
  Some (((a * 256 + b) * 256 + c) * 256 + d, s).

(** [Parser::read_separator]: a colon before every element but the first. *)
Definition after_separator {A} (first : bool) (read : ustr → option (A * ustr)) (s : ustr)
    : option (A * ustr) :=
  if first then read s else s ← read_char COLON s; read s.

(** [read_groups]: up to [slots] groups of sixteen bits, the last two perhaps written as an
    IPv4 address. *)
Fixpoint read_groups (slots : nat) (first : bool) (s : ustr) : list N * bool * ustr :=
  match slots with
  | O => ([], false, s)
  | S slots' =>
      let embedded := match slots' with
                      | S _ => after_separator first read_ipv4 s
                      | O => None
                      end in
      match embedded with
      | Some (v4, rest) => ([N.shiftr v4 16; N.land v4 65535], true, rest)
      | None =>
          match after_separator first (read_number 16 (Some 4%nat) true 65535) s with
          | Some (group, rest) =>
              let '(groups, v4, rest) := read_groups slots' false rest in (group :: groups, v4, rest)
          | None => ([], false, s)
          end
      end
  end.

Definition of_groups (groups : list N) : N := foldl (λ n g, n * 65536 + g) 0 groups.

(** [Parser::read_ipv6_addr]: eight groups, or two runs around a double colon. *)
Definition read_ipv6 (s : ustr) : option (N * ustr) :=
  let '(front, front_v4, rest) := read_groups 8 true s in
  if bool_decide (length front = 8%nat) then Some (of_groups front, rest)
  else if front_v4 then None
  else
    rest ← read_char COLON rest; rest ← read_char COLON rest;
    let '(back, _, rest) := read_groups (8 - (length front + 1)) true rest in
    Some (of_groups (front ++ replicate (8 - length front - length back) 0 ++ back), rest).

(** [Parser::parse_with]: nothing may follow. *)
Definition whole {A} (r : option (A * ustr)) : option A :=
  match r with Some (a, []) => Some a | _ => None end.

Definition read_ip (s : ustr) : option (IpAddr * ustr) :=
  match read_ipv4 s with
  | Some (v4, rest) => Some (V4 v4, rest)
  | None => '(v6, rest) ← read_ipv6 s; Some (V6 v6, rest)
  end.

(** [str::parse::<IpAddr>()]. *)
Definition parse_ip (s : ustr) : option IpAddr := whole (read_ip s).

Definition read_port : ustr → option (N * ustr) := read_number 10 None true 65535.

(** [str::parse::<SocketAddr>()]: the address of the parsed pair. *)
Definition read_socket_v4 (s : ustr) : option (IpAddr * ustr) :=
  '(v4, s) ← read_ipv4 s; s ← read_char COLON s; '(_, s) ← read_port s; Some (V4 v4, s).
Definition read_scope (s : ustr) : ustr :=
  match read_char 37 s with
  | Some s' => match read_number 10 None true (2 ^ 32 - 1) s' with Some (_, rest) => rest | None => s end
  | None => s
  end.
Definition read_socket_v6 (s : ustr) : option (IpAddr * ustr) :=
  s ← read_char 91 s; '(v6, s) ← read_ipv6 s; let s := read_scope s in
  s ← read_char 93 s; s ← read_char COLON s; '(_, s) ← read_port s; Some (V6 v6, s).
Definition parse_socket_addr (s : ustr) : option IpAddr :=
  whole (match read_socket_v4 s with Some r => Some r | None => read_socket_v6 s end).

(** ** The literals of the code and of its documents *)

Example loopback_literals :
  parse_ip (lit "127.0.0.1") = Some LOCALHOST ∧ parse_ip (lit "::1") = Some (V6 1)
  ∧ parse_ip (lit "[::1]") = None ∧ parse_ip (lit "localhost") = None
  ∧ parse_ip (lit "127.0.0.01") = None
  ∧ parse_socket_addr (lit "[::1]:19090") = Some (V6 1)
  ∧ (to_ipv4_mapped <$> (v6 ← parse_ip (lit "::ffff:203.0.113.5"); match v6 with V6 b => Some b | V4 _ => None end))
    = Some (Some 3405803781)
  ∧ parse_ip (lit "1:2:3:4:5:6:7:8") = Some (V6 5192455318486707404433266433261576)
  ∧ parse_ip (lit "1:2:3:4:5:6:7:8:9") = None ∧ parse_ip (lit "1::2::3") = None.
Proof. vm_compute. repeat split; reflexivity. Qed.

(** * EngineConfig *)

(** ** Paths *)

(** A component of a canonical path; the file system may hold names that are not UTF-8. *)
Inductive os_str := Utf8 (name : ustr) | NotUtf8 (bytes : list N).

#[export] Instance os_str_eq_dec : EqDecision os_str.
Proof. solve_decision. Defined.

(** A canonical path: absolute, so its components below the root. *)
Abbreviation canonical := (list os_str).

Inductive io_error := NotFound | OtherIo (code : N).

#[export] Instance io_error_eq_dec : EqDecision io_error.
Proof. solve_decision. Defined.

Class FileSystem := { canonicalize : ustr → result canonical io_error }.

Definition to_str (name : os_str) : option ustr :=
  match name with Utf8 s => Some s | NotUtf8 _ => None end.

(** [Path::to_str] of a canonical path. *)
Fixpoint path_to_str (p : canonical) : option ustr :=
  match p with
  | [] => Some []
  | name :: p' => s ← to_str name; rest ← path_to_str p'; Some (lit "/" ++ s ++ rest)
  end.
Definition canonical_str (p : canonical) : option ustr :=
  match p with [] => Some (lit "/") | _ => path_to_str p end.

(** [Path::starts_with], component by component. *)
Definition path_starts_with (prefix : list ustr) (p : canonical) : bool :=
  bool_decide (take (length prefix) p = Utf8 <$> prefix).

(** ** The configuration *)

Inductive ModelKind := Chat | Embed.
Inductive RuntimeKind := LlamaServer | Onnx.
Inductive SpecType :=
  DraftSimple | DraftEagle3 | DraftMtp
| NgramSimple | NgramMapK | NgramMapK4v | NgramMod | NgramCache.

#[export] Instance ModelKind_eq_dec : EqDecision ModelKind.
Proof. solve_decision. Defined.
#[export] Instance RuntimeKind_eq_dec : EqDecision RuntimeKind.
Proof. solve_decision. Defined.

Definition as_arg (t : SpecType) : ustr :=
  match t with
  | DraftSimple => lit "draft-simple"
  | DraftEagle3 => lit "draft-eagle3"
  | DraftMtp => lit "draft-mtp"
  | NgramSimple => lit "ngram-simple"
  | NgramMapK => lit "ngram-map-k"
  | NgramMapK4v => lit "ngram-map-k4v"
  | NgramMod => lit "ngram-mod"
  | NgramCache => lit "ngram-cache"
  end.

Definition requires_draft_model (t : SpecType) : bool :=
  match t with DraftSimple | DraftEagle3 | DraftMtp => true | _ => false end.

(** The threshold [spec_draft_p_min] is an [f32], carried as its bits. *)
Record EngineConfig := mkEngineConfig {
  model_path : ustr;
  model_kind : ModelKind;
  runtime : RuntimeKind;
  gpu_layers : N;
  n_threads : N;
  context_len : N;
  port : N;
  bind_addr : option IpAddr;
  metrics_port : option N;
  timeout_secs : N;
  max_tokens : option N;
  gradatum_url : option ustr;
  agent_id : option ustr;
  llama_server_bin : ustr;
  child_port : N;
  parallel : N;
  extra_args : list ustr;
  mmproj_path : option ustr;
  draft_model_path : option ustr;
  spec_type : option SpecType;
  spec_draft_n_max : option N;
  spec_draft_p_min : option N;
  startup_timeout_secs : N;
  child_restart_max : N;
  min_stable_uptime_secs : N;
  body_limit_bytes : N
}.

(** ** Validation *)

(** What a refused configuration is refused for. *)
Inductive config_error :=
  BodyLimitOverCap | MaxTokensZero
| ModelPath (field : string) (e : option io_error)
| DraftWithoutModel (t : SpecType) | ModelWithoutSpec | ModelWithNgram (t : SpecType)
| NMaxWithoutSpec | NMaxOutOfRange | PMinWithoutSpec | PMinInvalid
| BindUnspecified | BindBroadcast | BindMulticast.

Definition MODELS_DIR : list ustr := [lit "opt"; lit "gradatum"; lit "models"].

Definition MAX_BODY_LIMIT_BYTES : N := 256 * 1024 * 1024.

Definition check_v4_addr (v4 : N) : result () config_error :=
  if v4_is_unspecified v4 then Err BindUnspecified
  else if v4_is_broadcast v4 then Err BindBroadcast
  else if v4_is_multicast v4 then Err BindMulticast
  else Ok ().

Definition validate_bind_addr (addr : IpAddr) : result () config_error :=
  match addr with
  | V4 v4 => check_v4_addr v4
  | V6 v6 =>
      match to_ipv4_mapped v6 with
      | Some v4 => check_v4_addr v4
      | None =>
          if v6_is_unspecified v6 then Err BindUnspecified
          else if v6_is_multicast v6 then Err BindMulticast
          else Ok ()
      end
  end.

Definition validate_spec_decoding (t : option SpecType) (draft : option ustr)
    : result () config_error :=
  match t, draft with
  | Some st, None => if requires_draft_model st then Err (DraftWithoutModel st) else Ok ()
  | None, Some _ => Err ModelWithoutSpec
  | Some st, Some _ => if requires_draft_model st then Ok () else Err (ModelWithNgram st)
  | None, None => Ok ()
  end.

Definition validate_spec_draft_n_max (t : option SpecType) (n_max : option N)
    : result () config_error :=
  match n_max with
  | None => Ok ()
  | Some n =>
      match t with
      | None => Err NMaxWithoutSpec
      | Some _ => if negb ((1 <=? n) && (n <=? 16)) then Err NMaxOutOfRange else Ok ()
      end
  end.

(** A finite [f32] within [0.0..=1.0], on its bits: the encoding of the numbers that are not
    negative is monotone, and the negative zero compares equal to zero. *)
Definition is_probability (bits : N) : bool := (bits <=? 0x3f800000) || (bits =? 0x80000000).

Definition validate_spec_draft_p_min (t : option SpecType) (p_min : option N)
    : result () config_error :=
  match p_min with
  | None => Ok ()
  | Some p =>
      match t with
      | None => Err PMinWithoutSpec
      | Some _ => if negb (is_probability p) then Err PMinInvalid else Ok ()
      end
  end.

Definition validate_max_tokens (n : option N) : result () config_error :=
  if bool_decide (n = Some 0) then Err MaxTokensZero else Ok ().

Section config.
Context {fs : FileSystem}.

Definition validate_model_prefix (field : string) (path : ustr) : result () config_error :=
  match canonicalize path with
  | Err e => Err (ModelPath field (Some e))
  | Ok p => if path_starts_with MODELS_DIR p then Ok () else Err (ModelPath field None)
  end.

Definition validate_optional_model (field : string) (path : option ustr) : result () config_error :=
  match path with Some p => validate_model_prefix field p | None => Ok () end.

(** [EngineConfig::validate]. *)
Definition validate (c : EngineConfig) : result () config_error :=
  if MAX_BODY_LIMIT_BYTES <? body_limit_bytes c then Err BodyLimitOverCap
  else
    _ ?<- validate_max_tokens (max_tokens c);
    _ ?<- validate_model_prefix "model_path" (model_path c);
    _ ?<- validate_optional_model "mmproj_path" (mmproj_path c);
    _ ?<- validate_spec_decoding (spec_type c) (draft_model_path c);
    _ ?<- validate_spec_draft_n_max (spec_type c) (spec_draft_n_max c);
    _ ?<- validate_spec_draft_p_min (spec_type c) (spec_draft_p_min c);
    _ ?<- validate_optional_model "draft_model_path" (draft_model_path c);
    match bind_addr c with Some addr => validate_bind_addr addr | None => Ok () end.
End config.

Definition resolved_bind_addr (c : EngineConfig) : IpAddr := default LOCALHOST (bind_addr c).

(** [port.saturating_add(1)] of a [u16]. *)
Definition resolved_metrics_port (c : EngineConfig) : N :=
  default (N.min (port c + 1) 65535) (metrics_port c).

(** ** The arguments of the child *)

(** An argument; the text of a float is left to its formatter. *)
Inductive child_arg := Arg (s : ustr) | Float (bits : N).

#[export] Instance child_arg_eq_dec : EqDecision child_arg.
Proof. solve_decision. Defined.

(** A flag emitted when its field is set, with its value. *)
Definition flag_if {A} (flag : string) (value : A → child_arg) (field : option A) : list child_arg :=
  match field with Some a => [Arg (lit flag); value a] | None => [] end.

Definition text_of (n : N) : child_arg   := Arg (fmt_nat n).

(** The part of the arguments the typed fields decide. *)
Definition authoritative_args (cfg : EngineConfig) : list child_arg :=
  [Arg (lit "--model"); Arg (model_path cfg);
   Arg (lit "--port"); text_of (child_port cfg);
   Arg (lit "--host"); Arg (lit "127.0.0.1");
   Arg (lit "--n-gpu-layers"); text_of (gpu_layers cfg);
   Arg (lit "--threads"); text_of (n_threads cfg);
   Arg (lit "--ctx-size"); text_of (context_len cfg);
   Arg (lit "--parallel"); text_of (parallel cfg)]
  ++ (if bool_decide (model_kind cfg = Embed) then [Arg (lit "--embedding")] else [])
  ++ flag_if "--mmproj" Arg (mmproj_path cfg)
  ++ flag_if "--spec-type" (λ t, Arg (as_arg t)) (spec_type cfg)
  ++ flag_if "--spec-draft-model" Arg (draft_model_path cfg)
  ++ flag_if "--spec-draft-n-max" text_of (spec_draft_n_max cfg)
  ++ flag_if "--spec-draft-p-min" Float (spec_draft_p_min cfg)
  ++ flag_if "--n-predict" text_of (max_tokens cfg).

Definition build_child_args (cfg : EngineConfig) : list child_arg :=
  authoritative_args cfg ++ (Arg <$> extra_args cfg).

(** [ALLOWED_EXTRA_FLAGS]. *)
Definition ALLOWED_EXTRA_FLAGS : list ustr :=
  lit <$> ["--flash-attn"; "-fa"; "--no-mmap"; "--mlock"; "--no-kv-offload"; "-nkvo";
           "--cont-batching"; "--no-cont-batching"; "--batch-size"; "-b"; "--ubatch-size"; "-ub";
           "--threads-http"; "--keep"; "--defrag-thold"; "--cache-type-k"; "-ctk"; "--cache-type-v";
           "-ctv"; "--kv-unified"; "--slot-prompt-similarity"; "--numa"; "--log-disable";
           "--log-prefix"; "--log-timestamps"; "--rope-scaling"; "--rope-scale"; "--rope-freq-base";
           "--rope-freq-scale"; "--yarn-orig-ctx"; "--yarn-ext-factor"; "--yarn-attn-factor";
           "--yarn-beta-slow"; "--yarn-beta-fast"; "--seed"; "-s"; "--poll"; "--swa-full";
           "--cache-reuse"; "--reasoning"; "--reasoning-format"; "--reasoning-budget";
           "--chat-template-kwargs"; "--temp"; "--temperature"; "--top-k"; "--top-p"; "--min-p";
           "--presence-penalty"; "--repeat-penalty"; "--n-predict"; "-n"; "--backend-sampling"]%string.

(** [arg.split('=').next()]. *)
Definition arg_key (arg : ustr) : ustr :=
  match split_once (lit "=") arg with Some (key, _) => key | None => arg end.

Definition is_flag (arg : ustr) : bool := str_starts_with (lit "-") arg.

(** Errors of the engine, with the text they carry replaced by their reason. *)
Inductive EngineError :=
  BinCanonicalize (e : io_error) | BinNotUtf8 | BinRefused
| ChildPortLow | PortCollision | FlagRefused (key : ustr) | NPredictConflict.

Fixpoint validate_extra_args (args : list ustr) : result () EngineError :=
  match args with
  | [] => Ok ()
  | arg :: rest =>
      if negb (is_flag arg) then validate_extra_args rest
      else if negb (bool_decide (arg_key arg ∈ ALLOWED_EXTRA_FLAGS)) then Err (FlagRefused (arg_key arg))
      else validate_extra_args rest
  end.

Definition extra_args_has_n_predict (args : list ustr) : bool :=
  existsb (λ arg, bool_decide (arg_key arg = lit "--n-predict")
                  || bool_decide (arg_key arg = lit "-n")) args.

Definition config_arg_conflicts (c : EngineConfig) : list EngineError :=
  if bool_decide (is_Some (max_tokens c)) && extra_args_has_n_predict (extra_args c)
  then [NPredictConflict] else [].

(** ** The binary *)

Definition ALLOWED_BIN_PREFIXES : list ustr :=
  [lit "/usr/local/bin/"; lit "/opt/gradatum/bin/"; lit "/opt/llama-"].

Definition is_prefix_allowed (path_str : ustr) : bool :=
  existsb (λ prefix, str_starts_with prefix path_str) ALLOWED_BIN_PREFIXES.

Definition is_ascii_alphanumeric (c : uchar) : bool :=
  is_digit c || is_lower c || ((65 <=? c) && (c <=? 90)).

Definition is_llama_server_name (name : ustr) : bool :=
  match strip_prefix (lit "llama-server") name with
  | Some [] => true
  | Some (45 :: tail) => negb (bool_decide (tail = [])) && forallb is_ascii_alphanumeric tail
  | _ => false
  end.

Definition is_binary_allowed (path : canonical) : bool :=
  match last path with
  | None => false
  | Some file_name =>
      match to_str file_name with
      | Some name =>
          if negb (is_llama_server_name name) then false
          else match canonical_str path with
               | Some path_str => is_prefix_allowed path_str
               | None => false
               end
      | None => false
      end
  end.

(** ** The environment of the child *)

Definition GPU_ENV_PREFIXES : list ustr :=
  lit <$> ["GGML_"; "VK_"; "HIP_"; "ROCR_"; "ROCM_"; "HSA_"; "CUDA_"; "NVIDIA_"; "MESA_"; "RADV_"]%string.
Definition ENV_PASSTHROUGH : list ustr := lit <$> ["PATH"; "HOME"; "LD_LIBRARY_PATH"]%string.

Definition env_passes (key : ustr) : bool :=
  bool_decide (key ∈ ENV_PASSTHROUGH)
  || existsb (λ prefix, str_starts_with prefix key) GPU_ENV_PREFIXES.

(** [env_clear] followed by [inject_allowed_env]: what is left of the variables of the
    process. *)
Definition key_passes (key : os_str) : bool :=
  match to_str key with Some key => env_passes key | None => false end.
Definition inject_allowed_env {V} (vars : list (os_str * V)) : list (os_str * V) :=
  filter (λ kv, key_passes kv.1 = true) vars.

(** ** Construction of the supervisor *)

Section supervisor_new.
Context {fs : FileSystem}.

Definition canonicalize_bin_path (bin : ustr) : result canonical EngineError :=
  match canonicalize bin with
  | Err e => Err (BinCanonicalize e)
  | Ok p =>
      match canonical_str p with
      | None => Err BinNotUtf8
      | Some _ => if negb (is_binary_allowed p) then Err BinRefused else Ok p
      end
  end.

(** [LlamaServerSupervisor::new], up to the HTTP client: the canonical binary. *)
Definition supervisor_new (c : EngineConfig) : result canonical EngineError :=
  canonical_bin ?<- canonicalize_bin_path (llama_server_bin c);
  if child_port c <=? 1024 then Err ChildPortLow
  else if child_port c =? port c then Err PortCollision
  else
    _ ?<- validate_extra_args (extra_args c);
    match config_arg_conflicts c with
    | conflict :: _ => Err conflict
    | [] => Ok canonical_bin
    end.
End supervisor_new.

(** ** What an accepted configuration cannot do *)

(** The flags the typed fields own. *)
Definition typed_flags : list ustr :=
  lit <$> ["--model"; "--port"; "--host"; "--n-gpu-layers"; "--threads"; "--ctx-size"; "--parallel";
           "--embedding"; "--mmproj"; "--spec-type"; "--spec-draft-model"; "--spec-draft-n-max";
           "--spec-draft-p-min"]%string.
Definition managed_flags (c : EngineConfig) : list ustr :=
  typed_flags ++ (if bool_decide (is_Some (max_tokens c)) then [lit "--n-predict"; lit "-n"] else []).

Lemma typed_flags_not_allowed :
  Forall (λ flag, is_flag flag = true ∧ flag ∉ ALLOWED_EXTRA_FLAGS) typed_flags.
Proof. apply (bool_decide_unpack _). vm_compute. done. Qed.

Lemma validate_extra_args_Ok args :
  validate_extra_args args = Ok () →
  ∀ arg, arg ∈ args → is_flag arg = true → arg_key arg ∈ ALLOWED_EXTRA_FLAGS.
Proof.
  induction args as [|a args IH]; cbn; intros H arg Hin; [set_solver|].
  apply elem_of_cons in Hin as [->|Hin].
  - intros E. rewrite E in H. cbn in H. case_bool_decide; [done|by cbn in H].
  - apply IH; [|done]. by repeat (case_match; simplify_eq/=).
Qed.

Lemma arg_key_prefix arg : ∃ rest, arg = arg_key arg ++ rest.
Proof.
  unfold arg_key. destruct (split_once (lit "=") arg) as [[key rest]|] eqn:E.
  - apply split_once_sound in E. eauto.
  - exists []. by rewrite app_nil_r.
Qed.

(** A key that begins with a hyphen belongs to an argument that does. *)
Lemma key_is_flag arg : is_flag (arg_key arg) = true → is_flag arg = true.
Proof.
  intros H. destruct (arg_key_prefix arg) as [rest E]. unfold is_flag in *.
  apply str_starts_with_iff in H as [s Hs]. apply str_starts_with_iff.
  exists (s ++ rest). rewrite E at 1. rewrite Hs. by rewrite <- app_assoc.
Qed.

Lemma has_n_predict_iff args :
  extra_args_has_n_predict args = true ↔
  ∃ arg, arg ∈ args ∧ (arg_key arg = lit "--n-predict" ∨ arg_key arg = lit "-n").
Proof.
  unfold extra_args_has_n_predict. rewrite existsb_exists. split; intros (arg & Hin & H); exists arg.
  - apply list_elem_of_In in Hin. split; [done|]. apply orb_true_iff in H as [H|H];
      apply bool_decide_eq_true in H; auto.
  - apply list_elem_of_In in Hin. split; [done|]. apply orb_true_iff.
    destruct H as [H|H]; [left|right]; by apply bool_decide_eq_true.
Qed.

(** The variables by which llama-server takes its arguments from the environment. *)
Lemma env_blocks_llama key : str_starts_with (lit "LLAMA_") key = true → env_passes key = false.
Proof.
  intros H. apply str_starts_with_iff in H as [s ->]. unfold env_passes.
  apply orb_false_iff. split.
  - apply bool_decide_eq_false. vm_compute. intros H. repeat (apply elem_of_cons in H as [H|H]; [done|]).
    by apply elem_of_nil in H.
  - reflexivity.
Qed.

(** C21: the child is confined by its configuration.  When a supervisor can be built at all,
    the binary is an allowed one, the port of the child is above 1024 and not the engine's own
    (nothing is said of the metrics port, or of whether it can be bound), the child listens on the loopback address, no pass-through argument
    names a flag that a typed field owns (the generation cap included when it is set), and
    no variable [LLAMA_...], by which the child could take such a flag from the environment,
    is handed on. *)
Theorem child_confined {fs : FileSystem} (c : EngineConfig) (bin : canonical)
    (accepted : supervisor_new c = Ok bin) :
  is_binary_allowed bin = true ∧ (1024 < child_port c ∧ child_port c ≠ port c)
  ∧ (build_child_args c !! 4%nat = Some (Arg (lit "--host"))
     ∧ build_child_args c !! 5%nat = Some (Arg (lit "127.0.0.1")))
  ∧ (∀ arg flag, arg ∈ extra_args c → flag ∈ managed_flags c → arg_key arg ≠ flag)
  ∧ ∀ (vars : list (os_str * ustr)) key value,
      (key, value) ∈ inject_allowed_env vars →
      ∃ name, key = Utf8 name ∧ str_starts_with (lit "LLAMA_") name = false.
Proof.
  unfold supervisor_new, canonicalize_bin_path in accepted.
  destruct (canonicalize _) as [p|]; [|done]. destruct (canonical_str p); [|done].
  destruct (is_binary_allowed p) eqn:Hbin; [cbn in accepted|done].
  destruct (N.leb_spec (child_port c) 1024); [done|].
  destruct (N.eqb_spec (child_port c) (port c)); [done|].
  destruct (validate_extra_args _) as [[]|] eqn:Hargs; [cbn in accepted|done].
  destruct (config_arg_conflicts c) eqn:Hconf; simplify_eq/=.
  split_and!; try done.
  - intros arg flag Hin Hflag Hkey.
    unfold managed_flags in Hflag. apply elem_of_app in Hflag as [Hflag|Hflag].
    + pose proof typed_flags_not_allowed as Hall. rewrite Forall_forall in Hall.
      apply Hall in Hflag as [Hf Hno]. rewrite <- Hkey in *.
      by eapply Hno, (validate_extra_args_Ok _ Hargs), key_is_flag.
    + unfold config_arg_conflicts in Hconf. destruct (bool_decide _); cbn in *; [|by apply elem_of_nil in Hflag].
      destruct (extra_args_has_n_predict _) eqn:E; [done|]. apply not_true_iff_false in E. apply E.
      apply has_n_predict_iff. exists arg. split; [done|]. rewrite Hkey.
      apply elem_of_cons in Hflag as [->|Hflag]; [by left|]. apply list_elem_of_singleton in Hflag. by right.
  - intros vars key value Hv. unfold inject_allowed_env in Hv. apply list_elem_of_filter in Hv as [Hv _].
    cbn in Hv. unfold key_passes in Hv. destruct key as [name|]; [|done]. exists name. split; [done|].
    cbn in Hv. destruct (str_starts_with (lit "LLAMA_") name) eqn:E; [|done].
    by rewrite (env_blocks_llama _ E) in Hv.
Qed.
