(* ===== verification/EngineSupervisor.v ===== *)
(** * EngineSupervisor: the supervision of the child process

    [supervise_loop], [wait_ready], [spawn_child] and [shutdown] of
    [crates/gradatum-engine/src/supervisor.rs], as one machine: the loop and a call of
    [shutdown] are two threads that share the child, the mutex around it and the flag, and
    the child is a third party that may die at any moment.  A step of a thread is what it
    does up to its next await or its next access to what is shared; [exec] runs any
    interleaving of steps, of the passing of time and of the death of the child.

    Instants are milliseconds.  The [log] is the list of what the supervisor did, the newest
    first; nothing reads it but the theorems. *)

From S2P Require Import Prelude Text EngineConfig.

#[local] Open Scope Z_scope.

(** ** The parts of the machine *)

(** [HealthState]: the state published on [/health]. *)
Inductive HealthStatus := Starting | Ready | Unhealthy.

(** The process behind a [Child]: running, dead but not collected, collected. *)
Inductive proc := Alive | Zombie | Reaped.

Inductive thread := Supervisor | Shutdown.

(** How the loop ended. *)
Inductive ending := SawShutdown | NoChild | Escalated.

(** Where the loop is.  [Top]: before the first reading of the flag; [Locking]: asking for
    the mutex; [Waiting]: in [child.wait()], with the mutex; [Exited]: the wait returned;
    [Sleeping]: the backoff; [Spawning]: before [cmd.spawn()]; [Storing]: the new process
    runs, the mutex is asked for; [Polling], [Fetching], [PollSleep]: the loop of
    [wait_ready], with its deadline. *)
Inductive sup_pc :=
  Top | Locking | Waiting | Exited | Sleeping (until : Z) | Spawning | Storing
| Polling (deadline : Z) | Fetching (deadline : Z) | PollSleep (deadline until : Z)
| Ended (e : ending).

(** Where the call of [shutdown] is. *)
Inductive shut_pc := Idle | WantLock | Grace (until : Z) | Returned.

Inductive act := Reset | Backoff (ms : Z) | Spawn | SpawnFailed | Escalate | Term | Kill.

#[export] Instance HealthStatus_eq_dec : EqDecision HealthStatus.
Proof. solve_decision. Defined.
#[export] Instance proc_eq_dec : EqDecision proc.
Proof. solve_decision. Defined.
#[export] Instance ending_eq_dec : EqDecision ending.
Proof. solve_decision. Defined.
#[export] Instance act_eq_dec : EqDecision act.
Proof. solve_decision. Defined.
#[export] Instance sup_pc_eq_dec : EqDecision sup_pc.
Proof. solve_decision. Defined.

(** What is shared: the [Mutex<Option<Child>>] with its holder, the flag, the health. *)
Record shared := mkShared {
  child : option proc;
  lock : option thread;
  shutdown_requested : bool;
  health : HealthStatus
}.

(** The local variables of the loop. *)
Record locals := mkLocals {
  pc : sup_pc;
  restart_budget : Z;
  backoff_ms : Z;
  last_ready_at : option Z
}.

Record sys := mkSys {
  shr : shared;
  sup : locals;
  shut : shut_pc;
  clock : Z;
  log : list act
}.

Definition BACKOFF_INIT_MS : Z := 500.
Definition BACKOFF_MAX_MS : Z := 30000.
Definition SHUTDOWN_GRACE_MS : Z := 5000.

(** What the operating system and the child answer to a step. *)
Record answer := mkAnswer {
  wait_err : bool;      (** [child.wait()] fails *)
  spawn_ok : bool;      (** [cmd.spawn()] succeeds *)
  try_wait_err : bool;  (** [child.try_wait()] fails *)
  http_ok : bool        (** [/health] answers with a success *)
}.

Inductive event :=
  Tick (ms : N) | ChildDies | SupStep (a : answer) | CallShutdown | ShutStep (wait_fails : bool).

(** ** Steps of the loop *)

Definition at_pc (p : sup_pc) (l : locals) : locals :=
  mkLocals p (restart_budget l) (backoff_ms l) (last_ready_at l).
Definition with_child (c : option proc) (h : shared) : shared :=
  mkShared c (lock h) (shutdown_requested h) (health h).
Definition with_lock (t : option thread) (h : shared) : shared :=
  mkShared (child h) t (shutdown_requested h) (health h).
Definition with_health (st : HealthStatus) (h : shared) : shared :=
  mkShared (child h) (lock h) (shutdown_requested h) st.

(** The loop moves to [p] and leaves the rest as it is. *)
Definition goto (p : sup_pc) (s : sys) : sys :=
  mkSys (shr s) (at_pc p (sup s)) (shut s) (clock s) (log s).
Definition share (h : shared) (s : sys) : sys := mkSys h (sup s) (shut s) (clock s) (log s).
Definition did (a : list act) (s : sys) : sys := mkSys (shr s) (sup s) (shut s) (clock s) (a ++ log s).

(** A restart that did not become ready, or was not even spawned: the backoff doubles. *)
Definition double_backoff (l : locals) : locals :=
  mkLocals Top (restart_budget l) (Z.min (backoff_ms l * 2) BACKOFF_MAX_MS) (last_ready_at l).
Definition failed_start (s : sys) : sys :=
  mkSys (shr s) (double_backoff (sup s)) (shut s) (clock s) (log s).

Section supervisor.
Context (cfg : EngineConfig).

Definition restart_max : Z := Z.of_N (child_restart_max cfg).
Definition stable_ms : Z := Z.of_N (min_stable_uptime_secs cfg) * 1000.
Definition startup_ms : Z := Z.of_N (startup_timeout_secs cfg) * 1000.

(** [last_ready_at.map(|t| t.elapsed() >= min_stable).unwrap_or(false)]. *)
Definition uptime_stable (now : Z) (l : locals) : bool :=
  match last_ready_at l with
  | Some t => bool_decide (stable_ms ≤ Z.max 0 (now - t))
  | None => false
  end.

(** The accounting after a death of the child: reset, budget, backoff. *)
Definition account (s : sys) : sys :=
  let stable := uptime_stable (clock s) (sup s) in
  let budget := if stable then restart_max else restart_budget (sup s) in
  let backoff := if stable then BACKOFF_INIT_MS else backoff_ms (sup s) in
  let s := did (if stable then [Reset] else []) s in
  if bool_decide (budget = 0)
  then mkSys (with_health Unhealthy (shr s))
         (mkLocals (Ended Escalated) budget backoff (last_ready_at (sup s)))
         (shut s) (clock s) (Escalate :: log s)
  else mkSys (shr s)
         (mkLocals (Sleeping (clock s + backoff)) (budget - 1) backoff (last_ready_at (sup s)))
         (shut s) (clock s) (Backoff backoff :: log s).

(** The new process takes the place of the old [Child], which kills its process when it is
    dropped before it was collected. *)
Definition store_child (s : sys) : sys :=
  let dropped := match child (shr s) with Some Alive | Some Zombie => [Kill] | _ => [] end in
  did dropped
    (mkSys (with_child (Some Alive) (shr s)) (at_pc (Polling (clock s + startup_ms)) (sup s))
       (shut s) (clock s) (log s)).

(** [health.set_ready()], then [last_ready_at = Some(Instant::now())]. *)
Definition became_ready (s : sys) : sys :=
  let l := double_backoff (sup s) in
  mkSys (with_health Ready (shr s)) (mkLocals Top (restart_budget l) (backoff_ms l) (Some (clock s)))
    (shut s) (clock s) (log s).

(** The loop of [wait_ready]: the deadline, the early exit of the child, the poll, the sleep
    between two polls. *)
Definition wait_ready_step (a : answer) (s : sys) : option sys :=
  match pc (sup s) with
  | Polling deadline =>
      if bool_decide (clock s < deadline) then
        match lock (shr s) with
        | Some _ => None
        | None =>
            match child (shr s) with
            | Some Zombie | Some Reaped =>
                if try_wait_err a then Some (goto (Fetching deadline) s)
                else Some (failed_start (share (with_child (Some Reaped) (shr s)) s))
            | _ => Some (goto (Fetching deadline) s)
            end
        end
      else Some (failed_start s)
  | Fetching deadline =>
      if http_ok a then Some (became_ready s) else Some (goto (PollSleep deadline (clock s + 500)) s)
  | PollSleep deadline until =>
      if bool_decide (clock s < until) then None else Some (goto (Polling deadline) s)
  | _ => None
  end.

(** The loop itself. *)
Definition sup_step (a : answer) (s : sys) : option sys :=
  match pc (sup s) with
  | Top => Some (goto (if shutdown_requested (shr s) then Ended SawShutdown else Locking) s)
  | Locking =>
      match lock (shr s), child (shr s) with
      | Some _, _ => None
      | None, None => Some (goto (Ended NoChild) s)
      | None, Some _ => Some (goto Waiting (share (with_lock (Some Supervisor) (shr s)) s))
      end
  | Waiting =>
      match child (shr s) with
      | Some Alive => if wait_err a then Some (goto Exited (share (with_lock None (shr s)) s)) else None
      | Some _ => Some (goto Exited (share (with_lock None (with_child (Some Reaped) (shr s))) s))
      | None => None
      end
  | Exited => Some (if shutdown_requested (shr s) then goto (Ended SawShutdown) s else account s)
  | Sleeping until =>
      if bool_decide (clock s < until) then None
      else Some (goto (if shutdown_requested (shr s) then Ended SawShutdown else Spawning) s)
  | Spawning =>
      if spawn_ok a then Some (did [Spawn] (goto Storing s))
      else Some (did [SpawnFailed] (failed_start s))
  | Storing => match lock (shr s) with Some _ => None | None => Some (store_child s) end
  | Polling _ | Fetching _ | PollSleep _ _ => wait_ready_step a s
  | Ended _ => None
  end.

(** ** Steps of [shutdown] and of the world *)

Definition call_shutdown (s : sys) : option sys :=
  match shut s with
  | Idle => Some (mkSys (mkShared (child (shr s)) (lock (shr s)) true (health (shr s)))
                    (sup s) WantLock (clock s) (log s))
  | _ => None
  end.

(** [*guard = None] and the end of the call. *)
Definition shut_done (acts : list act) (s : sys) : sys :=
  mkSys (with_child None (with_lock None (shr s))) (sup s) Returned (clock s) (acts ++ log s).

(** [child.id()] is [None] once the process was collected: no signal is sent then. *)
Definition shut_step (wait_fails : bool) (s : sys) : option sys :=
  match shut s with
  | WantLock =>
      match lock (shr s), child (shr s) with
      | Some _, _ => None
      | None, None => Some (mkSys (shr s) (sup s) Returned (clock s) (log s))
      | None, Some p =>
          Some (mkSys (with_lock (Some Shutdown) (shr s)) (sup s) (Grace (clock s + SHUTDOWN_GRACE_MS))
                  (clock s) ((if bool_decide (p = Reaped) then [] else [Term]) ++ log s))
      end
  | Grace until =>
      match child (shr s) with
      | Some Alive => if wait_fails || bool_decide (until ≤ clock s) then Some (shut_done [Kill] s) else None
      | _ => Some (shut_done [] s)
      end
  | Idle | Returned => None
  end.

Definition step (e : event) (s : sys) : option sys :=
  match e with
  | Tick ms => Some (mkSys (shr s) (sup s) (shut s) (clock s + Z.of_N ms) (log s))
  | ChildDies =>
      match child (shr s) with
      | Some Alive => Some (share (with_child (Some Zombie) (shr s)) s)
      | _ => None
      end
  | SupStep a => sup_step a s
  | CallShutdown => call_shutdown s
  | ShutStep wait_fails => shut_step wait_fails s
  end.

Fixpoint exec (es : list event) (s : sys) : option sys :=
  match es with
  | [] => Some s
  | e :: es' => s' ← step e s; exec es' s'
  end.

(** ** The start *)

Inductive ChildState := ChildReady | StartupTimeout.

(** What [serve] hands to the loop after the first [wait_ready]: the seed of
    [last_ready_at], and the engine published as unhealthy when the child was not ready. *)
Definition supervise_start (outcome : ChildState) (p : proc) (now : Z) : sys :=
  let '(st, ready_at) := match outcome with
                         | ChildReady => (Ready, Some now)
                         | StartupTimeout => (Unhealthy, None)
                         end in
  mkSys (mkShared (Some p) None false st) (mkLocals Top restart_max BACKOFF_INIT_MS ready_at)
    Idle now [].
End supervisor.
