(* ===== verification/EngineSafety.v ===== *)
(** * EngineSafety: what the supervision of the child guarantees, and where it stops

    Properties of every interleaving of EngineSupervisor.v, by invariants of [step]: the
    schedule of restarts, one child at a time, and the two ways in which the loop waits for
    ever. *)

From S2P Require Import Prelude Text EngineConfig EngineSupervisor.

#[local] Open Scope Z_scope.

Section safety.
Context (cfg : EngineConfig).

#[local] Arguments account : simpl never.
#[local] Arguments store_child : simpl never.
#[local] Arguments became_ready : simpl never.

(** ** Invariants *)

(** What every admitted event keeps, every run keeps. *)
Lemma exec_invariant (admitted : event → Prop) (P : sys → Prop) es s s' :
  (∀ e t t', admitted e → P t → step cfg e t = Some t' → P t') →
  Forall admitted es → P s → exec cfg es s = Some s' → P s'.
Proof.
  intros Hstep Hes. revert s. induction Hes as [|e es He _ IH]; intros s Hs Hx; cbn in Hx.
  - by simplify_eq.
  - apply bind_Some in Hx as (t & Ht & Hx). by eapply IH; [eapply Hstep|].
Qed.

(** The cases of a step, with the states destructed. *)
Ltac step_cases e s :=
  destruct s as [[child_ lock_ flag_ health_] [pc_ budget_ backoff_ ready_] shut_ clock_ log_];
  destruct e; cbn in *;
  unfold sup_step, wait_ready_step, call_shutdown, shut_step in *; cbn in *; intros; simplify_eq/=;
  repeat (case_match; simplify_eq/=); try done.

(** ** The schedule of restarts *)

(** The backoffs since the budget was last reset, the oldest first. *)
Fixpoint backoffs_since_reset (l : list act) : list Z :=
  match l with
  | [] | Reset :: _ => []
  | Backoff ms :: l' => backoffs_since_reset l' ++ [ms]
  | _ :: l' => backoffs_since_reset l'
  end.

(** The capped doubling. *)
Definition doubling (n : nat) : Z := Z.min (BACKOFF_INIT_MS * 2 ^ Z.of_nat n) BACKOFF_MAX_MS.

Lemma doubling_next n : Z.min (doubling n * 2) BACKOFF_MAX_MS = doubling (S n).
Proof.
  unfold doubling, BACKOFF_INIT_MS, BACKOFF_MAX_MS. rewrite Nat2Z.inj_succ, Z.pow_succ_r by lia. lia.
Qed.

(** Between the backoff and the end of the turn the variable still holds the backoff that
    was slept. *)
Definition mid_turn (p : sup_pc) : bool :=
  match p with
  | Sleeping _ | Spawning | Storing | Polling _ | Fetching _ | PollSleep _ _ => true
  | _ => false
  end.

Definition scheduled (s : sys) : Prop :=
  let l := backoffs_since_reset (log s) in
  l = doubling <$> seq 0 (length l)
  ∧ restart_budget (sup s) + Z.of_nat (length l) = restart_max cfg
  ∧ 0 ≤ restart_budget (sup s)
  ∧ (if mid_turn (pc (sup s))
     then ∃ n, length l = S n ∧ backoff_ms (sup s) = doubling n
     else match pc (sup s) with
          | Ended Escalated => restart_budget (sup s) = 0 ∧ health (shr s) = Unhealthy
          | Ended _ => True
          | _ => backoff_ms (sup s) = doubling (length l)
          end).

Lemma snoc_doubling l :
  l = doubling <$> seq 0 (length l) →
  l ++ [doubling (length l)] = doubling <$> seq 0 (length (l ++ [doubling (length l)])).
Proof. intros Hl. rewrite length_app, seq_app, fmap_app, <- Hl. done. Qed.

Lemma account_scheduled s : scheduled s → pc (sup s) = Exited → scheduled (account cfg s).
Proof.
  intros (Hl & Hb & Hpos & Hpc) E. rewrite E in Hpc. cbn in Hpc.
  unfold account, scheduled. cbn.
  destruct (uptime_stable cfg (clock s) (sup s)) eqn:Est; cbn; case_bool_decide as E0; cbn.
  - unfold restart_max in *. split_and!; try done; lia.
  - split_and!; [done|lia|unfold restart_max in *; lia|]. by exists 0%nat.
  - split_and!; done.
  - rewrite Hpc. split_and!; [by apply snoc_doubling|rewrite length_app; cbn; lia|lia|].
    exists (length (backoffs_since_reset (log s))). rewrite length_app. cbn. split; [lia|done].
Qed.

(** The end of a turn, ready or not: the backoff is doubled. *)
Lemma end_turn_scheduled h h' ready p b m r t now log_ :
  scheduled (mkSys h (mkLocals p b m r) t now log_) → mid_turn p = true →
  scheduled (mkSys h' (mkLocals Top b (Z.min (m * 2) BACKOFF_MAX_MS) ready) t now log_).
Proof.
  intros (H1 & H2 & H3 & H4) E. cbn in *. rewrite E in H4. destruct H4 as (n & Hn & ->).
  unfold scheduled. cbn. rewrite doubling_next, Hn. rewrite Hn in *. done.
Qed.

Lemma step_scheduled e s s' : scheduled s → step cfg e s = Some s' → scheduled s'.
Proof.
  step_cases e s.
  all: try (by apply account_scheduled); try (by eapply end_turn_scheduled).
  all: match goal with H : scheduled _ |- _ => destruct H as (? & ? & ? & ?) end; split_and!; try done.
  all: unfold store_child in *; cbn in *; repeat case_match; simplify_eq/=; try done.
Qed.

Lemma start_scheduled outcome p now : scheduled (supervise_start cfg outcome p now).
Proof.
  destruct outcome; unfold scheduled; cbn; split_and!; try done; unfold restart_max; lia.
Qed.

(** C16: the restarts follow the documented policy.  Whatever the child, the operating system
    and a shutdown do and in whatever order, the backoffs slept since the budget was last
    reset are exactly the capped doubling 500 ms, 1 s, 2 s, ... and at most
    [child_restart_max] of them; the supervisor escalates only when that many were used up,
    and then the engine is published as unhealthy. *)
Theorem restart_schedule_exact es outcome p now s
    (run : exec cfg es (supervise_start cfg outcome p now) = Some s) :
  let slept := backoffs_since_reset (log s) in
  slept = doubling <$> seq 0 (length slept)
  ∧ Z.of_nat (length slept) ≤ restart_max cfg
  ∧ (pc (sup s) = Ended Escalated →
     Z.of_nat (length slept) = restart_max cfg ∧ health (shr s) = Unhealthy).
Proof.
  assert (scheduled s) as (Hl & Hb & Hpos & Hpc).
  { eapply (exec_invariant (λ _, True)); [|by apply Forall_true|apply start_scheduled|exact run].
    intros e t t' _. apply step_scheduled. }
  split_and!; [done|lia|]. intros E. rewrite E in Hpc. cbn in Hpc. split; [lia|by destruct Hpc].
Qed.

(** ** One child at a time *)

(** [child.wait()] fails while the child runs. *)
Definition wait_fails_at (e : event) (s : sys) : Prop :=
  match e with
  | SupStep a => pc (sup s) = Waiting ∧ child (shr s) = Some Alive ∧ wait_err a = true
  | _ => False
  end.
#[local] Instance wait_fails_at_dec e s : Decision (wait_fails_at e s).
Proof. destruct e; apply _. Defined.

Definition no_live_child (s : sys) : Prop := child (shr s) = None ∨ child (shr s) = Some Reaped.

Definition between_children (p : sup_pc) : bool :=
  match p with Exited | Sleeping _ | Spawning | Storing | Ended Escalated => true | _ => false end.

Definition one_child (s : sys) : Prop :=
  (pc (sup s) = Waiting ↔ lock (shr s) = Some Supervisor)
  ∧ ((∃ until, shut s = Grace until) ↔ lock (shr s) = Some Shutdown)
  ∧ (between_children (pc (sup s)) = true → no_live_child s).

Lemma step_one_child e s s' : ¬ wait_fails_at e s → one_child s → step cfg e s = Some s' → one_child s'.
Proof.
  intros We (Hl & Hg & Hc) Hx. unfold one_child, no_live_child in *. revert We Hl Hg Hc Hx.
  step_cases e s.
  all: unfold wait_fails_at, account, store_child, became_ready in *; cbn in *; repeat case_match; cbn in *;
    naive_solver.
Qed.

(** A run from a state with one child at most keeps it so, or a [wait] failed in it. *)
Lemma exec_one_child es s0 s :
  one_child s0 → exec cfg es s0 = Some s →
  one_child s ∨ ∃ before e after s1, es = before ++ e :: after ∧ exec cfg before s0 = Some s1 ∧ wait_fails_at e s1.
Proof.
  revert s0. induction es as [|e es IH]; intros s0 H0 Hrun; [left; by simplify_eq/=|].
  destruct (decide (wait_fails_at e s0)) as [Hf|Hf]; [right; by exists [], e, es, s0|].
  cbn in Hrun. destruct (step cfg e s0) as [s1|] eqn:E1; [|done]. cbn in Hrun.
  destruct (IH s1) as [H|(before & e' & after & s2 & -> & H2 & H3)];
    [by eapply step_one_child|done|by left|].
  right. exists (e :: before), e', after, s2. cbn. by rewrite E1.
Qed.

Lemma start_one_child outcome p now : one_child (supervise_start cfg outcome p now).
Proof. destruct outcome; unfold one_child; cbn; naive_solver. Qed.

(** C15: never two children, unless [wait] fails.  Whatever the child, the operating system
    and a shutdown do and in whatever order: whenever the supervisor is about to start a
    process, has just started one, or has given up, the previous child was collected, so that
    a second model is never loaded beside a running one; the only exception is a run in which
    [child.wait()] itself failed while the child was running, which the loop takes for its
    end. *)
Theorem one_child_at_a_time es outcome p now s
    (run : exec cfg es (supervise_start cfg outcome p now) = Some s) :
  pc (sup s) = Spawning ∨ pc (sup s) = Storing ∨ pc (sup s) = Ended Escalated →
  no_live_child s
  ∨ ∃ before a after s1,
      es = before ++ SupStep a :: after
      ∧ exec cfg before (supervise_start cfg outcome p now) = Some s1
      ∧ pc (sup s1) = Waiting ∧ child (shr s1) = Some Alive ∧ wait_err a = true.
Proof.
  intros Hpc. destruct (exec_one_child _ _ _ (start_one_child outcome p now) run)
    as [(_ & _ & Hc)|(before & e & after & s1 & -> & H1 & Hf)].
  - left. destruct Hpc as [E|[E|E]]; apply Hc; by rewrite E.
  - right. destruct e as [| |a| |]; try done. by exists before, a, after, s1.
Qed.

(** ** Waiting for ever *)

(** The child does not die of itself, and [wait] does not fail. *)
Definition child_stays (e : event) : Prop :=
  match e with ChildDies => False | SupStep a => wait_err a = false | _ => True end.

Definition stuck (past : list act) (s : sys) : Prop :=
  pc (sup s) = Waiting ∧ lock (shr s) = Some Supervisor ∧ child (shr s) = Some Alive
  ∧ (shut s = Idle ∨ shut s = WantLock) ∧ log s = past.

Lemma step_stuck past e s s' : child_stays e → stuck past s → step cfg e s = Some s' → stuck past s'.
Proof.
  intros He (H1 & H2 & H3 & H4 & H5). unfold stuck. revert He H1 H2 H3 H4 H5.
  step_cases e s; naive_solver.
Qed.

(** The loop holds the mutex of the child for as long as the child lives.  From a state
    in which it waits for a live child, in every run in which the child does not die of
    itself: the loop stays where it is, whatever time passes (a child that missed its
    start-up deadline is not restarted), and a call of [shutdown] neither returns nor sends a
    signal. *)
Theorem live_child_blocks_shutdown es s s'
    (waiting : stuck (log s) s) (lives : Forall child_stays es) (run : exec cfg es s = Some s') :
  pc (sup s') = Waiting ∧ child (shr s') = Some Alive ∧ shut s' ≠ Returned ∧ log s' = log s.
Proof.
  assert (stuck (log s) s') as (H1 & _ & H3 & H4 & H5).
  { eapply (exec_invariant child_stays); [|done|exact waiting|exact run].
    intros e t t'. apply step_stuck. }
  split_and!; try done. by destruct H4 as [->| ->].
Qed.

(** No poll of [/health] succeeds, and nobody shuts the engine down. *)
Definition never_ready (e : event) : Prop :=
  match e with SupStep a => http_ok a = false | CallShutdown => False | _ => True end.

(** The child was once ready for long enough, and the log since [past] shows only first
    backoffs. *)
Definition forgiven (t : Z) (past : list act) (s : sys) : Prop :=
  last_ready_at (sup s) = Some t ∧ stable_ms cfg ≤ clock s - t
  ∧ pc (sup s) ≠ Ended Escalated
  ∧ ∃ since, log s = since ++ past ∧ Forall (λ a, match a with
                                                  | Backoff ms => ms = BACKOFF_INIT_MS
                                                  | Escalate => False
                                                  | _ => True
                                                  end) since.

Lemma forgiven_more t past s s' acts :
  forgiven t past s → last_ready_at (sup s') = last_ready_at (sup s) → clock s ≤ clock s' →
  pc (sup s') ≠ Ended Escalated → log s' = acts ++ log s →
  Forall (λ a, match a with Backoff ms => ms = BACKOFF_INIT_MS | Escalate => False | _ => True end) acts →
  forgiven t past s'.
Proof.
  intros (H1 & H2 & H3 & since & H4 & H5) E1 E2 E3 E4 Ha. unfold forgiven. rewrite E1, E4, H4.
  split_and!; [done|lia|done|]. exists (acts ++ since). by rewrite app_assoc, Forall_app.
Qed.

Lemma account_forgiven t past s :
  (1 ≤ restart_max cfg) → forgiven t past s → forgiven t past (account cfg s).
Proof.
  intros Hm H. pose proof H as (H1 & H2 & _). assert (uptime_stable cfg (clock s) (sup s) = true) as E.
  { unfold uptime_stable. rewrite H1. apply bool_decide_eq_true_2. lia. }
  unfold account. rewrite E. cbn. rewrite bool_decide_eq_false_2 by lia.
  eapply (forgiven_more _ _ s _ [Backoff BACKOFF_INIT_MS; Reset]); cbn; try done; try lia.
  by repeat constructor.
Qed.

#[local] Arguments forgiven : simpl never.

(** The cases of [step_forgiven]: the log grows by [acts]. *)
Ltac logged acts :=
  match goal with H : forgiven _ _ ?s0 |- _ =>
    eapply (forgiven_more _ _ s0 _ acts); [exact H|..]; cbn;
    first [done|lia|by repeat constructor|by destruct H as (_ & _ & ? & _)] end.

Lemma step_forgiven t past e s s' :
  (1 ≤ restart_max cfg) → never_ready e → forgiven t past s → step cfg e s = Some s' → forgiven t past s'.
Proof.
  intros Hm He H. revert He H. step_cases e s.
  all: try (by apply account_forgiven).
  all: unfold store_child; cbn; repeat case_match; simplify_eq/=.
  all: first [logged (@nil act)|logged [Spawn]|logged [SpawnFailed]|logged [Kill]|logged [Term]].
Qed.

(** A child that was once ready for long enough forgives every failure after.  The
    instant of the last readiness is never cleared: from a turn that starts at least
    [min_stable_uptime_secs] after it, as long as no restart becomes ready again, every
    failed restart resets the budget and the backoff, so the supervisor never escalates,
    however many restarts fail, and always waits the shortest time.  The documentation says
    that such restarts consume the budget, with a growing backoff. *)
Theorem stale_readiness_never_escalates es s s' t
    (enabled : 1 ≤ restart_max cfg)
    (ready_once : last_ready_at (sup s) = Some t) (long_enough : stable_ms cfg ≤ clock s - t)
    (running : pc (sup s) = Top) (failing : Forall never_ready es)
    (run : exec cfg es s = Some s') :
  pc (sup s') ≠ Ended Escalated
  ∧ ∃ since, log s' = since ++ log s ∧ ∀ ms, Backoff ms ∈ since → ms = BACKOFF_INIT_MS.
Proof.
  assert (forgiven t (log s) s') as (_ & _ & Hpc & since & Hl & Hs).
  { eapply (exec_invariant never_ready); [|done| |exact run].
    - intros e u u'. by apply step_forgiven.
    - split_and!; [done|done|by rewrite running|]. by exists []. }
  split; [done|]. exists since. split; [done|]. intros ms Hin.
  rewrite Forall_forall in Hs. by apply Hs in Hin.
Qed.
End safety.
