(* ===== verification/EngineCheck.v ===== *)
(** * EngineCheck: the start of the engine and the check that predicts it

    [crates/gradatum-engine/src/bin/gradatum-engine.rs]: the guards [serve] passes before it
    starts a child, and [--check], which says beforehand whether a configuration can be
    served on this host, for the account of the service and not for the account that asks.

    The host is the class [Host]: its files and their modes, its users and groups, its
    systemd, its resolver, the URL parser of the url crate and the answer of the server to
    the exchange of an API key.  Nothing is assumed of it. *)

From S2P Require Import Prelude Text EngineConfig.

#[local] Open Scope N_scope.

Record Metadata := mkMetadata { md_mode : N; md_uid : N; md_gid : N }.

(** Why the exchange of an API key for a token failed ([sink.rs]). *)
Inductive ExchangeError := Transport | ExUnauthorized | HttpStatus (status : N) | MissingToken.

Class Host := {
  host_files :: FileSystem;
  metadata : canonical → result Metadata io_error;
  (** [File::open] by the calling process. *)
  open_file : ustr → result () io_error;
  (** [access(X_OK)] by the calling process. *)
  access_x : canonical → bool;
  (** [systemctl show], when it can be run and succeeds. *)
  systemctl_show : option ustr;
  (** The user database: uid and gid; an outer [None] is a failed lookup. *)
  user_by_name : ustr → option (option (N * N));
  group_by_name : ustr → option (option N);
  getgrouplist : ustr → N → option (list N);
  env_api_key : option ustr;
  api_key_file : option ustr;
  api_key_file_exists : bool;
  (** Host and port of a URL. *)
  url_parse : ustr → option (option ustr * option N);
  to_socket_addrs : ustr → N → option (list IpAddr);
  exchange : ustr → ustr → result ustr ExchangeError
}.

Definition WANT_READ : N := 4.
Definition WANT_EXEC : N := 1.

Record ServiceIdentity := mkService { si_unit : ustr; si_user : ustr; si_uid : N; si_gids : list N }.
Inductive CheckIdentity := Service (s : ServiceIdentity) | CallingProcess.

(** ** The records of systemd *)

Definition record_property (record key : ustr) : option ustr :=
  head (omap (λ line, rest ← strip_prefix key line; strip_prefix (lit "=") rest) (lines record)).

(** The part before the first separator. *)
Definition before (sep s : ustr) : ustr :=
  match split_once sep s with Some (front, _) => front | None => s end.

Definition exec_start_config_arg (exec_start : ustr) : option ustr :=
  '(_, after) ← split_once (lit "argv[]=") exec_start;
  let argv := trim (before (lit " ; ") (before (lit "argv[]=") after)) in
  last (split_whitespace argv).

(** [s.split(sep)]; every turn consumes a separator. *)
Fixpoint split_str_fuel (fuel : nat) (sep s : ustr) : list ustr :=
  match fuel with
  | O => [s]
  | S fuel' => match split_once sep s with
               | Some (front, rest) => front :: split_str_fuel fuel' sep rest
               | None => [s]
               end
  end.
Definition split_str (sep s : ustr) : list ustr := split_str_fuel (length s) sep s.

Definition non_empty (value : option ustr) : option ustr :=
  v ← value; if bool_decide (v = []) then None else Some v.

Inductive identity_problem :=
  NoSystemd | NoUnit | UserLookup (user : ustr) | UserAbsent (user : ustr)
| GroupLookup (group : ustr) | GroupAbsent (group : ustr).

(** A path for comparison: canonical where it exists, as written otherwise. *)
Definition resolved_path `{Host} (path : ustr) : canonical + ustr :=
  match canonicalize path with Ok p => inl p | Err _ => inr path end.

Definition serves_config `{Host} (target : canonical + ustr) (record : ustr) : bool :=
  match exec_start ← record_property record (lit "ExecStart"); exec_start_config_arg exec_start with
  | Some arg => bool_decide (resolved_path arg = target)
  | None => false
  end.

Definition primary_gid_of `{Host} (group : option ustr) (own : N) : result N identity_problem :=
  match group with
  | None => Ok own
  | Some name =>
      match group_by_name name with
      | None => Err (GroupLookup name)
      | Some None => Err (GroupAbsent name)
      | Some (Some gid) => Ok gid
      end
  end.

Definition resolve_service_identity `{Host} (config_path : ustr)
    : result ServiceIdentity identity_problem :=
  match systemctl_show with
  | None => Err NoSystemd
  | Some text =>
      match head (filter (λ r, serves_config (resolved_path config_path) r = true)
                    (split_str [NL; NL] text)) with
      | None => Err NoUnit
      | Some record =>
          let unit := default (lit "<unknown>") (record_property record (lit "Id")) in
          let user := default (lit "root") (non_empty (record_property record (lit "User"))) in
          let group := non_empty (record_property record (lit "Group")) in
          match user_by_name user with
          | None => Err (UserLookup user)
          | Some None => Err (UserAbsent user)
          | Some (Some (uid, gid)) =>
              primary_gid ?<- primary_gid_of group gid;
              let listed := default [] (getgrouplist user primary_gid) in
              let extra := omap (λ name, mjoin (group_by_name name))
                             (split_whitespace (default [] (record_property record (lit "SupplementaryGroups")))) in
              Ok (mkService unit user uid
                    (vec_dedup (merge_sort N.le (primary_gid :: listed ++ extra))))
          end
      end
  end.

Definition identity_resolve `{Host} (config_path : ustr) : CheckIdentity :=
  match resolve_service_identity config_path with Ok s => Service s | Err _ => CallingProcess end.

(** ** Access *)

Definition mode_grants (meta : Metadata) (uid : N) (gids : list N) (want : N) : bool :=
  if uid =? 0 then negb (want =? WANT_EXEC) || negb (N.land (md_mode meta) 0x49 =? 0)
  else
    let class :=
      if md_uid meta =? uid then N.land (N.shiftr (md_mode meta) 6) 7
      else if bool_decide (md_gid meta ∈ gids) then N.land (N.shiftr (md_mode meta) 3) 7
      else N.land (md_mode meta) 7 in
    N.land class want =? want.

Inductive access_problem :=
  CannotInspect (e : io_error) | NotSearchable (dir : canonical) | NotExecutable | NotReadable.

(** The directories above a canonical path, from the root down. *)
Definition dirs_above (p : canonical) : list canonical := (λ n, take n p) <$> seq 0 (length p).

Fixpoint search_dirs `{Host} (uid : N) (gids : list N) (dirs : list canonical)
    : result () access_problem :=
  match dirs with
  | [] => Ok ()
  | dir :: rest =>
      match metadata dir with
      | Err e => Err (CannotInspect e)
      | Ok meta => if negb (mode_grants meta uid gids WANT_EXEC) then Err (NotSearchable dir)
                   else search_dirs uid gids rest
      end
  end.

(** From the canonical path on; [identity_access] takes the path as written. *)
Definition canonical_access `{Host} (p : canonical) (uid : N) (gids : list N) (want : N)
    : result () access_problem :=
  _ ?<- search_dirs uid gids (dirs_above p);
  match metadata p with
  | Err e => Err (CannotInspect e)
  | Ok meta => if mode_grants meta uid gids want then Ok ()
               else Err (if want =? WANT_EXEC then NotExecutable else NotReadable)
  end.

Definition identity_access `{Host} (path : ustr) (uid : N) (gids : list N) (want : N)
    : result () access_problem :=
  match canonicalize path with
  | Err NotFound => Ok ()
  | Err e => Err (CannotInspect e)
  | Ok p => canonical_access p uid gids want
  end.

Definition check_readable `{Host} (path : ustr) : option access_problem :=
  match open_file path with
  | Ok _ | Err NotFound => None
  | Err _ => Some NotReadable
  end.

Definition can_read `{Host} (identity : CheckIdentity) (path : ustr) : result () access_problem :=
  match identity with
  | Service s => identity_access path (si_uid s) (si_gids s) WANT_READ
  | CallingProcess => match check_readable path with Some e => Err e | None => Ok () end
  end.

(** The path is the canonical one: it canonicalizes to itself. *)
Definition can_exec `{Host} (identity : CheckIdentity) (p : canonical) : result () access_problem :=
  match identity with
  | Service s => canonical_access p (si_uid s) (si_gids s) WANT_EXEC
  | CallingProcess => if access_x p then Ok () else Err NotExecutable
  end.

(** ** The destination of events *)

Inductive url_problem := UrlInvalid | UrlNoHost | UrlNotLoopback | UrlUnresolved.

Definition validate_loopback_url `{Host} (url : ustr) : result () url_problem :=
  match url_parse url with
  | None => Err UrlInvalid
  | Some (None, _) => Err UrlNoHost
  | Some (Some host, port) =>
      match parse_ip host with
      | Some ip => if is_loopback ip then Ok () else Err UrlNotLoopback
      | None =>
          let port := default 80 port in
          let addrs := match parse_socket_addr (host ++ lit ":" ++ fmt_nat port) with
                       | Some ip => Some [ip]
                       | None => to_socket_addrs host port
                       end in
          match addrs with
          | None | Some [] => Err UrlUnresolved
          | Some addrs => if forallb is_loopback addrs then Ok () else Err UrlNotLoopback
          end
      end
  end.

(** ** The start *)

Inductive TelemetryStatus := Active | NotConfigured | Unreachable | Unauthorized | Failed.

Definition classify_exchange_error (e : ExchangeError) : TelemetryStatus :=
  match e with
  | ExUnauthorized => Unauthorized
  | Transport => Unreachable
  | HttpStatus _ | MissingToken => Failed
  end.

Definition read_api_key `{Host} : option ustr :=
  match env_api_key with Some key => Some key | None => trim <$> api_key_file end.

Inductive startup_error :=
  InvalidConfig (e : config_error) | OnnxUnsupported | StartChildPortLow
| BadUrl (e : url_problem) | NoApiKey | SupervisorRefused (e : EngineError).

(** The sink of events: its token, if it is live, and the published state. *)
Definition build_sink `{Host} (url : option ustr) : result (option ustr * TelemetryStatus) startup_error :=
  match url with
  | None => Ok (None, NotConfigured)
  | Some url =>
      match validate_loopback_url url with
      | Err e => Err (BadUrl e)
      | Ok _ =>
          match read_api_key with
          | None => Err NoApiKey
          | Some key =>
              match exchange key url with
              | Ok jwt => Ok (Some jwt, Active)
              | Err e => Ok (None, classify_exchange_error e)
              end
          end
      end
  end.

(** [serve], up to the construction of the supervisor. *)
Definition startup `{Host} (c : EngineConfig) : result (canonical * TelemetryStatus) startup_error :=
  _ ?<- map_err InvalidConfig (validate c);
  if bool_decide (runtime c = Onnx) then Err OnnxUnsupported
  else if child_port c <=? 1024 then Err StartChildPortLow
  else
    sink ?<- build_sink (gradatum_url c);
    bin ?<- map_err SupervisorRefused (supervisor_new c);
    Ok (bin, sink.2).

(** ** The check *)

Inductive failure :=
  FConfig (e : config_error) | FOnnx | FChildPortLow | FPortCollision
| FMetricsPort | FMetricsChildPort | FBinary (e : EngineError) | FBinaryAccess (e : access_problem)
| FArgs (e : EngineError) | FModel (field : string) (e : access_problem) | FUrl (e : url_problem).

Inductive note := NoApiKeyVisible | FalseRed (field : string).

Record CheckFindings := mkFindings { failures : list failure; notes : list note }.

Definition err_list {A E} (f : E → failure) (r : result A E) : list failure :=
  match r with Err e => [f e] | Ok _ => [] end.

(** A failed predicate of the caller where the service's succeeded. *)
Definition false_red_note (identity : CheckIdentity) (field : string) (caller_fails : bool) : list note :=
  match identity with
  | Service _ => if caller_fails then [FalseRed field] else []
  | CallingProcess => []
  end.

Definition model_files (c : EngineConfig) : list (string * ustr) :=
  ("model_path", model_path c)
  :: (match mmproj_path c with Some p => [("mmproj_path", p)] | None => [] end)
  ++ (match draft_model_path c with Some p => [("draft_model_path", p)] | None => [] end).

Definition check_binary `{Host} (c : EngineConfig) (identity : CheckIdentity) : CheckFindings :=
  match canonicalize_bin_path (llama_server_bin c) with
  | Err e => mkFindings [FBinary e] []
  | Ok p =>
      match can_exec identity p with
      | Err e => mkFindings [FBinaryAccess e] []
      | Ok _ => mkFindings [] (false_red_note identity "llama_server_bin" (negb (access_x p)))
      end
  end.

Definition check_model `{Host} (identity : CheckIdentity) (m : string * ustr) : CheckFindings :=
  match can_read identity m.2 with
  | Err e => mkFindings [FModel m.1 e] []
  | Ok _ => mkFindings [] (false_red_note identity m.1 (bool_decide (is_Some (check_readable m.2))))
  end.

Definition collect_check_failures `{Host} (c : EngineConfig) (identity : CheckIdentity) : CheckFindings :=
  let bin := check_binary c identity in
  let models := check_model identity <$> model_files c in
  mkFindings
    (err_list FConfig (validate c)
     ++ (if bool_decide (runtime c = Onnx) then [FOnnx] else [])
     ++ (if child_port c <=? 1024 then [FChildPortLow] else [])
     ++ (if child_port c =? port c then [FPortCollision] else [])
     ++ (if resolved_metrics_port c =? port c then [FMetricsPort] else [])
     ++ (if resolved_metrics_port c =? child_port c then [FMetricsChildPort] else [])
     ++ failures bin
     ++ err_list FArgs (validate_extra_args (extra_args c))
     ++ (FArgs <$> config_arg_conflicts c)
     ++ (models ≫= failures)
     ++ (match gradatum_url c with Some url => err_list FUrl (validate_loopback_url url) | None => [] end))
    ((if bool_decide (is_Some (gradatum_url c)) && bool_decide (env_api_key = None)
         && negb api_key_file_exists then [NoApiKeyVisible] else [])
     ++ notes bin ++ (models ≫= notes)).

(** [config_file_access_problem]: the file the engine reads first. *)
Definition config_file_access_problem `{Host} (config_path : ustr) (identity : CheckIdentity)
    : option access_problem :=
  match can_read identity config_path with
  | Err e => Some e
  | Ok _ => match identity with
            | Service _ => check_readable config_path
            | CallingProcess => None
            end
  end.

Inductive CheckOutcome :=
  ConfigUnusable (e : access_problem) | ConfigUnloadable | Evaluated (f : CheckFindings).

Section check.
Context `{Host} (load_local : ustr → option EngineConfig).

Definition evaluate_check (config_path : ustr) (identity : CheckIdentity) : CheckOutcome :=
  match config_file_access_problem config_path identity with
  | Some e => ConfigUnusable e
  | None => match load_local config_path with
            | None => ConfigUnloadable
            | Some c => Evaluated (collect_check_failures c identity)
            end
  end.

Definition EXIT_CHECK_OK : Z := 0.
Definition EXIT_CHECK_FAILED : Z := 1.

Definition run_check (config_path : ustr) : Z :=
  match evaluate_check config_path (identity_resolve config_path) with
  | Evaluated f => if bool_decide (failures f = []) then EXIT_CHECK_OK else EXIT_CHECK_FAILED
  | _ => EXIT_CHECK_FAILED
  end.
End check.

(** ** The check and the start *)

Lemma err_list_unit {E} (f : E → failure) (r : result () E) : err_list f r = [] ↔ r = Ok ().
Proof. destruct r as [[]|]; cbn; naive_solver. Qed.

Lemma fmap_empty_iff {A B} (f : A → B) (l : list A) : f <$> l = [] ↔ l = [].
Proof. by destruct l. Qed.

Lemma if_nil {A} (b : bool) (x : A) : (if b then [x] else []) = [] ↔ b = false.
Proof. by destruct b. Qed.

Lemma supervisor_new_Ok `{Host} c p :
  supervisor_new c = Ok p ↔
  canonicalize_bin_path (llama_server_bin c) = Ok p ∧ (child_port c <=? 1024) = false
  ∧ (child_port c =? port c) = false ∧ validate_extra_args (extra_args c) = Ok ()
  ∧ config_arg_conflicts c = [].
Proof.
  unfold supervisor_new. destruct (canonicalize_bin_path _) as [q|]; cbn; [|naive_solver].
  destruct (child_port c <=? 1024); [naive_solver|]. destruct (child_port c =? port c); [naive_solver|].
  destruct (validate_extra_args _) as [[]|]; cbn; [|naive_solver].
  destruct (config_arg_conflicts c); naive_solver.
Qed.

(** The sink can be built once a key is at hand: a refused exchange only folds it. *)
Lemma build_sink_Ok `{Host} url :
  is_Some read_api_key →
  (∃ r, build_sink url = Ok r) ↔ (∀ u, url = Some u → validate_loopback_url u = Ok ()).
Proof.
  intros [key Hkey]. unfold build_sink. destruct url as [u|]; [|naive_solver].
  destruct (validate_loopback_url u) as [[]|e] eqn:E.
  2: { split; [by intros [? ?]|]. intros Hu. by rewrite (Hu u) in E. }
  rewrite Hkey. destruct (exchange key u); naive_solver.
Qed.

Lemma startup_Ok `{Host} c p :
  is_Some read_api_key →
  (∃ t, startup c = Ok (p, t)) ↔
  validate c = Ok () ∧ runtime c ≠ Onnx ∧ (∀ u, gradatum_url c = Some u → validate_loopback_url u = Ok ())
  ∧ supervisor_new c = Ok p.
Proof.
  intros Hkey. rewrite <- (build_sink_Ok _ Hkey).
  unfold startup. destruct (validate c) as [[]|]; cbn; [|naive_solver].
  case_bool_decide; [naive_solver|]. destruct (child_port c <=? 1024) eqn:E.
  { rewrite supervisor_new_Ok, E. naive_solver. }
  destruct (build_sink _) as [sink|]; cbn; [|naive_solver].
  destruct (supervisor_new c) as [q|]; cbn; naive_solver.
Qed.

(** What the check asks beyond the start: what breaks the listeners or the child. *)
Definition servable `{Host} (c : EngineConfig) (identity : CheckIdentity) (p : canonical) : Prop :=
  (resolved_metrics_port c ≠ port c ∧ resolved_metrics_port c ≠ child_port c)
  ∧ can_exec identity p = Ok ()
  ∧ ∀ m, m ∈ model_files c → can_read identity m.2 = Ok ().

Lemma check_binary_nil `{Host} c identity :
  failures (check_binary c identity) = [] ↔
  ∃ p, canonicalize_bin_path (llama_server_bin c) = Ok p ∧ can_exec identity p = Ok ().
Proof.
  unfold check_binary. destruct (canonicalize_bin_path _) as [p|]; [|naive_solver].
  destruct (can_exec identity p) as [[]|] eqn:E; cbn; [naive_solver|].
  split; [done|]. intros (q & [= <-] & Hq). congruence.
Qed.

Lemma check_models_nil `{Host} identity ms :
  (check_model identity <$> ms) ≫= failures = [] ↔ ∀ m, m ∈ ms → can_read identity m.2 = Ok ().
Proof.
  induction ms as [|m ms IH]; cbn; [set_solver|]. rewrite app_nil, IH. unfold check_model.
  destruct (can_read identity m.2) as [[]|] eqn:E; cbn; [set_solver|].
  split; [by intros [? _]|]. intros Hm.
  rewrite (Hm m (list_elem_of_here _ _)) in E. done.
Qed.

Lemma check_url_nil `{Host} url :
  match url with Some u => err_list FUrl (validate_loopback_url u) | None => [] end = [] ↔
  ∀ u, url = Some u → validate_loopback_url u = Ok ().
Proof. destruct url as [u|]; [rewrite err_list_unit|]; naive_solver. Qed.

Lemma check_failures_nil `{Host} c identity :
  is_Some read_api_key →
  failures (collect_check_failures c identity) = [] ↔
  ∃ p t, startup c = Ok (p, t) ∧ servable c identity p.
Proof.
  intros Hkey. transitivity (∃ p, (∃ t, startup c = Ok (p, t)) ∧ servable c identity p); [|naive_solver].
  setoid_rewrite (startup_Ok c _ Hkey). setoid_rewrite supervisor_new_Ok.
  unfold collect_check_failures, servable. cbn [failures].
  rewrite !app_nil, !err_list_unit, !if_nil, check_binary_nil, check_models_nil, check_url_nil.
  rewrite fmap_empty_iff, bool_decide_eq_false, !(N.eqb_neq (resolved_metrics_port c)). naive_solver.
Qed.

(** C19: the check predicts the start.  Given that the unit provides an API key, [--check]
    answers that a configuration can be served exactly when the account of the service (and,
    to judge at all, the caller) can read the file, the file loads, every guard of the start
    passes, the metrics port is another one than the other two, the account can execute the
    binary and it can read every model file.  No other condition, and none of them too many:
    whether the ports can be bound is neither tested nor part of the start that is predicted,
    and without an API key the check may pass where the start fails. *)
Theorem check_predicts_startup `{Host} load_local config_path
    (key : is_Some read_api_key) :
  run_check load_local config_path = EXIT_CHECK_OK ↔
  let identity := identity_resolve config_path in
  config_file_access_problem config_path identity = None
  ∧ ∃ c p t, load_local config_path = Some c ∧ startup c = Ok (p, t) ∧ servable c identity p.
Proof.
  unfold run_check, evaluate_check. cbn zeta.
  destruct (config_file_access_problem _ _) as [e|]; [split; [done|by intros [? _]]|].
  destruct (load_local config_path) as [c|]; [|naive_solver].
  case_bool_decide as E; rewrite (check_failures_nil _ _ key) in E; [naive_solver|].
  split; [done|]. intros (_ & c' & p & t & [= <-] & Hs). destruct E. eauto.
Qed.

(** The verdict on a service does not depend on what the caller may open or execute. *)
Definition same_for_service (h1 h2 : Host) : Prop :=
  @host_files h1 = @host_files h2 ∧ @metadata h1 = @metadata h2
  ∧ @url_parse h1 = @url_parse h2 ∧ @to_socket_addrs h1 = @to_socket_addrs h2.

Lemma canonical_access_same (h1 h2 : Host) p uid gids want :
  @metadata h1 = @metadata h2 →
  @canonical_access h1 p uid gids want = @canonical_access h2 p uid gids want.
Proof.
  intros E. unfold canonical_access. rewrite E. f_equal.
  induction (dirs_above p) as [|d ds IH]; cbn; [done|]. by rewrite E, IH.
Qed.

Lemma can_read_service (h1 h2 : Host) s path :
  @host_files h1 = @host_files h2 → @metadata h1 = @metadata h2 →
  @can_read h1 (Service s) path = @can_read h2 (Service s) path.
Proof.
  intros E1 E2. cbn. unfold identity_access. rewrite E1.
  destruct (canonicalize path) as [p|]; [|done]. by apply canonical_access_same.
Qed.

Lemma check_ignores_caller (h1 h2 : Host) c s :
  same_for_service h1 h2 →
  failures (@collect_check_failures h1 c (Service s)) = failures (@collect_check_failures h2 c (Service s)).
Proof.
  intros (E1 & E2 & E3 & E4). unfold collect_check_failures. cbn [failures].
  assert (∀ u, @validate_loopback_url h1 u = @validate_loopback_url h2 u) as Hu.
  { intros u. unfold validate_loopback_url. by rewrite E3, E4. }
  assert (failures (@check_binary h1 c (Service s)) = failures (@check_binary h2 c (Service s))) as Hb.
  { unfold check_binary. rewrite E1. destruct (canonicalize_bin_path _) as [p|]; [|done].
    cbn [can_exec]. rewrite (canonical_access_same h1 h2) by done. by destruct (canonical_access _ _ _ _). }
  assert (∀ m, failures (@check_model h1 (Service s) m) = failures (@check_model h2 (Service s) m)) as Hm.
  { intros m. unfold check_model. rewrite (can_read_service h1 h2) by done. by destruct (can_read _ _). }
  assert (∀ ms, (@check_model h1 (Service s) <$> ms) ≫= failures
                = (@check_model h2 (Service s) <$> ms) ≫= failures) as Hms.
  { induction ms as [|m ms IH]; cbn; [done|]. by rewrite Hm, IH. }
  rewrite E1, Hb, Hms. destruct (gradatum_url c); by rewrite ?Hu.
Qed.
