(* ===== verification/EngineServer.v ===== *)
(** * EngineServer: requests through the engine and the events they leave

    [crates/gradatum-engine/src/server.rs] ([proxy_request]), [runtime.rs] (the forwarding
    proxy), [sink.rs] (the sink of events with its token) and [health.rs] (the published
    snapshot).  What the child and the server of events answer to a call are arguments. *)

From S2P Require Import Prelude Text EngineConfig EngineSupervisor EngineCheck.

#[local] Open Scope N_scope.

(** ** The sink of events *)

Record RequestServed := mkServed {
  rs_route : ustr; rs_model : ustr; rs_provider : ustr; rs_status : N; rs_latency_ms : N }.

(** [QaEventDto], without the instant of its creation. *)
Record QaEvent := mkQaEvent {
  q_route : ustr; q_model_alias : ustr; q_provider : ustr; q_status_code : N; q_latency_ms : N;
  q_feature_id : ustr; q_agent_id : option ustr }.

Definition str_ends_with (p s : ustr) : bool := str_starts_with (reverse p) (reverse s).

Definition derive_feature_id (route : ustr) : ustr :=
  if str_ends_with (lit "/embeddings") route || bool_decide (route = lit "embeddings")
  then lit "embed" else lit "chat".

(** A failed post is counted under its status, or as a failure of the transport. *)
Inductive post_error := PostStatus (status : N) | PostTransport.

(** The token of the sink, what was posted with which token (the newest first), the counted
    errors. *)
Record sink := mkSink { jwt : ustr; posted : list (ustr * QaEvent); event_errors : list post_error }.

(** The answers to the post, to the exchange and to the second post; a status or a failure
    of the transport. *)
Record post_answers := mkPost {
  first_post : option N; refreshed : result ustr ExchangeError; second_post : option N }.

Definition is_success (status : N) : bool := (200 <=? status) && (status <=? 299).

Definition sent (token : ustr) (e : QaEvent) (s : sink) : sink :=
  mkSink (jwt s) ((token, e) :: posted s) (event_errors s).
Definition counted (e : post_error) (s : sink) : sink :=
  mkSink (jwt s) (posted s) (e :: event_errors s).
Definition with_jwt (token : ustr) (s : sink) : sink := mkSink token (posted s) (event_errors s).

Definition event_of (agent_id : option ustr) (e : RequestServed) : QaEvent :=
  mkQaEvent (rs_route e) (rs_model e) (rs_provider e) (rs_status e) (rs_latency_ms e)
    (derive_feature_id (rs_route e)) agent_id.

(** [HttpEventSink::emit] of a served request. *)
Definition emit (agent_id : option ustr) (e : RequestServed) (a : post_answers) (s : sink) : sink :=
  let dto := event_of agent_id e in
  let s := sent (jwt s) dto s in
  match first_post a with
  | Some status =>
      if is_success status then s
      else if status =? 401 then
        let s := counted (PostStatus status) s in
        match refreshed a with
        | Err _ => s
        | Ok fresh =>
            let s := sent fresh dto (with_jwt fresh s) in
            match second_post a with
            | Some status => if is_success status then s else counted (PostStatus status) s
            | None => counted PostTransport s
            end
        end
      else counted (PostStatus status) s
  | None => counted PostTransport s
  end.

(** ** Requests *)

(** What the child answers: a response with status, content type and body, or an error. *)
Record upstream := mkUpstream { u_status : N; u_content_type : option ustr; u_body : ustr }.
Inductive child_answer := TimedOut | Unreachable (message : ustr) | Answered (r : upstream).

Record app := mkApp {
  app_sink : option sink;            (** [None]: the inert sink *)
  app_requests : list (ustr * N)     (** the metrics: route and status, the newest first *)
}.

Record identity := mkIdentity { model_name : ustr; provider_name : ustr; engine_agent : option ustr }.

Definition APPLICATION_JSON : ustr := lit "application/json".

(** What the child is sent: the route, the content type and the body of the client. *)
Definition forwarded (subpath : ustr) (content_type : option ustr) (body : ustr) : ustr * ustr * ustr :=
  (subpath, default APPLICATION_JSON content_type, body).

Definition record_request (route : ustr) (status : N) (s : app) : app :=
  mkApp (app_sink s) ((route, status) :: app_requests s).

Definition emit_served (who : identity) (subpath : ustr) (status latency : N) (posts : post_answers) (s : app)
    : app :=
  mkApp (emit (engine_agent who)
           (mkServed subpath (model_name who) (provider_name who) status latency) posts <$> app_sink s)
    (app_requests s).

(** A status code the HTTP library accepts. *)
Definition status_valid (status : N) : bool := (100 <=? status) && (status <=? 999).

(** [proxy_request]: the status, content type and body of the client's answer, an error
    being its status and message. *)
Definition proxy_request (who : identity) (subpath : ustr) (latency : N) (answer : child_answer)
    (posts : post_answers) (s : app) : (N * ustr * ustr + N * ustr) * app :=
  match answer with
  | TimedOut => (inr (504, lit "timeout"), record_request subpath 504 s)
  | Unreachable message => (inr (500, message), record_request subpath 500 s)
  | Answered r =>
      let status := u_status r in
      let s := record_request subpath status s in
      let s := if status <? 500 then emit_served who subpath status latency posts s else s in
      (inl (if status_valid status then status else 502, default APPLICATION_JSON (u_content_type r),
            u_body r), s)
  end.

(** ** Health *)

Definition telemetry_label (t : TelemetryStatus) : string :=
  match t with
  | Active => "active"
  | NotConfigured => "not_configured"
  | EngineCheck.Unreachable => "folded_unreachable"
  | Unauthorized => "folded_unauthorized"
  | Failed => "folded_error"
  end.

(** Status and warm-up state of [HealthState::snapshot]. *)
Definition snapshot (h : HealthStatus) (t : TelemetryStatus) : string * string * string :=
  let '(status, warm_up) := match h with
                            | Ready => ("ok", "ready")
                            | Unhealthy => ("unhealthy", "unhealthy")
                            | Starting => ("starting", "loading")
                            end in
  (status, warm_up, telemetry_label t).

(** ** Properties *)

(** The outcome of an event: delivered, or counted. *)
Definition delivered (a : post_answers) : bool :=
  match first_post a with
  | Some status =>
      is_success status
      || (status =? 401) && match refreshed a, second_post a with
                            | Ok _, Some status' => is_success status'
                            | _, _ => false
                            end
  | None => false
  end.

(** The tokens posted with and the errors counted, in a case of [emit_spec]. *)
Ltac posted_as ts es :=
  exists ts, es; split_and!; cbn; first [done|lia|by left|by right].

Lemma emit_spec agent e a s :
  ∃ tokens errors,
    posted (emit agent e a s) = ((λ t, (t, event_of agent e)) <$> tokens) ++ posted s
    ∧ event_errors (emit agent e a s) = errors ++ event_errors s
    ∧ (1 ≤ length tokens ≤ 2)%nat
    ∧ length tokens = (length errors + (if delivered a then 1 else 0))%nat
    ∧ head (reverse tokens) = Some (jwt s)
    ∧ (jwt (emit agent e a s) = jwt s ∨ head tokens = Some (jwt (emit agent e a s))).
Proof.
  unfold emit, delivered. cbn zeta.
  destruct (first_post a) as [st|]; cbn; [|posted_as [jwt s] [PostTransport]].
  destruct (is_success st); cbn; [posted_as [jwt s] (@nil post_error)|].
  destruct (st =? 401); cbn; [|posted_as [jwt s] [PostStatus st]].
  destruct (refreshed a) as [fresh|]; cbn; [|posted_as [jwt s] [PostStatus st]].
  destruct (second_post a) as [st'|]; cbn.
  - destruct (is_success st') eqn:E; cbn.
    + posted_as [fresh; jwt s] [PostStatus st].
    + posted_as [fresh; jwt s] [PostStatus st'; PostStatus st].
  - posted_as [fresh; jwt s] [PostTransport; PostStatus st].
Qed.

(** The engine is transparent, and its events are honest.  An answer of the child reaches
    the client with its status, its content type and its body as they are, and is counted
    once under its status.  It leaves an event exactly when its status is below 500, with
    that status and the name of the engine; the event is posted once, or a second time with a
    fresh token after the server refused the first as unauthorised, and every post that did
    not deliver it is counted. *)
Theorem proxied_request who subpath latency r posts s sk
    (status_ok : status_valid (u_status r) = true) (live : app_sink s = Some sk) :
  let '(answer, s') := proxy_request who subpath latency (Answered r) posts s in
  answer = inl (u_status r, default APPLICATION_JSON (u_content_type r), u_body r)
  ∧ app_requests s' = (subpath, u_status r) :: app_requests s
  ∧ (500 ≤ u_status r → app_sink s' = Some sk)
  ∧ (u_status r < 500 →
     ∃ sk' event tokens errors,
       app_sink s' = Some sk' ∧ q_status_code event = u_status r ∧ q_route event = subpath
       ∧ q_agent_id event = engine_agent who
       ∧ posted sk' = ((λ t, (t, event)) <$> tokens) ++ posted sk
       ∧ event_errors sk' = errors ++ event_errors sk
       ∧ (1 ≤ length tokens ≤ 2)%nat
       ∧ length tokens = (length errors + (if delivered posts then 1 else 0))%nat
       ∧ head (reverse tokens) = Some (jwt sk)
       ∧ (jwt sk' = jwt sk ∨ head tokens = Some (jwt sk'))).
Proof.
  cbn. rewrite status_ok. split_and!; [done|by destruct (_ <? _)| |].
  - intros H. destruct (N.ltb_spec (u_status r) 500); [lia|done].
  - intros H. destruct (N.ltb_spec (u_status r) 500); [|lia]. unfold emit_served. cbn. rewrite live. cbn.
    destruct (emit_spec (engine_agent who)
                (mkServed subpath (model_name who) (provider_name who) (u_status r) latency) posts sk)
      as (tokens & errors & Hspec).
    eexists _, _, tokens, errors. split; [done|]. by split_and!; try apply Hspec.
Qed.
