(* ===== verification/EngineWitness.v ===== *)
(** * EngineWitness: an engine on a concrete host

    The configuration of the tests of the source, a host that serves it, runs of the
    supervisor, and the theorems of the engine at work on them. *)

From S2P Require Import Prelude Text EngineConfig EngineSupervisor EngineSafety EngineCheck EngineServer.

#[local] Open Scope Z_scope.

Module EngineExamples.

Definition sample_config : EngineConfig :=
  mkEngineConfig (lit "/opt/gradatum/models/test.gguf") Chat LlamaServer 0 4 4096 11435 None (Some 9100%N) 30 (Some 256%N)
    (Some (lit "http://127.0.0.1:19090")) (Some (lit "engine-curator"))
    (lit "/usr/local/bin/llama-server") 11436 2 [lit "--flash-attn"; lit "--seed=7"] None None None
    None None 60 3 30 33554432.

(** Every path is canonical as it is written. *)
Definition components (path : ustr) : canonical := Utf8 <$> filter (λ c, c ≠ []) (split_on 47%N path).

Definition unit_text : ustr :=
  lit "Id=other.service" ++ [NL] ++ lit "ExecStart={ path=/x ; argv[]=/x /etc/x.toml ; }" ++ [NL; NL]
  ++ lit "Id=gradatum-engine@curator.service" ++ [NL] ++ lit "User=gradatum" ++ [NL] ++ lit "Group=" ++ [NL]
  ++ lit "SupplementaryGroups=kvm render" ++ [NL]
  ++ lit "ExecStart={ path=/opt/e ; argv[]=/opt/e /etc/gradatum/70.toml ; ignore_errors=no }" ++ [NL].

#[local] Instance sample_host : Host := {|
  host_files := {| canonicalize := λ p, Ok (components p) |};
  metadata := λ p, Ok (mkMetadata 493 0 0);
  open_file := λ _, Ok ();
  access_x := λ _, true;
  systemctl_show := Some unit_text;
  user_by_name := λ u, Some (if bool_decide (u = lit "gradatum") then Some (990, 991)%N else None);
  group_by_name := λ g, Some (if bool_decide (g = lit "kvm") then Some 78%N else None);
  getgrouplist := λ _ g, Some [g; 1000%N];
  env_api_key := None;
  api_key_file := Some (lit "key" ++ [NL]);
  api_key_file_exists := true;
  url_parse := λ u, Some (Some (lit "127.0.0.1"), Some 19090%N);
  to_socket_addrs := λ _ _, None;
  exchange := λ _ _, Err ExUnauthorized |}.

Example service_of_the_unit :
  identity_resolve (lit "/etc/gradatum/70.toml")
  = Service (mkService (lit "gradatum-engine@curator.service") (lit "gradatum") 990 [78; 991; 1000]%N).
Proof. vm_compute. reflexivity. Qed.

Definition sample_bin : canonical := [Utf8 (lit "usr"); Utf8 (lit "local"); Utf8 (lit "bin"); Utf8 (lit "llama-server")].

Lemma child_confined_witness :
  supervisor_new sample_config = Ok sample_bin ∧ is_binary_allowed sample_bin = true.
Proof.
  split; [vm_compute; reflexivity|].
  apply (child_confined sample_config sample_bin). vm_compute. reflexivity.
Defined.

(** A server that refuses the key does not keep the engine from starting. *)
Lemma check_predicts_witness :
  run_check (λ _, Some sample_config) (lit "/etc/gradatum/70.toml") = EXIT_CHECK_OK
  ∧ ∃ p t, startup sample_config = Ok (p, t).
Proof.
  split; [vm_compute; reflexivity|].
  destruct (check_predicts_startup (λ _, Some sample_config) (lit "/etc/gradatum/70.toml")) as [H _].
  - vm_compute. by eexists.
  - destruct H as (_ & c & p & t & [= <-] & Hs & _); [vm_compute; reflexivity|]. by exists p, t.
Defined.

(** ** Runs of the supervisor *)

(** The answers of a quiet system; of one whose child becomes healthy; of one that cannot
    start a process. *)
Definition quiet : answer := mkAnswer false true false false.
Definition healthy : answer := mkAnswer false true false true.
Definition no_spawn : answer := mkAnswer false false false false.

(** A turn in which the child is found dead and the new process cannot be started, after a
    backoff of [ms]. *)
Definition failed_turn (ms : N) : list event :=
  [SupStep quiet; SupStep quiet; SupStep quiet; SupStep quiet; Tick ms; SupStep quiet; SupStep no_spawn].

(** The last turn finds the budget empty. *)
Definition last_turn : list event := [SupStep quiet; SupStep quiet; SupStep quiet; SupStep quiet].

Definition crash_loop : list event :=
  failed_turn 500 ++ failed_turn 1000 ++ failed_turn 2000 ++ last_turn.

Lemma restart_schedule_witness :
  ∃ s, exec sample_config crash_loop (supervise_start sample_config StartupTimeout Zombie 0) = Some s
       ∧ pc (sup s) = Ended Escalated ∧ health (shr s) = Unhealthy
       ∧ backoffs_since_reset (log s) = [500; 1000; 2000].
Proof.
  destruct (exec sample_config crash_loop (supervise_start sample_config StartupTimeout Zombie 0))
    as [s|] eqn:E; [|by vm_compute in E].
  pose proof (restart_schedule_exact sample_config crash_loop StartupTimeout Zombie 0 s E) as (_ & _ & H).
  exists s. vm_compute in E. injection E as <-. split_and!; [done|done| |done]. apply H. done.
Defined.

(** A healthy child that crashes after a minute and is started again. *)
Definition one_restart : list event :=
  [SupStep quiet; SupStep quiet; Tick 60000; ChildDies; SupStep quiet; SupStep quiet; Tick 500;
   SupStep quiet].

Lemma one_child_witness :
  ∃ s, exec sample_config one_restart (supervise_start sample_config ChildReady Alive 0) = Some s
       ∧ pc (sup s) = Spawning ∧ no_live_child s.
Proof.
  destruct (exec sample_config one_restart (supervise_start sample_config ChildReady Alive 0))
    as [s|] eqn:E; [|by vm_compute in E].
  pose proof (one_child_at_a_time sample_config one_restart ChildReady Alive 0 s E) as H.
  exists s. vm_compute in E. injection E as <-. split_and!; [done|done|].
  destruct H as [H|(before & a & after & s1 & Hes & H1 & H2 & H3 & H4)]; [by left|exact H|].
  exfalso. assert (Hin : SupStep a ∈ one_restart) by (rewrite Hes; set_solver).
  revert Hin H4. unfold one_restart, quiet. rewrite !elem_of_cons, elem_of_nil. intros Hin H4.
  repeat (destruct Hin as [Hin|Hin]; [simplify_eq/=|]); done.
Defined.

(** The exception: the loop takes a failed [wait] for the end of the child, and loads a
    second model while the first one still runs. *)
Definition failing_wait : answer := mkAnswer true true false false.
Example failed_wait_starts_a_second_child :
  ∃ s, exec sample_config
         [SupStep quiet; SupStep quiet; SupStep failing_wait; SupStep quiet; Tick 500; SupStep quiet; SupStep failing_wait]
         (supervise_start sample_config ChildReady Alive 0) = Some s
       ∧ head (log s) = Some Spawn ∧ child (shr s) = Some Alive.
Proof. eexists. split; [reflexivity|done]. Qed.

(** The loop in [child.wait()], the child running. *)
Definition waiting_state : sys :=
  mkSys (mkShared (Some Alive) (Some Supervisor) false Ready)
    (mkLocals Waiting 3 500 (Some 0)) Idle 1000 [].

Lemma live_child_witness :
  exec sample_config [SupStep quiet] waiting_state = None
  ∧ ∃ s, exec sample_config [CallShutdown; Tick 3600000] waiting_state = Some s
         ∧ shut s ≠ Returned ∧ log s = [].
Proof.
  split; [reflexivity|].
  eexists. split; [reflexivity|].
  eapply (live_child_blocks_shutdown sample_config [CallShutdown; Tick 3600000] waiting_state).
  - split_and!; auto.
  - by repeat constructor.
  - reflexivity.
Defined.

(** The state is reached by every healthy start. *)
Example waiting_is_reached :
  exec sample_config [SupStep quiet; SupStep quiet; Tick 1000]
    (supervise_start sample_config ChildReady Alive 0) = Some waiting_state.
Proof. reflexivity. Qed.

(** Ten minutes after the child was ready it has died and no restart works: the budget of
    three restarts is never used up. *)
Definition after_stable : sys :=
  mkSys (mkShared (Some Zombie) None false Ready) (mkLocals Top 3 500 (Some 0)) Idle 600000 [].
Definition six_failures : list event :=
  failed_turn 500 ++ failed_turn 500 ++ failed_turn 500 ++ failed_turn 500 ++ failed_turn 500 ++ failed_turn 500.

Lemma stale_readiness_witness :
  ∃ s, exec sample_config six_failures after_stable = Some s
       ∧ pc (sup s) ≠ Ended Escalated ∧ restart_budget (sup s) = 2
       ∧ length (filter (λ a, a = SpawnFailed) (log s)) = 6%nat.
Proof.
  assert (∃ s, exec sample_config six_failures after_stable = Some s
               ∧ restart_budget (sup s) = 2 ∧ length (filter (λ a, a = SpawnFailed) (log s)) = 6%nat)
    as (s & E & Hb & Hl); [eexists; vm_compute; split_and!; reflexivity|].
  exists s. split; [exact E|]. split; [|by split].
  apply (stale_readiness_never_escalates sample_config six_failures after_stable s 0).
  - vm_compute. discriminate.
  - reflexivity.
  - vm_compute. discriminate.
  - reflexivity.
  - unfold six_failures, failed_turn. repeat (constructor; [exact I || reflexivity|]). constructor.
  - exact E.
Defined.

(** While the child is dead and the supervisor sleeps, the engine is published as ready. *)
Example ready_while_dead :
  ∃ s, exec sample_config [SupStep quiet; SupStep quiet; ChildDies; SupStep quiet; SupStep quiet]
         (supervise_start sample_config ChildReady Alive 0) = Some s
       ∧ pc (sup s) = Sleeping 500 ∧ child (shr s) = Some Reaped ∧ health (shr s) = Ready.
Proof. eexists. vm_compute. split_and!; reflexivity. Qed.

(** A shutdown that comes between the last reading of the flag and the start of the process
    returns, and the process runs on. *)
Example shutdown_misses_new_child :
  ∃ s, exec sample_config (one_restart ++ [CallShutdown; ShutStep false; ShutStep false; SupStep quiet;
                                           SupStep quiet; SupStep quiet; SupStep healthy; SupStep quiet])
         (supervise_start sample_config ChildReady Alive 0) = Some s
       ∧ shut s = Returned ∧ pc (sup s) = Ended SawShutdown ∧ child (shr s) = Some Alive.
Proof. eexists. vm_compute. split_and!; reflexivity. Qed.

(** ** A request *)

Definition sample_identity : identity :=
  mkIdentity (lit "qwen3-4b") (lit "engine-curator") (Some (lit "engine-curator")).
Definition sample_app : app := mkApp (Some (mkSink (lit "old") [] [])) [].
Definition sample_answer : upstream := mkUpstream 200 None (lit "{}").

(** The token has expired: the event is posted a second time with a fresh one. *)
Lemma proxied_request_witness :
  ∃ s', (proxy_request sample_identity (lit "/v1/embeddings") 12 (Answered sample_answer)
           (mkPost (Some 401%N) (Ok (lit "new")) (Some 200%N)) sample_app).2 = s'
        ∧ ∃ sk, app_sink s' = Some sk ∧ jwt sk = lit "new" ∧ length (posted sk) = 2%nat
        ∧ app_requests s' = [(lit "/v1/embeddings", 200%N)].
Proof.
  pose proof (proxied_request sample_identity (lit "/v1/embeddings") 12 sample_answer
                (mkPost (Some 401%N) (Ok (lit "new")) (Some 200%N)) sample_app
                (mkSink (lit "old") [] []) eq_refl eq_refl) as H.
  destruct (proxy_request _ _ _ _ _ _) as [answer s'] eqn:E. destruct H as (_ & H & _).
  exists s'. split; [done|]. cbn in E. injection E as <- <-. eexists. split_and!; done.
Defined.

End EngineExamples.
