(* ===== verification/Float.v ===== *)
(** * Float: the IEEE-754 arithmetic of scores, and the stable sort on them

    Search scores are [f64] and similarity vectors [f32].  Both are [spec_float]s of the
    Standard Library's specification of IEEE-754, in the formats (53, 1024) and (24, 128),
    so that every addition, product and quotient below rounds as the hardware does.  The
    functions of the C mathematics library ([exp], [powf]) are a class.

    [sort_by] is the stable sort of slices; it is specified by the lemmas at the end for
    the comparisons that are total preorders, which [partial_cmp] is on the scores that
    are numbers. *)

From S2P Require Import Prelude.
From Stdlib Require Import SpecFloat.

#[local] Open Scope Z_scope.

Abbreviation f64 := spec_float.
Abbreviation f32 := spec_float.

(** ** Arithmetic *)

Definition f64_add : f64 → f64 → f64 := SFadd 53 1024.
Definition f64_mul : f64 → f64 → f64 := SFmul 53 1024.
Definition f64_div : f64 → f64 → f64 := SFdiv 53 1024.
Definition f64_neg : f64 → f64 := SFopp.
Definition f64_abs : f64 → f64 := SFabs.
Definition f32_add : f32 → f32 → f32 := SFadd 24 128.
Definition f32_sub : f32 → f32 → f32 := SFsub 24 128.
Definition f32_mul : f32 → f32 → f32 := SFmul 24 128.
Definition f32_div : f32 → f32 → f32 := SFdiv 24 128.
Definition f32_sqrt : f32 → f32 := SFsqrt 24 128.

(** [z as f64], [z as f32]. *)
Definition f64_of_Z (z : Z) : f64 := binary_normalize 53 1024 z 0 false.
Definition f32_of_Z (z : Z) : f32 := binary_normalize 24 128 z 0 false.
(** A decimal literal [n / d]: the double nearest to the quotient. *)
Definition f64_lit (n d : Z) : f64 := f64_div (f64_of_Z n) (f64_of_Z d).

(** [x as f64] of a single is exact, [x as f32] of a double rounds. *)
Definition f64_of_f32 (x : f32) : f64 :=
  match x with S754_finite s m e => binary_round 53 1024 s m e | _ => x end.
Definition f32_of_f64 (x : f64) : f32 :=
  match x with S754_finite s m e => binary_round 24 128 s m e | _ => x end.

(** [f32::from_le_bytes]. *)
Definition f32_from_bits (s : Z) : f32 :=
  let sign := Z.testbit s 31 in
  let exponent := Z.land (Z.shiftr s 23) 255 in
  let fraction := Z.land s (2 ^ 23 - 1) in
  if exponent =? 255 then if fraction =? 0 then S754_infinity sign else S754_nan
  else if exponent =? 0 then
    match fraction with Zpos m => S754_finite sign m (-149) | _ => S754_zero sign end
  else match fraction + 2 ^ 23 with
       | Zpos m => S754_finite sign m (exponent - 150)
       | _ => S754_zero sign
       end.
Definition f32_from_le_bytes (b0 b1 b2 b3 : Z) : f32 :=
  f32_from_bits (b0 + 256 * b1 + 65536 * b2 + 16777216 * b3).

Definition f64_zero : f64 := S754_zero false.
Definition f64_one : f64 := f64_of_Z 1.
Definition f64_half : f64 := f64_lit 1 2.

(** [x < y], [x <= y], [x == y]: false when one of them is not a number. *)
Definition f64_ltb : f64 → f64 → bool := SFltb.
Definition f64_leb : f64 → f64 → bool := SFleb.
Definition f64_eqb : f64 → f64 → bool := SFeqb.

(** [x.clamp(0.0, 1.0)]. *)
Definition f64_clamp01 (x : f64) : f64 :=
  if f64_ltb x f64_zero then f64_zero else if f64_ltb f64_one x then f64_one else x.
(** [x.max(0.0)]: the other operand when one is not a number. *)
Definition f64_max0 (x : f64) : f64 :=
  match x with
  | S754_nan => f64_zero
  | _ => if f64_ltb x f64_zero then f64_zero else x
  end.

(** [a.max(b)], [a.min(b)]. *)
Definition f64_max (a b : f64) : f64 :=
  match a, b with
  | S754_nan, _ => b
  | _, S754_nan => a
  | _, _ => if f64_ltb a b then b else a
  end.
Definition f64_min (a b : f64) : f64 :=
  match a, b with
  | S754_nan, _ => b
  | _, S754_nan => a
  | _, _ => if f64_ltb b a then b else a
  end.

(** The quotient [m * 2^e], rounded down, and its rounding to the nearest integer, halves
    up. *)
Definition dyadic_floor (m : positive) (e : Z) : Z :=
  if 0 <=? e then Zpos m * 2 ^ e else Zpos m / 2 ^ (- e).
Definition dyadic_round (m : positive) (e : Z) : Z :=
  if 0 <=? e then Zpos m * 2 ^ e else (Zpos m + 2 ^ (- e - 1)) / 2 ^ (- e).

(** [x as u32] and [x.round() as u32]: a cast saturates, and maps what is not a number to
    zero. *)
Definition u32_of_f64 (to_int : positive → Z → Z) (x : f64) : Z :=
  match x with
  | S754_finite false m e => Z.min (to_int m e) (u32_modulus - 1)
  | S754_infinity false => u32_modulus - 1
  | _ => 0
  end.
Definition f64_as_u32 : f64 → Z := u32_of_f64 dyadic_floor.
Definition f64_round_as_u32 : f64 → Z := u32_of_f64 dyadic_round.

(** The functions of the mathematics library. *)
Class Libm := {
  exp : f64 → f64;
  powf : f64 → f64 → f64;
  powf32 : f32 → f32 → f32;
}.

(** ** Comparing *)

(** [a.partial_cmp(&b).unwrap_or(Equal)]. *)
Definition cmp_f64 (a b : f64) : comparison := default Eq (SFcompare a b).

Definition is_num (x : spec_float) : bool := match x with S754_nan => false | _ => true end.

(** The place of a number: its sign class, then its exponent, then its mantissa. *)
Definition place (x : spec_float) : Z * Z * Z :=
  match x with
  | S754_infinity true => (-2, 0, 0)
  | S754_finite true m e => (-1, - e, Zneg m)
  | S754_zero _ | S754_nan => (0, 0, 0)
  | S754_finite false m e => (1, e, Zpos m)
  | S754_infinity false => (2, 0, 0)
  end.
Definition place_lt (p q : Z * Z * Z) : Prop :=
  p.1.1 < q.1.1 ∨ p.1.1 = q.1.1 ∧ (p.1.2 < q.1.2 ∨ p.1.2 = q.1.2 ∧ p.2 < q.2).

Lemma cmp_f64_place a b :
  is_num a = true → is_num b = true →
  match cmp_f64 a b with
  | Lt => place_lt (place a) (place b)
  | Eq => place a = place b
  | Gt => place_lt (place b) (place a)
  end.
Proof.
  unfold cmp_f64, place_lt.
  destruct a as [sa|sa| |sa ma ea], b as [sb|sb| |sb mb eb]; try done;
    try destruct sa; try destruct sb; intros _ _; cbn; try (lia || done).
  all: destruct (Z.compare_spec ea eb); cbn; try (subst; lia).
  all: change (Pos.compare_cont Eq ma mb) with (Pos.compare ma mb);
    destruct (Pos.compare_spec ma mb); subst; cbn; (done || lia).
Qed.

(** No two numbers compare in both directions, and the comparison is transitive. *)
Definition f64_le (a b : f64) : Prop := cmp_f64 a b ≠ Gt.
#[export] Instance f64_le_dec : RelDecision f64_le.
Proof. intros a b. unfold f64_le. apply _. Defined.

Lemma place_lt_trans p q r : place_lt p q → place_lt q r → place_lt p r.
Proof. unfold place_lt. lia. Qed.

Lemma f64_le_place a b :
  is_num a = true → is_num b = true → f64_le a b ↔ place_lt (place a) (place b) ∨ place a = place b.
Proof.
  intros Ha Hb. pose proof (cmp_f64_place a b Ha Hb) as H. unfold f64_le, place_lt in *.
  destruct (place a) as [[]], (place b) as [[]]. cbn in *.
  destruct (cmp_f64 a b); (split; [naive_solver|]); intros [?|[= ]] E; (done || lia).
Qed.

Lemma f64_le_total a b : is_num a = true → is_num b = true → f64_le a b ∨ f64_le b a.
Proof.
  intros Ha Hb. rewrite !f64_le_place by done. unfold place_lt.
  destruct (place a) as [[x y] z], (place b) as [[x' y'] z']. cbn.
  destruct (decide (x = x')), (decide (y = y')), (decide (z = z')); subst; lia || naive_solver lia.
Qed.

Lemma f64_le_trans a b c :
  is_num a = true → is_num b = true → is_num c = true → f64_le a b → f64_le b c → f64_le a c.
Proof.
  intros Ha Hb Hc. rewrite !f64_le_place by done. unfold place_lt.
  destruct (place a) as [[x y] z], (place b) as [[x' y'] z'], (place c) as [[x'' y''] z'']. cbn.
  intros [H1|[= -> -> ->]] [H2|[= -> -> ->]]; [left; lia|tauto|tauto|tauto].
Qed.

Lemma cmp_f64_Gt a b : is_num a = true → is_num b = true → cmp_f64 a b = Gt → f64_le b a.
Proof.
  intros Ha Hb E. pose proof (cmp_f64_place a b Ha Hb) as H. rewrite E in H.
  apply f64_le_place; [done|done|by left].
Qed.

(** ** Numbers come out of numbers *)

Lemma shr_1_nonneg mrs : 0 ≤ shr_m mrs → 0 ≤ shr_m (shr_1 mrs).
Proof. destruct mrs as [m r s]. cbn. destruct m as [|[]|[]]; cbn; lia. Qed.

Lemma iter_shr_nonneg p mrs : 0 ≤ shr_m mrs → 0 ≤ shr_m (iter_pos shr_1 p mrs).
Proof. revert mrs. induction p; intros mrs H; cbn; auto using shr_1_nonneg. Qed.

Lemma shr_fexp_nonneg prec emax m e l : 0 ≤ m → 0 ≤ shr_m (shr_fexp prec emax m e l).1.
Proof.
  intros H. unfold shr_fexp, shr.
  assert (0 ≤ shr_m (shr_record_of_loc m l)) by (destruct l as [|[]]; done).
  destruct (_ - e); cbn; auto using iter_shr_nonneg.
Qed.

Lemma round_even_nonneg m l : 0 ≤ m → 0 ≤ round_nearest_even m l.
Proof. intros H. unfold round_nearest_even. destruct l as [|[]]; [lia| |lia|lia]. destruct (Z.even m); lia. Qed.

(** A rounded magnitude is a number with the sign it was given. *)
Lemma binary_round_aux_num prec emax s m e l :
  0 ≤ m → let x := binary_round_aux prec emax s m e l in
          x = S754_zero s ∨ x = S754_infinity s ∨ ∃ m' e', x = S754_finite s m' e'.
Proof.
  intros H. cbn zeta. unfold binary_round_aux.
  pose proof (shr_fexp_nonneg prec emax m e l H) as H1.
  destruct (shr_fexp prec emax m e l) as [mrs1 e1]. cbn [fst] in H1.
  pose proof (shr_fexp_nonneg prec emax _ e1 loc_Exact
                (round_even_nonneg _ (loc_of_shr_record mrs1) H1)) as H2.
  destruct (shr_fexp _ _ (round_nearest_even _ _) _ _) as [mrs2 e2]. cbn [fst] in H2.
  destruct (shr_m mrs2); [auto| |lia]. destruct (_ <=? _); eauto.
Qed.

Lemma binary_round_num prec emax s m e :
  let x := binary_round prec emax s m e in
  x = S754_zero s ∨ x = S754_infinity s ∨ ∃ m' e', x = S754_finite s m' e'.
Proof.
  cbn zeta. unfold binary_round. destruct (shl_align _ _ _) as [mz ez].
  by apply binary_round_aux_num.
Qed.

(** Numbers that are not below zero. *)
Definition nonneg (x : spec_float) : Prop :=
  match x with
  | S754_zero _ | S754_infinity false | S754_finite false _ _ => True
  | _ => False
  end.

Lemma nonneg_num x : nonneg x → is_num x = true.
Proof. by destruct x as [|[]| |[]]. Qed.

(** Numbers whose sign is plus. *)
Definition plus (x : spec_float) : Prop :=
  x = S754_zero false ∨ x = S754_infinity false ∨ ∃ m e, x = S754_finite false m e.

Lemma plus_nonneg x : plus x → nonneg x.
Proof. intros [->|[->|(? & ? & ->)]]; done. Qed.

Lemma f64_of_Z_plus z : 0 ≤ z → plus (f64_of_Z z).
Proof.
  intros H. unfold f64_of_Z, binary_normalize. destruct z as [|p|]; [by left| |lia].
  apply binary_round_num.
Qed.

Lemma f64_of_Z_num z : is_num (f64_of_Z z) = true.
Proof.
  destruct z as [|p|p]; [done|..]; unfold f64_of_Z, binary_normalize;
    match goal with |- context[binary_round _ _ ?s p _] =>
      destruct (binary_round_num 53 1024 s p 0) as [->|[->|(? & ? & ->)]] end; done.
Qed.

Lemma f64_add_finite_plus m e b : nonneg b → plus (f64_add (S754_finite false m e) b).
Proof.
  destruct b as [sb|[]| |[] mb eb]; try done; intros _; unfold plus, f64_add; [|by right; left|].
  - right; right. by eexists _, _.
  - cbn -[binary_normalize shl_align]. set (x := Zpos _). set (y := Zpos _).
    destruct (x + y) eqn:E; [subst x y; lia| |subst x y; lia]. cbn [binary_normalize].
    apply binary_round_num.
Qed.

Lemma f64_add_nonneg a b : nonneg a → nonneg b → nonneg (f64_add a b).
Proof.
  intros Ha Hb. destruct a as [sa|[]| |[] ma ea]; try done.
  - destruct b as [sb|[]| |[] mb eb]; try done. by destruct sa, sb.
  - by destruct b as [sb|[]| |[] mb eb].
  - by apply plus_nonneg, f64_add_finite_plus.
Qed.

(** A quotient is a number unless both sides are zero or both are infinite. *)
Lemma f64_div_plus m e b : plus b → plus (f64_div (S754_finite false m e) b).
Proof.
  intros [->|[->|(mb & eb & ->)]]; [by right; left|by left|].
  unfold f64_div, SFdiv. destruct (SFdiv_core_binary _ _ _ _ _ _) as [[q e'] l] eqn:E.
  assert (0 ≤ q) as Hq.
  { unfold SFdiv_core_binary in E.
    match type of E with context[Z.div_eucl ?a ?b] => set (num := a) in E end.
    assert (0 ≤ num) as Hn.
    { subst num. destruct (_ - _) eqn:Es; [lia| |lia]. apply Z.shiftl_nonneg. lia. }
    pose proof (Z.div_pos num (Zpos mb) Hn ltac:(lia)) as Hd. unfold Z.div in Hd.
    destruct (Z.div_eucl num (Zpos mb)). by simplify_eq. }
  apply binary_round_aux_num, Hq.
Qed.

Lemma f64_mul_nonneg m e b : nonneg b → nonneg (f64_mul (S754_finite false m e) b).
Proof.
  destruct b as [sb|[]| |[] mb eb]; try done. intros _. unfold f64_mul. cbn -[binary_round_aux].
  apply plus_nonneg, binary_round_aux_num. lia.
Qed.

Lemma f64_abs_nonneg x : is_num x = true → nonneg (f64_abs x).
Proof. by destruct x. Qed.

Lemma f64_clamp01_nonneg x : is_num x = true → nonneg (f64_clamp01 x).
Proof.
  intros H. unfold f64_clamp01, f64_ltb, SFltb.
  destruct x as [|[]| |[] m e]; try done; cbn -[SFcompare f64_one].
  by destruct (SFcompare f64_one _) as [[]|].
Qed.

Lemma f64_of_f32_num x : is_num (f64_of_f32 x) = is_num x.
Proof.
  destruct x as [| | |s m e]; try done. cbn -[binary_round].
  destruct (binary_round_num 53 1024 s m e) as [->|[->|(? & ? & ->)]]; done.
Qed.

Lemma f64_one_form : ∃ m e, f64_one = S754_finite false m e.
Proof. eexists _, _. vm_compute. reflexivity. Qed.
Lemma f64_half_form : ∃ m e, f64_half = S754_finite false m e.
Proof. eexists _, _. vm_compute. reflexivity. Qed.

(** ** [slice::sort_by] *)

Section sort_by.
Context {A : Type} (cmp : A → A → comparison).

Fixpoint insert_by (x : A) (l : list A) : list A :=
  match l with
  | [] => [x]
  | y :: l' => match cmp x y with Gt => y :: insert_by x l' | _ => x :: l end
  end.
Definition sort_by (l : list A) : list A := foldr insert_by [] l.

Lemma insert_by_Permutation x l : insert_by x l ≡ₚ x :: l.
Proof.
  induction l as [|y l IH]; [done|]. cbn. destruct (cmp x y); try done. rewrite IH. constructor.
Qed.
Lemma sort_by_Permutation l : sort_by l ≡ₚ l.
Proof. induction l as [|x l IH]; [done|]. cbn. rewrite insert_by_Permutation. by constructor. Qed.

Lemma elem_of_sort_by x l : x ∈ sort_by l ↔ x ∈ l.
Proof. by rewrite sort_by_Permutation. Qed.

(** The elements are comparable, and [cmp] is a total preorder on them. *)
Context (P : A → Prop).
Context (le : A → A → Prop).
Context (cmp_le : ∀ x y, P x → P y → cmp x y ≠ Gt → le x y).
Context (cmp_gt : ∀ x y, P x → P y → cmp x y = Gt → le y x).
Context (le_trans : ∀ x y z, P x → P y → P z → le x y → le y z → le x z).

Lemma insert_by_sorted x l :
  P x → Forall P l → StronglySorted le l → StronglySorted le (insert_by x l).
Proof.
  intros Hx. induction l as [|y l IH]; intros HP Hs; [by repeat constructor|].
  inversion HP as [|? ? Hy HP']; subst. inversion Hs as [|? ? Hs' Hyl]; subst. cbn.
  assert (cmp x y ≠ Gt → StronglySorted le (x :: y :: l)) as Hput.
  { intros E. assert (le x y) by auto. constructor; [done|]. constructor; [done|].
    rewrite Forall_forall in *. intros z Hz. apply (le_trans x y z); auto. }
  destruct (cmp x y) eqn:E; try (by apply Hput). clear Hput. constructor; [by apply IH|].
  rewrite insert_by_Permutation. constructor; auto.
Qed.

Lemma sort_by_sorted l : Forall P l → StronglySorted le (sort_by l).
Proof.
  induction 1 as [|x l Hx Hl IH]; [constructor|]. cbn. apply insert_by_sorted; [done| |done].
  by rewrite sort_by_Permutation.
Qed.

(** The elements of one class, not separated by [cmp], keep their order. *)
Lemma insert_by_stable (Q : A → bool) x l :
  (∀ y, y ∈ l → Q x = true → Q y = true → cmp x y ≠ Gt) →
  List.filter Q (insert_by x l) = List.filter Q (x :: l).
Proof.
  induction l as [|y l IH]; intros HQ; [done|]. cbn. destruct (cmp x y) eqn:E; try done.
  cbn in IH |- *. rewrite IH by (intros z Hz; apply HQ; by right).
  destruct (Q x) eqn:Ex, (Q y) eqn:Ey; try done. by destruct (HQ y (list_elem_of_here _ _)).
Qed.
Lemma sort_by_stable (Q : A → bool) l :
  (∀ x y, x ∈ l → y ∈ l → Q x = true → Q y = true → cmp x y ≠ Gt) →
  List.filter Q (sort_by l) = List.filter Q l.
Proof.
  induction l as [|x l IH]; intros HQ; [done|].
  change (sort_by (x :: l)) with (insert_by x (sort_by l)). rewrite insert_by_stable.
  - cbn [List.filter]. rewrite IH; [done|]. intros ? ? ? ?. apply HQ; by right.
  - intros y Hy. apply HQ; [by left|]. right. by apply elem_of_sort_by.
Qed.

(** Sorting commutes with keeping some of the elements. *)
Context (le_cmp : ∀ x y, P x → P y → le x y → cmp x y ≠ Gt).

Lemma insert_by_head x l : (∀ y, y ∈ l → cmp x y ≠ Gt) → insert_by x l = x :: l.
Proof. destruct l as [|y l]; [done|]. intros H. cbn. by destruct (cmp x y) eqn:E; [..|destruct (H y (list_elem_of_here _ _))]. Qed.

Lemma filter_insert_by (Q : A → bool) x l :
  P x → Forall P l → StronglySorted le l →
  List.filter Q (insert_by x l) = if Q x then insert_by x (List.filter Q l) else List.filter Q l.
Proof.
  intros Hx. induction l as [|y l IH]; intros HP Hs; [cbn; by destruct (Q x)|].
  inversion HP as [|? ? Hy HP']; subst. inversion Hs as [|? ? Hs' Hyl]; subst.
  assert (cmp x y ≠ Gt → List.filter Q (x :: y :: l)
          = if Q x then insert_by x (List.filter Q (y :: l)) else List.filter Q (y :: l)) as Hput.
  { intros E. cbn [List.filter]. destruct (Q x); [|done]. symmetry. apply insert_by_head.
    intros z Hz. apply le_cmp; [done| |].
    - assert (∀ w, w ∈ List.filter Q l → P w) as Hw.
      { intros w [Hw _]%elem_of_kept. rewrite Forall_forall in HP'. auto. }
      destruct (Q y); [apply elem_of_cons in Hz as [->|Hz]; auto|auto].
    - assert (∀ w, w ∈ List.filter Q l → le x w) as Hw.
      { intros w [Hw _]%elem_of_kept. rewrite Forall_forall in *. apply (le_trans x y w); auto. }
      destruct (Q y); [apply elem_of_cons in Hz as [->|Hz]; auto|auto]. }
  cbn [insert_by]. destruct (cmp x y) eqn:E; try (by apply Hput). cbn [List.filter].
  rewrite IH by done. destruct (Q x), (Q y); try done. cbn. by rewrite E.
Qed.

Lemma filter_sort_by (Q : A → bool) l : Forall P l → List.filter Q (sort_by l) = sort_by (List.filter Q l).
Proof.
  induction 1 as [|x l Hx Hl IH]; [done|].
  change (sort_by (x :: l)) with (insert_by x (sort_by l)).
  rewrite filter_insert_by, IH; [by cbn [List.filter]; destruct (Q x)|done| |by apply sort_by_sorted].
  by rewrite sort_by_Permutation.
Qed.
End sort_by.
