(* ===== verification/RankFusion.v ===== *)
(** * RankFusion: the scores of a search and the fusion of its two rankings

    [crates/gradatum-search/src/scoring.rs] and [rrf.rs]: the recency, link, trust and usage
    factors of a score, reciprocal rank fusion, and the fusion of normalised magnitudes with
    its one-arm short circuits.  Scores are the doubles of Float.v; a [HashMap] is a [gmap];
    a vector of candidates is a list, best first. *)

From S2P Require Import Prelude Text Notes Float.
From Stdlib Require Import SpecFloat.

#[local] Open Scope Z_scope.

(** [iter.collect::<HashMap<_, _>>()]: the last of several bindings stays. *)
Definition collect_map {V} (l : list (string * V)) : gmap string V :=
  foldl (λ m kv, <[kv.1 := kv.2]> m) ∅ l.

(** ** scoring.rs *)

Definition MS_PER_DAY : f64 := f64_of_Z 86400000.
Definition LAMBDA : f64 := f64_lit 1 100.

Section scoring.
Context {LM : Libm}.

Definition recency_factor (note_created_ms now_ms : Z) : f64 :=
  let delta_ms := Z.max (now_ms - note_created_ms) 0 in
  let days_old := f64_div (f64_of_Z delta_ms) MS_PER_DAY in
  exp (f64_mul (f64_neg LAMBDA) days_old).

Definition pagerank_factor (in_degree : Z) : f64 :=
  let deg := f64_of_Z in_degree in
  f64_clamp01 (f64_div deg (f64_add deg (f64_of_Z 5))).

(** [1.0 + w * x]. *)
Definition boost (w x : f64) : f64 := f64_add f64_one (f64_mul w x).

Definition ALPHA : f64 := f64_lit 2 10.
Definition BETA : f64 := f64_lit 1 10.
Definition GAMMA_TRUST : f64 := f64_lit 15 100.

Definition composite_score (rrf_score recency pagerank : f64) : f64 :=
  f64_mul (f64_mul rrf_score (boost ALPHA recency)) (boost BETA pagerank).

Definition normalize_bm25 (bm25 : f64) : f64 := f64_div f64_one (f64_add f64_one (f64_abs bm25)).
Definition normalize_semantic (cosine : f32) : f64 := f64_clamp01 (f64_of_f32 cosine).

Definition weighted_fusion_score (bm25 : option f64) (semantic : option f32) : f64 :=
  let n_bm25 := from_option normalize_bm25 f64_zero bm25 in
  let n_sem := from_option normalize_semantic f64_zero semantic in
  f64_add (f64_mul f64_half n_bm25) (f64_mul f64_half n_sem).

(** *** Trust *)

Record TrustDecayConfig := mkTrustDecay {
  td_enabled : bool;
  half_life_days : gmap ustr f64;
}.

Definition DEFAULT_TRUST_HALF_LIVES : list (ustr * f64) := [(lit "Event", f64_of_Z 90)].
Definition default_half_lives : gmap ustr f64 := list_to_map DEFAULT_TRUST_HALF_LIVES.
Definition TrustDecayConfig_default : TrustDecayConfig := mkTrustDecay true default_half_lives.

(** The trust, the age in days and the half-life of a hit. *)
Abbreviation trust_params := (f64 * f64 * option f64)%type.

Definition resolve (self : TrustDecayConfig) (trust : option f32) (decay_key : option ustr)
    (age_days : f64) : option trust_params :=
  if negb (td_enabled self) then None
  else t ← trust;
       Some (f64_of_f32 t, age_days, decay_key ≫= λ p, half_life_days self !! p).

Definition resolve_for_section (self : TrustDecayConfig) (section : ustr) (age_days : f64) :
    option trust_params :=
  if negb (td_enabled self) then None
  else
    let trust := f64_lit (Z.of_N (trust_for_section_str section)) 100 in
    let half_life :=
      if is_trust_non_decaying section then None
      else half_life_days self !! section_str_to_doc_kind section in
    Some (trust, age_days, half_life).

Definition trust_decay_factor (trust age_days : f64) (half_life_days : option f64) : f64 :=
  let trust_clamped := f64_clamp01 trust in
  match half_life_days with
  | None => trust_clamped
  | Some hl =>
      if f64_leb hl f64_zero then trust_clamped
      else
        let age := f64_max0 age_days in
        let decay := powf f64_half (f64_div age hl) in
        f64_clamp01 (f64_mul trust_clamped decay)
  end.

Record ScoringWeightsWire := mkWire {
  ww_recency : option f64; ww_pagerank : option f64; ww_trust : option f64 }.
Record ResolvedWeights := mkWeights { w_recency : f64; w_pagerank : f64; w_trust : f64 }.
Definition ResolvedWeights_default : ResolvedWeights := mkWeights ALPHA BETA GAMMA_TRUST.

Definition resolve_weights (w : option ScoringWeightsWire) : ResolvedWeights :=
  let d := ResolvedWeights_default in
  match w with
  | None => d
  | Some x => mkWeights (default (w_recency d) (ww_recency x)) (default (w_pagerank d) (ww_pagerank x))
                (default (w_trust d) (ww_trust x))
  end.

Definition composite_score_weighted (rrf recency pagerank : f64) (tp : option trust_params)
    (w : ResolvedWeights) : f64 :=
  let s := f64_mul (f64_mul rrf (boost (w_recency w) recency)) (boost (w_pagerank w) pagerank) in
  match tp with
  | Some (trust, age_days, hl) => f64_mul s (boost (w_trust w) (trust_decay_factor trust age_days hl))
  | None => s
  end.

Definition composite_score_with_trust (rrf_score recency pagerank : f64) (tp : option trust_params) :
    f64 :=
  let base := composite_score rrf_score recency pagerank in
  match tp with
  | None => base
  | Some (trust, age_days, hl) => f64_mul base (boost GAMMA_TRUST (trust_decay_factor trust age_days hl))
  end.

(** *** Usage *)

Record SalienceParams := mkSalience {
  sal_gamma : f64;
  k_norm : f64;
  kind_weights : gmap ustr f64;
}.

Definition salience_factor (weighted_sum k_norm : f64) : f64 :=
  if f64_leb weighted_sum f64_zero then f64_zero
  else f64_div weighted_sum (f64_add weighted_sum k_norm).

(** [Iterator::sum] of doubles starts from minus zero. *)
Definition salience_weighted_sum (counts : list (ustr * Z)) (weights : gmap ustr f64) : f64 :=
  foldl (λ acc '(kind, count), f64_add acc (f64_mul (default f64_zero (weights !! kind)) (f64_of_Z count)))
    (S754_zero true) counts.

Definition apply_salience (composite weighted_sum : f64) (params : SalienceParams) : f64 :=
  let s := salience_factor weighted_sum (k_norm params) in
  if f64_eqb s f64_zero then composite else f64_mul composite (boost (sal_gamma params) s).
End scoring.

(** ** rrf.rs *)

Record RrfHit := mkHit {
  note_id : string;
  rrf_score : f64;
  h_section : ustr;
  snippet : option ustr;
  h_title : option ustr;
  is_semantic_only : bool;
  bm25_rank : option Z;
  sem_rank : option Z;
  h_status : ustr;
  h_anchor_ms : option Z;
}.

(** [u32::try_from(r).unwrap_or(u32::MAX)]. *)
Definition rank_u32 (r : nat) : Z := Z.min (Z.of_nat r) (u32_modulus - 1).

Section fusion.
Context (bm25 : list (string * f64)) (semantic : list (string * f32)).

Definition rank_map {V} (l : list (string * V)) : gmap string nat :=
  collect_map (imap (λ i kv, (kv.1, i)) l).

(** The candidates: the lexical ones in order, then those of the semantic arm alone. *)
Definition all_ids : list string :=
  bm25.*1 ++ filter (λ id, rank_map bm25 !! id = None) semantic.*1.

Definition fresh_hit (id : string) (score : f64) : RrfHit :=
  mkHit id score [] None None (bool_decide (rank_map bm25 !! id = None))
    (rank_u32 <$> rank_map bm25 !! id) (rank_u32 <$> rank_map semantic !! id) [] None.

(** [hits.sort_by(|a, b| b.1.partial_cmp(&a.1)…)]. *)
Definition by_score_desc {A} (a b : A * f64) : comparison := cmp_f64 b.2 a.2.

(** Scoring the candidates, sorting them and keeping the first [limit]. *)
Definition fuse_with (score : string → f64) (limit : nat) : list RrfHit :=
  let hits := (λ id, (id, score id)) <$> all_ids in
  (λ h, fresh_hit h.1 h.2) <$> take limit (sort_by by_score_desc hits).

Definition rrf_score_of (k : f64) (id : string) : f64 :=
  let r_bm25 := default (length bm25 + 1)%nat (rank_map bm25 !! id) in
  let r_sem := default (length semantic + 1)%nat (rank_map semantic !! id) in
  f64_add (f64_div f64_one (f64_add k (f64_of_Z (Z.of_nat r_bm25))))
    (f64_div f64_one (f64_add k (f64_of_Z (Z.of_nat r_sem)))).

Definition rrf_fuse (k : f64) (limit : nat) : list RrfHit := fuse_with (rrf_score_of k) limit.

Definition weighted_score_of (id : string) : f64 :=
  weighted_fusion_score (collect_map bm25 !! id) (collect_map semantic !! id).

Definition hybrid_fuse_weighted (limit : nat) : list RrfHit := fuse_with weighted_score_of limit.

Definition rrf_fuse_short_circuit (_k : f64) (limit : nat) : list RrfHit :=
  match bm25, semantic with
  | [], [] => []
  | [], _ =>
      take limit (imap (λ i '(id, score),
        mkHit id (normalize_semantic score) [] None None true None (Some (rank_u32 i)) [] None) semantic)
  | _, [] =>
      take limit (imap (λ i '(id, score),
        mkHit id (normalize_bm25 score) [] None None false (Some (rank_u32 i)) None [] None) bm25)
  | _, _ => hybrid_fuse_weighted limit
  end.
End fusion.

(** ** Ranks *)

Lemma collect_map_snoc {V} (l : list (string * V)) k v :
  collect_map (l ++ [(k, v)]) = <[k := v]> (collect_map l).
Proof. unfold collect_map. by rewrite foldl_snoc. Qed.

Lemma collect_map_None {V} (l : list (string * V)) k : collect_map l !! k = None ↔ k ∉ l.*1.
Proof.
  induction l as [|[k' v] l IH] using rev_ind; [split; [intros _; cbn; set_solver|done]|].
  rewrite collect_map_snoc, fmap_app, not_elem_of_app. cbn.
  destruct (decide (k = k')) as [->|Hne].
  - rewrite lookup_insert_eq. split; [done|]. intros [_ H]. set_solver.
  - rewrite lookup_insert_ne, IH by done. set_solver.
Qed.

Lemma collect_map_Some {V} (l : list (string * V)) k v : collect_map l !! k = Some v → (k, v) ∈ l.
Proof.
  induction l as [|[k' v'] l IH] using rev_ind; [done|]. rewrite collect_map_snoc.
  destruct (decide (k = k')) as [->|Hne].
  - rewrite lookup_insert_eq. intros [= ->]. set_solver.
  - rewrite lookup_insert_ne by done. intros ?%IH. set_solver.
Qed.

Lemma collect_map_NoDup {V} (l : list (string * V)) k v :
  NoDup l.*1 → collect_map l !! k = Some v ↔ (k, v) ∈ l.
Proof.
  intros Hnd. split; [apply collect_map_Some|].
  induction l as [|[k' v'] l IH] using rev_ind; [set_solver|]. rewrite collect_map_snoc.
  rewrite fmap_app in Hnd. apply NoDup_app in Hnd as (Hnd & Hdis & _).
  intros [H|[= -> ->]%list_elem_of_singleton]%elem_of_app; [|by rewrite lookup_insert_eq].
  rewrite lookup_insert_ne; [auto|]. intros ->. apply (Hdis k); [|set_solver].
  apply list_elem_of_fmap. by exists (k, v).
Qed.

Lemma fst_ranked {V} (l : list (string * V)) : (imap (λ i kv, (kv.1, i)) l).*1 = l.*1.
Proof. rewrite fmap_imap. apply (imap_const fst). Qed.

Lemma rank_map_None {V} (l : list (string * V)) id : rank_map l !! id = None ↔ id ∉ l.*1.
Proof. unfold rank_map. by rewrite collect_map_None, fst_ranked. Qed.

(** Without repetitions a rank is a position. *)
Lemma rank_map_Some {V} (l : list (string * V)) id i :
  NoDup l.*1 → rank_map l !! id = Some i ↔ l.*1 !! i = Some id.
Proof.
  intros Hnd. unfold rank_map. rewrite collect_map_NoDup by by rewrite fst_ranked.
  rewrite elem_of_lookup_imap, list_lookup_fmap, fmap_Some. split.
  - intros (j & kv & [= -> ->] & H). eauto.
  - intros (kv & H & ->). eauto.
Qed.

(** ** What fusion returns *)

Section fused.
Context (bm25 : list (string * f64)) (semantic : list (string * f32)).

Lemma elem_of_all_ids id : id ∈ all_ids bm25 semantic ↔ id ∈ bm25.*1 ∨ id ∈ semantic.*1.
Proof.
  unfold all_ids. rewrite elem_of_app, list_elem_of_filter, rank_map_None.
  destruct (decide (id ∈ bm25.*1)); naive_solver.
Qed.

Lemma all_ids_NoDup :
  NoDup bm25.*1 → NoDup semantic.*1 → NoDup (all_ids bm25 semantic).
Proof.
  intros H1 H2. apply NoDup_app. split_and!; [done| |by apply NoDup_filter].
  intros id Hid [Hn _]%list_elem_of_filter. by apply rank_map_None in Hn.
Qed.

(** The whole ranking of [fuse_with]. *)
Definition ranking (score : string → f64) : list string :=
  sort_by (λ a b, cmp_f64 (score b) (score a)) (all_ids bm25 semantic).

Lemma sort_by_fmap {A B} (f : A → B) (cmp : B → B → comparison) l :
  sort_by cmp (f <$> l) = f <$> sort_by (λ x y, cmp (f x) (f y)) l.
Proof.
  assert (∀ x m, insert_by cmp (f x) (f <$> m) = f <$> insert_by (λ x y, cmp (f x) (f y)) x m) as Hi.
  { intros x m. induction m as [|y m IH]; [done|]. cbn. destruct (cmp (f x) (f y)); cbn; by rewrite ?IH. }
  induction l as [|x l IH]; [done|]. cbn. unfold sort_by in IH. by rewrite IH, Hi.
Qed.

Lemma fuse_with_ranking score limit :
  fuse_with bm25 semantic score limit
  = (λ id, fresh_hit bm25 semantic id (score id)) <$> take limit (ranking score).
Proof.
  unfold fuse_with, ranking. rewrite sort_by_fmap, <- fmap_take, <- list_fmap_compose. done.
Qed.

Lemma cmp_f64_same_class a b x :
  is_num a = true → is_num b = true → is_num x = true →
  cmp_f64 a x = Eq → cmp_f64 b x = Eq → cmp_f64 a b ≠ Gt.
Proof.
  intros Ha Hb Hx Ea Eb. pose proof (cmp_f64_place a x Ha Hx) as Pa.
  pose proof (cmp_f64_place b x Hb Hx) as Pb. rewrite Ea in Pa. rewrite Eb in Pb.
  apply f64_le_place; [done|done|]. right. congruence.
Qed.

Lemma ranking_ranked score :
  (∀ id, id ∈ all_ids bm25 semantic → is_num (score id) = true) →
  ranking score ≡ₚ all_ids bm25 semantic
  ∧ StronglySorted (λ a b, f64_le (score b) (score a)) (ranking score)
  ∧ ∀ x, is_num x = true →
      List.filter (λ id, bool_decide (cmp_f64 (score id) x = Eq)) (ranking score)
      = List.filter (λ id, bool_decide (cmp_f64 (score id) x = Eq)) (all_ids bm25 semantic).
Proof.
  intros Hnum. split_and!; [apply sort_by_Permutation| |].
  - apply (sort_by_sorted _ (λ id, is_num (score id) = true)).
    + by intros a b _ _.
    + intros a b Ha Hb. by apply cmp_f64_Gt.
    + intros a b c Ha Hb Hc H1 H2. by apply (f64_le_trans _ (score b)).
    + by apply Forall_forall.
  - intros x Hx. apply sort_by_stable. intros a b Ha Hb. rewrite !bool_decide_eq_true. intros Ea Eb.
    apply (cmp_f64_same_class _ _ x); auto.
Qed.

Lemma rrf_score_num k id :
  (∃ m e, k = S754_finite false m e) → is_num (rrf_score_of bm25 semantic k id) = true.
Proof.
  intros (m & e & ->). destruct f64_one_form as (m1 & e1 & E1). unfold rrf_score_of. rewrite E1.
  apply nonneg_num, f64_add_nonneg; apply plus_nonneg, f64_div_plus, f64_add_finite_plus, plus_nonneg,
    f64_of_Z_plus; lia.
Qed.

Lemma normalize_bm25_nonneg x : is_num x = true → nonneg (normalize_bm25 x).
Proof.
  intros H. unfold normalize_bm25. destruct f64_one_form as (m1 & e1 & ->).
  by apply plus_nonneg, f64_div_plus, f64_add_finite_plus, f64_abs_nonneg.
Qed.

Lemma normalize_semantic_nonneg x : is_num x = true → nonneg (normalize_semantic x).
Proof. intros H. apply f64_clamp01_nonneg. by rewrite f64_of_f32_num. Qed.

Lemma weighted_fusion_nonneg b s :
  (∀ x, b = Some x → is_num x = true) → (∀ x, s = Some x → is_num x = true) →
  nonneg (weighted_fusion_score b s).
Proof.
  intros Hb Hs. unfold weighted_fusion_score. destruct f64_half_form as (m & e & ->).
  apply f64_add_nonneg; apply f64_mul_nonneg.
  - destruct b; [by apply normalize_bm25_nonneg, Hb|done].
  - destruct s; [by apply normalize_semantic_nonneg, Hs|done].
Qed.

Lemma weighted_score_num id :
  (∀ id x, (id, x) ∈ bm25 → is_num x = true) → (∀ id x, (id, x) ∈ semantic → is_num x = true) →
  is_num (weighted_score_of bm25 semantic id) = true.
Proof.
  intros Hb Hs. apply nonneg_num, weighted_fusion_nonneg; intros x ?%collect_map_Some; eauto.
Qed.

Lemma rank_u32_exact {V} (l : list (string * V)) id i :
  NoDup l.*1 → Z.of_nat (length l) ≤ u32_modulus → (i < length l)%nat →
  rank_u32 <$> rank_map l !! id = Some (Z.of_nat i) ↔ l.*1 !! i = Some id.
Proof.
  intros Hnd Hl Hi. rewrite <- rank_map_Some, fmap_Some by done. unfold rank_u32. split.
  - intros (j & Hj & Hij). pose proof Hj as Hj'. apply rank_map_Some, lookup_lt_Some in Hj'; [|done].
    rewrite length_fmap in Hj'. by replace i with j by lia.
  - intros H. exists i. split; [done|]. lia.
Qed.
End fused.

(** ** The property *)

(** The score a fusion gives a candidate, and the fusion, by whether an embedder is active. *)
Definition score_of (hybrid : bool) (bm25 : list (string * f64)) (semantic : list (string * f32))
    (k : f64) : string → f64 :=
  if hybrid then weighted_score_of bm25 semantic else rrf_score_of bm25 semantic k.
Definition fuse (hybrid : bool) (bm25 : list (string * f64)) (semantic : list (string * f32))
    (k : f64) : nat → list RrfHit :=
  if hybrid then hybrid_fuse_weighted bm25 semantic else rrf_fuse bm25 semantic k.

(** Fusing a lexical and a semantic ranking (without repeated notes or scores that are
    not numbers) ranks every note of either list exactly once: better scores come first,
    equal scores in the order lexical notes first, and asking for [limit] results gives the
    first [limit] of this one ranking.  Each hit carries the score of its note, its position
    in each list, and the mark "semantic only" exactly when the lexical list lacks it. *)
Theorem fusion_exact (hybrid : bool) (bm25 : list (string * f64)) (semantic : list (string * f32))
    (k : f64) (k_positive : ∃ m e, k = S754_finite false m e)
    (lexical_once : NoDup bm25.*1) (semantic_once : NoDup semantic.*1)
    (lexical_numbers : ∀ id x, (id, x) ∈ bm25 → is_num x = true)
    (semantic_numbers : ∀ id x, (id, x) ∈ semantic → is_num x = true)
    (lexical_short : Z.of_nat (length bm25) ≤ u32_modulus)
    (semantic_short : Z.of_nat (length semantic) ≤ u32_modulus) :
  let score := score_of hybrid bm25 semantic k in
  ∃ ids : list string,
    NoDup ids
    ∧ (∀ id, id ∈ ids ↔ id ∈ bm25.*1 ∨ id ∈ semantic.*1)
    ∧ StronglySorted (λ a b, f64_le (score b) (score a)) ids
    ∧ (∀ x, is_num x = true →
         List.filter (λ id, bool_decide (cmp_f64 (score id) x = Eq)) ids
         = List.filter (λ id, bool_decide (cmp_f64 (score id) x = Eq))
             (bm25.*1 ++ filter (λ id, id ∉ bm25.*1) semantic.*1))
    ∧ ∀ limit,
        note_id <$> fuse hybrid bm25 semantic k limit = take limit ids
        ∧ ∀ h, h ∈ fuse hybrid bm25 semantic k limit →
            rrf_score h = score (note_id h)
            ∧ (is_semantic_only h = true ↔ note_id h ∉ bm25.*1)
            ∧ (∀ i, (i < length bm25)%nat →
                 bm25_rank h = Some (Z.of_nat i) ↔ bm25.*1 !! i = Some (note_id h))
            ∧ (bm25_rank h = None ↔ note_id h ∉ bm25.*1)
            ∧ (∀ i, (i < length semantic)%nat →
                 sem_rank h = Some (Z.of_nat i) ↔ semantic.*1 !! i = Some (note_id h))
            ∧ (sem_rank h = None ↔ note_id h ∉ semantic.*1).
Proof.
  intros score.
  assert (∀ limit, fuse hybrid bm25 semantic k limit = fuse_with bm25 semantic score limit) as Hf
    by by destruct hybrid.
  destruct (ranking_ranked bm25 semantic score) as (Hp & Hs & Ht).
  { intros id _. subst score. destruct hybrid; [by apply weighted_score_num|by apply rrf_score_num]. }
  assert (all_ids bm25 semantic = bm25.*1 ++ filter (λ id, id ∉ bm25.*1) semantic.*1) as Hall.
  { unfold all_ids. f_equal. apply list_filter_iff. intros id. apply rank_map_None. }
  exists (ranking bm25 semantic score). rewrite <- Hall. split_and!.
  - rewrite Hp. by apply all_ids_NoDup.
  - intros id. rewrite Hp. apply elem_of_all_ids.
  - done.
  - done.
  - intros limit. rewrite Hf, fuse_with_ranking. split.
    + rewrite <- list_fmap_compose. apply list_fmap_id.
    + intros h (id & -> & _)%list_elem_of_fmap. unfold fresh_hit. cbn [rrf_score note_id
        is_semantic_only bm25_rank sem_rank]. rewrite bool_decide_eq_true, !fmap_None, !rank_map_None.
      split_and!; try done; intros i Hi; by apply rank_u32_exact.
Qed.

(** ** Lexical scores *)

(** The normalised score of the integer rank [-i]. *)
Definition normalized_int (i : nat) : f64 := normalize_bm25 (f64_of_Z (- Z.of_nat i)).

Lemma normalized_int_table :
  forallb (λ i, match SFcompare (normalized_int (S i)) (normalized_int i) with Some Lt => true | _ => false end)
    (seq 0 1000) = true.
Proof. vm_compute. reflexivity. Qed.

Lemma normalized_int_num i : is_num (normalized_int i) = true.
Proof. apply nonneg_num, normalize_bm25_nonneg, f64_of_Z_num. Qed.

Lemma normalized_int_step i :
  (i < 1000)%nat → place_lt (place (normalized_int (S i))) (place (normalized_int i)).
Proof.
  intros Hi. pose proof normalized_int_table as Ht. rewrite forallb_forall in Ht.
  specialize (Ht i). rewrite in_seq in Ht. specialize (Ht ltac:(lia)).
  pose proof (cmp_f64_place (normalized_int (S i)) (normalized_int i)
                (normalized_int_num _) (normalized_int_num _)) as Hc.
  unfold cmp_f64 in Hc. by destruct (SFcompare _ _) as [[]|].
Qed.

Lemma normalized_int_decreasing i j :
  (i < j ≤ 1000)%nat → place_lt (place (normalized_int j)) (place (normalized_int i)).
Proof.
  intros [Hij Hj]. induction Hij as [|j Hij IH]; [by apply normalized_int_step|].
  eapply place_lt_trans; [apply normalized_int_step; lia|apply IH; lia].
Qed.

(** FTS5 ranks the better match lower: the lexical list is sorted by ascending score. *)
Definition lexical_list (hits : list (string * nat)) : list (string * f64) :=
  (λ h, (h.1, f64_of_Z (- Z.of_nat h.2))) <$> hits.

Lemma cmp_f64_of_place a b :
  is_num a = true → is_num b = true → place_lt (place a) (place b) → cmp_f64 a b = Lt.
Proof.
  intros Ha Hb Hlt. pose proof (cmp_f64_place a b Ha Hb) as H. unfold place_lt in *.
  destruct (cmp_f64 a b); [rewrite H in Hlt; lia|done|lia].
Qed.

Lemma sorted_take {A} (R : A → A → Prop) n l : StronglySorted R l → StronglySorted R (take n l).
Proof.
  intros Hs. revert n. induction Hs as [|x l Hs IH Hx]; intros [|n]; constructor; [done|].
  by apply Forall_take.
Qed.

Lemma sorted_imap {A B} (R : A → A → Prop) (R' : B → B → Prop) (f : nat → A → B) l :
  (∀ i j a b, a ∈ l → b ∈ l → R a b → R' (f i a) (f j b)) →
  StronglySorted R l → StronglySorted R' (imap f l).
Proof.
  intros Hf Hs. revert f Hf. induction Hs as [|x l Hs IH Hx]; intros f Hf; [constructor|].
  rewrite imap_cons. constructor.
  - apply IH. intros i j a b Ha Hb. apply Hf; by right.
  - apply Forall_forall. intros y (i & z & -> & Hz)%elem_of_lookup_imap.
    apply list_elem_of_lookup_2 in Hz. rewrite Forall_forall in Hx. apply Hf; [by left|by right|auto].
Qed.

(** When only the lexical arm answers a hybrid search, the scores run against the
    ranking: for lexical matches with integer scores (down to -1000, better ones lower, in
    the order of the index) the fused score of every better match is strictly below that of
    every worse one, so sorting the results by score turns the ranking upside down. *)
Theorem lexical_ranking_reversed (hits : list (string * nat)) (k : f64) (limit : nat)
    (best_first : StronglySorted (λ a b, (b.2 < a.2)%nat) hits)
    (small : ∀ h, h ∈ hits → (h.2 ≤ 1000)%nat) :
  note_id <$> rrf_fuse_short_circuit (lexical_list hits) [] k limit = take limit hits.*1
  ∧ StronglySorted (λ a b, cmp_f64 (rrf_score a) (rrf_score b) = Lt)
      (rrf_fuse_short_circuit (lexical_list hits) [] k limit).
Proof.
  assert (rrf_fuse_short_circuit (lexical_list hits) [] k limit
          = take limit (imap (λ i h, mkHit h.1 (normalized_int h.2) [] None None false
                                      (Some (rank_u32 i)) None [] None) hits)) as ->.
  { destruct hits as [|h hits]; [by destruct limit|].
    transitivity (take limit (imap (λ i '(id, score),
      mkHit id (normalize_bm25 score) [] None None false (Some (rank_u32 i)) None [] None)
      (lexical_list (h :: hits)))); [done|].
    unfold lexical_list. by rewrite imap_fmap. }
  split.
  - rewrite fmap_take, fmap_imap. f_equal. apply (imap_const fst).
  - apply sorted_take. eapply sorted_imap; [|exact best_first]. cbn. intros _ _ a b Ha Hb Hab.
    apply cmp_f64_of_place; [apply normalized_int_num..|]. apply normalized_int_decreasing.
    split; [done|by apply small].
Qed.
