(* ===== verification/SearchIndex.v ===== *)
(** * SearchIndex: the queries of the index that a search runs

    The full-text and semantic searches of [crates/gradatum-index/src/sqlite.rs] and the
    batch reads of [queries.rs].  A table is a finite map on its primary key; the order in
    which SQLite scans it, which no [ORDER BY] below leaves visible except between equal
    scores, is the order of the map.  What FTS5 computes ([MATCH], [bm25], [snippet]), the
    parser of ULIDs and the mathematics library are parameters.  Building the SQL text and
    binding its parameters is not modelled: a clause is the test it makes on a row. *)

From S2P Require Import Prelude Job Text Scope Registry Notes ProjectServer NoteStore Float RankFusion.
From Stdlib Require Import SpecFloat.

#[local] Open Scope Z_scope.

Arguments text_of : simpl never.

(** ** Tables *)

(** A row of [notes]: the columns of NoteStore.v and the two of the forget mark. *)
Record search_row := mkSearchRow {
  sn_row : index_row;
  sn_forgotten : Z;
  sn_forgotten_at : option Z;
}.

(** The primary key of [notes], [temporal_index] and, with the embedder, [note_embeddings]. *)
Abbreviation note_key := (VaultId * string)%type.

(** A row of [note_links]. *)
Record note_link := mkLink {
  nl_src : string;
  nl_dst : string;
  nl_vault : VaultId;
  nl_created_at : Z;
}.

Record search_index := mkSearchIndex {
  sn_notes : gmap note_key search_row;
  temporal_index : gmap note_key Z;
  note_embeddings : gmap (note_key * string) (list Z * Z);
  note_links : list note_link;
}.

(** FTS5: which queries it accepts, and the rank and excerpt of a row that matches. *)
Class Fts5 := {
  fts_accepts : ustr → bool;
  fts_hit : search_index → ustr → note_key → option (f64 * ustr);
}.

(** [Ulid::from_string(s)], as the text of the parsed identifier. *)
Class UlidText := ulid_text : string → option string.

Record SearchHitRaw := mkRaw {
  raw_id : string;
  raw_bm25 : f64;
  raw_status : ustr;
  raw_snippet : ustr;
  raw_section : ustr;
  raw_title : option ustr;
  raw_anchor_ms : option Z;
}.

(** ** [LIKE … ESCAPE '\'] *)

Definition PERCENT : uchar := 37%N.
Definition UNDERSCORE : uchar := 95%N.
Definition BACKSLASH : uchar := 92%N.

Definition escape_like (value : ustr) : ustr :=
  value ≫= λ ch, if bool_decide (ch = BACKSLASH ∨ ch = PERCENT ∨ ch = UNDERSCORE)
                 then [BACKSLASH; ch] else [ch].

(** Letters of ASCII are compared without their case. *)
Definition same_letter (c x : uchar) : bool := (ascii_lower c =? ascii_lower x)%N.

Fixpoint like (pattern s : ustr) : bool :=
  match pattern with
  | [] => bool_decide (s = [])
  | c :: p =>
      if (c =? BACKSLASH)%N then
        match p, s with
        | d :: p', x :: s' => same_letter d x && like p' s'
        | _, _ => false
        end
      else if (c =? PERCENT)%N then
        (fix any (s : ustr) : bool := like p s || match s with _ :: s' => any s' | [] => false end) s
      else
        match s with
        | x :: s' => (bool_decide (c = UNDERSCORE) || same_letter c x) && like p s'
        | [] => false
        end
  end.

(** ** The [WHERE] clauses *)

Definition DOWNGRADED : ustr := lit "downgraded".

Definition locus_clause (locus : option ustr) (r : index_row) : bool :=
  unless_null locus (λ loc, match r_locus r with
                            | Some l => like (escape_like loc ++ [PERCENT]) l
                            | None => false
                            end).

(** [build_fts_where_parts]. *)
Definition fts_where (include_downgraded : bool) (section locus status : option ustr)
    (r : index_row) : bool :=
  (include_downgraded || negb (bool_decide (r_status r = DOWNGRADED)))
  && unless_null section (λ sec, bool_decide (r_section r = sec))
  && locus_clause locus r
  && unless_null status (λ st, bool_decide (r_status r = st)).

(** [default_search_exclusion_clause]. *)
Definition excluded_by_default (section : ustr) : bool :=
  existsb (λ s, bool_decide (section_as_str s = section)) DEFAULT_SEARCH_EXCLUDED.

(** [(?f IS NULL OR t.anchor_ms >= ?f) AND (?t IS NULL OR t.anchor_ms <= ?t)]. *)
Definition within_bounds (from_ms to_ms : option Z) (anchor : option Z) : bool :=
  unless_null from_ms (λ f, match anchor with Some a => f <=? a | None => false end)
  && unless_null to_ms (λ t, match anchor with Some a => a <=? t | None => false end).

Section queries.
Context {LM : Libm} {FTS : Fts5} {UT : UlidText}.
Implicit Types (ix : search_index) (vault : VaultId).

(** The rows of a vault that match. *)
Definition fts_rows ix vault (query : ustr) (keep : note_key → search_row → bool) :
    list (note_key * search_row * (f64 * ustr)) :=
  omap (λ kr, if bool_decide (kr.1.1 = vault) && keep kr.1 kr.2
              then (λ h, (kr, h)) <$> fts_hit ix query kr.1 else None)
    (map_to_list (sn_notes ix)).

(** How long a note has been forgotten, in days. *)
Definition elapsed_days (now_ms : Z) (forgotten_at : option Z) : f64 :=
  f64_max0 match forgotten_at with
           | Some at_ms => f64_div (f64_of_Z (now_ms - at_ms)) MS_PER_DAY
           | None => f64_zero
           end.

(** One row of [search_fts_with_snippet]. *)
Definition raw_of_row ix (now_ms : Z) (x : note_key * search_row * (f64 * ustr)) :
    result SearchHitRaw GradatumError :=
  let '(k, sr, (bm25_raw, snip)) := x in
  match ulid_text k.2 with
  | None => Err (Storage "ULID parse search_fts_with_snippet")
  | Some id =>
      let bm25 := if bool_decide (sn_forgotten sr = 0) then bm25_raw
                  else f64_mul bm25_raw (powf f64_half (elapsed_days now_ms (sn_forgotten_at sr))) in
      let r := sn_row sr in
      Ok (mkRaw id bm25 (r_status r) snip (r_section r) (r_title r) (temporal_index ix !! k))
  end.

Definition search_fts_with_snippet ix vault (query : ustr) (limit : nat) (include_downgraded : bool)
    (section locus status : option ustr) (from_ms to_ms : option Z) (now_ms : Z) :
    result (list SearchHitRaw) GradatumError :=
  if negb (fts_accepts query) then Err (Storage "query search_fts_with_snippet")
  else
    let rows := fts_rows ix vault query (λ k sr,
                  fts_where include_downgraded section locus status (sn_row sr)
                  && within_bounds from_ms to_ms (temporal_index ix !! k)) in
    let best := take limit (sort_by (λ a b, cmp_f64 a.2.1 b.2.1) rows) in
    results ?<- collect_results (raw_of_row ix now_ms) best;
    Ok (sort_by (λ a b, cmp_f64 (raw_bm25 a) (raw_bm25 b)) results).

(** One row of [search_fts_scored]: forgetting replaces the penalty of a downgrade. *)
Definition scored_of_fts (penalty : bool) (now_ms : Z) (x : note_key * search_row * (f64 * ustr)) :
    result (string * f64 * ustr) GradatumError :=
  let '(k, sr, (bm25_raw, _)) := x in
  match ulid_text k.2 with
  | None => Err (Storage "parse ULID")
  | Some id =>
      let status := r_status (sn_row sr) in
      let score :=
        if negb (bool_decide (sn_forgotten sr = 0))
        then f64_mul bm25_raw (powf f64_half (elapsed_days now_ms (sn_forgotten_at sr)))
        else if penalty && bool_decide (status = DOWNGRADED) then f64_mul bm25_raw (f64_of_Z 10)
        else bm25_raw in
      Ok (id, score, status)
  end.

Definition search_fts_scored ix vault (query : ustr) (limit : nat) (include_downgraded : bool)
    (now_ms : Z) : result (list (string * f64 * ustr)) GradatumError :=
  if negb (fts_accepts query) then Err (Storage "query search_fts_scored")
  else
    let rows := fts_rows ix vault query (λ _ sr, fts_where include_downgraded None None None (sn_row sr)) in
    let best := take limit (sort_by (λ a b, cmp_f64 a.2.1 b.2.1) rows) in
    out ?<- collect_results (scored_of_fts true now_ms) best;
    Ok (sort_by (λ a b, cmp_f64 a.1.2 b.1.2) out).

Definition search_fts_scored_filtered ix vault (query : ustr) (limit : nat) (include_downgraded : bool)
    (section locus : option ustr) (now_ms : Z) : result (list (string * f64 * ustr)) GradatumError :=
  if negb (fts_accepts query) then Err (Storage "query search_fts_scored_filtered")
  else
    let rows := fts_rows ix vault query (λ _ sr,
                  fts_where include_downgraded section locus None (sn_row sr)) in
    let best := take limit (sort_by (λ a b, cmp_f64 a.2.1 b.2.1) rows) in
    out ?<- collect_results (scored_of_fts false now_ms) best;
    Ok (sort_by (λ a b, cmp_f64 a.1.2 b.1.2) out).

Definition apply_cap (raw_count : Z) : Z * bool :=
  if 10001 <=? raw_count then (10000, true) else (raw_count, false).

Definition count_fts_matches ix vault (query : ustr) (include_downgraded : bool)
    (section locus status : option ustr) : result (Z * bool) GradatumError :=
  if negb (fts_accepts query) then Err (Storage "count_fts_matches")
  else
    let rows := fts_rows ix vault query (λ _ sr,
                  fts_where include_downgraded section locus status (sn_row sr)
                  && match section with
                     | None => negb (excluded_by_default (r_section (sn_row sr)))
                     | Some _ => true
                     end) in
    Ok (apply_cap (Z.of_nat (length (take 10001 rows)))).

(** ** The semantic arm *)

(** [iter.sum::<f32>()]. *)
Definition f32_sum (l : list f32) : f32 := foldl f32_add (S754_zero true) l.
Definition norm (v : list f32) : f32 := f32_sqrt (f32_sum ((λ x, f32_mul x x) <$> v)).
Definition dot (q v : list f32) : f32 := f32_sum (zip_with f32_mul q v).
Definition f32_is_zero (x : f32) : bool := SFeqb x (S754_zero false).

(** [blob.chunks_exact(4)], decoded. *)
Fixpoint decode_vector (blob : list Z) : list f32 :=
  match blob with
  | b0 :: b1 :: b2 :: b3 :: rest => f32_from_le_bytes b0 b1 b2 b3 :: decode_vector rest
  | _ => []
  end.

(** The cosine of one embedding, and whether the row is scored at all. *)
Definition cosine_of (query_emb : list f32) (blob : list Z) (dim : Z) : option f32 :=
  if negb (bool_decide (Z.of_nat (length blob) = ((dim `mod` 2 ^ 64) * 4) `mod` 2 ^ 64)) then None
  else
    let v := decode_vector blob in
    if negb (bool_decide (length v = length query_emb)) then None
    else if f32_is_zero (norm v) then None
    else Some (f32_div (dot query_emb v) (f32_mul (norm query_emb) (norm v))).

Definition f32_half : f32 := f32_of_f64 f64_half.

(** One embedding row: skipped, failed, or scored. *)
Definition scored_of_row (query_emb : list f32) (now_ms : Z) (x : note_key * search_row * (list Z * Z)) :
    option (result (string * f32) GradatumError) :=
  let '(k, sr, (blob, dim)) := x in
  raw ← cosine_of query_emb blob dim;
  let cosine := if bool_decide (sn_forgotten sr = 0) then raw
                else f32_mul raw (powf32 f32_half (f32_of_f64 (elapsed_days now_ms (sn_forgotten_at sr)))) in
  Some match ulid_text k.2 with
       | None => Err (Storage "search_semantic ULID parse")
       | Some id => Ok (id, cosine)
       end.

(** The join of [note_embeddings] and [notes]. *)
Definition embedded_rows ix vault (embedder_id : string) (locus : option ustr) :
    list (note_key * search_row * (list Z * Z)) :=
  omap (λ e, let '((k, emb), vec) := e in
             sr ← sn_notes ix !! k;
             if bool_decide (k.1 = vault) && bool_decide (emb = embedder_id)
                && negb (bool_decide (r_status (sn_row sr) = DOWNGRADED))
                && negb (is_sentinel (text_of k.2)) && locus_clause locus (sn_row sr)
             then Some (k, sr, vec) else None)
    (map_to_list (note_embeddings ix)).

Definition search_semantic_inner ix vault (embedder_id : string) (query_emb : list f32) (limit : nat)
    (locus : option ustr) (now_ms : Z) : result (list (string * f32)) GradatumError :=
  if f32_is_zero (norm query_emb) then Ok []
  else
    scored ?<- collect_results (λ r, r) (omap (scored_of_row query_emb now_ms) (embedded_rows ix vault embedder_id locus));
    Ok (take limit (sort_by by_score_desc scored)).

(** ** Batch reads *)

Definition CHUNK_SIZE : nat := 998.

(** The rows of the identifiers, in lots. *)
Definition batch {V} ix vault (ids : list string) (f : index_row → option V) : gmap string V :=
  collect_map (chunks CHUNK_SIZE ids ≫= λ chunk,
    omap (λ id, if is_sentinel (text_of id) then None
                else sr ← sn_notes ix !! (vault, id); v ← f (sn_row sr); Some (id, v)) chunk).

Definition get_titles_sections ix vault (ids : list string) : gmap string (option ustr * ustr) :=
  batch ix vault ids (λ r, Some (r_title r, r_section r)).
Definition get_statuses ix vault (ids : list string) : gmap string ustr :=
  batch ix vault ids (λ r, Some (r_status r)).
(** A row without tags has no entry. *)
Definition get_tags_batch ix vault (ids : list string) : gmap string (list ustr) :=
  batch ix vault ids (λ r, split_whitespace <$> r_tags r).

Definition get_anchor_ms_batch ix vault (ids : list string) : gmap string Z :=
  collect_map (omap (λ id, (λ a, (id, a)) <$> temporal_index ix !! (vault, id)) ids).

Definition backlink_count ix vault (id : string) : Z :=
  Z.of_nat (length (filter (λ l, nl_dst l = id ∧ nl_vault l = vault) (note_links ix))).

Definition get_note_created_and_indegree ix vault (id : string) : result (Z * Z) GradatumError :=
  match sn_notes ix !! (vault, id) with
  | Some sr => Ok (r_created (sn_row sr), backlink_count ix vault id)
  | None =>
      match ulid_text id with
      | Some u => Err (NoteNotFound u)
      | None => Err (Storage "get_note_created_and_indegree: note absent and non-ULID note_id")
      end
  end.

Definition get_note_body ix vault (id : string) : option ustr :=
  if is_sentinel (text_of id) then None else (λ sr, r_body_text (sn_row sr)) <$> sn_notes ix !! (vault, id).
End queries.

(** ** The prefix filter *)

Lemma same_letter_iff c x : same_letter c x = true ↔ ascii_lower c = ascii_lower x.
Proof. unfold same_letter. apply N.eqb_eq. Qed.

Lemma like_percent s : like [PERCENT] s = true.
Proof. induction s as [|x s IH]; [done|exact IH]. Qed.

(** An escaped text matches itself, up to the case of ASCII letters. *)
Lemma like_escaped value rest s :
  like (escape_like value ++ rest) s = true
  ↔ ∃ pre post, s = pre ++ post ∧ ascii_lower <$> pre = ascii_lower <$> value ∧ like rest post = true.
Proof.
  revert s. induction value as [|c value IH]; intros s.
  - cbn. split; [by exists [], s|]. by intros (pre & post & -> & ->%fmap_nil_inv & H).
  - assert (like (escape_like (c :: value) ++ rest) s
            = match s with
              | x :: s' => same_letter c x && like (escape_like value ++ rest) s'
              | [] => false
              end) as ->.
    { unfold escape_like. cbn [mbind list_bind]. case_bool_decide as E; cbn [app like].
      - rewrite N.eqb_refl. by destruct s.
      - assert (c ≠ BACKSLASH ∧ c ≠ PERCENT ∧ c ≠ UNDERSCORE) as (H1 & H2 & H3) by tauto.
        apply N.eqb_neq in H1, H2. rewrite H1, H2. destruct s; [done|].
        by rewrite bool_decide_eq_false_2. }
    destruct s as [|x s].
    + split; [done|]. intros ([|? ?] & post & ? & ? & _); done.
    + rewrite andb_true_iff, IH, same_letter_iff. split.
      * intros [Hc (pre & post & -> & Hp & H)]. exists (x :: pre), post. cbn. by rewrite Hp, Hc.
      * intros ([|y pre] & post & Hs & Hp & H); [done|]. cbn in Hs, Hp. simplify_eq. eauto 6.
Qed.

(** A note is in the scope of a locus filter. *)
Definition under_locus (loc : ustr) (r : index_row) : Prop :=
  ∃ pre post, r_locus r = Some (pre ++ post) ∧ ascii_lower <$> pre = ascii_lower <$> loc.

Lemma locus_clause_exact loc r : locus_clause (Some loc) r = true ↔ under_locus loc r.
Proof.
  unfold locus_clause, under_locus. cbn. destruct (r_locus r) as [l|]; [|naive_solver].
  rewrite like_escaped. split.
  - intros (pre & post & -> & H & _). eauto.
  - intros (pre & post & [= ->] & H). exists pre, post. by rewrite like_percent.
Qed.

(** ** What the searches return *)

(** The identifiers of the table are ULIDs in the form the server prints, apart from the
    sentinels, which no ULID looks like. *)
Definition ids_known {UT : UlidText} (ix : search_index) : Prop :=
  ∀ k sr, sn_notes ix !! k = Some sr →
    ulid_text k.2 = if is_sentinel (text_of k.2) then None else Some k.2.

Section results.
Context {LM : Libm} {FTS : Fts5} {UT : UlidText}.
Implicit Types (ix : search_index) (vault : VaultId).

Lemma batch_Some {V} ix vault ids (f : index_row → option V) i v :
  batch ix vault ids f !! i = Some v →
  i ∈ ids ∧ is_sentinel (text_of i) = false ∧ ∃ sr, sn_notes ix !! (vault, i) = Some sr ∧ f (sn_row sr) = Some v.
Proof.
  intros H%collect_map_Some. apply list_elem_of_bind in H as (chunk & H & Hc).
  apply list_elem_of_omap in H as (j & Hj & H). destruct (is_sentinel (text_of j)) eqn:Es; [done|].
  destruct (sn_notes ix !! (vault, j)) as [sr|] eqn:E; [|done]. cbn in H.
  destruct (f (sn_row sr)) as [w|] eqn:Ef; cbn in H; [|done]. simplify_eq. split_and!; [|done|by eauto].
  rewrite <- (chunks_concat CHUNK_SIZE ids) by (unfold CHUNK_SIZE; lia).
  rewrite list_elem_of_In, in_concat. exists chunk. by rewrite <- !list_elem_of_In.
Qed.

Lemma batch_lookup {V} ix vault ids (f : index_row → option V) i sr v :
  i ∈ ids → is_sentinel (text_of i) = false → sn_notes ix !! (vault, i) = Some sr →
  f (sn_row sr) = Some v → batch ix vault ids f !! i = Some v.
Proof.
  intros Hi Hs Hr Hf. destruct (batch ix vault ids f !! i) as [w|] eqn:E.
  - apply batch_Some in E as (_ & _ & sr' & Hr' & Hf'). by simplify_eq.
  - apply collect_map_None in E. exfalso. apply E, list_elem_of_fmap. exists (i, v). split; [done|].
    rewrite <- (chunks_concat CHUNK_SIZE ids), list_elem_of_In, in_concat in Hi by (unfold CHUNK_SIZE; lia).
    destruct Hi as (chunk & Hc & Hi). apply list_elem_of_In in Hc, Hi. apply list_elem_of_bind.
    exists chunk. split; [|done]. apply list_elem_of_omap. exists i. split; [done|].
    by rewrite Hs, Hr; cbn; rewrite Hf.
Qed.

(** A row that a lexical search returned. *)
Lemma search_fts_sound ix vault q limit dg sec loc st from to now hits h :
  ids_known ix →
  search_fts_with_snippet ix vault q limit dg sec loc st from to now = Ok hits → h ∈ hits →
  ∃ sr, sn_notes ix !! (vault, raw_id h) = Some sr
    ∧ fts_where dg sec loc st (sn_row sr) = true
    ∧ within_bounds from to (temporal_index ix !! (vault, raw_id h)) = true
    ∧ raw_section h = r_section (sn_row sr) ∧ raw_status h = r_status (sn_row sr)
    ∧ is_sentinel (text_of (raw_id h)) = false.
Proof.
  intros Hc. unfold search_fts_with_snippet. destruct (fts_accepts q); [|done]. cbn [negb].
  destruct (collect_results _ _) as [l|] eqn:El; [|done]. cbn. intros [= <-] Hh%elem_of_sort_by.
  apply collect_results_Ok in El. destruct (Forall2_in_r _ _ _ _ El Hh) as ([[k sr] [b snip]] & Hx & Hr).
  apply elem_of_take in Hx as (i & Hx & _). apply list_elem_of_lookup_2 in Hx.
  apply elem_of_sort_by, list_elem_of_omap in Hx as ([k' sr'] & Hin & Hx). cbn in Hx.
  apply elem_of_map_to_list in Hin. destruct k' as [v' i']. case_bool_decide as Ev; [|done].
  cbn in Ev, Hx. subst v'. destruct (_ && _) eqn:Ew; [|done]. apply andb_true_iff in Ew as [Ew1 Ew2].
  destruct (fts_hit ix q (vault, i')) as [[b' snip']|] eqn:Ef; cbn in Hx; [|done]. simplify_eq.
  pose proof (Hc _ _ Hin) as Hu. cbn in Hr, Hu. rewrite Hu in Hr.
  destruct (is_sentinel (text_of i')) eqn:Es; [done|]. simplify_eq. cbn. by exists sr.
Qed.

(** A row that a semantic search returned. *)
Lemma search_semantic_sound ix vault emb q limit loc now hits i s :
  ids_known ix →
  search_semantic_inner ix vault emb q limit loc now = Ok hits → (i, s) ∈ hits →
  ∃ sr, sn_notes ix !! (vault, i) = Some sr
    ∧ r_status (sn_row sr) ≠ DOWNGRADED ∧ locus_clause loc (sn_row sr) = true
    ∧ is_sentinel (text_of i) = false.
Proof.
  intros Hc. unfold search_semantic_inner. destruct (f32_is_zero _); [by intros [= <-] []%not_elem_of_nil|].
  destruct (collect_results _ _) as [l|] eqn:El; [|done]. cbn [result_bind]. intros [= <-] Hh.
  apply elem_of_take in Hh as (j & Hh & _). apply list_elem_of_lookup_2, elem_of_sort_by in Hh.
  apply collect_results_Ok in El. destruct (Forall2_in_r _ _ _ _ El Hh) as (x & Hx & Hr). subst x.
  apply list_elem_of_omap in Hx as ([[k sr] [blob dim]] & Hx & Hs). cbn in Hs.
  destruct (cosine_of q blob dim); [|done]. cbn in Hs.
  apply list_elem_of_omap in Hx as ([[k' emb'] vec] & _ & Hx).
  destruct (sn_notes ix !! k') as [sr'|] eqn:Ek; [|done]. cbn in Hx.
  destruct (_ && locus_clause _ _) eqn:Ew; [|done]. simplify_eq. reflect_bools.
  rewrite (Hc _ _ Ek) in Hs. destruct (is_sentinel (text_of k.2)) eqn:Es; [done|].
  simplify_eq. rewrite <- surjective_pairing. by exists sr.
Qed.

Lemma anchor_batch_Some ix vault ids i a :
  get_anchor_ms_batch ix vault ids !! i = Some a → temporal_index ix !! (vault, i) = Some a.
Proof.
  intros H%collect_map_Some. apply list_elem_of_omap in H as (j & _ & H).
  destruct (temporal_index ix !! (vault, j)) eqn:E; cbn in H; by simplify_eq.
Qed.
End results.
