(* ===== verification/SearchServer.v ===== *)
(** * SearchServer: [POST /api/v1/vault_search]

    [vault_search_impl] of [crates/gradatum-server/src/api_v1/logic.rs] with the helpers of
    [handlers.rs] it calls: checking the request, running the lexical and semantic arms of
    SearchIndex.v, filtering, fusing (RankFusion.v), scoring, reranking, and the two guards
    that withhold rows from the answer, on one vault; then [vault_search_multivault] with the
    vault-qualified keys it fuses on, and the handler itself.

    Every read of the index may fail: [index_fails] says which calls do, so that the
    handler's degradations and its fail-closed paths are part of the model.  The embedder
    and the reranker are fields of the state; the clock is read once per call site.  Log
    lines are not modelled. *)

From S2P Require Import Prelude Job Text Scope Acl Registry TenantGuard Notes ProjectServer NoteStore Float RankFusion SearchIndex.
From Stdlib Require Import Ascii SpecFloat.

#[local] Open Scope Z_scope.

(** ** Requests and responses *)

Record VaultSearchRequest := mkSearchRequest {
  rq_tenant_id : option TenantId;
  rq_query : ustr;
  rq_section : option ustr;
  rq_status : option ustr;
  rq_limit : option Z;
  rq_include_downgraded : bool;
  rq_locus : option ustr;
  rq_vault_id : option VaultId;
  rq_vault_ids : option (list string);
  rq_all_readable : bool;
  rq_include_scores : bool;
  rq_include_corpus_count : bool;
  rq_from_ms : option Z;
  rq_to_ms : option Z;
}.

Record ScoreBreakdown := mkBreakdown {
  sb_rrf_score : f64;
  sb_recency_factor : f64;
  sb_pagerank_factor : f64;
  sb_in_degree : Z;
  sb_trust_raw : option f32;
  sb_trust_decayed : option f64;
  sb_composite : f64;
  sb_bm25_rank : option Z;
  sb_sem_rank : option Z;
  sb_salience_weighted_sum : option f64;
  sb_salience_factor : option f64;
}.

Record SearchHit := mkSearchHit {
  sh_vault_id : VaultId;
  sh_path : string;
  sh_score : f32;
  sh_title : option ustr;
  sh_snippet : option ustr;
  sh_trust : f32;
  sh_status : ustr;
  sh_scores : option ScoreBreakdown;
  sh_anchor_ms : option Z;
}.

Record VaultSearchResponse := mkSearchResponse {
  items : list SearchHit;
  corpus_match_count : option Z;
  corpus_count_capped : bool;
}.
Definition empty_response : VaultSearchResponse := mkSearchResponse [] None false.

(** ** Usage *)

Definition KIND_SEARCH_HIT : ustr := lit "search-hit".
Definition KIND_SEARCH_HIT_TOP3 : ustr := lit "search-hit-top3".

Abbreviation usage_key := (VaultId * string * ustr)%type.

(** The counters of the read paths and the per-note accumulators. *)
Record UsageState := mkUsageState {
  searches : Z;
  note_usage : gmap usage_key (Z * Z);
}.

(** [NoteUsageAccumulators::record]. *)
Definition record_usage (vault : VaultId) (note : string) (kind : ustr) (now_ms : Z) (u : UsageState) : UsageState :=
  let '(count, last) := default (0, now_ms) (note_usage u !! (vault, note, kind)) in
  mkUsageState (searches u)
    (<[(vault, note, kind) := (Z.min (count + 1) u64_max, Z.max last now_ms)]> (note_usage u)).

Definition count_search (u : UsageState) : UsageState :=
  mkUsageState ((searches u + 1) `mod` 2 ^ 64) (note_usage u).

(** [item.path.rsplit('/').next()]. *)
Definition path_note (path : string) : option string := last (segments path).

(** One record per result, one more for each of the first three. *)
Definition record_item (now_ms : Z) (u : UsageState) (ranked : nat * SearchHit) : UsageState :=
  match path_note (sh_path ranked.2) with
  | None => u
  | Some note =>
      let vault := sh_vault_id ranked.2 in
      let u := record_usage vault note KIND_SEARCH_HIT now_ms u in
      if (ranked.1 <? 3)%nat then record_usage vault note KIND_SEARCH_HIT_TOP3 now_ms u else u
  end.
Definition record_items (now_ms : Z) (hits : list SearchHit) (u : UsageState) : UsageState :=
  foldl (record_item now_ms) u (imap pair hits).

(** [NoteUsageStore::counts_for_notes]. *)
Definition counts_for_notes (table : gmap usage_key Z) (vault : VaultId) (ids : list string) :
    gmap string (list (ustr * Z)) :=
  foldl (λ m '((v, note, kind), count),
           if bool_decide (v = vault) && bool_decide (note ∈ ids)
           then <[note := default [] (m !! note) ++ [(kind, count)]]> m else m)
    ∅ (map_to_list table).

(** ** Checking the request *)

Definition validated_section (section : option ustr) : result unit GradatumError :=
  match section with
  | None => Ok tt
  | Some s => match from_canonical_str s with
              | Some _ => Ok tt
              | None => Err (InvalidInput (UnknownSection (native (take 64 s))))
              end
  end.

Definition SEARCH_STATUS_ALLOWED : list ustr :=
  lit <$> ["draft"; "staging"; "pending-review"; "live"; "deprecated"; "garbage"; "downgraded"].

Definition validate_search_status (status : option ustr) : result (option ustr) unit :=
  match status with
  | None => Ok None
  | Some raw => let s := trim raw in
                if bool_decide (s ∈ SEARCH_STATUS_ALLOWED) then Ok (Some s) else Err tt
  end.

Definition status_filter_of (req : VaultSearchRequest) : result (option ustr) GradatumError :=
  map_err (λ _, InvalidInput InvalidStatusFilter) (validate_search_status (rq_status req)).

Definition bounds_reversed (from_ms to_ms : option Z) : bool :=
  match from_ms, to_ms with Some f, Some t => t <? f | _, _ => false end.

Definition IDENTITY_SECTION : ustr := lit "identity".
Definition IDENTITY_WRITE_SCOPE : string := "identity_write".
Definition PERSONAL_CLASSIFIED_TAG : string := "personal-classified".

Definition is_identity_privileged (trust : TrustContext) : bool :=
  match trust with Studio _ _ _ => true | _ => has_scope trust IDENTITY_WRITE_SCOPE end.
Definition identity_section_hidden (identity_privileged : bool) (section : ustr) : bool :=
  negb identity_privileged && (bool_decide (section = IDENTITY_SECTION) || bool_decide (section = [])).

(** [req.limit.unwrap_or(10).clamp(1, 50)]. *)
Definition limit_of (req : VaultSearchRequest) : nat :=
  Z.to_nat (Z.max 1 (Z.min 50 (default 10 (rq_limit req)))).
Definition rrf_buffer (limit : nat) : nat := Nat.max 20 (Nat.min 200 (limit * 4)).
Definition K_RRF : f64 := f64_of_Z 60.

(** ** The full-text query *)

(** [char::is_alphanumeric], from the tables of Unicode. *)
Class UnicodeTables := is_alphanumeric : uchar → bool.

Definition DQUOTE : uchar := 34%N.
Definition APOSTROPHE : uchar := 39%N.
Definition SPACE : uchar := 32%N.

Section fts_text.
Context {UN : UnicodeTables}.

Definition is_safe (c : uchar) : bool := is_alphanumeric c || (c =? UNDERSCORE)%N.

(** [token.to_uppercase()] is one of the four words; no other letter has one of their
    letters as its capital. *)
Definition is_fts_keyword (token : ustr) : bool :=
  bool_decide (to_ascii_lowercase token ∈ (lit <$> ["and"; "or"; "not"; "near"])).

Definition quote_fts_token (token : ustr) : ustr :=
  if negb (is_fts_keyword token) && forallb is_safe token then token
  else [DQUOTE] ++ (token ≫= λ c, if bool_decide (c = DQUOTE ∨ c = APOSTROPHE) then [c; c] else [c])
       ++ [DQUOTE].

Definition build_fts_query (query : ustr) : ustr :=
  join [SPACE] (quote_fts_token <$> split_whitespace query).
End fts_text.

(** ** Filters of the semantic arm *)

Section filters.
Context (semantic_hits : list (string * f32)).

Definition filter_semantic_by_section (wanted_section : ustr)
    (sec_result : result (gmap string (option ustr * ustr)) GradatumError) : list (string * f32) :=
  match sec_result with
  | Ok sec_map =>
      List.filter (λ h, match sec_map !! h.1 with Some (_, sec) => bool_decide (sec = wanted_section)
                                               | None => false end) semantic_hits
  | Err _ => []
  end.

Definition filter_semantic_excluding_sections (excluded : ustr → bool)
    (sec_result : result (gmap string (option ustr * ustr)) GradatumError) : list (string * f32) :=
  match sec_result with
  | Ok sec_map =>
      List.filter (λ h, match sec_map !! h.1 with Some (_, sec) => negb (excluded sec)
                                               | None => false end) semantic_hits
  | Err _ => []
  end.

Definition filter_semantic_by_status (wanted_status : ustr)
    (status_result : result (gmap string ustr) GradatumError) : list (string * f32) :=
  match status_result with
  | Ok status_map =>
      List.filter (λ h, match status_map !! h.1 with Some st => bool_decide (st = wanted_status)
                                                  | None => false end) semantic_hits
  | Err _ => []
  end.

(** The retention by temporal bounds. *)
Definition retain_anchored (from_ms to_ms : option Z) (anchors : gmap string Z) : list (string * f32) :=
  List.filter (λ h, match anchors !! h.1 with
                    | None => false
                    | Some ms => unless_null from_ms (λ f, f <=? ms) && unless_null to_ms (λ t, ms <=? t)
                    end) semantic_hits.
End filters.

(** ** The state of the server *)

Record Embedder := mkEmbedder {
  emb_noop : bool;
  embedder_id : string;
  embed : ustr → result (list f32) string;
  embed_batch : list ustr → result (list (list f32)) string;
}.
Record Reranker := mkReranker {
  max_batch_size : Z;
  requires_body : bool;
  rerank : ustr → list (string * ustr) → result (list f32) string;
}.

(** The reads of the index that a search or the assembly of a context makes, by what they
    are for. *)
Inductive index_call :=
| CallFts (v : VaultId) | CallSemantic (v : VaultId)
| CallSectionFilter (v : VaultId) | CallExclusion (v : VaultId) | CallStatusFilter (v : VaultId)
| CallAnchors (v : VaultId) | CallMissingSections (v : VaultId) | CallUsage (v : VaultId)
| CallCreated (v : VaultId) (id : string) | CallBody (id : string)
| CallTitles (v : VaultId) | CallStatuses (v : VaultId) | CallTags (v : VaultId)
| CallCount (v : VaultId)
| CallNote (v : VaultId) (id : string) | CallBacklinks (v : VaultId) (id : string) | CallList (v : VaultId).
Class IndexFaults := index_fails : index_call → bool.

(** The instants at which the code reads the clock. *)
Record Clock := mkClockReads {
  fts_now : VaultId → Z;
  sem_now : VaultId → Z;
  score_now : Z;
  usage_now : Z;
}.

Definition attempt {IF : IndexFaults} {A} (c : index_call) (r : result A GradatumError) :
    result A GradatumError :=
  if index_fails c then Err (Storage "index") else r.

(** [unwrap_or_default] and the [unwrap_or_else] arms that log and go on. *)
Definition or_empty {A} `{Empty A} {E} (r : result A E) : A := match r with Ok a => a | Err _ => ∅ end.

(** A hit, its composite score and its breakdown. *)
Abbreviation scored_hit := (RrfHit * f64 * ScoreBreakdown)%type.

(** [PrivacyReadGuard]: one verdict per vault, kept once it is known. *)
Abbreviation verdicts := (gmap VaultId bool).

Section server.
Context {LM : Libm} {FTS : Fts5} {UT : UlidText} {UN : UnicodeTables} {IF : IndexFaults}.
Context {GS : Globset} {St : Type} {IS : IndexStore St}.

Record SearchState := mkSearchState {
  ss_app : AppState (St := St);
  ss_index : search_index;
  ss_embedder : Embedder;
  ss_reranker : Reranker;
  ss_scoring : TrustDecayConfig;
  ss_salience : option SalienceParams;
  ss_salience_per_vault : gmap VaultId (option SalienceParams);
  ss_note_usage : option (gmap usage_key Z);
}.
Implicit Types (st : SearchState) (trust : TrustContext) (req : VaultSearchRequest).

(** ** The arms *)

Definition lexical_arm st req (ck : Clock) (status : option ustr) (vault : VaultId) :
    result (list SearchHitRaw) GradatumError :=
  hits ?<- attempt (CallFts vault)
             (search_fts_with_snippet (ss_index st) vault (build_fts_query (trim (rq_query req)))
                (limit_of req * 2) (rq_include_downgraded req) (rq_section req) (rq_locus req) status
                (rq_from_ms req) (rq_to_ms req) (fts_now ck vault));
  Ok match rq_section req with
     | None => List.filter (λ h, negb (excluded_by_default (raw_section h))) hits
     | Some _ => hits
     end.

Definition hybrid st : bool := negb (emb_noop (ss_embedder st)).

(** The query is embedded when an embedder is active; a failure leaves the lexical arm. *)
Definition query_embedding st req : option (list f32) :=
  if emb_noop (ss_embedder st) then None
  else match embed (ss_embedder st) (trim (rq_query req)) with Ok e => Some e | Err _ => None end.

(** The semantic hits after the four filters, and the anchors read for them. *)
Definition semantic_arm st req (ck : Clock) (status : option ustr) (emb : option (list f32))
    (vault : VaultId) : list (string * f32) * gmap string Z :=
  let ix := ss_index st in
  let found := match emb with
               | Some e =>
                   match attempt (CallSemantic vault)
                           (search_semantic_inner ix vault (embedder_id (ss_embedder st)) e
                              (limit_of req * 2) (rq_locus req) (sem_now ck vault)) with
                   | Ok hits => hits
                   | Err _ => []
                   end
               | None => []
               end in
  let sectioned :=
    match rq_section req with
    | Some wanted =>
        if bool_decide (found = []) then found
        else filter_semantic_by_section found wanted
               (attempt (CallSectionFilter vault) (Ok (get_titles_sections ix vault found.*1)))
    | None =>
        if bool_decide (found = []) then found
        else filter_semantic_excluding_sections found excluded_by_default
               (attempt (CallExclusion vault) (Ok (get_titles_sections ix vault found.*1)))
    end in
  let statused :=
    match status with
    | Some wanted =>
        if bool_decide (sectioned = []) then sectioned
        else filter_semantic_by_status sectioned wanted
               (attempt (CallStatusFilter vault) (Ok (get_statuses ix vault sectioned.*1)))
    | None => sectioned
    end in
  if bool_decide (statused = []) then ([], ∅)
  else
    let anchors := or_empty (attempt (CallAnchors vault) (Ok (get_anchor_ms_batch ix vault statused.*1))) in
    let bounds_active := bool_decide (is_Some (rq_from_ms req)) || bool_decide (is_Some (rq_to_ms req)) in
    (if bounds_active then retain_anchored statused (rq_from_ms req) (rq_to_ms req) anchors
     else statused, anchors).

Definition run_fusion st (bm25 : list (string * f64)) (sem : list (string * f32)) (limit : nat) :
    list RrfHit :=
  if hybrid st then rrf_fuse_short_circuit bm25 sem K_RRF limit else rrf_fuse bm25 sem K_RRF limit.

(** ** Completing the hits *)

(** [t.filter(|s| !s.trim().is_empty())]. *)
Definition not_blank (t : option ustr) : option ustr :=
  s ← t; if bool_decide (trim s = []) then None else Some s.

Definition enrich (bm25_map : gmap string SearchHitRaw) (sem_anchor : gmap string Z) (h : RrfHit) :
    RrfHit :=
  match bm25_map !! note_id h with
  | Some bh =>
      mkHit (note_id h) (rrf_score h) (raw_section bh) (Some (raw_snippet bh))
        (not_blank (raw_title bh)) (is_semantic_only h) (bm25_rank h) (sem_rank h)
        (raw_status bh) (raw_anchor_ms bh)
  | None =>
      match h_anchor_ms h with
      | Some _ => h
      | None =>
          mkHit (note_id h) (rrf_score h) (h_section h) (snippet h) (h_title h) (is_semantic_only h)
            (bm25_rank h) (sem_rank h) (h_status h) (sem_anchor !! note_id h)
      end
  end.

Definition with_section (s : ustr) (h : RrfHit) : RrfHit :=
  mkHit (note_id h) (rrf_score h) s (snippet h) (h_title h) (is_semantic_only h)
    (bm25_rank h) (sem_rank h) (h_status h) (h_anchor_ms h).

Definition fill_section (sections : gmap string (option ustr * ustr)) (h : RrfHit) : RrfHit :=
  if bool_decide (h_section h = []) then
    match sections !! note_id h with Some (_, s) => with_section s h | None => h end
  else h.

(** The sections of the hits that have none, for scoring. *)
Definition fill_missing_sections st (vault : VaultId) (hits : list RrfHit) : list RrfHit :=
  let missing := note_id <$> filter (λ h, h_section h = []) hits in
  if bool_decide (missing = []) then hits
  else
    let sections := or_empty (attempt (CallMissingSections vault)
                                (Ok (get_titles_sections (ss_index st) vault missing))) in
    fill_section sections <$> hits.

(** ** Scoring *)

Definition salience_counts st (vault : VaultId) (ids : list string) : gmap string (list (ustr * Z)) :=
  match ss_salience st, ss_note_usage st with
  | Some _, Some table => or_empty (attempt (CallUsage vault) (Ok (counts_for_notes table vault ids)))
  | _, _ => ∅
  end.

Definition effective_salience st (vault : VaultId) : option SalienceParams :=
  global ← ss_salience st;
  match ss_salience_per_vault st !! vault with
  | Some entry => entry
  | None => Some global
  end.

(** The creation date and the links of a note; an absent note counts as new and unlinked. *)
Definition created_and_links st (ck : Clock) (vault : VaultId) (id : string) :
    result (Z * Z) GradatumError :=
  match attempt (CallCreated vault id) (get_note_created_and_indegree (ss_index st) vault id) with
  | Ok v => Ok v
  | Err (NoteNotFound _) => Ok (score_now ck, 0)
  | Err e => Err e
  end.

(** The composite score of a hit and its breakdown. *)
Definition score_hit st (ck : Clock) (vault : VaultId) (counts : gmap string (list (ustr * Z)))
    (created_ms in_degree : Z) (h : RrfHit) : f64 * ScoreBreakdown :=
  let now_ms := score_now ck in
  let recency := recency_factor (default created_ms (h_anchor_ms h)) now_ms in
  let pagerank := pagerank_factor in_degree in
  let tp := if td_enabled (ss_scoring st) then
              let age_days := f64_div (f64_of_Z (Z.max (now_ms - created_ms) 0)) MS_PER_DAY in
              resolve_for_section (ss_scoring st) (h_section h) age_days
            else None in
  let composite_base := composite_score_with_trust (rrf_score h) recency pagerank tp in
  let salience := effective_salience st vault in
  let '(composite, ws) :=
    match salience with
    | Some params =>
        let ws := match counts !! note_id h with
                  | Some c => salience_weighted_sum c (kind_weights params)
                  | None => f64_zero
                  end in
        (apply_salience composite_base ws params, ws)
    | None => (composite_base, f64_zero)
    end in
  (composite,
   mkBreakdown (rrf_score h) recency pagerank in_degree
     ((λ t, f32_of_f64 t.1.1) <$> tp) ((λ t, trust_decay_factor t.1.1 t.1.2 t.2) <$> tp)
     composite (bm25_rank h) (sem_rank h) ((λ _, ws) <$> salience)
     ((λ p, salience_factor ws (k_norm p)) <$> salience)).

Definition score_hits st (ck : Clock) (tenant read_vault : VaultId) (hits : list RrfHit) :
    result (list scored_hit) GradatumError :=
  let counts := salience_counts st read_vault (note_id <$> hits) in
  collect_results (λ h,
    cl ?<- created_and_links st ck tenant (note_id h);
    let '(composite, b) := score_hit st ck read_vault counts cl.1 cl.2 h in
    Ok (h, composite, b)) hits.

Definition by_composite_desc (a b : scored_hit) : comparison := cmp_f64 b.1.2 a.1.2.

(** ** Reranking *)

(** [1.0 - (i as f32) / (n as f32 + 1.0)]. *)
Definition fallback_scores (n : nat) : list f32 :=
  (λ i, f32_sub (f32_of_Z 1)
          (f32_div (f32_of_Z (Z.of_nat i)) (f32_add (f32_of_Z (Z.of_nat n)) (f32_of_Z 1)))) <$> seq 0 n.

Definition rerank_hits st req (tenant : VaultId) (limit : nat) (hits : list scored_hit) :
    list (RrfHit * ScoreBreakdown * f32) :=
  let rr := ss_reranker st in
  let rerank_n := Z.to_nat (Z.min (max_batch_size rr) 20) in
  if requires_body rr && negb (bool_decide (hits = [])) && (0 <? rerank_n)%nat then
    let top := take rerank_n hits in
    let candidates := (λ h : scored_hit,
      (note_id h.1.1,
       match attempt (CallBody (note_id h.1.1)) (Ok (get_note_body (ss_index st) tenant (note_id h.1.1))) with
       | Ok (Some body) => body
       | _ => []
       end)) <$> top in
    let scores := match rerank rr (trim (rq_query req)) candidates with
                  | Ok s => s
                  | Err _ => fallback_scores (length top)
                  end in
    take limit (sort_by by_score_desc (zip ((λ h : scored_hit, (h.1.1, h.2)) <$> top) scores))
  else (λ h : scored_hit, (h.1.1, h.2, f32_of_f64 h.1.2)) <$> take limit hits.

(** ** The guard on classified notes *)

Definition allows st trust (vault : VaultId) (g : verdicts) : bool * verdicts :=
  match g !! vault with
  | Some verdict => (verdict, g)
  | None =>
      let verdict := bool_decide (evaluate (acl (ss_app st)) trust AclRead
                                    (vault +:+ "/" +:+ PERSONAL_CLASSIFIED_TAG) = Allow) in
      (verdict, <[vault := verdict]> g)
  end.

Definition hidden_ids st trust (vault : VaultId) (ids : list string) (g : verdicts) :
    result (gset string) GradatumError * verdicts :=
  if bool_decide (ids = []) then (Ok ∅, g)
  else
    let '(allowed, g) := allows st trust vault g in
    if allowed then (Ok ∅, g)
    else
      (match attempt (CallTags vault) (Ok (get_tags_batch (ss_index st) vault ids)) with
       | Ok tags => Ok (dom (filter (λ kv : string * list ustr, lit PERSONAL_CLASSIFIED_TAG ∈ kv.2) tags))
       | Err e => Err e
       end, g).

(** ** The answer *)

Section answer.
Context (trust : TrustContext) (req : VaultSearchRequest).
Context (titles : gmap string (option ustr * ustr)) (statuses : gmap string ustr).
Context (sem_anchor : gmap string Z) (hidden : gset string).

(** The closure over the ranked hits: [None] withholds the hit.  [address] is the vault
    and the note of a hit. *)
Definition render_item (address : string → option (VaultId * string)) (final : RrfHit * ScoreBreakdown * f32) :
    option SearchHit :=
  let '(h, breakdown, score) := final in
  '(vault, note) ← address (note_id h);
  let fetched := titles !! note_id h in
  let title := match h_title h with
               | Some t => Some t
               | None => fetched ≫= λ ts, not_blank ts.1
               end in
  let section := if bool_decide (h_section h = []) then from_option snd [] fetched else h_section h in
  if identity_section_hidden (is_identity_privileged trust) section then None
  else if bool_decide (note_id h ∈ hidden) then None
  else
    let status := if bool_decide (h_status h = []) then default [] (statuses !! note_id h) else h_status h in
    let anchor := match h_anchor_ms h with
                  | Some a => Some a
                  | None => if is_semantic_only h then sem_anchor !! note_id h else None
                  end in
    let shown := if bool_decide (section = []) then lit "main" else section in
    Some (mkSearchHit vault (native shown +:+ "/" +:+ note) score title (snippet h)
            (f32_of_f64 f64_half) status
            (if rq_include_scores req then Some breakdown else None) anchor).
End answer.

Definition corpus_count st req (status : option ustr) (vault : VaultId) : result (Z * bool) GradatumError :=
  attempt (CallCount vault)
    (count_fts_matches (ss_index st) vault (build_fts_query (trim (rq_query req)))
       (rq_include_downgraded req) (rq_section req) (rq_locus req) status).

(** ** One vault *)

(** From the checked vault to the response. *)
Definition search_one_vault st trust req (ck : Clock) (status : option ustr) (tenant read_vault : VaultId) :
    result VaultSearchResponse GradatumError :=
  let limit := limit_of req in
  bm25_hits ?<- lexical_arm st req ck status read_vault;
  let '(semantic_hits, sem_anchor) :=
    semantic_arm st req ck status (query_embedding st req) read_vault in
  let bm25_map := collect_map ((λ h, (raw_id h, h)) <$> bm25_hits) in
  let fused := run_fusion st ((λ h, (raw_id h, raw_bm25 h)) <$> bm25_hits) semantic_hits (rrf_buffer limit) in
  let hits := fill_missing_sections st read_vault (enrich bm25_map sem_anchor <$> fused) in
  scored ?<- score_hits st ck tenant read_vault hits;
  let final := rerank_hits st req tenant limit (sort_by by_composite_desc scored) in
  let sem_only := (λ f, note_id f.1.1) <$> filter (λ f, is_semantic_only f.1.1 = true) final in
  let titles :=
    if bool_decide (sem_only = []) then ∅
    else or_empty (attempt (CallTitles read_vault)
                     (Ok (get_titles_sections (ss_index st) read_vault sem_only))) in
  let statuses :=
    if bool_decide (sem_only = []) then ∅
    else or_empty (attempt (CallStatuses read_vault) (Ok (get_statuses (ss_index st) read_vault sem_only))) in
  hidden ?<- (hidden_ids st trust read_vault ((λ f, note_id f.1.1) <$> final) ∅).1;
  let out := omap (render_item trust req titles statuses sem_anchor hidden (λ id, Some (read_vault, id))) final in
  let '(count, capped) :=
    if rq_include_corpus_count req then
      match corpus_count st req status read_vault with
      | Ok (c, cap) => (Some (Z.max 0 (c - Z.of_nat (size hidden))), cap)
      | Err _ => (None, false)
      end
    else (None, false) in
  Ok (mkSearchResponse out count capped).
End server.

(** ** Searching several vaults, and the handler *)

(** ** Vault-qualified keys *)

Definition MULTIVAULT_KEY_SEP : ascii := ascii_of_nat 1.

Definition compose_multivault_key (vault note : string) : string :=
  vault +:+ String MULTIVAULT_KEY_SEP note.

(** [key.split_once(sep)]. *)
Fixpoint decompose_multivault_key (key : string) : option (string * string) :=
  match key with
  | EmptyString => None
  | String c rest =>
      if Ascii.eqb c MULTIVAULT_KEY_SEP then Some (EmptyString, rest)
      else '(v, n) ← decompose_multivault_key rest; Some (String c v, n)
  end.

(** The notes of a vault among some keys. *)
Definition notes_of_vault (vault : VaultId) (keys : list string) : list string :=
  omap (λ k, '(v, n) ← decompose_multivault_key k; if bool_decide (v = vault) then Some n else None) keys.

(** Keys for the entries of a map of one vault. *)
Definition qualify {V} (vault : VaultId) (m : gmap string V) : list (string * V) :=
  (λ kv, (compose_multivault_key vault kv.1, kv.2)) <$> map_to_list m.

(** ** Global fusion *)

Definition fuse_multivault (bm25_by_vault : list (VaultId * list (string * f64)))
    (semantic_by_vault : list (VaultId * list (string * f32))) (hybrid : bool) (k : f64) (limit : nat) :
    list RrfHit :=
  let bm25_global :=
    sort_by (λ a b, cmp_f64 a.2 b.2)
      (bm25_by_vault ≫= λ '(vault, hits), (λ h, (compose_multivault_key vault h.1, h.2)) <$> hits) in
  let sem_global :=
    sort_by by_score_desc
      (semantic_by_vault ≫= λ '(vault, hits), (λ h, (compose_multivault_key vault h.1, h.2)) <$> hits) in
  if hybrid then rrf_fuse_short_circuit bm25_global sem_global k limit
  else rrf_fuse bm25_global sem_global k limit.

Section server.
Context {LM : Libm} {FTS : Fts5} {UT : UlidText} {UN : UnicodeTables} {IF : IndexFaults}.
Context {GS : Globset} {St : Type} {IS : IndexStore St}.
Implicit Types (st : SearchState (St := St)) (trust : TrustContext) (req : VaultSearchRequest).

(** What the loop over the vaults collects for one of them. *)
Record vault_part := mkPart {
  vp_vault : VaultId;
  vp_raw : list SearchHitRaw;
  vp_sem : list (string * f32);
  vp_anchors : gmap string Z;
}.

Definition read_vault_part st req (ck : Clock) (status : option ustr) (emb : option (list f32))
    (vault : VaultId) : result vault_part GradatumError :=
  raw ?<- lexical_arm st req ck status vault;
  let '(sem, anchors) := semantic_arm st req ck status emb vault in
  Ok (mkPart vault raw sem anchors).

Definition bm25_of_part (p : vault_part) : VaultId * list (string * f64) :=
  (vp_vault p, (λ h, (raw_id h, raw_bm25 h)) <$> vp_raw p).
Definition sem_of_part (p : vault_part) : VaultId * list (string * f32) := (vp_vault p, vp_sem p).

(** [bm25_raw] and [sem_anchor], on qualified keys. *)
Definition raw_of_parts (parts : list vault_part) : gmap string SearchHitRaw :=
  collect_map (parts ≫= λ p, (λ h, (compose_multivault_key (vp_vault p) (raw_id h), h)) <$> vp_raw p).
Definition anchors_of_parts (parts : list vault_part) : gmap string Z :=
  collect_map (parts ≫= λ p,
    omap (λ h : string * f32, (λ ms, (compose_multivault_key (vp_vault p) h.1, ms)) <$> vp_anchors p !! h.1)
      (vp_sem p)).

(** The sections of the hits that have none, a vault at a time. *)
Definition fill_vault_sections st (missing : list string) (hits : list RrfHit) (vault : VaultId) :
    list RrfHit :=
  let ids := notes_of_vault vault missing in
  if bool_decide (ids = []) then hits
  else
    let sections := or_empty (attempt (CallMissingSections vault)
                                (Ok (get_titles_sections (ss_index st) vault ids))) in
    (λ h, if bool_decide (h_section h = []) then
            match decompose_multivault_key (note_id h) with
            | Some (v, n) =>
                if bool_decide (v = vault) then
                  match sections !! n with Some (_, s) => with_section s h | None => h end
                else h
            | None => h
            end
          else h) <$> hits.

Definition fill_all_sections st (vaults : list VaultId) (hits : list RrfHit) : list RrfHit :=
  let missing := note_id <$> filter (λ h, h_section h = []) hits in
  if bool_decide (missing = []) then hits else foldl (fill_vault_sections st missing) hits vaults.

Definition multi_counts st (vaults : list VaultId) (keys : list string) : gmap string (list (ustr * Z)) :=
  collect_map (vaults ≫= λ vault,
    let ids := notes_of_vault vault keys in
    if bool_decide (ids = []) then [] else qualify vault (salience_counts st vault ids)).

(** Scoring: a key that is not qualified is skipped. *)
Definition score_multi st (ck : Clock) (counts : gmap string (list (ustr * Z))) (h : RrfHit) :
    result (option scored_hit) GradatumError :=
  match decompose_multivault_key (note_id h) with
  | None => Ok None
  | Some (vault, note) =>
      cl ?<- created_and_links st ck vault note;
      let '(composite, b) := score_hit st ck vault counts cl.1 cl.2 h in
      Ok (Some (h, composite, b))
  end.

(** A batch read of each vault, on qualified keys. *)
Definition multi_batch {V} (vaults : list VaultId) (keys : list string)
    (read : VaultId → list string → result (gmap string V) GradatumError) : gmap string V :=
  collect_map (vaults ≫= λ vault,
    let ids := notes_of_vault vault keys in
    if bool_decide (ids = []) then []
    else match read vault ids with Ok m => qualify vault m | Err _ => [] end).

(** [by_vault.entry(vault).or_default().push(note)]. *)
Definition group_by_vault (keys : list string) : gmap VaultId (list string) :=
  foldl (λ m key, match decompose_multivault_key key with
                  | Some (vault, note) => <[vault := default [] (m !! vault) ++ [note]]> m
                  | None => m
                  end) ∅ keys.

Fixpoint hide_groups st trust (groups : list (VaultId * list string)) (g : verdicts) (hidden : gset string) :
    result (gset string) GradatumError :=
  match groups with
  | [] => Ok hidden
  | (vault, notes) :: groups' =>
      let '(r, g') := hidden_ids st trust vault notes g in
      match r with
      | Err e => Err e
      | Ok ids => hide_groups st trust groups' g' (hidden ∪ set_map (compose_multivault_key vault) ids)
      end
  end.
Definition hidden_composite_ids st trust (keys : list string) : result (gset string) GradatumError :=
  hide_groups st trust (map_to_list (group_by_vault keys)) ∅ ∅.

(** The sum of the counts of the vaults that could be counted. *)
Definition multi_count st req (status : option ustr) (vaults : list VaultId) : Z * bool :=
  foldl (λ acc vault, match corpus_count st req status vault with
                      | Ok (c, cap) => (Z.min (acc.1 + c) u64_max, acc.2 || cap)
                      | Err _ => acc
                      end) (0, false) vaults.

Definition search_vaults st trust req (ck : Clock) (status : option ustr) (vaults : list VaultId) :
    result VaultSearchResponse GradatumError :=
  let limit := limit_of req in
  let emb := query_embedding st req in
  parts ?<- collect_results (read_vault_part st req ck status emb) vaults;
  let fused := fuse_multivault (bm25_of_part <$> parts) (sem_of_part <$> parts) (hybrid st) K_RRF
                 (rrf_buffer limit) in
  let hits := fill_all_sections st vaults
                (enrich (raw_of_parts parts) (anchors_of_parts parts) <$> fused) in
  let counts := multi_counts st vaults (note_id <$> hits) in
  scored ?<- collect_results (score_multi st ck counts) hits;
  let final := (λ h : scored_hit, (h.1.1, h.2, f32_of_f64 h.1.2))
                 <$> take limit (sort_by by_composite_desc (omap (λ x, x) scored)) in
  let sem_only := (λ f, note_id f.1.1) <$> filter (λ f, is_semantic_only f.1.1 = true) final in
  let titles := multi_batch vaults sem_only (λ v ids,
                  attempt (CallTitles v) (Ok (get_titles_sections (ss_index st) v ids))) in
  let statuses := multi_batch vaults sem_only (λ v ids,
                    attempt (CallStatuses v) (Ok (get_statuses (ss_index st) v ids))) in
  hidden ?<- hidden_composite_ids st trust ((λ f, note_id f.1.1) <$> final);
  let out := omap (render_item trust req titles statuses ∅ hidden decompose_multivault_key) final in
  let '(count, capped) :=
    if rq_include_corpus_count req then
      let '(total, cap) := multi_count st req status vaults in
      (Some (Z.max 0 (total - Z.of_nat (size hidden))), cap)
    else (None, false) in
  Ok (mkSearchResponse out count capped).

Definition vault_search_multivault st trust req (ck : Clock) (vaults : list VaultId) :
    result VaultSearchResponse GradatumError :=
  status ?<- status_filter_of req;
  if bounds_reversed (rq_from_ms req) (rq_to_ms req) then Err (InvalidInput BoundsReversed)
  else if bool_decide (trim (rq_query req) = []) || bool_decide (vaults = []) then Ok empty_response
  else search_vaults st trust req ck status vaults.

(** ** The handler *)

Definition opt_in_multivault req : bool := bool_decide (is_Some (rq_vault_ids req)) || rq_all_readable req.

(** The vault that a request for one vault reads. *)
Definition read_vault_of st trust req (tenant : TenantId) : result VaultId GradatumError :=
  let section := native <$> rq_section req in
  if multi_tenant_enabled (ss_app st) then
    checked ?<- effective_read_vault (ss_app st) trust tenant (rq_vault_id req) section "acl deny";
    Ok (checked_vault checked)
  else if negb (bool_decide (evaluate (acl (ss_app st)) trust AclRead (locus_for_section tenant section)
                             = Allow)) then Err (Forbidden "acl deny")
  else match rq_vault_id req with
       | None => Ok tenant
       | Some vid =>
           if bool_decide (vid = ""%string) || (128 <? String.length vid)%nat
           then Err (InvalidInput InvalidVaultIdLength)
           else if negb (bool_decide (vid = "main"%string))
           then Err (Forbidden "cross-read vault_id not main is not supported (mono-vault)")
           else Ok vid
       end.

(** The search of a request whose caller is known. *)
Definition search_for st trust req (ck : Clock) (tenant : TenantId) :
    result VaultSearchResponse GradatumError :=
  if opt_in_multivault req && bool_decide (is_Some (rq_vault_id req))
  then Err (InvalidInput VaultIdWithVaultIds)
  else if opt_in_multivault req && multi_tenant_enabled (ss_app st) then
    vaults ?<- effective_read_vaults (ss_app st) trust tenant (default [] (rq_vault_ids req))
                 (rq_all_readable req) (native <$> rq_section req);
    vault_search_multivault st trust req ck (checked_vault <$> vaults)
  else
    read_vault ?<- read_vault_of st trust req tenant;
    status ?<- status_filter_of req;
    if bounds_reversed (rq_from_ms req) (rq_to_ms req) then Err (InvalidInput BoundsReversed)
    else if bool_decide (trim (rq_query req) = []) then Ok empty_response
    else search_one_vault st trust req ck status tenant read_vault.

(** A successful search records the use of its results. *)
Definition vault_search_impl st trust req (ck : Clock) (u : UsageState) :
    result VaultSearchResponse GradatumError * UsageState :=
  if negb (is_authenticated trust) then (Err Unauthorized, u)
  else
    let u := count_search u in
    let answer :=
      _ ?<- validated_section (rq_section req);
      tenant ?<- map_err (λ _, Forbidden "tenant cross mismatch") (effective_tenant trust (rq_tenant_id req));
      search_for st trust req ck tenant in
    match answer with
    | Ok resp => (Ok resp, record_items (usage_now ck) (items resp) u)
    | Err e => (Err e, u)
    end.
End server.
