(* ===== verification/SearchSafety.v ===== *)
(** * SearchSafety: the search handler shows only what it may

    The guarantees of [vault_search] that hold whatever the index, the embedder and the
    reranker answer and whichever of the reads fail: every result is a row of a vault the
    caller may read, passes every filter of the request, and is neither an agent's soul nor
    a classified note unless the caller may see it.  First the parts of the handler, then
    their composition, for one vault and for several. *)

From S2P Require Import Prelude Job Text Scope Acl Registry TenantGuard Notes ProjectServer NoteStore Float RankFusion SearchIndex SearchServer.
From Stdlib Require Import Ascii SpecFloat.

#[local] Open Scope Z_scope.

(** ** The parts of the handler *)

(** ** Keys *)

Definition plain_name (v : string) : Prop := MULTIVAULT_KEY_SEP ∉ String.list_ascii_of_string v.

Lemma decompose_cons c key :
  decompose_multivault_key (String c key)
  = if Ascii.eqb c MULTIVAULT_KEY_SEP then Some (EmptyString, key)
    else '(v, n) ← decompose_multivault_key key; Some (String c v, n).
Proof. done. Qed.

Lemma plain_name_cons c v : plain_name (String c v) ↔ c ≠ MULTIVAULT_KEY_SEP ∧ plain_name v.
Proof.
  unfold plain_name. change (String.list_ascii_of_string (String c v)) with (c :: String.list_ascii_of_string v).
  rewrite not_elem_of_cons. naive_solver.
Qed.

Lemma decompose_compose v n :
  plain_name v → decompose_multivault_key (compose_multivault_key v n) = Some (v, n).
Proof.
  induction v as [|c v IH]; [done|]. intros [Hc Hv]%plain_name_cons.
  change (compose_multivault_key (String c v) n) with (String c (compose_multivault_key v n)).
  rewrite decompose_cons. destruct (Ascii.eqb_spec c MULTIVAULT_KEY_SEP); [done|]. by rewrite IH.
Qed.

Lemma compose_decompose key v n :
  decompose_multivault_key key = Some (v, n) → key = compose_multivault_key v n ∧ plain_name v.
Proof.
  revert v. induction key as [|c key IH]; intros v; [done|]. rewrite decompose_cons.
  destruct (Ascii.eqb_spec c MULTIVAULT_KEY_SEP) as [->|Hc].
  - intros [= <- <-]. split; [done|]. apply not_elem_of_nil.
  - destruct (decompose_multivault_key key) as [[v' n']|]; [|done]. cbn. intros [= <- <-].
    destruct (IH v' eq_refl) as [-> Hp]. split; [done|]. by apply plain_name_cons.
Qed.

Lemma notes_of_vault_elem vault keys n :
  n ∈ notes_of_vault vault keys ↔ ∃ k, k ∈ keys ∧ decompose_multivault_key k = Some (vault, n).
Proof.
  unfold notes_of_vault. rewrite list_elem_of_omap. apply exist_proper. intros k. f_equiv.
  destruct (decompose_multivault_key k) as [[v m]|]; cbn; [|naive_solver].
  case_bool_decide; naive_solver.
Qed.

(** ** Fusion invents nothing *)

Lemma short_circuit_ids bm25 sem k limit h :
  h ∈ rrf_fuse_short_circuit bm25 sem k limit → (note_id h ∈ bm25.*1 ∨ note_id h ∈ sem.*1) ∧ h_section h = [].
Proof.
  assert (∀ score, h ∈ fuse_with bm25 sem score limit →
            (note_id h ∈ bm25.*1 ∨ note_id h ∈ sem.*1) ∧ h_section h = []) as Hf.
  { intros score. rewrite fuse_with_ranking. intros (i & -> & Hi)%list_elem_of_fmap. split; [|done].
    apply elem_of_all_ids. cbn. apply elem_of_take in Hi as (j & Hi & _).
    apply list_elem_of_lookup_2 in Hi. by apply elem_of_sort_by in Hi. }
  unfold rrf_fuse_short_circuit.
  destruct bm25 as [|b bm25], sem as [|s sem].
  - by intros ?%not_elem_of_nil.
  - intros (j & Hi & _)%elem_of_take. apply list_elem_of_lookup_2, elem_of_lookup_imap in Hi
      as (i & [id x] & -> & Hi). split; [|done]. right. cbn [note_id].
    apply list_elem_of_fmap. exists (id, x). split; [done|]. by eapply list_elem_of_lookup_2.
  - intros (j & Hi & _)%elem_of_take. apply list_elem_of_lookup_2, elem_of_lookup_imap in Hi
      as (i & [id x] & -> & Hi). split; [|done]. left. cbn [note_id].
    apply list_elem_of_fmap. exists (id, x). split; [done|]. by eapply list_elem_of_lookup_2.
  - apply Hf.
Qed.

Lemma rrf_fuse_ids bm25 sem k limit h :
  h ∈ rrf_fuse bm25 sem k limit → (note_id h ∈ bm25.*1 ∨ note_id h ∈ sem.*1) ∧ h_section h = [].
Proof.
  unfold rrf_fuse. rewrite fuse_with_ranking. intros (i & -> & Hi)%list_elem_of_fmap. split; [|done].
  apply elem_of_all_ids. cbn. apply elem_of_take in Hi as (j & Hi & _).
  apply list_elem_of_lookup_2 in Hi. by apply elem_of_sort_by in Hi.
Qed.

Section props.
Context {LM : Libm} {FTS : Fts5} {UT : UlidText} {UN : UnicodeTables} {IF : IndexFaults}.
Context {GS : Globset} {St : Type} {IS : IndexStore St}.
Implicit Types (st : SearchState (St := St)) (trust : TrustContext) (req : VaultSearchRequest).

(** ** Rows a request asks for *)

Definition asked_for st req (status : option ustr) (vault : VaultId) (note : string) (sr : search_row) :
    Prop :=
  let r := sn_row sr in
  sn_notes (ss_index st) !! (vault, note) = Some sr
  ∧ is_sentinel (text_of note) = false
  ∧ (rq_include_downgraded req = false → r_status r ≠ DOWNGRADED)
  ∧ match rq_section req with
    | Some s => r_section r = s
    | None => excluded_by_default (r_section r) = false
    end
  ∧ (∀ loc, rq_locus req = Some loc → under_locus loc r)
  ∧ (∀ s, status = Some s → r_status r = s)
  ∧ within_bounds (rq_from_ms req) (rq_to_ms req) (temporal_index (ss_index st) !! (vault, note)) = true.

Lemma unless_null_eq (o : option ustr) (x : ustr) :
  unless_null o (λ s, bool_decide (x = s)) = true ↔ ∀ s, o = Some s → x = s.
Proof. destruct o; cbn; [rewrite bool_decide_eq_true|]; naive_solver. Qed.

Lemma locus_clause_iff o r : locus_clause o r = true ↔ ∀ loc, o = Some loc → under_locus loc r.
Proof. destruct o; [rewrite locus_clause_exact; naive_solver|]; naive_solver. Qed.

Lemma lexical_arm_sound st req ck status vault hits h :
  ids_known (ss_index st) → lexical_arm st req ck status vault = Ok hits → h ∈ hits →
  ∃ sr, asked_for st req status vault (raw_id h) sr ∧ raw_section h = r_section (sn_row sr).
Proof.
  intros Hids. unfold lexical_arm, attempt. destruct (index_fails _); [done|].
  destruct (search_fts_with_snippet _ _ _ _ _ _ _ _ _ _ _) as [l|] eqn:E; [|done]. cbn [result_bind].
  intros [= <-] Hh.
  assert (h ∈ l ∧ (rq_section req = None → excluded_by_default (raw_section h) = false)) as [Hl Hx].
  { destruct (rq_section req); [done|]. rewrite list_elem_of_In, filter_In in Hh.
    rewrite list_elem_of_In. destruct Hh as [? ?%negb_true_iff]. done. }
  destruct (search_fts_sound _ _ _ _ _ _ _ _ _ _ _ _ _ Hids E Hl) as (sr & Hr & Hw & Hb & Hs & _ & Hn).
  exists sr. split; [|done]. unfold fts_where in Hw. rewrite !andb_true_iff in Hw.
  destruct Hw as [[[Hd Hsec] Hloc] Hst]. rewrite locus_clause_iff in Hloc.
  rewrite unless_null_eq in Hsec, Hst. unfold asked_for. cbn zeta. split_and!; try done.
  - intros Hi. rewrite Hi in Hd. cbn in Hd. by apply negb_true_iff, bool_decide_eq_false in Hd.
  - destruct (rq_section req); [by apply Hsec|]. rewrite <- Hs. by apply Hx.
Qed.

(** A filter of the semantic arm keeps hits of its argument. *)
Lemma kept_by (f : string * f32 → bool) l x : x ∈ List.filter f l → x ∈ l ∧ f x = true.
Proof. by rewrite !list_elem_of_In, filter_In. Qed.

Lemma semantic_arm_sound st req ck status emb vault x :
  ids_known (ss_index st) → x ∈ (semantic_arm st req ck status emb vault).1 →
  ∃ sr, asked_for st req status vault x.1 sr.
Proof.
  intros Hids. unfold semantic_arm. set (found := match emb with Some _ => _ | None => _ end).
  set (sectioned := match rq_section req with Some _ => _ | None => _ end).
  set (statused := match status with Some _ => _ | None => _ end).
  case_bool_decide as E0; [by intros ?%not_elem_of_nil|]. cbn [fst]. intros Hx.
  set (anchors := or_empty _) in Hx.
  assert (x ∈ statused ∧ within_bounds (rq_from_ms req) (rq_to_ms req)
            (temporal_index (ss_index st) !! (vault, x.1)) = true) as [Hst Hb].
  { destruct (bool_decide _ || bool_decide _) eqn:Eb.
    - apply kept_by in Hx as [Hx Ha]. split; [done|]. destruct (anchors !! x.1) as [ms|] eqn:Em; [|done].
      assert (temporal_index (ss_index st) !! (vault, x.1) = Some ms) as ->; [|done].
      subst anchors. unfold attempt in Em. destruct (index_fails _); [done|].
      by apply anchor_batch_Some in Em.
    - split; [done|]. apply orb_false_iff in Eb as [H1 H2]. apply bool_decide_eq_false in H1, H2.
      destruct (rq_from_ms req), (rq_to_ms req); naive_solver. }
  assert (x ∈ sectioned ∧ ∀ s, status = Some s → ∃ sr,
            sn_notes (ss_index st) !! (vault, x.1) = Some sr ∧ r_status (sn_row sr) = s) as [Hse Hstat].
  { subst statused. destruct status as [s|]; [|done]. case_bool_decide as E; [by rewrite E in Hst; apply not_elem_of_nil in Hst|].
    unfold attempt in Hst. destruct (index_fails _); [by apply not_elem_of_nil in Hst|].
    apply kept_by in Hst as [Hst Hm]. split; [done|]. intros ? [= <-].
    destruct (get_statuses _ _ _ !! x.1) as [w|] eqn:Em; [|done]. apply bool_decide_eq_true in Hm as ->.
    apply batch_Some in Em as (_ & _ & sr & ? & [= <-]). eauto. }
  assert (x ∈ found ∧ ∃ sr, sn_notes (ss_index st) !! (vault, x.1) = Some sr
            ∧ match rq_section req with Some s => r_section (sn_row sr) = s
              | None => excluded_by_default (r_section (sn_row sr)) = false end) as (Hfo & sr & Hr & Hsec).
  { subst sectioned. destruct (rq_section req) as [s|];
      (case_bool_decide as E; [by rewrite E in Hse; apply not_elem_of_nil in Hse|]);
      unfold attempt in Hse; destruct (index_fails _); try (by apply not_elem_of_nil in Hse);
      apply kept_by in Hse as [Hse Hm]; (split; [done|]);
      destruct (get_titles_sections _ _ _ !! x.1) as [[t w]|] eqn:Em; try done;
      apply batch_Some in Em as (_ & _ & sr & ? & [= <- <-]); exists sr; (split; [done|]).
    - by apply bool_decide_eq_true in Hm.
    - by apply negb_true_iff in Hm. }
  subst found. destruct emb as [e|]; [|by apply not_elem_of_nil in Hfo].
  unfold attempt in Hfo. destruct (index_fails _); [by apply not_elem_of_nil in Hfo|].
  destruct (search_semantic_inner _ _ _ _ _ _ _) as [l|] eqn:El; [|by apply not_elem_of_nil in Hfo].
  destruct x as [i s]. destruct (search_semantic_sound _ _ _ _ _ _ _ _ _ _ Hids El Hfo)
    as (sr' & Hr' & Hd & Hloc & Hsen). cbn in *. rewrite Hr in Hr'.
  injection Hr' as <-. exists sr. rewrite locus_clause_iff in Hloc. unfold asked_for. cbn zeta. split_and!; try done.
  intros w Hw. destruct (Hstat w Hw) as (sr2 & ? & ?). by simplify_eq.
Qed.

(** ** Classified notes *)

Definition classified (sr : search_row) : Prop :=
  ∃ tags, r_tags (sn_row sr) = Some tags ∧ lit PERSONAL_CLASSIFIED_TAG ∈ split_whitespace tags.

(** The caller may read the locus of classified notes of a vault. *)
Definition sees_classified st trust (vault : VaultId) : Prop :=
  evaluate (acl (ss_app st)) trust AclRead (vault +:+ "/" +:+ PERSONAL_CLASSIFIED_TAG) = Allow.

(** The kept verdicts are those of the policy. *)
Definition verdicts_ok st trust (g : verdicts) : Prop :=
  ∀ v b, g !! v = Some b → b = true ↔ sees_classified st trust v.

Lemma allows_exact st trust vault g :
  verdicts_ok st trust g →
  ((allows st trust vault g).1 = true ↔ sees_classified st trust vault)
  ∧ verdicts_ok st trust (allows st trust vault g).2.
Proof.
  intros Hg. unfold allows. destruct (g !! vault) as [b|] eqn:E; cbn; [split; [by apply Hg|done]|].
  split; [by rewrite bool_decide_eq_true|]. intros v b.
  destruct (decide (vault = v)) as [<-|Hne]; [rewrite lookup_insert_eq; intros [= <-]; by rewrite bool_decide_eq_true|].
  rewrite lookup_insert_ne by done. apply Hg.
Qed.

Lemma hidden_ids_sound st trust vault ids g :
  verdicts_ok st trust g →
  verdicts_ok st trust (hidden_ids st trust vault ids g).2
  ∧ ∀ hidden i sr, (hidden_ids st trust vault ids g).1 = Ok hidden → i ∈ ids → i ∉ hidden →
      sn_notes (ss_index st) !! (vault, i) = Some sr → is_sentinel (text_of i) = false →
      classified sr → sees_classified st trust vault.
Proof.
  intros Hg. unfold hidden_ids. case_bool_decide as E0.
  { split; [done|]. intros ? i ? _ Hi. by rewrite E0 in Hi; apply not_elem_of_nil in Hi. }
  pose proof (allows_exact st trust vault g Hg) as [Ha Hg']. destruct (allows st trust vault g) as [[] g'].
  { split; [done|]. intros. by apply Ha. }
  split; [done|]. cbn [fst snd]. unfold attempt. destruct (index_fails _); [done|].
  intros hidden i sr [= <-] Hi Hh Hr Hs (tags & Ht & Hin). exfalso. apply Hh, elem_of_dom.
  exists (split_whitespace tags). apply map_lookup_filter_Some. split; [|done].
  eapply batch_lookup; [done..|]. by rewrite Ht.
Qed.

Lemma hide_groups_sound st trust groups g hidden0 hidden :
  verdicts_ok st trust g → hide_groups st trust groups g hidden0 = Ok hidden →
  hidden0 ⊆ hidden
  ∧ ∀ vault ids i sr, (vault, ids) ∈ groups → i ∈ ids → compose_multivault_key vault i ∉ hidden →
      sn_notes (ss_index st) !! (vault, i) = Some sr → is_sentinel (text_of i) = false →
      classified sr → sees_classified st trust vault.
Proof.
  revert g hidden0. induction groups as [|[v ids] groups IH]; intros g hidden0 Hg; cbn.
  { intros [= <-]. split; [done|]. by intros ? ? ? ? ?%not_elem_of_nil. }
  pose proof (hidden_ids_sound st trust v ids g Hg) as [Hg' Hh].
  destruct (hidden_ids st trust v ids g) as [[hid|] g']; [|done]. cbn in Hg', Hh.
  intros H%IH; [|done]. destruct H as [Hsub Hrest]. split; [set_solver|].
  intros vault ids' i sr [ [= -> ->]|Hin]%elem_of_cons Hi Hn Hr Hs Hc; [|by eapply Hrest].
  eapply Hh; [done|done| |done..]. intros Hhid. apply Hn, Hsub, elem_of_union_r, elem_of_map. eauto.
Qed.

Lemma group_by_vault_elem keys k v n :
  k ∈ keys → decompose_multivault_key k = Some (v, n) → ∃ l, group_by_vault keys !! v = Some l ∧ n ∈ l.
Proof.
  induction keys as [|k' keys IH] using rev_ind; [by intros ?%not_elem_of_nil|].
  unfold group_by_vault in *. rewrite foldl_snoc. set (m := foldl _ _ _) in *.
  intros [Hk| ->%list_elem_of_singleton]%elem_of_app Hd.
  - destruct (IH Hk Hd) as (l & Hl & Hn). destruct (decompose_multivault_key k') as [[v' n']|]; [|eauto].
    destruct (decide (v' = v)) as [->|Hne].
    + rewrite lookup_insert_eq, Hl. eexists. split; [done|]. set_solver.
    + rewrite lookup_insert_ne by done. eauto.
  - rewrite Hd, lookup_insert_eq. eexists. split; [done|]. set_solver.
Qed.

(** ** From keys to results *)

(** What a result of the search is allowed to be. *)
Definition shown st trust req (status : option ustr) (may : VaultId → Prop) (item : SearchHit) : Prop :=
  ∃ note sr section,
    sh_path item = native section +:+ "/" +:+ note
    ∧ may (sh_vault_id item)
    ∧ asked_for st req status (sh_vault_id item) note sr
    ∧ (is_identity_privileged trust = false →
         section = r_section (sn_row sr) ∧ r_section (sn_row sr) ≠ IDENTITY_SECTION)
    ∧ (classified sr → sees_classified st trust (sh_vault_id item)).

Section addressed.
Context (st : SearchState (St := St)) (trust : TrustContext) (req : VaultSearchRequest).
Context (status : option ustr) (may : VaultId → Prop).
Context (address : string → option (VaultId * string)).

(** The section of the row a key stands for. *)
Definition section_of_key (key : string) (s : ustr) : Prop :=
  ∀ v n sr, address key = Some (v, n) → sn_notes (ss_index st) !! (v, n) = Some sr →
    s = r_section (sn_row sr).

Definition sound_key (key : string) : Prop :=
  ∃ v n sr, address key = Some (v, n) ∧ may v ∧ asked_for st req status v n sr.

Definition sound_hit (h : RrfHit) : Prop :=
  sound_key (note_id h) ∧ (h_section h = [] ∨ section_of_key (note_id h) (h_section h)).

Lemma enrich_sound (raws : gmap string SearchHitRaw) anchors h :
  (∀ k b, raws !! k = Some b → section_of_key k (raw_section b)) →
  sound_hit h → sound_hit (enrich raws anchors h).
Proof.
  intros Hr [Hk Hs]. unfold enrich. destruct (raws !! note_id h) as [b|] eqn:E.
  - split; [done|]. right. by apply Hr.
  - destruct (h_anchor_ms h); by split.
Qed.

Lemma with_section_sound s h : section_of_key (note_id h) s → sound_hit h → sound_hit (with_section s h).
Proof. intros Hs [Hk _]. split; [done|by right]. Qed.

Lemma fill_section_sound (m : gmap string (option ustr * ustr)) h :
  (∀ k t s, m !! k = Some (t, s) → section_of_key k s) → sound_hit h → sound_hit (fill_section m h).
Proof.
  intros Hm Hh. unfold fill_section. case_bool_decide; [|done].
  destruct (m !! note_id h) as [[t s]|] eqn:E; [|done]. apply with_section_sound; eauto.
Qed.

Lemma render_sound titles statuses anchors (hidden : gset string) f item :
  (∀ k t s, titles !! k = Some (t, s) → section_of_key k s) →
  (∀ v n sr, address (note_id f.1.1) = Some (v, n) → note_id f.1.1 ∉ hidden →
     asked_for st req status v n sr → classified sr → sees_classified st trust v) →
  sound_hit f.1.1 →
  render_item trust req titles statuses anchors hidden address f = Some item →
  shown st trust req status may item.
Proof.
  destruct f as [[h b] score]. cbn [fst snd]. intros Ht Hhid [(v & n & sr & Ha & Hm & Hask) Hs].
  unfold render_item. rewrite Ha. cbn [mbind option_bind].
  set (section := if bool_decide _ then _ else _).
  destruct (identity_section_hidden _ _) eqn:Ei; [done|]. case_bool_decide as Eh; [done|].
  intros [= <-]. exists n, sr. eexists. cbn [sh_path sh_vault_id]. split_and!; [done..| |eauto].
  intros Hp. unfold identity_section_hidden in Ei. rewrite Hp in Ei. cbn in Ei.
  apply orb_false_iff in Ei as [Ei1 Ei2]. apply bool_decide_eq_false in Ei1.
  rewrite Ei2. apply bool_decide_eq_false in Ei2.
  assert (section = r_section (sn_row sr)) as <-; [|done].
  assert (section_of_key (note_id h) section) as Hk; [|eapply Hk; [done|apply Hask]].
  subst section. case_bool_decide as E.
  - destruct (titles !! note_id h) as [[t s]|] eqn:Et; [|done]. cbn. eauto.
  - by destruct Hs.
Qed.
End addressed.
End props.

(** The vaults of the index have names without the separator of keys. *)
Definition names_plain (ix : search_index) : Prop :=
  ∀ v n sr, sn_notes ix !! (v, n) = Some sr → plain_name v.

Section safety.
Context {LM : Libm} {FTS : Fts5} {UT : UlidText} {UN : UnicodeTables} {IF : IndexFaults}.
Context {GS : Globset} {St : Type} {IS : IndexStore St}.
Implicit Types (st : SearchState (St := St)) (trust : TrustContext) (req : VaultSearchRequest).

Lemma collected_from {A B E} (f : A → result B E) (g : B → A) (P : A → Prop) l ys y :
  (∀ x y, f x = Ok y → g y = x) → collect_results f l = Ok ys → (∀ x, x ∈ l → P x) → y ∈ ys → P (g y).
Proof.
  intros Hg Hc HP Hy. apply collect_results_Ok in Hc.
  destruct (Forall2_in_r _ _ _ _ Hc Hy) as (x & Hx & Hf). rewrite (Hg _ _ Hf). auto.
Qed.

(** The hits that are ranked last are hits that were scored. *)
Lemma rerank_hits_from st req tenant limit (l : list scored_hit) f :
  f ∈ rerank_hits st req tenant limit l → ∃ h, h ∈ l ∧ f.1.1 = h.1.1.
Proof.
  unfold rerank_hits. destruct (requires_body _ && _ && _).
  - intros (i & Hf & _)%elem_of_take. apply list_elem_of_lookup_2, elem_of_sort_by in Hf.
    destruct f as [hb s]. apply elem_of_zip_l, list_elem_of_fmap in Hf as (h & -> & Hh).
    apply elem_of_take in Hh as (j & Hh & _). apply list_elem_of_lookup_2 in Hh. by exists h.
  - intros (h & -> & Hh)%list_elem_of_fmap. apply elem_of_take in Hh as (j & Hh & _).
    apply list_elem_of_lookup_2 in Hh. by exists h.
Qed.

(** ** Rows behind keys *)

(** A row that an arm of the search returned for a key. *)
Definition found st req (status : option ustr) (may : VaultId → Prop)
    (address : string → option (VaultId * string)) (key : string) : Prop :=
  ∃ v n sr, address key = Some (v, n) ∧ may v ∧ asked_for st req status v n sr.

Lemma fresh_hit_sound st req status may address h :
  found st req status may address (note_id h) → h_section h = [] → sound_hit st req status may address h.
Proof. intros Hf Hs. split; [done|by left]. Qed.

(** Sections read in one batch of a vault are those of the rows. *)
Lemma batch_section st vault ids c k t s :
  or_empty (attempt c (Ok (get_titles_sections (ss_index st) vault ids))) !! k = Some (t, s) →
  ∃ sr, sn_notes (ss_index st) !! (vault, k) = Some sr ∧ s = r_section (sn_row sr).
Proof.
  unfold attempt. destruct (index_fails c); [done|]. cbn.
  intros (_ & _ & sr & Hr & [= _ <-])%batch_Some. by exists sr.
Qed.

(** ** One vault *)

Section one_vault.
Context (st : SearchState (St := St)) (trust : TrustContext) (req : VaultSearchRequest) (ck : Clock).
Context (status : option ustr) (vault : VaultId) (may : VaultId → Prop).
Context (ids : ids_known (ss_index st)) (may_vault : may vault).

Definition own_address (id : string) : option (VaultId * string) := Some (vault, id).

Lemma batch_section_own ids0 c k t s :
  or_empty (attempt c (Ok (get_titles_sections (ss_index st) vault ids0))) !! k = Some (t, s) →
  section_of_key st own_address k s.
Proof.
  intros (sr & Hr & ->)%batch_section v n sr' [= <- <-] Hr'. by simplify_eq.
Qed.

Lemma fused_sound raw sem anchors limit h :
  lexical_arm st req ck status vault = Ok raw →
  (∀ x, x ∈ sem → ∃ sr, asked_for st req status vault x.1 sr) →
  h ∈ fill_missing_sections st vault
        (enrich (collect_map ((λ h, (raw_id h, h)) <$> raw)) anchors
           <$> run_fusion st ((λ h, (raw_id h, raw_bm25 h)) <$> raw) sem limit) →
  sound_hit st req status may own_address h.
Proof.
  intros Eraw Hsem. set (fused := run_fusion _ _ _ _). set (raws := collect_map _).
  assert (∀ h, h ∈ enrich raws anchors <$> fused → sound_hit st req status may own_address h) as He.
  { intros h' (f & -> & Hf)%list_elem_of_fmap. apply enrich_sound.
    - intros k b (b' & [= -> <-] & Hb)%collect_map_Some%list_elem_of_fmap v n sr [= <- <-] Hr.
      destruct (lexical_arm_sound _ _ _ _ _ _ _ ids Eraw Hb) as (sr' & (Hr' & _) & ->). by simplify_eq.
    - assert ((note_id f ∈ ((λ h, (raw_id h, raw_bm25 h)) <$> raw).*1 ∨ note_id f ∈ sem.*1)
              ∧ h_section f = []) as [Hid Hse].
      { subst fused. unfold run_fusion in Hf.
        destruct (hybrid st); [by eapply short_circuit_ids|by eapply rrf_fuse_ids]. }
      apply fresh_hit_sound; [|done]. destruct Hid as [Hid|Hid].
      + rewrite <- list_fmap_compose in Hid. apply list_elem_of_fmap in Hid as (b & Hb & Hin).
        destruct (lexical_arm_sound _ _ _ _ _ _ _ ids Eraw Hin) as (sr & Hask & _).
        exists vault, (note_id f), sr. rewrite Hb. done.
      + apply list_elem_of_fmap in Hid as (x & -> & Hx). destruct (Hsem x Hx) as (sr & Hask).
        by exists vault, x.1, sr. }
  unfold fill_missing_sections. case_bool_decide; [auto|].
  intros (h' & -> & Hh')%list_elem_of_fmap. apply fill_section_sound; [|auto].
  intros k t s. apply batch_section_own.
Qed.

Lemma one_vault_shown tenant resp item :
  search_one_vault st trust req ck status tenant vault = Ok resp → item ∈ items resp →
  shown st trust req status may item.
Proof.
  unfold search_one_vault.
  destruct (lexical_arm st req ck status vault) as [raw|] eqn:Eraw; [|done]. cbn [result_bind].
  pose proof (λ x, semantic_arm_sound st req ck status (query_embedding st req) vault x ids) as Hsem.
  destruct (semantic_arm _ _ _ _ _ _) as [sem anchors]. cbn [fst] in Hsem.
  pose proof (λ h, fused_sound raw sem anchors (rrf_buffer (limit_of req)) h Eraw Hsem) as Hhits.
  set (hits := fill_missing_sections _ _ _) in *.
  destruct (score_hits st ck tenant vault hits) as [scored|] eqn:Esc; [|done]. cbn [result_bind].
  set (final := rerank_hits _ _ _ _ _).
  assert (∀ f, f ∈ final → sound_hit st req status may own_address f.1.1) as Hfinal.
  { intros f (h & Hh & ->)%rerank_hits_from. apply elem_of_sort_by in Hh.
    eapply (collected_from _ (λ y : scored_hit, y.1.1)); [|exact Esc|exact Hhits|exact Hh].
    intros x y. cbn. destruct (created_and_links _ _ _ _); [|done]. cbn.
    destruct (score_hit _ _ _ _ _ _ _). by intros [= <-]. }
  set (titles := if bool_decide _ then _ else _). set (statuses := if bool_decide _ then _ else _).
  pose proof (hidden_ids_sound st trust vault ((λ f, note_id f.1.1) <$> final) ∅) as [_ Hhid].
  { intros ? ? [=]. }
  destruct (hidden_ids _ _ _ _ _) as [[hidden|] g]; [|done]. cbn [fst result_bind] in Hhid |- *.
  destruct (if rq_include_corpus_count req then _ else _) as [count capped].
  intros [= <-]. cbn [items]. intros (f & Hf & Hr)%list_elem_of_omap.
  eapply (render_sound st trust req status may own_address); [| |by apply Hfinal|exact Hr].
  - intros k t s. subst titles. case_bool_decide; [done|]. apply batch_section_own.
  - intros v n sr [= <- <-] Hn (Hrow & Hsen & _) Hc. eapply Hhid; [done| |done..].
    apply list_elem_of_fmap. by exists f.
Qed.
End one_vault.

(** ** Several vaults *)

Lemma fuse_multivault_ids b s hy k limit h :
  h ∈ fuse_multivault b s hy k limit →
  h_section h = []
  ∧ ((∃ v l x, (v, l) ∈ b ∧ x ∈ l ∧ note_id h = compose_multivault_key v x.1)
     ∨ (∃ v l x, (v, l) ∈ s ∧ x ∈ l ∧ note_id h = compose_multivault_key v x.1)).
Proof.
  assert (∀ {V} (l : list (VaultId * list (string * V))) cmp key,
            key ∈ (sort_by cmp (l ≫= λ '(vault, hits),
                     (λ h, (compose_multivault_key vault h.1, h.2)) <$> hits)).*1 →
            ∃ v l' x, (v, l') ∈ l ∧ x ∈ l' ∧ key = compose_multivault_key v x.1) as Hkey.
  { intros V l cmp key ([k' x] & -> & Hx)%list_elem_of_fmap. apply elem_of_sort_by in Hx.
    apply list_elem_of_bind in Hx as ([v l'] & Hx & Hl).
    apply list_elem_of_fmap in Hx as (y & [= -> ->] & Hy). by exists v, l', y. }
  unfold fuse_multivault. intros Hh. set (b' := sort_by _ _) in Hh. set (s' := sort_by by_score_desc _) in Hh.
  assert ((note_id h ∈ b'.*1 ∨ note_id h ∈ s'.*1) ∧ h_section h = []) as [Hid Hse].
  { destruct hy; [by eapply short_circuit_ids|by eapply rrf_fuse_ids]. }
  split; [done|]. destruct Hid as [Hid|Hid]; [left|right]; by eapply Hkey.
Qed.

Section vaults.
Context (st : SearchState (St := St)) (trust : TrustContext) (req : VaultSearchRequest) (ck : Clock).
Context (status : option ustr) (vaults : list VaultId) (may : VaultId → Prop).
Context (ids : ids_known (ss_index st)) (plain : names_plain (ss_index st)).
Context (may_vaults : ∀ v, v ∈ vaults → may v).
Abbreviation address := decompose_multivault_key.

(** A key of a row stands for that row. *)
Lemma address_row v n sr :
  sn_notes (ss_index st) !! (v, n) = Some sr → address (compose_multivault_key v n) = Some (v, n).
Proof. intros H. by eapply decompose_compose, plain. Qed.

Lemma section_of_row v n sr :
  sn_notes (ss_index st) !! (v, n) = Some sr →
  section_of_key st address (compose_multivault_key v n) (r_section (sn_row sr)).
Proof.
  intros Hr v' n' sr' Ha Hr'. rewrite (address_row _ _ _ Hr) in Ha. by simplify_eq.
Qed.

(** What the loop over the vaults collected. *)
Definition part_ok (p : vault_part) : Prop :=
  vp_vault p ∈ vaults
  ∧ (∀ h, h ∈ vp_raw p → ∃ sr, asked_for st req status (vp_vault p) (raw_id h) sr
                               ∧ raw_section h = r_section (sn_row sr))
  ∧ ∀ x, x ∈ vp_sem p → ∃ sr, asked_for st req status (vp_vault p) x.1 sr.

Lemma parts_ok emb parts p :
  collect_results (read_vault_part st req ck status emb) vaults = Ok parts → p ∈ parts → part_ok p.
Proof.
  intros Hc Hp. apply collect_results_Ok in Hc. destruct (Forall2_in_r _ _ _ _ Hc Hp) as (v & Hv & Hr).
  unfold read_vault_part in Hr. destruct (lexical_arm _ _ _ _ _) as [raw|] eqn:Eraw; [|done].
  cbn in Hr. pose proof (λ x, semantic_arm_sound st req ck status emb v x ids) as Hsem.
  destruct (semantic_arm _ _ _ _ _ _) as [sem anchors]. simplify_eq. split_and!; [done| |done].
  intros h Hh. by eapply lexical_arm_sound.
Qed.

Lemma fused_multi_sound parts hy k limit anchors h :
  (∀ p, p ∈ parts → part_ok p) →
  h ∈ enrich (raw_of_parts parts) anchors
        <$> fuse_multivault (bm25_of_part <$> parts) (sem_of_part <$> parts) hy k limit →
  sound_hit st req status may address h.
Proof.
  intros Hparts (f & -> & Hf)%list_elem_of_fmap. apply enrich_sound.
  - intros key b Hb%collect_map_Some. apply list_elem_of_bind in Hb as (p & Hb & Hp).
    apply list_elem_of_fmap in Hb as (b' & [= -> <-] & Hb).
    destruct (Hparts p Hp) as (_ & Hraw & _). destruct (Hraw b Hb) as (sr & (Hr & _) & ->).
    by apply section_of_row.
  - apply fuse_multivault_ids in Hf as [Hs Hid]. apply fresh_hit_sound; [|done].
    destruct Hid as [(v & l & x & (p & [= -> ->] & Hp)%list_elem_of_fmap & Hx & ->)
                    |(v & l & x & (p & [= -> ->] & Hp)%list_elem_of_fmap & Hx & ->)];
      destruct (Hparts p Hp) as (Hv & Hraw & Hsem).
    + apply list_elem_of_fmap in Hx as (b & -> & Hb). destruct (Hraw b Hb) as (sr & Hask & _).
      exists (vp_vault p), (raw_id b), sr. split_and!; [|by apply may_vaults|done]. eapply address_row, Hask.
    + destruct (Hsem x Hx) as (sr & Hask).
      exists (vp_vault p), x.1, sr. split_and!; [|by apply may_vaults|done]. eapply address_row, Hask.
Qed.

Lemma fill_vault_sound missing hits vault h :
  (∀ h, h ∈ hits → sound_hit st req status may address h) →
  h ∈ fill_vault_sections st missing hits vault → sound_hit st req status may address h.
Proof.
  intros Hhits. unfold fill_vault_sections. case_bool_decide; [auto|].
  intros (h' & -> & Hh')%list_elem_of_fmap. specialize (Hhits h' Hh'). case_bool_decide; [|done].
  destruct (address (note_id h')) as [[v n]|] eqn:Ea; [|done]. case_bool_decide as Ev; [|done]. subst v.
  destruct (or_empty _ !! n) as [[t s]|] eqn:Em; [|done].
  apply batch_section in Em as (sr & Hr & ->). apply with_section_sound; [|done].
  apply compose_decompose in Ea as [-> _]. by apply section_of_row.
Qed.

Lemma fill_all_sound hits h :
  (∀ h, h ∈ hits → sound_hit st req status may address h) →
  h ∈ fill_all_sections st vaults hits → sound_hit st req status may address h.
Proof.
  unfold fill_all_sections. case_bool_decide; [auto|]. intros Hhits.
  generalize (note_id <$> filter (λ h, h_section h = []) hits) as missing. intros missing.
  clear H. revert hits Hhits. generalize vaults as vs.
  induction vs as [|v vs IH]; intros hits Hhits; [apply Hhits|]. cbn [foldl]. apply IH.
  intros h'. by apply fill_vault_sound.
Qed.

(** Batch reads of the vaults, on qualified keys. *)
Lemma multi_batch_section keys c k t s :
  multi_batch vaults keys (λ v ids, attempt (c v) (Ok (get_titles_sections (ss_index st) v ids)))
    !! k = Some (t, s) → section_of_key st address k s.
Proof.
  intros Hk%collect_map_Some. apply list_elem_of_bind in Hk as (v & Hk & _).
  cbn zeta beta in Hk. case_bool_decide; [by apply not_elem_of_nil in Hk|]. unfold attempt in Hk.
  destruct (index_fails _); [by apply not_elem_of_nil in Hk|].
  apply list_elem_of_fmap in Hk as ([n ts] & [= -> <-] & Hn). apply elem_of_map_to_list, batch_Some in Hn
    as (_ & _ & sr & Hr & [= _ <-]). by apply section_of_row.
Qed.

Lemma vaults_shown resp item :
  search_vaults st trust req ck status vaults = Ok resp → item ∈ items resp →
  shown st trust req status may item.
Proof.
  unfold search_vaults. destruct (collect_results _ vaults) as [parts|] eqn:Ep; [|done].
  cbn [result_bind]. set (fused := fuse_multivault _ _ _ _ _). set (hits := fill_all_sections _ _ _).
  assert (∀ h, h ∈ hits → sound_hit st req status may address h) as Hhits.
  { intros h. apply fill_all_sound. intros h'. apply fused_multi_sound. intros p. by eapply parts_ok. }
  destruct (collect_results _ hits) as [scored|] eqn:Esc; [|done]. cbn [result_bind].
  set (final := _ <$> take _ _).
  assert (∀ f, f ∈ final → sound_hit st req status may address f.1.1) as Hfinal.
  { intros f (h & -> & (i & Hh & _)%elem_of_take)%list_elem_of_fmap.
    apply list_elem_of_lookup_2, elem_of_sort_by, list_elem_of_omap in Hh as (x & Hx & ->).
    apply collect_results_Ok in Esc. destruct (Forall2_in_r _ _ _ _ Esc Hx) as (h' & Hh' & Hs).
    unfold score_multi in Hs. destruct (address (note_id h')) as [[v n]|]; [|done].
    destruct (created_and_links _ _ _ _); [|done]. cbn in Hs. destruct (score_hit _ _ _ _ _ _ _).
    simplify_eq. by apply Hhits. }
  destruct (hidden_composite_ids _ _ _) as [hidden|] eqn:Eh; [|done]. cbn [result_bind].
  apply hide_groups_sound in Eh as [_ Hhid]; [|by intros ? ? [=]].
  destruct (if rq_include_corpus_count req then _ else _) as [count capped].
  intros [= <-]. cbn [items]. intros (f & Hf & Hr)%list_elem_of_omap.
  eapply (render_sound st trust req status may address); [| |by apply Hfinal|exact Hr].
  - intros k t s. apply multi_batch_section.
  - intros v n sr Ha Hn (Hrow & Hsen & _) Hc.
    destruct (group_by_vault_elem ((λ f, note_id f.1.1) <$> final) (note_id f.1.1) v n)
      as (l & Hl & Hnl); [apply list_elem_of_fmap; by exists f|done|].
    eapply Hhid; [by apply elem_of_map_to_list|done| |done..].
    by apply compose_decompose in Ha as [<- _].
Qed.
End vaults.

(** ** The handler *)

Lemma omap_short {A B} (f : A → option B) l : (length (omap f l) ≤ length l)%nat.
Proof. induction l as [|x l IH]; cbn; [lia|]. destruct (f x); cbn; lia. Qed.

Lemma one_vault_short st trust req ck status tenant vault resp :
  search_one_vault st trust req ck status tenant vault = Ok resp → (length (items resp) ≤ limit_of req)%nat.
Proof.
  unfold search_one_vault. destruct (lexical_arm _ _ _ _ _); [|done]. cbn [result_bind].
  destruct (semantic_arm _ _ _ _ _ _). destruct (score_hits _ _ _ _ _) as [scored|]; [|done].
  cbn [result_bind]. destruct (hidden_ids _ _ _ _ _).1 as [hidden|]; [|done]. cbn [result_bind].
  destruct (if rq_include_corpus_count req then _ else _). intros [= <-]. cbn [items].
  rewrite omap_short. unfold rerank_hits.
  destruct (requires_body _ && _ && _); [|rewrite length_fmap]; rewrite length_take; apply Nat.le_min_l.
Qed.

Lemma vaults_short st trust req ck status vaults resp :
  search_vaults st trust req ck status vaults = Ok resp → (length (items resp) ≤ limit_of req)%nat.
Proof.
  unfold search_vaults. destruct (collect_results _ vaults); [|done]. cbn [result_bind].
  destruct (collect_results _ _); [|done]. cbn [result_bind].
  destruct (hidden_composite_ids _ _ _); [|done]. cbn [result_bind].
  destruct (if rq_include_corpus_count req then _ else _). intros [= <-]. cbn [items].
  rewrite omap_short, length_fmap, length_take. lia.
Qed.

(** The vaults a request of a tenant may read: with tenants, those that the policy, the
    grants and the status of the vault admit; without, the tenant's own or [main]. *)
Definition may_search st trust req (tenant : TenantId) (vault : VaultId) : Prop :=
  if multi_tenant_enabled (ss_app st)
  then readable (ss_app st) trust tenant (native <$> rq_section req) vault
  else evaluate (acl (ss_app st)) trust AclRead (locus_for_section tenant (native <$> rq_section req)) = Allow
       ∧ (vault = tenant ∨ vault = "main"%string).

Lemma read_vault_of_may st trust req tenant vault :
  read_vault_of st trust req tenant = Ok vault → may_search st trust req tenant vault.
Proof.
  unfold read_vault_of, may_search. destruct (multi_tenant_enabled (ss_app st)).
  - destruct (effective_read_vault _ _ _ _ _ _) as [[v]|] eqn:E; [|done]. cbn. intros [= <-].
    by apply effective_read_vault_ok in E as [_ ?].
  - case_bool_decide as Ha; [|done]. cbn [negb]. destruct (rq_vault_id req) as [v|]; [|naive_solver].
    destruct (_ || _); [done|]. case_bool_decide; [|done]. intros [= <-]. auto.
Qed.

Lemma effective_read_vaults_may st trust tenant req_ids all section vaults v :
  effective_read_vaults (ss_app st) trust tenant req_ids all section = Ok vaults →
  v ∈ checked_vault <$> vaults → readable (ss_app st) trust tenant section v.
Proof.
  unfold effective_read_vaults. destruct (candidates _ _ _ _) as [c|]; [|done]. cbn [result_bind].
  destruct (_ <? _)%nat; [done|]. intros [= <-]. rewrite <- list_fmap_compose.
  intros (w & -> & Hw)%list_elem_of_fmap. apply list_elem_of_filter in Hw as [Hw _].
  by apply candidate_admitted_iff.
Qed.

Lemma search_for_shown st trust req ck tenant resp :
  ids_known (ss_index st) → names_plain (ss_index st) →
  search_for st trust req ck tenant = Ok resp →
  ∃ status, validate_search_status (rq_status req) = Ok status
    ∧ (length (items resp) ≤ limit_of req)%nat
    ∧ ∀ item, item ∈ items resp → shown st trust req status (may_search st trust req tenant) item.
Proof.
  intros Hids Hplain. unfold search_for. destruct (opt_in_multivault req && _); [done|].
  assert (∀ s, status_filter_of req = Ok s → validate_search_status (rq_status req) = Ok s) as Hst.
  { intros s. unfold status_filter_of.
    destruct (validate_search_status _); cbn; [by intros [= <-]|done]. }
  assert (∀ may, (length (items empty_response) ≤ limit_of req)%nat ∧
    ∀ s item, item ∈ items empty_response → shown st trust req s may item) as Hempty.
  { intros may. split; [cbn; lia|]. intros s item Hn. by apply not_elem_of_nil in Hn. }
  destruct (opt_in_multivault req && _) eqn:Emulti.
  - apply andb_true_iff in Emulti as [_ Hon].
    destruct (effective_read_vaults _ _ _ _ _ _) as [vaults|] eqn:Ev; [|done]. cbn [result_bind].
    unfold vault_search_multivault. destruct (status_filter_of req) as [s|] eqn:Es; [|done].
    cbn [result_bind]. destruct (bounds_reversed _ _); [done|].
    destruct (_ || _); intros H; exists s; (split; [auto|]).
    + simplify_eq. split; [by apply (Hempty (λ _, True))|]. intros item. apply Hempty.
    + split; [by eapply vaults_short|]. intros item. eapply vaults_shown; [done..| |done].
      intros v Hv. unfold may_search. rewrite Hon. by eapply effective_read_vaults_may.
  - destruct (read_vault_of _ _ _ _) as [vault|] eqn:Ev; [|done]. cbn [result_bind].
    destruct (status_filter_of req) as [s|] eqn:Es; [|done]. cbn [result_bind].
    destruct (bounds_reversed _ _); [done|].
    case_bool_decide; intros H'; exists s; (split; [auto|]).
    + simplify_eq. split; [by apply (Hempty (λ _, True))|]. intros item. apply Hempty.
    + split; [by eapply one_vault_short|]. intros item. eapply one_vault_shown; [done| |done].
      by apply read_vault_of_may.
Qed.

(** C6: A search shows only what its caller may read and asked for, whichever reads of the
    index fail and whatever the full-text engine, the embedder and the reranker answer.
    Every result is a row of the index in a vault the caller may read (with tenants: allowed
    by the policy, granted and active; without: the caller's own), passes the section (or the
    default exclusions), status, downgrade, locus and date filters of the request, is no
    agent's soul unless the caller is privileged, and carries no personal classification
    unless the policy lets the caller read the classified locus of that same vault.  There
    are never more results than asked for, and never more than fifty. *)
Theorem search_shows_only_permitted st trust req (ck : Clock) (u u' : UsageState) (resp : VaultSearchResponse)
    (ids : ids_known (ss_index st)) (plain : names_plain (ss_index st))
    (searched : vault_search_impl st trust req ck u = (Ok resp, u')) :
  ∃ tenant status,
    trust_tenant_id trust = Some tenant
    ∧ validate_search_status (rq_status req) = Ok status
    ∧ (length (items resp) ≤ limit_of req ≤ 50)%nat
    ∧ ∀ item, item ∈ items resp →
        ∃ note sr section,
          let vault := sh_vault_id item in
          let r := sn_row sr in
          sh_path item = native section +:+ "/" +:+ note
          ∧ may_search st trust req tenant vault
          ∧ (tenant_is_authorized (ss_app st) trust = true → multi_tenant_enabled (ss_app st) = false →
               vault = tenant)
          ∧ sn_notes (ss_index st) !! (vault, note) = Some sr
          ∧ match rq_section req with
            | Some s => r_section r = s
            | None => r_section r ≠ lit "snapshot" ∧ r_section r ≠ lit "messaging"
            end
          ∧ (∀ s, status = Some s → r_status r = s)
          ∧ (rq_include_downgraded req = false → r_status r ≠ lit "downgraded")
          ∧ (∀ loc, rq_locus req = Some loc → under_locus loc r)
          ∧ (∀ f, rq_from_ms req = Some f →
               ∃ a, temporal_index (ss_index st) !! (vault, note) = Some a ∧ f ≤ a)
          ∧ (∀ t, rq_to_ms req = Some t →
               ∃ a, temporal_index (ss_index st) !! (vault, note) = Some a ∧ a ≤ t)
          ∧ (is_identity_privileged trust = false → section = r_section r ∧ r_section r ≠ lit "identity")
          ∧ (classified sr → evaluate (acl (ss_app st)) trust AclRead
                               (vault +:+ "/" +:+ "personal-classified") = Allow).
Proof.
  unfold vault_search_impl in searched. destruct (is_authenticated trust); [|done]. cbn [negb] in searched.
  destruct (validated_section _) as [?|]; [|done]. cbn [result_bind] in searched.
  destruct (effective_tenant trust _) as [tenant|] eqn:Et; [|done]. cbn in searched.
  destruct (search_for _ _ _ _ _) as [r|] eqn:Es; [|done]. simplify_eq.
  apply effective_tenant_ok in Et as [Ht _].
  destruct (search_for_shown _ _ _ _ _ _ ids plain Es) as (status & Hst & Hlen & Hitems).
  exists tenant, status. split_and!; [done|done|done|unfold limit_of; lia|].
  intros item Hitem. destruct (Hitems item Hitem) as (note & sr & section & Hpath & Hmay & Hask & Hid & Hcl).
  destruct Hask as (Hrow & _ & Hdg & Hsec & Hloc & Hstat & Hb).
  exists note, sr, section. cbn zeta. unfold within_bounds in Hb. rewrite andb_true_iff in Hb. destruct Hb as [Hf Hto].
  split_and!; try done.
  - intros Hauth Hoff. unfold may_search in Hmay. unfold tenant_is_authorized in Hauth.
    rewrite Hoff in Hmay, Hauth. destruct trust; try done. cbn in Hauth, Ht. simplify_eq.
    apply String.eqb_eq in Hauth as ->. naive_solver.
  - destruct (rq_section req); [done|]. unfold excluded_by_default in Hsec. cbn in Hsec.
    apply orb_false_iff in Hsec as [H1 H2]. apply orb_false_iff in H2 as [H2 _].
    apply bool_decide_eq_false in H1, H2. split; intros E; [by apply H1|by apply H2].
  - intros f E. rewrite E in Hf. cbn in Hf. destruct (temporal_index _ !! _); [|done]. eexists. split; [done|lia].
  - intros t E. rewrite E in Hto. cbn in Hto. destruct (temporal_index _ !! _); [|done]. eexists. split; [done|lia].
Qed.
End safety.
