(* ===== verification/SearchQuery.v ===== *)
(** * SearchQuery: the full-text query of a search

    What FTS5 reads in the text that [build_fts_query] hands it.  [read_query] is the part
    of the documented query syntax such a text can use: barewords, and strings in double
    quotes in which a doubled quote stands for one. *)

From S2P Require Import Prelude Job Text Scope Registry TenantGuard Notes NoteStore Float RankFusion SearchIndex SearchServer.

#[local] Open Scope nat_scope.

(** ** Reading a query *)

(** A phrase of the query: quoted or bare, and its text. *)
Inductive phrase := Bare (s : ustr) | Quoted (s : ustr).

Inductive reading := Between | InBare (acc : ustr) | InQuotes (acc : ustr) | AfterQuote (acc : ustr).

(** [None] for a string that is not closed. *)
Fixpoint read_query (m : reading) (s : ustr) : option (list phrase) :=
  match s with
  | [] =>
      match m with
      | Between => Some []
      | InBare acc => Some [Bare acc]
      | InQuotes _ => None
      | AfterQuote acc => Some [Quoted acc]
      end
  | c :: s' =>
      match m with
      | Between =>
          if (c =? SPACE)%N then read_query Between s'
          else if (c =? DQUOTE)%N then read_query (InQuotes []) s' else read_query (InBare [c]) s'
      | InBare acc =>
          if (c =? SPACE)%N then cons (Bare acc) <$> read_query Between s'
          else if (c =? DQUOTE)%N then cons (Bare acc) <$> read_query (InQuotes []) s'
          else read_query (InBare (acc ++ [c])) s'
      | InQuotes acc =>
          if (c =? DQUOTE)%N then read_query (AfterQuote acc) s' else read_query (InQuotes (acc ++ [c])) s'
      | AfterQuote acc =>
          if (c =? DQUOTE)%N then read_query (InQuotes (acc ++ [c])) s'
          else if (c =? SPACE)%N then cons (Quoted acc) <$> read_query Between s'
          else cons (Quoted acc) <$> read_query (InBare [c]) s'
      end
  end.

(** The doubled apostrophes of a quoted token. *)
Definition double_apostrophes (t : ustr) : ustr :=
  t ≫= λ c, if (c =? APOSTROPHE)%N then [c; c] else [c].

Section query.
Context {UN : UnicodeTables}.

(** Neither the blank nor the quote is a letter or a digit. *)
Definition tables_ok : Prop := is_alphanumeric SPACE = false ∧ is_alphanumeric DQUOTE = false.

Definition bare_token (t : ustr) : bool := negb (is_fts_keyword t) && forallb is_safe t.
Definition phrase_of (t : ustr) : phrase :=
  if bare_token t then Bare t else Quoted (double_apostrophes t).

(** What may follow a token. *)
Definition token_end (rest : ustr) : Prop := rest = [] ∨ ∃ r, rest = SPACE :: r.
Definition after (rest : ustr) : ustr := match rest with _ :: r => r | [] => [] end.

Lemma is_safe_plain c : tables_ok → is_safe c = true → c ≠ SPACE ∧ c ≠ DQUOTE.
Proof.
  intros [Hs Hq]. unfold is_safe. rewrite orb_true_iff. intros [H|H%N.eqb_eq];
    split; intros ->; (congruence || done).
Qed.

Lemma read_end rest (mk : ustr → phrase) (m : ustr → reading) acc :
  (m = InBare ∧ mk = Bare ∨ m = AfterQuote ∧ mk = Quoted) → token_end rest →
  read_query (m acc) rest = cons (mk acc) <$> read_query Between (after rest).
Proof. intros [[-> ->]|[-> ->]] [->|[r ->]]; done. Qed.

Lemma read_bare t acc rest :
  tables_ok → forallb is_safe t = true → token_end rest →
  read_query (InBare acc) (t ++ rest) = cons (Bare (acc ++ t)) <$> read_query Between (after rest).
Proof.
  intros Htab. revert acc. induction t as [|c t IH]; intros acc; cbn [app forallb].
  - intros _ He. rewrite app_nil_r. apply (read_end rest Bare InBare); auto.
  - intros [Hc Ht]%andb_true_iff He. apply is_safe_plain in Hc as [H1%N.eqb_neq H2%N.eqb_neq]; [|done].
    cbn [read_query]. rewrite H1, H2, IH by done. by rewrite <- app_assoc.
Qed.

(** The body of a quoted token. *)
Definition quoted_body (t : ustr) : ustr :=
  t ≫= λ c, if bool_decide (c = DQUOTE ∨ c = APOSTROPHE) then [c; c] else [c].

Lemma read_quoted_body t acc rest :
  read_query (InQuotes acc) (quoted_body t ++ rest)
  = read_query (InQuotes (acc ++ double_apostrophes t)) rest.
Proof.
  revert acc. induction t as [|c t IH]; intros acc; [by rewrite app_nil_r|].
  unfold quoted_body, double_apostrophes in *. cbn [mbind list_bind]. rewrite <- app_assoc.
  case_bool_decide as E.
  - destruct (decide (c = DQUOTE)) as [->|Hd].
    + cbn [app read_query]. rewrite N.eqb_refl, IH. by rewrite <- app_assoc.
    + assert (c = APOSTROPHE) as -> by tauto. cbn [app read_query].
      change (APOSTROPHE =? DQUOTE)%N with false. change (APOSTROPHE =? APOSTROPHE)%N with true.
      cbn iota. rewrite IH. by rewrite <- !app_assoc.
  - assert (c ≠ DQUOTE ∧ c ≠ APOSTROPHE) as [H1%N.eqb_neq H2%N.eqb_neq] by tauto.
    cbn [app read_query]. rewrite H1, H2, IH. by rewrite <- app_assoc.
Qed.

Lemma read_token t rest :
  tables_ok → t ≠ [] → token_end rest →
  read_query Between (quote_fts_token t ++ rest) = cons (phrase_of t) <$> read_query Between (after rest).
Proof.
  intros Htab Hne He. unfold quote_fts_token, phrase_of. fold (bare_token t).
  destruct (bare_token t) eqn:E.
  - destruct t as [|c t]; [done|]. apply andb_true_iff in E as [_ E]. cbn [forallb] in E.
    apply andb_true_iff in E as [Hc Ht]. apply is_safe_plain in Hc as [H1%N.eqb_neq H2%N.eqb_neq]; [|done].
    cbn [app read_query]. rewrite H1, H2. by rewrite read_bare.
  - fold (quoted_body t). rewrite <- !app_assoc. cbn [app read_query].
    change (DQUOTE =? SPACE)%N with false. rewrite N.eqb_refl, read_quoted_body. cbn [app read_query].
    rewrite N.eqb_refl. apply (read_end rest Quoted AfterQuote); auto.
Qed.

Lemma words_of_nonempty w s t : t ∈ words_of w s → t ≠ [].
Proof.
  revert w. induction s as [|c s IH]; intros w; cbn.
  - destruct w; [by intros ?%not_elem_of_nil|]. by intros ->%list_elem_of_singleton.
  - destruct (is_whitespace c); [|apply IH]. rewrite elem_of_app. intros [H|H]; [|by eapply IH].
    destruct w; [by apply not_elem_of_nil in H|]. by apply list_elem_of_singleton in H as ->.
Qed.

Lemma read_tokens ts :
  tables_ok → Forall (λ t, t ≠ []) ts →
  read_query Between (join [SPACE] (quote_fts_token <$> ts)) = Some (phrase_of <$> ts).
Proof.
  intros Htab. induction 1 as [|t ts Ht _ IH]; [done|]. destruct ts as [|t' ts].
  - cbn [fmap list_fmap join]. rewrite <- (app_nil_r (quote_fts_token t)), read_token; [done..|by left].
  - change (join [SPACE] (quote_fts_token <$> t :: t' :: ts))
      with (quote_fts_token t ++ SPACE :: join [SPACE] (quote_fts_token <$> t' :: ts)).
    rewrite read_token; [|done|done|by right; eexists]. cbn [after]. by rewrite IH.
Qed.

(** Whatever a caller writes, the full-text engine reads one phrase per word of it, in
    order: a word of letters, digits and underscores that is no operator as it is, any other
    word as one closed string with its text (its apostrophes doubled).  No character of the
    query acts as an operator and no quote is left open. *)
Theorem fts_query_read_back (query : ustr) (tables : tables_ok) :
  read_query Between (build_fts_query query) = Some (phrase_of <$> split_whitespace query)
  ∧ ∀ t, t ∈ split_whitespace query →
      (∃ s, phrase_of t = Quoted s)
      ∨ (phrase_of t = Bare t ∧ forallb is_safe t = true
         ∧ to_ascii_lowercase t ∉ [lit "and"; lit "or"; lit "not"; lit "near"]).
Proof.
  split.
  - apply read_tokens; [done|]. apply Forall_forall. intros t. apply words_of_nonempty.
  - intros t _. unfold phrase_of, bare_token. destruct (is_fts_keyword t) eqn:Ek; [left; eauto|]. cbn [negb andb].
    destruct (forallb is_safe t) eqn:Es; [right|left; eauto]. split_and!; [done..|].
    by apply bool_decide_eq_false in Ek.
Qed.
End query.

Definition ascii_tables : UnicodeTables := λ c,
  (is_digit c || is_lower c || (65 <=? c)%N && (c <=? 90)%N).

Lemma fts_query_read_back_witness :
  @tables_ok ascii_tables
  ∧ read_query Between (@build_fts_query ascii_tables (lit "cargo-semver OR baseline_2"))
    = Some [Quoted (lit "cargo-semver"); Quoted (lit "OR"); Bare (lit "baseline_2")].
Proof.
  split; [by vm_compute|].
  rewrite (proj1 (@fts_query_read_back ascii_tables (lit "cargo-semver OR baseline_2") ltac:(by vm_compute))).
  by vm_compute.
Defined.
