(* ===== verification/SearchLessons.v ===== *)
(** * SearchLessons: recalling lessons by their class

    [recall_lessons], [hydrate_lessons_by_ulids] and [fts5_quote_query] of
    [crates/gradatum-index/src/sqlite.rs]: the lessons of a class, best match first, without
    those that are already codified. *)

From S2P Require Import Prelude Job Text Scope Registry TenantGuard Notes ProjectServer NoteStore Float RankFusion SearchIndex SearchServer SearchQuery.
From Stdlib Require Import SpecFloat.

#[local] Open Scope nat_scope.

(** [fts5_quote_query]: every word a string. *)
Definition fts5_quote_token (token : ustr) : ustr :=
  [DQUOTE] ++ (token ≫= λ c, if (c =? DQUOTE)%N then [DQUOTE; DQUOTE] else [c]) ++ [DQUOTE].
Definition fts5_quote_query (query : ustr) : ustr :=
  join [SPACE] (fts5_quote_token <$> split_whitespace query).

Record LessonHitRaw := mkLesson {
  le_note_id : string;
  le_title : option ustr;
  le_snippet : ustr;
  le_tags : list ustr;
  le_anchor_ms : Z;
}.

Definition OVERFETCH_CAP : nat := 100.
Definition fetch_limit (limit : nat) : nat := Nat.max limit (Nat.min (limit * 4) OVERFETCH_CAP).
Definition CODIFIED : ustr := lit "codified".

(** The [WHERE] clause both queries share. *)
Definition is_lesson (k : note_key) (sr : search_row) : bool :=
  let r := sn_row sr in
  bool_decide (r_section r = lit "lessons-learned") && negb (bool_decide (r_status r = DOWNGRADED))
  && bool_decide (sn_forgotten sr = 0%Z) && negb (is_sentinel (text_of k.2)).

Definition lesson_tags (r : index_row) : list ustr := split_whitespace (default [] (r_tags r)).

Section lessons.
Context {LM : Libm} {FTS : Fts5} {UT : UlidText}.
Implicit Types (ix : search_index) (vault : VaultId).

(** The loop over the rows; it stops when [limit] lessons are kept. *)
Fixpoint recall_loop (limit : nat) (rows : list (note_key * search_row * (f64 * ustr)))
    (results : list LessonHitRaw) : result (list LessonHitRaw) GradatumError :=
  match rows with
  | [] => Ok results
  | (k, sr, (_, snip)) :: rows' =>
      let tags := lesson_tags (sn_row sr) in
      if bool_decide (CODIFIED ∈ tags) then recall_loop limit rows' results
      else
        match ulid_text k.2 with
        | None => Err (Storage "ULID parse recall_lessons")
        | Some id =>
            let results := results ++ [mkLesson id (r_title (sn_row sr)) snip tags (r_created (sn_row sr))] in
            if limit <=? length results then Ok results else recall_loop limit rows' results
        end
  end.

(** The lessons that match a class, best first. *)
Definition ranked_lessons ix vault (class : ustr) : list (note_key * search_row * (f64 * ustr)) :=
  sort_by (λ a b, cmp_f64 a.2.1 b.2.1) (fts_rows ix vault (fts5_quote_query class) is_lesson).

Definition recall_lessons ix vault (class : ustr) (limit : nat) : result (list LessonHitRaw) GradatumError :=
  if negb (fts_accepts (fts5_quote_query class)) then Err (Storage "query recall_lessons")
  else recall_loop limit (take (fetch_limit limit) (ranked_lessons ix vault class)) [].

Definition hydrate_lessons_by_ulids ix vault (ulids : list string) : result (list LessonHitRaw) GradatumError :=
  if bool_decide (ulids = []) then Ok []
  else
    collect_results (λ kr : note_key * search_row,
      match ulid_text kr.1.2 with
      | None => Err (Storage "ULID parse hydrate_lessons_by_ulids")
      | Some id => let r := sn_row kr.2 in
                   Ok (mkLesson id (r_title r) (take 200 (r_body_text r)) (lesson_tags r) (r_created r))
      end)
      (filter (λ kr, kr.1.1 = vault ∧ kr.1.2 ∈ ulids ∧ is_lesson kr.1 kr.2 = true)
         (map_to_list (sn_notes ix))).

(** ** The class as a query *)

Lemma read_fts5_body t acc rest :
  read_query (InQuotes acc) ((t ≫= λ c, if (c =? DQUOTE)%N then [DQUOTE; DQUOTE] else [c]) ++ rest)
  = read_query (InQuotes (acc ++ t)) rest.
Proof.
  revert acc. induction t as [|c t IH]; intros acc; [by rewrite app_nil_r|].
  cbn [mbind list_bind]. rewrite <- app_assoc. destruct (N.eqb_spec c DQUOTE) as [->|Hc].
  - cbn [app read_query]. rewrite N.eqb_refl, IH. by rewrite <- app_assoc.
  - apply N.eqb_neq in Hc. cbn [app read_query]. rewrite Hc, IH. by rewrite <- app_assoc.
Qed.

Lemma read_fts5_token t rest :
  token_end rest →
  read_query Between (fts5_quote_token t ++ rest) = cons (Quoted t) <$> read_query Between (after rest).
Proof.
  intros He. unfold fts5_quote_token. rewrite <- !app_assoc. cbn [app read_query].
  change (DQUOTE =? SPACE)%N with false. rewrite N.eqb_refl, read_fts5_body. cbn [app read_query].
  rewrite N.eqb_refl. apply (read_end rest Quoted AfterQuote); auto.
Qed.

Lemma read_fts5_query query :
  read_query Between (fts5_quote_query query) = Some (Quoted <$> split_whitespace query).
Proof.
  unfold fts5_quote_query. induction (split_whitespace query) as [|t ts IH]; [done|]. destruct ts as [|t' ts].
  - cbn [fmap list_fmap join]. rewrite <- (app_nil_r (fts5_quote_token t)), read_fts5_token; [done|by left].
  - change (join [SPACE] (fts5_quote_token <$> t :: t' :: ts))
      with (fts5_quote_token t ++ SPACE :: join [SPACE] (fts5_quote_token <$> t' :: ts)).
    rewrite read_fts5_token by (right; by eexists). cbn [after]. by rewrite IH.
Qed.

(** ** What is recalled *)

Definition uncodified (x : note_key * search_row * (f64 * ustr)) : Prop :=
  CODIFIED ∉ lesson_tags (sn_row x.1.2).
#[local] Instance uncodified_dec x : Decision (uncodified x) := _.
Definition lesson_of (x : note_key * search_row * (f64 * ustr)) : LessonHitRaw :=
  let r := sn_row x.1.2 in mkLesson x.1.1.2 (r_title r) x.2.2 (lesson_tags r) (r_created r).

Lemma recall_loop_exact limit rows results :
  (∀ x, x ∈ rows → ulid_text x.1.1.2 = Some x.1.1.2) → length results < limit →
  recall_loop limit rows results
  = Ok (take limit (results ++ (lesson_of <$> filter uncodified rows))).
Proof.
  revert results. induction rows as [|[[k sr] [b snip]] rows IH]; intros results Hids Hlen; cbn [recall_loop].
  { cbn. by rewrite app_nil_r, take_ge by lia. }
  assert (∀ x, x ∈ rows → ulid_text x.1.1.2 = Some x.1.1.2) as Hids' by (intros x Hx; apply Hids; by right).
  case_bool_decide as Hc.
  - rewrite IH by done. by rewrite filter_cons_False by (intros H; by apply H).
  - pose proof (Hids (k, sr, (b, snip)) ltac:(by left)) as Hk. cbn [fst snd] in Hk. rewrite Hk. cbn zeta.
    rewrite filter_cons_True by done. rewrite fmap_cons.
    rewrite (cons_middle _ _ (lesson_of <$> filter uncodified rows)), (app_assoc results).
    change (mkLesson k.2 (r_title (sn_row sr)) snip (lesson_tags (sn_row sr)) (r_created (sn_row sr)))
      with (lesson_of (k, sr, (b, snip))).
    assert (length (results ++ [lesson_of (k, sr, (b, snip))]) = S (length results)) as Hl
      by (rewrite length_app; cbn; lia).
    revert Hl. generalize (results ++ [lesson_of (k, sr, (b, snip))]) as results'. intros results' Hl.
    destruct (Nat.leb_spec limit (length results')) as [Hle|Hlt].
    + rewrite take_app_le by lia. by rewrite take_ge by lia.
    + by rewrite IH.
Qed.

Lemma ranked_lessons_row ix vault class x :
  x ∈ ranked_lessons ix vault class →
  x.1.1.1 = vault ∧ sn_notes ix !! x.1.1 = Some x.1.2 ∧ is_lesson x.1.1 x.1.2 = true.
Proof.
  intros Hx%elem_of_sort_by. apply list_elem_of_omap in Hx as ([k sr] & Hin & Hx). cbn in Hx.
  apply elem_of_map_to_list in Hin. destruct (_ && _) eqn:E; [|done].
  destruct (fts_hit _ _ _); [|done]. cbn in Hx. simplify_eq. reflect_bools. done.
Qed.

(** Recalling the lessons of a class returns, best match first, the first [limit] lessons
    among the matches fetched that are not codified: each is a note of the vault in the
    section of lessons, neither downgraded nor forgotten.  At least [limit] matches are
    fetched (four times as many up to a hundred), and when all of them are, no uncodified
    match is passed over. *)
Theorem recall_lessons_exact ix vault (class : ustr) (limit : nat)
    (ids : ids_known ix) (accepted : fts_accepts (fts5_quote_query class) = true) :
  ∃ out, recall_lessons ix vault class limit = Ok out
    ∧ out = take limit (lesson_of <$> filter uncodified
                          (take (fetch_limit limit) (ranked_lessons ix vault class)))
    ∧ limit ≤ fetch_limit limit ≤ Nat.max limit 100
    ∧ (length (ranked_lessons ix vault class) ≤ fetch_limit limit →
         out = take limit (lesson_of <$> filter uncodified (ranked_lessons ix vault class)))
    ∧ ∀ l, l ∈ out → ∃ sr,
        sn_notes ix !! (vault, le_note_id l) = Some sr
        ∧ r_section (sn_row sr) = lit "lessons-learned" ∧ r_status (sn_row sr) ≠ lit "downgraded"
        ∧ sn_forgotten sr = 0%Z ∧ CODIFIED ∉ le_tags l.
Proof.
  set (ranked := ranked_lessons ix vault class).
  assert (∀ x, x ∈ ranked → ulid_text x.1.1.2 = Some x.1.1.2) as Hids.
  { intros x (_ & Hr & Hl)%ranked_lessons_row. rewrite (ids _ _ Hr). unfold is_lesson in Hl. reflect_bools.
    by destruct (is_sentinel _). }
  exists (take limit (lesson_of <$> filter uncodified (take (fetch_limit limit) ranked))).
  split_and!; [| |unfold fetch_limit; lia|unfold fetch_limit, OVERFETCH_CAP; lia|by intros ?; rewrite (take_ge ranked)|].
  - unfold recall_lessons. rewrite accepted. cbn [negb]. fold ranked. destruct limit as [|limit].
    + by rewrite !take_0.
    + rewrite recall_loop_exact; [done| |cbn; lia]. intros x (i & Hx & _)%elem_of_take.
      by eapply Hids, list_elem_of_lookup_2.
  - done.
  - intros l (i & Hl & _)%elem_of_take. apply list_elem_of_lookup_2, list_elem_of_fmap in Hl as (x & -> & Hx).
    apply list_elem_of_filter in Hx as [Hu (j & Hx & _)%elem_of_take].
    apply list_elem_of_lookup_2, ranked_lessons_row in Hx as (Hv & Hr & Hl). exists x.1.2.
    unfold is_lesson in Hl. reflect_bools. cbn [lesson_of le_note_id le_tags].
    rewrite <- Hv, <- surjective_pairing. done.
Qed.
End lessons.
