(* ===== verification/SearchWitness.v ===== *)
(** * SearchWitness: the search theorems at work

    A small index with a public note, an agent's soul, a classified note, a raw capture and
    a note of another vault, searched by an agent that may read one vault but not its
    classified notes, with an embedder whose semantic arm finds nothing. *)

From S2P Require Import Prelude Job Text Scope Acl Registry TenantGuard Notes ProjectServer NoteStore Float RankFusion SearchIndex SearchServer SearchSafety SearchQuery SearchLessons.
From Stdlib Require Import SpecFloat.

#[local] Open Scope Z_scope.

Module SearchExamples.

(** ** Fusion *)

Definition lexical : list (string * f64) := [("a", f64_of_Z (-9)); ("b", f64_of_Z (-2))].
Definition semantic : list (string * f32) := [("b", f32_of_Z 1); ("c", f32_of_f64 f64_half)].

Lemma fusion_exact_witness :
  ∃ ids : list string,
    note_id <$> fuse true lexical semantic K_RRF 2 = take 2 ids
    ∧ (∀ id, id ∈ ids ↔ id ∈ ["a"; "b"]%string ∨ id ∈ ["b"; "c"]%string).
Proof.
  destruct (fusion_exact true lexical semantic K_RRF) as (ids & _ & Hin & _ & _ & Hl).
  - eexists _, _. vm_compute. reflexivity.
  - apply (bool_decide_unpack (NoDup lexical.*1)). by vm_compute.
  - apply (bool_decide_unpack (NoDup semantic.*1)). by vm_compute.
  - intros id x Hx. apply list_elem_of_In in Hx. by destruct Hx as [[= <- <-]|[[= <- <-]|[]]]; vm_compute.
  - intros id x Hx. apply list_elem_of_In in Hx. by destruct Hx as [[= <- <-]|[[= <- <-]|[]]]; vm_compute.
  - by vm_compute.
  - by vm_compute.
  - exists ids. split; [apply (Hl 2%nat)|exact Hin].
Defined.

Lemma lexical_ranking_reversed_witness :
  StronglySorted (λ a b, cmp_f64 (rrf_score a) (rrf_score b) = Lt)
    (rrf_fuse_short_circuit (lexical_list [("best", 9%nat); ("worst", 2%nat)]) [] K_RRF 10).
Proof.
  apply (lexical_ranking_reversed [("best"%string, 9%nat); ("worst"%string, 2%nat)] K_RRF 10).
  - repeat constructor; cbn; lia.
  - intros h Hh. apply list_elem_of_In in Hh. destruct Hh as [<-|[<-|[]]]; cbn; lia.
Defined.

(** ** A search *)

#[local] Instance flat_libm : Libm := {| exp _ := f64_one; powf _ _ := f64_one; powf32 _ _ := f32_of_Z 1 |}.
#[local] Instance body_match : Fts5 := {|
  fts_accepts _ := true;
  fts_hit ix q k :=
    sr ← sn_notes ix !! k;
    if bool_decide (r_body_text (sn_row sr) = q)
    then Some (f64_of_Z (- Z.of_N (r_version (sn_row sr))), q) else None |}.
#[local] Instance plain_ids : UlidText := λ s, if is_sentinel (text_of s) then None else Some s.
#[local] Instance ascii_letters : UnicodeTables := ascii_tables.
#[local] Instance no_faults : IndexFaults := λ _, false.

Definition note_of (section : string) (rank : N) (tags : option ustr) : search_row :=
  mkSearchRow (mkRow None (lit section) (lit "live") None None None 1%N None 0 None 0%N rank
    (lit "alpha") None tags (lit "semantic") (lit "Static") None 50%N None None None) 0 None.

Definition sample_ix : search_index := mkSearchIndex
  (list_to_map [(("main", "N1"), note_of "decisions" 2 None); (("main", "N2"), note_of "identity" 3 None);
     (("main", "N3"), note_of "decisions" 4 (Some (lit "a personal-classified")));
     (("main", "N4"), note_of "snapshot" 5 None); (("main", "N5"), note_of "debug" 9 None);
     (("other", "N1"), note_of "decisions" 7 None)]%string) ∅ ∅ [].

Definition sample_search_engine : AclEngine :=
  match compile_all [mkConsumerEntry "agent" ["main/*"; "!main/personal*"] []] with
  | Ok cs => mkAclEngine cs
  | Err _ => mkAclEngine []
  end.

Definition sample_state : SearchState (St := Registry) := mkSearchState
  (mkAppState true sample_search_engine (seeded 0)) sample_ix
  (mkEmbedder false "e5" (λ _, Err "down"%string) (λ _, Err "down"%string)) (mkReranker 0 false (λ _ _, Ok []))
  (mkTrustDecay false ∅) None ∅ None.

Definition sample_request (vaults : option (list string)) : VaultSearchRequest :=
  mkSearchRequest None (lit " alpha ") None (Some (lit "live")) None false None None vaults false false true
    None None.
Definition sample_ck : Clock := mkClockReads (λ _, 0) (λ _, 0) 0 0.
Definition no_usage : UsageState := mkUsageState 0 ∅.
Definition agent : TrustContext := bearer "agent" "main" ["read"].

Definition searched (vaults : option (list string)) : result VaultSearchResponse GradatumError * UsageState :=
  vault_search_impl sample_state agent (sample_request vaults) sample_ck no_usage.

(** The soul, the classified note and the capture are withheld, and the note that matches
    worst comes first.  The count still includes the soul. *)
Example sample_paths :
  match (searched None).1 with
  | Ok resp => (sh_path <$> items resp, corpus_match_count resp)
  | Err _ => ([], None)
  end = (["decisions/N1"; "debug/N5"]%string, Some 3).
Proof. vm_compute. reflexivity. Qed.

Example sample_paths_multi :
  match (searched (Some ["other"]%string)).1 with
  | Ok resp => sh_path <$> items resp
  | Err _ => []
  end = ["decisions/N1"; "debug/N5"]%string.
Proof. vm_compute. reflexivity. Qed.

Lemma sample_ids : ids_known sample_ix.
Proof. by intros k sr _. Qed.

Lemma sample_names : names_plain sample_ix.
Proof.
  assert (map_Forall (λ (k : note_key) (_ : search_row), plain_name k.1) (sn_notes sample_ix)) as H.
  { unfold plain_name. match goal with |- ?P => apply (bool_decide_unpack P) end. by vm_compute. }
  intros v n sr Hr. exact (H _ _ Hr).
Qed.

Lemma search_shows_only_permitted_witness :
  ∃ resp u', searched None = (Ok resp, u')
    ∧ items resp ≠ []
    ∧ ∀ item, item ∈ items resp → ∃ note sr,
        sn_notes sample_ix !! (sh_vault_id item, note) = Some sr
        ∧ r_section (sn_row sr) ≠ lit "identity".
Proof.
  destruct (searched None) as [[resp|e] u'] eqn:E; [|exfalso; vm_compute in E; discriminate E].
  exists resp, u'. split; [done|]. split; [vm_compute in E; intros Hn; simplify_eq|].
  destruct (search_shows_only_permitted sample_state agent (sample_request None) sample_ck no_usage u' resp
              sample_ids sample_names E) as (tenant & status & _ & _ & _ & Hitems).
  intros item Hitem. destruct (Hitems item Hitem) as (note & sr & section & H).
  exists note, sr. split; [apply H|]. apply H. by vm_compute.
Defined.

(** ** Lessons *)

#[local] Instance any_match : Fts5 := {|
  fts_accepts _ := true;
  fts_hit ix q k := (λ sr, (f64_of_Z (- Z.of_N (r_version (sn_row sr))), q)) <$> sn_notes ix !! k |}.

Definition lesson_ix : search_index := mkSearchIndex
  (list_to_map [(("main", "L1"), note_of "lessons-learned" 2 None);
     (("main", "L2"), note_of "lessons-learned" 3 (Some (lit "deploy codified")));
     (("main", "L3"), note_of "lessons-learned" 5 (Some (lit "deploy"))); (("main", "N1"), note_of "decisions" 9 None)
     ]%string) ∅ ∅ [].

Lemma recall_lessons_exact_witness :
  ∃ out, recall_lessons lesson_ix "main" (lit "deploy") 2 = Ok out
    ∧ le_note_id <$> out = ["L3"; "L1"]%string.
Proof.
  destruct (recall_lessons_exact lesson_ix "main" (lit "deploy") 2) as (out & Hout & Heq & _).
  - by intros k sr _.
  - done.
  - exists out. split; [done|]. rewrite Heq. by vm_compute.
Defined.
End SearchExamples.
