(* ===== verification/SessionTrace.v ===== *)
(** * SessionTrace: the journal of sessions

    [crates/gradatum-server/src/session_trace_store.rs], with the handler that appends to the
    journal ([api_v1/session_log.rs]) and the one that pages through it ([get_traces] of
    [api_v1/system.rs]).  The journal also remembers which notes were sent to a session
    ([mark_sent], [get_sent]), in rows that only the server writes.

    The table is the list of its rows in the order of insertion; [AUTOINCREMENT] never gives
    an identifier twice.  Which statements fail is a parameter. *)

From S2P Require Import Prelude Job Text Scope Acl Registry TenantGuard Notes Float Vault VaultHistory.
From Stdlib Require Import Ascii.

#[local] Open Scope Z_scope.

(** ** Rows *)

Record SessionTraceRow := mkTraceRow {
  tr_session_id : string;
  tr_agent_id : string;
  tr_ts_ms : Z;
  tr_action_type : string;
  tr_target : option string;
  tr_intent : option string;
  tr_outcome : option string;
  tr_marker : option ustr;
  tr_ref : option string;
}.

(** A stored row: its identifier, its tenant, the row and the time of its insertion. *)
Record stored_trace := mkStored {
  t_id : Z;
  t_tenant : TenantId;
  t_row : SessionTraceRow;
  t_created_at : Z;
}.

Record trace_table := mkTraces {
  t_rows : list stored_trace;
  t_last_id : Z;
}.

(** The statements of the store. *)
Inductive trace_call := CallGetSent | CallMarkSent (ulid : string) | CallInsertTrace | CallQueryTraces.
Class TraceFaults := trace_fails : trace_call → bool.

Inductive SessionTraceError := TraceSqlite.

Section store.
Context {TF : TraceFaults}.
Implicit Types (tb : trace_table).

Definition insert_at (call : trace_call) (tenant : TenantId) (r : SessionTraceRow) (created_at : Z) tb :
    result Z SessionTraceError * trace_table :=
  if trace_fails call then (Err TraceSqlite, tb)
  else
    let id := t_last_id tb + 1 in
    (Ok id, mkTraces (t_rows tb ++ [mkStored id tenant r created_at]) id).

(** [insert_trace]: the clock gives the time of insertion. *)
Definition insert_trace (tenant : TenantId) (r : SessionTraceRow) (now_ms : Z) tb :
    result Z SessionTraceError * trace_table :=
  insert_at CallInsertTrace tenant r now_ms tb.

Definition trace_count tb : Z := Z.of_nat (length (t_rows tb)).

(** [ORDER BY created_at ASC]; equal times in the order of insertion. *)
Definition by_created (a b : stored_trace) : comparison := t_created_at a ?= t_created_at b.

(** [purge]: by age, then the oldest rows above the cap. *)
Definition purge_traces (retention_cutoff_ms max_rows : Z) tb : Z * trace_table :=
  let kept := List.filter (λ t, negb (t_created_at t <? retention_cutoff_ms)) (t_rows tb) in
  let deleted_age := Z.of_nat (length (t_rows tb)) - Z.of_nat (length kept) in
  let current_count := Z.of_nat (length kept) in
  if max_rows <? current_count then
    let excess := take (Z.to_nat (current_count - max_rows)) (sort_by by_created kept) in
    let rest := List.filter (λ t, negb (existsb (λ x, t_id x =? t_id t) excess)) kept in
    (deleted_age + (current_count - Z.of_nat (length rest)), mkTraces rest (t_last_id tb))
  else (deleted_age, mkTraces kept (t_last_id tb)).

(** ** What was sent to a session *)

Definition AGENT_CONTEXT_WINDOW : string := "context-window".
Definition SENT_SNIPPET_MAX_CHARS : nat := 512.
Definition CONTEXT_SENT : string := "context-sent".

Record SentEntry := mkSent { se_snippet : ustr; se_ts_ms : Z }.

Definition mark_sent (tenant : TenantId) (session_id ulid : string) (snippet : ustr) (now_ms : Z) tb :
    result unit SessionTraceError * trace_table :=
  let row := mkTraceRow session_id AGENT_CONTEXT_WINDOW now_ms CONTEXT_SENT (Some ulid) None None
               (Some (take SENT_SNIPPET_MAX_CHARS snippet)) None in
  let '(r, tb) := insert_at (CallMarkSent ulid) tenant row now_ms tb in
  (match r with Ok _ => Ok tt | Err e => Err e end, tb).

(** The rows of a session that record a note sent, oldest first. *)
Definition sent_row (tenant : TenantId) (session_id : string) (t : stored_trace) : bool :=
  bool_decide (t_tenant t = tenant) && bool_decide (tr_session_id (t_row t) = session_id)
  && bool_decide (tr_action_type (t_row t) = CONTEXT_SENT).
Definition by_ts_then_id (a b : stored_trace) : comparison :=
  match tr_ts_ms (t_row a) ?= tr_ts_ms (t_row b) with Eq => t_id a ?= t_id b | c => c end.
Definition sent_rows (tenant : TenantId) (session_id : string) tb : list stored_trace :=
  sort_by by_ts_then_id (List.filter (sent_row tenant session_id) (t_rows tb)).

(** [map.entry(k).or_insert(v)]. *)
Definition or_insert {V} (m : gmap string V) (kv : string * V) : gmap string V :=
  match m !! kv.1 with Some _ => m | None => <[kv.1 := kv.2]> m end.

Definition sent_entry (t : stored_trace) : option (string * SentEntry) :=
  ulid ← tr_target (t_row t); snippet ← tr_marker (t_row t);
  Some (ulid, mkSent snippet (tr_ts_ms (t_row t))).

Definition get_sent (tenant : TenantId) (session_id : string) tb :
    result (gmap string SentEntry) SessionTraceError :=
  if trace_fails CallGetSent then Err TraceSqlite
  else Ok (foldl or_insert ∅ (omap sent_entry (sent_rows tenant session_id tb))).

(** ** Reading the journal *)

Record TraceCursor := mkCursor { cur_created_at : Z; cur_id : Z }.
Record TraceQuery := mkTraceQuery {
  tq_tenant_id : TenantId;
  tq_action_type : option string;
  tq_agent_id : option string;
  tq_session_id : option string;
  tq_from_ms : option Z;
  tq_to_ms : option Z;
  tq_cursor : option TraceCursor;
  tq_limit : Z;
}.

Definition asked (o : option string) (x : string) : bool := unless_null o (λ v, bool_decide (x = v)).

(** The clauses without the cursor. *)
Definition trace_where (q : TraceQuery) (t : stored_trace) : bool :=
  let r := t_row t in
  bool_decide (t_tenant t = tq_tenant_id q) && negb (bool_decide (tr_action_type r = CONTEXT_SENT))
  && asked (tq_action_type q) (tr_action_type r) && asked (tq_agent_id q) (tr_agent_id r)
  && asked (tq_session_id q) (tr_session_id r)
  && unless_null (tq_from_ms q) (λ f, f <=? tr_ts_ms r) && unless_null (tq_to_ms q) (λ u, tr_ts_ms r <=? u).
Definition after_cursor (cur : option TraceCursor) (t : stored_trace) : bool :=
  unless_null cur (λ c, (t_created_at t <? cur_created_at c)
                        || ((t_created_at t =? cur_created_at c) && (t_id t <? cur_id c))).

(** [ORDER BY created_at DESC, id DESC]. *)
Definition newest_first (a b : stored_trace) : comparison :=
  match t_created_at b ?= t_created_at a with Eq => t_id b ?= t_id a | c => c end.

Definition query_traces (q : TraceQuery) tb : result (list stored_trace) SessionTraceError :=
  if trace_fails CallQueryTraces then Err TraceSqlite
  else Ok (take (Z.to_nat (tq_limit q + 1))
             (sort_by newest_first
                (List.filter (λ t, trace_where q t && after_cursor (tq_cursor q) t) (t_rows tb)))).
End store.

(** ** [POST /api/v1/session-log/trace] *)

Definition MAX_INTENT : Z := 200.
Definition MAX_TARGET : Z := 512.
Definition MAX_ACTION : Z := 64.
Definition ULID_LEN : nat := 26.
Definition OUTCOMES : list string := ["success"; "failure"; "partial"]%string.
Definition MAX_TS_DRIFT_MS : Z := 60000.

Definition is_ascii_alpha (c : ascii) : bool := is_ascii_lowercase c || char_between "A"%char "Z"%char c.
Definition is_ascii_alnum (c : ascii) : bool := is_ascii_alpha c || is_ascii_digit c.
Definition is_ascii_hexdigit (c : ascii) : bool :=
  is_ascii_digit c || char_between "a"%char "f"%char c || char_between "A"%char "F"%char c.

Definition is_ulid_shape (s : string) : bool := (String.length s =? ULID_LEN)%nat && all_chars is_ascii_alnum s.

Definition sha_shape (s : string) : bool :=
  let n := String.length s in (7 <=? n)%nat && (n <=? 40)%nat && all_chars is_ascii_hexdigit s.

(** [s.split_once('/')]. *)
Fixpoint split_slash (s : string) : option (string * string) :=
  match s with
  | EmptyString => None
  | String c s' =>
      if is_char "/"%char c then Some (""%string, s')
      else '(a, b) ← split_slash s'; Some (String c a, b)
  end.

Definition valid_ref (s : string) : bool :=
  is_ulid_shape s || sha_shape s
  || match split_slash s with
     | Some (sec, id) =>
         negb (bool_decide (sec = ""%string))
         && all_chars (λ c, is_ascii_alnum c || is_char "-"%char c || is_char "_"%char c) sec
         && is_ulid_shape id
     | None => false
     end.

Record SessionTraceRequest := mkTraceRequest {
  sr_tenant_id : option TenantId;
  sr_session_id : option string;
  sr_ts_ms : Z;
  sr_action_type : string;
  sr_target : option string;
  sr_intent : option string;
  sr_outcome : option string;
  sr_ref : option string;
}.

Definition str_bytes (s : string) : Z := Z.of_nat (String.length s).
Definition refused {A} (f : A → bool) (o : option A) : bool := match o with Some a => f a | None => false end.

(** The bounds on the fields: a request outside them is unprocessable. *)
Definition out_of_bounds (req : SessionTraceRequest) (now_ms : Z) : bool :=
  bool_decide (sr_action_type req = ""%string) || (MAX_ACTION <? str_bytes (sr_action_type req))
  || refused (λ s, MAX_INTENT <? str_bytes s) (sr_intent req)
  || refused (λ s, MAX_TARGET <? str_bytes s) (sr_target req)
  || refused (λ s, negb (bool_decide (s ∈ OUTCOMES))) (sr_outcome req)
  || refused (λ s, negb (valid_ref s)) (sr_ref req)
  || (sr_ts_ms req <? 0) || (now_ms + MAX_TS_DRIFT_MS <? sr_ts_ms req).

Section handlers.
Context {TF : TraceFaults} {GS : Globset} {St : Type} {IS : IndexStore St}.
Implicit Types (state : AppState (St := St)) (trust : TrustContext).

(** [fresh] is the identifier generated when the request names no session, [now_ms] and
    [insert_ms] the two readings of the clock. *)
Definition post_session_trace state trust (req : SessionTraceRequest) (fresh : string) (now_ms insert_ms : Z)
    (store : option trace_table) : result (Z * string) StatusCode * option trace_table :=
  if negb (is_authenticated trust) then (Err UNAUTHORIZED, store)
  else
    match trust with
    | BearerToken _ _ sub _ tenant _ =>
        if refused (λ b, negb (bool_decide (b = tenant))) (sr_tenant_id req) then (Err UNPROCESSABLE_ENTITY, store)
        else if negb (bool_decide (evaluate (acl state) trust AclWrite (tenant +:+ "/session-log") = Allow))
        then (Err FORBIDDEN, store)
        else if negb (write_scope_allowed state trust) then (Err FORBIDDEN, store)
        else if out_of_bounds req now_ms then (Err UNPROCESSABLE_ENTITY, store)
        else if refused (λ s, negb (is_ulid_shape s)) (sr_session_id req) then (Err UNPROCESSABLE_ENTITY, store)
        else
          let session_id := default fresh (sr_session_id req) in
          match store with
          | None => (Err SERVICE_UNAVAILABLE, store)
          | Some tb =>
              let row := mkTraceRow session_id sub (sr_ts_ms req) (sr_action_type req) (sr_target req)
                           (sr_intent req) (sr_outcome req) None (sr_ref req) in
              match insert_trace tenant row insert_ms tb with
              | (Ok id, tb) => (Ok (id, session_id), Some tb)
              | (Err _, tb) => (Err INTERNAL_SERVER_ERROR, Some tb)
              end
          end
    | _ => (Err UNAUTHORIZED, store)
    end.

(** ** [GET /api/v1/system/traces] *)

Definition TRACES_LIMIT_DEFAULT : Z := 50.
Definition TRACES_LIMIT_MAX : Z := 200.

Record TracesQuery := mkTracesQuery {
  gq_action_type : option string;
  gq_agent_id : option string;
  gq_session_id : option string;
  gq_from_ms : option Z;
  gq_to_ms : option Z;
  gq_cursor : option ustr;
  gq_limit : option Z;
}.
Record TracesResponse := mkTracesResponse {
  traces : list stored_trace;
  next_cursor : option ustr;
}.

Definition CURSOR_SEP : ustr := lit "_".

Definition parse_trace_cursor (s : ustr) : option TraceCursor :=
  '(created, id) ← split_once CURSOR_SEP s;
  created_at ← parse_i64 created; id ← parse_i64 id; Some (mkCursor created_at id).
(** [format!("{}_{}", created_at, id)]. *)
Definition fmt_trace_cursor (t : stored_trace) : ustr := fmt_i64 (t_created_at t) ++ CURSOR_SEP ++ fmt_i64 (t_id t).

Definition cursor_of (q : TracesQuery) : result (option TraceCursor) StatusCode :=
  match gq_cursor q with
  | None => Ok None
  | Some s => match parse_trace_cursor s with Some c => Ok (Some c) | None => Err BAD_REQUEST end
  end.

Definition get_traces state trust (q : TracesQuery) (store : option trace_table) :
    result TracesResponse StatusCode :=
  if negb (is_authenticated trust) then Err UNAUTHORIZED
  else
    _ ?<- resolve_read_vault state trust "main" "dashboard";
    if match gq_from_ms q, gq_to_ms q with Some f, Some u => u <? f | _, _ => false end then Err BAD_REQUEST
    else
      cursor ?<- cursor_of q;
      let limit := Z.max 1 (Z.min TRACES_LIMIT_MAX (default TRACES_LIMIT_DEFAULT (gq_limit q))) in
      match store with
      | None => Err INTERNAL_SERVER_ERROR
      | Some tb =>
          let tenant := default "main"%string (trust_tenant_id trust) in
          let tq := mkTraceQuery tenant (gq_action_type q) (gq_agent_id q) (gq_session_id q) (gq_from_ms q)
                      (gq_to_ms q) cursor limit in
          match query_traces tq tb with
          | Err _ => Err INTERNAL_SERVER_ERROR
          | Ok rows =>
              if limit <? Z.of_nat (length rows) then
                let page := take (Z.to_nat limit) rows in
                Ok (mkTracesResponse page (fmt_trace_cursor <$> last page))
              else Ok (mkTracesResponse rows None)
          end
      end.
End handlers.
