(* ===== verification/ContextRetrieval.v ===== *)
(** * ContextRetrieval: the candidates of a context, and their selection

    [retrieval.rs] and [select.rs] of [crates/gradatum-server/src/context], with the reads of
    the index they make: candidates found by words and by meaning, or named by an identifier;
    their composite scores; and the choice of those whose text fits a budget of tokens, the
    others being reduced to references.

    The embedder answers or fails; a call that outlasts its timeout is a failure.  The dates
    of the chrono crate are the class [Chrono].  Log lines are not modelled.

    The first part models the texts of a context ([tokens.rs], [reference.rs], [render.rs]):
    the estimate of tokens, the compact reference to a note, and the Markdown in which notes
    and references reach a language model. *)

From S2P Require Import Prelude Job Text Scope Acl Registry TenantGuard Notes ProjectServer NoteStore Float RankFusion SearchIndex SearchServer.
From Stdlib Require Import SpecFloat.

#[local] Open Scope Z_scope.

(** * The texts of a context *)

(** ** Tokens *)

(** The trait [TokenEstimator]. *)
Class TokenEstimator := estimate : ustr → Z.

(** [HeuristicEstimator]: words times 1.3, between a sixth and a half of the characters. *)
Definition heuristic_estimate (text : ustr) : Z :=
  if bool_decide (text = []) then 0
  else
    let words := f64_of_Z (Z.of_nat (length (split_whitespace text))) in
    let chars := f64_of_Z (Z.of_nat (length text)) in
    f64_round_as_u32
      (f64_max (f64_min (f64_max (f64_mul words (f64_lit 13 10)) (f64_div chars (f64_of_Z 6)))
                  (f64_div chars (f64_of_Z 2))) f64_one).

Definition HeuristicEstimator : TokenEstimator := heuristic_estimate.

Lemma u32_of_f64_range (to_int : positive → Z → Z) x :
  (∀ m e, 0 ≤ to_int m e) → 0 ≤ u32_of_f64 to_int x ≤ u32_modulus - 1.
Proof.
  intros H. unfold u32_of_f64. assert (0 ≤ u32_modulus - 1) by done.
  destruct x as [[]|[]| |[] m e]; try lia; specialize (H m e); lia.
Qed.

(** An estimate is a [u32]. *)
Lemma heuristic_range text : 0 ≤ heuristic_estimate text ≤ u32_modulus - 1.
Proof.
  unfold heuristic_estimate. case_bool_decide; [done|]. apply u32_of_f64_range. intros m e. unfold dyadic_round.
  destruct (Z.leb_spec 0 e); [apply Z.mul_nonneg_nonneg; [done|]|apply Z.div_pos]; try lia.
Qed.

(** ** Selected notes and stubs *)

Record Selected := mkSelected {
  sel_note_id : string;
  sel_title : ustr;
  sel_section : ustr;
  sel_date : ustr;
  sel_score : f64;
  sel_body : ustr;
}.

Record Stub := mkStub {
  st_ulid : string;
  st_title : ustr;
  st_section : ustr;
  st_snippet : ustr;
}.

Definition NEWLINE : uchar := 10%N.
Definition flat (c : uchar) : uchar := if (c =? NEWLINE)%N then 32%N else c.

(** The first characters of the body, on one line. *)
Definition stub_from_selected (sel : Selected) (snippet_max_chars : nat) : Stub :=
  mkStub (sel_note_id sel) (sel_title sel) (sel_section sel) (take snippet_max_chars (flat <$> sel_body sel)).

(** The separators of the rendered line: a middle dot, a section sign and a dash. *)
Definition MIDDOT : ustr := [32; 183; 32]%N.
Definition SECTION_SIGN : ustr := [167]%N.
Definition EM_DASH : ustr := [8212]%N.

Definition render_stub (s : Stub) : ustr :=
  lit "@ref " ++ text_of (st_ulid s) ++ MIDDOT ++ st_title s ++ MIDDOT ++ SECTION_SIGN ++ st_section s
  ++ [32]%N ++ EM_DASH ++ [32]%N ++ st_snippet s.

(** ** Rendering *)

Definition PART_SEPARATOR : ustr := [10; 10; 45; 45; 45; 10; 10]%N.

Definition render_raw (parts : list ustr) : ustr := join PART_SEPARATOR parts.

Definition render_references_block (stubs : list Stub) : ustr :=
  if bool_decide (stubs = []) then []
  else [10; 10]%N ++ lit "## References" ++ [10; 10]%N ++ join [NEWLINE] (render_stub <$> stubs).

(** [format!("{}", n)] of a number that is not negative. *)
Definition decimal (n : Z) : ustr := fmt_nat (Z.to_N n).

(** Hundredths of [m * 2^e], rounded to the nearest integer, halves to the even one. *)
Definition hundredths (m : positive) (e : Z) : Z :=
  let n := Zpos m * 100 in
  if 0 <=? e then n * 2 ^ e
  else
    let d := 2 ^ (- e) in
    let q := n / d in
    match (2 * (n mod d)) ?= d with
    | Lt => q
    | Gt => q + 1
    | Eq => if Z.even q then q else q + 1
    end.
Definition fixed2 (h : Z) : ustr :=
  decimal (h / 100) ++ lit "." ++ decimal (h mod 100 / 10) ++ decimal (h mod 10).
(** [format!("{:.2}", x)]. *)
Definition format_2 (x : f64) : ustr :=
  let sign (s : bool) := if s then lit "-" else [] in
  match x with
  | S754_nan => lit "NaN"
  | S754_infinity s => sign s ++ lit "inf"
  | S754_zero s => sign s ++ fixed2 0
  | S754_finite s m e => sign s ++ fixed2 (hundredths m e)
  end.

(** Better scores first, equal ones by identifier. *)
Definition by_score_then_id (a b : string * f64) : comparison :=
  match cmp_f64 b.2 a.2 with Eq => String.compare a.1 b.1 | c => c end.
Definition by_rank (a b : Selected) : comparison :=
  by_score_then_id (sel_note_id a, sel_score a) (sel_note_id b, sel_score b).

Definition note_block (n : Selected) : ustr :=
  lit "### " ++ sel_title n ++ MIDDOT ++ sel_section n ++ MIDDOT ++ sel_date n ++ MIDDOT ++ lit "score="
  ++ format_2 (sel_score n) ++ [NEWLINE] ++ sel_body n ++ [NEWLINE; NEWLINE] ++ EM_DASH ++ lit " source: [["
  ++ text_of (sel_note_id n) ++ lit "]]".

Definition render_assembled (query : ustr) (notes : list Selected) (stubs : list Stub) : ustr :=
  if bool_decide (notes = []) then []
  else
    let sorted := sort_by by_rank notes in
    let n := Z.of_nat (length sorted) in
    let suffix := if n =? 1 then [] else lit "s" in
    let header := lit "Context assembled for: " ++ [171]%N ++ query ++ [187]%N ++ MIDDOT ++ decimal n
                  ++ lit " note" ++ suffix in
    let inline_block := header ++ [NEWLINE; NEWLINE] ++ join PART_SEPARATOR (note_block <$> sorted) in
    if bool_decide (stubs = []) then inline_block else inline_block ++ render_references_block stubs.

(** ** Samples *)

Example estimate_sentence : heuristic_estimate (lit "The quick brown fox jumps over the lazy dog.") = 12.
Proof. by vm_compute. Qed.
Example estimate_dense : heuristic_estimate (repeat 120%N 600) = 100.
Proof. by vm_compute. Qed.
Example format_2_samples :
  format_2 <$> [f64_lit 1 8; f64_lit 3 8; f64_lit 3 2; f64_lit 1 3; f64_of_Z (-7); f64_lit 995 1000]
  = lit <$> ["0.12"; "0.38"; "1.50"; "0.33"; "-7.00"; "0.99"]%string.
Proof. by vm_compute. Qed.

(** * ContextRetrieval *)

(** ** Reads of the index *)

(** [get_note_inner]: the row of a note that is not a sentinel. *)
Definition note_record (ix : search_index) (vault : VaultId) (id : string) : option index_row :=
  if is_sentinel (text_of id) then None else sn_row <$> sn_notes ix !! (vault, id).

(** [backlinks]: the sources of the links to a note, newest first. *)
Definition backlinks (ix : search_index) (vault : VaultId) (id : string) : list string :=
  nl_src <$> sort_by (λ a b, nl_created_at b ?= nl_created_at a)
               (List.filter (λ l, bool_decide (nl_dst l = id) && bool_decide (nl_vault l = vault)) (note_links ix)).

(** [list_notes] of a section from its beginning. *)
Definition in_listing (vault : VaultId) (section : option ustr) (k : note_key) (sr : search_row) : bool :=
  bool_decide (k.1 = vault) && unless_null section (λ s, bool_decide (r_section (sn_row sr) = s))
  && negb (is_sentinel (text_of k.2)) && negb (bool_decide (r_status (sn_row sr) = DOWNGRADED)).
Definition list_notes (ix : search_index) (vault : VaultId) (section : option ustr) (limit : nat) :
    list (string * index_row) * Z :=
  let rows := List.filter (λ kr : note_key * search_row, in_listing vault section kr.1 kr.2)
                (map_to_list (sn_notes ix)) in
  let sorted := sort_by (λ a b : note_key * search_row, String.compare a.1.2 b.1.2) rows in
  ((λ kr : note_key * search_row, (kr.1.2, sn_row kr.2)) <$> take (Nat.max 1 (Nat.min 200 limit)) sorted,
   Z.of_nat (length rows)).

(** [filter_semantic_by_sections] of [handlers.rs]. *)
Definition filter_semantic_by_sections (semantic_hits : list (string * f32)) (wanted : list ustr)
    (sec_result : result (gmap string (option ustr * ustr)) GradatumError) : list (string * f32) :=
  match sec_result with
  | Ok sec_map =>
      List.filter (λ h, match sec_map !! h.1 with Some (_, sec) => bool_decide (sec ∈ wanted)
                                               | None => false end) semantic_hits
  | Err _ => []
  end.

(** [DateTime::from_timestamp_millis(ms).map(to_rfc3339)]. *)
Class Chrono := iso_date : Z → option ustr.
Definition date_text `{Chrono} (ms : Z) : ustr := default (lit "1970-01-01T00:00:00+00:00") (iso_date ms).

(** ** Retrieval *)

Record Candidate := mkCandidate { c_note_id : string; c_rrf_score : f64 }.
Inductive RetrievalKind := Rrf | UlidDirect.
Record RetrievalOutcome := mkOutcome {
  ro_candidates : list Candidate;
  ro_query_embedding : option (list f32);
  ro_embed_fallback : bool;
  ro_kind : RetrievalKind;
}.

(** The test of a query that is empty once quotes and spaces are trimmed. *)
Definition nothing_to_match (fts_q : ustr) : bool :=
  forallb (λ c, bool_decide (c = DQUOTE) || bool_decide (c = SPACE)) fts_q.

Definition candidate_of_hit (h : RrfHit) : Candidate := mkCandidate (note_id h) (rrf_score h).

Section retrieval.
Context {LM : Libm} {FTS : Fts5} {UT : UlidText} {UN : UnicodeTables} {IF : IndexFaults} {CH : Chrono}.
Context {GS : Globset} {St : Type} {IS : IndexStore St}.
Implicit Types (st : SearchState (St := St)) (trust : TrustContext).

(** [backlinks(…).unwrap_or_default()]. *)
Definition backlinks_or_none st (vault : VaultId) (id : string) : list string :=
  match attempt (CallBacklinks vault id) (Ok (backlinks (ss_index st) vault id)) with Ok l => l | Err _ => [] end.

(** The semantic hits within the sections, the embedding, and whether the arm failed. *)
Definition context_semantic st (ck : Clock) (vault : VaultId) (query : ustr) (sections : option (list ustr))
    (top_n : nat) : list (string * f32) * option (list f32) * bool :=
  let ix := ss_index st in
  if emb_noop (ss_embedder st) then ([], None, true)
  else
    match embed (ss_embedder st) query with
    | Err _ => ([], None, true)
    | Ok emb =>
        match attempt (CallSemantic vault)
                (search_semantic_inner ix vault (embedder_id (ss_embedder st)) emb (top_n * 2) None
                   (sem_now ck vault)) with
        | Err _ => ([], None, true)
        | Ok hits =>
            let hits := match sections with
                        | Some wanted =>
                            if bool_decide (hits = []) then hits
                            else filter_semantic_by_sections hits wanted
                                   (attempt (CallSectionFilter vault) (Ok (get_titles_sections ix vault hits.*1)))
                        | None => hits
                        end in
            (hits, Some emb, false)
        end
    end.

Definition retrieve_candidates st (ck : Clock) (vault : VaultId) (query : ustr)
    (sections : option (list ustr)) (top_n : nat) : result RetrievalOutcome GradatumError :=
  match ulid_text (native (trim query)) with
  | Some ulid_str =>
      let ids := ulid_str :: backlinks_or_none st vault ulid_str in
      Ok (mkOutcome ((λ id, mkCandidate id f64_one) <$> ids) None false UlidDirect)
  | None =>
      let fts_q := build_fts_query query in
      if nothing_to_match fts_q then Ok (mkOutcome [] None false Rrf)
      else
        bm25_hits ?<- attempt (CallFts vault)
          (search_fts_with_snippet (ss_index st) vault fts_q (top_n * 2) false None None None None None
             (fts_now ck vault));
        let bm25_hits := match sections with
                         | None => bm25_hits
                         | Some set => List.filter (λ h, bool_decide (raw_section h ∈ set)) bm25_hits
                         end in
        let bm25 := (λ h, (raw_id h, raw_bm25 h)) <$> bm25_hits in
        let '(sem, emb, fallback) := context_semantic st ck vault query sections top_n in
        let fused := if hybrid st then rrf_fuse_short_circuit bm25 sem K_RRF top_n
                     else rrf_fuse bm25 sem K_RRF top_n in
        Ok (mkOutcome (candidate_of_hit <$> fused) emb fallback Rrf)
  end.

(** ** Selection *)

Context {TE : TokenEstimator}.

Definition STUB_SNIPPET_CHARS : nat := 120.

(** The composite score of a candidate; a note whose data cannot be read is left out. *)
Definition score_candidate st (tenant : VaultId) (weights : ResolvedWeights) (now_ms : Z)
    (anchors : gmap string Z) (sections : gmap string (option ustr * ustr)) (c : Candidate) :
    option (Candidate * f64) :=
  match attempt (CallCreated tenant (c_note_id c))
          (get_note_created_and_indegree (ss_index st) tenant (c_note_id c)) with
  | Err _ => None
  | Ok (created_ms, in_degree) =>
      let anchor := default created_ms (anchors !! c_note_id c) in
      let recency := recency_factor anchor now_ms in
      let pagerank := pagerank_factor in_degree in
      let age_days := f64_div (f64_of_Z (Z.max (now_ms - created_ms) 0)) MS_PER_DAY in
      let section := from_option snd [] (sections !! c_note_id c) in
      let trust_params := resolve_for_section (ss_scoring st) section age_days in
      Some (c, composite_score_weighted (c_rrf_score c) recency pagerank trust_params weights)
  end.

Definition by_score_then_ulid (a b : Candidate * f64) : comparison :=
  by_score_then_id (c_note_id a.1, a.2) (c_note_id b.1, b.2).

Definition rank_candidates st (tenant : VaultId) (weights : ResolvedWeights) (now_ms : Z)
    (candidates : list Candidate) : list (Candidate * f64) :=
  let ids := c_note_id <$> candidates in
  let anchors := or_empty (attempt (CallAnchors tenant) (Ok (get_anchor_ms_batch (ss_index st) tenant ids))) in
  let sections := or_empty (attempt (CallTitles tenant) (Ok (get_titles_sections (ss_index st) tenant ids))) in
  sort_by by_score_then_ulid (omap (score_candidate st tenant weights now_ms anchors sections) candidates).

(** [get_note], as the note to show. *)
Definition fetch st (tenant : VaultId) (ranked : Candidate * f64) : option Selected :=
  let id := c_note_id ranked.1 in
  match attempt (CallNote tenant id) (Ok (note_record (ss_index st) tenant id)) with
  | Ok (Some r) => Some (mkSelected id (default (text_of id) (r_title r)) (r_section r)
                           (date_text (r_created r)) ranked.2 (r_body_text r))
  | _ => None
  end.

(** [a.saturating_add(b)] of [u32]. *)
Definition sat_add_u32 (a b : Z) : Z := Z.min (a + b) (u32_modulus - 1).

(** The notes shown in full while they fit, what they cost, and the candidates left. *)
Fixpoint inline_phase st (tenant : VaultId) (budget used : Z) (scored : list (Candidate * f64)) :
    list Selected * Z * list (Candidate * f64) :=
  match scored with
  | [] => ([], used, [])
  | c :: rest =>
      if budget <=? used then ([], used, scored)
      else match fetch st tenant c with
           | None => inline_phase st tenant budget used rest
           | Some sel =>
               let used' := sat_add_u32 used (estimate (sel_body sel)) in
               if budget <? used' then ([], used, scored)
               else let '(inline, total, over) := inline_phase st tenant budget used' rest in
                    (sel :: inline, total, over)
           end
  end.

(** References while they fit; one that does not is dropped, and the next is tried. *)
Fixpoint stub_phase st (tenant : VaultId) (stub_budget used : Z) (scored : list (Candidate * f64)) : list Stub :=
  match scored with
  | [] => []
  | c :: rest =>
      if stub_budget <=? used then []
      else match fetch st tenant c with
           | None => stub_phase st tenant stub_budget used rest
           | Some sel =>
               let stub := stub_from_selected sel STUB_SNIPPET_CHARS in
               let used' := sat_add_u32 used (estimate (render_stub stub)) in
               if used' <=? stub_budget then stub :: stub_phase st tenant stub_budget used' rest
               else stub_phase st tenant stub_budget used rest
           end
  end.

Definition select_budget_aware st (tenant : VaultId) (candidates : list Candidate)
    (weights : ResolvedWeights) (budget stub_budget now_ms : Z) : list Selected * list Stub * Z :=
  let scored := rank_candidates st tenant weights now_ms candidates in
  let '(inline, used, over) := inline_phase st tenant budget 0 scored in
  (inline, stub_phase st tenant stub_budget 0 over, used).
End retrieval.
