(* ===== verification/ContextPack.v ===== *)
(** * ContextPack: [POST /api/v1/vault_context]

    [mod.rs], [compact.rs] and [skills.rs] of [crates/gradatum-server/src/context], and
    [vault_context_impl] of [api_v1/logic.rs]: the three ways in which a context is put
    together (raw, assembled, compact), the notes a session has already received, the skills
    placed in front, and the checks of the request.

    The state that a request changes is the journal of SessionTrace.v and the cache of
    skills.  Metrics are not modelled. *)

From S2P Require Import Prelude Job Text Scope Acl Registry TenantGuard Notes ProjectServer NoteStore Float RankFusion SearchIndex SearchServer SessionTrace ContextRetrieval.
From Stdlib Require Import Ascii SpecFloat.

#[local] Open Scope Z_scope.

(** ** Requests and answers *)

Inductive ContextMode := Assembled | Raw | Compact.
Record ScoringWeights := mkScoringWeights {
  sw_recency : option f64;
  sw_pagerank : option f64;
  sw_trust : option f64;
}.
Record VaultContextRequest := mkContextRequest {
  cr_tenant_id : option TenantId;
  cr_query : ustr;
  cr_max_tokens : option Z;
  cr_budget_tokens : option Z;
  cr_section : option ustr;
  cr_mode : ContextMode;
  cr_scoring : option ScoringWeights;
  cr_inject_skills : bool;
  cr_skill_query : option ustr;
  cr_reference_mode : bool;
  cr_session_id : option string;
}.

Record IncludedNote := mkIncluded {
  in_ulid : string;
  in_title : ustr;
  in_section : ustr;
  in_date : ustr;
  in_score : f64;
}.
Record ContextDiagnostics := mkDiagnostics {
  candidates_considered : Z;
  included_count : Z;
  embed_fallback : bool;
  skills_injected : Z;
}.
Record ContextCounts := mkCounts { cc_inline : Z; cc_stub : Z; cc_dropped : Z }.
Record VaultContextResponse := mkContextResponse {
  assembled_text : ustr;
  included : list IncludedNote;
  budget_used : Z;
  diagnostics : ContextDiagnostics;
  references : list Stub;
  counts : ContextCounts;
  cache_breakpoint_hint : bool;
}.

Definition empty_context (fallback : bool) : VaultContextResponse :=
  mkContextResponse [] [] 0 (mkDiagnostics 0 0 fallback 0) [] (mkCounts 0 0 0) false.

Record ContextConfig := mkContextConfig {
  default_budget_tokens : Z;
  top_n_candidates : nat;
  max_skills : nat;
  skills_budget_fraction : f64;
  stub_budget_tokens : Z;
  cache_breakpoint_threshold_tokens : Z;
}.

(** ** Skills *)

Record SkillEntry := mkSkill {
  sk_ulid : string;
  sk_title : ustr;
  sk_body : ustr;
  sk_embedding : list f32;
}.
Abbreviation SkillIndex := (list SkillEntry).

Definition cosine_similarity (a b : list f32) : f32 :=
  if bool_decide (a = []) || negb (length a =? length b)%nat then S754_zero false
  else if f32_is_zero (norm a) || f32_is_zero (norm b) then S754_zero false
  else f32_div (dot a b) (f32_mul (norm a) (norm b)).

(** Best cosine first; the code leaves the order of equal ones open. *)
Definition rank_skills (index : SkillIndex) (query_emb : list f32) (max_skills : nat) : list SkillEntry :=
  if bool_decide (max_skills = 0%nat) || bool_decide (query_emb = []) then []
  else fst <$> take max_skills
                 (sort_by by_score_desc ((λ e, (e, cosine_similarity query_emb (sk_embedding e))) <$> index)).

Definition skill_block (s : SkillEntry) : ustr :=
  lit "### " ++ sk_title s ++ [NEWLINE] ++ sk_body s ++ [NEWLINE; NEWLINE] ++ EM_DASH ++ lit " source: [["
  ++ text_of (sk_ulid s) ++ lit "]]" ++ [NEWLINE; NEWLINE].
Definition SKILLS_INTRO : ustr := lit "## Skills disponibles" ++ [NEWLINE; NEWLINE].

Section skills.
Context {TE : TokenEstimator}.

(** The skills that fit one after the other, until one does not. *)
Fixpoint fitting_skills (sub_budget used : Z) (skills : list SkillEntry) : list SkillEntry * Z :=
  match skills with
  | [] => ([], used)
  | s :: rest =>
      let used' := sat_add_u32 used (estimate (skill_block s)) in
      if sub_budget <? used' then ([], used)
      else let '(taken, total) := fitting_skills sub_budget used' rest in (s :: taken, total)
  end.

Definition inject_skills_header (skills : list SkillEntry) (sub_budget : Z) : ustr * Z :=
  if bool_decide (skills = []) || (sub_budget =? 0) then ([], 0)
  else
    let intro_tokens := estimate SKILLS_INTRO in
    if sub_budget <? intro_tokens then ([], 0)
    else
      let '(taken, used) := fitting_skills sub_budget intro_tokens skills in
      if bool_decide (taken = []) then ([], 0)
      else (SKILLS_INTRO ++ mjoin (skill_block <$> taken), used).
End skills.

(** ** The state of a request *)

(** The journal, when it is configured, and the cache of skills. *)
Record ContextCells := mkCells {
  session_trace : option trace_table;
  skills_index : option SkillIndex;
}.

Definition SESSION_ID_ULID_LEN : nat := 26.
Definition MARK_SENT_SNIPPET_CHARS : nat := 120.
Definition is_session_id_valid (s : string) : bool :=
  (String.length s =? SESSION_ID_ULID_LEN)%nat && all_chars is_ascii_alnum s.

Definition wire_of (sw : ScoringWeights) : ScoringWeightsWire := mkWire (sw_recency sw) (sw_pagerank sw) (sw_trust sw).

(** [BTreeMap::into_values]. *)
Definition values_by_key {V} (m : gmap string V) : list V :=
  snd <$> sort_by (λ a b : string * V, String.compare a.1 b.1) (map_to_list m).

Definition included_of (s : Selected) : IncludedNote :=
  mkIncluded (sel_note_id s) (sel_title s) (sel_section s) (sel_date s) (sel_score s).

(** The snippet of a note already sent is the one of its first sending. *)
Definition freeze (sent : gmap string SentEntry) (s : Stub) : Stub :=
  match sent !! st_ulid s with
  | Some e => mkStub (st_ulid s) (st_title s) (st_section s) (se_snippet e)
  | None => s
  end.
Definition stub_entry (s : Stub) : string * Stub := (st_ulid s, s).
Definition forced_stub (s : Selected) (e : SentEntry) : Stub :=
  mkStub (sel_note_id s) (sel_title s) (sel_section s) (se_snippet e).

(** The notes of a session: those sent before become references, merged with the others. *)
Definition split_sent (sent : gmap string SentEntry) (selected : list Selected) (stubs : list Stub) :
    list Selected * list Stub :=
  let forced := omap (λ s, forced_stub s <$> sent !! sel_note_id s) selected in
  let fresh := List.filter (λ s, negb (bool_decide (is_Some (sent !! sel_note_id s)))) selected in
  let merged := foldl or_insert ∅ (stub_entry <$> (forced ++ (freeze sent <$> stubs))) in
  (fresh, values_by_key merged).

(** An agent's soul is left out unless the caller is privileged. *)
Definition without_souls (privileged : bool) (selected : list Selected) (stubs : list Stub) :
    list Selected * list Stub :=
  if privileged then (selected, stubs)
  else (List.filter (λ s, negb (identity_section_hidden false (sel_section s))) selected,
        List.filter (λ s, negb (identity_section_hidden false (st_section s))) stubs).

Definition fold_score (size_tokens age_ms : Z) : f64 := f64_mul (f64_of_Z size_tokens) (f64_of_Z (Z.max age_ms 0)).

Definition i64_sat (z : Z) : Z := Z.max (- 2 ^ 63) (Z.min (2 ^ 63 - 1) z).

(** The score of a candidate in the compact view: old and long texts go first. *)
Definition compact_score (sent : gmap string SentEntry) (now_ms : Z) (c : Candidate) : Candidate :=
  let '(size, age) := match sent !! c_note_id c with
                      | Some e => (Z.of_nat (str_len (se_snippet e)) `mod` u32_modulus,
                                   Z.max (i64_sat (now_ms - se_ts_ms e)) 0)
                      | None => (0, 0)
                      end in
  mkCandidate (c_note_id c) (f64_div f64_one (f64_add f64_one (fold_score size age))).

(** What a note that is nowhere else in the compact view leaves behind. *)
Definition minimal_stub (ulid : string) (e : SentEntry) : Stub := mkStub ulid (text_of ulid) [] (se_snippet e).

Definition compact_stubs (sent : gmap string SentEntry) (selected : list Selected) (stubs : list Stub) : list Stub :=
  let inline_ulids := sel_note_id <$> selected in
  let first := foldl or_insert ∅ (stub_entry <$> (freeze sent <$> stubs)) in
  let left := List.filter (λ ue : string * SentEntry, negb (bool_decide (ue.1 ∈ inline_ulids))) (map_to_list sent) in
  values_by_key (foldl or_insert first ((λ ue, (ue.1, minimal_stub ue.1 ue.2)) <$> left)).

Section assembly.
Context {LM : Libm} {FTS : Fts5} {UT : UlidText} {UN : UnicodeTables} {IF : IndexFaults} {CH : Chrono}.
Context {TE : TokenEstimator} {TF : TraceFaults}.
Context {GS : Globset} {St : Type} {IS : IndexStore St}.

Record ContextState := mkContextState {
  cx_search : SearchState (St := St);
  cx_config : ContextConfig;
}.
Implicit Types (cx : ContextState) (trust : TrustContext) (req : VaultContextRequest) (cells : ContextCells).

(** ** The index of skills *)

Definition SKILLS_SECTION : ustr := lit "skills".

(** A failing embedder leaves an empty index. *)
Definition build_skill_index cx (tenant : TenantId) : result SkillIndex GradatumError :=
  let st := cx_search cx in
  records ?<- attempt (CallList tenant) (Ok (list_notes (ss_index st) tenant (Some SKILLS_SECTION) 200).1);
  if bool_decide (records = []) then Ok []
  else match embed_batch (ss_embedder st) ((λ r : string * index_row, r_body_text r.2) <$> records) with
       | Err _ => Ok []
       | Ok embs => Ok (zip_with (λ (r : string * index_row) emb,
                          mkSkill r.1 (default (lit "(untitled)") (r_title r.2)) (r_body_text r.2) emb) records embs)
       end.

Definition get_or_build_skill_index cx (tenant : TenantId) cells : option SkillIndex * ContextCells :=
  match skills_index cells with
  | Some idx => (Some idx, cells)
  | None => match build_skill_index cx tenant with
            | Ok idx => (Some idx, mkCells (session_trace cells) (Some idx))
            | Err _ => (None, cells)
            end
  end.

(** The skills placed in front of the text, and their number. *)
Definition with_skills cx (tenant : TenantId) req (budget : Z) (qemb : option (list f32)) (text : ustr) cells :
    ustr * Z * ContextCells :=
  match (if cr_inject_skills req then qemb else None) with
  | None => (text, 0, cells)
  | Some emb =>
      let cfg := cx_config cx in
      let sub_budget := Z.max (f64_as_u32 (f64_mul (f64_of_Z budget) (skills_budget_fraction cfg))) 64 in
      let '(idx, cells) := get_or_build_skill_index cx tenant cells in
      match idx with
      | None => (text, 0, cells)
      | Some idx =>
          let ranked := rank_skills idx emb (max_skills cfg) in
          let '(header, _) := inject_skills_header ranked sub_budget in
          if bool_decide (header = []) then (text, 0, cells)
          else (header ++ [NEWLINE; NEWLINE] ++ text, Z.of_nat (length ranked), cells)
      end
  end.

(** ** The guard on classified notes *)

Definition hidden_candidates cx trust (tenant : TenantId) (ids : list string) :
    result (gset string) GradatumError :=
  (hidden_ids (cx_search cx) trust (checked_vault (own_vault_checked tenant)) ids ∅).1.

Definition hint cx (used : Z) : bool := cache_breakpoint_threshold_tokens (cx_config cx) <? used.

(** ** Raw *)

Definition div_ceil3 (n : Z) : Z := (n + 2) / 3.
Definition tokens_of_chars (n : nat) : Z := Z.max (div_ceil3 (Z.of_nat n)) 1.

(** The parts of the text and the notes they come from, until the budget is used. *)
Fixpoint raw_parts cx (tenant : TenantId) (privileged : bool) (max_tokens used : Z) (ids : list string) :
    list (ustr * IncludedNote) :=
  match ids with
  | [] => []
  | id :: rest =>
      if max_tokens <=? used then []
      else match attempt (CallNote tenant id) (Ok (note_record (ss_index (cx_search cx)) tenant id)) with
           | Ok (Some r) =>
               if identity_section_hidden privileged (r_section r)
               then raw_parts cx tenant privileged max_tokens used rest
               else
                 let body := r_body_text r in
                 let remaining := Z.max (max_tokens - used) 0 in
                 let part := if remaining <? tokens_of_chars (length body)
                             then take (Z.to_nat (remaining * 3)) body else body in
                 let note := mkIncluded id (default (text_of id) (r_title r)) (r_section r)
                               (date_text (r_created r)) f64_zero in
                 (part, note) :: raw_parts cx tenant privileged max_tokens
                                   (used + tokens_of_chars (length part)) rest
           | _ => raw_parts cx tenant privileged max_tokens used rest
           end
  end.

(** The identifiers a raw context reads, [None] when the query matches nothing. *)
Definition raw_ids cx (ck : Clock) (tenant : TenantId) req : result (option (list string)) GradatumError :=
  let st := cx_search cx in
  let query := native (cr_query req) in
  match ulid_text query with
  | Some _ => Ok (Some (query :: backlinks_or_none st tenant query))
  | None =>
      let fts_q := build_fts_query (cr_query req) in
      if nothing_to_match fts_q then Ok None
      else
        let vault := checked_vault (own_vault_checked tenant) in
        hits ?<- attempt (CallFts vault)
          (search_fts_with_snippet (ss_index st) vault fts_q 10 false (cr_section req) None None None None
             (fts_now ck vault));
        Ok (Some (raw_id <$> hits))
  end.

Definition clamp_tokens (n : Z) : Z := Z.max 1 (Z.min 8000 n).

Definition assemble_raw cx (ck : Clock) (tenant : TenantId) req (privileged : bool) trust :
    result VaultContextResponse GradatumError :=
  let max_tokens := clamp_tokens (default 2000 (cr_max_tokens req)) in
  found ?<- raw_ids cx ck tenant req;
  match found with
  | None => Ok (empty_context false)
  | Some ids =>
      hidden ?<- hidden_candidates cx trust tenant ids;
      let ids := List.filter (λ id, negb (bool_decide (id ∈ hidden))) ids in
      let parts := raw_parts cx tenant privileged max_tokens 0 ids in
      let text := render_raw parts.*1 in
      let used := Z.of_nat (length text) / 3 in
      let n := Z.of_nat (length parts) in
      let considered := Z.of_nat (length ids) in
      Ok (mkContextResponse text parts.*2 used (mkDiagnostics considered n false 0) []
            (mkCounts n 0 (Z.max (considered - n) 0)) (hint cx used))
  end.

(** ** Assembled *)

Definition sections_of req : option (list ustr) := (λ s, [s]) <$> cr_section req.
Definition budget_of cx req : Z :=
  clamp_tokens (default (default_budget_tokens (cx_config cx))
                  match cr_budget_tokens req with Some b => Some b | None => cr_max_tokens req end).
Definition weights_of req : ResolvedWeights := resolve_weights (wire_of <$> cr_scoring req).

(** The notes sent to the session of the request, when they can be known. *)
Definition session_sent_of (tenant : TenantId) req cells : option (gmap string SentEntry) :=
  sid ← cr_session_id req; tb ← session_trace cells;
  match get_sent tenant sid tb with Ok m => Some m | Err _ => None end.

(** Every note shown in full is marked as sent; a failure is only logged. *)
Definition mark_all (tenant : TenantId) (sid : string) (now_ms : Z) (selected : list Selected) (tb : trace_table) :
    trace_table :=
  foldl (λ tb sel, (mark_sent tenant sid (sel_note_id sel)
                      (st_snippet (stub_from_selected sel MARK_SENT_SNIPPET_CHARS)) now_ms tb).2) tb selected.

Definition mark_selected (tenant : TenantId) req (now_ms : Z) (sent : option (gmap string SentEntry))
    (selected : list Selected) cells : ContextCells :=
  match sent, cr_session_id req, session_trace cells with
  | Some _, Some sid, Some tb => mkCells (Some (mark_all tenant sid now_ms selected tb)) (skills_index cells)
  | _, _, _ => cells
  end.

(** The notes and references of an answer, once they are chosen. *)
Definition context_answer cx req (considered : Z) (fallback : bool) (selected : list Selected) (stubs : list Stub)
    (text : ustr) (skills : Z) : VaultContextResponse :=
  let used := estimate text in
  let n := Z.of_nat (length selected) in
  let m := Z.of_nat (length stubs) in
  mkContextResponse (text ++ render_references_block stubs) (included_of <$> selected) used
    (mkDiagnostics considered n fallback skills) stubs (mkCounts n m (Z.max (considered - (n + m)) 0))
    (hint cx used).

(** The selection of an assembled context: what is shown in full, and what is referred to. *)
Definition assembled_choice cx (tenant : TenantId) req (privileged : bool) (now_ms : Z)
    (sent : option (gmap string SentEntry)) (candidates : list Candidate) : list Selected * list Stub :=
  let stub_budget := if cr_reference_mode req then stub_budget_tokens (cx_config cx) else 0 in
  let '(selected, stubs, _) := select_budget_aware (cx_search cx) tenant candidates (weights_of req)
                                 (budget_of cx req) stub_budget now_ms in
  let '(selected, stubs) := match sent with
                            | Some m => split_sent m selected stubs
                            | None => (selected, stubs)
                            end in
  without_souls privileged selected stubs.

Definition assemble_assembled cx (ck : Clock) (now_ms : Z) (tenant : TenantId) req (privileged : bool) trust cells :
    result VaultContextResponse GradatumError * ContextCells :=
  if refused (λ s, negb (is_session_id_valid s)) (cr_session_id req)
  then (Err (InvalidInput InvalidSessionId), cells)
  else
    match
      outcome ?<- retrieve_candidates (cx_search cx) ck (checked_vault (own_vault_checked tenant)) (cr_query req)
                    (sections_of req) (top_n_candidates (cx_config cx));
      hidden ?<- hidden_candidates cx trust tenant (c_note_id <$> ro_candidates outcome);
      Ok (outcome, List.filter (λ c, negb (bool_decide (c_note_id c ∈ hidden))) (ro_candidates outcome))
    with
    | Err e => (Err e, cells)
    | Ok (outcome, candidates) =>
        let fallback := ro_embed_fallback outcome in
        if bool_decide (candidates = []) then (Ok (empty_context fallback), cells)
        else
          let sent := session_sent_of tenant req cells in
          let '(selected, stubs) := assembled_choice cx tenant req privileged now_ms sent candidates in
          let cells := mark_selected tenant req now_ms sent selected cells in
          let inline := render_assembled (cr_query req) selected [] in
          let '(text, skills, cells) :=
            with_skills cx tenant req (budget_of cx req) (ro_query_embedding outcome) inline cells in
          (Ok (context_answer cx req (Z.of_nat (length candidates)) fallback selected stubs text skills), cells)
    end.

(** ** Compact *)

Definition sent_or_empty (tenant : TenantId) (sid : string) cells : gmap string SentEntry :=
  match session_trace cells with
  | Some tb => match get_sent tenant sid tb with Ok m => m | Err _ => ∅ end
  | None => ∅
  end.

(** The candidates found and those sent before; the map of the latter has no order, and the
    ranking that follows does not depend on it. *)
Definition with_sent (sent : gmap string SentEntry) (candidates : list Candidate) : list Candidate :=
  candidates ++ ((λ id, mkCandidate id f64_zero) <$>
    List.filter (λ id, negb (bool_decide (id ∈ c_note_id <$> candidates))) (map_to_list sent).*1).

Definition assemble_compact cx (ck : Clock) (now_ms : Z) (tenant : TenantId) req (privileged : bool) trust cells :
    result VaultContextResponse GradatumError :=
  match cr_session_id req with
  | None => Err (InvalidInput CompactWithoutSession)
  | Some sid =>
      if negb (is_session_id_valid sid) then Err (InvalidInput InvalidSessionId)
      else
        let sent := sent_or_empty tenant sid cells in
        outcome ?<- retrieve_candidates (cx_search cx) ck (checked_vault (own_vault_checked tenant)) (cr_query req)
                      (sections_of req) (top_n_candidates (cx_config cx));
        let all := with_sent sent (ro_candidates outcome) in
        hidden ?<- hidden_candidates cx trust tenant (c_note_id <$> all);
        let candidates := compact_score sent now_ms <$> List.filter (λ c, negb (bool_decide (c_note_id c ∈ hidden))) all in
        let fallback := ro_embed_fallback outcome in
        if bool_decide (candidates = []) then Ok (empty_context fallback)
        else
          let '(selected, stubs, _) := select_budget_aware (cx_search cx) tenant candidates (weights_of req)
                                         (budget_of cx req) (stub_budget_tokens (cx_config cx)) now_ms in
          let '(selected, stubs) := without_souls privileged selected stubs in
          let all_stubs := compact_stubs sent selected stubs in
          Ok (context_answer cx req (Z.of_nat (length candidates)) fallback selected all_stubs
                (render_assembled (cr_query req) selected []) 0)
  end.

(** ** The handler *)

Definition assemble_context cx (ck : Clock) (now_ms : Z) (tenant : TenantId) req trust cells :
    result VaultContextResponse GradatumError * ContextCells :=
  let privileged := is_identity_privileged trust in
  match cr_mode req with
  | Raw => (assemble_raw cx ck tenant req privileged trust, cells)
  | Assembled => assemble_assembled cx ck now_ms tenant req privileged trust cells
  | Compact => (assemble_compact cx ck now_ms tenant req privileged trust cells, cells)
  end.

Definition vault_context_impl cx trust req (ck : Clock) (now_ms : Z) cells :
    result VaultContextResponse GradatumError * ContextCells :=
  if negb (is_authenticated trust) then (Err Unauthorized, cells)
  else
    match
      _ ?<- validated_section (cr_section req);
      tenant ?<- map_err (λ _, Forbidden "tenant cross mismatch") (effective_tenant trust (cr_tenant_id req));
      if bool_decide (evaluate (acl (ss_app (cx_search cx))) trust AclRead
                        (locus_for_section tenant (native <$> cr_section req)) = Allow)
      then Ok tenant else Err (Forbidden "acl deny")
    with
    | Err e => (Err e, cells)
    | Ok tenant => assemble_context cx ck now_ms tenant req trust cells
    end.
End assembly.
