(* ===== verification/SessionProps.v ===== *)
(** * SessionProps: what the journal of sessions keeps

    Paging through the journal gives every trace once ([trace_pages_complete]); a journal row
    that a client posts never counts as a note sent, and a note once sent keeps its entry
    ([get_sent]) through everything that appends to the journal. *)

From S2P Require Import Prelude Job Text Scope Acl Registry TenantGuard Notes Float Vault VaultHistory SessionTrace.
From Stdlib Require Import Ascii.

#[local] Open Scope Z_scope.

(** ** The table *)

(** Identifiers grow with the insertions, and the numbers are those of SQLite. *)
Record traces_ok (tb : trace_table) : Prop := {
  tk_sorted : StronglySorted Z.lt (t_id <$> t_rows tb);
  tk_last : Forall (λ t, t_id t ≤ t_last_id tb) (t_rows tb);
  tk_range : Forall (λ t, in_i64 (t_created_at t) ∧ in_i64 (t_id t)) (t_rows tb);
}.

Lemma traces_ok_ids tb : traces_ok tb → NoDup (t_id <$> t_rows tb).
Proof. intros Hok. eapply (strict_sorted_NoDup Z.lt), tk_sorted, Hok. Qed.

Lemma insert_at_ok {TF : TraceFaults} call tenant r now tb :
  traces_ok tb → in_i64 now → in_i64 (t_last_id tb + 1) → traces_ok (insert_at call tenant r now tb).2.
Proof.
  intros [Hs Hl Hr] Hn Hi. unfold insert_at. destruct (trace_fails call); [done|]. cbn.
  split; cbn.
  - rewrite fmap_app. apply StronglySorted_app_2; [|done|by repeat constructor].
    intros x y (t & -> & Ht)%list_elem_of_fmap ->%list_elem_of_singleton.
    rewrite Forall_forall in Hl. cbn. specialize (Hl t Ht). lia.
  - apply Forall_app. split; [|by apply Forall_singleton].
    eapply Forall_impl; [exact Hl|]. cbn. lia.
  - apply Forall_app. split; [done|by apply Forall_singleton].
Qed.

(** ** Paging *)

(** [a] comes before [b] in the listing. *)
Definition newer (a b : stored_trace) : Prop :=
  t_created_at b < t_created_at a ∨ t_created_at b = t_created_at a ∧ t_id b < t_id a.

#[export] Instance newer_strict : StrictOrder newer.
Proof. split; [intros t|intros t u v]; unfold complement, newer; lia. Qed.

Lemma newest_first_spec a b :
  match newest_first a b with
  | Lt => newer a b
  | Eq => t_created_at a = t_created_at b ∧ t_id a = t_id b
  | Gt => newer b a
  end.
Proof.
  unfold newest_first, newer. destruct (Z.compare_spec (t_created_at b) (t_created_at a)); [|lia|lia].
  destruct (Z.compare_spec (t_id b) (t_id a)); lia.
Qed.

Definition newer_eq (a b : stored_trace) : Prop := newest_first a b ≠ Gt.

Lemma newest_first_sorted l : NoDup (t_id <$> l) → StronglySorted newer (sort_by newest_first l).
Proof.
  intros Hnd.
  assert (StronglySorted newer_eq (sort_by newest_first l)) as Hs.
  { apply (sort_by_sorted newest_first (λ _, True) newer_eq); [done| | |by apply Forall_true].
    - intros x y _ _ E. unfold newer_eq. pose proof (newest_first_spec x y). rewrite E in H.
      pose proof (newest_first_spec y x) as H'. intros E'. rewrite E' in H'. unfold newer in *. lia.
    - intros x y z _ _ _ H1 H2 E. unfold newer_eq in *. pose proof (newest_first_spec x y) as Hxy.
      pose proof (newest_first_spec y z) as Hyz. pose proof (newest_first_spec x z) as Hxz. rewrite E in Hxz.
      destruct (newest_first x y), (newest_first y z); unfold newer in *; try done; lia. }
  assert (NoDup (t_id <$> sort_by newest_first l)) as Hnd' by by rewrite sort_by_Permutation.
  induction Hs as [|x m Hs IH Hx]; [constructor|]. cbn in Hnd'. apply NoDup_cons in Hnd' as [Hn Hnd'].
  constructor; [by apply IH|]. rewrite Forall_forall in *. intros y Hy. specialize (Hx y Hy).
  unfold newer_eq in Hx. pose proof (newest_first_spec x y) as E. destruct (newest_first x y); [|done|done].
  exfalso. apply Hn, list_elem_of_fmap. exists y. split; [|done]. apply E.
Qed.

(** The rows of a query from its cursor on, in the order of the listing. *)
Definition remaining_traces (q : TraceQuery) (tb : trace_table) : list stored_trace :=
  sort_by newest_first (List.filter (λ t, trace_where q t && after_cursor (tq_cursor q) t) (t_rows tb)).

Definition with_trace_cursor (c : option TraceCursor) (q : TraceQuery) : TraceQuery :=
  mkTraceQuery (tq_tenant_id q) (tq_action_type q) (tq_agent_id q) (tq_session_id q) (tq_from_ms q)
    (tq_to_ms q) c (tq_limit q).
Definition cursor_at (t : stored_trace) : TraceCursor := mkCursor (t_created_at t) (t_id t).

Lemma elem_of_remaining_traces q tb t :
  t ∈ remaining_traces q tb
  ↔ t ∈ t_rows tb ∧ trace_where q t = true ∧ after_cursor (tq_cursor q) t = true.
Proof. unfold remaining_traces. by rewrite elem_of_sort_by, elem_of_kept, andb_true_iff. Qed.

Lemma NoDup_fmap_kept {A B} (f : A → B) (p : A → bool) l : NoDup (f <$> l) → NoDup (f <$> List.filter p l).
Proof.
  induction l as [|x l IH]; [done|]. cbn. intros [Hn Hd]%NoDup_cons. destruct (p x); [|auto]. cbn.
  constructor; [|auto]. intros (y & E & [Hy _]%elem_of_kept)%list_elem_of_fmap. apply Hn, list_elem_of_fmap. eauto.
Qed.

Lemma remaining_traces_sorted q tb : traces_ok tb → StronglySorted newer (remaining_traces q tb).
Proof. intros Hok. apply newest_first_sorted, NoDup_fmap_kept, traces_ok_ids, Hok. Qed.

Lemma after_cursor_at y t : after_cursor (Some (cursor_at y)) t = true ↔ newer y t.
Proof. unfold after_cursor, newer. cbn. lia. Qed.

Lemma remaining_traces_next q tb n y :
  traces_ok tb → last (take n (remaining_traces q tb)) = Some y →
  remaining_traces (with_trace_cursor (Some (cursor_at y)) q) tb = drop n (remaining_traces q tb).
Proof.
  intros Hok Hy. pose proof (remaining_traces_sorted q tb Hok) as Hs.
  apply (strict_sorted_ext newer); [by apply remaining_traces_sorted|by apply strict_sorted_drop|].
  assert (y ∈ remaining_traces q tb) as (_ & _ & Hyc)%elem_of_remaining_traces.
  { apply last_Some_elem_of, elem_of_take in Hy as (? & ? & ?). by eapply list_elem_of_lookup_2. }
  intros t. rewrite (strict_sorted_page newer _ _ _ Hs Hy), !elem_of_remaining_traces.
  cbn [tq_cursor with_trace_cursor]. rewrite after_cursor_at.
  change (trace_where (with_trace_cursor _ q) t) with (trace_where q t). split.
  - intros (Ht & Hw & Hn). split_and!; try done. destruct (tq_cursor q) as [c|]; [|done].
    revert Hyc Hn. unfold after_cursor, newer. cbn. lia.
  - intros [(Ht & Hw & _) Hn]. done.
Qed.

(** ** Cursors *)

Lemma fmt_i64_plain z : 95%N ∉ fmt_i64 z.
Proof.
  assert (95%N ∉ fmt_nat (Z.abs_N z)) as Hd.
  { intros Hc. pose proof (fmt_nat_digits (Z.abs_N z) _ Hc) as H. by vm_compute in H. }
  unfold fmt_i64. destruct (z <? 0); [|done]. intros [Hc|Hc]%elem_of_app; [|done].
  by apply list_elem_of_singleton in Hc.
Qed.

Lemma parse_fmt_cursor t :
  in_i64 (t_created_at t) → in_i64 (t_id t) → parse_trace_cursor (fmt_trace_cursor t) = Some (cursor_at t).
Proof.
  intros Hc Hi. unfold parse_trace_cursor, fmt_trace_cursor, CURSOR_SEP.
  assert (split_once (lit "_") (fmt_i64 (t_created_at t) ++ lit "_" ++ fmt_i64 (t_id t))
          = Some (fmt_i64 (t_created_at t), fmt_i64 (t_id t))) as ->.
  { apply split_once_char. split; [done|apply fmt_i64_plain]. }
  cbn. by rewrite !parse_fmt_i64.
Qed.

(** ** The whole walk *)

Section walk.
Context {TF : TraceFaults} {GS : Globset} {St : Type} {IS : IndexStore St}.
Implicit Types (state : AppState (St := St)) (trust : TrustContext) (q : TracesQuery).

Definition with_cursor_text (c : option ustr) q : TracesQuery :=
  mkTracesQuery (gq_action_type q) (gq_agent_id q) (gq_session_id q) (gq_from_ms q) (gq_to_ms q) c (gq_limit q).

(** A client that follows the cursors from the page [q] on. *)
Fixpoint walk_traces (fuel : nat) state trust q (store : option trace_table) : option (list stored_trace) :=
  match fuel with
  | O => None
  | S fuel' =>
      match get_traces state trust q store with
      | Err _ => None
      | Ok resp =>
          match next_cursor resp with
          | None => Some (traces resp)
          | Some c => (traces resp ++.) <$> walk_traces fuel' state trust (with_cursor_text (Some c) q) store
          end
      end
  end.

(** The query of the store for a request and a parsed cursor. *)
Definition trace_limit q : Z := Z.max 1 (Z.min TRACES_LIMIT_MAX (default TRACES_LIMIT_DEFAULT (gq_limit q))).
Definition trace_query trust q (cursor : option TraceCursor) : TraceQuery :=
  mkTraceQuery (default "main"%string (trust_tenant_id trust)) (gq_action_type q) (gq_agent_id q)
    (gq_session_id q) (gq_from_ms q) (gq_to_ms q) cursor (trace_limit q).

(** The page that follows a cursor. *)
Definition trace_page (n : nat) (rows : list stored_trace) : TracesResponse :=
  if (n <? length rows)%nat then mkTracesResponse (take n rows) (fmt_trace_cursor <$> last (take n rows))
  else mkTracesResponse rows None.

Lemma get_traces_page state trust q tb cursor :
  (∃ c resp, get_traces state trust (with_cursor_text c q) (Some tb) = Ok resp) →
  cursor_of q = Ok cursor →
  get_traces state trust q (Some tb)
  = Ok (trace_page (Z.to_nat (trace_limit q)) (remaining_traces (trace_query trust q cursor) tb)).
Proof.
  intros (c & resp & H) Hc. revert H. unfold get_traces. destruct (is_authenticated trust); [|done]. cbn [negb].
  destruct (resolve_read_vault state trust "main" "dashboard") as [v|]; [|done].
  cbn [result_bind gq_from_ms gq_to_ms with_cursor_text].
  destruct (match gq_from_ms q, gq_to_ms q with Some f, Some u => u <? f | _, _ => false end); [done|].
  destruct (cursor_of (with_cursor_text c q)) as [c'|]; [|done]. rewrite Hc. cbn [result_bind].
  unfold query_traces. destruct (trace_fails CallQueryTraces); [done|]. intros _.
  fold (trace_limit q). set (rows := sort_by _ _). fold (trace_query trust q cursor) in rows.
  change rows with (remaining_traces (trace_query trust q cursor) tb). clear rows.
  set (rows := remaining_traces _ tb).
  assert (1 ≤ trace_limit q ≤ 200) as Hl by (unfold trace_limit, TRACES_LIMIT_MAX; lia).
  change (tq_limit _) with (trace_limit q). unfold trace_page.
  destruct (Nat.ltb_spec (Z.to_nat (trace_limit q)) (length rows)) as [Hn|Hn].
  - rewrite (proj2 (Z.ltb_lt _ _)) by (rewrite length_take; lia).
    by rewrite take_take, Nat.min_l by lia.
  - rewrite take_ge by lia. by rewrite (proj2 (Z.ltb_ge _ _)) by lia.
Qed.

Lemma walk_remaining_traces fuel state trust q tb cursor :
  traces_ok tb →
  (∃ c resp, get_traces state trust (with_cursor_text c q) (Some tb) = Ok resp) →
  cursor_of q = Ok cursor →
  (length (remaining_traces (trace_query trust q cursor) tb) < fuel)%nat →
  walk_traces fuel state trust q (Some tb) = Some (remaining_traces (trace_query trust q cursor) tb).
Proof.
  intros Hok. revert q cursor. induction fuel as [|fuel IH]; intros q cursor Hex Hc Hf; [lia|].
  cbn [walk_traces]. rewrite (get_traces_page state trust q tb cursor Hex Hc).
  set (n := Z.to_nat (trace_limit q)). set (rows := remaining_traces _ tb) in *.
  assert (0 < n)%nat as Hn by (unfold n, trace_limit, TRACES_LIMIT_MAX; lia).
  unfold trace_page. destruct (Nat.ltb_spec n (length rows)) as [Hlt|]; [|done]. cbn [next_cursor traces].
  destruct (last (take n rows)) as [y|] eqn:Hy.
  2:{ apply last_None in Hy. apply (f_equal length) in Hy. rewrite length_take in Hy. cbn in Hy. lia. }
  cbn [fmap option_fmap option_map].
  pose proof (remaining_traces_next (trace_query trust q cursor) tb n y Hok Hy) as Hnext.
  change (with_trace_cursor _ _)
    with (trace_query trust (with_cursor_text (Some (fmt_trace_cursor y)) q) (Some (cursor_at y))) in Hnext.
  assert (y ∈ t_rows tb) as Hyin.
  { apply last_Some_elem_of, elem_of_take in Hy as (? & Hi & ?).
    apply list_elem_of_lookup_2, elem_of_remaining_traces in Hi. by destruct Hi. }
  destruct (proj1 (Forall_forall _ _) (tk_range _ Hok) y Hyin) as [Hyc Hyi].
  rewrite (IH (with_cursor_text (Some (fmt_trace_cursor y)) q) (Some (cursor_at y))).
  - rewrite Hnext. cbn. by rewrite take_drop.
  - destruct Hex as (c & resp & H). by exists c, resp.
  - unfold cursor_of. cbn [gq_cursor with_cursor_text]. by rewrite parse_fmt_cursor.
  - rewrite Hnext, length_drop. fold rows. lia.
Qed.

(** The traces a caller asks for: those of its tenant that no sending of a note left, and that
    agree with every filter of the request. *)
Definition trace_selected (trust : TrustContext) (q : TracesQuery) (t : stored_trace) : Prop :=
  t_tenant t = default "main"%string (trust_tenant_id trust)
  ∧ tr_action_type (t_row t) ≠ "context-sent"%string
  ∧ (∀ a, gq_action_type q = Some a → tr_action_type (t_row t) = a)
  ∧ (∀ a, gq_agent_id q = Some a → tr_agent_id (t_row t) = a)
  ∧ (∀ sid, gq_session_id q = Some sid → tr_session_id (t_row t) = sid)
  ∧ (∀ from, gq_from_ms q = Some from → from ≤ tr_ts_ms (t_row t))
  ∧ (∀ to, gq_to_ms q = Some to → tr_ts_ms (t_row t) ≤ to).

Lemma unless_null_iff {A} (o : option A) (f : A → bool) :
  unless_null o f = true ↔ ∀ a, o = Some a → f a = true.
Proof. destruct o; cbn; naive_solver. Qed.

Lemma trace_where_iff trust q t : trace_where (trace_query trust q None) t = true ↔ trace_selected trust q t.
Proof.
  unfold trace_where, trace_selected, asked, trace_query. cbn.
  rewrite !andb_true_iff, !unless_null_iff, negb_true_iff, bool_decide_eq_true, bool_decide_eq_false.
  setoid_rewrite bool_decide_eq_true. setoid_rewrite Z.leb_le. unfold CONTEXT_SENT. tauto.
Qed.

(** C34: following the cursors of [GET /api/v1/system/traces] from the first page to the
    last gives, newest first, every trace of the caller's tenant that the filters select, each
    once, in at most one request more than there are rows, and never a row that records a
    note sent to a session. *)
Theorem trace_pages_complete state trust q (tb : trace_table) resp :
  traces_ok tb →
  get_traces state trust (with_cursor_text None q) (Some tb) = Ok resp →
  ∃ all, walk_traces (S (length (t_rows tb))) state trust (with_cursor_text None q) (Some tb) = Some all
    ∧ StronglySorted newer all
    ∧ ∀ t, t ∈ all ↔ t ∈ t_rows tb ∧ trace_selected trust q t.
Proof.
  intros Hok H. set (tq := trace_query trust q None). exists (remaining_traces tq tb). split_and!.
  - apply (walk_remaining_traces _ _ _ (with_cursor_text None q) tb None Hok); [by exists None, resp|done|].
    unfold remaining_traces. rewrite sort_by_Permutation. apply Nat.lt_succ_r, filter_length_le.
  - by apply remaining_traces_sorted.
  - intros t. rewrite elem_of_remaining_traces, <- trace_where_iff. naive_solver.
Qed.
End walk.

(** ** Notes sent *)

Definition first_of {V} (id : string) (l : list (string * V)) : option V :=
  snd <$> head (List.filter (λ kv, bool_decide (kv.1 = id)) l).

Lemma foldl_or_insert {V} (l : list (string * V)) (m : gmap string V) id :
  foldl or_insert m l !! id = match m !! id with Some e => Some e | None => first_of id l end.
Proof.
  revert m. induction l as [|[k v] l IH]; intros m; [cbn; by destruct (m !! id) as [e|]|]. cbn [foldl]. rewrite IH.
  unfold or_insert, first_of. cbn. case_bool_decide as Ek.
  - subst k. destruct (m !! id) eqn:E; [by rewrite E|]. by rewrite lookup_insert_eq.
  - destruct (m !! k) eqn:E; [done|]. by rewrite lookup_insert_ne.
Qed.

Lemma kept_twice {A} (f g : A → bool) l : List.filter f (List.filter g l) = List.filter (λ x, g x && f x) l.
Proof. induction l as [|x l IH]; [done|]. cbn. destruct (g x); cbn; [destruct (f x)|]; by rewrite <- IH. Qed.

(** A row that records a sending of the note. *)
Definition names (id : string) (t : stored_trace) : bool :=
  match sent_entry t with Some (u, _) => bool_decide (u = id) | None => false end.
Definition records_sending (tenant : TenantId) (sid id : string) (t : stored_trace) : bool :=
  sent_row tenant sid t && names id t.

Lemma first_of_sent id l :
  first_of id (omap sent_entry l) = head (List.filter (names id) l) ≫= λ t, snd <$> sent_entry t.
Proof.
  induction l as [|t l IH]; [done|]. unfold names in *. cbn. destruct (sent_entry t) as [[u e]|] eqn:E; [|done].
  unfold first_of in *. cbn. case_bool_decide; [by cbn; rewrite E|done].
Qed.

Definition earlier_eq (a b : stored_trace) : Prop := by_ts_then_id a b ≠ Gt.

Lemma by_ts_spec a b :
  by_ts_then_id a b ≠ Gt
  ↔ tr_ts_ms (t_row a) < tr_ts_ms (t_row b) ∨ tr_ts_ms (t_row a) = tr_ts_ms (t_row b) ∧ t_id a ≤ t_id b.
Proof.
  unfold by_ts_then_id. destruct (Z.compare_spec (tr_ts_ms (t_row a)) (tr_ts_ms (t_row b)));
    [destruct (Z.compare_spec (t_id a) (t_id b))|..]; naive_solver lia.
Qed.

Section sent.
Context {TF : TraceFaults}.
Implicit Types (tb : trace_table).

(** The map of a session when it can be read. *)
Definition sent_map (tenant : TenantId) (sid : string) tb : gmap string SentEntry :=
  foldl or_insert ∅ (omap sent_entry (sent_rows tenant sid tb)).

Lemma get_sent_ok tenant sid tb m : get_sent tenant sid tb = Ok m → m = sent_map tenant sid tb.
Proof. unfold get_sent. destruct (trace_fails _); [done|]. by intros [= <-]. Qed.

(** The entry of a note is its earliest row. *)
Lemma sent_map_lookup tenant sid tb id :
  sent_map tenant sid tb !! id
  = head (sort_by by_ts_then_id (List.filter (records_sending tenant sid id) (t_rows tb))) ≫= λ t, snd <$> sent_entry t.
Proof.
  unfold sent_map. rewrite foldl_or_insert, lookup_empty, first_of_sent. unfold sent_rows.
  rewrite (filter_sort_by by_ts_then_id (λ _, True) earlier_eq); [by rewrite kept_twice|done| | |done|by apply Forall_true].
  - intros x y _ _ E. apply by_ts_spec. assert (¬ by_ts_then_id x y ≠ Gt) as H by tauto.
    rewrite by_ts_spec in H. lia.
  - intros x y z _ _ _. unfold earlier_eq. rewrite !by_ts_spec. lia.
Qed.

Lemma sent_map_None tenant sid tb id :
  sent_map tenant sid tb !! id = None ↔ List.filter (records_sending tenant sid id) (t_rows tb) = [].
Proof.
  rewrite sent_map_lookup. split; [|by intros ->]. intros H.
  destruct (sort_by by_ts_then_id (List.filter (records_sending tenant sid id) (t_rows tb))) as [|t l] eqn:E.
  { apply Permutation_nil. rewrite <- E. by rewrite sort_by_Permutation. }
  assert (t ∈ List.filter (records_sending tenant sid id) (t_rows tb)) as [_ Hm]%elem_of_kept
    by (apply elem_of_sort_by with (cmp := by_ts_then_id); rewrite E; by left).
  apply andb_true_iff in Hm as [_ Hm]. unfold names in Hm. cbn in H. by destruct (sent_entry t).
Qed.

(** A row that records nothing of the note leaves its entry. *)
Lemma insert_at_keeps call tenant' r now tb tenant sid id :
  (∀ i, records_sending tenant sid id (mkStored i tenant' r now) = false) →
  sent_map tenant sid (insert_at call tenant' r now tb).2 !! id = sent_map tenant sid tb !! id.
Proof.
  intros Hm. unfold insert_at. destruct (trace_fails call); [done|]. cbn [snd]. rewrite !sent_map_lookup.
  cbn [t_rows]. rewrite List.filter_app. cbn [List.filter]. by rewrite Hm, app_nil_r.
Qed.

(** The first sending of a note makes its entry. *)
Lemma mark_sent_new tenant sid id snippet now tb :
  trace_fails (CallMarkSent id) = false → sent_map tenant sid tb !! id = None →
  sent_map tenant sid (mark_sent tenant sid id snippet now tb).2 !! id
  = Some (mkSent (take SENT_SNIPPET_MAX_CHARS snippet) now).
Proof.
  intros Hf Hn%sent_map_None. unfold mark_sent, insert_at. rewrite Hf. cbn [snd]. rewrite sent_map_lookup. cbn [t_rows].
  rewrite List.filter_app, Hn. cbn [List.filter app]. unfold records_sending, sent_row, names. cbn.
  by rewrite !bool_decide_eq_true_2.
Qed.

Lemma mark_sent_other tenant sid id tenant' sid' id' snippet now tb :
  (tenant', sid', id') ≠ (tenant, sid, id) →
  sent_map tenant sid (mark_sent tenant' sid' id' snippet now tb).2 !! id = sent_map tenant sid tb !! id.
Proof.
  intros Hne. unfold mark_sent.
  pose proof (insert_at_keeps (CallMarkSent id') tenant'
    (mkTraceRow sid' AGENT_CONTEXT_WINDOW now CONTEXT_SENT (Some id') None None
       (Some (take SENT_SNIPPET_MAX_CHARS snippet)) None) now tb tenant sid id) as H.
  destruct (insert_at _ _ _ _ _) as [r tb']. apply H. intros i. unfold records_sending, sent_row, names. cbn.
  destruct (bool_decide_reflect (tenant' = tenant)), (bool_decide_reflect (sid' = sid)),
    (bool_decide_reflect (id' = id)); cbn; rewrite ?andb_false_r; congruence.
Qed.

(** What a client posts is no record of a sending. *)
Lemma posted_keeps {GS : Globset} {St} {IS : IndexStore St} (state : AppState (St := St)) trust req fresh now ins tb tenant sid :
  ∃ tb', (post_session_trace state trust req fresh now ins (Some tb)).2 = Some tb'
    ∧ sent_map tenant sid tb' = sent_map tenant sid tb.
Proof.
  unfold post_session_trace. destruct (negb _); [by eexists|]. destruct trust as [|kid aud sub scopes ten jti|c f|u s o]; try by eexists.
  repeat (match goal with |- context [if ?b then _ else _] => destruct b end; [by eexists|]).
  unfold insert_trace. set (row := mkTraceRow _ _ _ _ _ _ _ _ _).
  exists (insert_at CallInsertTrace ten row ins tb).2. split.
  - by destruct (insert_at _ _ _ _ _) as [[]].
  - apply map_eq. intros id. apply insert_at_keeps. intros i. unfold records_sending, names, sent_entry, row. cbn.
    by destruct (sr_target req); cbn; rewrite andb_false_r.
Qed.
End sent.
