(* ===== verification/ContextProps.v ===== *)
(** * ContextProps: what an assembled context holds

    The selection keeps its budgets and the order of the ranking; a context shows only notes
    its caller may read; a session receives the text of a note once; the compact view loses
    no note that was sent, not even one that the guards withhold; the skills of the first
    tenant reach every tenant. *)

From S2P Require Import Prelude Job Text Scope Acl Registry TenantGuard Notes ProjectServer NoteStore Float RankFusion SearchIndex SearchServer SearchSafety SessionTrace SessionProps ContextRetrieval ContextPack.
From Stdlib Require Import Ascii SpecFloat.

#[local] Open Scope Z_scope.

(** ** Selection *)

Fixpoint total {A} (cost : A → Z) (l : list A) : Z :=
  match l with [] => 0 | a :: l' => cost a + total cost l' end.

Lemma total_nonneg {A} (cost : A → Z) l : (∀ a, 0 ≤ cost a) → 0 ≤ total cost l.
Proof. intros H. induction l as [|a l IH]; cbn; [done|]. specialize (H a). lia. Qed.

Section selection.
Context {LM : Libm} {UT : UlidText} {IF : IndexFaults} {CH : Chrono} {TE : TokenEstimator}.
Context {GS : Globset} {St : Type} {IS : IndexStore St} (st : SearchState (St := St)) (tenant : VaultId).
Context (estimate_nonneg : ∀ t, 0 ≤ estimate t).

(** The notes of the ranking that can be read. *)
Definition readable (scored : list (Candidate * f64)) : list Selected := omap (fetch st tenant) scored.

Definition body_cost (s : Selected) : Z := estimate (sel_body s).
Definition stub_cost (s : Stub) : Z := estimate (render_stub s).
Definition stub_of (s : Selected) : Stub := stub_from_selected s STUB_SNIPPET_CHARS.

(** What stops the inline phase: the budget, or the note that comes next. *)
Definition no_more (budget used : Z) (rest : list Selected) : Prop :=
  match rest with [] => True | s :: _ => budget ≤ used ∨ budget < used + body_cost s end.

Lemma inline_phase_exact budget used scored inline final over :
  0 ≤ used ≤ budget → budget < u32_modulus - 1 →
  inline_phase st tenant budget used scored = (inline, final, over) →
  final = used + total body_cost inline ∧ final ≤ budget
  ∧ readable scored = inline ++ readable over ∧ no_more budget final (readable over).
Proof.
  intros Hu Hb. revert used inline final over Hu. induction scored as [|c scored IH]; intros used inline final over Hu; cbn.
  { intros [= <- <- <-]. cbn. split_and!; try done; lia. }
  destruct (Z.leb_spec budget used) as [Hle|Hlt].
  { intros [= <- <- <-]. cbn. split_and!; try done; [lia|lia|]. unfold no_more.
    destruct (match fetch st tenant c with Some y => _ | None => _ end); [done|by left]. }
  destruct (fetch st tenant c) as [sel|] eqn:Ef; [|by apply IH].
  pose proof (estimate_nonneg (sel_body sel)) as He. unfold sat_add_u32.
  destruct (Z.ltb_spec budget (Z.min (used + estimate (sel_body sel)) (u32_modulus - 1))) as [Hx|Hx].
  { intros [= <- <- <-]. cbn. rewrite Ef. cbn. split_and!; try done; [lia|lia|]. right. unfold body_cost. lia. }
  destruct (inline_phase st tenant budget _ scored) as [[inline' total'] over'] eqn:Er.
  intros [= <- <- <-]. apply IH in Er as (-> & Hle & Hrd & Hno); [|lia]. cbn. fold (readable scored).
  rewrite Hrd. split_and!; try done. unfold body_cost at 2. lia.
Qed.

Lemma stub_phase_exact budget used scored :
  0 ≤ used ≤ budget → budget < u32_modulus - 1 →
  used + total stub_cost (stub_phase st tenant budget used scored) ≤ budget
  ∧ stub_phase st tenant budget used scored `sublist_of` (stub_of <$> readable scored).
Proof.
  intros Hu Hb. revert used Hu. induction scored as [|c scored IH]; intros used Hu; cbn.
  { split; [lia|constructor]. }
  destruct (Z.leb_spec budget used) as [Hle|Hlt].
  { cbn. split; [lia|]. apply sublist_nil_l. }
  destruct (fetch st tenant c) as [sel|] eqn:Ef; [|by apply IH]. cbn.
  pose proof (estimate_nonneg (render_stub (stub_of sel))) as He. fold (stub_of sel). unfold sat_add_u32.
  destruct (Z.leb_spec (Z.min (used + estimate (render_stub (stub_of sel))) (u32_modulus - 1)) budget) as [Hx|Hx].
  - cbn. unfold stub_cost at 1. destruct (IH (Z.min (used + estimate (render_stub (stub_of sel))) (u32_modulus - 1))) as [H1 H2]; [lia|].
    split; [lia|]. by apply sublist_skip.
  - destruct (IH used) as [H1 H2]; [lia|]. split; [done|]. by apply sublist_cons.
Qed.

(** C33: the notes shown in full are the longest beginning of the readable ranking whose
    estimates fit the budget (notes that cost nothing apart, once it is exactly full), and the references are taken, in the same order, from the notes
    that follow, within a budget of their own: nothing is shown twice and nothing out of
    order. *)
Theorem selection_within_budget candidates weights budget stub_budget now_ms inline stubs used :
  0 ≤ budget < u32_modulus - 1 → 0 ≤ stub_budget < u32_modulus - 1 →
  select_budget_aware st tenant candidates weights budget stub_budget now_ms = (inline, stubs, used) →
  let ranking := readable (rank_candidates st tenant weights now_ms candidates) in
  ∃ rest, ranking = inline ++ rest
    ∧ used = total body_cost inline ∧ used ≤ budget ∧ no_more budget used rest
    ∧ stubs `sublist_of` (stub_of <$> rest) ∧ total stub_cost stubs ≤ stub_budget.
Proof.
  intros Hb Hs. unfold select_budget_aware.
  destruct (inline_phase st tenant budget 0 _) as [[inl fin] over] eqn:Ei. intros [= <- <- <-].
  apply inline_phase_exact in Ei as (-> & Hle & Hrd & Hno); [|lia|lia].
  destruct (stub_phase_exact stub_budget 0 over) as [Hst Hsub]; [lia|lia|].
  exists (readable over). split_and!; try done; lia.
Qed.
End selection.

(** ** Where the notes of a context come from *)

Section provenance.
Context {LM : Libm} {FTS : Fts5} {UT : UlidText} {UN : UnicodeTables} {IF : IndexFaults} {CH : Chrono}.
Context {TE : TokenEstimator} {GS : Globset} {St : Type} {IS : IndexStore St}.
Implicit Types (st : SearchState (St := St)).

(** The row of a note that a context may read. *)
Definition note_row st (tenant : VaultId) (id : string) (sr : search_row) : Prop :=
  sn_notes (ss_index st) !! (tenant, id) = Some sr ∧ is_sentinel (text_of id) = false.

Lemma note_record_Some st tenant id r :
  note_record (ss_index st) tenant id = Some r → ∃ sr, note_row st tenant id sr ∧ sn_row sr = r.
Proof.
  unfold note_record, note_row. destruct (is_sentinel _); [done|]. intros (sr & H & ->)%fmap_Some. by exists sr.
Qed.

Lemma fetch_Some st tenant c sel :
  fetch st tenant c = Some sel →
  sel_note_id sel = c_note_id c.1 ∧ ∃ sr, note_row st tenant (sel_note_id sel) sr
    ∧ sel_section sel = r_section (sn_row sr) ∧ sel_body sel = r_body_text (sn_row sr).
Proof.
  unfold fetch, attempt. destruct (index_fails _); [done|].
  destruct (note_record _ _ _) as [r|] eqn:E; [|done]. intros [= <-]. cbn. split; [done|].
  apply note_record_Some in E as (sr & H & <-). by exists sr.
Qed.

Lemma ranked_candidate st tenant weights now candidates c :
  c ∈ rank_candidates st tenant weights now candidates → c.1 ∈ candidates.
Proof.
  unfold rank_candidates. rewrite elem_of_sort_by. intros (c' & Hc & H)%list_elem_of_omap.
  unfold score_candidate in H. destruct (attempt _ _) as [[created deg]|]; [|done]. by simplify_eq.
Qed.

(** A note that is shown was a candidate, and is shown as it is. *)
Definition shown_as st (tenant : VaultId) (candidates : list Candidate) (sel : Selected) : Prop :=
  sel_note_id sel ∈ c_note_id <$> candidates
  ∧ ∃ sr, note_row st tenant (sel_note_id sel) sr
     ∧ sel_section sel = r_section (sn_row sr) ∧ sel_body sel = r_body_text (sn_row sr).
Definition referred_as st (tenant : VaultId) (candidates : list Candidate) (s : Stub) : Prop :=
  st_ulid s ∈ c_note_id <$> candidates
  ∧ ∃ sr, note_row st tenant (st_ulid s) sr ∧ st_section s = r_section (sn_row sr).

Lemma readable_shown st tenant candidates scored sel :
  (∀ c, c ∈ scored → c.1 ∈ candidates) → sel ∈ readable st tenant scored → shown_as st tenant candidates sel.
Proof.
  intros Hc (c & Hin & [Hid Hsr]%fetch_Some)%list_elem_of_omap. split; [|done].
  rewrite Hid. apply list_elem_of_fmap. eauto.
Qed.

Lemma inline_phase_from st tenant budget used scored inline final over :
  inline_phase st tenant budget used scored = (inline, final, over) →
  (∀ s, s ∈ inline → s ∈ readable st tenant scored) ∧ (∀ c, c ∈ over → c ∈ scored).
Proof.
  revert used inline final over. induction scored as [|c scored IH]; intros used inline final over; cbn.
  { intros [= <- <- <-]. split; set_solver. }
  destruct (budget <=? used); [intros [= <- <- <-]; split; set_solver|].
  destruct (fetch st tenant c) as [sel|] eqn:Ef; cbn.
  - destruct (budget <? _); [intros [= <- <- <-]; split; set_solver|].
    destruct (inline_phase st tenant budget _ scored) as [[inline' total'] over'] eqn:Er.
    intros [= <- <- <-]. apply IH in Er as [H1 H2]. fold (readable st tenant scored).
    split; [|set_solver]. intros s [->|Hs]%elem_of_cons; [by left|right; auto].
  - intros [H1 H2]%IH. split; [done|set_solver].
Qed.

Lemma stub_phase_from st tenant budget used scored s :
  s ∈ stub_phase st tenant budget used scored → ∃ sel, sel ∈ readable st tenant scored ∧ s = stub_of sel.
Proof.
  revert used. induction scored as [|c scored IH]; intros used; cbn; [set_solver|].
  destruct (budget <=? used); [set_solver|]. destruct (fetch st tenant c) as [sel|]; cbn; [|apply IH].
  fold (readable st tenant scored). destruct (_ <=? budget).
  - intros [->|(sel' & H & ->)%IH]%elem_of_cons; [exists sel; split; [by left|done]|].
    exists sel'. split; [by right|done].
  - intros (sel' & H & ->)%IH. exists sel'. split; [by right|done].
Qed.

Lemma select_shown st tenant candidates weights budget stub_budget now inline stubs used :
  select_budget_aware st tenant candidates weights budget stub_budget now = (inline, stubs, used) →
  Forall (shown_as st tenant candidates) inline ∧ Forall (referred_as st tenant candidates) stubs.
Proof.
  unfold select_budget_aware. destruct (inline_phase st tenant budget 0 _) as [[inl fin] over] eqn:Ei.
  intros [= <- <- <-]. apply inline_phase_from in Ei as [H1 H2].
  assert (∀ c, c ∈ rank_candidates st tenant weights now candidates → c.1 ∈ candidates) as Hc
    by (intros c; apply ranked_candidate).
  rewrite !Forall_forall. split.
  - intros s Hs. eapply readable_shown; [exact Hc|]. by apply H1.
  - intros s (sel & Hsel & ->)%stub_phase_from.
    destruct (readable_shown st tenant candidates over sel) as [Hid (sr & Hr & Hs & _)]; [|done|].
    { intros c Hin. by apply Hc, H2. }
    split; [done|]. by exists sr.
Qed.

(** ** Merging references *)

Lemma elem_of_values {V} (m : gmap string V) x : x ∈ values_by_key m ↔ ∃ k, m !! k = Some x.
Proof.
  unfold values_by_key. rewrite list_elem_of_fmap. split.
  - intros ([k v] & -> & Hin). apply elem_of_sort_by, elem_of_map_to_list in Hin. by exists k.
  - intros (k & Hk). exists (k, x). split; [done|]. by apply elem_of_sort_by, elem_of_map_to_list.
Qed.

Lemma first_of_elem {V} id (l : list (string * V)) x : first_of id l = Some x → (id, x) ∈ l.
Proof.
  unfold first_of. intros ([k v] & H & ->)%fmap_Some.
  destruct (List.filter _ l) as [|kv l'] eqn:E; [done|]. cbn in H. simplify_eq.
  assert ((k, v) ∈ List.filter (λ kv : string * V, bool_decide (kv.1 = id)) l) as [Hin Hk]%elem_of_kept
    by (rewrite E; by left).
  apply bool_decide_eq_true in Hk. cbn in Hk. by subst.
Qed.

Lemma first_of_is_Some {V} id (l : list (string * V)) x : (id, x) ∈ l → is_Some (first_of id l).
Proof.
  intros Hin. unfold first_of. destruct (List.filter _ l) as [|kv l'] eqn:E; [|by eexists].
  assert ((id, x) ∈ List.filter (λ kv : string * V, bool_decide (kv.1 = id)) l) as H
    by (apply elem_of_kept; split; [done|by apply bool_decide_eq_true]).
  rewrite E in H. by apply not_elem_of_nil in H.
Qed.

Lemma merged_elem (l : list Stub) s : s ∈ values_by_key (foldl or_insert ∅ (stub_entry <$> l)) → s ∈ l.
Proof.
  intros (k & Hk)%elem_of_values. rewrite foldl_or_insert, lookup_empty in Hk.
  apply first_of_elem, list_elem_of_fmap in Hk as (s' & E & H). unfold stub_entry in E. by simplify_eq.
Qed.

Lemma freeze_ulid sent s : st_ulid (freeze sent s) = st_ulid s ∧ st_section (freeze sent s) = st_section s.
Proof. unfold freeze. by destruct (sent !! st_ulid s). Qed.

Lemma split_sent_shown st tenant candidates sent selected stubs selected' stubs' :
  split_sent sent selected stubs = (selected', stubs') →
  Forall (shown_as st tenant candidates) selected → Forall (referred_as st tenant candidates) stubs →
  Forall (shown_as st tenant candidates) selected' ∧ Forall (referred_as st tenant candidates) stubs'.
Proof.
  unfold split_sent. intros [= <- <-]. rewrite !Forall_forall. intros Hsel Hst. split.
  - intros s [Hs _]%elem_of_kept. auto.
  - intros s Hs%merged_elem. apply elem_of_app in Hs as [Hs|Hs].
    + apply list_elem_of_omap in Hs as (sel & Hin & (e & He & ->)%fmap_Some).
      destruct (Hsel sel Hin) as [Hid (sr & Hr & Hsec & _)]. split; [done|]. by exists sr.
    + apply list_elem_of_fmap in Hs as (s' & -> & Hin). destruct (Hst s' Hin) as [Hid (sr & Hr & Hsec)].
      destruct (freeze_ulid sent s') as [E1 E2]. split; [by rewrite E1|]. exists sr. by rewrite E1, E2.
Qed.
End provenance.

(** ** What a context may show *)

Section safety.
Context {LM : Libm} {FTS : Fts5} {UT : UlidText} {UN : UnicodeTables} {IF : IndexFaults} {CH : Chrono}.
Context {TE : TokenEstimator} {TF : TraceFaults} {GS : Globset} {St : Type} {IS : IndexStore St}.
Implicit Types (cx : ContextState (St := St)) (trust : TrustContext) (req : VaultContextRequest).

(** A note of the caller's vault that the caller may see. *)
Definition permitted cx trust (tenant : VaultId) (id : string) (section : ustr) : Prop :=
  ∃ sr, note_row (cx_search cx) tenant id sr ∧ r_section (sn_row sr) = section
    ∧ (section = IDENTITY_SECTION → is_identity_privileged trust = true)
    ∧ (classified sr → sees_classified (cx_search cx) trust tenant).

Lemma hidden_candidates_sound cx trust tenant ids hidden id sr :
  hidden_candidates cx trust tenant ids = Ok hidden → id ∈ ids → id ∉ hidden →
  note_row (cx_search cx) tenant id sr → classified sr → sees_classified (cx_search cx) trust tenant.
Proof.
  intros Hh Hid Hn [Hr Hs]. destruct (hidden_ids_sound (cx_search cx) trust tenant ids ∅) as [_ H].
  { by intros v b; rewrite lookup_empty. }
  by eapply H.
Qed.

Lemma identity_shown privileged section :
  identity_section_hidden privileged section = false → section = IDENTITY_SECTION → privileged = true.
Proof.
  unfold identity_section_hidden. destruct privileged; [done|]. cbn. intros H ->.
  by rewrite bool_decide_eq_true_2 in H.
Qed.

(** The candidates of a context when the query names no note. *)
Lemma retrieved_section cx ck tenant query wanted top_n outcome c :
  ids_known (ss_index (cx_search cx)) → ulid_text (native (trim query)) = None →
  retrieve_candidates (cx_search cx) ck tenant query (Some [wanted]) top_n = Ok outcome →
  c ∈ ro_candidates outcome →
  ∃ sr, sn_notes (ss_index (cx_search cx)) !! (tenant, c_note_id c) = Some sr ∧ r_section (sn_row sr) = wanted.
Proof.
  intros Hk Hu. unfold retrieve_candidates. rewrite Hu. destruct (nothing_to_match _).
  { intros [= <-] Hc. by apply not_elem_of_nil in Hc. }
  unfold attempt at 1. destruct (index_fails _); [done|]. cbn [result_bind].
  destruct (search_fts_with_snippet _ _ _ _ _ _ _ _ _ _ _) as [hits|] eqn:Eh; [|done]. cbn [result_bind].
  set (bm25 := (λ h, (raw_id h, raw_bm25 h)) <$> _).
  destruct (context_semantic _ _ _ _ _ _) as [[sem emb] fallback] eqn:Es. intros [= <-] Hc. cbn in Hc.
  assert (c_note_id c ∈ bm25.*1 ∨ c_note_id c ∈ sem.*1) as [Hb|Hs].
  { destruct (hybrid _); apply list_elem_of_fmap in Hc as (h & -> & Hh);
      [apply short_circuit_ids in Hh as [Hh _]|apply rrf_fuse_ids in Hh as [Hh _]]; exact Hh. }
  - unfold bm25 in Hb. rewrite <- list_fmap_compose in Hb. apply list_elem_of_fmap in Hb as (h & E & Hh).
    apply elem_of_kept in Hh as [Hh Hsec]. apply bool_decide_eq_true, list_elem_of_singleton in Hsec.
    destruct (search_fts_sound _ _ _ _ _ _ _ _ _ _ _ _ _ Hk Eh Hh) as (sr & Hr & _ & _ & Hs & _).
    cbn in E. rewrite E. exists sr. split; [done|]. by rewrite <- Hs.
  - unfold context_semantic in Es. destruct (emb_noop _); [simplify_eq; set_solver|].
    destruct (embed _ _) as [e|]; [|simplify_eq; set_solver].
    destruct (attempt (CallSemantic _) _) as [found|]; [|simplify_eq; set_solver]. injection Es as <- _ _.
    case_bool_decide as En; [subst found; set_solver|]. unfold filter_semantic_by_sections, attempt in Hs.
    destruct (index_fails _); [set_solver|]. apply list_elem_of_fmap in Hs as ([i s] & E & Hs).
    apply elem_of_kept in Hs as [_ Hs]. cbn in Hs, E.
    destruct (get_titles_sections _ _ _ !! i) as [[t sec]|] eqn:Et; [|done].
    apply batch_Some in Et as (_ & _ & sr & Hr & Hf). simplify_eq.
    exists sr. split; [done|]. by apply bool_decide_eq_true, list_elem_of_singleton in Hs.
Qed.

Lemma without_souls_sound privileged selected stubs selected' stubs' :
  without_souls privileged selected stubs = (selected', stubs') →
  (∀ s, s ∈ selected' → s ∈ selected ∧ (sel_section s = IDENTITY_SECTION → privileged = true))
  ∧ (∀ s, s ∈ stubs' → s ∈ stubs ∧ (st_section s = IDENTITY_SECTION → privileged = true)).
Proof.
  unfold without_souls. destruct privileged; intros [= <- <-]; [by split|]. split.
  - intros s [Hs H]%elem_of_kept. apply negb_true_iff in H. split; [done|]. by apply identity_shown.
  - intros s [Hs H]%elem_of_kept. apply negb_true_iff in H. split; [done|]. by apply identity_shown.
Qed.

(** The choice of an assembled context shows what its candidates are. *)
Lemma assembled_choice_sound cx tenant req privileged now sent candidates selected stubs :
  assembled_choice cx tenant req privileged now sent candidates = (selected, stubs) →
  (∀ s, s ∈ selected → shown_as (cx_search cx) tenant candidates s
                       ∧ (sel_section s = IDENTITY_SECTION → privileged = true))
  ∧ (∀ s, s ∈ stubs → referred_as (cx_search cx) tenant candidates s
                      ∧ (st_section s = IDENTITY_SECTION → privileged = true)).
Proof.
  unfold assembled_choice. destruct (select_budget_aware _ _ _ _ _ _ _) as [[inl st0] u] eqn:Es.
  apply select_shown in Es as [Hsel Hst].
  destruct (match sent with Some m => _ | None => _ end) as [inl' st'] eqn:Em.
  assert (Forall (shown_as (cx_search cx) tenant candidates) inl'
          ∧ Forall (referred_as (cx_search cx) tenant candidates) st') as [Hsel' Hst'].
  { destruct sent as [m|]; [by eapply split_sent_shown|by simplify_eq]. }
  rewrite Forall_forall in Hsel'. rewrite Forall_forall in Hst'. intros [H1 H2]%without_souls_sound. naive_solver.
Qed.

(** Where the text of an answer comes from. *)
Definition text_of_notes cx (tenant : VaultId) req (resp : VaultContextResponse) : Prop :=
  match cr_mode req with
  | Raw => ∃ parts, assembled_text resp = render_raw parts
      ∧ Forall2 (λ part n, ∃ sr, note_row (cx_search cx) tenant (in_ulid n) sr
                                 ∧ part `prefix_of` r_body_text (sn_row sr)) parts (included resp)
  | _ => ∃ notes, included resp = included_of <$> notes
      ∧ assembled_text resp = render_assembled (cr_query req) notes [] ++ render_references_block (references resp)
      ∧ ∀ n, n ∈ notes → ∃ sr, note_row (cx_search cx) tenant (sel_note_id n) sr
                               ∧ sel_body n = r_body_text (sn_row sr)
  end.

(** The notes of an answer, all within a section if [wanted] is one. *)
Definition all_permitted cx trust (tenant : VaultId) (wanted : option ustr) (resp : VaultContextResponse) : Prop :=
  (∀ n, n ∈ included resp → permitted cx trust tenant (in_ulid n) (in_section n)
                            ∧ ∀ s, wanted = Some s → in_section n = s)
  ∧ (∀ r, r ∈ references resp → permitted cx trust tenant (st_ulid r) (st_section r)
                                ∧ ∀ s, wanted = Some s → st_section r = s).

(** The section of a request whose query names no note. *)
Definition confined_to req : option ustr :=
  match ulid_text (native (cr_query req)), ulid_text (native (trim (cr_query req))) with
  | None, None => cr_section req
  | _, _ => None
  end.

Lemma empty_permitted cx trust tenant wanted fallback : all_permitted cx trust tenant wanted (empty_context fallback).
Proof. split; intros ? ?%not_elem_of_nil; done. Qed.

Lemma with_skills_none cx tenant req budget qemb text cells :
  cr_inject_skills req = false → with_skills cx tenant req budget qemb text cells = (text, 0, cells).
Proof. intros H. unfold with_skills. by rewrite H. Qed.

Lemma assembled_shows cx ck now tenant req trust cells cells' resp :
  ids_known (ss_index (cx_search cx)) → cr_mode req = Assembled →
  assemble_assembled cx ck now tenant req (is_identity_privileged trust) trust cells = (Ok resp, cells') →
  all_permitted cx trust tenant (confined_to req) resp
  ∧ (cr_inject_skills req = false → text_of_notes cx tenant req resp).
Proof.
  intros Hk Hm. unfold assemble_assembled, text_of_notes. rewrite Hm. destruct (refused _ _); [done|].
  destruct (retrieve_candidates _ _ _ _ _ _) as [outcome|] eqn:Er; [|done]. cbn [result_bind].
  destruct (hidden_candidates _ _ _ _) as [hidden|] eqn:Eh; [|done]. cbn [result_bind].
  set (candidates := List.filter _ _). case_bool_decide as En.
  { intros [= <- <-]. split; [apply empty_permitted|]. intros _. exists []. split_and!; try done. set_solver. }
  destruct (assembled_choice _ _ _ _ _ _ _) as [selected stubs] eqn:Ec.
  destruct (with_skills _ _ _ _ _ _ _) as [[text skills] cells1] eqn:Ew. intros [= <- <-].
  assert (∀ id sr, id ∈ c_note_id <$> candidates → note_row (cx_search cx) tenant id sr →
            (classified sr → sees_classified (cx_search cx) trust tenant)
            ∧ ∀ s, confined_to req = Some s → r_section (sn_row sr) = s) as Hc.
  { intros id sr (c & -> & [Hc Hh]%elem_of_kept)%list_elem_of_fmap Hr.
    apply negb_true_iff, bool_decide_eq_false in Hh. split.
    - eapply hidden_candidates_sound; [exact Eh| |exact Hh|exact Hr]. apply list_elem_of_fmap. eauto.
    - intros s. unfold confined_to. destruct (ulid_text (native (cr_query req))); [done|].
      destruct (ulid_text (native (trim (cr_query req)))) eqn:Eu; [done|]. intros Hs.
      unfold sections_of in Er. rewrite Hs in Er.
      destruct (retrieved_section _ _ _ _ _ _ _ _ Hk Eu Er Hc) as (sr' & Hr' & Hsec).
      pose proof (eq_trans (eq_sym (proj1 Hr)) Hr') as E. by simplify_eq. }
  apply assembled_choice_sound in Ec as [Hsel Hst]. split.
  - split; cbn [included references context_answer].
    + intros n (s & -> & Hs)%list_elem_of_fmap. destruct (Hsel s Hs) as [[Hid (sr & Hr & Hsec & _)] Hi].
      destruct (Hc _ _ Hid Hr) as [Hcl Hw]. cbn. split; [by exists sr|]. rewrite Hsec. exact Hw.
    + intros s Hs. destruct (Hst s Hs) as [[Hid (sr & Hr & Hsec)] Hi].
      destruct (Hc _ _ Hid Hr) as [Hcl Hw]. split; [by exists sr|]. rewrite Hsec. exact Hw.
  - intros Hi. rewrite with_skills_none in Ew by done. injection Ew as <- <- <-. exists selected.
    split_and!; [done|done|]. intros n Hn. destruct (Hsel n Hn) as [[_ (sr & Hr & _ & Hb)] _]. by exists sr.
Qed.

(** ** Raw contexts *)

(** A part of a raw context, and the note it is taken from. *)
Definition raw_part_of cx (tenant : VaultId) (privileged : bool) (ids : list string) (pn : ustr * IncludedNote) : Prop :=
  in_ulid pn.2 ∈ ids ∧ ∃ sr, note_row (cx_search cx) tenant (in_ulid pn.2) sr
    ∧ in_section pn.2 = r_section (sn_row sr) ∧ pn.1 `prefix_of` r_body_text (sn_row sr)
    ∧ identity_section_hidden privileged (r_section (sn_row sr)) = false.

Lemma raw_parts_sound cx tenant privileged max_tokens used ids :
  Forall (raw_part_of cx tenant privileged ids) (raw_parts cx tenant privileged max_tokens used ids).
Proof.
  assert (∀ id ids l, Forall (raw_part_of cx tenant privileged ids) l →
            Forall (raw_part_of cx tenant privileged (id :: ids)) l) as Hmore.
  { intros id ids' l H. eapply Forall_impl; [exact H|]. intros pn [Hin Hpn]. split; [by right|done]. }
  revert used. induction ids as [|id ids IH]; intros used; [constructor|]. cbn [raw_parts].
  destruct (max_tokens <=? used); [constructor|]. unfold attempt. destruct (index_fails _); [by apply Hmore, IH|].
  destruct (note_record _ _ _) as [r|] eqn:Er; [|by apply Hmore, IH].
  destruct (identity_section_hidden privileged (r_section r)) eqn:Ei; [by apply Hmore, IH|].
  constructor; [|by apply Hmore, IH]. apply note_record_Some in Er as (sr & Hr & <-).
  split; [by left|]. exists sr. split_and!; try done. cbn. destruct (_ <? _); [|done].
  exists (drop (Z.to_nat (Z.max (max_tokens - used) 0 * 3)) (r_body_text (sn_row sr))). by rewrite take_drop.
Qed.

Lemma raw_ids_section cx ck tenant req ids id :
  ids_known (ss_index (cx_search cx)) → raw_ids cx ck tenant req = Ok (Some ids) → id ∈ ids →
  ∀ s, confined_to req = Some s →
  ∃ sr, sn_notes (ss_index (cx_search cx)) !! (tenant, id) = Some sr ∧ r_section (sn_row sr) = s.
Proof.
  intros Hk Hr Hid s. unfold confined_to. destruct (ulid_text (native (cr_query req))) eqn:Eu; [done|].
  destruct (ulid_text (native (trim (cr_query req)))); [done|]. intros Hs.
  unfold raw_ids in Hr. rewrite Eu, Hs in Hr. destruct (nothing_to_match _); [done|].
  unfold attempt in Hr. destruct (index_fails _); [done|].
  destruct (search_fts_with_snippet _ _ _ _ _ _ _ _ _ _ _) as [hits|] eqn:Eh; [|done]. cbn in Hr. simplify_eq.
  apply list_elem_of_fmap in Hid as (h & -> & Hh).
  destruct (search_fts_sound _ _ _ _ _ _ _ _ _ _ _ _ _ Hk Eh Hh) as (sr & Hsr & Hw & _).
  exists sr. split; [done|]. unfold fts_where in Hw. rewrite !andb_true_iff in Hw. destruct Hw as (((_ & Hw) & _) & _).
  by apply bool_decide_eq_true in Hw.
Qed.

Lemma raw_shows cx ck tenant req trust resp :
  ids_known (ss_index (cx_search cx)) → cr_mode req = Raw →
  assemble_raw cx ck tenant req (is_identity_privileged trust) trust = Ok resp →
  all_permitted cx trust tenant (confined_to req) resp ∧ text_of_notes cx tenant req resp.
Proof.
  intros Hk Hm. unfold assemble_raw, text_of_notes. rewrite Hm.
  destruct (raw_ids cx ck tenant req) as [[ids|]|] eqn:Ei; cbn [result_bind]; [| |done].
  2:{ intros [= <-]. split; [apply empty_permitted|]. exists []. by split. }
  destruct (hidden_candidates cx trust tenant ids) as [hidden|] eqn:Eh; [|done]. cbn [result_bind].
  set (kept := List.filter _ ids). set (parts := raw_parts _ _ _ _ _ _). intros [= <-]. cbn [included references].
  assert (Forall (raw_part_of cx tenant (is_identity_privileged trust) kept) parts) as Hp by apply raw_parts_sound.
  clearbody parts. split; [split|].
  - intros n ([p n'] & -> & Hn)%list_elem_of_fmap. rewrite Forall_forall in Hp.
    destruct (Hp _ Hn) as ([Hid Hh]%elem_of_kept & sr & Hr & Hsec & _ & Hi). cbn in *.
    apply negb_true_iff, bool_decide_eq_false in Hh. split.
    + exists sr. split_and!; [done|by rewrite Hsec| |].
      * rewrite Hsec. by apply identity_shown.
      * by eapply hidden_candidates_sound.
    + intros s Hs. destruct (raw_ids_section _ _ _ _ _ _ Hk Ei Hid s Hs) as (sr' & Hr' & Hw).
      rewrite Hsec. pose proof (eq_trans (eq_sym (proj1 Hr)) Hr') as E. by simplify_eq.
  - intros r Hr. by apply not_elem_of_nil in Hr.
  - exists parts.*1. split; [done|]. clear -Hp. induction Hp as [|[p n] l (_ & sr & Hr & _ & Hb & _) _ IH]; [constructor|].
    cbn. constructor; [by exists sr|done].
Qed.

(** ** The handler *)

(** C8: an assembled or raw context holds only notes of the caller's own vault, each as the
    index has it, no agent's soul unless the caller is privileged, no classified note unless
    the policy lets the caller read them, and, unless the query names a note, no note
    outside the section the request was authorised for; this is of the notes it lists, and
    only without skills is its text that of their bodies, raw ones cut at their budget, and of
    the references. *)
Theorem context_shows_only_permitted cx trust req (ck : Clock) (now_ms : Z) cells cells' resp :
  ids_known (ss_index (cx_search cx)) → cr_mode req ≠ Compact →
  vault_context_impl cx trust req ck now_ms cells = (Ok resp, cells') →
  ∃ tenant, effective_tenant trust (cr_tenant_id req) = Ok tenant
    ∧ evaluate (acl (ss_app (cx_search cx))) trust AclRead
        (locus_for_section tenant (native <$> cr_section req)) = Allow
    ∧ all_permitted cx trust tenant (confined_to req) resp
    ∧ (cr_inject_skills req = false → text_of_notes cx tenant req resp).
Proof.
  intros Hk Hm. unfold vault_context_impl. destruct (is_authenticated trust); [|done]. cbn [negb].
  destruct (validated_section _); [|done]. cbn [result_bind].
  destruct (effective_tenant trust (cr_tenant_id req)) as [tenant|]; [|done]. cbn [map_err result_bind].
  case_bool_decide as Ha; [|done]. intros H. exists tenant. split_and!; try done.
  all: unfold assemble_context in H; destruct (cr_mode req) eqn:Em; [..|done].
  - by eapply assembled_shows.
  - injection H as H _. by eapply raw_shows.
  - by eapply assembled_shows.
  - injection H as H _. intros _. by eapply raw_shows.
Qed.
End safety.
