(* ===== verification/ContextSession.v ===== *)
(** * ContextSession: a session receives each note once

    Contexts are assembled turn after turn, interleaved with requests of other callers, in
    other modes and on other indexes, and with what clients post to the journal.  Through all
    of it, a note whose text a session received stays a reference in that session, under
    the excerpt of its first sending.  The compact view, in turn, loses no note that was sent;
    and the cache of skills knows no tenant. *)

From S2P Require Import Prelude Job Text Scope Acl Registry TenantGuard Notes ProjectServer NoteStore Float RankFusion SearchIndex SearchServer SearchSafety SessionTrace SessionProps ContextRetrieval ContextPack ContextProps.
From Stdlib Require Import Ascii SpecFloat.

#[local] Open Scope Z_scope.

(** ** The record of a sending *)

Section frozen.
Context {TF : TraceFaults}.
Context (tenant : TenantId) (sid id : string) (sn : ustr).
Implicit Types (tb : trace_table).

(** Every record of the note in the session has the excerpt [sn]. *)
Definition agrees tb : Prop :=
  ∀ t, t ∈ t_rows tb → records_sending tenant sid id t = true → tr_marker (t_row t) = Some sn.
(** ... and there is one. *)
Definition frozen tb : Prop := agrees tb ∧ ∃ t, t ∈ t_rows tb ∧ records_sending tenant sid id t = true.

Lemma frozen_lookup tb : frozen tb → ∃ e, sent_map tenant sid tb !! id = Some e ∧ se_snippet e = sn.
Proof.
  intros [Ha (t & Ht & Hm)]. destruct (sent_map tenant sid tb !! id) as [e|] eqn:E.
  - exists e. split; [done|]. rewrite sent_map_lookup in E.
    destruct (sort_by _ _) as [|t' l] eqn:Es; [done|]. cbn in E.
    assert (t' ∈ List.filter (records_sending tenant sid id) (t_rows tb)) as [Hin Hm']%elem_of_kept
      by (apply elem_of_sort_by with (cmp := by_ts_then_id); rewrite Es; by left).
    apply (Ha t' Hin) in Hm'. unfold sent_entry in E. rewrite Hm' in E.
    destruct (tr_target (t_row t')); [|done]. cbn in E. by simplify_eq.
  - apply sent_map_None in E. assert (t ∈ List.filter (records_sending tenant sid id) (t_rows tb)) as H by by apply elem_of_kept.
    rewrite E in H. by apply not_elem_of_nil in H.
Qed.

Lemma insert_at_rows call tenant' r now tb t :
  t ∈ t_rows (insert_at call tenant' r now tb).2 → t ∈ t_rows tb ∨ ∃ i, t = mkStored i tenant' r now.
Proof.
  unfold insert_at. destruct (trace_fails call); [by left|]. cbn.
  intros [Ht|Ht%list_elem_of_singleton]%elem_of_app; [by left|right; eauto].
Qed.

Lemma insert_at_old call tenant' r now tb t : t ∈ t_rows tb → t ∈ t_rows (insert_at call tenant' r now tb).2.
Proof. unfold insert_at. destruct (trace_fails call); [done|]. cbn. set_solver. Qed.

Lemma insert_at_agrees call tenant' r now tb :
  agrees tb → (∀ i, records_sending tenant sid id (mkStored i tenant' r now) = true → tr_marker r = Some sn) →
  agrees (insert_at call tenant' r now tb).2.
Proof. intros Ha Hr t [Ht|(i & ->)]%insert_at_rows Hm; [by apply Ha|by eapply Hr]. Qed.

Lemma insert_at_frozen call tenant' r now tb :
  frozen tb → (∀ i, records_sending tenant sid id (mkStored i tenant' r now) = true → tr_marker r = Some sn) →
  frozen (insert_at call tenant' r now tb).2.
Proof.
  intros [Ha (t & Ht & Hm)] Hr. split; [by apply insert_at_agrees|]. exists t. split; [by apply insert_at_old|done].
Qed.

(** The row of [mark_sent]. *)
Definition sent_row_of (sid' id' : string) (snippet : ustr) (now : Z) : SessionTraceRow :=
  mkTraceRow sid' AGENT_CONTEXT_WINDOW now CONTEXT_SENT (Some id') None None
    (Some (take SENT_SNIPPET_MAX_CHARS snippet)) None.

Lemma mark_sent_inserts tenant' sid' id' snippet now tb :
  (mark_sent tenant' sid' id' snippet now tb).2
  = (insert_at (CallMarkSent id') tenant' (sent_row_of sid' id' snippet now) now tb).2.
Proof. unfold mark_sent, sent_row_of. by destruct (insert_at _ _ _ _ _). Qed.

Lemma marks_sent_row tenant' sid' id' snippet now i :
  records_sending tenant sid id (mkStored i tenant' (sent_row_of sid' id' snippet now) now) = true
  ↔ tenant' = tenant ∧ sid' = sid ∧ id' = id.
Proof.
  unfold records_sending, sent_row, names. cbn. rewrite !andb_true_iff, !bool_decide_eq_true. naive_solver.
Qed.

(** ** The notes of a turn *)

Definition excerpt (s : Selected) : ustr := st_snippet (stub_from_selected s MARK_SENT_SNIPPET_CHARS).

Lemma excerpt_short s : take SENT_SNIPPET_MAX_CHARS (excerpt s) = excerpt s.
Proof. unfold excerpt. cbn. by rewrite take_take. Qed.

(** Recording notes none of which is ours leaves our record. *)
Lemma mark_all_other tenant' sid' now selected tb :
  (∀ s, s ∈ selected → tenant' = tenant → sid' = sid → sel_note_id s ≠ id) →
  frozen tb → frozen (mark_all tenant' sid' now selected tb).
Proof.
  revert tb. induction selected as [|s selected IH]; intros tb Hs Hf; [done|]. cbn.
  apply IH; [intros s' Hs'; apply Hs; by right|]. fold (excerpt s). rewrite mark_sent_inserts. apply insert_at_frozen; [done|].
  intros i (-> & -> & Hid)%marks_sent_row. by destruct (Hs s (list_elem_of_here _ _)).
Qed.

(** Recording our note makes the record. *)
Lemma mark_all_new now selected tb :
  (∀ u, trace_fails (CallMarkSent u) = false) →
  (∀ s, s ∈ selected → sel_note_id s = id → excerpt s = sn) →
  agrees tb → (∃ s, s ∈ selected ∧ sel_note_id s = id) ∨ frozen tb →
  frozen (mark_all tenant sid now selected tb).
Proof.
  intros Hnf. revert tb. induction selected as [|s selected IH]; intros tb Hs Ha Hex.
  { destruct Hex as [(s & Hin & _)|Hf]; [by apply not_elem_of_nil in Hin|done]. }
  cbn. fold (excerpt s). rewrite mark_sent_inserts.
  assert (∀ i, records_sending tenant sid id (mkStored i tenant (sent_row_of sid (sel_note_id s) (excerpt s) now) now) = true →
            tr_marker (sent_row_of sid (sel_note_id s) (excerpt s) now) = Some sn) as Hr.
  { intros i (_ & _ & Hid)%marks_sent_row. unfold sent_row_of. cbn [tr_marker].
    rewrite excerpt_short. f_equal. apply Hs; [by left|done]. }
  apply IH; [intros s' Hs'; apply Hs; by right|by apply insert_at_agrees|].
  destruct Hex as [(s' & [->|Hin]%elem_of_cons & Hid)|Hf]; [right|left; eauto|right; by apply insert_at_frozen].
  split; [by apply insert_at_agrees|]. unfold insert_at. rewrite Hnf. cbn.
  eexists. split; [apply elem_of_app; right; by left|]. by apply marks_sent_row.
Qed.
End frozen.

(** ** Turns *)

Section turns.
Context {LM : Libm} {FTS : Fts5} {UT : UlidText} {UN : UnicodeTables} {IF : IndexFaults} {CH : Chrono}.
Context {TE : TokenEstimator} {TF : TraceFaults} {GS : Globset} {St : Type} {IS : IndexStore St}.
Implicit Types (cx : ContextState (St := St)) (trust : TrustContext) (req : VaultContextRequest).

(** What can happen: a context is asked for, or a client posts to the journal. *)
Inductive event :=
| Asked cx trust req (ck : Clock) (now_ms : Z)
| Posted (state : AppState (St := St)) trust (post : SessionTraceRequest) (fresh : string) (now_ms insert_ms : Z).

Definition run_event (cells : ContextCells) (e : event) : ContextCells :=
  match e with
  | Asked cx trust req ck now_ms => (vault_context_impl cx trust req ck now_ms cells).2
  | Posted state trust post fresh now_ms insert_ms =>
      mkCells (post_session_trace state trust post fresh now_ms insert_ms (session_trace cells)).2
        (skills_index cells)
  end.
Definition run_events : list event → ContextCells → ContextCells := λ es cells, foldl run_event cells es.

Lemma with_skills_trace cx tenant req budget qemb text cells :
  session_trace (with_skills cx tenant req budget qemb text cells).2 = session_trace cells.
Proof.
  unfold with_skills. destruct (if cr_inject_skills req then qemb else None); [|done].
  unfold get_or_build_skill_index. destruct (skills_index cells);
    [|destruct (build_skill_index cx tenant)]; repeat case_match; try done; by simplify_eq.
Qed.

(** A turn that answers: what it chose, and what it recorded. *)
Lemma assembled_turn cx ck now tenant req privileged trust cells cells' resp :
  assemble_assembled cx ck now tenant req privileged trust cells = (Ok resp, cells') →
  (included resp = [] ∧ references resp = [] ∧ cells' = cells)
  ∨ ∃ candidates selected stubs,
      assembled_choice cx tenant req privileged now (session_sent_of tenant req cells) candidates = (selected, stubs)
      ∧ included resp = included_of <$> selected ∧ references resp = stubs
      ∧ session_trace cells'
        = session_trace (mark_selected tenant req now (session_sent_of tenant req cells) selected cells).
Proof.
  unfold assemble_assembled. destruct (refused _ _); [done|].
  destruct (retrieve_candidates _ _ _ _ _ _) as [outcome|]; [|done]. cbn [result_bind].
  destruct (hidden_candidates _ _ _ _) as [hidden|]; [|done]. cbn [result_bind].
  set (candidates := List.filter _ _). case_bool_decide as En; [intros [= <- <-]; by left|].
  destruct (assembled_choice _ _ _ _ _ _ _) as [selected stubs] eqn:Ec.
  destruct (with_skills _ _ _ _ _ _ _) as [[text skills] cells1] eqn:Ew. intros [= <- <-].
  right. exists candidates, selected, stubs. split_and!; try done.
  pose proof (with_skills_trace cx tenant req (budget_of cx req) (ro_query_embedding outcome)
    (render_assembled (cr_query req) selected [])
    (mark_selected tenant req now (session_sent_of tenant req cells) selected cells)) as H.
  by rewrite Ew in H.
Qed.

(** What a turn refuses leaves the journal. *)
Lemma assembled_refusal cx ck now tenant req privileged trust cells cells' e :
  assemble_assembled cx ck now tenant req privileged trust cells = (Err e, cells') → cells' = cells.
Proof.
  unfold assemble_assembled. destruct (refused _ _); [by intros [= _ <-]|].
  destruct (retrieve_candidates _ _ _ _ _ _) as [outcome|]; cbn [result_bind]; [|by intros [= _ <-]].
  destruct (hidden_candidates _ _ _ _) as [hidden|]; cbn [result_bind]; [|by intros [= _ <-]].
  case_bool_decide; [done|]. destruct (assembled_choice _ _ _ _ _ _ _) as [selected stubs].
  by destruct (with_skills _ _ _ _ _ _ _) as [[text skills] cells1].
Qed.

(** In a session, nothing that was sent is shown in full, and what refers to it carries
    the excerpt that was recorded. *)
Lemma choice_of_session cx tenant req privileged now sent candidates selected stubs :
  assembled_choice cx tenant req privileged now (Some sent) candidates = (selected, stubs) →
  (∀ s, s ∈ selected → sent !! sel_note_id s = None)
  ∧ (∀ r e, r ∈ stubs → sent !! st_ulid r = Some e → st_snippet r = se_snippet e).
Proof.
  unfold assembled_choice. destruct (select_budget_aware _ _ _ _ _ _ _) as [[inl st0] u].
  destruct (split_sent sent inl st0) as [inl' st'] eqn:Em. unfold split_sent in Em. injection Em as <- <-.
  intros [H1 H2]%without_souls_sound. split.
  - intros s [[_ Hs]%elem_of_kept _]%H1. apply negb_true_iff, bool_decide_eq_false in Hs.
    by apply eq_None_not_Some.
  - intros r e [Hr _]%H2 He. apply merged_elem, elem_of_app in Hr as [Hr|Hr].
    + apply list_elem_of_omap in Hr as (s & _ & (e' & He' & ->)%fmap_Some). cbn in He |- *. by simplify_eq.
    + apply list_elem_of_fmap in Hr as (r' & -> & _). destruct (freeze_ulid sent r') as [E _].
      rewrite E in He. unfold freeze. by rewrite He.
Qed.

Context (no_faults : ∀ c, trace_fails c = false).

Lemma session_sent_known tenant req cells sid tb :
  cr_session_id req = Some sid → session_trace cells = Some tb →
  session_sent_of tenant req cells = Some (sent_map tenant sid tb).
Proof. intros Hs Ht. unfold session_sent_of, get_sent. by rewrite Hs, Ht, no_faults. Qed.

(** The journal after a turn. *)
Lemma turn_trace cx ck now tenant req privileged trust cells cells' r tb :
  assemble_assembled cx ck now tenant req privileged trust cells = (r, cells') → session_trace cells = Some tb →
  session_trace cells' = Some tb
  ∨ ∃ sid selected, cr_session_id req = Some sid
      ∧ (∀ s, s ∈ selected → sent_map tenant sid tb !! sel_note_id s = None)
      ∧ session_trace cells' = Some (mark_all tenant sid now selected tb).
Proof.
  intros H Ht. destruct r as [resp|e]; [|left; by apply assembled_refusal in H as ->].
  apply assembled_turn in H as [(_ & _ & ->)|(candidates & selected & stubs & Hc & _ & _ & Htr)]; [by left|].
  unfold mark_selected in Htr. destruct (cr_session_id req) as [sid|] eqn:Es.
  2:{ left. rewrite Htr. by destruct (session_sent_of _ _ _). }
  rewrite (session_sent_known tenant req cells sid tb Es Ht) in Hc, Htr. rewrite Ht in Htr. right.
  exists sid, selected. split_and!; [done|by apply choice_of_session in Hc as [? _]|done].
Qed.

Lemma event_keeps_frozen tenant sid id sn cells tb e :
  session_trace cells = Some tb → frozen tenant sid id sn tb →
  ∃ tb', session_trace (run_event cells e) = Some tb' ∧ frozen tenant sid id sn tb'.
Proof.
  intros Ht Hf. destruct e as [cx trust req ck now|state trust post fresh now ins]; cbn.
  - unfold vault_context_impl. destruct (negb _); [by exists tb|].
    destruct (_ ?<- _; _) as [tenant'|]; [|by exists tb]. unfold assemble_context.
    destruct (cr_mode req); [|by exists tb..].
    destruct (assemble_assembled _ _ _ _ _ _ _ _) as [r cells'] eqn:E.
    destruct (turn_trace _ _ _ _ _ _ _ _ _ _ _ E Ht) as [H|(sid' & selected & _ & Hs & H)]; [by exists tb|].
    eexists. split; [exact H|]. apply mark_all_other; [|done]. intros s Hin -> -> Hid.
    destruct (frozen_lookup _ _ _ _ _ Hf) as (e & He & _). specialize (Hs s Hin). by rewrite Hid, He in Hs.
  - rewrite Ht. cbn. unfold post_session_trace. destruct (negb _); [by exists tb|].
    destruct trust as [|kid aud sub scopes ten jti|c f|u s o]; try by exists tb.
    repeat (match goal with |- context [if ?b then _ else _] => destruct b end; [by exists tb|]).
    unfold insert_trace. set (row := mkTraceRow _ _ _ _ _ _ _ _ _).
    exists (insert_at CallInsertTrace ten row ins tb).2. split; [by destruct (insert_at _ _ _ _ _) as [[]]|].
    apply insert_at_frozen; [done|]. intros i. unfold records_sending, names, sent_entry, row. cbn.
    by destruct (sr_target post); cbn; rewrite andb_false_r.
Qed.

Lemma events_keep_frozen tenant sid id sn es cells tb :
  session_trace cells = Some tb → frozen tenant sid id sn tb →
  ∃ tb', session_trace (run_events es cells) = Some tb' ∧ frozen tenant sid id sn tb'.
Proof.
  revert cells tb. induction es as [|e es IH]; intros cells tb Ht Hf; [by exists tb|]. cbn.
  destruct (event_keeps_frozen tenant sid id sn cells tb e Ht Hf) as (tb' & Ht' & Hf'). by eapply IH.
Qed.

(** An answered request of a session, as the turn it is. *)
Lemma answered_turn cx trust req ck now cells cells' resp tenant :
  vault_context_impl cx trust req ck now cells = (Ok resp, cells') → cr_mode req = Assembled →
  effective_tenant trust (cr_tenant_id req) = Ok tenant →
  assemble_assembled cx ck now tenant req (is_identity_privileged trust) trust cells = (Ok resp, cells').
Proof.
  unfold vault_context_impl. intros H Hm He. rewrite He in H. destruct (negb _); [done|].
  destruct (validated_section _); [|done]. cbn [map_err result_bind] in H. case_bool_decide; [|done].
  unfold assemble_context in H. by rewrite Hm in H.
Qed.

(** The turn that shows a note records its excerpt. *)
Lemma turn_freezes cx ck now tenant req trust cells cells' tb resp sid n :
  assemble_assembled cx ck now tenant req (is_identity_privileged trust) trust cells = (Ok resp, cells') →
  session_trace cells = Some tb → cr_session_id req = Some sid → n ∈ included resp →
  ∃ sr tb', sn_notes (ss_index (cx_search cx)) !! (tenant, in_ulid n) = Some sr
    ∧ session_trace cells' = Some tb'
    ∧ frozen tenant sid (in_ulid n) (take MARK_SENT_SNIPPET_CHARS (flat <$> r_body_text (sn_row sr))) tb'.
Proof.
  intros T Ht Hs Hn. apply assembled_turn in T as [(E & _)|(cands & sel & stubs & Hc & Hi & _ & Htr)];
    [rewrite E in Hn; by apply not_elem_of_nil in Hn|].
  rewrite (session_sent_known tenant req cells sid tb Hs Ht) in Hc, Htr.
  unfold mark_selected in Htr. rewrite Hs, Ht in Htr. cbn in Htr.
  rewrite Hi in Hn. apply list_elem_of_fmap in Hn as (s & -> & Hin). cbn [in_ulid included_of].
  destruct (assembled_choice_sound _ _ _ _ _ _ _ _ _ Hc) as [Hsel _].
  destruct (Hsel s Hin) as [[_ (sr & [Hr _] & _ & Hb)] _]. exists sr, (mark_all tenant sid now sel tb).
  split_and!; [done|done|]. rewrite <- Hb. change (take _ _) with (excerpt s).
  apply mark_all_new; [intros u; apply no_faults| | |by left; exists s].
  - intros s' Hs' E. destruct (Hsel s' Hs') as [[_ (sr' & [Hr' _] & _ & Hb')] _]. rewrite E, Hr in Hr'.
    simplify_eq. unfold excerpt. cbn. by rewrite Hb, Hb'.
  - apply choice_of_session in Hc as [Hnew _]. specialize (Hnew s Hin). apply sent_map_None in Hnew.
    intros t Htb Hmk.
    assert (t ∈ List.filter (records_sending tenant sid (sel_note_id s)) (t_rows tb)) as Hm by by apply elem_of_kept.
    rewrite Hnew in Hm. by apply not_elem_of_nil in Hm.
Qed.

End turns.

(** ** The compact view *)

Lemma or_insert_values {V} (m : gmap string V) l id x :
  foldl or_insert m l !! id = Some x → x ∈ values_by_key (foldl or_insert m l).
Proof. intros H. apply elem_of_values. eauto. Qed.

(** A note that was sent and is not shown in full is referred to under its excerpt. *)
Lemma compact_stubs_complete sent selected stubs id e :
  sent !! id = Some e → id ∉ sel_note_id <$> selected →
  ∃ r, r ∈ compact_stubs sent selected stubs ∧ st_ulid r = id ∧ st_snippet r = se_snippet e.
Proof.
  intros He Hn. unfold compact_stubs.
  set (first := foldl or_insert ∅ (stub_entry <$> (freeze sent <$> stubs))).
  set (rest := (λ ue : string * SentEntry, (ue.1, minimal_stub ue.1 ue.2)) <$> _).
  assert (∃ r, foldl or_insert first rest !! id = Some r ∧ st_ulid r = id ∧ st_snippet r = se_snippet e)
    as (r & Hr & Hu & Hs); [|exists r; split; [by eapply or_insert_values|done]].
  rewrite foldl_or_insert. destruct (first !! id) as [r|] eqn:E.
  - exists r. split; [done|]. unfold first in E. rewrite foldl_or_insert, lookup_empty in E.
    apply first_of_elem, list_elem_of_fmap in E as (s & E & Hs). unfold stub_entry in E. simplify_eq.
    split; [done|]. apply list_elem_of_fmap in Hs as (s' & -> & _). destruct (freeze_ulid sent s') as [E _].
    rewrite E in He. unfold freeze. by rewrite He.
  - assert ((id, minimal_stub id e) ∈ rest) as Hin.
    { apply list_elem_of_fmap. exists (id, e). split; [done|]. apply elem_of_kept.
      split; [by apply elem_of_map_to_list|]. cbn. by rewrite bool_decide_eq_false_2. }
    destruct (first_of_is_Some id rest _ Hin) as [r Hr]. exists r. split; [done|].
    apply first_of_elem, list_elem_of_fmap in Hr as ([u e'] & E' & Hk). cbn in E'. simplify_eq.
    apply elem_of_kept in Hk as [Hk%elem_of_map_to_list _]. by simplify_eq.
Qed.

Section compact.
Context {LM : Libm} {FTS : Fts5} {UT : UlidText} {UN : UnicodeTables} {IF : IndexFaults} {CH : Chrono}.
Context {TE : TokenEstimator} {TF : TraceFaults} {GS : Globset} {St : Type} {IS : IndexStore St}.
Implicit Types (cx : ContextState (St := St)) (trust : TrustContext) (req : VaultContextRequest).

(** A note that the guards withhold from the caller. *)
Definition withheld cx trust (tenant : VaultId) (id : string) : Prop :=
  ∃ sr, note_row (cx_search cx) tenant id sr
    ∧ (classified sr ∧ ¬ sees_classified (cx_search cx) trust tenant
       ∨ r_section (sn_row sr) = IDENTITY_SECTION ∧ is_identity_privileged trust = false).

(** A compact answer that considered candidates. *)
Lemma compact_answer cx ck now tenant req trust cells resp sid :
  assemble_compact cx ck now tenant req (is_identity_privileged trust) trust cells = Ok resp →
  cr_session_id req = Some sid → candidates_considered (diagnostics resp) ≠ 0 →
  ∃ selected stubs, included resp = included_of <$> selected
    ∧ references resp = compact_stubs (sent_or_empty tenant sid cells) selected stubs
    ∧ ∀ s, s ∈ selected → permitted cx trust tenant (sel_note_id s) (sel_section s).
Proof.
  unfold assemble_compact. intros H Hs Hn. rewrite Hs in H. destruct (negb _); [done|].
  destruct (retrieve_candidates _ _ _ _ _ _) as [outcome|]; [|done]. cbn [result_bind] in H.
  set (all := with_sent _ _) in *.
  destruct (hidden_candidates _ _ _ _) as [hidden|] eqn:Eh; [|done]. cbn [result_bind] in H.
  set (candidates := compact_score _ _ <$> _) in H. case_bool_decide as En; [by simplify_eq|].
  destruct (select_budget_aware _ _ _ _ _ _ _) as [[inl st0] u] eqn:Es.
  destruct (without_souls _ _ _) as [selected stubs] eqn:Ew. injection H as <-.
  exists selected, stubs. split_and!; [done|done|]. intros s Hin.
  apply select_shown in Es as [Hsel _]. rewrite Forall_forall in Hsel.
  apply without_souls_sound in Ew as [Hws _]. destruct (Hws s Hin) as [Hinl Hid].
  destruct (Hsel s Hinl) as [Hc (sr & Hr & Hsec & _)]. exists sr. split_and!; [done|by rewrite Hsec|done|].
  unfold candidates in Hc. rewrite <- list_fmap_compose in Hc. apply list_elem_of_fmap in Hc as (c & E & Hk).
  apply elem_of_kept in Hk as [Hk Hh]. apply negb_true_iff, bool_decide_eq_false in Hh.
  assert (sel_note_id s = c_note_id c) as Eid.
  { rewrite E. cbn. unfold compact_score. by destruct (match _ with Some _ => _ | None => _ end). }
  eapply (hidden_candidates_sound cx trust tenant _ hidden (sel_note_id s)); [exact Eh| |by rewrite Eid|done].
  rewrite Eid. apply list_elem_of_fmap. eauto.
Qed.

(** C22: a compact context that found anything, and whose journal could be read, loses no note
    of its session: every note sent before is in it, in full or as a reference under the
    excerpt recorded when it was sent.
    So it also refers, with their excerpts, to the notes that the guards withhold from the
    caller. *)
Theorem compact_keeps_every_sending cx trust req (ck : Clock) (now_ms : Z) cells cells' resp tenant sid tb :
  trace_fails CallGetSent = false → session_trace cells = Some tb →
  cr_mode req = Compact → cr_session_id req = Some sid → effective_tenant trust (cr_tenant_id req) = Ok tenant →
  vault_context_impl cx trust req ck now_ms cells = (Ok resp, cells') →
  candidates_considered (diagnostics resp) ≠ 0 →
  cells' = cells ∧ ∀ id e, sent_map tenant sid tb !! id = Some e →
    let referred := ∃ r, r ∈ references resp ∧ st_ulid r = id ∧ st_snippet r = se_snippet e in
    ((∃ n, n ∈ included resp ∧ in_ulid n = id) ∨ referred)
    ∧ (withheld cx trust tenant id → referred).
Proof.
  intros Hf Ht Hm Hs He H Hn. unfold vault_context_impl in H. rewrite He in H. destruct (negb _); [done|].
  destruct (validated_section _); [|done]. cbn [map_err result_bind] in H. case_bool_decide as Ha; [|done].
  unfold assemble_context in H. rewrite Hm in H. injection H as H <-. split; [done|].
  destruct (compact_answer _ _ _ _ _ _ _ _ _ H Hs Hn) as (selected & stubs & Hi & Hr & Hp).
  assert (sent_or_empty tenant sid cells = sent_map tenant sid tb) as Hsent.
  { unfold sent_or_empty, get_sent. by rewrite Ht, Hf. }
  rewrite Hsent in Hr. intros id e Hid referred.
  assert (id ∉ sel_note_id <$> selected → referred) as Hout.
  { intros Hn'. unfold referred. rewrite Hr. by apply compact_stubs_complete. }
  split.
  - destruct (decide (id ∈ sel_note_id <$> selected)) as [Hin|]; [left|right; auto].
    apply list_elem_of_fmap in Hin as (s & -> & Hin). exists (included_of s). split; [|done].
    rewrite Hi. by apply list_elem_of_fmap; exists s.
  - intros (sr & Hrow & Hw). apply Hout. intros (s & -> & Hin)%list_elem_of_fmap.
    destruct (Hp s Hin) as (sr' & Hrow' & Hsec & Hpriv & Hcl).
    pose proof (eq_trans (eq_sym (proj1 Hrow)) (proj1 Hrow')) as E. simplify_eq.
    destruct Hw as [[Hc Hns]|[Hsec' Hnp]]; [auto|]. rewrite Hpriv in Hnp; [done|congruence].
Qed.
End compact.

(** ** The cache of skills *)

Section skills_cache.
Context {LM : Libm} {FTS : Fts5} {UT : UlidText} {UN : UnicodeTables} {IF : IndexFaults} {CH : Chrono}.
Context {TE : TokenEstimator} {TF : TraceFaults} {GS : Globset} {St : Type} {IS : IndexStore St}.
Implicit Types (cx : ContextState (St := St)) (trust : TrustContext) (req : VaultContextRequest).

(** A skill is a note of the vault it was read from. *)
Definition skill_of cx (tenant : VaultId) (s : SkillEntry) : Prop :=
  ∃ sr, note_row (cx_search cx) tenant (sk_ulid s) sr
    ∧ r_section (sn_row sr) = SKILLS_SECTION ∧ sk_body s = r_body_text (sn_row sr).

Lemma build_skill_index_sound cx tenant idx :
  build_skill_index cx tenant = Ok idx → Forall (skill_of cx tenant) idx.
Proof.
  unfold build_skill_index, attempt. destruct (index_fails _); [done|]. cbn [result_bind].
  set (records := (list_notes _ _ _ _).1). case_bool_decide as En; [intros [= <-]; constructor|].
  destruct (embed_batch _ _) as [embs|]; intros [= <-]; [|constructor].
  assert (Forall (λ r : string * index_row, ∃ sr, note_row (cx_search cx) tenant r.1 sr
            ∧ r_section (sn_row sr) = SKILLS_SECTION ∧ r.2 = sn_row sr) records) as Hr.
  { apply Forall_forall. intros r ([[v i] sr] & -> & Hin)%list_elem_of_fmap.
    apply elem_of_take in Hin as (? & Hin & _). apply list_elem_of_lookup_2, elem_of_sort_by, elem_of_kept in Hin as [Hin Hl].
    apply elem_of_map_to_list in Hin. unfold in_listing in Hl. cbn in Hl. rewrite !andb_true_iff, negb_true_iff in Hl.
    destruct Hl as (((->%bool_decide_eq_true & Hsec) & Hsen) & _). exists sr. cbn in Hsec.
    apply bool_decide_eq_true in Hsec. by repeat split. }
  clearbody records. clear En. revert embs. induction Hr as [|r records (sr & Hrow & Hsec & E) _ IH]; intros [|emb embs]; cbn; constructor.
  - exists sr. cbn. by rewrite E.
  - apply IH.
Qed.

Lemma skills_kept cx tenant req budget qemb text cells idx :
  skills_index cells = Some idx → skills_index (with_skills cx tenant req budget qemb text cells).2 = Some idx.
Proof.
  intros H. unfold with_skills, get_or_build_skill_index. rewrite H.
  destruct (if cr_inject_skills req then qemb else None); [|done]. repeat case_match; by simplify_eq.
Qed.

Lemma mark_selected_skills tenant req now sent selected cells :
  skills_index (mark_selected tenant req now sent selected cells) = skills_index cells.
Proof. unfold mark_selected. by repeat case_match. Qed.

Lemma fitting_skills_from budget used l s : s ∈ (fitting_skills budget used l).1 → s ∈ l.
Proof.
  revert used. induction l as [|x l IH]; intros used; cbn; [done|]. destruct (budget <? _); [set_solver|].
  specialize (IH (sat_add_u32 used (estimate (skill_block x)))).
  destruct (fitting_skills budget _ l) as [taken total]. cbn in *. set_solver.
Qed.

Lemma rank_skills_from idx emb n s : s ∈ rank_skills idx emb n → s ∈ idx.
Proof.
  unfold rank_skills. destruct (_ || _); [by intros ?%not_elem_of_nil|].
  intros ([e c] & -> & (? & Hin & _)%elem_of_take)%list_elem_of_fmap.
  apply list_elem_of_lookup_2, elem_of_sort_by, list_elem_of_fmap in Hin as (e' & E & Hin). by simplify_eq.
Qed.

(** The text of an answer begins with skills of [idx]. *)
Definition begins_with_skills (idx : SkillIndex) (text : ustr) : Prop :=
  ∃ shown rest, shown ≠ [] ∧ (∀ s, s ∈ shown → s ∈ idx)
    ∧ text = SKILLS_INTRO ++ mjoin (skill_block <$> shown) ++ rest.

Lemma begins_with_skills_app idx text more : begins_with_skills idx text → begins_with_skills idx (text ++ more).
Proof. intros (shown & rest & Hn & Hs & ->). exists shown, (rest ++ more). by rewrite <- !(assoc (++)). Qed.

Lemma with_skills_shows cx tenant req budget qemb text cells text' n cells' idx :
  with_skills cx tenant req budget qemb text cells = (text', n, cells') → 0 < n →
  skills_index cells' = Some idx → begins_with_skills idx text'.
Proof.
  unfold with_skills. destruct (if cr_inject_skills req then qemb else None) as [emb|]; [|intros [= <- <- <-]; lia].
  destruct (get_or_build_skill_index cx tenant cells) as [oidx cells1] eqn:Eg.
  assert (∀ i, oidx = Some i → skills_index cells1 = Some i) as Hidx.
  { unfold get_or_build_skill_index in Eg. repeat case_match; simplify_eq/=; naive_solver. }
  destruct oidx as [i|]; [|intros [= <- <- <-]; lia]. specialize (Hidx i eq_refl).
  destruct (inject_skills_header _ _) as [header toks] eqn:Eh. case_bool_decide as En; [intros [= <- <- <-]; lia|].
  intros [= <- <- <-] _ E. rewrite Hidx in E. injection E as <-. apply begins_with_skills_app.
  unfold inject_skills_header in Eh. destruct (_ || _); [by simplify_eq|]. destruct (_ <? _); [by simplify_eq|].
  set (b := Z.max _ 64) in Eh. set (l := rank_skills _ _ _) in Eh.
  pose proof (fitting_skills_from b (estimate SKILLS_INTRO) l) as Hfit.
  destruct (fitting_skills b _ l) as [taken used]. case_bool_decide as Et; simplify_eq.
  exists taken, []. rewrite app_nil_r. split_and!; [done| |done]. intros s Hs. by eapply rank_skills_from, Hfit.
Qed.

Lemma with_skills_builds cx tenant req budget qemb text cells idx :
  skills_index cells = None → skills_index (with_skills cx tenant req budget qemb text cells).2 = Some idx →
  build_skill_index cx tenant = Ok idx.
Proof.
  intros Hn. unfold with_skills, get_or_build_skill_index. rewrite Hn.
  destruct (if cr_inject_skills req then qemb else None); [|cbn; congruence].
  destruct (build_skill_index cx tenant); repeat case_match; cbn; intros; simplify_eq/=; congruence.
Qed.

(** What a turn does to the cache and to the text. *)
Lemma turn_skills cx ck now tenant req privileged trust cells r cells' :
  assemble_assembled cx ck now tenant req privileged trust cells = (r, cells') →
  (∀ idx, skills_index cells = Some idx → skills_index cells' = Some idx)
  ∧ (∀ idx, skills_index cells = None → skills_index cells' = Some idx → build_skill_index cx tenant = Ok idx)
  ∧ (∀ idx resp, r = Ok resp → 0 < skills_injected (diagnostics resp) → skills_index cells' = Some idx →
       begins_with_skills idx (assembled_text resp)).
Proof.
  unfold assemble_assembled. destruct (refused _ _); [intros [= <- <-]; split_and!; congruence|].
  destruct (retrieve_candidates _ _ _ _ _ _) as [outcome|]; cbn [result_bind];
    [|intros [= <- <-]; split_and!; congruence].
  destruct (hidden_candidates _ _ _ _) as [hidden|]; cbn [result_bind]; [|intros [= <- <-]; split_and!; congruence].
  case_bool_decide as En; [intros [= <- <-]; split_and!; [congruence..|intros ? ? [= <-]; cbn; lia]|].
  destruct (assembled_choice _ _ _ _ _ _ _) as [selected stubs].
  set (cells1 := mark_selected _ _ _ _ _ _).
  assert (skills_index cells1 = skills_index cells) as E1 by apply mark_selected_skills.
  destruct (with_skills _ _ _ _ _ _ _) as [[text n] cells2] eqn:Ew. intros [= <- <-]. split_and!.
  - intros idx Hi. rewrite <- E1 in Hi. pose proof (skills_kept cx tenant req (budget_of cx req)
      (ro_query_embedding outcome) (render_assembled (cr_query req) selected []) cells1 idx Hi) as H. by rewrite Ew in H.
  - intros idx Hn Hi. rewrite <- E1 in Hn. eapply with_skills_builds; [exact Hn|]. by rewrite Ew.
  - intros idx resp [= <-] Hk Hi. cbn. apply begins_with_skills_app. by eapply with_skills_shows.
Qed.

Lemma answered_context cx trust req ck now cells r cells' :
  vault_context_impl cx trust req ck now cells = (r, cells') →
  cells' = cells ∧ (∀ resp, r = Ok resp → skills_injected (diagnostics resp) = 0)
  ∨ ∃ tenant, effective_tenant trust (cr_tenant_id req) = Ok tenant
      ∧ assemble_assembled cx ck now tenant req (is_identity_privileged trust) trust cells = (r, cells').
Proof.
  unfold vault_context_impl. destruct (negb _); [intros [= <- <-]; by left|].
  destruct (validated_section _); cbn [result_bind]; [|intros [= <- <-]; by left].
  destruct (effective_tenant trust (cr_tenant_id req)) as [tenant|]; cbn [map_err result_bind]; [|intros [= <- <-]; by left].
  case_bool_decide; [|intros [= <- <-]; by left]. unfold assemble_context. destruct (cr_mode req).
  - intros E. right. by exists tenant.
  - intros [= <- <-]. left. split; [done|]. intros resp. unfold assemble_raw.
    destruct (raw_ids _ _ _ _) as [[ids|]|]; cbn; [|by intros [= <-]|done].
    destruct (hidden_candidates _ _ _ _); [|done]. by intros [= <-].
  - intros [= <- <-]. left. split; [done|]. intros resp. unfold assemble_compact.
    destruct (cr_session_id req); [|done]. destruct (negb _); [done|].
    destruct (retrieve_candidates _ _ _ _ _ _); [|done]. cbn [result_bind].
    destruct (hidden_candidates _ _ _ _); [|done]. cbn [result_bind]. case_bool_decide; [by intros [= <-]|].
    destruct (select_budget_aware _ _ _ _ _ _ _) as [[inl st0] u]. destruct (without_souls _ _ _). by intros [= <-].
Qed.

Lemma events_keep_skills (es : list (event (St := St))) cells idx :
  skills_index cells = Some idx → skills_index (run_events es cells) = Some idx.
Proof.
  revert cells. induction es as [|e es IH]; intros cells H; [done|]. cbn. apply IH.
  destruct e as [cx trust req ck now|]; cbn; [|done].
  destruct (vault_context_impl cx trust req ck now cells) as [r cells'] eqn:E. cbn.
  apply answered_context in E as [[-> _]|(tenant & _ & E)]; [done|].
  apply turn_skills in E as (Hk & _). by apply Hk.
Qed.

(** C23: the cache of skills has no tenant.  Once a request has filled it with the skills of
    its own vault, every context that any caller of any tenant is given with skills, whatever
    happened in between, begins with notes of that first vault, as they were then. *)
Theorem skills_of_the_first_tenant cx1 trust1 req1 ck1 now1 cells0 resp1 cells1 idx
    (between : list (event (St := St))) cx2 trust2 req2 ck2 now2 resp2 cells2 :
  skills_index cells0 = None →
  vault_context_impl cx1 trust1 req1 ck1 now1 cells0 = (resp1, cells1) → skills_index cells1 = Some idx →
  vault_context_impl cx2 trust2 req2 ck2 now2 (run_events between cells1) = (Ok resp2, cells2) →
  0 < skills_injected (diagnostics resp2) →
  begins_with_skills idx (assembled_text resp2)
  ∧ ∃ tenant1, effective_tenant trust1 (cr_tenant_id req1) = Ok tenant1
      ∧ ∀ s, s ∈ idx → skill_of cx1 tenant1 s.
Proof.
  intros H0 H1 Hi H2 Hk. split.
  - apply answered_context in H2 as [[_ Hz]|(tenant & _ & H2)]; [rewrite (Hz resp2 eq_refl) in Hk; lia|].
    apply turn_skills in H2 as (Hkeep & _ & Hsh). apply (Hsh idx resp2 eq_refl Hk), Hkeep. by apply events_keep_skills.
  - apply answered_context in H1 as [[-> _]|(tenant & He & H1)]; [congruence|]. exists tenant. split; [done|].
    apply turn_skills in H1 as (_ & Hb & _). specialize (Hb idx H0 Hi).
    apply Forall_forall. by apply build_skill_index_sound.
Qed.
End skills_cache.
