(* ===== verification/ContextWitness.v ===== *)
(** * ContextWitness: the context theorems at work

    Two vaults with a public note, an agent's soul, a classified note and a skill each; an
    agent that may read neither souls nor classified notes, one that may read the latter, and
    an agent of the other tenant. *)

From S2P Require Import Prelude Job Text Scope Acl Registry TenantGuard Notes ProjectServer NoteStore Float RankFusion SearchIndex SearchServer SearchSafety SearchQuery SearchWitness Vault VaultHistory SessionTrace SessionProps ContextRetrieval ContextPack ContextProps ContextSession.
From Stdlib Require Import SpecFloat.

#[local] Open Scope Z_scope.

Module ContextExamples.

#[local] Instance flat_libm : Libm := {| exp _ := f64_one; powf _ _ := f64_one; powf32 _ _ := f32_of_Z 1 |}.
#[local] Instance word_match : Fts5 := {|
  fts_accepts _ := true;
  fts_hit ix q k :=
    sr ← sn_notes ix !! k;
    if bool_decide (q ∈ split_whitespace (r_body_text (sn_row sr)))
    then Some (f64_of_Z (- Z.of_N (r_version (sn_row sr))), q) else None |}.
#[local] Instance n_ids : UlidText :=
  λ s, if is_sentinel (text_of s) then None else if String.prefix "N" s then Some s else None.
#[local] Instance ascii_letters : UnicodeTables := ascii_tables.
#[local] Instance no_faults : IndexFaults := λ _, false.
#[local] Instance no_trace_faults : TraceFaults := λ _, false.
#[local] Instance no_dates : Chrono := λ _, None.
#[local] Instance estimator : TokenEstimator := HeuristicEstimator.

Definition ctx_row (section : string) (rank : N) (tags : option ustr) (body : string) : search_row :=
  mkSearchRow (mkRow None (lit section) (lit "live") None None None 1%N None 0 None 0%N rank
    (lit body) None tags (lit "semantic") (lit "Static") None 50%N None None None) 0 None.

Definition context_ix : search_index := mkSearchIndex
  (list_to_map [(("main", "N1"), ctx_row "decisions" 2 None "alpha one"); (("main", "N2"), ctx_row "identity" 3 None "alpha soul");
     (("main", "N3"), ctx_row "decisions" 4 (Some (lit "personal-classified")) "alpha secret");
     (("main", "N4"), ctx_row "skills" 5 None "how main does it"); (("main", "N5"), ctx_row "debug" 6 None "alpha five");
     (("other", "N6"), ctx_row "decisions" 7 None "alpha six"); (("other", "N7"), ctx_row "skills" 8 None "how other does it")]%string)
  ∅ ∅ [mkLink "N5" "N1" "main" 1].

Definition context_engine : AclEngine :=
  match compile_all [mkConsumerEntry "agent" ["main/*"; "!main/personal*"] []; mkConsumerEntry "clerk" ["main/*"] [];
                     mkConsumerEntry "foreign" ["other/*"; "!other/personal*"] [];
                     mkConsumerEntry "debugger" ["main/debug"] []]%string with
  | Ok cs => mkAclEngine cs
  | Err _ => mkAclEngine []
  end.

Definition context_state : ContextState (St := Registry) := mkContextState
  (mkSearchState (mkAppState true context_engine (seeded 0)) context_ix
     (mkEmbedder false "e5" (λ _, Ok [f32_of_Z 1]) (λ l, Ok ((λ _, [f32_of_Z 1]) <$> l)))
     (mkReranker 0 false (λ _ _, Ok [])) (mkTrustDecay false ∅) None ∅ None)
  (mkContextConfig 2000 50 3 (f64_lit 15 100) 400 500).

Definition SESSION : string := "01HQ0000000000000000000000".
Definition ask (mode : ContextMode) (query : string) (section : option ustr) (skills : bool) (budget : Z)
    (session : option string) : VaultContextRequest :=
  mkContextRequest None (lit query) None (Some budget) section mode None skills None true session.
Definition the_clock : Clock := mkClockReads (λ _, 0) (λ _, 0) 0 0.
Definition reader : TrustContext := bearer "agent" "main" ["read"%string].
Definition empty_cells : ContextCells := mkCells (Some (mkTraces [] 0)) None.
Definition asked_by (who tenant : string) (req : VaultContextRequest) (now : Z) (cells : ContextCells) :
    result VaultContextResponse GradatumError * ContextCells :=
  vault_context_impl context_state (bearer who tenant ["read"]) req the_clock now cells.

(** What an answer shows, and what it refers to. *)
Definition shown_ids (r : result VaultContextResponse GradatumError * ContextCells) : option (list string * list string) :=
  match r.1 with Ok resp => Some (in_ulid <$> included resp, st_ulid <$> references resp) | Err _ => None end.

Example sample_context :
  shown_ids (asked_by "agent" "main" (ask Assembled "alpha" None false 2000 None) 0 empty_cells) = Some (["N1"; "N5"], [])%string.
Proof. vm_compute. reflexivity. Qed.

(** An agent that may read one section only is given a note of another by naming it. *)
Example named_note_escapes_section :
  shown_ids (asked_by "debugger" "main" (ask Raw "N1" (Some (lit "debug")) false 2000 None) 0 empty_cells)
  = Some (["N1"; "N5"], [])%string
  ∧ shown_ids (asked_by "debugger" "main" (ask Raw "alpha" (Some (lit "decisions")) false 2000 None) 0 empty_cells) = None.
Proof. vm_compute. by split. Qed.

Lemma context_ids : ids_known context_ix.
Proof.
  assert (map_Forall (λ (k : note_key) (_ : search_row),
            ulid_text k.2 = if is_sentinel (text_of k.2) then None else Some k.2) (sn_notes context_ix)) as H.
  { match goal with |- ?P => apply (bool_decide_unpack P) end. by vm_compute. }
  intros k sr Hr. exact (H _ _ Hr).
Qed.

(** The answer of a request that is answered. *)
Definition answer_of (r : result VaultContextResponse GradatumError * ContextCells) : VaultContextResponse :=
  match r.1 with Ok resp => resp | Err _ => empty_context false end.
Lemma answered r : is_ok r.1 = true → r = (Ok (answer_of r), r.2).
Proof. by destruct r as [[]]. Qed.

Definition plain_request : VaultContextRequest := ask Assembled "alpha" None false 2000 None.
Definition plain_answer : result VaultContextResponse GradatumError * ContextCells := asked_by "agent" "main" plain_request 0 empty_cells.

Lemma context_shows_only_permitted_witness :
  in_ulid <$> included (answer_of plain_answer) = ["N1"; "N5"]%string
  ∧ ∀ n, n ∈ included (answer_of plain_answer) → in_section n ≠ IDENTITY_SECTION.
Proof.
  split; [by vm_compute|].
  destruct (context_shows_only_permitted context_state (bearer "agent" "main" ["read"%string])
    plain_request the_clock 0 empty_cells plain_answer.2 (answer_of plain_answer) context_ids
    ltac:(discriminate) (answered plain_answer ltac:(by vm_compute))) as (tenant & _ & _ & [Hp _] & _).
  intros n Hn Hs. destruct (Hp n Hn) as [(sr & _ & _ & Hpriv & _) _]. specialize (Hpriv Hs). by vm_compute in Hpriv.
Defined.

(** ** Selection *)

Definition sample_candidates : list Candidate := [mkCandidate "N1" f64_one; mkCandidate "N5" f64_half; mkCandidate "N3" f64_half].
Definition sample_choice : list Selected * list Stub * Z :=
  select_budget_aware (cx_search context_state) "main" sample_candidates ResolvedWeights_default 5 60 0.

Lemma selection_within_budget_witness :
  sel_note_id <$> sample_choice.1.1 = ["N1"%string] ∧ st_ulid <$> sample_choice.1.2 = ["N3"; "N5"]%string
  ∧ ∃ rest, sample_choice.2 ≤ 5 ∧ sample_choice.1.2 `sublist_of` (stub_of <$> rest).
Proof.
  split; [by vm_compute|]. split; [by vm_compute|].
  assert (∀ t, 0 ≤ estimate t) as Hest by (intros t; apply heuristic_range).
  assert (0 ≤ 5 < u32_modulus - 1) as H5 by (unfold u32_modulus; lia).
  assert (0 ≤ 60 < u32_modulus - 1) as H60 by (unfold u32_modulus; lia).
  assert (sample_choice = (sample_choice.1.1, sample_choice.1.2, sample_choice.2)) as E by by destruct sample_choice as [[]].
  destruct (selection_within_budget (cx_search context_state) "main" Hest sample_candidates
    ResolvedWeights_default 5 60 0 _ _ _ H5 H60 E) as (rest & _ & _ & Hu & _ & Hsub & _).
  exists rest. exact (conj Hu Hsub).
Defined.

(** ** Sessions *)

Definition session_request (budget : Z) : VaultContextRequest := ask Assembled "alpha" None false budget (Some SESSION).
Definition a_post : SessionTraceRequest :=
  mkTraceRequest None (Some SESSION) 5 "context-sent" (Some "N5"%string) None None None.
Definition happened : list (event (St := Registry)) :=
  [Posted (ss_app (cx_search context_state)) (bearer "agent" "main" ["write"%string]) a_post "X" 5 5;
   Asked context_state (bearer "foreign" "other" ["read"%string]) (session_request 2000) the_clock 6].
Definition turn1 : result VaultContextResponse GradatumError * ContextCells :=
  asked_by "agent" "main" (session_request 5) 1 empty_cells.
Definition turn2 : result VaultContextResponse GradatumError * ContextCells :=
  asked_by "agent" "main" (session_request 2000) 9 (run_events happened turn1.2).


(** A clerk who may read classified notes fills the session; the agent who may not asks for
    the compact view. *)
Definition clerk_turn : result VaultContextResponse GradatumError * ContextCells :=
  asked_by "clerk" "main" (session_request 2000) 1 empty_cells.
Definition clerk_table : trace_table := default (mkTraces [] 0) (session_trace clerk_turn.2).
Definition compact_request : VaultContextRequest := ask Compact "alpha" None false 2000 (Some SESSION).
Definition compact_turn : result VaultContextResponse GradatumError * ContextCells :=
  asked_by "agent" "main" compact_request 9 clerk_turn.2.
Definition secret_entry : SentEntry := mkSent (lit "alpha secret") 1.

Lemma secret_withheld : withheld context_state (bearer "agent" "main" ["read"%string]) "main" "N3".
Proof.
  exists (ctx_row "decisions" 4 (Some (lit "personal-classified")) "alpha secret"). split; [by vm_compute|]. left. split.
  - exists (lit "personal-classified"). split; [done|].
    match goal with |- ?P => apply (bool_decide_unpack P) end. by vm_compute.
  - unfold sees_classified. intros H. by vm_compute in H.
Qed.

Lemma compact_keeps_every_sending_witness :
  withheld context_state (bearer "agent" "main" ["read"%string]) "main" "N3"
  ∧ ∃ r, r ∈ references (answer_of compact_turn) ∧ st_ulid r = "N3"%string ∧ st_snippet r = lit "alpha secret".
Proof.
  split; [apply secret_withheld|].
  destruct (compact_keeps_every_sending context_state reader compact_request the_clock 9 clerk_turn.2 compact_turn.2 (answer_of compact_turn)
    "main" SESSION clerk_table eq_refl ltac:(by vm_compute) eq_refl eq_refl eq_refl
    (answered compact_turn ltac:(by vm_compute)) ltac:(by vm_compute)) as [_ H].
  destruct (H "N3"%string secret_entry ltac:(by vm_compute)) as [_ Href]. exact (Href secret_withheld).
Defined.

(** ** Skills *)

Definition skills_request : VaultContextRequest := ask Assembled "alpha" None true 2000 None.
Definition first_skills : result VaultContextResponse GradatumError * ContextCells :=
  asked_by "agent" "main" skills_request 1 empty_cells.
Definition main_skills : SkillIndex := default [] (skills_index first_skills.2).
Definition foreign_skills : result VaultContextResponse GradatumError * ContextCells :=
  asked_by "foreign" "other" skills_request 2 first_skills.2.

(** The agent of the other tenant receives the skill of the first one's vault. *)
Lemma skills_of_the_first_tenant_witness :
  sk_body <$> main_skills = [lit "how main does it"]
  ∧ begins_with_skills main_skills (assembled_text (answer_of foreign_skills)).
Proof.
  split; [by vm_compute|].
  destruct (skills_of_the_first_tenant context_state reader skills_request the_clock 1 empty_cells first_skills.1 first_skills.2 main_skills []
    context_state (bearer "foreign" "other" ["read"%string]) skills_request the_clock 2 (answer_of foreign_skills) foreign_skills.2 eq_refl
    (surjective_pairing first_skills) ltac:(by vm_compute) (answered foreign_skills ltac:(by vm_compute))
    ltac:(by vm_compute)) as [Hb _].
  exact Hb.
Defined.

(** ** The journal *)

Definition some_traces : trace_table := mkTraces
  [mkStored 1 "main" (mkTraceRow SESSION "agent" 5 "plan" None None None None None) 10;
   mkStored 2 "main" (sent_row_of SESSION "N1" (lit "alpha") 6) 11;
   mkStored 3 "other" (mkTraceRow SESSION "foreign" 7 "plan" None None None None None) 12;
   mkStored 4 "main" (mkTraceRow SESSION "agent" 8 "deploy" None None None None None) 12;
   mkStored 5 "main" (mkTraceRow SESSION "agent" 8 "deploy" None None None None None) 12] 5.
Definition page_query : TracesQuery := mkTracesQuery None None None None None None (Some 1).
Definition first_page : TracesResponse := mkTracesResponse [mkStored 5 "main" (mkTraceRow SESSION "agent" 8 "deploy" None None None None None) 12] (Some (lit "12_5")).

Lemma trace_pages_complete_witness :
  ∃ all, walk_traces 6 (ss_app (cx_search context_state)) reader (with_cursor_text None page_query) (Some some_traces) = Some all
    ∧ t_id <$> all = [5; 4; 1] ∧ StronglySorted newer all.
Proof.
  assert (traces_ok some_traces) as Hok.
  { split; [repeat constructor|..]; apply Forall_forall; intros t Ht;
      repeat (apply elem_of_cons in Ht as [->|Ht]; [by vm_compute|]); by apply not_elem_of_nil in Ht. }
  destruct (trace_pages_complete (ss_app (cx_search context_state)) reader page_query some_traces first_page Hok
    ltac:(by vm_compute)) as (all & Hw & Hs & _).
  exists all. split; [exact Hw|]. split; [|exact Hs]. vm_compute in Hw. by injection Hw as <-.
Defined.
End ContextExamples.
