(* ===== verification/Distill.v ===== *)
(** * Distill: grouping, trust and quality of distilled notes

    Models [crates/gradatum-distill]: the clusters of notes by the cosine of their
    embeddings ([distill_cluster.rs], a union-find with path compression), the template of a
    synthesis ([synthesizer.rs]), its trust ([trust.rs]); and the quality score of
    [crates/gradatum-worker/src/quality_score.rs].  An index out of range is [None], the
    panic of the code, and so is a loop that is still running when its fuel is spent; the
    theorem on clusters shows that neither happens. *)

From Stdlib Require Import SpecFloat.
From S2P Require Import Prelude Job Text Notes ProjectServer Float SearchServer.

#[local] Open Scope nat_scope.

(** ** Singles *)

Definition f32_zero : f32 := S754_zero false.
Definition f32_one : f32 := f32_of_Z 1.
Definition f32_lit (n d : Z) : f32 := f32_div (f32_of_Z n) (f32_of_Z d).
Definition f32_leb : f32 → f32 → bool := SFleb.
Definition f32_ltb : f32 → f32 → bool := SFltb.
(** [x.clamp(0.0, 1.0)]: what is not a number stays so. *)
Definition f32_clamp01 (x : f32) : f32 :=
  if f32_ltb x f32_zero then f32_zero else if f32_ltb f32_one x then f32_one else x.
(** [x.max(y)], for [y] a number. *)
Definition f32_max (x y : f32) : f32 :=
  match x with S754_nan => y | _ => if f32_ltb x y then y else x end.
(** [iter.sum::<f32>()] starts at minus zero. *)
Definition f32_sum (l : list f32) : f32 := foldl f32_add (S754_zero true) l.

(** ** [distill_cluster.rs] *)

Definition distill_cosine (a b : list f32) : f32 :=
  if negb (length a =? length b) || (length a =? 0) then f32_zero
  else
    let '(dot, norm_a, norm_b) :=
      foldl (λ '(d, na, nb) '(x, y),
               (f32_add d (f32_mul x y), f32_add na (f32_mul x x), f32_add nb (f32_mul y y)))
            (f32_zero, f32_zero, f32_zero) (zip a b) in
    if f32_leb norm_a f32_zero || f32_leb norm_b f32_zero then f32_zero
    else f32_div dot (f32_mul (f32_sqrt norm_a) (f32_sqrt norm_b)).

Section union_find.
Fixpoint find_root (fuel : nat) (parent : list nat) (root : nat) : option nat :=
  match fuel with
  | O => None
  | S fuel =>
      p ← parent !! root;
      if p =? root then Some root else find_root fuel parent p
  end.

Fixpoint compress (fuel : nat) (parent : list nat) (cur root : nat) : option (list nat) :=
  match fuel with
  | O => None
  | S fuel =>
      next ← parent !! cur;
      if next =? root then Some parent else compress fuel (<[cur := root]> parent) next root
  end.

(** No path is longer than the number of nodes. *)
Definition uf_find (parent : list nat) (x : nat) : option (nat * list nat) :=
  root ← find_root (S (length parent)) parent x;
  parent' ← compress (S (length parent)) parent x root;
  Some (root, parent').

Definition uf_union (parent : list nat) (a b : nat) : option (list nat) :=
  '(ra, parent1) ← uf_find parent a;
  '(rb, parent2) ← uf_find parent1 b;
  Some (if ra =? rb then parent2 else <[ra := rb]> parent2).
End union_find.

(** The pairs [i < j] of indices below [n], in the order of the two loops. *)
Definition index_pairs (n : nat) : list (nat * nat) :=
  i ← seq 0 n; j ← seq (S i) (n - S i); [(i, j)].

Definition link_pair (embeddings : list (list f32)) (threshold : f32) (parent : list nat) (ij : nat * nat) :
    option (list nat) :=
  a ← embeddings !! ij.1;
  b ← embeddings !! ij.2;
  if f32_leb threshold (distill_cosine a b) then uf_union parent ij.1 ij.2 else Some parent.

(** A loop that may panic. *)
Fixpoint try_fold {A B} (f : A → B → option A) (acc : A) (l : list B) : option A :=
  match l with [] => Some acc | x :: l => acc' ← f acc x; try_fold f acc' l end.

Definition push_group (st : list nat * gmap nat (list nat)) (i : nat) : option (list nat * gmap nat (list nat)) :=
  '(root, parent) ← uf_find st.1 i;
  Some (parent, <[root := default [] (st.2 !! root) ++ [i]]> st.2).

(** [c[0]] of a group: a group is made by its first member. *)
Definition first_of (c : list nat) : nat := hd 0 c.

Definition cluster_by_cosine (embeddings : list (list f32)) (threshold : f32) : option (list (list nat)) :=
  let n := length embeddings in
  if n =? 0 then Some []
  else
    parent ← try_fold (link_pair embeddings threshold) (seq 0 n) (index_pairs n);
    '(_, groups) ← try_fold push_group (parent, ∅) (seq 0 n);
    let clusters := snd <$> sort_by (λ a b : nat * list nat, a.1 ?= b.1) (map_to_list groups) in
    let clusters := sort_by Nat.compare <$> clusters in
    Some (sort_by (λ a b, first_of a ?= first_of b) clusters).

(** ** [trust.rs] *)

(** [trust_of] is the lookup of the index. *)
Definition compute_distill_trust (sources : list Ulid) (trust_of : Ulid → option f32) (confidence : f32) : f32 :=
  let trusts := omap trust_of sources in
  if bool_decide (trusts = []) then f32_lit 1 2
  else let mean := f32_div (f32_sum trusts) (f32_of_Z (Z.of_nat (length trusts))) in
       f32_clamp01 (f32_mul mean confidence).

(** ** [synthesizer.rs] *)

Definition EM_DASH_CHAR : ustr := [8212%N].

(** The template; an empty cluster is refused. *)
Definition template_title (cluster : list (ustr * ustr)) : ustr :=
  lit "Distilled synthesis " ++ EM_DASH_CHAR ++ lit " "
  ++ default (lit "related notes") (head (filter (λ t, t ≠ []) (trim ∘ fst <$> cluster))).
Definition template_source (i : nat) (src : ustr * ustr) : ustr :=
  lit "### " ++ fmt_nat (N.of_nat (S i)) ++ lit ". "
  ++ (if bool_decide (trim src.1 = []) then lit "(untitled)" else trim src.1)
  ++ [NL; NL] ++ take 280 (trim src.2) ++ [NL; NL].
Definition template_synthesize (cluster : list (ustr * ustr)) : option (ustr * ustr) :=
  if bool_decide (cluster = []) then None
  else
    let title := template_title cluster in
    Some (title,
      lit "# " ++ title ++ [NL; NL]
      ++ lit "> Distilled synthesis note (F-22) " ++ EM_DASH_CHAR ++ lit " **pending review**." ++ [NL]
      ++ lit "> Groups " ++ fmt_nat (N.of_nat (length cluster)) ++ lit " semantically close note(s)." ++ [NL; NL]
      ++ lit "## Distilled sources" ++ [NL; NL]
      ++ concat (imap template_source cluster)).

(** ** [quality_score.rs] *)

(** [str::to_lowercase] and [char::is_uppercase], from the tables of Unicode. *)
Class CaseTables := {
  str_to_lowercase : ustr → ustr;
  is_uppercase : uchar → bool;
}.

Definition centroid (embeddings : list (list f32)) : list f32 :=
  match embeddings with
  | [] => []
  | first :: _ =>
      let dim := length first in
      if (dim =? 0) || existsb (λ e : list f32, negb (length e =? dim)) embeddings then []
      else
        let acc := foldl (zip_with f32_add) (replicate dim f32_zero) embeddings in
        (λ a, f32_div a (f32_of_Z (Z.of_nat (length embeddings)))) <$> acc
  end.

Definition DOT_CHAR : uchar := 46%N.
Definition COMMA_CHAR : uchar := 44%N.

(** The loop of [numbers_of], with the token being read. *)
Fixpoint numeric_loop (cur : ustr) (text : ustr) : list ustr :=
  let done_token := if bool_decide (cur = []) then [] else [drop_while_end (λ c, (c =? DOT_CHAR)%N) cur] in
  match text with
  | [] => done_token
  | ch :: text =>
      if is_digit ch || (((ch =? DOT_CHAR)%N || (ch =? COMMA_CHAR)%N) && negb (bool_decide (cur = [])))
      then numeric_loop (cur ++ [if (ch =? COMMA_CHAR)%N then DOT_CHAR else ch]) text
      else done_token ++ numeric_loop [] text
  end.
Definition numeric_tokens (text : ustr) : list ustr := numeric_loop [] text.

Definition penalty (step : f32) (orphans : nat) : f32 :=
  f32_max (f32_sub f32_one (f32_mul step (f32_of_Z (Z.of_nat orphans)))) (f32_lit 1 2).

Definition num_coherence_penalty (synth : ustr) (sources : list ustr) : f32 :=
  let synth_nums := numeric_tokens synth in
  if bool_decide (synth_nums = []) then f32_one
  else
    let src_nums := sources ≫= numeric_tokens in
    penalty (f32_lit 15 100) (length (filter (λ n, n ∉ src_nums) synth_nums)).

Section entities.
Context {UN : UnicodeTables} {CT : CaseTables}.

(** [text.split(p)]. *)
Fixpoint split_where (p : uchar → bool) (s : ustr) : list ustr :=
  match s with
  | [] => [[]]
  | c :: s =>
      if p c then [] :: split_where p s
      else match split_where p s with w :: ws => (c :: w) :: ws | [] => [[c]] end
  end.

Definition entities_of (text : ustr) : list ustr :=
  str_to_lowercase <$>
    filter (λ w, match w with f :: _ => is_uppercase f && (3 <=? length w) | [] => false end = true)
           (split_where (λ c, negb (is_alphanumeric c) && negb (is_hyphen c)) text).

Definition entity_orphan_penalty (synth : ustr) (sources : list ustr) : f32 :=
  let synth_ents := entities_of synth in
  if bool_decide (synth_ents = []) then f32_one
  else
    let src_text := str_to_lowercase (join (lit " ") sources) in
    penalty (f32_lit 10 100) (length (filter (λ e, str_contains e src_text = false) synth_ents)).

Record QualityScore := mkQuality {
  q_score : f32;
  q_grounding : f32;
  q_num_penalty : f32;
  q_entity_penalty : f32;
}.

Definition score_quality (synth_embedding source_centroid : list f32) (synth_body : ustr)
    (source_texts : list ustr) (f17 f47 : f32) : QualityScore :=
  let grounding := f32_clamp01 (distill_cosine synth_embedding source_centroid) in
  let num := num_coherence_penalty synth_body source_texts in
  let entity := entity_orphan_penalty synth_body source_texts in
  let product := f32_mul (f32_mul (f32_mul (f32_mul grounding (f32_clamp01 f17)) (f32_clamp01 f47)) num) entity in
  mkQuality (f32_clamp01 product) grounding num entity.
End entities.

(** ** The union-find keeps a forest *)

Section forest.
Context (n : nat).

(** The parents form a forest over the nodes below [n]: [d] falls along every edge. *)
Definition forest (d : nat → nat) (p : list nat) : Prop :=
  length p = n ∧ ∀ x y, p !! x = Some y → y < n ∧ (y ≠ x → d y < d x).

Definition rooted (p : list nat) (x r : nat) : Prop :=
  rtc (λ a b, p !! a = Some b) x r ∧ p !! r = Some r.

(** The number of nodes of smaller depth bounds the way to the root. *)
Definition below (d : nat → nat) (x : nat) : nat := length (filter (λ y, d y < d x) (seq 0 n)).

Lemma below_lt d x y : y < n → d y < d x → below d y < below d x.
Proof.
  intros Hy Hd. apply (filter_length_lt _ _ _ y).
  - intros z. lia.
  - apply elem_of_seq. lia.
  - lia.
  - lia.
Qed.
Lemma below_bound d x : x < n → below d x < n.
Proof.
  intros Hx. assert (length (filter (λ _, True) (seq 0 n)) = n) as <-.
  { trans (length (seq 0 n)); [|apply length_seq]. f_equal. clear Hx. induction (seq 0 n) as [|y l IH]; [done|].
    rewrite filter_cons_True by done. by rewrite IH. }
  apply (filter_length_lt _ _ _ x); [done|apply elem_of_seq; lia|done|lia].
Qed.

Section fixed_depth.
Context (d : nat → nat).

Lemma find_root_spec p fuel x :
  forest d p → x < n → below d x < fuel → ∃ r, find_root fuel p x = Some r ∧ rooted p x r ∧ r < n.
Proof.
  intros [Hl Hp]. revert x. induction fuel as [|fuel IH]; intros x Hx Hf; [lia|]. cbn.
  destruct (lookup_lt_is_Some_2 p x) as [y Hy]; [lia|]. rewrite Hy. cbn.
  destruct (Hp x y Hy) as [Hyn Hd]. destruct (y =? x) eqn:E.
  - apply Nat.eqb_eq in E as ->. exists x. by repeat split.
  - apply Nat.eqb_neq in E. destruct (IH y) as (r & -> & [Hr Hrr] & Hrn); [done| |].
    + pose proof (below_lt d x y Hyn (Hd E)). lia.
    + exists r. repeat split; [|done..]. by eapply rtc_l.
Qed.

Lemma root_reaches_itself (p : list nat) r y : p !! r = Some r → rtc (λ a b, p !! a = Some b) r y → y = r.
Proof. intros Hr. induction 1 as [|r z y H _ IH]; [done|]. simplify_eq. by apply IH. Qed.

Lemma rooted_fun p x r r' : rooted p x r → rooted p x r' → r = r'.
Proof.
  intros [H1 Hr] [H2 Hr']. induction H1 as [x|x y r H H1 IH].
  - symmetry. by apply (root_reaches_itself p).
  - inversion H2 as [|? z ? Hz H2']; subst; [|simplify_eq; by apply IH].
    simplify_eq. by apply (root_reaches_itself p).
Qed.

(** A node that is not its own root lies deeper than it. *)
Lemma rooted_below p x r : forest d p → rooted p x r → x ≠ r → d r < d x.
Proof.
  intros [_ Hp] [H _] Hn. assert (x = r ∨ d r < d x) as [|]; [|done..]. clear Hn.
  induction H as [x|x y r H _ IH]; [by left|].
  destruct (decide (y = x)) as [->|Hy]; [done|]. destruct (Hp x y H) as [_ Hd].
  specialize (Hd Hy). right. destruct IH as [->|]; lia.
Qed.

Lemma rooted_lt p x r : forest d p → rooted p x r → r < n.
Proof. intros [_ Hp] [_ H]. by destruct (Hp _ _ H). Qed.

(** Hanging a node below its own root keeps the forest and all roots. *)
Lemma hang_below_root p c r :
  forest d p → rooted p c r → c ≠ r →
  forest d (<[c := r]> p) ∧ ∀ y r', rooted p y r' → rooted (<[c := r]> p) y r'.
Proof.
  intros Hf Hc Hn. pose proof Hf as [Hl Hp]. split.
  - split; [by rewrite length_insert|]. intros x y [(-> & <- & Hlt)|[? H]]%list_lookup_insert_Some; [|by apply Hp].
    split; [by eapply rooted_lt|]. intros _. by eapply rooted_below.
  - intros y r' [H Hr']. assert (r' ≠ c) as Hrc.
    { intros ->. apply Hn. apply (rooted_fun p c c r); [by split|done]. }
    split; [|by rewrite list_lookup_insert_ne].
    assert (rooted p y r') as Hroot by by split.
    induction H as [y|y z r' H H' IH]; [done|]. destruct (decide (y = c)) as [->|Hy].
    + assert (r' = r) as -> by by apply (rooted_fun p c). apply rtc_once.
      apply list_lookup_insert_eq. rewrite Hl. apply lookup_lt_Some in H. lia.
    + eapply rtc_l; [by rewrite list_lookup_insert_ne|]. by apply IH.
Qed.

Lemma compress_spec p fuel c r :
  forest d p → rooted p c r → below d c < fuel →
  ∃ p', compress fuel p c r = Some p' ∧ forest d p' ∧ ∀ y r', rooted p y r' → rooted p' y r'.
Proof.
  revert p c. induction fuel as [|fuel IH]; intros p c Hf Hc Hb; [lia|]. cbn.
  assert (∃ y, p !! c = Some y) as [y Hy].
  { destruct Hc as [H Hr]. inversion H; subst; eauto. }
  rewrite Hy. cbn. destruct (y =? r) eqn:E; [by exists p|]. apply Nat.eqb_neq in E.
  assert (c ≠ r) as Hn by (intros ->; destruct Hc as [_ Hr]; congruence).
  assert (rooted p y r) as Hyr.
  { destruct Hc as [H Hr]. split; [|done]. inversion H; subst; [done|]. by simplify_eq. }
  destruct (hang_below_root p c r Hf Hc Hn) as [Hf' Hk].
  destruct (decide (y = c)) as [->|Hyc].
  { exfalso. apply Hn. apply (rooted_fun p c c r); [|done]. split; [done|done]. }
  destruct (IH (<[c := r]> p) y Hf' (Hk _ _ Hyr)) as (p' & -> & Hp' & Hk').
  - pose proof (proj2 Hf c y Hy) as [? Hd]. pose proof (below_lt d c y ltac:(done) (Hd Hyc)). lia.
  - exists p'. split_and!; [done..|]. auto.
Qed.

Lemma uf_find_spec p x :
  forest d p → x < n →
  ∃ r p', uf_find p x = Some (r, p') ∧ rooted p x r ∧ forest d p' ∧ ∀ y r', rooted p y r' → rooted p' y r'.
Proof.
  intros Hf Hx. pose proof Hf as [Hl _]. unfold uf_find. rewrite Hl.
  pose proof (below_bound d x Hx).
  destruct (find_root_spec p (S n) x Hf Hx) as (r & -> & Hr & _); [lia|]. cbn [mbind option_bind].
  destruct (compress_spec p (S n) x r Hf Hr) as (p' & -> & Hp'); [lia|]. cbn.
  by exists r, p'.
Qed.
End fixed_depth.

(** Two nodes of one tree. *)
Definition together (p : list nat) (x y : nat) : Prop := ∃ r, rooted p x r ∧ rooted p y r.

Lemma together_sym p x y : together p x y → together p y x.
Proof. intros (r & ? & ?). by exists r. Qed.
Lemma together_trans p x y z : together p x y → together p y z → together p x z.
Proof. intros (r & Hx & Hy) (r' & Hy' & Hz). rewrite (rooted_fun p y r r' Hy Hy') in Hx. by exists r'. Qed.

(** Hanging one root below another joins their trees. *)
Lemma join_roots d p ra rb :
  forest d p → p !! ra = Some ra → p !! rb = Some rb → ra ≠ rb →
  (∃ d', forest d' (<[ra := rb]> p)) ∧
  ∀ x r, rooted p x r → rooted (<[ra := rb]> p) x (if decide (r = ra) then rb else r).
Proof.
  intros Hf Ha Hb Hn. pose proof Hf as [Hl Hp].
  assert (ra < n ∧ rb < n) as [Hra Hrb] by (split; [eapply Hp|eapply Hp]; done).
  assert (∀ x, x < n → rooted p x (default x (find_root (S n) p x))) as Hroot.
  { intros x Hx. pose proof (below_bound d x Hx).
    destruct (find_root_spec d p (S n) x Hf Hx) as (r & -> & Hr & _); [lia|done]. }
  set (root x := default x (find_root (S n) p x)) in *.
  assert (∀ x y, p !! x = Some y → y < n → root x = root y) as Hedge.
  { intros x y Hxy Hy. apply (rooted_fun p x); [apply Hroot; apply lookup_lt_Some in Hxy; lia|].
    destruct (Hroot y Hy) as [H ?]. split; [by eapply rtc_l|done]. }
  assert (∀ r, p !! r = Some r → r < n → root r = r) as Hself.
  { intros r Hr Hrn. apply (rooted_fun p r); [by apply Hroot|by split]. }
  split.
  - exists (λ x, d x + if decide (root x = ra) then S (d rb) else 0).
    split; [by rewrite length_insert|]. intros x y [(<- & <- & Hlt)|[Hx H]]%list_lookup_insert_Some.
    + split; [done|]. intros _. rewrite (Hself ra), (Hself rb) by done.
      rewrite decide_False by done. rewrite decide_True by done. lia.
    + destruct (Hp x y H) as [Hy Hd]. split; [done|]. intros Hne. specialize (Hd Hne).
      rewrite (Hedge x y) by done. lia.
  - intros x r [H Hr]. destruct (decide (r = ra)) as [->|Hne].
    + split; [|by rewrite list_lookup_insert_ne]. trans ra.
      * clear Hr Ha. induction H as [|x y ra H H' IH]; [done|]. destruct (decide (x = ra)) as [->|Hx]; [done|].
        eapply rtc_l; [by rewrite list_lookup_insert_ne|]. by apply IH.
      * apply rtc_once. apply list_lookup_insert_eq. lia.
    + split; [|by rewrite list_lookup_insert_ne].
      induction H as [|x y r H H' IH]; [done|]. destruct (decide (x = ra)) as [->|Hx].
      * simplify_eq. destruct Hne. by apply (root_reaches_itself p).
      * eapply rtc_l; [by rewrite list_lookup_insert_ne|]. by apply IH.
Qed.

Lemma uf_union_spec d p a b :
  forest d p → a < n → b < n →
  ∃ p' ra rb, uf_union p a b = Some p' ∧ (∃ d', forest d' p') ∧ rooted p a ra ∧ rooted p b rb ∧
    ∀ x r, rooted p x r → rooted p' x (if decide (r = ra) then rb else r).
Proof.
  intros Hf Ha Hb. unfold uf_union.
  destruct (uf_find_spec d p a Hf Ha) as (ra & p1 & -> & Hra & Hf1 & Hk1). cbn [mbind option_bind].
  destruct (uf_find_spec d p1 b Hf1 Hb) as (rb & p2 & -> & Hrb & Hf2 & Hk2). cbn [mbind option_bind].
  pose proof (below_bound d b Hb).
  destruct (find_root_spec d p (S n) b Hf Hb) as (rb' & _ & Hrb' & _); [lia|].
  assert (rb' = rb) as -> by (eapply rooted_fun; [by apply Hk1|done]).
  destruct (ra =? rb) eqn:E.
  - apply Nat.eqb_eq in E as <-. exists p2, ra, ra. split_and!; [done|by exists d|done..|].
    intros x r Hr. replace (if decide (r = ra) then ra else r) with r by (by case_decide). auto.
  - apply Nat.eqb_neq in E.
    destruct (join_roots d p2 ra rb Hf2) as [Hd Hj];
      [apply (Hk2 a ra), Hk1, Hra|apply (Hk2 b rb), Hrb|done|].
    eexists _, ra, rb. split_and!; [done..|]. auto.
Qed.
End forest.

(** ** The clusters are the connected components *)

Section clusters.
Context (embeddings : list (list f32)) (threshold : f32).
#[local] Abbreviation n := (length embeddings).

(** The edges of the graph of the documentation. *)
Definition linked (i j : nat) : Prop :=
  i < j ∧ ∃ a b, embeddings !! i = Some a ∧ embeddings !! j = Some b
                 ∧ f32_leb threshold (distill_cosine a b) = true.

Lemma linked_lt i j : linked i j → i < n ∧ j < n.
Proof. intros (_ & a & b & Ha%lookup_lt_Some & Hb%lookup_lt_Some & _). done. Qed.

Lemma together_refl d p x : forest n d p → x < n → together p x x.
Proof.
  intros Hf Hx. destruct (find_root_spec n d p (S n) x Hf Hx) as (r & _ & Hr & _); [|by exists r].
  pose proof (below_bound n d x Hx). lia.
Qed.

(** The forest [p'] holds together what [p] held together and the linked pairs of [L], and
    no more than that. *)
Definition joins (p p' : list nat) (L : list (nat * nat)) : Prop :=
  (∃ d, forest n d p') ∧ (∀ x y, together p x y → together p' x y) ∧
  (∀ a b, (a, b) ∈ L → linked a b → together p' a b) ∧
  ∀ R : relation nat, Equivalence R → (∀ x y, together p x y → R x y) →
    (∀ a b, (a, b) ∈ L → linked a b → R a b) → ∀ x y, together p' x y → R x y.

Lemma link_pair_joins d p i j :
  forest n d p → i < j → j < n → ∃ p', link_pair embeddings threshold p (i, j) = Some p' ∧ joins p p' [(i, j)].
Proof.
  intros Hf Hij Hj. unfold link_pair. cbn [fst snd].
  destruct (lookup_lt_is_Some_2 embeddings i) as [a Ha]; [lia|].
  destruct (lookup_lt_is_Some_2 embeddings j) as [b Hb]; [lia|]. rewrite Ha, Hb. cbn [mbind option_bind].
  destruct (f32_leb threshold (distill_cosine a b)) eqn:E.
  - destruct (uf_union_spec n d p i j Hf) as (p' & ra & rb & -> & Hd & Hra & Hrb & Hk); [lia..|].
    exists p'. split; [done|]. split_and!; [done|..].
    + intros x y (r & Hx & Hy). eexists. split; by apply Hk.
    + intros ? ? [= -> ->]%list_elem_of_singleton _. exists rb. pose proof (Hk _ _ Hra) as H1.
      pose proof (Hk _ _ Hrb) as H2. rewrite decide_True in H1 by done. split; [done|]. by case_decide.
    + intros R HR Hp HL. assert (R i j) as Rij.
      { apply HL; [by apply list_elem_of_singleton|]. split; [done|]. by exists a, b. }
      assert (∀ x r, x < n → rooted p' x r → ∃ r0, rooted p x r0 ∧ r = if decide (r0 = ra) then rb else r0) as Hback.
      { intros x r Hx Hr. destruct (together_refl d p x Hf Hx) as (r0 & H0 & _). exists r0. split; [done|].
        eapply rooted_fun; [done|by apply Hk]. }
      assert (∀ x r, rooted p' x r → x < n) as Hlt.
      { intros x r [H Hr]. assert (is_Some (p' !! x)) as [? Hx] by (inversion H; subst; eauto).
        destruct Hd as [d' [<- _]]. by eapply lookup_lt_Some. }
      assert (∀ x r, rooted p x r → ∀ y, rooted p y r → R x y) as Hsame by (intros; apply Hp; by eexists).
      intros x y (r & Hx & Hy).
      destruct (Hback x r) as (r1 & Hx1 & ->); [by eapply Hlt|done|].
      destruct (Hback y _ (Hlt _ _ Hy) Hy) as (r2 & Hy2 & E2).
      destruct (decide (r1 = ra)) as [->|H1], (decide (r2 = ra)) as [->|H2]; subst.
      * by apply (Hsame x ra).
      * trans i; [by apply (Hsame x ra)|]. trans j; [done|]. by apply (Hsame j r2).
      * trans j; [by apply (Hsame x rb)|]. trans i; [by symmetry|]. by apply (Hsame i ra).
      * by apply (Hsame x r2).
  - exists p. split; [done|]. split_and!; [by exists d|done| |by auto].
    intros ? ? [= -> ->]%list_elem_of_singleton (_ & ? & ? & ? & ? & ?). simplify_eq. congruence.
Qed.

Lemma link_pairs_join d p L :
  forest n d p → Forall (λ ij : nat * nat, ij.1 < ij.2 < n) L →
  ∃ p', try_fold (link_pair embeddings threshold) p L = Some p' ∧ joins p p' L.
Proof.
  intros Hf HL. revert d p Hf. induction HL as [|[i j] L Hij HL IH]; intros d p Hf; cbn [try_fold].
  - exists p. split; [done|]. split_and!; [by exists d|done| |by auto]. by intros ? ? ?%not_elem_of_nil.
  - cbn in Hij. destruct (link_pair_joins d p i j Hf) as (p1 & -> & (d1 & Hf1) & H1 & H2 & H3); [lia..|].
    cbn [mbind option_bind]. destruct (IH d1 p1 Hf1) as (p' & -> & Hd & H4 & H5 & H6).
    exists p'. split; [done|]. split_and!; [done|by auto| |].
    + intros a b [[= -> ->]|Hab]%elem_of_cons Hl; [|by apply H5]. apply H4, H2; [|done]. by apply list_elem_of_singleton.
    + intros R HR Hp HLR. apply H6; [done| |].
      * apply H3; [done..|]. intros a b [= -> ->]%list_elem_of_singleton. apply HLR. by left.
      * intros a b Hab. apply HLR. by right.
Qed.

(** The members of the tree of [r] among the first [k] nodes. *)
Definition members (root : nat → nat) (k r : nat) : list nat := filter (λ i, root i = r) (seq 0 k).

Definition grouped (root : nat → nat) (k : nat) (g : gmap nat (list nat)) : Prop :=
  ∀ r, g !! r = if decide (members root k r = []) then None else Some (members root k r).

Lemma members_S root k r : members root (S k) r = members root k r ++ if decide (root k = r) then [k] else [].
Proof.
  unfold members. rewrite seq_S, filter_app. by rewrite filter_cons, filter_nil.
Qed.

Lemma push_groups d p root k g :
  forest n d p → (∀ i, i < n → rooted p i (root i)) → grouped root (n - k) g → k ≤ n →
  ∃ p' g', try_fold push_group (p, g) (seq (n - k) k) = Some (p', g') ∧ grouped root n g'.
Proof.
  revert p g. induction k as [|k IH]; intros p g Hf Hr Hg Hk; cbn [seq try_fold].
  - exists p, g. split; [done|]. by replace n with (n - 0) by lia.
  - destruct (uf_find_spec n d p (n - S k) Hf) as (r & p1 & E1 & Hroot & Hf1 & Hk1); [lia|].
    assert (r = root (n - S k)) as -> by (eapply rooted_fun; [done|apply Hr; lia]).
    unfold push_group at 2. cbn [fst snd]. rewrite E1. cbn [mbind option_bind].
    replace (S (n - S k)) with (n - k) by lia. apply (IH p1); [done|by auto| |lia].
    intros r. replace (n - k) with (S (n - S k)) by lia. rewrite members_S.
    destruct (decide (root (n - S k) = r)) as [<-|Hne].
    + rewrite lookup_insert_eq, Hg. rewrite (decide_False (P := _ ++ [_] = [])) by (by intros [_ ?]%app_eq_nil).
      case_decide as E; [by rewrite E|done].
    + rewrite lookup_insert_ne, app_nil_r by done. apply Hg.
Qed.

Lemma sort_sorted l : StronglySorted lt l → sort_by Nat.compare l = l.
Proof.
  induction 1 as [|x l Hl IH Hx]; [done|].
  change (sort_by Nat.compare (x :: l)) with (insert_by Nat.compare x (sort_by Nat.compare l)).
  rewrite IH. apply insert_by_head. intros y Hy. rewrite Forall_forall in Hx. specialize (Hx y Hy).
  rewrite (proj2 (Nat.compare_lt_iff x y)) by done. done.
Qed.

Lemma seq_sorted a k : StronglySorted lt (seq a k).
Proof.
  revert a. induction k as [|k IH]; intros a; cbn; constructor; [apply IH|].
  apply Forall_forall. intros y Hy%elem_of_seq. lia.
Qed.
Lemma filter_sorted (P : nat → Prop) `{∀ x, Decision (P x)} l : StronglySorted lt l → StronglySorted lt (filter P l).
Proof.
  induction 1 as [|x l Hl IH Hx]; [constructor|]. rewrite filter_cons. case_decide; [|done].
  constructor; [done|]. rewrite Forall_forall in *. intros y [_ Hy]%list_elem_of_filter. auto.
Qed.
Lemma sorted_strict l : StronglySorted le l → NoDup l → StronglySorted lt l.
Proof.
  induction 1 as [|x l Hl IH Hx]; [constructor|]. intros [Hn Hd]%NoDup_cons. constructor; [auto|].
  rewrite Forall_forall in *. intros y Hy. specialize (Hx y Hy). assert (x ≠ y) by (by intros ->). lia.
Qed.
Lemma sort_first_sorted cs : NoDup (first_of <$> cs) → StronglySorted lt (first_of <$> sort_by (λ a b, first_of a ?= first_of b) cs).
Proof.
  intros Hn. apply sorted_strict; [|by rewrite sort_by_Permutation].
  assert (StronglySorted (λ a b, first_of a ≤ first_of b) (sort_by (λ a b, first_of a ?= first_of b) cs)) as Hs.
  { apply (sort_by_sorted _ (λ _, True)); [| | |by apply Forall_true].
    - intros x y _ _ H. by apply Nat.compare_le_iff.
    - intros x y _ _ H%Nat.compare_gt_iff. lia.
    - intros x y z _ _ _. lia. }
  clear Hn. induction Hs as [|x l Hl IH Hx]; [constructor|]. rewrite fmap_cons. constructor; [done|].
  by apply Forall_fmap.
Qed.

Lemma index_pairs_elem k i j : (i, j) ∈ index_pairs k ↔ i < j < k.
Proof.
  unfold index_pairs. rewrite list_elem_of_bind. split.
  - intros (i' & (j' & [= -> ->]%list_elem_of_singleton & Hj%elem_of_seq)%list_elem_of_bind & Hi%elem_of_seq). lia.
  - intros H. exists i. split; [|apply elem_of_seq; lia]. apply list_elem_of_bind. exists j.
    split; [by apply list_elem_of_singleton|]. apply elem_of_seq. lia.
Qed.

Lemma first_forest : forest n (λ _, 0) (seq 0 n).
Proof. split; [apply length_seq|]. intros x y [-> ?]%lookup_seq. lia. Qed.
Lemma first_apart x y : together (seq 0 n) x y → x = y.
Proof.
  assert (∀ x r, rooted (seq 0 n) x r → x = r) as H.
  { intros z r [Hr _]. induction Hr as [|? ? ? [-> _]%lookup_seq _ IH]; [done|]. by rewrite <- IH. }
  intros (r & Hx%H & Hy%H). congruence.
Qed.

(** The roots of the forest of all linked pairs. *)
Lemma linked_roots :
  ∃ p d root, try_fold (link_pair embeddings threshold) (seq 0 n) (index_pairs n) = Some p ∧ forest n d p
    ∧ (∀ i, i < n → rooted p i (root i))
    ∧ ∀ i j, i < n → j < n → root i = root j ↔ rtsc linked i j.
Proof.
  destruct (link_pairs_join (λ _, 0) (seq 0 n) (index_pairs n) first_forest) as (p & Ep & (d & Hf) & _ & Hin & Hleast).
  { apply Forall_forall. intros [i j] Hij%index_pairs_elem. done. }
  exists p, d, (λ i, default i (find_root (S n) p i)).
  assert (∀ i, i < n → rooted p i (default i (find_root (S n) p i))) as Hroot.
  { intros i Hi. pose proof (below_bound n d i Hi).
    destruct (find_root_spec n d p (S n) i Hf Hi) as (r & -> & Hr & _); [lia|done]. }
  split_and!; [done..|]. intros i j Hi Hj. split.
  - intros E. apply (Hleast (rtsc linked)); [apply _| | |].
    + by intros x y ->%first_apart.
    + intros a b _ Hab. apply rtc_once. by left.
    + eexists. split; [by apply Hroot|]. rewrite E. by apply Hroot.
  - intros Hc. assert (together p i j) as (r & Hri & Hrj); [|].
    { assert (∀ a b, linked a b → together p a b) as Hab.
      { intros a b Hab. apply Hin; [|done]. apply index_pairs_elem. pose proof (linked_lt a b Hab).
        destruct Hab. lia. }
      clear Hj. induction Hc as [i|i k j Hik _ IH]; [by apply (together_refl d)|].
      assert (together p i k ∧ k < n) as [Hik' Hk].
      { destruct Hik as [H|H]; pose proof (linked_lt _ _ H) as []; [auto|].
        split; [by apply together_sym, Hab|done]. }
      eapply together_trans; [done|]. by apply IH. }
    rewrite (rooted_fun p i (default i _) r) by auto. symmetry. by apply (rooted_fun p j); auto.
Qed.

Lemma members_elem root k r i : i ∈ members root k r ↔ i < k ∧ root i = r.
Proof. unfold members. rewrite list_elem_of_filter, elem_of_seq. intuition lia. Qed.
Lemma first_member root k r : members root k r ≠ [] → root (first_of (members root k r)) = r.
Proof.
  intros H. assert (first_of (members root k r) ∈ members root k r) as [_ ?]%members_elem; [|done].
  destruct (members root k r); [done|by left].
Qed.

(** C20: the clusters of a distillation are the connected components of the graph that links
    two notes when the cosine of their embeddings reaches the threshold.  The routine ends
    without a panic; its clusters are in the order of their smallest index, each in
    ascending order and not empty; every note is in one of them, together with exactly the
    notes that a chain of links leads to. *)
Theorem clusters_are_components :
  ∃ cs, cluster_by_cosine embeddings threshold = Some cs
    ∧ StronglySorted lt (first_of <$> cs)
    ∧ (∀ i, i < n → ∃ c, c ∈ cs ∧ i ∈ c)
    ∧ ∀ c, c ∈ cs → c ≠ [] ∧ StronglySorted lt c
                    ∧ ∀ i, i ∈ c → i < n ∧ ∀ j, j ∈ c ↔ j < n ∧ rtsc linked i j.
Proof.
  unfold cluster_by_cosine. destruct (n =? 0) eqn:E0.
  { apply Nat.eqb_eq in E0. exists []. split_and!; [done|constructor|lia|by intros ? ?%not_elem_of_nil]. }
  destruct linked_roots as (p & d & root & -> & Hf & Hroot & Hlink). cbn [mbind option_bind].
  destruct (push_groups d p root n ∅ Hf Hroot) as (p' & g & Eg & Hg); [|done|].
  { intros r. rewrite Nat.sub_diag. done. }
  rewrite Nat.sub_diag in Eg. rewrite Eg. cbn [mbind option_bind]. eexists. split; [done|].
  set (vs := sort_by Nat.compare <$> (snd <$> sort_by _ (map_to_list g))).
  assert (∀ k v, (k, v) ∈ map_to_list g → v = members root n k ∧ v ≠ []) as Hkv.
  { intros k v Hv%elem_of_map_to_list. rewrite Hg in Hv. by case_decide; simplify_eq. }
  assert (vs ≡ₚ snd <$> map_to_list g) as Hvs.
  { subst vs. rewrite sort_by_Permutation. rewrite <- (list_fmap_id (snd <$> map_to_list g)) at 2.
    apply reflexive_eq, list_fmap_ext. intros _ v ([k v'] & -> & Hv)%list_elem_of_lookup_2%list_elem_of_fmap.
    destruct (Hkv _ _ Hv) as [-> _]. apply sort_sorted, filter_sorted, seq_sorted. }
  assert (∀ c, c ∈ vs ↔ ∃ r, c = members root n r ∧ c ≠ []) as Hc.
  { intros c. rewrite Hvs, list_elem_of_fmap. split.
    - intros ([k v] & -> & Hv). exists k. by apply Hkv.
    - intros (r & -> & Hr). exists (r, members root n r). split; [done|]. apply elem_of_map_to_list.
      rewrite Hg. by rewrite decide_False. }
  split_and!.
  - apply sort_first_sorted. rewrite Hvs, <- list_fmap_compose.
    apply (NoDup_fmap_1 root). rewrite <- list_fmap_compose.
    rewrite (list_fmap_ext _ fst); [apply NoDup_fst_map_to_list|].
    intros _ [k v] Hv%list_elem_of_lookup_2. destruct (Hkv _ _ Hv) as [-> Hn]. by apply first_member.
  - intros i Hi. exists (members root n (root i)). rewrite sort_by_Permutation, Hc, members_elem.
    split; [|done]. exists (root i). split; [done|]. intros E.
    assert (i ∈ members root n (root i)) as H by by apply members_elem. rewrite E in H. by apply not_elem_of_nil in H.
  - intros c. rewrite sort_by_Permutation, Hc. intros (r & -> & Hn). split_and!; [done| |].
    + apply filter_sorted, seq_sorted.
    + intros i [Hi <-]%members_elem. split; [done|]. intros j. rewrite members_elem.
      split; intros [Hj H]; (split; [done|]); [apply Hlink; [done..|by symmetry]|symmetry; by apply Hlink].
Qed.
End clusters.
