(* ===== verification/Calls.v ===== *)
(** * Calls: what a job handler asks of the rest of the program

    A handler of [crates/gradatum-worker] holds no vault and no index: it reads and writes
    through the internal API of the server (the trait [InternalClient] of
    [internal_client.rs]) and uses the queue, the embedder, the synthesizer, the language
    model of the curator, the clock and the generator of identifiers.  A handler is a
    program [prog] whose calls name these services; an answer is whatever the service gives,
    so that a run of a program stands for every state of the server and every interleaving
    with others.  [runs] says which calls and answers lead to which result, and [exec]
    interprets a program in a concrete world. *)

From S2P Require Import Prelude Job Text Float.

#[local] Open Scope Z_scope.

(** ** The data of the internal API ([gradatum-dto/src/internal.rs], [internal_client.rs]) *)

Inductive InternalClientError :=
| ClientHttp
| ClientConflict (current_sha256_hex : option string)
| ClientNotFound (ulid : string)
| ClientServerError (status : Z) (body : string).

Record NoteReadDto := mkNoteRead {
  nr_note_id : string;
  nr_sha256_hex : string;
  nr_body : string;
  nr_section : string;
  nr_title : option string;
  nr_status : string;
  nr_tags : list string;
  nr_forgotten : bool;
  nr_processed : bool;
}.

Record NoteIdDto := mkNoteIdDto { ni_note_id : string; ni_section : string }.

Record TemporalEntryDto := mkTemporal {
  te_anchor_ms : Z;
  te_anchor_src : string;
  te_doc_kind : string;
  te_valid_until_ms : option Z;
}.

Record LinkDto := mkLink { l_src : string; l_dst : string }.

Record PersistCuratedRequest := mkPersistCurated {
  pc_note_id : string;
  pc_tenant_id : string;
  pc_title : string;
  pc_body : string;
  pc_section : string;
  pc_tags : list string;
  pc_author : option string;
  pc_status : string;
  pc_trust : option f32;
  pc_expected_sha256 : option string;
  pc_temporal : option TemporalEntryDto;
  pc_links : list LinkDto;
  pc_links_authoritative : bool;
  pc_provenance : option string;
  pc_curator_decision : option (string * string);
  pc_target_vault : option string;
}.

Record PersistEmbeddingRequest := mkPersistEmbedding {
  pe_note_id : string;
  pe_embedder_id : string;
  pe_dim : Z;
  pe_vector : list f32;
  pe_vault_id : option string;
}.

Record PersistForgetRequest := mkPersistForget {
  pf_note_id : string;
  pf_tenant_id : string;
  pf_body : string;
  pf_section : string;
  pf_forgotten_by : option string;
}.

Record PersistDistillRequest := mkPersistDistill {
  pd_note_id : string;
  pd_tenant_id : string;
  pd_title : string;
  pd_body : string;
  pd_section : string;
  pd_trust : option f32;
  pd_expected_sha256 : option string;
  pd_mark_processed : bool;
  pd_derived_into : option string;
  pd_derived_from : list string;
  pd_tags : list string;
}.

Record PrivacyRescanResponse := mkRescan { rs_rewritten : Z; rs_unchanged : Z; rs_skipped : Z }.

(** [WriteConflictDto], the payload of a job in conflict. *)
Record WriteConflictDto := mkWriteConflict {
  wc_current_sha256 : string;
  wc_attempted_sha256 : option string;
  wc_timestamp_ms : Z;
}.

(** What the language model says of a note ([gradatum-chat/src/backend.rs]). *)
Record LlmDecision := mkLlmDecision {
  ld_section : string;
  ld_tags : list string;
  ld_wikilinks : list string;
  ld_duplicate_hint : option string;
}.

(** ** Calls *)

Inductive call :=
| GetNote (vault ulid : string)
| GetNoteStatus (vault ulid : string)
| GetNoteEmbedding (vault ulid embedder_id : string)
| GetTrust (vault ulid : string)
| TitleLookup (tenant title : string)
| IdLookup (tenant ulid : string)
| ListByLocus (vault prefix : string)
| ListBySection (vault section : string)
| ListByStatus (vault status : string)
| ListGarbage (vault : string) (before_ms grace_days : Z)
| SearchForget (vault query : string) (limit : Z)
| ListByAgent (agent : string) (vaults : list string)
| PersistCurated (req : PersistCuratedRequest)
| PersistEmbedding (req : PersistEmbeddingRequest)
| PersistForget (req : PersistForgetRequest)
| PersistDistill (req : PersistDistillRequest)
| ResyncForget (vault ulid : string)
| DeleteNote (vault ulid : string)
| RescanBatch (vault : string) (limit : Z)
| Enqueue (job : JobRecord)
| MarkConflict (job_id : Ulid) (payload : WriteConflictDto) (duration_ms : Z)
| EmbedText (text : string)
| EmbedBatch (texts : list string)
| Synthesize (cluster : list (string * string))
| ClassifyNote (user_prompt : ustr)
| PickTask (in_flight : nat)
| NowMs
| NowNs
| NewUlid.

(** A lookup runs in a task of its own, which may panic ([None]). *)
Definition answer_of (c : call) : Type :=
  match c with
  | GetNote _ _ => result NoteReadDto InternalClientError
  | GetNoteStatus _ _ => result (option string) InternalClientError
  | GetNoteEmbedding _ _ _ => result (list f32) InternalClientError
  | GetTrust _ _ => result f32 InternalClientError
  | TitleLookup _ _ | IdLookup _ _ => option (result (option string) InternalClientError)
  | ListByLocus _ _ | ListBySection _ _ | ListByStatus _ _ | ListGarbage _ _ _
  | SearchForget _ _ _ | ListByAgent _ _ => result (list NoteIdDto) InternalClientError
  | PersistCurated _ | PersistEmbedding _ | PersistForget _ | PersistDistill _
  | ResyncForget _ _ | DeleteNote _ _ => result unit InternalClientError
  | RescanBatch _ _ => result PrivacyRescanResponse InternalClientError
  | Enqueue _ | MarkConflict _ _ _ => result unit QueueError
  | EmbedText _ => result (list f32) unit
  | EmbedBatch _ => result (list (list f32)) unit
  | Synthesize _ => result (string * string) unit
  | ClassifyNote _ => result LlmDecision unit
  | PickTask _ => nat
  | NowMs | NowNs => Z
  | NewUlid => Ulid
  end.

(** The calls that change what the program stores. *)
Definition mutates (c : call) : bool :=
  match c with
  | PersistCurated _ | PersistEmbedding _ | PersistForget _ | PersistDistill _ | ResyncForget _ _
  | DeleteNote _ _ | RescanBatch _ _ | Enqueue _ | MarkConflict _ _ _ => true
  | _ => false
  end.

(** ** Programs *)

Inductive prog (A : Type) : Type :=
| Ret (a : A)
| Call (c : call) (k : answer_of c → prog A).
Arguments Ret {A} a.
Arguments Call {A} c k.

Fixpoint prog_bind {A B} (p : prog A) (f : A → prog B) : prog B :=
  match p with Ret a => f a | Call c k => Call c (λ x, prog_bind (k x) f) end.
Definition ask (c : call) : prog (answer_of c) := Call c Ret.

Declare Scope prog_scope.
Delimit Scope prog_scope with prog.
Notation "x <~ p ; q" := (prog_bind p (λ x, q)) (at level 20, p at level 100, q at level 200, right associativity) : prog_scope.
Notation "p ;; q" := (prog_bind p (λ _, q)) (at level 100, q at level 200, right associativity) : prog_scope.

(** A call with the answer it was given. *)
Record event := mkEvent { ev_call : call; ev_answer : answer_of ev_call }.

(** The program [p] may make the calls of [t], given their answers, and return [a]. *)
Fixpoint runs {A} (p : prog A) (t : list event) (a : A) : Prop :=
  match p with
  | Ret b => t = [] ∧ a = b
  | Call c k => ∃ x t', t = mkEvent c x :: t' ∧ runs (k x) t' a
  end.

(** A world answers calls and changes with them. *)
Fixpoint exec {A W} (world : W → ∀ c, answer_of c * W) (p : prog A) (w : W) : list event * A * W :=
  match p with
  | Ret a => ([], a, w)
  | Call c k =>
      let '(x, w') := world w c in
      let '(t, a, w'') := exec world (k x) w' in (mkEvent c x :: t, a, w'')
  end.

(** ** Reasoning about all runs *)

Lemma runs_bind {A B} (p : prog A) (f : A → prog B) t b :
  runs (prog_bind p f) t b ↔ ∃ t1 t2 a, t = t1 ++ t2 ∧ runs p t1 a ∧ runs (f a) t2 b.
Proof.
  revert t. induction p as [a|c k IH]; intros t; cbn.
  - split; [by exists [], t, a|]. by intros (? & ? & ? & -> & [-> ->] & ?).
  - split.
    + intros (x & t' & -> & (t1 & t2 & a & -> & H1 & H2)%IH). exists (mkEvent c x :: t1), t2, a.
      split_and!; [done| |done]. by exists x, t1.
    + intros (? & t2 & a & -> & (x & t1 & -> & H1) & H2). exists x, (t1 ++ t2). split; [done|].
      apply IH. by exists t1, t2, a.
Qed.

Lemma exec_runs {A W} (world : W → ∀ c, answer_of c * W) (p : prog A) w :
  runs p (exec world p w).1.1 (exec world p w).1.2.
Proof.
  revert w. induction p as [a|c k IH]; intros w; cbn; [done|].
  destruct (world w c) as [x w']. specialize (IH x w'). destruct (exec world (k x) w') as [[t a] w''].
  by exists x, t.
Qed.

(** Every call of every run of [p] satisfies [Q], and so does what it returns. *)
Fixpoint always {A} (Q : call → Prop) (R : A → Prop) (p : prog A) : Prop :=
  match p with Ret a => R a | Call c k => Q c ∧ ∀ x, always Q R (k x) end.

Lemma always_runs {A} Q R (p : prog A) t a : always Q R p → runs p t a → Forall (λ e, Q (ev_call e)) t ∧ R a.
Proof.
  revert t. induction p as [b|c k IH]; intros t; cbn; [by intros ? [-> ->]|].
  intros [Hc Hk] (x & t' & -> & Hr). destruct (IH x t' (Hk x) Hr). split; [by constructor|done].
Qed.

Lemma always_bind {A B} Q (R : A → Prop) (R' : B → Prop) (p : prog A) (f : A → prog B) :
  always Q R p → (∀ a, R a → always Q R' (f a)) → always Q R' (prog_bind p f).
Proof. intros Hp Hf. induction p as [a|c k IH]; cbn in *; [auto|]. destruct Hp. split; auto. Qed.

Lemma always_mono {A} (Q Q' : call → Prop) (R R' : A → Prop) p :
  (∀ c, Q c → Q' c) → (∀ a, R a → R' a) → always Q R p → always Q' R' p.
Proof. intros HQ HR. induction p as [a|c k IH]; cbn; [auto|]. intros [? ?]. split; auto. Qed.

Lemma always_true {A} Q (R : A → Prop) (p : prog A) : always Q R p → always Q (λ _, True) p.
Proof. by apply always_mono. Qed.
