(* ===== verification/Curator.v ===== *)
(** * Curator: which section a note belongs to, and whether it is admitted

    [crates/gradatum-curator]: the router of sections ([routing.rs]), the pipeline that
    admits a note, leaves it for review or rejects it ([lib.rs]), the older [Curator::decide]
    ([workflow.rs], [decision.rs]), and the detector of near duplicates ([novelty.rs]).  The
    regex crate is the class [Regex]; SHA-256 is a parameter of the shingles; the language
    model answers the call [ClassifyNote]. *)

From Stdlib Require Import SpecFloat.
From S2P Require Import Prelude Text Notes Float Distill Calls.

#[local] Open Scope nat_scope.
#[local] Open Scope prog_scope.

(** ** [routing.rs] *)

Definition SECTIONS : list ustr :=
  lit <$> ["decisions"; "council"; "architecture"; "debug"; "reasoning"; "feedback"; "lessons-learned";
           "retrospectives"; "experiments"; "agent-issues"; "reference"]%string.

Definition is_valid_hint_section (s : ustr) : bool :=
  existsb (λ sec, bool_decide (section_as_str sec = s)) Section_ALL.

(** [Regex::is_match], and the number of matches of [Regex::find_iter]. *)
Class Regex := {
  is_match : string → ustr → bool;
  find_count : string → ustr → nat;
}.

Definition PREFIX_PATTERNS : list (ustr * string) :=
  [(lit "decisions", "(?i)\[DECISIONS?\]|\[DECIS\]");
   (lit "council", "(?i)\[COUNCIL\]");
   (lit "architecture", "(?i)\[ARCH(?:ITECTURE)?\]");
   (lit "debug", "(?i)\[DEBUG\]");
   (lit "reasoning", "(?i)\[REASON(?:ING)?\]");
   (lit "feedback", "(?i)\[FEEDBACK\]");
   (lit "lessons-learned", "(?i)\[LESSONS?(?:-LEARNED)?\]");
   (lit "retrospectives", "(?i)\[RETROS?(?:PECTIVES?)?\]");
   (lit "experiments", "(?i)\[EXP(?:ERIMENTS?)?\]|\[EXPE\]");
   (lit "agent-issues", "(?i)\[AGENT-ISSUES?\]|\[ISSUES?\]");
   (lit "reference", "(?i)\[REF(?:ERENCE)?\]")]%string.

Definition KEYWORD_PATTERNS : list (ustr * list string) :=
  [(lit "decisions", ["(?i)\b(decisions?|decid|GO|NOK|trade-?off|chose|picked)\b"]);
   (lit "council", ["(?i)\b(council|verdict|multi.?experts?|d[e\u{e9}]lib[e\u{e9}]ration)\b"]);
   (lit "architecture", ["(?i)\b(architecture|component|pattern|crate|trait|protocol|module)\b"]);
   (lit "debug", ["(?i)\b(debug|bug|crash|panic|OOM|fail|error|fix)\b"]);
   (lit "reasoning", ["(?i)\b(reasoning(?:-pattern)?|consider|hypoth|tradeoff|option|why|because)\b"]);
   (lit "feedback", ["(?i)\b(feedback|comment|review|critic|praise)\b"]);
   (lit "lessons-learned", ["(?i)\b(lessons?[\s-]learned|lesson|learned|takeaway|avoid|always)\b"]);
   (lit "retrospectives", ["(?i)\b(retrospectives?|retro|sprint|phase|what.went.well|to.improve)\b"]);
   (lit "experiments", ["(?i)\b(experiments?|experiment|POC|spike|benchmark|hypothesis)\b"]);
   (lit "agent-issues", ["(?i)\b(agent[\s-]issues?|agent|skill.fail|pipeline.error|coord)\b"]);
   (lit "reference", ["(?i)\b(reference|cheatsheet|config|port|spec)\b"])]%string.

Section routing.
Context {RX : Regex} {CT : CaseTables}.

(** [sort_by_key(|s| Reverse(s.1))]: the larger count first, in a stable sort. *)
Definition by_count_desc (a b : ustr * nat) : comparison := b.2 ?= a.2.

Definition f32_of_nat (k : nat) : f32 := f32_of_Z (Z.of_nat k).

Definition heuristic_route (title body : ustr) : ustr * f32 :=
  match List.find (λ sp, is_match sp.2 title) PREFIX_PATTERNS with
  | Some (section, _) => (section, f32_one)
  | None =>
      let text := str_to_lowercase (title ++ [NL] ++ body) in
      let scores := (λ sp : ustr * list string,
                       (sp.1, list_sum ((λ p, find_count p text) <$> sp.2))) <$> KEYWORD_PATTERNS in
      let scores := sort_by by_count_desc scores in
      let total := f32_max (f32_sum (f32_of_nat ∘ snd <$> scores)) f32_one in
      match scores with
      | [] => (lit "reference", f32_zero)
      | (top_section, top_score) :: rest =>
          let second_score := match rest with (_, c) :: _ => c | [] => 0 end in
          let confidence := f32_div (f32_of_nat top_score) total in
          if (3 <=? top_score)
             && f32_leb (f32_mul (f32_lit 3 2) (f32_of_nat second_score)) (f32_of_nat top_score)
          then (top_section, confidence) else (lit "reference", confidence)
      end
  end.
End routing.

(** ** [decision.rs] *)

Inductive FallbackStrategy := PendingReviewFallback | FallbackReject | AdmitPendingReview.

Definition FallbackStrategy_from_config (s : string) : FallbackStrategy :=
  if String.eqb s "reject" then FallbackReject
  else if String.eqb s "admit-pending-review" then AdmitPendingReview
  else PendingReviewFallback.

(** ** The pipeline ([lib.rs]) *)

Record CuratorNote := mkCuratorNote {
  cn_id : string;
  cn_title : ustr;
  cn_body : ustr;
  cn_tags_hint : list string;
  cn_section_hint : option ustr;
}.

(** The novelty, the links and the duplicates of a decision always have their default. *)
Record CuratorDecisions := mkDecisions { canonical_section : ustr; decided_tags : list string }.

Inductive pending_reason := LowConfidence (confidence : f32) | LlmDown.
Inductive CurateOutcome :=
| AdmittedOutcome (decisions : CuratorDecisions)
| Rejected
| PendingOutcome (decisions : CuratorDecisions) (reason : pending_reason).

Definition outcome_to_status (outcome : CurateOutcome) : option NoteStatus :=
  match outcome with
  | AdmittedOutcome _ => Some Live
  | PendingOutcome _ _ => Some PendingReview
  | Rejected => None
  end.

Inductive CurationPath := HintBypass | FastAdmit | PendingBand | LlmReview.
Definition CurationPath_as_str (p : CurationPath) : string :=
  match p with
  | HintBypass => "hint_bypass" | FastAdmit => "fast_admit"
  | PendingBand => "pending_band" | LlmReview => "llm_review"
  end.
Definition outcome_label (outcome : CurateOutcome) : string :=
  match outcome with AdmittedOutcome _ => "admitted" | PendingOutcome _ _ => "pending" | Rejected => "rejected" end.

Record CuratorPipeline := mkPipeline {
  heuristic_admit_threshold : f32;
  llm_review_enabled : bool;
  confidence_threshold : f32;
  fallback : FallbackStrategy;
}.

Definition CuratorPipeline_new : CuratorPipeline :=
  mkPipeline (f32_lit 8 10) false (f32_lit 7 10) PendingReviewFallback.

Record CuratorPipelineConfig := mkPipelineConfig {
  pcfg_llm_backend : option string;
  pcfg_heuristic_admit_threshold : option f32;
  pcfg_llm_review_enabled : option bool;
  pcfg_confidence_threshold : option f32;
  pcfg_llm_review_fallback : option string;
}.

Definition KNOWN_BACKENDS : list string := ["openai_compat"; "ollama_compat"; "anthropic_compat"; "gemini_compat"].

(** An unknown backend, or none, leaves the defaults of the offline pipeline. *)
Definition from_config (cfg : CuratorPipelineConfig) : CuratorPipeline :=
  match pcfg_llm_backend cfg with
  | None => CuratorPipeline_new
  | Some backend =>
      if existsb (String.eqb backend) KNOWN_BACKENDS
      then mkPipeline (default (f32_lit 8 10) (pcfg_heuristic_admit_threshold cfg))
             (default false (pcfg_llm_review_enabled cfg))
             (default (f32_lit 7 10) (pcfg_confidence_threshold cfg))
             (FallbackStrategy_from_config (default "pending-review-fallback"%string (pcfg_llm_review_fallback cfg)))
      else CuratorPipeline_new
  end.

Section pipeline.
Context {RX : Regex} {CT : CaseTables}.

Definition user_prompt (note : CuratorNote) (body_truncated : ustr) : ustr :=
  lit "Classify this note." ++ [NL] ++ lit "Title: " ++ cn_title note ++ [NL]
  ++ lit "Body (truncated to 500 chars): " ++ body_truncated
  ++ match cn_section_hint note with
     | Some h => [NL] ++ lit "Hint (caller-provided section): " ++ h
     | None => []
     end.

Definition process_traced (self : CuratorPipeline) (note : CuratorNote) : prog (CurateOutcome * CurationPath) :=
  let valid_hint := h ← cn_section_hint note; if is_valid_hint_section h then Some h else None in
  match valid_hint with
  | Some hint => Ret (AdmittedOutcome (mkDecisions hint []), HintBypass)
  | None =>
      let body_truncated := take 500 (cn_body note) in
      let '(section, confidence) := heuristic_route (cn_title note) body_truncated in
      if f32_leb (heuristic_admit_threshold self) confidence
      then Ret (AdmittedOutcome (mkDecisions section []), FastAdmit)
      else if negb (llm_review_enabled self) || f32_ltb (confidence_threshold self) confidence
      then Ret (PendingOutcome (mkDecisions section []) (LowConfidence confidence), PendingBand)
      else
        verdict <~ ask (ClassifyNote (user_prompt note body_truncated));
        Ret (match verdict with
             | Ok decision => AdmittedOutcome (mkDecisions (text_of (ld_section decision)) (ld_tags decision))
             | Err _ =>
                 match fallback self with
                 | FallbackReject => Rejected
                 | _ => PendingOutcome (mkDecisions section []) LlmDown
                 end
             end, LlmReview)
  end.
End pipeline.

(** ** [workflow.rs]: the older curator *)

Record CuratorVerdict := mkVerdict { v_status : NoteStatus; v_confidence : f32; v_reason : ustr }.
Inductive ChatBackend := BackendHeuristic | BackendHttp.
Record CuratorDecision := mkDecision {
  final_status : NoteStatus;
  backend_used : ChatBackend;
  decision_confidence : f32;
  fallback_applied : bool;
}.
Record CuratorConfig := mkCuratorConfig {
  ccfg_confidence_threshold : option f32;
  ccfg_llm_review_enabled : option bool;
  ccfg_llm_review_fallback : option string;
}.

Definition apply_fallback (strategy : FallbackStrategy) (verdict_h : CuratorVerdict) : CuratorDecision :=
  match strategy with
  | FallbackReject => mkDecision Garbage BackendHeuristic f32_zero true
  | _ => mkDecision PendingReview BackendHeuristic (v_confidence verdict_h) true
  end.

(** [heuristic] is the verdict of the offline classifier; [llm] the answer of the language
    model, asked only where the code asks, or [None] without one. *)
Definition decide_status (cfg : CuratorConfig) (heuristic : result CuratorVerdict unit)
    (llm : option (result CuratorVerdict unit)) : CuratorDecision :=
  let threshold := default (f32_lit 7 10) (ccfg_confidence_threshold cfg) in
  let llm_enabled := default false (ccfg_llm_review_enabled cfg) in
  let strategy := FallbackStrategy_from_config
                    (default "pending-review-fallback"%string (ccfg_llm_review_fallback cfg)) in
  match heuristic with
  | Err _ => mkDecision PendingReview BackendHeuristic f32_zero true
  | Ok v =>
      if f32_ltb threshold (v_confidence v) then mkDecision (v_status v) BackendHeuristic (v_confidence v) false
      else if negb llm_enabled then mkDecision PendingReview BackendHeuristic (v_confidence v) false
      else match llm with
           | None => mkDecision PendingReview BackendHeuristic (v_confidence v) true
           | Some (Ok w) => mkDecision (v_status w) BackendHttp (v_confidence w) false
           | Some (Err _) => apply_fallback strategy v
           end
  end.

(** ** [novelty.rs] *)

Section novelty.
#[local] Open Scope N_scope.
Definition u64_mod : N := 2 ^ 64.

(** One step of the permutation [i] of a shingle, in wrapping arithmetic. *)
Definition permuted (i sh : N) : N :=
  (sh * ((0x9E3779B97F4A7C15 + i) `mod` u64_mod) `mod` u64_mod + 0xBF58476D1CE4E5B9) `mod` u64_mod.

Definition minhash_signature (shingles : list N) (num_perms : nat) : list N :=
  foldl (λ sig sh, imap (λ i s, if permuted (N.of_nat i) sh <? s then permuted (N.of_nat i) sh else s) sig)
        (replicate num_perms (u64_mod - 1)) shingles.

Definition jaccard_estimate (a b : list N) : f32 :=
  if negb (length a =? length b)%nat || (length a =? 0)%nat then f32_zero
  else let matches := length (filter (λ xy, xy.1 = xy.2) (zip a b)) in
       f32_div (f32_of_Z (Z.of_nat matches)) (f32_of_Z (Z.of_nat (length a))).

Inductive NoveltyVerdict :=
| NoveltyAdmitted
| RevisionOf (existing_id : string) (similarity : f32)
| NoveltyDuplicate (existing_id : string) (similarity : f32).

Definition assess_novelty (new_shingles : list N) (existing : list (string * list N)) : NoveltyVerdict :=
  let new_sig := minhash_signature new_shingles 128 in
  let best := foldl (λ best e,
                let sim := jaccard_estimate new_sig (minhash_signature e.2 128) in
                match best with
                | Some (_, b) => if f32_ltb b sim then Some (e.1, sim) else best
                | None => Some (e.1, sim)
                end) None existing in
  match best with
  | Some (id, sim) =>
      if f32_leb (f32_lit 92 100) sim then NoveltyDuplicate id sim
      else if f32_leb (f32_lit 70 100) sim then RevisionOf id sim
      else NoveltyAdmitted
  | None => NoveltyAdmitted
  end.
End novelty.

(** A signature depends on the set of shingles alone: each component is the least of its
    permuted values. *)
Lemma minhash_component k shingles i :
  (i < k)%nat →
  minhash_signature shingles k !! i = Some (foldr N.min (u64_mod - 1)%N (permuted (N.of_nat i) <$> shingles)).
Proof.
  intros Hi. unfold minhash_signature.
  assert (∀ acc s, acc !! i = Some s →
    foldl (λ sig sh, imap (λ i s, if (permuted (N.of_nat i) sh <? s)%N then permuted (N.of_nat i) sh else s) sig) acc shingles !! i
    = Some (foldr N.min s (permuted (N.of_nat i) <$> shingles))) as H.
  { induction shingles as [|sh l IH]; intros acc s Hs; [done|]. cbn [foldl fmap list_fmap foldr].
    rewrite (IH _ (N.min (permuted (N.of_nat i) sh) s)).
    - f_equal. clear. induction l as [|x l IH]; cbn; [done|]. rewrite IH. lia.
    - rewrite list_lookup_imap, Hs. cbn. f_equal. destruct (N.ltb_spec (permuted (N.of_nat i) sh) s); lia. }
  apply H. by apply lookup_replicate_2.
Qed.

(** Two notes with fewer words than a shingle have are told to be the same note. *)
Example short_notes_are_duplicates :
  ∃ sim, assess_novelty [] [("01A"%string, [])] = NoveltyDuplicate "01A" sim.
Proof. eexists. vm_compute. reflexivity. Qed.

(** ** What the pipeline admits *)

Section admission.
Context {RX : Regex} {CT : CaseTables}.

Definition section_of (outcome : CurateOutcome) : option ustr :=
  match outcome with
  | AdmittedOutcome d | PendingOutcome d _ => Some (canonical_section d)
  | Rejected => None
  end.

Lemma sections_valid s : s ∈ SECTIONS → is_valid_hint_section s = true.
Proof.
  intros H. assert (forallb is_valid_hint_section SECTIONS = true) as Hf by (vm_compute; reflexivity).
  rewrite forallb_forall in Hf. apply Hf. by apply list_elem_of_In.
Qed.

Lemma heuristic_route_canonical title body : (heuristic_route title body).1 ∈ SECTIONS.
Proof.
  assert (lit "reference" ∈ SECTIONS) as Href by (apply (bool_decide_unpack _); vm_compute; exact I).
  assert (∀ sp, sp ∈ PREFIX_PATTERNS → sp.1 ∈ SECTIONS) as Hp.
  { apply Forall_forall. apply (bool_decide_unpack _). vm_compute. exact I. }
  assert (∀ sp, sp ∈ KEYWORD_PATTERNS → sp.1 ∈ SECTIONS) as Hk.
  { apply Forall_forall. apply (bool_decide_unpack _). vm_compute. exact I. }
  unfold heuristic_route. destruct (List.find _ PREFIX_PATTERNS) as [[s p]|] eqn:E.
  - apply List.find_some in E as [E _]. apply (Hp (s, p)). by apply list_elem_of_In.
  - set (scores := sort_by _ _). assert (∀ x, x ∈ scores → x.1 ∈ SECTIONS) as Hs.
    { intros x. subst scores. rewrite elem_of_sort_by, list_elem_of_fmap. intros (sp & -> & Hsp). by apply Hk. }
    destruct scores as [|[top c] rest]; [done|]. cbn zeta.
    destruct (_ && _); [|done]. by apply (Hs (top, c)); left.
Qed.

(** C30: the pipeline asks the language model at most once, and only when its review is
    enabled and the caller gave no valid section; without its word every note lands in one
    of the eleven sections of the router, or in the section the caller named; a note is
    rejected only when the model failed and the strategy is the strict one.  What the model
    answers is taken as it stands. *)
Theorem curation_stays_canonical (self : CuratorPipeline) (note : CuratorNote) t outcome path :
  runs (process_traced self note) t (outcome, path) →
  (t = [] ∨ llm_review_enabled self = true
            ∧ (∀ h, cn_section_hint note = Some h → is_valid_hint_section h = false)
            ∧ ∃ verdict, t = [mkEvent (ClassifyNote (user_prompt note (take 500 (cn_body note)))) verdict])
  ∧ (∀ s, section_of outcome = Some s →
       is_valid_hint_section s = true ∧ (s ∈ SECTIONS ∨ cn_section_hint note = Some s)
       ∨ ∃ p d, t = [mkEvent (ClassifyNote p) (Ok d)] ∧ outcome = AdmittedOutcome (mkDecisions s (ld_tags d))
                ∧ s = text_of (ld_section d))
  ∧ (outcome = Rejected → fallback self = FallbackReject ∧ ∃ p, t = [mkEvent (ClassifyNote p) (Err tt)]).
Proof.
  unfold process_traced. set (valid := (h ← cn_section_hint note; _)).
  destruct valid as [hint|] eqn:Ev.
  { intros [-> [= -> ->]]. split_and!; [by left| |done]. intros s [= <-]. left.
    subst valid. destruct (cn_section_hint note) as [h|]; [|done]. cbn [mbind option_bind] in Ev.
    destruct (is_valid_hint_section h) eqn:E; simplify_eq. split; [done|by right]. }
  pose proof (heuristic_route_canonical (cn_title note) (take 500 (cn_body note))) as Hc.
  destruct (heuristic_route _ _) as [section confidence]. cbn in Hc.
  assert (∀ s, s = section → is_valid_hint_section s = true ∧ (s ∈ SECTIONS ∨ cn_section_hint note = Some s)) as Hs.
  { intros ? ->. split; [by apply sections_valid|by left]. }
  destruct (f32_leb (heuristic_admit_threshold self) confidence).
  { intros [-> [= -> ->]]. split_and!; [by left| |done]. intros s [= <-]. left. by apply Hs. }
  destruct (llm_review_enabled self); cbn [negb orb].
  2: { intros [-> [= -> ->]]. split_and!; [by left| |done]. intros s [= <-]. left. by apply Hs. }
  destruct (f32_ltb _ _).
  { intros [-> [= -> ->]]. split_and!; [by left| |done]. intros s [= <-]. left. by apply Hs. }
  cbn [ask prog_bind runs]. intros (verdict & t' & -> & -> & [= -> ->]). split_and!.
  - right. split_and!; [done| |by exists verdict]. intros h Hh. subst valid. rewrite Hh in Ev. cbn [mbind option_bind] in Ev.
    by destruct (is_valid_hint_section h).
  - intros s. destruct verdict as [d|e]; cbn.
    + intros [= <-]. right. by eexists _, d.
    + destruct (fallback self); cbn; intros E; simplify_eq; left; by apply Hs.
  - destruct verdict as [d|[]]; [done|]. destruct (fallback self); try done. intros _. split; [done|]. by eexists.
Qed.
End admission.
