(* ===== verification/Handlers.v ===== *)
(** * Handlers: the job handlers of the worker

    [crates/gradatum-worker/src/apalis_handlers.rs] and [wikilinks.rs]: the guards on the
    tenant and the vault of a job, and one program per kind of job: curation, embedding,
    reindexing, purge, privacy rescan, forgetting, distillation and validation.  A handler
    takes the flag [multi_tenant.enabled] and the job, and is a program of Calls.v; log lines
    are left out, and an error or a report carries what its message reports.

    The ulid crate is the class [UlidCodec], the parsers of dates of the chrono crate are
    [ChronoParse], serde's reader of a section is [SectionJson], and the identifier and the dimension of the embedder [EmbedderInfo]. *)

From Stdlib Require Import SpecFloat.
From S2P Require Import Prelude Job Text Scope PrivacyPass ProjectLinks ProjectServer Notes Markdown Float SearchServer Distill Calls Curator.

#[local] Open Scope Z_scope.
#[local] Open Scope prog_scope.

Class UlidCodec := {
  ulid_to_string : Ulid → string;
  ulid_from_string : string → option Ulid;
  ulid_timestamp_ms : Ulid → Z;
}.
(** [DateTime::parse_from_rfc3339] and [NaiveDate::parse_from_str] with [%Y-%m-%d], in
    milliseconds. *)
Class ChronoParse := {
  parse_rfc3339_ms : ustr → option Z;
  parse_ymd_ms : ustr → option Z;
}.
(** [serde_json::from_str::<Section>] of the quoted text. *)
Class SectionJson := section_from_str : ustr → option NoteSection.
Class EmbedderInfo := { embedder_id : string; embedder_dim : Z }.

(** ** Errors and outputs *)

Inductive client_step :=
| ReadNote | PersistStep | ListStep | PersistEmbeddingStep | RescanStep | ReadEmbedding.

Inductive refusal :=
| UnsupportedTenant (tenant : string)
| InvalidTenant (tenant : string) (e : ValidationError)
| UnsupportedVault (vault : string)
| InvalidVault (vault : string) (e : ValidationError)
| AmbiguousVault (scope : JobScope)
| ForgetVaultMismatch (found vault : string)
| ForgetManyVaults (n : nat) (vault : string)
| ConfirmMismatch (expected provided : nat)
| RescanVaultMismatch (spec_vault scope_vault : string)
| RescanLimitZero
| ReindexDeferred (m : ReIndexMode)
| DistillVaultWide
| DistillBlankLocus
| DistillBlankSection
| DistillScopeUnsupported
| EmbedderFailed
| SynthesisFailed
| ClusteringPanicked
| ValidateUnexpected (kind : string)
| ClientFailed (step : client_step) (e : InternalClientError).

Inductive HandlerError := UnexpectedVariant (job : Job) | Business (r : refusal).

Inductive report :=
| DryRunReport (would_affect : nat)
| PurgePreview (ids : list string)
| ForgetPreview (eligible excluded : nat)
| DistillPreview (candidates clusters : nat)
| IdentityNoop
| ConflictReport (current_sha256 : option string)
| CurateReport (written : option Ulid)
| EmbedSkipped
| EmbedReport
| PurgeReport (deleted skipped : nat)
| RescanReport (batch : PrivacyRescanResponse)
| ForgetReport (forgotten skipped excluded : nat)
| DistillReport (clusters enqueued : nat)
| ValidateReport (score : f32) (pass : bool).

Record JobOutput := mkOutput {
  notes_created : list Ulid;
  notes_modified : list Ulid;
  result_note : report;
}.
Abbreviation handler := (prog (result JobOutput HandlerError)).
Definition output (r : report) : JobOutput := mkOutput [] [] r.
Definition refuse {A} (r : refusal) : prog (result A HandlerError) := Ret (Err (Business r)).

(** A guard that ends the handler, and a call of the client whose failure does. *)
Definition guard {A B} (c : result A HandlerError) (k : A → prog (result B HandlerError)) : prog (result B HandlerError) :=
  match c with Ok a => k a | Err e => Ret (Err e) end.

(** ** Guards *)

Definition ensure_main_tenant (tenant_id : string) : result unit HandlerError :=
  if String.eqb tenant_id "main" then Ok tt else Err (Business (UnsupportedTenant tenant_id)).

Definition ensure_job_tenant (tenant_id : string) (multi_tenant_enabled : bool) : result unit HandlerError :=
  if negb multi_tenant_enabled then ensure_main_tenant tenant_id
  else match VaultId_parse tenant_id with
       | Ok _ => Ok tt
       | Err e => Err (Business (InvalidTenant tenant_id e))
       end.

Definition resolve_job_vault (scope : JobScope) (multi_tenant_enabled : bool) : result string HandlerError :=
  match scope with
  | ScopeVault v =>
      if negb multi_tenant_enabled then
        if String.eqb v "main" then Ok "main"%string else Err (Business (UnsupportedVault v))
      else match VaultId_parse v with
           | Ok vid => Ok vid
           | Err e => Err (Business (InvalidVault v e))
           end
  | _ => if multi_tenant_enabled then Err (Business (AmbiguousVault scope)) else Ok "main"%string
  end.

Definition ensure_forget_scope_vault (scope : ForgetScope) (vault_id : string) : result unit HandlerError :=
  let agree found := if String.eqb found vault_id then Ok tt else Err (Business (ForgetVaultMismatch found vault_id)) in
  match scope with
  | ForgetTopic _ None _ => Ok tt
  | ForgetTopic _ (Some v) _ => agree v
  | ForgetLocus vault _ => agree vault
  | ForgetAgent _ [] => Ok tt
  | ForgetAgent _ [only] => agree only
  | ForgetAgent _ many => Err (Business (ForgetManyVaults (length many) vault_id))
  end.

(** ** Texts *)

(** [gradatum_index::extract_h1_title]. *)
Definition extract_h1_title (body : ustr) : option ustr :=
  l ← head (lines body);
  s ← strip_prefix (lit "# ") l;
  if bool_decide (trim s = []) then None else Some (trim s).

Definition hex_digit (n : N) : Ascii.ascii := Ascii.ascii_of_N (if (n <? 10)%N then 48 + n else 87 + n)%N.
Definition hex (h : list Byte.byte) : string :=
  String.string_of_list_ascii (h ≫= λ b, [hex_digit (Byte.to_N b / 16)%N; hex_digit (Byte.to_N b `mod` 16)%N]).

Definition push_tag (tags : list string) (t : string) : list string :=
  if bool_decide (t ∈ tags) then tags else tags ++ [t].
(** The tags of the decision, after those the note has. *)
Definition merge_tags (tags extra : list string) : list string := foldl push_tag tags extra.

Section handlers.
Context {UC : UlidCodec} {UP : UlidParser} {CP : ChronoParse} {EI : EmbedderInfo}.
Context {UN : UnicodeTables} {CT : CaseTables} {LM : Libm} {SJ : SectionJson}.

(** ** The temporal anchor *)

Inductive AnchorSrc := OccurredAt | EventDate | ValidFrom | AnchorCreated.
Definition AnchorSrc_as_db_str (a : AnchorSrc) : string :=
  match a with
  | OccurredAt => "occurred_at" | EventDate => "event-date" | ValidFrom => "valid_from" | AnchorCreated => "created"
  end.

Definition parse_temporal_str_as_ms (s : ustr) : option Z :=
  match parse_rfc3339_ms s with Some ms => Some ms | None => parse_ymd_ms s end.

Definition parse_extra_field_as_ms (extra : ExtraFields) (key : ustr) : option Z :=
  v ← extra_get extra key;
  match v with TString s => parse_temporal_str_as_ms s | _ => None end.

Definition resolve_temporal_anchor (extra : ExtraFields) (created_ms : Z) : Z * AnchorSrc :=
  match parse_extra_field_as_ms extra (lit "occurred_at") with
  | Some ms => (ms, OccurredAt)
  | None =>
      match parse_extra_field_as_ms extra (lit "event-date") with
      | Some ms => (ms, EventDate)
      | None =>
          match parse_extra_field_as_ms extra (lit "valid_from") with
          | Some ms => (ms, ValidFrom)
          | None => (created_ms, AnchorCreated)
          end
      end
  end.

Definition extract_valid_until (extra : ExtraFields) (anchor_ms : Z) : option Z :=
  valid_until_ms ← parse_extra_field_as_ms extra (lit "valid_until");
  if valid_until_ms <=? anchor_ms then None else Some valid_until_ms.

Definition occurred_extra (occ : string) : ExtraFields :=
  extra_insert None (lit "occurred_at") (TString (text_of occ)).

(** ** Wikilinks ([wikilinks.rs]) *)

(** [target.rsplit(':').next()], then [Ulid::from_string]. *)
Definition parse_ulid_target (target : ustr) : option Ulid :=
  ulid_from_string (native (match rsplit_once COLON target with Some (_, last) => last | None => target end)).

Record ResolvedLinks := mkResolved { rl_links : list LinkDto; rl_complete : bool }.

Definition lookup_target (tenant : string) (target : ustr) : prog (option (result (option string) InternalClientError)) :=
  match parse_ulid_target target with
  | Some ulid => ask (IdLookup tenant (ulid_to_string ulid))
  | None => ask (TitleLookup tenant (native target))
  end.

(** The tasks of the join set end in any order: [PickTask] says which is next. *)
Fixpoint join_tasks (fuel : nat) (tenant src : string) (in_flight : list ustr) (acc : ResolvedLinks) :
    prog ResolvedLinks :=
  match fuel, in_flight with
  | S fuel, _ :: _ =>
      pick <~ ask (PickTask (length in_flight));
      let i := (pick `mod` length in_flight)%nat in
      let rest := delete i in_flight in
      match in_flight !! i with
      | None => Ret acc
      | Some target =>
          r <~ lookup_target tenant target;
          join_tasks fuel tenant src rest
            match r with
            | Some (Ok (Some dst)) => mkResolved (rl_links acc ++ [mkLink src dst]) (rl_complete acc)
            | Some (Ok None) => acc
            | _ => mkResolved (rl_links acc) false
            end
      end
  | _, _ => Ret acc
  end.

Definition resolve_wikilinks_via_client (tenant src : string) (body : ustr) : prog ResolvedLinks :=
  let wikilinks := extract_wikilinks body in
  let reserved := (λ dst, mkLink src (native dst)) <$> omap reserved_node_target wikilinks in
  let to_resolve := filter (λ t, reserved_node_target t = None) wikilinks in
  join_tasks (length to_resolve) tenant src to_resolve (mkResolved reserved true).

(** ** Records of the jobs a handler enqueues *)

Definition new_record (id : Ulid) (now : DateTime) (kind : Job) (scope : JobScope) (priority : JobPriority)
    (parent : Ulid) : JobRecord :=
  mkJobRecord id (mkJobSpec kind ClassAgent Batch scope priority)
    (mkJobScheduling Demand now [] None None)
    (mkJobLifecycle Pending now None None None None)
    JobRetry_default
    (mkJobLineage None (Some parent) None None [] None).

Definition build_embed_job_record (note_id : Ulid) (tenant_id : string) (parent_job_id : Ulid) : prog JobRecord :=
  now <~ ask NowNs;
  id <~ ask NewUlid;
  Ret (new_record id now (Embed (mkEmbedSpec note_id tenant_id false)) (ScopeNotes [note_id]) Normal parent_job_id).

Definition build_validate_job_record (spec : ValidateSpec) (parent_id : Ulid) : prog JobRecord :=
  now <~ ask NowNs;
  id <~ ask NewUlid;
  Ret (new_record id now (Validate spec) ScopeVaultWide High parent_id).

(** ** [handle_curate] *)

Definition status_text (s : NoteStatus) : string := native (serde_kebab_repr s).

(** The request for a note to create, or for the existing note [dto]. *)
Definition curated_request (cs : CurateSpec) (existing : option NoteReadDto) (title : ustr) (d : CuratorDecisions)
    (status : NoteStatus) (temporal : option TemporalEntryDto) (links : ResolvedLinks)
    (decision : string * string) : PersistCuratedRequest :=
  let section := native (canonical_section d) in
  match existing with
  | Some dto =>
      mkPersistCurated (ulid_to_string (cs_note_id cs)) (cs_tenant_id cs)
        (native (default (canonical_section d) (extract_h1_title (text_of (nr_body dto)))))
        (nr_body dto) section (merge_tags (nr_tags dto) (decided_tags d)) None (status_text status) None None
        temporal (rl_links links) (rl_complete links) None (Some decision) None
  | None =>
      mkPersistCurated (ulid_to_string (cs_note_id cs)) (cs_tenant_id cs)
        (native title) (default EmptyString (cs_body cs)) section
        (merge_tags (cs_tags cs) (decided_tags d)) (cs_author cs) (status_text status) None
        (hex <$> cs_expected_sha256 cs) temporal (rl_links links) (rl_complete links)
        (Some (native (resolve_provenance (text_of <$> cs_section_hint cs)))) (Some decision) None
  end.

(** The body whose links are resolved and which is written. *)
Definition curated_body (cs : CurateSpec) (existing : option NoteReadDto) : string :=
  match existing with Some dto => nr_body dto | None => default EmptyString (cs_body cs) end.

(** The anchor of an admitted note: none when an update gives no date, so that the stored
    one stays. *)
Definition curated_anchor (cs : CurateSpec) (existing : option NoteReadDto) : prog (option (Z * AnchorSrc)) :=
  match cs_occurred_at cs with
  | Some occ =>
      created_ms <~ ask NowMs;
      Ret (Some (resolve_temporal_anchor (occurred_extra occ) created_ms))
  | None =>
      match existing, cs_expected_sha256 cs with
      | Some _, _ | None, Some _ => Ret None
      | None, None =>
          created_ms <~ ask NowMs;
          Ret (Some (resolve_temporal_anchor None created_ms))
      end
  end.

Definition temporal_entry (section : ustr) (anchor : Z * AnchorSrc) : TemporalEntryDto :=
  mkTemporal anchor.1 (AnchorSrc_as_db_str anchor.2)
    (native (section_to_doc_kind (default Reference (section_from_str section)))) None.

(** A conflict marks the job and ends the handler without an error. *)
Definition on_conflict (job : JobRecord) (current attempted : option string) : prog JobOutput :=
  duration_ms <~ match started_at (Job.lifecycle job) with
                 | Some s => now <~ ask NowNs; Ret (Z.min (Z.max (Z.quot (now - s) 1000000) 0) (u32_modulus - 1))
                 | None => Ret 0
                 end;
  timestamp_ms <~ ask NowMs;
  ask (MarkConflict (id job) (mkWriteConflict (default EmptyString current) attempted timestamp_ms) duration_ms);;
  Ret (output (ConflictReport current)).

(** The chained embedding is best effort. *)
Definition chain_embed (job : JobRecord) (cs : CurateSpec) : prog unit :=
  record <~ build_embed_job_record (cs_note_id cs) (cs_tenant_id cs) (id job);
  ask (Enqueue record);;
  Ret tt.

Definition persist_curated (job : JobRecord) (cs : CurateSpec) (req : PersistCuratedRequest) : handler :=
  r <~ ask (PersistCurated req);
  match r with
  | Ok _ =>
      chain_embed job cs;;
      Ret (Ok (mkOutput [cs_note_id cs] [] (CurateReport (Some (cs_note_id cs)))))
  | Err (ClientConflict current) =>
      out <~ on_conflict job current (pc_expected_sha256 req);
      Ret (Ok out)
  | Err e => refuse (ClientFailed PersistStep e)
  end.

Definition curate_note (curator : CuratorNote → prog (CurateOutcome * CurationPath)) (job : JobRecord)
    (cs : CurateSpec) (existing : option NoteReadDto) (note : CuratorNote) : handler :=
  decided <~ curator note;
  let '(outcome, path) := decided in
  let decision := (CurationPath_as_str path, outcome_label outcome) in
  let tenant := cs_tenant_id cs in
  let note_id := ulid_to_string (cs_note_id cs) in
  match outcome with
  | AdmittedOutcome d =>
      anchor <~ curated_anchor cs existing;
      links <~ resolve_wikilinks_via_client tenant note_id (text_of (curated_body cs existing));
      let temporal := temporal_entry (canonical_section d) <$> anchor in
      persist_curated job cs (curated_request cs existing (cn_title note) d Live temporal links decision)
  | PendingOutcome d _ =>
      links <~ resolve_wikilinks_via_client tenant note_id (text_of (curated_body cs existing));
      persist_curated job cs (curated_request cs existing (cn_title note) d PendingReview None links decision)
  | Rejected => Ret (Ok (output (CurateReport None)))
  end.

Definition handle_curate (curator : CuratorNote → prog (CurateOutcome * CurationPath)) (mt : bool)
    (job : JobRecord) : handler :=
  if is_dry_run job then Ret (Ok (output (DryRunReport 0)))
  else match kind (spec job) with
  | Curate cs =>
      guard (ensure_job_tenant (cs_tenant_id cs) mt) (λ _,
        let note_id := ulid_to_string (cs_note_id cs) in
        match cs_title cs, cs_body cs with
        | Some title, Some body =>
            curate_note curator job cs None
              (mkCuratorNote note_id (text_of title) (text_of body) (cs_tags cs) (text_of <$> cs_section_hint cs))
        | _, _ =>
            r <~ ask (GetNote (cs_tenant_id cs) note_id);
            match r with
            | Err e => refuse (ClientFailed ReadNote e)
            | Ok dto =>
                if String.eqb (nr_section dto) "identity" then Ret (Ok (output IdentityNoop))
                else
                  let title := default (text_of (nr_section dto)) (extract_h1_title (text_of (nr_body dto))) in
                  curate_note curator job cs (Some dto)
                    (mkCuratorNote note_id title (text_of (nr_body dto)) (nr_tags dto) None)
            end
        end)
  | other => Ret (Err (UnexpectedVariant other))
  end.

(** ** [handle_embed], [handle_reindex] *)

(** The first 2048 characters of a body of more than 8192 bytes. *)
Definition embed_text (body : string) : string :=
  if (8192 <? String.length body)%nat then native (take 2048 (text_of body)) else body.

Definition handle_embed (mt : bool) (job : JobRecord) : handler :=
  if is_dry_run job then Ret (Ok (output (DryRunReport 0)))
  else match kind (spec job) with
  | Embed es =>
      guard (ensure_job_tenant (es_tenant_id es) mt) (λ _,
        let note_id := ulid_to_string (es_note_id es) in
        r <~ ask (GetNote (es_tenant_id es) note_id);
        match r with
        | Err e => refuse (ClientFailed ReadNote e)
        | Ok dto =>
            if String.eqb (nr_body dto) EmptyString then Ret (Ok (output EmbedSkipped))
            else
              v <~ ask (EmbedText (embed_text (nr_body dto)));
              match v with
              | Err _ => refuse EmbedderFailed
              | Ok vec =>
                  p <~ ask (PersistEmbedding
                              (mkPersistEmbedding note_id embedder_id embedder_dim vec (Some (es_tenant_id es))));
                  match p with
                  | Err e => refuse (ClientFailed PersistEmbeddingStep e)
                  | Ok _ => Ret (Ok (mkOutput [] [es_note_id es] EmbedReport))
                  end
              end
        end)
  | other => Ret (Err (UnexpectedVariant other))
  end.

Definition handle_reindex (job : JobRecord) : handler :=
  if is_dry_run job then Ret (Ok (output (DryRunReport 0)))
  else match kind (spec job) with
  | ReIndex m => refuse (ReindexDeferred m)
  | other => Ret (Err (UnexpectedVariant other))
  end.

(** ** [handle_purge] *)

Definition I64_MAX : Z := 2 ^ 63 - 1.
Definition i64_saturating_sub (a b : Z) : Z := Z.max (- 2 ^ 63) (Z.min I64_MAX (a - b)).

(** Each candidate is deleted only if its status is still that of garbage. *)
Fixpoint purge_notes_loop (vault : string) (candidates : list NoteIdDto) (deleted : list string) (skipped : nat) :
    prog (list string * nat) :=
  match candidates with
  | [] => Ret (deleted, skipped)
  | dto :: rest =>
      let ulid := ni_note_id dto in
      st <~ ask (GetNoteStatus vault ulid);
      match st with
      | Ok (Some s) =>
          if String.eqb s "garbage" then
            r <~ ask (DeleteNote vault ulid);
            match r with
            | Ok _ => purge_notes_loop vault rest (deleted ++ [ulid]) skipped
            | Err _ => purge_notes_loop vault rest deleted (S skipped)
            end
          else purge_notes_loop vault rest deleted (S skipped)
      | _ => purge_notes_loop vault rest deleted (S skipped)
      end
  end.

Definition handle_purge (mt : bool) (job : JobRecord) : handler :=
  match kind (spec job) with
  | Purge ps =>
      let dry := is_dry_run job || pu_dry_run ps in
      guard (resolve_job_vault (scope (spec job)) mt) (λ vault,
        cutoff <~ match pu_grace_days ps with
                  | Some days => now <~ ask NowMs; Ret (i64_saturating_sub now (days * 24 * 3600 * 1000))
                  | None => Ret I64_MAX
                  end;
        r <~ ask (ListGarbage vault cutoff (default 0 (pu_grace_days ps)));
        match r with
        | Err e => refuse (ClientFailed ListStep e)
        | Ok candidates =>
            if dry then Ret (Ok (output (PurgePreview (ni_note_id <$> candidates))))
            else
              res <~ purge_notes_loop vault candidates [] 0;
              Ret (Ok (output (PurgeReport (length res.1) res.2)))
        end)
  | other => Ret (Err (UnexpectedVariant other))
  end.

(** ** [handle_privacy_rescan] *)

Definition handle_privacy_rescan (mt : bool) (job : JobRecord) : handler :=
  if is_dry_run job then Ret (Ok (output (DryRunReport 0)))
  else match kind (spec job) with
  | PrivacyRescan rs =>
      guard (resolve_job_vault (scope (spec job)) mt) (λ scoped,
        if negb (String.eqb scoped (pr_vault_id rs)) then refuse (RescanVaultMismatch (pr_vault_id rs) scoped)
        else if pr_limit rs =? 0 then refuse RescanLimitZero
        else
          r <~ ask (RescanBatch (pr_vault_id rs) (pr_limit rs));
          match r with
          | Err e => refuse (ClientFailed RescanStep e)
          | Ok batch => Ret (Ok (output (RescanReport batch)))
          end)
  | other => Ret (Err (UnexpectedVariant other))
  end.

(** ** [handle_forget] *)

Definition forget_candidates (vault : string) (scope : ForgetScope) : prog (result (list NoteIdDto) InternalClientError) :=
  match scope with
  | ForgetTopic query _ limit => ask (SearchForget vault query (Z.min (default 50 limit) 200))
  | ForgetLocus _ locus => ask (ListByLocus vault locus)
  | ForgetAgent agent_id _ => ask (ListByAgent agent_id [vault])
  end.

(** A note that cannot be read counts as protected. *)
Definition read_protected (r : result NoteReadDto InternalClientError) : bool :=
  match r with
  | Ok dto => is_forget_protected (text_of (nr_section dto)) (text_of (default EmptyString (nr_title dto)))
  | Err _ => true
  end.

Fixpoint partition_loop (vault : string) (raw : list string) (eligible : list string) (excluded : nat) :
    prog (list string * nat) :=
  match raw with
  | [] => Ret (eligible, excluded)
  | ulid :: rest =>
      r <~ ask (GetNote vault ulid);
      if read_protected r then partition_loop vault rest eligible (S excluded)
      else partition_loop vault rest (eligible ++ [ulid]) excluded
  end.

Definition sorted_texts (l : list string) : list string := sort_by String.compare l.

Fixpoint forget_loop (vault : string) (forgotten_by : option string) (eligible : list string)
    (forgotten : list Ulid) (skipped : nat) : prog (list Ulid * nat) :=
  match eligible with
  | [] => Ret (forgotten, skipped)
  | ulid :: rest =>
      match ulid_from_string ulid with
      | None => forget_loop vault forgotten_by rest forgotten (S skipped)
      | Some raw_ulid =>
          r <~ ask (GetNote vault ulid);
          match r with
          | Err _ => forget_loop vault forgotten_by rest forgotten (S skipped)
          | Ok dto =>
              if nr_forgotten dto then
                ask (ResyncForget vault ulid);;
                forget_loop vault forgotten_by rest (forgotten ++ [raw_ulid]) skipped
              else
                r2 <~ ask (GetNote vault ulid);
                match r2 with
                | Err _ => forget_loop vault forgotten_by rest forgotten (S skipped)
                | Ok dto2 =>
                    p <~ ask (PersistForget (mkPersistForget ulid vault EmptyString (nr_section dto2) forgotten_by));
                    match p with
                    | Err _ => forget_loop vault forgotten_by rest forgotten (S skipped)
                    | Ok _ => forget_loop vault forgotten_by rest (forgotten ++ [raw_ulid]) skipped
                    end
                end
          end
      end
  end.

Definition handle_forget (mt : bool) (job : JobRecord) : handler :=
  match kind (spec job) with
  | Forget fs =>
      let dry := is_dry_run job || fs_dry_run fs in
      guard (resolve_job_vault (scope (spec job)) mt) (λ vault,
      guard (ensure_forget_scope_vault (fs_scope fs) vault) (λ _,
        r <~ forget_candidates vault (fs_scope fs);
        match r with
        | Err e => refuse (ClientFailed ListStep e)
        | Ok raw =>
            parts <~ partition_loop vault (ni_note_id <$> raw) [] 0;
            let '(eligible, excluded) := parts in
            if dry then Ret (Ok (output (ForgetPreview (length eligible) excluded)))
            else if bool_decide (sorted_texts eligible = sorted_texts (fs_confirm_ulids fs)) then
              res <~ forget_loop vault (fs_forgotten_by fs) eligible [] 0;
              Ret (Ok (mkOutput [] res.1 (ForgetReport (length res.1) res.2 excluded)))
            else refuse (ConfirmMismatch (length eligible) (length (fs_confirm_ulids fs)))
        end))
  | other => Ret (Err (UnexpectedVariant other))
  end.

(** ** [handle_distill] *)

Definition MAX_DISTILL_BATCH : Z := 2000.

(** [f32::to_bits] of a number in the form that arithmetic leaves it. *)
Definition f32_to_bits (x : f32) : f32_bits :=
  let sign (s : bool) := if s then 2 ^ 31 else 0 in
  match x with
  | S754_zero s => sign s
  | S754_infinity s => sign s + 255 * 2 ^ 23
  | S754_nan => 255 * 2 ^ 23 + 2 ^ 22
  | S754_finite s m e =>
      sign s + (if Zpos m <? 2 ^ 23 then Zpos m else (e + 150) * 2 ^ 23 + (Zpos m - 2 ^ 23))
  end.

Definition effective_threshold (bits : f32_bits) : f32 :=
  match f32_from_bits bits with
  | (S754_zero _ | S754_finite _ _ _) as x => f32_clamp01 x
  | _ => f32_lit 3 4
  end.

Definition ids_of (rows : list NoteIdDto) : list Ulid := omap (λ dto, ulid_from_string (ni_note_id dto)) rows.

Definition listed_ids (r : result (list NoteIdDto) InternalClientError) : result (list Ulid) HandlerError :=
  match r with Ok rows => Ok (ids_of rows) | Err e => Err (Business (ClientFailed ListStep e)) end.

Fixpoint list_statuses (vault : string) (statuses : list string) (all : list Ulid) : prog (result (list Ulid) HandlerError) :=
  match statuses with
  | [] => Ret (Ok all)
  | s :: rest =>
      r <~ ask (ListByStatus vault s);
      match listed_ids r with
      | Err e => Ret (Err e)
      | Ok ids => list_statuses vault rest (all ++ ids)
      end
  end.

Definition resolve_distill_scope (vault : string) (scope : JobScope) : prog (result (list Ulid) HandlerError) :=
  match scope with
  | ScopeLocus prefix => r <~ ask (ListByLocus vault prefix); Ret (listed_ids r)
  | ScopeSection section => r <~ ask (ListBySection vault section); Ret (listed_ids r)
  | ScopeNotes ids => Ret (Ok ids)
  | ScopeVaultWide => list_statuses vault ["live"; "pending-review"; "staging"]%string []
  | ScopeSession _ | ScopeVault _ => refuse DistillScopeUnsupported
  end.

Definition blank (s : string) : bool := bool_decide (trim (text_of s) = []).

(** The scopes refused outside a dry run. *)
Definition distill_scope_guard (dry : bool) (scope : JobScope) : result unit HandlerError :=
  if dry then Ok tt
  else match scope with
       | ScopeVaultWide => Err (Business DistillVaultWide)
       | ScopeLocus prefix => if blank prefix then Err (Business DistillBlankLocus) else Ok tt
       | ScopeSection section => if blank section then Err (Business DistillBlankSection) else Ok tt
       | _ => Ok tt
       end.

Record candidate := mkCand { cd_id : Ulid; cd_title : string; cd_body : string; cd_embedding : list f32 }.

(** The notes that can be grouped, until [limit] of them are found. *)
Fixpoint collect_loop (vault : string) (limit : nat) (raw : list Ulid) (acc : list candidate) :
    prog (result (list candidate) HandlerError) :=
  match raw with
  | [] => Ret (Ok acc)
  | note_id :: rest =>
      if (limit <=? length acc)%nat then Ret (Ok acc)
      else
        let ulid := ulid_to_string note_id in
        r <~ ask (GetNote vault ulid);
        match r with
        | Err _ => collect_loop vault limit rest acc
        | Ok dto =>
            if nr_forgotten dto || String.eqb (nr_status dto) "garbage" || nr_processed dto
            then collect_loop vault limit rest acc
            else
              e <~ ask (GetNoteEmbedding vault ulid embedder_id);
              match e with
              | Ok vec =>
                  let title := native (default [] (extract_h1_title (text_of (nr_body dto)))) in
                  collect_loop vault limit rest (acc ++ [mkCand note_id title (nr_body dto) vec])
              | Err (ClientNotFound _) => collect_loop vault limit rest acc
              | Err e => refuse (ClientFailed ReadEmbedding e)
              end
        end
  end.

Fixpoint trusts_loop (vault : string) (sources : list Ulid) (trusts : gmap Ulid f32) : prog (gmap Ulid f32) :=
  match sources with
  | [] => Ret trusts
  | src :: rest =>
      r <~ ask (GetTrust vault (ulid_to_string src));
      trusts_loop vault rest match r with Ok t => <[src := t]> trusts | Err _ => trusts end
  end.

Definition validate_spec_of (vault : string) (threshold : f32) (synth_id : Ulid) (synthesis : string * string)
    (members : list candidate) (trusts : gmap Ulid f32) : ValidateSpec :=
  let sources := cd_id <$> members in
  mkValidateSpec synth_id vault synthesis.1 synthesis.2 sources (cd_body <$> members)
    ((λ src, f32_to_bits (default (f32_lit 6 10) (trusts !! src))) <$> sources)
    (f32_to_bits (compute_distill_trust sources (λ src, trusts !! src) threshold))
    f32_three_quarters.

(** One synthesis per cluster, handed over to a validation job. *)
Fixpoint synthesis_loop (vault : string) (threshold : f32) (parent : Ulid) (candidates : list candidate)
    (clusters : list (list nat)) (created : list Ulid) : prog (result (list Ulid) HandlerError) :=
  match clusters with
  | [] => Ret (Ok created)
  | cluster :: rest =>
      let members := omap (λ i, candidates !! i) cluster in
      s <~ ask (Synthesize ((λ c, (cd_title c, cd_body c)) <$> members));
      match s with
      | Err _ => refuse SynthesisFailed
      | Ok synthesis =>
          synth_id <~ ask NewUlid;
          trusts <~ trusts_loop vault (cd_id <$> members) ∅;
          record <~ build_validate_job_record
                      (validate_spec_of vault threshold synth_id synthesis members trusts) parent;
          r <~ ask (Enqueue record);
          synthesis_loop vault threshold parent candidates rest
            match r with Ok _ => created ++ [synth_id] | Err _ => created end
      end
  end.

Definition handle_distill (mt : bool) (job : JobRecord) : handler :=
  match kind (spec job) with
  | Distill ds =>
      let dry := is_dry_run job in
      guard (resolve_job_vault (scope (spec job)) mt) (λ vault,
      let threshold := effective_threshold (ds_confidence_threshold ds) in
      guard (distill_scope_guard dry (ds_scope ds)) (λ _,
        raw <~ resolve_distill_scope vault (ds_scope ds);
        guard raw (λ raw,
        found <~ collect_loop vault (Z.to_nat (Z.min (ds_batch_limit ds) MAX_DISTILL_BATCH)) raw [];
        guard found (λ candidates,
        match cluster_by_cosine (cd_embedding <$> candidates) threshold with
        | None => refuse ClusteringPanicked
        | Some clusters =>
            if dry then Ret (Ok (output (DistillPreview (length candidates) (length clusters))))
            else
              r <~ synthesis_loop vault threshold (id job) candidates clusters [];
              guard r (λ created,
              Ret (Ok (mkOutput created [] (DistillReport (length clusters) (length created)))))
        end))))
  | other => Ret (Err (UnexpectedVariant other))
  end.

(** ** [handle_validate] *)

Definition recency (now_ms : Z) (source : Ulid) : f64 :=
  let delta_ms := Z.max (now_ms - ulid_timestamp_ms source) 0 in
  exp (f64_mul (f64_neg (f64_lit 1 100)) (f64_div (f64_of_Z delta_ms) (f64_of_Z 86400000))).
Definition f64_sum (l : list f64) : f64 := foldl f64_add (S754_zero true) l.

Definition f17_of (now_ms : Z) (sources : list Ulid) : f32 :=
  if bool_decide (sources = []) then f32_one
  else f32_of_f64 (f64_div (f64_sum (recency now_ms <$> sources)) (f64_of_Z (Z.of_nat (length sources)))).
Definition f47_of (trusts : list f32) : f32 :=
  if bool_decide (trusts = []) then f32_lit 6 10
  else f32_div (f32_sum trusts) (f32_of_Z (Z.of_nat (length trusts))).

Definition compute_quality (vs : ValidateSpec) : prog (option QualityScore) :=
  if bool_decide (vs_source_texts vs = []) then Ret None
  else
    s <~ ask (EmbedText (vs_body vs));
    match s with
    | Err _ => Ret None
    | Ok synth_emb =>
        b <~ ask (EmbedBatch (vs_source_texts vs));
        match b with
        | Err _ => Ret None
        | Ok src_embs =>
            now_ms <~ ask NowMs;
            Ret (Some (score_quality synth_emb (centroid src_embs) (text_of (vs_body vs))
                         (text_of <$> vs_source_texts vs) (f17_of now_ms (vs_source_ids vs))
                         (f47_of (f32_from_bits <$> vs_source_trusts vs))))
        end
    end.

(** A score that cannot be computed is neutral. *)
Definition neutral_quality : QualityScore := mkQuality f32_one (f32_of_Z (-1)) f32_one f32_one.

Definition synthesis_request (vs : ValidateSpec) (score : f32) : PersistDistillRequest :=
  let pass := f32_leb (f32_from_bits (vs_threshold vs)) score in
  mkPersistDistill (ulid_to_string (vs_note_id vs)) (vs_tenant_id vs) (vs_title vs) (vs_body vs) "reference"
    (Some (if pass then f32_from_bits (vs_base_trust vs)
           else f32_clamp01 (f32_mul (f32_from_bits (vs_base_trust vs)) score)))
    None false None (ulid_to_string <$> vs_source_ids vs)
    (if pass then [] else ["quality-low"%string]).

Definition source_request (vs : ValidateSpec) (src : Ulid) : PersistDistillRequest :=
  mkPersistDistill (ulid_to_string src) (vs_tenant_id vs) EmptyString EmptyString EmptyString None None true
    (Some (ulid_to_string (vs_note_id vs))) [] [].

Fixpoint mark_loop (vs : ValidateSpec) (sources : list Ulid) (modified : list Ulid) : prog (list Ulid) :=
  match sources with
  | [] => Ret modified
  | src :: rest =>
      r <~ ask (PersistDistill (source_request vs src));
      mark_loop vs rest match r with Ok _ => modified ++ [src] | Err _ => modified end
  end.

Definition handle_validate (mt : bool) (job : JobRecord) : handler :=
  match kind (spec job) with
  | Validate vs =>
      guard (ensure_job_tenant (vs_tenant_id vs) mt) (λ _,
        q <~ compute_quality vs;
        let score := q_score (default neutral_quality q) in
        let pass := f32_leb (f32_from_bits (vs_threshold vs)) score in
        r <~ ask (PersistDistill (synthesis_request vs score));
        match r with
        | Err e => refuse (ClientFailed PersistStep e)
        | Ok _ =>
            modified <~ mark_loop vs (vs_source_ids vs) [];
            Ret (Ok (mkOutput [vs_note_id vs] modified (ValidateReport score pass)))
        end)
  | other => refuse (ValidateUnexpected (job_kind_str other))
  end.

(** ** The worker of each kind of job ([monitor.rs]) *)

Definition handle {RX : Regex} (curator : CuratorPipeline) (mt : bool) (job : JobRecord) : handler :=
  match kind (spec job) with
  | Curate _ => handle_curate (process_traced curator) mt job
  | Embed _ => handle_embed mt job
  | ReIndex _ => handle_reindex job
  | Purge _ => handle_purge mt job
  | PrivacyRescan _ => handle_privacy_rescan mt job
  | Forget _ => handle_forget mt job
  | Distill _ => handle_distill mt job
  | Validate _ => handle_validate mt job
  | other => Ret (Err (UnexpectedVariant other))
  end.
End handlers.
