(* ===== verification/HandlerProps.v ===== *)
(** * HandlerProps: what the job handlers may do

    Properties of every run of the programs of Handlers.v, whatever the server, the queue,
    the embedder and the language model answer: a job acts on one vault, a dry run changes
    nothing, a purge deletes only what was garbage a moment before, a forgetting touches
    only what was confirmed, a curation writes once. *)

From Stdlib Require Import SpecFloat.
From S2P Require Import Prelude Job Text Scope PrivacyPass ProjectLinks ProjectServer Notes Markdown Float SearchServer Distill Calls Curator Handlers.

#[local] Open Scope Z_scope.
#[local] Open Scope prog_scope.

Section properties.
Context {UC : UlidCodec} {UP : UlidParser} {CP : ChronoParse} {EI : EmbedderInfo}.
Context {UN : UnicodeTables} {CT : CaseTables} {LM : Libm} {SJ : SectionJson} {RX : Regex}.

(** ** One job, one vault *)

(** The vaults a call names; a job that is enqueued names the one it serves. *)
Definition call_vaults (c : call) : list string :=
  match c with
  | GetNote v _ | GetNoteStatus v _ | GetNoteEmbedding v _ _ | GetTrust v _ | TitleLookup v _ | IdLookup v _
  | ListByLocus v _ | ListBySection v _ | ListByStatus v _ | ListGarbage v _ _ | SearchForget v _ _
  | ResyncForget v _ | DeleteNote v _ | RescanBatch v _ => [v]
  | ListByAgent _ vs => vs
  | PersistCurated req => pc_tenant_id req :: option_list (pc_target_vault req)
  | PersistEmbedding req => [default "main"%string (pe_vault_id req)]
  | PersistForget req => [pf_tenant_id req]
  | PersistDistill req => [pd_tenant_id req]
  | Enqueue job => [spec_tenant (spec job)]
  | _ => []
  end.
Definition within (v : string) (c : call) : Prop := Forall (eq v) (call_vaults c).

(** The vault of a job, if its guards let it pass. *)
Definition job_vault (mt : bool) (job : JobRecord) : option string :=
  let tenant t := match ensure_job_tenant t mt with Ok _ => Some t | Err _ => None end in
  match kind (spec job) with
  | Curate cs => tenant (cs_tenant_id cs)
  | Embed es => tenant (es_tenant_id es)
  | Validate vs => tenant (vs_tenant_id vs)
  | _ => match resolve_job_vault (scope (spec job)) mt with Ok v => Some v | Err _ => None end
  end.

Abbreviation stays v p := (always (within v) (λ _, True) p).

Ltac stay :=
  repeat first
    [ progress cbn [prog_bind ask always guard refuse]
    | match goal with |- _ ∧ _ => split end
    | match goal with |- True => exact I end
    | match goal with |- within _ _ => repeat constructor | |- mutates _ = false => reflexivity end
    | match goal with |- ∀ _, _ => intro end
    | match goal with |- always _ _ (match ?x with _ => _ end) => destruct x end
    | match goal with |- always _ _ (prog_bind _ _) => apply (always_bind _ (λ _, True)) end
    | assumption ].

Lemma process_stays v self note : stays v (process_traced self note).
Proof. unfold process_traced. cbn zeta. destruct (heuristic_route _ _). stay. Qed.

Lemma join_tasks_stay v fuel src fl acc : stays v (join_tasks fuel v src fl acc).
Proof.
  revert fl acc. induction fuel as [|fuel IH]; intros fl acc; [by destruct fl|].
  destruct fl as [|t fl]; [done|]. unfold join_tasks; fold join_tasks. unfold lookup_target. stay; apply IH.
Qed.

Lemma resolve_links_stay v src body : stays v (resolve_wikilinks_via_client v src body).
Proof. apply join_tasks_stay. Qed.

Lemma persist_curated_stays job cs req :
  pc_tenant_id req = cs_tenant_id cs → pc_target_vault req = None → stays (cs_tenant_id cs) (persist_curated job cs req).
Proof.
  intros Ht Hv. unfold persist_curated, chain_embed, build_embed_job_record, on_conflict.
  cbn [prog_bind ask always]. split; [unfold within; cbn; rewrite Ht, Hv; by repeat constructor|]. stay.
Qed.

Lemma curate_note_stays curator job cs existing note :
  (∀ n, stays (cs_tenant_id cs) (curator n)) → stays (cs_tenant_id cs) (curate_note curator job cs existing note).
Proof.
  intros Hc. unfold curate_note. apply (always_bind _ (λ _, True)); [apply Hc|]. intros [outcome path] _.
  pose proof (λ src body, resolve_links_stay (cs_tenant_id cs) src body) as Hl. unfold curated_anchor.
  assert (∀ d s tp l dec, let req := curated_request cs existing (cn_title note) d s tp l dec in
    pc_tenant_id req = cs_tenant_id cs ∧ pc_target_vault req = None) as Hreq by (intros; by destruct existing).
  destruct outcome; stay; try (apply Hl); apply persist_curated_stays; by apply Hreq.
Qed.

Lemma purge_loop_stays v cands del sk : stays v (purge_notes_loop v cands del sk).
Proof. revert del sk. induction cands as [|c cands IH]; intros del sk; [done|]. cbn [purge_notes_loop]. stay; apply IH. Qed.
Lemma partition_stays v raw el ex : stays v (partition_loop v raw el ex).
Proof. revert el ex. induction raw as [|c raw IH]; intros el ex; [done|]. cbn [partition_loop]. stay; apply IH. Qed.
Lemma forget_loop_stays v by_ el fg sk : stays v (forget_loop v by_ el fg sk).
Proof. revert fg sk. induction el as [|u el IH]; intros fg sk; [done|]. cbn [forget_loop]. stay; apply IH. Qed.
Lemma list_statuses_stay v ss all : stays v (list_statuses v ss all).
Proof. revert all. induction ss as [|s ss IH]; intros all; [done|]. cbn [list_statuses]. stay; apply IH. Qed.
Lemma collect_stays v limit raw acc : stays v (collect_loop v limit raw acc).
Proof. revert acc. induction raw as [|c raw IH]; intros acc; [done|]. cbn [collect_loop]. stay; apply IH. Qed.
Lemma trusts_stay v ss m : stays v (trusts_loop v ss m).
Proof. revert m. induction ss as [|s ss IH]; intros m; [done|]. cbn [trusts_loop]. stay; apply IH. Qed.
Lemma synthesis_stays v th parent cands clusters created :
  stays v (synthesis_loop v th parent cands clusters created).
Proof.
  revert created. induction clusters as [|c clusters IH]; intros created; [done|].
  cbn [synthesis_loop]. unfold build_validate_job_record. stay; try (apply trusts_stay); apply IH.
Qed.
Lemma mark_stays vs ss m : stays (vs_tenant_id vs) (mark_loop vs ss m).
Proof. revert m. induction ss as [|s ss IH]; intros m; [done|]. cbn [mark_loop]. stay; apply IH. Qed.

Lemma handle_stays curator mt job :
  match job_vault mt job with
  | Some v => stays v (handle curator mt job)
  | None => ∃ a, handle curator mt job = Ret a
  end.
Proof.
  unfold job_vault, handle. destruct (kind (spec job)) as [| | |ds| |ps|m| |vs| | |cs|fs| | | | | | | | |es| | |rs] eqn:Ek;
    try (by destruct (resolve_job_vault _ _); [|eexists]).
  - unfold handle_distill. rewrite Ek. destruct (resolve_job_vault _ _) as [v|e]; [|by eexists].
    cbn [guard]. unfold guard, resolve_distill_scope.
    stay; try apply list_statuses_stay; try apply collect_stays; apply synthesis_stays.
  - unfold handle_purge. rewrite Ek. destruct (resolve_job_vault _ _) as [v|e]; [|by eexists].
    stay; apply purge_loop_stays.
  - unfold handle_reindex. rewrite Ek. destruct (resolve_job_vault _ _); destruct (is_dry_run job); try done; by eexists.
  - unfold handle_validate. rewrite Ek. destruct (ensure_job_tenant _ _); [|by eexists].
    unfold compute_quality. stay; apply mark_stays.
  - unfold handle_curate. rewrite Ek. destruct (is_dry_run job); [destruct (ensure_job_tenant _ _); [done|by eexists]|].
    destruct (ensure_job_tenant _ _); [|by eexists].
    pose proof (λ ex n, curate_note_stays (process_traced curator) job cs ex n (process_stays _ _)) as Hc.
    stay; apply Hc.
  - unfold handle_forget. rewrite Ek. destruct (resolve_job_vault _ _) as [v|e]; [|by eexists].
    unfold guard, forget_candidates. stay; try apply partition_stays; apply forget_loop_stays.
  - unfold handle_embed. rewrite Ek. destruct (is_dry_run job); [destruct (ensure_job_tenant _ _); [done|by eexists]|].
    destruct (ensure_job_tenant _ _); [|by eexists]. stay.
  - unfold handle_privacy_rescan. rewrite Ek. destruct (is_dry_run job).
    { destruct (resolve_job_vault _ _); [done|by eexists]. }
    destruct (resolve_job_vault _ _) as [v|e]; [|by eexists]. cbn [guard].
    destruct (String.eqb_spec v (pr_vault_id rs)) as [->|]; [|done]. stay.
Qed.

(** C9: a job acts on one vault.  Whatever the services answer, every call of a handler
    names the vault its guards resolved for the job, and no other, and a job it enqueues
    serves the same one; a job whose guards refuse it makes no call at all.  Without the
    multi-vault mode that vault is always the main one. *)
Theorem job_stays_in_its_vault curator mt job t r :
  runs (handle curator mt job) t r →
  (∀ v e, e ∈ t → v ∈ call_vaults (ev_call e) → job_vault mt job = Some v) ∧
  (job_vault mt job = None → t = []) ∧
  (mt = false → ∀ v, job_vault mt job = Some v → v = "main"%string).
Proof.
  intros Hr. pose proof (handle_stays curator mt job) as Hs.
  split_and!.
  - intros v e He Hv. destruct (job_vault mt job) as [v'|].
    + apply always_runs with (t := t) (a := r) in Hs as [Hs _]; [|done]. rewrite Forall_forall in Hs.
      specialize (Hs e He). unfold within in Hs. rewrite Forall_forall in Hs. by rewrite (Hs v Hv).
    + destruct Hs as [a Ea]. rewrite Ea in Hr. destruct Hr as [-> _]. by apply not_elem_of_nil in He.
  - intros E. rewrite E in Hs. destruct Hs as [a Ea]. rewrite Ea in Hr. by destruct Hr.
  - intros -> v. clear. unfold job_vault, ensure_job_tenant, ensure_main_tenant, resolve_job_vault. cbn [negb].
    intros H. repeat case_match; simplify_eq; try done;
      match goal with H : String.eqb ?a ?b = true |- _ => by apply String.eqb_eq in H end.
Qed.

(** ** Dry runs *)

Abbreviation quiet p := (always (λ c, mutates c = false) (λ _, True) p).

Lemma quiet_runs {A} (p : prog A) t a : quiet p → runs p t a → Forall (λ e, mutates (ev_call e) = false) t.
Proof. intros Hp Hr. by destruct (always_runs _ _ p t a Hp Hr). Qed.

Lemma partition_quiet v raw el ex : quiet (partition_loop v raw el ex).
Proof. revert el ex. induction raw as [|c raw IH]; intros el ex; [done|]. cbn [partition_loop]. stay; apply IH. Qed.
Lemma list_statuses_quiet v ss all : quiet (list_statuses v ss all).
Proof. revert all. induction ss as [|s ss IH]; intros all; [done|]. cbn [list_statuses]. stay; apply IH. Qed.
Lemma collect_quiet v limit raw acc : quiet (collect_loop v limit raw acc).
Proof. revert acc. induction raw as [|c raw IH]; intros acc; [done|]. cbn [collect_loop]. stay; apply IH. Qed.
Lemma join_tasks_quiet fuel v src fl acc : quiet (join_tasks fuel v src fl acc).
Proof.
  revert fl acc. induction fuel as [|fuel IH]; intros fl acc; [by destruct fl|].
  destruct fl as [|t fl]; [done|]. unfold join_tasks; fold join_tasks. unfold lookup_target. stay; apply IH.
Qed.
Lemma process_quiet self note : quiet (process_traced self note).
Proof. unfold process_traced. cbn zeta. destruct (heuristic_route _ _). stay. Qed.

(** A job in another mode. *)
Definition with_mode (m : JobMode) (job : JobRecord) : JobRecord :=
  mkJobRecord (id job)
    (mkJobSpec (kind (spec job)) (class (spec job)) m (scope (spec job)) (priority (spec job)))
    (scheduling job) (Job.lifecycle job) (retry job) (lineage job).

(** C29: a job in dry-run mode changes nothing: whatever the services answer, its handler
    makes no call that writes, deletes or enqueues.  The exception is the validation of a
    synthesis, whose handler does not look at the mode: it does the same as without it. *)
Theorem dry_run_changes_nothing curator mt job t r :
  is_dry_run job = true → runs (handle curator mt job) t r →
  match kind (spec job) with
  | Validate _ => ∀ m, runs (handle curator mt (with_mode m job)) t r
  | _ => Forall (λ e, mutates (ev_call e) = false) t
  end.
Proof.
  intros Hd Hr. unfold handle in Hr.
  destruct (kind (spec job)) as [| | |ds| |ps|m| |vs| | |cs|fs| | | | | | | | |es| | |rs] eqn:Ek;
    try (eapply quiet_runs; [|exact Hr]; done).
  - eapply quiet_runs; [|exact Hr]. unfold handle_distill. rewrite Ek, Hd. unfold guard, resolve_distill_scope.
    stay; try apply list_statuses_quiet; try apply collect_quiet.
  - eapply quiet_runs; [|exact Hr]. unfold handle_purge. rewrite Ek, Hd. cbn [orb]. unfold guard. stay.
  - eapply quiet_runs; [|exact Hr]. unfold handle_reindex. by rewrite Ek, Hd.
  - intros m. unfold handle, handle_validate in *. cbn [kind spec with_mode]. by rewrite Ek in *.
  - eapply quiet_runs; [|exact Hr]. unfold handle_curate. by rewrite Hd.
  - eapply quiet_runs; [|exact Hr]. unfold handle_forget. rewrite Ek, Hd. cbn [orb]. unfold guard, forget_candidates.
    stay; apply partition_quiet.
  - eapply quiet_runs; [|exact Hr]. unfold handle_embed. by rewrite Hd.
  - eapply quiet_runs; [|exact Hr]. unfold handle_privacy_rescan. by rewrite Hd.
Qed.

(** ** Purge *)

(** The note an event deleted. *)
Definition deleted_by (e : event) : option string :=
  match ev_call e as c return answer_of c → option string with
  | DeleteNote _ u => λ x, match x with Ok _ => Some u | Err _ => None end
  | _ => λ _, None
  end (ev_answer e).

(** Every deletion of [t] comes right after the note was seen to be garbage. *)
Definition deletes_after_check (v : string) (ids : list string) (t : list event) : Prop :=
  ∀ t1 t2 w u x, t = t1 ++ mkEvent (DeleteNote w u) x :: t2 →
    w = v ∧ u ∈ ids ∧ ∃ t0, t1 = t0 ++ [mkEvent (GetNoteStatus v u) (Ok (Some "garbage"%string))].

Lemma deletes_after_check_app v ids t t' :
  deletes_after_check v ids t → deletes_after_check v ids t' → deletes_after_check v ids (t ++ t').
Proof.
  intros Ht Ht' t1 t2 w u x E. apply app_eq_app in E as (l & [[E1 E2]|[E1 E2]]).
  - destruct l as [|e l].
    + destruct (Ht' [] t2 w u x) as (_ & _ & t0 & Hn); [done|]. by destruct t0.
    + simplify_eq/=. by apply (Ht t1 l w u x).
  - destruct (Ht' l t2 w u x E2) as (-> & Hu & t0 & ->). split_and!; [done..|]. exists (t ++ t0).
    by rewrite E1, (assoc_L (++)).
Qed.

Lemma purge_notes_spec v ids cands del sk t del' sk' :
  (∀ c, c ∈ cands → ni_note_id c ∈ ids) →
  runs (purge_notes_loop v cands del sk) t (del', sk') →
  deletes_after_check v ids t ∧ del' = del ++ omap deleted_by t ∧
  (length del' + sk' = length del + sk + length cands)%nat.
Proof.
  assert (deletes_after_check v ids []) as Hnil by (intros [] ? ? ? ?; done).
  assert (∀ u x, deletes_after_check v ids [mkEvent (GetNoteStatus v u) x]) as Hst.
  { intros u x [|? [|]] t2 w u' y; cbn; intros [=]. }
  revert del sk t. induction cands as [|c cands IH]; intros del sk t Hids; cbn [purge_notes_loop].
  { intros [-> [= -> ->]]. cbn. rewrite app_nil_r. split_and!; [done..|lia]. }
  assert (∀ c, c ∈ cands → ni_note_id c ∈ ids) as Hids' by (intros; apply Hids; by right).
  cbn [prog_bind ask runs]. intros (st & t1 & -> & Hr).
  assert (runs (purge_notes_loop v cands del (S sk)) t1 (del', sk') →
    deletes_after_check v ids (mkEvent (GetNoteStatus v (ni_note_id c)) st :: t1)
    ∧ del' = del ++ omap deleted_by (mkEvent (GetNoteStatus v (ni_note_id c)) st :: t1)
    ∧ (length del' + sk' = length del + sk + length (c :: cands))%nat) as Hskip.
  { intros (H1 & H2 & H3)%IH; [|done]. split_and!; [|done|cbn; lia].
    by apply (deletes_after_check_app v ids [_] t1). }
  destruct st as [[s|]|e]; [|by apply Hskip..].
  destruct (String.eqb_spec s "garbage") as [->|]; [|by apply Hskip].
  cbn [prog_bind ask runs] in Hr. destruct Hr as (x & t2 & -> & Hr).
  assert (deletes_after_check v ids [mkEvent (GetNoteStatus v (ni_note_id c)) (Ok (Some "garbage"%string));
                                     mkEvent (DeleteNote v (ni_note_id c)) x]) as Hpair.
  { intros [|e0 [|e1 [|]]] t3 w u y; cbn; intros [=]; subst. split_and!; [done|apply Hids; by left|]. by exists []. }
  destruct x as [[]|e]; apply IH in Hr as (H1 & -> & H3); try done;
    (split_and!; [by apply (deletes_after_check_app v ids [_; _] t2)|cbn; by rewrite <- ?(assoc_L (++))|]).
  - rewrite !length_app in *. cbn in *. lia.
  - cbn. lia.
Qed.

(** C10: a purge deletes only garbage.  Whatever the server answers and whoever else works on
    it, every deletion of a purge names the vault of the job and a note of its listing, comes
    immediately after that note's status was read there as garbage, and is made only when
    neither the job nor its specification asked for a dry run; the report counts the
    deletions that succeeded, and every note listed is counted once. *)
Theorem purge_deletes_only_garbage mt job t r :
  runs (handle_purge mt job) t r →
  (∀ t1 t2 v u x, t = t1 ++ mkEvent (DeleteNote v u) x :: t2 →
     (∃ ps, kind (spec job) = Purge ps ∧ is_dry_run job = false ∧ pu_dry_run ps = false) ∧
     resolve_job_vault (scope (spec job)) mt = Ok v ∧
     (∃ cutoff grace rows, mkEvent (ListGarbage v cutoff grace) (Ok rows) ∈ t1 ∧ u ∈ ni_note_id <$> rows) ∧
     ∃ t0, t1 = t0 ++ [mkEvent (GetNoteStatus v u) (Ok (Some "garbage"%string))]) ∧
  (∀ out d s, r = Ok out → result_note out = PurgeReport d s →
     d = length (omap deleted_by t) ∧
     ∃ v cutoff grace rows, mkEvent (ListGarbage v cutoff grace) (Ok rows) ∈ t ∧ (d + s = length rows)%nat).
Proof.
  unfold handle_purge. destruct (kind (spec job)) as [| | | | |ps|m| |vs| | |cs|fs| | | | | | | | |es| | |rs];
    try (intros [-> ->]; split; [by intros [] ? ? ? ?|done]).
  destruct (resolve_job_vault _ _) as [v|e] eqn:Ev; cbn [guard]; [|intros [-> ->]; split; [by intros [] ? ? ? ?|done]].
  intros (tc & t0 & cutoff & -> & Hc & H)%runs_bind. cbn [prog_bind ask runs] in H.
  destruct H as (lst & t1 & -> & H).
  assert (deletes_after_check v [] tc ∧ omap deleted_by tc = []) as [Htc Hd].
  { destruct (pu_grace_days ps); cbn in Hc; [destruct Hc as (? & ? & -> & -> & _)|destruct Hc as [-> _]];
      (split; [|done]); [intros [|? [|]] ? ? ? ?; by intros [=]|by intros [] ? ? ? ?]. }
  assert (∀ x, deletes_after_check v [] (tc ++ [mkEvent (ListGarbage v cutoff (default 0 (pu_grace_days ps))) x])) as Hhead.
  { intros x. apply deletes_after_check_app; [done|]. intros [|? [|]] ? ? ? ?; by intros [=]. }
  assert (∀ x t1 t2 w u y, tc ++ [mkEvent (ListGarbage v cutoff (default 0 (pu_grace_days ps))) x]
            = t1 ++ mkEvent (DeleteNote w u) y :: t2 → False) as Hno.
  { intros x a b w u y E. destruct (Hhead x a b w u y E) as (_ & Hu & _). by apply not_elem_of_nil in Hu. }
  destruct lst as [rows|e].
  2: { destruct H as [-> ->]. split; [|done]. intros. by exfalso; eapply Hno. }
  destruct (is_dry_run job || pu_dry_run ps) eqn:Edry.
  { destruct H as [-> ->]. split; [|by intros ? ? ? [= <-]]. intros. by exfalso; eapply Hno. }
  apply orb_false_iff in Edry as [Edry Eps].
  apply runs_bind in H as (t2 & ? & [del sk] & -> & Hl & -> & ->). rewrite app_nil_r.
  apply (purge_notes_spec v (ni_note_id <$> rows)) in Hl as (Hdel & -> & Hlen);
    [|intros c Hcand; by apply list_elem_of_fmap_2].
  set (le := mkEvent (ListGarbage _ _ _) _) in *.
  assert (le ∈ tc ++ le :: t2) as Hin by (apply elem_of_app; right; by left).
  split.
  - intros a b w u y E. change (tc ++ le :: t2) with (tc ++ [le] ++ t2) in E. rewrite (assoc_L (++)) in E.
    apply app_eq_app in E as (l & [[E1 E2]|[E1 E2]]).
    + destruct l as [|e l]; [|simplify_eq/=; by exfalso; eapply Hno].
      exfalso. destruct (Hdel [] b w u y) as (_ & _ & t0 & Hn); [done|]. by destruct t0.
    + destruct (Hdel l b w u y E2) as (-> & Hu & t0 & ->). split_and!; [by exists ps|done| |].
      * exists cutoff, (default 0 (pu_grace_days ps)), rows. split; [|done]. rewrite E1. subst le. set_solver.
      * exists ((tc ++ [le]) ++ t0). by rewrite E1, (assoc_L (++)).
  - intros out d s [= <-] [= <- <-]. cbn [fst snd] in *. split.
    + rewrite omap_app, Hd. done.
    + exists v, cutoff, (default 0 (pu_grace_days ps)), rows. split; [done|]. cbn in Hlen. lia.
Qed.

(** ** Forgetting *)

(** The server showed the note, and not as a protected one. *)
Definition shown_forgettable (x : result NoteReadDto InternalClientError) : bool :=
  match x with
  | Ok dto => negb (is_forget_protected (text_of (nr_section dto)) (text_of (default EmptyString (nr_title dto))))
  | Err _ => false
  end.
Definition read_event (v : string) (ux : string * result NoteReadDto InternalClientError) : event :=
  mkEvent (GetNote v ux.1) ux.2.

(** The listing of a scope: the notes that match it in vault [v], at most 200 for a topic. *)
Definition lists_scope (v : string) (scope : ForgetScope) (rows : list NoteIdDto) (e : event) : Prop :=
  match scope with
  | ForgetTopic query _ _ => ∃ limit, limit ≤ 200 ∧ e = mkEvent (SearchForget v query limit) (Ok rows)
  | ForgetLocus _ locus => e = mkEvent (ListByLocus v locus) (Ok rows)
  | ForgetAgent agent_id _ => e = mkEvent (ListByAgent agent_id [v]) (Ok rows)
  end.

Lemma forget_candidates_spec v scope t rows :
  runs (forget_candidates v scope) t (Ok rows) → ∃ e, t = [e] ∧ lists_scope v scope rows e.
Proof.
  destruct scope; cbn; intros (x & t' & -> & -> & <-); eexists; (split; [done|]); try done.
  eexists. split; [|done]. lia.
Qed.

(** One read per listed note, in their order; those shown as forgettable are kept. *)
Lemma partition_spec v raw el ex t el' ex' :
  runs (partition_loop v raw el ex) t (el', ex') →
  ∃ reads, reads.*1 = raw ∧ t = read_event v <$> reads
           ∧ el' = el ++ (List.filter (λ ux, shown_forgettable ux.2) reads).*1.
Proof.
  revert el ex t. induction raw as [|u raw IH]; intros el ex t; cbn [partition_loop].
  { intros [-> [= -> ->]]. exists []. by rewrite app_nil_r. }
  cbn [prog_bind ask runs]. intros (x & t' & -> & H).
  assert (read_protected x = negb (shown_forgettable x)) as E.
  { unfold read_protected, shown_forgettable. destruct x; [by rewrite negb_involutive|done]. }
  rewrite E in H. destruct (shown_forgettable x) eqn:Ex; cbn [negb] in H;
    apply IH in H as (reads & <- & -> & ->); exists ((u, x) :: reads); cbn [List.filter fmap list_fmap fst snd];
    rewrite Ex; (split_and!; [done|done|]); [|done].
  cbn. by rewrite <- (assoc_L (++)).
Qed.

(** What a forgetting may change, given the notes it was left with. *)
Definition forgets (v : string) (by_ : option string) (ids : list string) (t : list event) (e : event) : Prop :=
  ∃ u, u ∈ ids ∧
    (ev_call e = ResyncForget v u ∨
     ∃ section dto, ev_call e = PersistForget (mkPersistForget u v EmptyString section by_)
                    ∧ mkEvent (GetNote v u) (Ok dto) ∈ t ∧ nr_forgotten dto = false).

Lemma forgets_mono v by_ ids ids' t t' e :
  (∀ u, u ∈ ids → u ∈ ids') → (∀ e', e' ∈ t → e' ∈ t') → forgets v by_ ids t e → forgets v by_ ids' t' e.
Proof. intros Hi Ht (u & Hu & [H|(s & d & H & Hd & Hf)]); exists u; (split; [by apply Hi|]); [by left|right]. exists s, d. auto. Qed.

Lemma forget_loop_spec v by_ el fg sk t res :
  runs (forget_loop v by_ el fg sk) t res →
  ∀ e, e ∈ t → mutates (ev_call e) = true → forgets v by_ el t e.
Proof.
  revert fg sk t. induction el as [|u el IH]; intros fg sk t; cbn [forget_loop].
  { intros [-> _] e He. by apply not_elem_of_nil in He. }
  assert (∀ fg sk t0 t', runs (forget_loop v by_ el fg sk) t' res → (∀ e, e ∈ t' → e ∈ t0) →
    ∀ e, e ∈ t' → mutates (ev_call e) = true → forgets v by_ (u :: el) t0 e) as Hrest.
  { intros fg' sk' t0 t' Hr Ht e He Hm. eapply forgets_mono; [| |by eapply IH]; [by right|done]. }
  destruct (ulid_from_string u) as [raw|]; [|by intros H e He; eapply Hrest].
  cbn [prog_bind ask runs]. intros (x & t1 & -> & H).
  assert (∀ e, e ∈ mkEvent (GetNote v u) x :: t1 → mutates (ev_call e) = true → e ∈ t1) as Hread.
  { intros e [->|He]%elem_of_cons; [done|done]. }
  assert (∀ y t', (∀ e, e ∈ t' → e ∈ mkEvent (GetNote v u) x :: y :: t')) as Hsub by (intros; by do 2 right).
  destruct x as [dto|err]; [|intros e He Hm; apply (Hrest _ _ _ t1 H); [by right|by apply Hread|done]].
  destruct (nr_forgotten dto) eqn:Ef; cbn [prog_bind ask runs] in H; destruct H as (y & t2 & -> & H).
  { intros e He Hm. apply Hread in He as [->|He]%elem_of_cons; [|by eapply Hrest; eauto|done].
    exists u. split; [by left|by left]. }
  assert (∀ e, e ∈ mkEvent (GetNote v u) y :: t2 → mutates (ev_call e) = true → e ∈ t2) as Hread2.
  { intros e [->|He]%elem_of_cons; [done|done]. }
  destruct y as [dto2|err]; [|intros e He Hm; apply Hread in He; [|done]; apply Hread2 in He; [|done]; by eapply Hrest; eauto].
  cbn [prog_bind ask runs] in H. destruct H as (z & t3 & -> & H).
  intros e He Hm. apply Hread in He; [|done]. apply Hread2 in He; [|done].
  apply elem_of_cons in He as [->|He].
  - exists u. split; [by left|]. right. exists (nr_section dto2), dto. split_and!; [done|by left|done].
  - destruct z; (eapply Hrest; [exact H| |done..]); intros; by do 3 right.
Qed.

(** C11: a forgetting touches only what was confirmed.  Whatever the server answers, a run
    that changes anything is a real one, on the vault of the job; it begins with the listing
    of its scope and one read of each listed note, and the confirmed identifiers are, up to
    their order, exactly the listed ones whose read showed a note that is not protected
    (a note that cannot be read counts as protected); every change comes after those reads and is
    to a confirmed note; a note already forgotten is only marked again in the index, so its
    first forgetting keeps its trace. *)
Theorem forget_only_confirmed mt job t r e :
  runs (handle_forget mt job) t r → e ∈ t → mutates (ev_call e) = true →
  ∃ fs v listing rows reads rest,
    kind (spec job) = Forget fs ∧ is_dry_run job = false ∧ fs_dry_run fs = false
    ∧ resolve_job_vault (scope (spec job)) mt = Ok v
    ∧ t = listing :: (read_event v <$> reads) ++ rest
    ∧ lists_scope v (fs_scope fs) rows listing
    ∧ reads.*1 = (ni_note_id <$> rows)
    ∧ fs_confirm_ulids fs ≡ₚ (List.filter (λ ux, shown_forgettable ux.2) reads).*1
    ∧ e ∈ rest
    ∧ forgets v (fs_forgotten_by fs) (fs_confirm_ulids fs) rest e.
Proof.
  unfold handle_forget. destruct (kind (spec job)) as [| | | | |ps|m| |vs| | |cs|fs| | | | | | | | |es| | |rs];
    try (by intros [-> _] ?%not_elem_of_nil).
  destruct (resolve_job_vault _ _) as [v|?]; cbn [guard]; [|by intros [-> _] ?%not_elem_of_nil].
  unfold guard. destruct (ensure_forget_scope_vault _ _); [|by intros [-> _] ?%not_elem_of_nil].
  intros (t1 & t2 & raw & -> & H1 & H2)%runs_bind He Hm.
  assert (∀ t0 : list event, Forall (λ e, mutates (ev_call e) = false) t0 → e ∉ t0) as Hq.
  { intros t0 Hf Hin. rewrite Forall_forall in Hf. specialize (Hf e Hin). congruence. }
  assert (Forall (λ e, mutates (ev_call e) = false) t1) as Ht1.
  { eapply quiet_runs; [|exact H1]. unfold forget_candidates. stay. }
  apply elem_of_app in He as [He|He]; [by destruct (Hq t1)|].
  destruct raw as [raw|err]; [|destruct H2 as [-> _]; by apply not_elem_of_nil in He].
  apply runs_bind in H2 as (t3 & t4 & [eligible excluded] & -> & H3 & H4).
  assert (Forall (λ e, mutates (ev_call e) = false) t3) as Ht3.
  { eapply quiet_runs; [apply partition_quiet|exact H3]. }
  apply elem_of_app in He as [He|He]; [by destruct (Hq t3)|].
  destruct (is_dry_run job || fs_dry_run fs) eqn:Ed; [destruct H4 as [-> _]; by apply not_elem_of_nil in He|].
  apply orb_false_iff in Ed as [Ed1 Ed2].
  case_bool_decide as Ec; [|destruct H4 as [-> _]; by apply not_elem_of_nil in He].
  apply runs_bind in H4 as (t5 & t6 & [fg sk] & -> & H5 & -> & _). rewrite app_nil_r in He |- *.
  assert (eligible ≡ₚ fs_confirm_ulids fs) as Hp.
  { unfold sorted_texts in Ec. rewrite <- (sort_by_Permutation String.compare eligible), Ec. apply sort_by_Permutation. }
  apply partition_spec in H3 as (reads & Hr & -> & ->). cbn [app] in *.
  apply forget_candidates_spec in H1 as (listing & -> & Hl).
  exists fs, v, listing, raw, reads, t5. split_and!; try done.
  eapply forgets_mono; [| |by eapply forget_loop_spec]; [intros u; by rewrite Hp|done].
Qed.

(** ** Curation *)

(** The server said whether the target exists. *)
Definition definitive (tenant : string) (target : ustr) (e : event) : Prop :=
  match parse_ulid_target target with
  | Some u => ∃ x, e = mkEvent (IdLookup tenant (ulid_to_string u)) (Some (Ok x))
  | None => ∃ x, e = mkEvent (TitleLookup tenant (native target)) (Some (Ok x))
  end.

Lemma lookup_definitive tenant target t x :
  runs (lookup_target tenant target) t (Some (Ok x)) → ∃ e, t = [e] ∧ definitive tenant target e.
Proof.
  unfold lookup_target, definitive. destruct (parse_ulid_target target) as [u|]; cbn;
    intros (y & ? & -> & -> & <-); eexists; (split; [done|by eexists]).
Qed.

Lemma join_tasks_complete fuel tenant src fl acc t res :
  runs (join_tasks fuel tenant src fl acc) t res → (length fl ≤ fuel)%nat → rl_complete res = true →
  rl_complete acc = true ∧ ∀ target, target ∈ fl → ∃ e, e ∈ t ∧ definitive tenant target e.
Proof.
  revert fl acc t. induction fuel as [|fuel IH]; intros fl acc t Hr Hl Hc.
  { destruct fl; [|cbn in Hl; lia]. destruct Hr as [-> ->]. split; [done|]. by intros ? ?%not_elem_of_nil. }
  destruct fl as [|t0 fl]; [destruct Hr as [-> ->]; split; [done|]; by intros ? ?%not_elem_of_nil|].
  cbn [join_tasks] in Hr. set (l := t0 :: fl) in *. cbn [prog_bind ask runs] in Hr.
  destruct Hr as (pick & t1 & -> & Hr). set (i := (pick `mod` length l)%nat) in *.
  assert (i < length l)%nat as Hi by (apply Nat.mod_upper_bound; done).
  destruct (lookup_lt_is_Some_2 l i Hi) as [target Ht]. rewrite Ht in Hr.
  apply runs_bind in Hr as (t2 & t3 & x & -> & Hx & Hr).
  pose proof (delete_Permutation l i target Ht) as Hperm.
  apply IH in Hr as [Ha Hall]; [|apply Permutation_length in Hperm; cbn in *; lia|done].
  assert (rl_complete acc = true ∧ ∃ y, x = Some (Ok y)) as [Hacc [y ->]].
  { destruct x as [[[dst|]|]|]; cbn in Ha; try done; split; eauto. }
  split; [done|]. intros w Hw. rewrite Hperm in Hw. apply elem_of_cons in Hw as [->|Hw].
  - apply lookup_definitive in Hx as (e & -> & He). exists e. split; [set_solver|done].
  - destruct (Hall w Hw) as (e & ? & ?). exists e. split; [set_solver|done].
Qed.

(** The events of [t] that change something. *)
Definition changes (t : list event) : list event := List.filter (λ e, mutates (ev_call e)) t.
Lemma changes_app t t' : changes (t ++ t') = changes t ++ changes t'.
Proof. apply List.filter_app. Qed.
Lemma changes_quiet {A} (p : prog A) t a : quiet p → runs p t a → changes t = [].
Proof.
  intros Hp Hr. pose proof (quiet_runs p t a Hp Hr) as Hf. clear Hr.
  induction Hf as [|e t He _ IH]; [done|]. unfold changes in *. cbn. by rewrite He.
Qed.

(** What a curation does with its one request. *)
Definition settled (job : JobRecord) (cs : CurateSpec) (req : PersistCuratedRequest) (ch : list event)
    (r : result JobOutput HandlerError) : Prop :=
  (∃ embed x, ch = [mkEvent (PersistCurated req) (Ok tt); mkEvent (Enqueue embed) x]
     ∧ kind (spec embed) = Embed (mkEmbedSpec (cs_note_id cs) (cs_tenant_id cs) false)
     ∧ r = Ok (mkOutput [cs_note_id cs] [] (CurateReport (Some (cs_note_id cs)))))
  ∨ (∃ current payload duration x,
       ch = [mkEvent (PersistCurated req) (Err (ClientConflict current)); mkEvent (MarkConflict (id job) payload duration) x]
       ∧ wc_current_sha256 payload = default EmptyString current
       ∧ wc_attempted_sha256 payload = pc_expected_sha256 req ∧ 0 ≤ duration < u32_modulus
       ∧ r = Ok (output (ConflictReport current)))
  ∨ (∃ e, ch = [mkEvent (PersistCurated req) (Err e)] ∧ r = Err (Business (ClientFailed PersistStep e))).

Lemma persist_curated_settles job cs req t r :
  runs (persist_curated job cs req) t r → settled job cs req (changes t) r.
Proof.
  unfold persist_curated. cbn [prog_bind ask runs]. intros (x & t1 & -> & H). destruct x as [[]|e].
  - unfold chain_embed, build_embed_job_record in H. cbn [prog_bind ask runs] in H.
    destruct H as (now & t2 & -> & u & t3 & -> & y & t4 & -> & -> & ->). left. eexists _, y. split_and!; done.
  - destruct e as [|current| |]; try (destruct H as [-> ->]; right; right; by eexists).
    apply runs_bind in H as (t2 & t3 & out & -> & H & -> & ->). rewrite app_nil_r.
    unfold on_conflict in H. apply runs_bind in H as (t4 & t5 & dur & -> & Hd & H). cbn [prog_bind ask runs] in H.
    destruct H as (ts & t6 & -> & y & t7 & -> & -> & ->). right. left.
    assert (changes t4 = [] ∧ 0 ≤ dur < u32_modulus) as [Hc Hb].
    { destruct (started_at _); cbn in Hd.
      - destruct Hd as (now & t8 & -> & -> & ->). split; [done|]. unfold u32_modulus. lia.
      - destruct Hd as [-> ->]. split; [done|]. unfold u32_modulus. lia. }
    eexists current, _, dur, y. split_and!; [|done|done|lia|lia|done].
    change (mkEvent (PersistCurated req) (Err (ClientConflict current)) :: t4 ++ ?rest)
      with ([mkEvent (PersistCurated req) (Err (ClientConflict current))] ++ t4 ++ rest).
    rewrite !changes_app, Hc. done.
Qed.

(** The links of [body] were all decided in [t]. *)
Definition links_decided (tenant : string) (body : ustr) (t : list event) : Prop :=
  ∀ target, target ∈ extract_wikilinks body → reserved_node_target target = None →
    ∃ e, e ∈ t ∧ definitive tenant target e.

Lemma resolve_links_decided tenant src body t res :
  runs (resolve_wikilinks_via_client tenant src body) t res → rl_complete res = true → links_decided tenant body t.
Proof.
  intros Hr Hc target Ht Hn. eapply join_tasks_complete in Hr as [_ H]; [|done..].
  apply H. by apply list_elem_of_filter.
Qed.

Lemma curate_note_settles curator job cs existing note t r :
  (∀ n, quiet (curator n)) → runs (curate_note curator job cs existing note) t r →
  changes t = [] ∨
  ∃ d status temporal links decision,
    (status = Live ∨ status = PendingReview)
    ∧ settled job cs (curated_request cs existing (cn_title note) d status temporal links decision) (changes t) r
    ∧ (rl_complete links = true → links_decided (cs_tenant_id cs) (text_of (curated_body cs existing)) t).
Proof.
  intros Hcur. unfold curate_note. intros (t1 & t2 & [outcome path] & -> & H1 & H2)%runs_bind.
  pose proof (changes_quiet _ _ _ (Hcur _) H1) as Hc1. rewrite changes_app, Hc1. cbn [app].
  assert (∀ d status temporal t3 t4 links,
    runs (resolve_wikilinks_via_client (cs_tenant_id cs) (ulid_to_string (cs_note_id cs))
            (text_of (curated_body cs existing))) t3 links →
    ∀ req, req = curated_request cs existing (cn_title note) d status temporal links
                   (CurationPath_as_str path, outcome_label outcome) →
    runs (persist_curated job cs req) t4 r → (status = Live ∨ status = PendingReview) →
    ∀ t0 t', changes t0 = [] → (∀ e, e ∈ t3 → e ∈ t') →
    ∃ d status temporal links decision, (status = Live ∨ status = PendingReview)
      ∧ settled job cs (curated_request cs existing (cn_title note) d status temporal links decision)
          (changes (t0 ++ t3 ++ t4)) r
      ∧ (rl_complete links = true → links_decided (cs_tenant_id cs) (text_of (curated_body cs existing)) t')) as Hgo.
  { intros d status temporal t3 t4 links Hl req -> Hp Hs t0 t' Ht0 Hsub.
    exists d, status, temporal, links, (CurationPath_as_str path, outcome_label outcome). split_and!; [done| |].
    - rewrite !changes_app, Ht0, (changes_quiet _ _ _ (join_tasks_quiet _ _ _ _ _) Hl). cbn [app].
      by apply persist_curated_settles.
    - intros Hc target Ht Hn. destruct (resolve_links_decided _ _ _ _ _ Hl Hc target Ht Hn) as (e & ? & ?).
      exists e. auto. }
  destruct outcome as [d| |d reason].
  - apply runs_bind in H2 as (ta & t3 & anchor & -> & Ha & H3).
    apply runs_bind in H3 as (tl & tp & links & -> & Hl & Hp).
    assert (changes ta = []) as Hta.
    { eapply changes_quiet; [|exact Ha]. unfold curated_anchor. stay. }
    right. eapply Hgo; [exact Hl|reflexivity|exact Hp|by left|done|set_solver].
  - destruct H2 as [-> ->]. by left.
  - apply runs_bind in H2 as (tl & tp & links & -> & Hl & Hp).
    right. apply (Hgo d PendingReview None tl tp links Hl _ eq_refl Hp (or_intror eq_refl) []); [done|set_solver].
Qed.

(** The one request of a curation; [source] says what it was made from. *)
Definition requested (job : JobRecord) (cs : CurateSpec) (source : PersistCuratedRequest → Prop)
    (t : list event) (r : result JobOutput HandlerError) : Prop :=
  ∃ req, settled job cs req (changes t) r
    ∧ pc_note_id req = ulid_to_string (cs_note_id cs) ∧ pc_tenant_id req = cs_tenant_id cs
    ∧ (pc_status req = "live" ∨ pc_status req = "pending-review")%string
    ∧ source req
    ∧ (pc_links_authoritative req = true → links_decided (cs_tenant_id cs) (text_of (pc_body req)) t).

Lemma curate_note_requested curator job cs existing note t r :
  (∀ n, quiet (curator n)) → runs (curate_note curator job cs existing note) t r → changes t ≠ [] →
  requested job cs (λ req, pc_body req = curated_body cs existing
    ∧ pc_expected_sha256 req = match existing with Some _ => None | None => hex <$> cs_expected_sha256 cs end) t r.
Proof.
  intros Hcur Hr Hne.
  apply curate_note_settles in Hr as [Hc|(d & st & tp & links & dec & Hs & Hset & Hl)]; [done| |done].
  eexists. split; [exact Hset|]. destruct existing; (split_and!; try done);
    destruct Hs as [-> | ->]; [by left|by right|by left|by right].
Qed.

(** A read before it, and a weaker account of its source. *)
Lemma requested_after job cs (source source' : PersistCuratedRequest → Prop) e t r :
  mutates (ev_call e) = false → (∀ req, source req → source' req) →
  requested job cs source t r → requested job cs source' (e :: t) r.
Proof.
  intros He Hs (req & H1 & H2 & H3 & H4 & H5 & H6). exists req.
  assert (changes (e :: t) = changes t) as -> by (unfold changes; cbn; by rewrite He).
  split_and!; try done; [by apply Hs|]. intros Hc target Ht Hn.
  destruct (H6 Hc target Ht Hn) as (e' & ? & ?). exists e'. split; [by right|done].
Qed.

(** C25: a curation writes at most once, and tells the truth about it.  A run that changes
    anything made one request for the note and the tenant of the job, then enqueued the
    embedding of that note if the server took it, marked the job as in conflict with the
    hash it had tried if the server refused it, and nothing else; a new note carries the
    text and the expected hash of the job; a stored one is never an agent's soul, and its
    request carries the text that was read, without any expected hash (its section, tags and
    title are those of the curation, not those that were read); and the request claims
    authority over the links only if every link of its text was decided. *)
Theorem curate_writes_once curator mt job t r :
  (∀ n, quiet (curator n)) → runs (handle_curate curator mt job) t r → changes t ≠ [] →
  ∃ cs, kind (spec job) = Curate cs ∧ is_dry_run job = false ∧
    requested job cs (λ req,
      match cs_title cs, cs_body cs with
      | Some _, Some b => pc_body req = b ∧ pc_expected_sha256 req = hex <$> cs_expected_sha256 cs
      | _, _ => ∃ dto, mkEvent (GetNote (cs_tenant_id cs) (ulid_to_string (cs_note_id cs))) (Ok dto) ∈ t
                       ∧ nr_section dto ≠ "identity"%string
                       ∧ pc_body req = nr_body dto ∧ pc_expected_sha256 req = None
      end) t r.
Proof.
  intros Hcur. unfold handle_curate. destruct (is_dry_run job); [by intros [-> _]|].
  destruct (kind (spec job)) as [| | | | |ps|m| |vs| | |cs|fs| | | | | | | | |es| | |rs]; try (by intros [-> _]).
  unfold guard. destruct (ensure_job_tenant _ _); [|by intros [-> _]].
  intros Hr Hne. exists cs. split_and!; [done..|].
  destruct (cs_title cs) as [title|], (cs_body cs) as [b|] eqn:Eb.
  1: { destruct (curate_note_requested _ _ _ _ _ _ _ Hcur Hr Hne) as (req & H1 & H2 & H3 & H4 & [H5 H5'] & H6).
       exists req. split_and!; try done. cbn in H5. by rewrite H5, Eb. }
  all: cbn [prog_bind ask runs] in Hr; destruct Hr as (x & t1 & -> & H);
    destruct x as [dto|e]; [|by destruct H as [-> _]];
    destruct (String.eqb_spec (nr_section dto) "identity"); [by destruct H as [-> _]|];
    eapply requested_after; [done| |by eapply curate_note_requested];
    intros req [Hb Hsha]; exists dto; (split_and!; [by left|done..]).
Qed.
End properties.
