(* ===== verification/PersistServer.v ===== *)
(** * PersistServer: what the server does with the requests of the worker

    The handlers of [crates/gradatum-server/src/internal/persist.rs] that write a curated note,
    a synthesis or a forgetting, and the cascade behind every deletion of a note, on the vault
    of Vault.v; reads are those of a server without the multi-vault mode.  What the handlers write
    to the index themselves afterwards (titles, trust, dates, links, redirections) is left out.
    Together with the requests of the worker (Handlers.v) this shows what a curation, a
    distillation and a forgetting leave of a note. *)

From S2P Require Import Prelude Text Job PrivacyPass Scope Registry ProjectLinks ProjectServer Notes Markdown NoteStore Vault VaultWrite Float SearchServer Distill Calls Curator Handlers HandlerProps.
From Stdlib Require Import Ascii.

#[local] Open Scope nat_scope.

Inductive persist_error :=
| PersistBadUlid
| PersistBadSection
| PersistBadStatus
| PersistBadAuthor
| PersistBadSha
| PersistCrossVault
| PersistCodeVault
| PersistUnregistered
| PersistRegistryFailed
| PersistNotFound
| PersistForbidden
| PersistConflict (current_sha256 : N)
| PersistFailed (e : VaultError).

(** ** Parsing *)

Definition parse_section (s : string) : option NoteSection := from_canonical_str (text_of s).

Definition parse_status (s : string) : option NoteStatus :=
  if String.eqb s "draft" then Some Draft
  else if String.eqb s "live" then Some Live
  else if String.eqb s "pending-review" then Some PendingReview
  else if String.eqb s "archived" then Some Deprecated
  else None.

Definition parse_author_kind (kind : ustr) : option AuthorKind :=
  if bool_decide (kind = lit "human") then Some Human
  else if bool_decide (kind = lit "main-agent") then Some MainAgent
  else if bool_decide (kind = lit "sub-agent") then Some SubAgent
  else if bool_decide (kind = lit "system") then Some System
  else None.

Definition parse_author (s : ustr) : option AuthorRef :=
  if bool_decide (trim s = []) then None
  else match split_once [COLON] s with
       | Some (kind, id) => (λ k, mkAuthor k id None) <$> parse_author_kind kind
       | None => Some (mkAuthor MainAgent s None)
       end.

Definition parse_tags (tags : list string) : list ustr :=
  foldl (λ result t, match Tag_normalize (text_of t) with
                     | Some tag => if bool_decide (tag ∈ result) then result else result ++ [tag]
                     | None => result
                     end) [] tags.

(** [char::to_digit(16)], and the 32 bytes of a hash as one number. *)
Definition to_digit16 (c : ascii) : option N :=
  let n := N_of_ascii c in
  if ((48 <=? n) && (n <=? 57))%N then Some (n - 48)%N
  else if ((97 <=? n) && (n <=? 102))%N then Some (n - 87)%N
  else if ((65 <=? n) && (n <=? 70))%N then Some (n - 55)%N
  else None.
Fixpoint parse_hex_bytes (l : list ascii) (acc : N) : option N :=
  match l with
  | [] => Some acc
  | [_] => None
  | a :: b :: l => hi ← to_digit16 a; lo ← to_digit16 b; parse_hex_bytes l (acc * 256 + (hi * 16 + lo))%N
  end.
Definition parse_sha256_hex (hex : string) : option N :=
  if (String.length hex =? 64) then parse_hex_bytes (String.list_ascii_of_string hex) 0 else None.

Definition hash_number (h : list Byte.byte) : N := foldl (λ n b, n * 256 + Byte.to_N b)%N 0%N h.

Lemma hex_byte b :
  to_digit16 (hex_digit (Byte.to_N b / 16)) = Some (Byte.to_N b / 16)%N
  ∧ to_digit16 (hex_digit (Byte.to_N b `mod` 16)) = Some (Byte.to_N b `mod` 16)%N.
Proof. by destruct b. Qed.

(** The hash that the worker prints is the one the server reads. *)
Lemma hex_read_back h : length h = 32 → parse_sha256_hex (hex h) = Some (hash_number h).
Proof.
  intros Hl. unfold parse_sha256_hex, hex, hash_number.
  set (digits := h ≫= _). assert (length digits = 2 * length h) as Hd.
  { subst digits. clear Hl. induction h as [|b h IH]; [done|]. cbn. rewrite IH. lia. }
  rewrite <- (String.list_ascii_of_string_of_list_ascii digits) in Hd at 1.
  assert (∀ s, String.length s = length (String.list_ascii_of_string s)) as Hs.
  { induction s as [|c s IH]; cbn; [done|]. by rewrite IH. }
  rewrite Hs, Hd, Hl. cbn [Nat.eqb Nat.mul Nat.add]. rewrite String.list_ascii_of_string_of_list_ascii.
  subst digits. clear. generalize 0%N. induction h as [|b h IH]; intros acc; [done|].
  change (parse_hex_bytes (hex_digit (Byte.to_N b / 16) :: hex_digit (Byte.to_N b `mod` 16)
            :: (h ≫= λ b, [hex_digit (Byte.to_N b / 16)%N; hex_digit (Byte.to_N b `mod` 16)%N])) acc
          = Some (foldl (λ n b, n * 256 + Byte.to_N b)%N (acc * 256 + Byte.to_N b)%N h)).
  cbn [parse_hex_bytes]. destruct (hex_byte b) as [-> ->]. cbn [mbind option_bind].
  rewrite IH. do 3 f_equal. rewrite (N.div_mod (Byte.to_N b) 16) at 3 by done. lia.
Qed.

(** ** Guards *)

Definition resolve_write_namespace (principal : string) (target : option string) : result string persist_error :=
  match target with
  | Some t => if String.eqb t principal then Ok principal else Err PersistCrossVault
  | None => Ok principal
  end.

Section server.
Context {St : Type} {IS : IndexStore St}.

Definition require_registered_data_vault (state : St) (vault : string) : result unit persist_error :=
  if String.prefix CODE_VAULT_PREFIX vault then Err PersistCodeVault
  else match store_get_tenant_status state vault with
       | Ok (Some _) => Ok tt
       | Ok None => Err PersistUnregistered
       | Err _ => Err PersistRegistryFailed
       end.

Context {UC : UlidCodec} {UP : UlidParser} {CP : ChronoParse} {EI : EmbedderInfo}.
Context {UN : UnicodeTables} {CT : CaseTables} {LM : Libm} {SJ : SectionJson} {RX : Regex}.
Context {D : Disk} {CH : ContentHasher} {Y : Yaml} {FD : FileDigest}
        {PS : PrivacyStage} {VC : VaultConfig}.

Definition parse_ulid (s : string) : option Ulid := ulid_from_string s.
Definition id_text (u : Ulid) : ustr := text_of (ulid_to_string u).

(** ** [handle_persist_curated], as far as the vault *)

(** A curated note is written with a frontmatter of its own, whatever was there before. *)
Definition curated_frontmatter (write_vault : string) (section : NoteSection) (status : NoteStatus)
    (author : option AuthorRef) (req : PersistCuratedRequest) (now : DateTime) : Frontmatter :=
  mkFrontmatter 1 (text_of write_vault) None section status None None (parse_tags (pc_tags req)) author
    now None None (text_of <$> pc_provenance req) None None None.

(** An author that is given must be one. *)
Definition request_author (a : option string) : result (option AuthorRef) persist_error :=
  match a with
  | None => Ok None
  | Some s => match parse_author (text_of s) with Some r => Ok (Some r) | None => Err PersistBadAuthor end
  end.

Definition write_curated (req : PersistCuratedRequest) (fm : Frontmatter) (id : ustr) (ck : write_clock) (v : vault) :
    result unit persist_error * vault :=
  match pc_expected_sha256 req with
  | Some expected_hex =>
      match parse_sha256_hex expected_hex with
      | None => (Err PersistBadSha, v)
      | Some expected =>
          match write_if_match fm (text_of (pc_body req)) id (Some expected) ck v with
          | (Ok (Vault.Written _), v') => (Ok tt, v')
          | (Ok (Vault.Conflict current), v') => (Err (PersistConflict current), v')
          | (Err e, v') => (Err (PersistFailed e), v')
          end
      end
  | None =>
      match write_note_with_id fm (text_of (pc_body req)) id ck v with
      | (Ok _, v') => (Ok tt, v')
      | (Err e, v') => (Err (PersistFailed e), v')
      end
  end.

Definition handle_persist_curated (state : St) (req : PersistCuratedRequest) (now : DateTime) (ck : write_clock)
    (v : vault) : result unit persist_error * vault :=
  match parse_ulid (pc_note_id req), parse_section (pc_section req), parse_status (pc_status req) with
  | None, _, _ => (Err PersistBadUlid, v)
  | Some _, None, _ => (Err PersistBadSection, v)
  | Some _, Some _, None => (Err PersistBadStatus, v)
  | Some ulid, Some section, Some status =>
      match request_author (pc_author req) with
      | Err e => (Err e, v)
      | Ok author =>
          match resolve_write_namespace (pc_tenant_id req) (pc_target_vault req) with
          | Err e => (Err e, v)
          | Ok write_vault =>
              match require_registered_data_vault state write_vault with
              | Err e => (Err e, v)
              | Ok _ => write_curated req (curated_frontmatter write_vault section status author req now)
                          (id_text ulid) ck v
              end
          end
      end
  end.

(** ** [handle_persist_forget] *)

Definition mark_frontmatter (fm : Frontmatter) (section : NoteSection) (now : DateTime) (by_ : option ustr) : Frontmatter :=
  let '(mkFrontmatter sv vi lo _ st sr sc ta au cr up ex pr _ _ _) := fm in
  mkFrontmatter sv vi lo section st sr sc ta au cr up ex pr (Some true) (Some now) by_.

Definition handle_persist_forget (req : PersistForgetRequest) (now : DateTime) (ck : write_clock) (v : vault) :
    result unit persist_error * vault :=
  match parse_ulid (pf_note_id req), parse_section (pf_section req) with
  | None, _ => (Err PersistBadUlid, v)
  | Some _, None => (Err PersistBadSection, v)
  | Some ulid, Some section =>
      match read_note (id_text ulid) v with
      | (Err (NoteNotFound _), v1) => (Err PersistNotFound, v1)
      | (Err e, v1) => (Err (PersistFailed e), v1)
      | (Ok existing, v1) =>
          let fm := mark_frontmatter (frontmatter existing) section now (text_of <$> pf_forgotten_by req) in
          match write_note_with_id fm (text_of (pf_body req)) (id_text ulid) ck v1 with
          | (Err e, v2) => (Err (PersistFailed e), v2)
          | (Ok _, v2) => (Ok tt, v2)
          end
      end
  end.

(** ** [handle_persist_distill] *)

Definition resectioned (fm : Frontmatter) (section : NoteSection) : Frontmatter :=
  let '(mkFrontmatter sv vi lo _ st sr sc ta au cr up ex pr fo fa fb) := fm in
  mkFrontmatter sv vi lo section st sr sc ta au cr up ex pr fo fa fb.

(** The frontmatter of a synthesis that is not stored yet. *)
Definition synthesis_frontmatter (req : PersistDistillRequest) (section : NoteSection) (now : DateTime) : Frontmatter :=
  let extra := if bool_decide (pd_derived_from req = []) then None
               else extra_insert None (lit "derived-from") (TArray (TString ∘ text_of <$> pd_derived_from req)) in
  mkFrontmatter 1 (text_of (pd_tenant_id req)) None section PendingReview
    (Some (text_of "distilled — en attente de revue")) None (parse_tags (pd_tags req))
    (Some (mkAuthor System (lit "vault-distiller") None)) now None extra (Some (lit "distilled")) None None None.

Definition mark_processed (req : PersistDistillRequest) (fm : Frontmatter) : Frontmatter :=
  if pd_mark_processed req then
    let extra := extra_insert (fm_extra fm) (lit "processed") (TBoolean true) in
    with_extra fm match pd_derived_into req with
                  | Some into => extra_insert extra (lit "derived-into") (TString (text_of into))
                  | None => extra
                  end
  else fm.

Definition handle_persist_distill (req : PersistDistillRequest) (now : DateTime) (ck : write_clock) (v : vault) :
    result unit persist_error * vault :=
  match parse_ulid (pd_note_id req), parse_section (pd_section req) with
  | None, _ => (Err PersistBadUlid, v)
  | Some _, None => (Err PersistBadSection, v)
  | Some ulid, Some section =>
      let write fm v1 :=
        match write_note_with_id (mark_processed req fm) (text_of (pd_body req)) (id_text ulid) ck v1 with
        | (Err e, v2) => (Err (PersistFailed e), v2)
        | (Ok _, v2) => (Ok tt, v2)
        end in
      match read_note (id_text ulid) v with
      | (Ok existing, v1) => write (resectioned (frontmatter existing) section) v1
      | (Err (NoteNotFound _), v1) => write (synthesis_frontmatter req section now) v1
      | (Err e, v1) => (Err (PersistFailed e), v1)
      end
  end.

(** ** The cascade of a deletion *)

Inductive VaultDisposition := Destroy | ArchiveIt (archived_by : option ustr) (gc_due_ms : Z).

(** Section and title of one row. *)
Definition get_note_protection_key (ix : index) (vault_id id : ustr) : option (ustr * ustr) :=
  (λ r, (r_section r, default [] (r_title r))) <$> notes ix !! (vault_id, id).

Definition delete_note_from_index (vault_id id : ustr) (ix : index) : bool * index :=
  match notes ix !! (vault_id, id) with
  | None => (false, ix)
  | Some r =>
      let ix1 := fts_delete (vault_id, id) (r_body_text r, default [] (r_tags r)) ix in
      (true, mkIndex (delete (vault_id, id) (notes ix1)) (postings ix1) (fts_corrupt ix1)
               (file_checksums ix1) (archives ix1))
  end.

(** [ulid] is the text of the request, [id] the identifier it denotes. *)
Definition cascade_delete_note (vault_id ulid id : ustr) (disposition : VaultDisposition) (now : DateTime) (v : vault) :
    result (option ustr) persist_error * vault :=
  let protected := match get_note_protection_key (v_index v) vault_id ulid with
                   | Some (section, title) => is_delete_protected section title
                   | None => false
                   end in
  if protected then (Err PersistForbidden, v)
  else
    let '(removed, v1) :=
      match disposition with
      | Destroy =>
          match delete_note_in vault_id id v with (Ok _, v1) => (Ok None, v1) | (Err e, v1) => (Err e, v1) end
      | ArchiveIt by_whom due =>
          match archive_note_in vault_id id by_whom due now v with
          | (Ok o, v1) => (Ok (Some (ao_archive_path o)), v1)
          | (Err e, v1) => (Err e, v1)
          end
      end in
    match removed with
    | Err (NoteNotFound _) => (Err PersistNotFound, v1)
    | Err e => (Err (PersistFailed e), v1)
    | Ok path => (Ok path, with_index v1 (delete_note_from_index vault_id ulid (v_index v1)).2)
    end.

Definition handle_delete_note (ulid : string) (vault_id : option string) (now : DateTime) (v : vault) :
    result unit persist_error * vault :=
  match parse_ulid ulid with
  | None => (Err PersistBadUlid, v)
  | Some u =>
      match cascade_delete_note (text_of (default "main"%string vault_id)) (text_of ulid) (id_text u) Destroy now v with
      | (Ok _, v') => (Ok tt, v')
      | (Err e, v') => (Err e, v')
      end
  end.

(** ** What a write leaves *)

Context {PL : PrivacyLaws} {YL : YamlLaws}.

(** The file of the note is there and reads back. *)
Definition stored (v : vault) (note : Note) : Prop :=
  ∃ c, v_files v !! note_md_relative_path note = Some c
       ∧ note_of_content (note_id note) c = Ok (note_on_disk note).

Lemma write_stored fm b id ck v note v' :
  masks_bodies = false → write_note_with_id fm b id ck v = (Ok note, v') →
  stored v' note ∧ note_id note = id ∧ body note = b
  ∧ ∃ tags extra now, frontmatter note = with_updated (with_extra (with_tags (rehomed fm) tags) extra) now.
Proof.
  intros Hm Hw. apply write_note_judged_Ok in Hw.
  split_and!; [|by apply (wr_id _ _ _ _ _ _ Hw)|by eapply wrote_body|by eapply wrote_frame].
  destruct Hw as [_ Hh _ _ _ (fs1 & md & Hmd & Hfs) _ _]. exists (TextFile md).
  split; [by rewrite Hfs, lookup_insert_eq|by apply written_text_parses].
Qed.

(** The calls that change nothing carry no request. *)
Lemma quiet_always {A} (Q : call → Prop) (p : prog A) :
  (∀ c, mutates c = false → Q c) → always (λ c, mutates c = false) (λ _, True) p → always Q (λ _, True) p.
Proof. intros HQ. by apply always_mono. Qed.

(** ** A curation of a stored note *)

Definition plain_request (c : call) : Prop :=
  match c with
  | PersistCurated req => pc_author req = None ∧ pc_provenance req = None ∧ pc_expected_sha256 req = None
  | _ => True
  end.
Lemma quiet_plain c : mutates c = false → plain_request c.
Proof. by destruct c. Qed.

Lemma persist_curated_plain job cs req :
  plain_request (PersistCurated req) → always plain_request (λ _, True) (persist_curated job cs req).
Proof.
  intros Hr. unfold persist_curated. cbn [prog_bind ask always]. split; [done|].
  intros [[]|[]]; cbn; try done. unfold on_conflict. by destruct (started_at _); cbn.
Qed.

Lemma reclassify_plain self job cs dto note :
  always plain_request (λ _, True) (curate_note (process_traced self) job cs (Some dto) note).
Proof.
  unfold curate_note. apply (always_bind _ (λ _, True)).
  { apply quiet_always; [apply quiet_plain|apply process_quiet]. }
  assert (∀ body, always plain_request (λ _, True)
            (resolve_wikilinks_via_client (cs_tenant_id cs) (ulid_to_string (cs_note_id cs)) body)) as Hl.
  { intros b. apply quiet_always; [apply quiet_plain|]. apply join_tasks_quiet. }
  intros [[d| |d reason] path] _; [|done|].
  - apply (always_bind _ (λ _, True)).
    { unfold curated_anchor. by destruct (cs_occurred_at cs); cbn. }
    intros anchor _. apply (always_bind _ (λ _, True)); [apply Hl|]. intros links _. by apply persist_curated_plain.
  - apply (always_bind _ (λ _, True)); [apply Hl|]. intros links _. by apply persist_curated_plain.
Qed.

Lemma handle_curate_plain self mt job cs :
  kind (spec job) = Curate cs → cs_title cs = None ∨ cs_body cs = None →
  always plain_request (λ _, True) (handle_curate (process_traced self) mt job).
Proof.
  intros Hk Hs. unfold handle_curate. destruct (is_dry_run job); [done|]. rewrite Hk. unfold guard.
  destruct (ensure_job_tenant _ _); [|done].
  destruct (cs_title cs), (cs_body cs); try (by destruct Hs); cbn [prog_bind ask always]; (split; [done|]);
    (intros [dto|]; [|done]); (destruct (String.eqb _ _); [done|apply reclassify_plain]).
Qed.

(** C28: the curation of a stored note gives it a new frontmatter. The worker sends
    neither an author nor a provenance with it, and the server builds the frontmatter from
    the request alone: whenever it accepts one, in a vault that does not mask, the file of
    the note keeps the text that was sent, but its author, its provenance, its locus and the
    mark of a forgetting are gone, and its date of creation is that of the curation. *)
Theorem curation_resets_frontmatter self mt job cs t r req x st now ck v v' :
  runs (handle_curate (process_traced self) mt job) t r → kind (spec job) = Curate cs →
  cs_title cs = None ∨ cs_body cs = None → mkEvent (PersistCurated req) x ∈ t → masks_bodies = false →
  handle_persist_curated st req now ck v = (Ok tt, v') →
  ∃ note, stored v' note ∧ (id_text <$> parse_ulid (pc_note_id req)) = Some (note_id note)
    ∧ body note = text_of (pc_body req)
    ∧ fm_author (frontmatter note) = None ∧ fm_provenance (frontmatter note) = None
    ∧ fm_locus (frontmatter note) = None ∧ fm_forgotten (frontmatter note) = None
    ∧ fm_created (frontmatter note) = now.
Proof.
  intros Hr Hk Hs He Hm H.
  destruct (always_runs _ _ _ _ _ (handle_curate_plain self mt job cs Hk Hs) Hr) as [Hp _].
  rewrite Forall_forall in Hp. destruct (Hp _ He) as (Ha & Hpr & Hsha).
  unfold handle_persist_curated in H. rewrite Ha in H. cbn [request_author] in H.
  destruct (parse_ulid _) as [u|]; [|done]. destruct (parse_section _); [|done]. destruct (parse_status _); [|done].
  destruct (resolve_write_namespace _ _) as [wv|]; [|done].
  destruct (require_registered_data_vault _ _); [|done].
  unfold write_curated in H. rewrite Hsha in H.
  destruct (write_note_with_id _ _ _ _ _) as [[note|] v2] eqn:Ew; [|done]. injection H as <-.
  destruct (write_stored _ _ _ _ _ _ _ Hm Ew) as (Hst & Hid & Hb & tags & extra & up & Hf).
  exists note. rewrite Hf, Hid. unfold curated_frontmatter, rehomed. rewrite Hpr.
  split_and!; [done|done|done|..]; by case_bool_decide.
Qed.

(** ** A forgetting *)

Definition bodiless (c : call) : Prop :=
  match c with PersistForget req => pf_body req = EmptyString | _ => True end.
Lemma quiet_bodiless c : mutates c = false → bodiless c.
Proof. by destruct c. Qed.

Lemma forget_loop_bodiless v by_ el fg sk : always bodiless (λ _, True) (forget_loop v by_ el fg sk).
Proof.
  revert fg sk. induction el as [|u el IH]; intros fg sk; [done|]. cbn [forget_loop].
  destruct (ulid_from_string u); [|by apply IH]. cbn [prog_bind ask always]. split; [done|].
  intros [dto|]; [|by apply IH]. destruct (nr_forgotten dto); cbn [prog_bind ask always].
  - split; [done|]. intros _. apply IH.
  - split; [done|]. intros [dto2|]; [|by apply IH]. cbn [prog_bind ask always]. split; [done|].
    intros [|]; apply IH.
Qed.
Lemma handle_forget_bodiless mt job : always bodiless (λ _, True) (handle_forget mt job).
Proof.
  unfold handle_forget. destruct (kind (spec job)); try done. unfold guard.
  destruct (resolve_job_vault _ _); [|done]. destruct (ensure_forget_scope_vault _ _); [|done].
  apply (always_bind _ (λ _, True)).
  { unfold forget_candidates. by destruct (fs_scope f); cbn [ask always]. }
  intros [raw|] _; [|done]. apply (always_bind _ (λ _, True)).
  { apply quiet_always; [apply quiet_bodiless|apply partition_quiet]. }
  intros [eligible excluded] _. destruct (_ || _); [done|]. case_bool_decide; [|done].
  apply (always_bind _ (λ _, True)); [apply forget_loop_bodiless|done].
Qed.

(** C26: forgetting a note erases its text. The worker sends an empty body with every
    forgetting and the server writes the body it is sent: whenever the server accepts such a
    request, in a vault that does not mask, the file of the note is replaced by one that
    reads back as marked forgotten and with nothing in its body. *)
Theorem forgetting_erases_the_text mt job t r req x now ck v v' :
  runs (handle_forget mt job) t r → mkEvent (PersistForget req) x ∈ t → masks_bodies = false →
  handle_persist_forget req now ck v = (Ok tt, v') →
  ∃ note, stored v' note ∧ (id_text <$> parse_ulid (pf_note_id req)) = Some (note_id note)
    ∧ fm_forgotten (frontmatter note) = Some true ∧ body note = [].
Proof.
  intros Hr He Hm H.
  destruct (always_runs _ _ _ _ _ (handle_forget_bodiless mt job) Hr) as [Hb _].
  rewrite Forall_forall in Hb. specialize (Hb _ He). cbn in Hb.
  unfold handle_persist_forget in H. destruct (parse_ulid _) as [u|]; [|done].
  destruct (parse_section _) as [section|]; [|done].
  destruct (read_note _ v) as [[existing|e] v1]; [|by destruct e].
  destruct (write_note_with_id _ _ _ _ _) as [[note|e] v2] eqn:Ew; [|done]. injection H as <-.
  destruct (write_stored _ _ _ _ _ _ _ Hm Ew) as (Hst & Hid & Hbody & tags & extra & up & Hf).
  exists note. rewrite Hf, Hid, Hbody, Hb. split_and!; [done|done| |done].
  unfold mark_frontmatter, rehomed. destruct (frontmatter existing). by destruct (bool_decide _).
Qed.

(** ** A distillation *)

(** The requests of a validation: the synthesis, and one for each of its sources. *)
Definition distill_request (vs : ValidateSpec) (c : call) : Prop :=
  match c with
  | PersistDistill req => (∃ src, req = source_request vs src) ∨ ∃ score, req = synthesis_request vs score
  | _ => True
  end.

Lemma mark_loop_requests vs sources modified : always (distill_request vs) (λ _, True) (mark_loop vs sources modified).
Proof.
  revert modified. induction sources as [|src sources IH]; intros modified; [done|].
  cbn [mark_loop prog_bind ask always]. split; [left; by exists src|]. intros x. apply IH.
Qed.

Lemma handle_validate_requests mt job vs :
  kind (spec job) = Validate vs → always (distill_request vs) (λ _, True) (handle_validate mt job).
Proof.
  intros Hk. unfold handle_validate. rewrite Hk. unfold guard. destruct (ensure_job_tenant _ _); [|done].
  apply (always_bind _ (λ _, True)).
  { unfold compute_quality. destruct (bool_decide _); [done|]. cbn [prog_bind ask always]. split; [done|].
    intros [synth|]; [|done]. cbn [prog_bind ask always]. split; [done|]. by intros [src|]. }
  intros q _. cbn [prog_bind ask always]. split; [right; by eexists|].
  intros [[]|]; [|done]. apply (always_bind _ (λ _, True)); [apply mark_loop_requests|done].
Qed.

(** C27: a synthesis is stored for review, and its sources are never marked.  Of the requests
    of a validation, the server refuses each one that marks a source as processed, whatever
    its vault holds, since the worker leaves the section out of it; so the next distillation
    finds the same sources again.  The synthesis itself, when it is accepted under an
    identifier under which the vault holds no note, is stored with its text (in a vault that
    does not mask), waiting for review in the section of references. *)
Theorem distilled_sources_stay_unmarked mt job vs t r req x now ck v :
  runs (handle_validate mt job) t r → kind (spec job) = Validate vs → mkEvent (PersistDistill req) x ∈ t →
  (pd_mark_processed req = true → ∃ e, handle_persist_distill req now ck v = (Err e, v))
  ∧ (∀ v', masks_bodies = false → handle_persist_distill req now ck v = (Ok tt, v') →
     (∀ u, parse_ulid (ulid_to_string (vs_note_id vs)) = Some u →
        (read_note (id_text u) v).1 = Err (NoteNotFound (id_text u))) →
     ∃ note, stored v' note ∧ (id_text <$> parse_ulid (ulid_to_string (vs_note_id vs))) = Some (note_id note)
       ∧ body note = text_of (vs_body vs) ∧ fm_section (frontmatter note) = Reference
       ∧ fm_status (frontmatter note) = PendingReview ∧ fm_provenance (frontmatter note) = Some (lit "distilled")).
Proof.
  intros Hr Hk He. destruct (always_runs _ _ _ _ _ (handle_validate_requests mt job vs Hk) Hr) as [Hp _].
  rewrite Forall_forall in Hp. destruct (Hp _ He) as [[src ->]|[score ->]].
  - assert (∃ e, handle_persist_distill (source_request vs src) now ck v = (Err e, v)) as [e E].
    { unfold handle_persist_distill. cbn [pd_note_id pd_section source_request].
      destruct (parse_ulid _); by eexists. }
    split; [by exists e|]. intros v' _. by rewrite E.
  - split; [done|]. intros v' Hm H Hnew. unfold handle_persist_distill in H.
    cbn [pd_note_id pd_section synthesis_request] in H.
    destruct (parse_ulid _) as [u|] eqn:Eu; [|done].
    destruct (parse_section "reference") as [section|] eqn:Es; [|done].
    assert (section = Reference) as -> by (vm_compute in Es; by injection Es).
    specialize (Hnew u eq_refl). destruct (read_note (id_text u) v) as [res v1]. cbn [fst] in Hnew. subst res.
    destruct (write_note_with_id _ _ _ _ _) as [[note|] v2] eqn:Ew; [|done]. injection H as <-.
    destruct (write_stored _ _ _ _ _ _ _ Hm Ew) as (Hst & Hid & Hb & tags & extra & up & Hf).
    exists note. rewrite Hf, Hid, Hb. unfold mark_processed, synthesis_frontmatter, rehomed.
    cbn [pd_mark_processed synthesis_request]. split_and!; try done; by destruct (bool_decide _).
Qed.

(** ** Deletion *)

(** What the vault does with a note changes no row, and succeeds only if the note has one. *)
Definition keeps_rows {A} (vault_id id : ustr) (v : vault) (rv : result A VaultError * vault) : Prop :=
  notes (v_index rv.2) = notes (v_index v)
  ∧ (∀ x, rv.1 = Ok x → ∃ row, notes (v_index v) !! (vault_id, id) = Some row).

Lemma get_note_row ix vault_id id row : get_note ix vault_id id = Some row → notes ix !! (vault_id, id) = Some row.
Proof. unfold get_note. by destruct (is_sentinel id). Qed.

Lemma delete_keeps_rows vault_id id v : keeps_rows vault_id id v (delete_note_in vault_id id v).
Proof.
  unfold delete_note_in. destruct (get_note _ _ _) as [row|] eqn:Eg; [|by split].
  apply get_note_row in Eg. destruct (fs_delete _ _) as [[[]|e] fs']; split; try done. by exists row.
Qed.
Lemma archive_keeps_rows vault_id id by_whom due now v :
  keeps_rows vault_id id v (archive_note_in vault_id id by_whom due now v).
Proof.
  unfold archive_note_in. destruct (get_note _ _ _) as [row|] eqn:Eg; [|by split].
  apply get_note_row in Eg. destruct (move_file _ _ _) as [[[]|e] fs1]; [|by split].
  cbn [with_files v_index]. unfold insert_archive_entry. destruct (_ && _); split; try done. by exists row.
Qed.

Lemma delete_from_index_rows vault_id ulid ix :
  notes (delete_note_from_index vault_id ulid ix).2 = delete (vault_id, ulid) (notes ix).
Proof.
  unfold delete_note_from_index. destruct (notes ix !! (vault_id, ulid)) as [row|] eqn:Er.
  - unfold fts_delete. by case_bool_decide.
  - cbn. by rewrite delete_id.
Qed.

(** The row under the text of the request decides. *)
Lemma protection_key ix vault_id ulid :
  match get_note_protection_key ix vault_id ulid with
  | Some (section, title) => is_delete_protected section title
  | None => false
  end = true
  ↔ ∃ row, notes ix !! (vault_id, ulid) = Some row
           ∧ is_delete_protected (r_section row) (default [] (r_title row)) = true.
Proof.
  unfold get_note_protection_key. destruct (notes ix !! (vault_id, ulid)) as [row|]; cbn; naive_solver.
Qed.

(** The end of a cascade whose note is not protected. *)
Lemma cascade_end vault_id ulid id v (removed : result (option ustr) VaultError) v1 :
  keeps_rows vault_id id v (removed, v1) →
  let '(res, v') := match removed with
                    | Err (NoteNotFound _) => (Err PersistNotFound, v1)
                    | Err e => (Err (PersistFailed e), v1)
                    | Ok path => (Ok path, with_index v1 (delete_note_from_index vault_id ulid (v_index v1)).2)
                    end in
  res ≠ Err PersistForbidden
  ∧ (∀ e, res = Err e → notes (v_index v') = notes (v_index v))
  ∧ (∀ path, res = Ok path →
     (∃ row, notes (v_index v) !! (vault_id, id) = Some row)
     ∧ notes (v_index v') = delete (vault_id, ulid) (notes (v_index v))).
Proof.
  intros [Hr Hi]. cbn [fst snd] in *. destruct removed as [path|e].
  - split_and!; [done|done|]. intros ? [= <-]. split; [by apply (Hi path)|].
    cbn. by rewrite delete_from_index_rows, Hr.
  - by destruct e; split_and!.
Qed.

(** C12: what the protection of a deletion guards.  A deletion is refused as forbidden, and
    changes nothing, exactly when the row found under the text of the request is protected; no
    failed deletion removes a row; one that succeeds was of a stored note, removes the row
    under the text of the request and no other, and when that text is the spelling of the index
    the note was not protected.  [ulid] is the text of the request and [id] the identifier it
    denotes: the two differ for a request in lower case, whose note is not looked at by the
    protection. *)
Theorem deletion_spares_protected vault_id ulid id disposition now v :
  let row_of x := notes (v_index v) !! (vault_id, x) in
  let protected row := is_delete_protected (r_section row) (default [] (r_title row)) in
  let '(res, v') := cascade_delete_note vault_id ulid id disposition now v in
  (res = Err PersistForbidden ↔ ∃ row, row_of ulid = Some row ∧ protected row = true)
  ∧ (res = Err PersistForbidden → v' = v)
  ∧ (∀ e, res = Err e → notes (v_index v') = notes (v_index v))
  ∧ (∀ path, res = Ok path →
     (∃ row, row_of id = Some row ∧ (ulid = id → protected row = false))
     ∧ notes (v_index v') = delete (vault_id, ulid) (notes (v_index v))).
Proof.
  cbn zeta. unfold cascade_delete_note.
  pose proof (protection_key (v_index v) vault_id ulid) as Hg.
  destruct (match get_note_protection_key _ _ _ with Some _ => _ | None => false end) eqn:Ep.
  { split_and!; [by rewrite <- Hg|done|by intros ? [= <-]|done]. }
  set (removal := match disposition with Destroy => _ | ArchiveIt _ _ => _ end).
  assert (Hk : keeps_rows vault_id id v removal).
  { destruct disposition as [|by_whom due]; subst removal.
    - pose proof (delete_keeps_rows vault_id id v) as [H1 H2].
      destruct (delete_note_in vault_id id v) as [[[]|e] v1]; split; try done. intros x _. by apply (H2 tt).
    - pose proof (archive_keeps_rows vault_id id by_whom due now v) as [H1 H2].
      destruct (archive_note_in _ _ _ _ _ v) as [[o|e] v1]; split; try done. intros x _. by apply (H2 o). }
  destruct removal as [removed v1]. pose proof (cascade_end vault_id ulid id v removed v1 Hk) as Hend.
  destruct (match removed with Ok _ => _ | Err _ => _ end) as [res v']. destruct Hend as (H1 & H2 & H3).
  split_and!; [by rewrite <- Hg|done|done|]. intros path Hp. destruct (H3 path Hp) as [[row Hrow] H4].
  split; [|done]. exists row. split; [done|]. intros ->.
  destruct (is_delete_protected _ _) eqn:E; [|done].
  assert (false = true) by (apply Hg; by exists row). done.
Qed.
End server.
