(* ===== verification/HandlerWitness.v ===== *)
(** * HandlerWitness: job handlers at work

    A small server whose answers are fixed, on which the handlers of the worker run and the
    hypotheses of their theorems are met. *)

From S2P Require Import Prelude Text Job Scope PrivacyPass Registry Notes Markdown ProjectLinks ProjectServer NoteStore Vault VaultWrite PrivacyBlock PrivacyProps VaultWitness Float SearchServer SearchQuery Distill Calls Curator Handlers HandlerProps PersistServer.

#[local] Open Scope nat_scope.

Module HandlerExamples.
#[local] Existing Instance sample_yaml.
#[local] Existing Instance sample_yaml_laws.
#[local] Existing Instance sample_yaml_prints.
#[local] Existing Instance VaultExamples.toy_hasher.
#[local] Existing Instance VaultExamples.three_letters.
#[local] Existing Instance VaultExamples.sound_disk.
#[local] Existing Instance VaultExamples.toy_digest.
#[local] Existing Instance VaultExamples.main_vault.
#[local] Existing Instance VaultExamples.quiet_frontier.
#[local] Existing Instance VaultExamples.quiet.

#[local] Instance three_ids : UlidCodec := {|
  ulid_to_string u := if (u =? 1)%N then "01A" else if (u =? 2)%N then "01B" else "01Z";
  ulid_from_string s :=
    if String.eqb s "01A" || String.eqb s "01a" then Some 1%N else if String.eqb s "01B" then Some 2%N
    else if String.eqb s "01Z" then Some 3%N else None;
  ulid_timestamp_ms _ := 0%Z;
|}.
#[local] Instance no_dates : ChronoParse := {| parse_rfc3339_ms _ := None; parse_ymd_ms _ := None |}.
#[local] Instance sections_by_name : SectionJson := from_canonical_str.
#[local] Instance sample_embedder : EmbedderInfo := {| embedder_id := "sample"; embedder_dim := 2%Z |}.
#[local] Instance ascii_letters : UnicodeTables := ascii_tables.
#[local] Instance small_letters : CaseTables := {| str_to_lowercase s := s; is_uppercase c := (65 <=? c)%N && (c <=? 90)%N |}.
#[local] Instance flat_libm : Libm := {| exp _ := f64_one; powf _ _ := f64_one; powf32 _ _ := f32_of_Z 1 |}.
(** No pattern is found in any text. *)
#[local] Instance no_match : Regex := {| is_match _ _ := false; find_count _ _ := 0 |}.

(** ** A server *)

Definition stored_dto (body : string) : NoteReadDto :=
  mkNoteRead "01A" "hash" body "decisions" None "live" ["kept"] false false.
Definition rows : list NoteIdDto := [mkNoteIdDto "01A" "decisions"; mkNoteIdDto "01B" "decisions"].

(** The note 01B is live again since it was listed as garbage. *)
Definition answers (w : unit) (c : call) : answer_of c * unit :=
  (match c as c return answer_of c with
   | GetNote _ u => if String.eqb u "01A" then Ok (stored_dto "hello [[elsewhere]]") else Err (ClientNotFound u)
   | GetNoteStatus _ u => Ok (Some (if String.eqb u "01A" then "garbage" else "live"))
   | GetNoteEmbedding _ _ _ => Ok [f32_of_Z 1; f32_of_Z 0]
   | GetTrust _ _ => Ok f32_one
   | TitleLookup _ _ | IdLookup _ _ => Some (Ok None)
   | ListByLocus _ _ | ListBySection _ _ | ListByStatus _ _ | ListGarbage _ _ _ | SearchForget _ _ _
   | ListByAgent _ _ => Ok rows
   | PersistCurated _ | PersistEmbedding _ | PersistForget _ | PersistDistill _ | ResyncForget _ _
   | DeleteNote _ _ => Ok tt
   | RescanBatch _ _ => Ok (mkRescan 0 0 0)
   | Enqueue _ | MarkConflict _ _ _ => Ok tt
   | EmbedText _ => Ok [f32_of_Z 1; f32_of_Z 0]
   | EmbedBatch ts => Ok ((λ _, [f32_of_Z 1; f32_of_Z 0]) <$> ts)
   | Synthesize _ => Ok ("title", "body")
   | ClassifyNote _ => Ok (mkLlmDecision "project-map" [] [] None)
   | PickTask n => n
   | NowMs | NowNs => 1000000%Z
   | NewUlid => 3%N
   end, w)%string.

(** ** Jobs *)

Definition job_of (k : Job) (m : JobMode) (s : JobScope) : JobRecord :=
  mkJobRecord 9%N (mkJobSpec k ClassAgent m s Normal) (mkJobScheduling Demand 0 [] None None)
    (mkJobLifecycle Running 0 (Some 0%Z) None None None) JobRetry_default (mkJobLineage None None None None [] None).

Definition purge_job : JobRecord := job_of (Purge (mkPurgeSpec Lifecycle false None)) Batch (ScopeVault "main").
Definition forget_job : JobRecord :=
  job_of (Forget (mkForgetSpec (ForgetLocus "main" "inbox") false (Some "ann"%string) ["01A"%string])) Batch (ScopeVault "main").
Definition curate_job : JobRecord :=
  job_of (Curate (mkCurateSpec 1%N "main" None None None [] None None None)) Batch (ScopeNotes [1%N]).
Definition validate_job : JobRecord :=
  job_of (Validate (mkValidateSpec 3%N "main" "title" "body" [1%N] ["hello"%string] [] f32_three_quarters f32_three_quarters))
    DryRun ScopeVaultWide.
Definition reviewing : CuratorPipeline := mkPipeline (f32_lit 8 10) true (f32_lit 7 10) FallbackReject.

(** The calls of a run, by its trace. *)
Definition trace {A} (p : prog A) : list event := (exec answers p tt).1.1.
Definition value {A} (p : prog A) : A := (exec answers p tt).1.2.
Lemma traced {A} (p : prog A) : runs p (trace p) (value p).
Proof. apply exec_runs. Qed.

(** ** Witnesses *)

Definition vague : CuratorNote := mkCuratorNote "01A" (lit "a note") (lit "of some kind") [] None.
Definition admitted_as : list ustr :=
  match section_of (value (process_traced reviewing vague)).1 with Some s => [s] | None => [] end.

Lemma curation_stays_canonical_witness :
  admitted_as = [lit "project-map"] ∧ lit "project-map" ∉ SECTIONS
  ∧ ∃ p d, trace (process_traced reviewing vague) = [mkEvent (ClassifyNote p) (Ok d)].
Proof.
  assert (admitted_as = [lit "project-map"]) as Ha by (vm_compute; reflexivity).
  assert (lit "project-map" ∉ SECTIONS) as Hn by (apply (bool_decide_unpack _); vm_compute; exact I).
  split; [exact Ha|split; [exact Hn|]].
  pose proof (traced (process_traced reviewing vague)) as Hr. unfold admitted_as in Ha.
  destruct (value (process_traced reviewing vague)) as [outcome path].
  destruct (curation_stays_canonical reviewing vague _ _ _ Hr) as (_ & Hs & _).
  cbn [fst] in Ha. destruct (section_of outcome) as [s|]; [|discriminate Ha]. injection Ha as ->.
  destruct (Hs _ eq_refl) as [[_ [H|H]]|(p & d & H & _)].
  - exfalso. exact (Hn H).
  - discriminate H.
  - exists p, d. exact H.
Defined.

(** Seven calls: the note is read, its link looked up, the note written and its embedding
    enqueued. *)
Lemma job_stays_in_its_vault_witness :
  length (trace (handle CuratorPipeline_new false curate_job)) = 7
  ∧ ∀ v e, e ∈ trace (handle CuratorPipeline_new false curate_job) → v ∈ call_vaults (ev_call e) →
      v = "main"%string.
Proof.
  split; [vm_compute; reflexivity|]. intros v e He Hv.
  destruct (job_stays_in_its_vault CuratorPipeline_new false curate_job _ _ (traced _)) as (H1 & _ & H3).
  apply (H3 eq_refl). exact (H1 v e He Hv).
Defined.

(** The validation of a synthesis writes in a dry run. *)
Lemma dry_run_changes_nothing_witness :
  runs (handle CuratorPipeline_new false (with_mode Batch validate_job))
    (trace (handle CuratorPipeline_new false validate_job)) (value (handle CuratorPipeline_new false validate_job))
  ∧ length (changes (trace (handle CuratorPipeline_new false validate_job))) = 2.
Proof.
  split; [|vm_compute; reflexivity].
  exact (dry_run_changes_nothing CuratorPipeline_new false validate_job _ _ eq_refl (traced _) Batch).
Defined.

(** Of two notes listed, the one that is still garbage is deleted. *)
Definition purge_counts (r : result JobOutput HandlerError) : option (nat * nat) :=
  match r with Ok (mkOutput _ _ (PurgeReport d s)) => Some (d, s) | _ => None end.
Lemma purge_deletes_only_garbage_witness :
  purge_counts (value (handle_purge false purge_job)) = Some (1, 1)
  ∧ ∃ v cutoff grace rows, mkEvent (ListGarbage v cutoff grace) (Ok rows) ∈ trace (handle_purge false purge_job)
      ∧ 1 + 1 = length rows.
Proof.
  assert (purge_counts (value (handle_purge false purge_job)) = Some (1, 1)) as Hc by (vm_compute; reflexivity).
  split; [exact Hc|].
  destruct (purge_deletes_only_garbage false purge_job _ _ (traced _)) as [_ H].
  destruct (value (handle_purge false purge_job)) as [[c m r]|e]; [|discriminate Hc].
  destruct r; try discriminate Hc. cbn in Hc. injection Hc as -> ->.
  destruct (H _ 1 1 eq_refl eq_refl) as (_ & H2). exact H2.
Defined.

(** The changes of the forgetting of 01A: 01B cannot be read, so it is left alone. *)
Definition forgetting : list event := changes (trace (handle_forget false forget_job)).
Lemma forget_only_confirmed_witness :
  ∃ e, forgetting = [e] ∧ forgets "main" (Some "ann"%string) ["01A"%string] (trace (handle_forget false forget_job)) e.
Proof.
  assert (length forgetting = 1) as Hl by (vm_compute; reflexivity).
  destruct forgetting as [|e [|]] eqn:Ef; try discriminate Hl. exists e. split; [reflexivity|].
  assert (e ∈ trace (handle_forget false forget_job) ∧ mutates (ev_call e) = true) as [He Hm].
  { assert (e ∈ forgetting) as Hin by (rewrite Ef; left).
    unfold forgetting, changes in Hin. rewrite list_elem_of_In, List.filter_In in Hin.
    destruct Hin as [He Hm]. split; [apply list_elem_of_In; exact He|exact Hm]. }
  destruct (forget_only_confirmed false forget_job _ _ e (traced _) He Hm) as (fs & v & l & rows & reads & rest & Hk & _ & _ & Hv & Ht & _ & _ & _ & _ & Hf).
  injection Hk as <-. injection Hv as <-. rewrite Ht. eapply forgets_mono; [| |exact Hf].
  - intros u Hu. exact Hu.
  - intros e' He'. right. apply elem_of_app. right. exact He'.
Defined.

(** A stored note is written back with the text that was read, and no expected hash. *)
Lemma curate_writes_once_witness :
  ∃ cs, kind (spec curate_job) = Curate cs
  ∧ requested curate_job cs (λ req, pc_body req = "hello [[elsewhere]]"%string ∧ pc_expected_sha256 req = None)
      (trace (handle_curate (process_traced CuratorPipeline_new) false curate_job))
      (value (handle_curate (process_traced CuratorPipeline_new) false curate_job)).
Proof.
  destruct (curate_writes_once (process_traced CuratorPipeline_new) false curate_job _ _
              (process_quiet CuratorPipeline_new) (traced _)) as (cs & Hk & _ & req & H1 & H2 & H3 & H4 & H5 & H6).
  - assert (length (changes (trace (handle_curate (process_traced CuratorPipeline_new) false curate_job))) = 2) as Hl
      by (vm_compute; reflexivity).
    intros E. rewrite E in Hl. discriminate Hl.
  - exists cs. split; [exact Hk|]. exists req.
    split; [exact H1|split; [exact H2|split; [exact H3|split; [exact H4|split; [|exact H6]]]]].
    injection Hk as <-. cbn in H5. destruct H5 as (dto & Hd & _ & Hb & Hs). split; [|exact Hs]. rewrite Hb.
    assert (Forall (λ e, match ev_call e as c return answer_of c → Prop with
                         | GetNote _ _ => λ x, x = Ok (stored_dto "hello [[elsewhere]]")
                         | _ => λ _, True end (ev_answer e))
              (trace (handle_curate (process_traced CuratorPipeline_new) false curate_job))) as Hf
      by (vm_compute; repeat constructor).
    rewrite Forall_forall in Hf. specialize (Hf _ Hd). cbn in Hf. injection Hf as ->. reflexivity.
Defined.

(** ** The server *)

(** One registered vault. *)
#[local] Instance main_only : IndexStore bool := {
  store_tenant_grants _ _ := Ok [];
  store_agent_grants _ _ := Ok [];
  store_get_tenant_status _ v := Ok (if String.eqb v "main" then Some Scope.Active else None);
}.

Lemma accepted (c : result unit persist_error * vault) : is_ok c.1 = true → c = (Ok tt, c.2).
Proof. by destruct c as [[[]|] v]. Qed.

(** A note of the vault, moved to the locus "inbox" and created at 1000000. *)
Definition curated_request_of (e : event) : option PersistCuratedRequest :=
  match ev_call e with PersistCurated req => Some req | _ => None end.
Definition curate_request : PersistCuratedRequest :=
  match omap curated_request_of (trace (handle CuratorPipeline_new false curate_job)) with
  | req :: _ => req
  | [] => mkPersistCurated "" "" "" "" "" [] None "" None None None [] false None None None
  end.
Definition curated := handle_persist_curated true curate_request 3000000 (VaultExamples.clock 3000000) VaultExamples.vault1.
Lemma curation_resets_frontmatter_witness :
  fm_locus (frontmatter VaultExamples.note1) = Some (lit "inbox")
  ∧ fm_created (frontmatter VaultExamples.note1) = 1000000%Z
  ∧ ∃ note, stored curated.2 note ∧ note_id note = VaultExamples.the_id
      ∧ fm_locus (frontmatter note) = None ∧ fm_created (frontmatter note) = 3000000%Z.
Proof.
  split; [vm_compute; reflexivity|split; [vm_compute; reflexivity|]].
  assert (mkEvent (PersistCurated curate_request) (Ok tt) ∈ trace (handle_curate (process_traced CuratorPipeline_new) false curate_job)) as He.
  { vm_compute. do 3 apply list_elem_of_further. apply list_elem_of_here. }
  assert (masks_bodies = false) as Hm by reflexivity.
  assert (curated = (Ok tt, curated.2)) as Hp by (apply accepted; vm_compute; reflexivity).
  destruct (curation_resets_frontmatter CuratorPipeline_new false curate_job _ _ _ curate_request (Ok tt) true 3000000
              (VaultExamples.clock 3000000) VaultExamples.vault1 curated.2 (traced _) eq_refl (or_introl eq_refl) He Hm Hp)
    as (note & H1 & H2 & _ & _ & _ & H3 & _ & H4).
  exists note. split; [exact H1|split; [|split; [exact H3|exact H4]]].
  injection H2 as H2. rewrite <- H2. vm_compute. reflexivity.
Defined.

(** The vault of the server before and after: the note said "hello". *)
Definition forget_request : PersistForgetRequest := mkPersistForget "01A" "main" EmptyString "decisions" (Some "ann"%string).
Definition forgotten := handle_persist_forget forget_request 3000000 (VaultExamples.clock 3000000) VaultExamples.vault1.
Lemma forgetting_erases_the_text_witness :
  body VaultExamples.note1 = lit "hello"
  ∧ ∃ note, stored forgotten.2 note ∧ note_id note = VaultExamples.the_id ∧ body note = [].
Proof.
  split; [vm_compute; reflexivity|].
  assert (mkEvent (PersistForget forget_request) (Ok tt) ∈ trace (handle_forget false forget_job)) as He.
  { vm_compute. do 5 apply list_elem_of_further. apply list_elem_of_here. }
  assert (masks_bodies = false) as Hm by reflexivity.
  assert (forgotten = (Ok tt, forgotten.2)) as Hp by (apply accepted; vm_compute; reflexivity).
  destruct (forgetting_erases_the_text false forget_job _ _ forget_request (Ok tt) 3000000
              (VaultExamples.clock 3000000) VaultExamples.vault1 forgotten.2 (traced _) He Hm Hp)
    as (note & H1 & H3 & _ & H5).
  exists note. split; [exact H1|split; [|exact H5]]. injection H3 as H3. rewrite <- H3. vm_compute. reflexivity.
Defined.

(** The two requests of a validation: the synthesis 01Z is new, its source 01A is stored. *)
Definition distill_requests : list PersistDistillRequest :=
  omap (λ e, match ev_call e with PersistDistill req => Some req | _ => None end)
    (trace (handle_validate false validate_job)).
Definition marking : PersistDistillRequest :=
  default (mkPersistDistill "" "" "" "" "" None None false None [] []) (distill_requests !! 1).
Definition synthesis : PersistDistillRequest :=
  default (mkPersistDistill "" "" "" "" "" None None false None [] []) (distill_requests !! 0).
Definition synthesised := handle_persist_distill synthesis 3000000 (VaultExamples.clock 3000000) VaultExamples.vault1.
Lemma distilled_sources_stay_unmarked_witness :
  (pd_note_id marking = "01A"%string
   ∧ ∃ e, handle_persist_distill marking 3000000 (VaultExamples.clock 3000000) VaultExamples.vault1
          = (Err e, VaultExamples.vault1))
  ∧ ∃ note, stored synthesised.2 note ∧ fm_section (frontmatter note) = Reference
            ∧ fm_status (frontmatter note) = PendingReview.
Proof.
  split.
  - split; [vm_compute; reflexivity|].
    assert (mkEvent (PersistDistill marking) (Ok tt) ∈ trace (handle_validate false validate_job)) as He.
    { vm_compute. do 4 apply list_elem_of_further. apply list_elem_of_here. }
    destruct (distilled_sources_stay_unmarked false validate_job _ _ _ marking (Ok tt) 3000000
                (VaultExamples.clock 3000000) VaultExamples.vault1 (traced _) eq_refl He) as [H _].
    apply H. vm_compute. reflexivity.
  - assert (mkEvent (PersistDistill synthesis) (Ok tt) ∈ trace (handle_validate false validate_job)) as He.
    { vm_compute. do 3 apply list_elem_of_further. apply list_elem_of_here. }
    assert (synthesised = (Ok tt, synthesised.2)) as Hp by (apply accepted; vm_compute; reflexivity).
    destruct (distilled_sources_stay_unmarked false validate_job _ _ _ synthesis (Ok tt) 3000000
                (VaultExamples.clock 3000000) VaultExamples.vault1 (traced _) eq_refl He) as [_ H].
    destruct (H synthesised.2 eq_refl Hp) as (note & H1 & _ & _ & H2 & H3 & _).
    { intros u Hu. vm_compute in Hu. injection Hu as <-. vm_compute. reflexivity. }
    exists note. split; [exact H1|split; [exact H2|exact H3]].
Defined.

(** The note 01A is in the section of decisions, which is protected from deletion. *)
Lemma deletion_spares_protected_witness :
  cascade_delete_note (lit "main") VaultExamples.the_id VaultExamples.the_id Destroy 3000000 VaultExamples.vault1
  = (Err PersistForbidden, VaultExamples.vault1).
Proof.
  pose proof (deletion_spares_protected (lit "main") VaultExamples.the_id VaultExamples.the_id Destroy 3000000
                VaultExamples.vault1) as H.
  cbn zeta in H. destruct (cascade_delete_note _ _ _ _ _ VaultExamples.vault1) as [res v'].
  destruct H as [Hf [Hv _]].
  assert ((λ r, is_delete_protected (r_section r) (default [] (r_title r)))
            <$> notes (v_index VaultExamples.vault1) !! (lit "main", VaultExamples.the_id) = Some true) as Hp
    by (vm_compute; reflexivity).
  destruct (notes (v_index VaultExamples.vault1) !! (lit "main", VaultExamples.the_id)) as [row|]; [|discriminate Hp].
  injection Hp as Hp. assert (res = Err PersistForbidden) as E by (apply Hf; exists row; split; [reflexivity|exact Hp]).
  rewrite (Hv E), E. reflexivity.
Defined.

(** The guard reads the row under the text of the request, the vault the note it denotes:
    under another spelling of the same identifier the file of the protected note is deleted. *)
Example other_spelling_is_deleted :
  let '(res, v') := handle_delete_note "01a" None 3000000 VaultExamples.vault1 in
  is_ok res = true ∧ v_files VaultExamples.vault1 !! VaultExamples.path1 ≠ None ∧ v_files v' !! VaultExamples.path1 = None.
Proof. vm_compute. split; [reflexivity|split; [discriminate|reflexivity]]. Qed.
End HandlerExamples.
